(* ===== verification/_CoqProject ===== *)
-Q . S2P
Prelude.v
Bitstream.v
F32.v
Quantizer.v
Movement.v
Messages.v
Morton.v
Grid.v
EntityStore.v
World.v
Snapshot.v
SequenceBuffer.v
Reliability.v
Connection.v
ClientView.v
Replication.v
Region.v
Text.v
Redis.v
Store.v
Presence.v
Migration.v
Shard.v
Http.v
Listener.v
Matchmaker.v
Digest.v
WebSocket.v
Metrics.v
Logging.v
WorldServer.v
Endpoint.v
ViewerPage.v
UdpSocket.v
GameClient.v
LoadTest.v
ShardRun.v
Session.v
Programs.v
Benches.v
