(* ===== verification/Prelude.v ===== *)
(** * Morton: verification development

    Morton is a sharded, server-authoritative multiplayer world.  A shard process
    simulates the entities of some regions of a square world at a fixed tick, takes
    input packets from its clients over UDP, sends each of them delta-compressed
    snapshots of what it can see, hands a player that crosses into another region to
    the shard that owns it through tickets in a Redis server, and shows its state on an
    HTTP port and a WebSocket.  A matchmaker tells a new client which shard to dial.
    This development translates that code into Rocq, one file per component, and
    proves what each component promises the ones above it.  Paths are relative to the
    repository; the sources are under [src/src/].

    ** Files, in dependency order

    - [Prelude]: machine words, option and list lemmas, the hint databases.
    - [Bitstream] ([proto/bitstream.h]): [BitWriter], [BitReader], varints, zigzag; the
      class [Codec] every message codec is an instance of.
    - [F32] ([core/types.h]): binary32 arithmetic, vectors, casts, sequence numbers.
    - [Quantizer] ([proto/bitstream.h]), [Movement] ([sim/movement.h]), [Messages]
      ([proto/messages.h], [net/protocol.h]): fixed point fields, the integrator that
      client and server share, input packets and events.
    - [Morton], [Grid] ([spatial/]): Z-order codes; the grid, queries and pairs.
    - [EntityStore], [World] ([sim/world.h], [world.cpp]): the arrays and their index;
      players' command buffers, the tick, collisions, spawning and adoption.
    - [Snapshot] ([proto/snapshot.h], [snapshot.cpp]): relevance, deltas, budget,
      acknowledgement and decoding.
    - [SequenceBuffer], [Reliability] ([net/sequence_buffer.h], [net/reliability.h],
      [reliability.cpp]): wrapping sequences, packets, acks, reliable messages.
    - [Connection] ([net/connection.h], [connection.cpp], [address.h]): handshake with
      salts, the server's tables, the client's state machine.
    - [Endpoint] ([net/address.h], [address.cpp]): addresses as text.  [ViewerPage]
      ([app/viewer_page.h]): the browser's page.  [UdpSocket] ([net/udp_socket.h],
      [udp_socket.cpp]): batches of datagrams and the counters, with and without batch
      calls.
    - [ClientView] ([sim/client_view.h], [client_view.cpp]): prediction, replay,
      baselines, interpolation.  [Replication]: the server's side of [Snapshot] and the
      client's, with a network in between, as a step relation.
    - [Region] ([sim/region.h]): the region grid and who owns which region.
    - [Text]: the string functions of the C++ library the cluster code uses.
    - [Redis] ([cluster/redis.h], [redis.cpp]): the RESP client over a script of system
      call results.  [Store]: the interface of the Redis server, its documented laws,
      and an executable server that satisfies them.
    - [Presence], [Migration], [Shard] ([cluster/presence.*], [migration.*], [shard.*]):
      the player directory, tickets, and the coordinator that ties them to ownership.
    - [Http] ([net/http.h], [http.cpp], [http_client.*]): requests, responses, JSON,
      routing.  [Listener]: the server's thread and its owner, step by step.
      [Matchmaker] ([cluster/matchmaker.*]): sessions and grants.
    - [Digest], [WebSocket] ([net/websocket.h], [websocket.cpp]): SHA-1, base64; the
      viewer bridge with its two threads as a step relation.
    - [Metrics] ([metrics/registry.h], [registry.cpp]): counters, gauges, histograms and
      the text they are exposed as.  [Logging] ([core/log.h], [core/time.h]): log lines,
      clocks and the precise sleep.
    - [WorldServer] ([app/world_server.h], [world_server.cpp]): the composition of a
      shard, as callbacks of [Connection] and the tick.  [ShardRun]: its invariant and
      the loop.
    - [GameClient] ([app/game_client.h], [game_client.cpp]): the player's side.
      [Session]: what shards and clients do together.
    - [LoadTest] ([app/load_test.h], [load_test.cpp]): the fleet of bots.
    - [Programs] ([apps/world/main.cpp], [apps/matchmaker/main.cpp],
      [apps/loadtest/main.cpp], at the top of the repository, and [core/build_info.*]):
      options, start and stop, exit codes.  [Benches] ([apps/sockbench/main.cpp],
      [apps/replbench/main.cpp]): the benchmark programs.

    ** How the model corresponds to the code

    A class is a record of its members, a method a function from the record to the new
    record and the result; [option] results stand for what the C++ signals with [bool],
    a null pointer or an aborting check, and [None] of a whole step ([World.step],
    [WorldServer.tick]) for undefined behaviour or a failed [MORTON_CHECK], which
    the safety theorems exclude.  Unsigned integers are [Z] in their range, every
    operation that can wrap followed by [u8], [u16], [u32] or [u64].  [f32] and [f64] are
    IEEE formats with round to nearest even ([SpecFloat]); no fused operation is
    assumed.  Sockets are values: what arrives is an argument, what is sent is logged.
    Clocks and random bits are arguments or sequences of readings about which nothing
    is assumed.  Threads are steps that interleave: an inductive relation for the WebSocket
    bridge and the load test's counters, an executable function for the HTTP listener.
    The players in a [std::unordered_map] are visited in an order the theorems quantify
    over ([World.step], [WorldServer.Visiting]); the transport's connections in the order
    of the finite map.

    Code that is not in the repository is an argument: [std::nth_element] (its
    contract), undefined casts and [std::cos]/[std::sin] ([F32.Platform]), [inet_pton] and
    [getaddrinfo] ([Endpoint.Resolver]), [printf] of floats, [std::log] and [std::pow]
    ([Presence.FloatText], [Metrics.MathLib]), the generator ([Shard.Rng]), the system
    calls of a socket (their results, call by call), and the Redis server
    ([Store.Redis] with the laws [RedisLaws]).  Each is instantiated in the witnesses.

    The sockets of [Connection] are flat: [receive] takes the list of datagrams that
    wait, and everything sent is appended to a log.  [UdpSocket] shows that batching
    keeps the order of what is batched and of what is received.

    ** What the theorems show

    - Formats: the bit stream, the quantizers, input packets, datagrams, tickets, HTTP
      exchanges and grants are read back as they were written; decoders are total on
      hostile bytes and yield values in range; the digest of the WebSocket handshake
      is SHA-1.
    - Simulation: the grid buckets and pairs are exact, the arrays refine a finite map,
      the world's invariant holds along all runs, the tick cannot go out of bounds, each
      command is taken from its queue at most once (the number 0 apart), a tick that
      finds the queue empty repeats the last one for a while, the order of the players
      does not matter, and nothing leaves the walls.
    - Replication: a decoded snapshot is what the server remembers having sent, every
      visible entity is sent when the budget allows, and the client's prediction is
      the replay of the inputs pushed since the state acknowledged last, of which its
      history keeps the newest.  Whatever the
      network does, a snapshot newer than what the client has finds its baseline there,
      as long as the two rings have one size and no snapshot comes a whole ring late.
    - Transport: a buffer of sequences holds the last value stored under each number of
      its window; delivery in order without gaps or duplicates over a network that
      loses, duplicates and reorders, where a message can be lost for good only with
      packet 0, which a peer acknowledges before it has received anything; progress when
      the network stops losing; the handshake completes; the server's tables stay
      consistent under any datagrams and any owner that keeps to the server's
      operations, and only an owner that drops the connection it is just told of makes
      the server touch a freed one; batched sockets keep the order and account for every
      datagram.
    - Cluster: at most one redemption of a ticket, compare-and-set of the directory,
      agreement of all shards on ownership, the state a handoff carries, the grant a
      client gets (that of the directory, except where a failed read is ignored).
    - Bridge: viewers see whole frames in order, within the limits.
    - Bridge and listener: the HTTP listener serves its clients in order and closes what it
      opens; told to stop, its thread takes at most six more steps and never waits but in
      a call that comes back by itself, except for a client that has stopped reading its
      answer, on which [stop] hangs, and for an [accept] on a number closed under it
      ([Listener.listener_stops]); the page names the one endpoint it was made for; a
      sleep ends at the first reading of the clock past its target
      ([Logging.sleep_precise]).
    - Whole programs: a shard keeps running, with transport, player tables and world in
      agreement, whatever arrives and whatever the cluster answers
      ([ShardRun.shard_keeps_running]); the world server's program exits with 1 before it
      simulates anything, or runs, says farewell to its clients and exits with 0
      ([Programs.world_program_exits]); a command survives five lost packets in a row
      ([GameClient.commands_survive_losses]); a player that connects again goes on in the
      state it was in ([Session.reconnect_resumes]); one that crosses into another shard
      goes on from its place and velocity, without the commands the source had received
      and not yet simulated ([Session.migration_continues]); the load test's
      threads count each client once ([LoadTest.fleet_counters_agree]); the replication
      benchmark completes ([Benches.replbench_completes]).

    ** Fuel and bounds

    Recursion that is not structural runs on fuel, and the fuel is always what the code
    could use at most: a flush of the bit accumulator writes at most 5 bytes, a varint
    of 32 bits has at most 5 groups of 7, a 64-bit number at most 20 digits; SHA-1 pads
    by at most 64 bytes; parsing a Redis reply takes one unit for each byte that is
    left, and one; scans of headers, queries and frames take the length of the text;
    the loss loop of an endpoint takes the distance between two sequence numbers, and a
    batch of datagrams its length.  Round trips and the lemmas next to the definitions
    show that more is never needed ([Reliability.update_terminates] for the loss loop).
    Counters that only grow are assumed not to pass 2^32 within a run where that
    matters, and the theorem says so ([run_size]).  The loops of the socket benchmark and
    the spinning part of a sleep run on fuel that is an argument; [Benches] shows how much
    the first needs and when none is enough, [Logging.sleep_precise] that the second needs
    no more than the readings of the clock up to the target.

    ** Not modelled, and why

    What a browser does with the viewer's page; the tests, which only call the library;
    the lines the components log (they have no effect but output; [Logging] says what a
    line looks like).  Metrics other than the tick histogram that feeds the heartbeat are
    not part of the shard's state.  Two threads that touch the same plain variable are
    kept apart by the steps they are modelled in: the accesses the code does not order
    (the HTTP threads reading the world, the listener's descriptor) are recorded as
    findings.  A number of regions per axis of zero, by which [RegionMap::bounds_of] and
    [center_of] divide, gives [None] in the model ([Region.bounds_of]), and is excluded by
    the invariant of a shard; [region_of] divides floats and is total.  The order in which the
    transport visits its connections is that of the finite map.  Memory exhaustion is not
    modelled, nor is the signal a write to a closed stream raises: a call that fails returns. *)

From Stdlib Require Import ZArith Lia Bool Ascii String.
From stdpp Require Import base tactics numbers list option strings.

#[local] Open Scope Z_scope.

(** ** Machine words ([src/src/core/types.h])

    A [w]-bit unsigned integer is a [Z] in [[0, 2^w)]; every operation that can
    wrap in C++ is followed by the matching truncation. *)
Definition wrap (w z : Z) : Z := z mod 2 ^ w.

Abbreviation u8 := (wrap 8).
Abbreviation u16 := (wrap 16).
Abbreviation u32 := (wrap 32).
Abbreviation u64 := (wrap 64).

(** Two's complement 32-bit conversion, [static_cast<i32>]. *)
Definition i32 (z : Z) : Z := (z + 2 ^ 31) mod 2 ^ 32 - 2 ^ 31.

Definition fits (w z : Z) : Prop := 0 <= z < 2 ^ w.

Lemma wrap_range w z : 0 <= w -> fits w (wrap w z).
Proof. intros Hw. apply Z.mod_pos_bound, Z.pow_pos_nonneg; lia. Qed.

Lemma wrap_small w z : fits w z -> wrap w z = z.
Proof. apply Z.mod_small. Qed.

Lemma wrap_wrap w z : wrap w (wrap w z) = wrap w z.
Proof. apply Zmod_mod. Qed.

Lemma wrap_add_l w a b : wrap w (wrap w a + b) = wrap w (a + b).
Proof. apply Zplus_mod_idemp_l. Qed.

Lemma wrap_add_r w a b : wrap w (a + wrap w b) = wrap w (a + b).
Proof. apply Zplus_mod_idemp_r. Qed.

Lemma i32_small z : - 2 ^ 31 <= z < 2 ^ 31 -> i32 z = z.
Proof. intros Hz. unfold i32. rewrite Z.mod_small; lia. Qed.

(** ** Bit lists, least significant bit first *)
Fixpoint zbits (n : nat) (v : Z) : list bool :=
  match n with
  | O => []
  | S k => Z.odd v :: zbits k (Z.div2 v)
  end.

Fixpoint bval (l : list bool) : Z :=
  match l with
  | [] => 0
  | b :: l => Z.b2z b + 2 * bval l
  end.

Definition bits_of_bytes (l : list Z) : list bool := concat (zbits 8 <$> l).

Lemma length_zbits n v : length (zbits n v) = n.
Proof. revert v; induction n; simpl; congruence. Qed.

Lemma bval_zbits n v : bval (zbits n v) = v mod 2 ^ Z.of_nat n.
Proof.
  revert v; induction n as [|n IH]; intros v; cbn [zbits bval].
  { by rewrite Z.mod_1_r. }
  rewrite IH, Nat2Z.inj_succ, Z.pow_succ_r by lia.
  rewrite Z.div2_div.
  pose proof (Z.div_mod v 2 ltac:(lia)) as Hd.
  rewrite Zmod_odd in Hd.
  rewrite (Z.rem_mul_r v 2 (2 ^ Z.of_nat n)) by lia.
  rewrite Zmod_odd. unfold Z.b2z. destruct (Z.odd v); lia.
Qed.

Lemma bval_range l : 0 <= bval l < 2 ^ Z.of_nat (length l).
Proof.
  induction l as [|b l IH]; cbn [bval length]; [lia|].
  rewrite Nat2Z.inj_succ, Z.pow_succ_r by lia. destruct b; simpl Z.b2z; lia.
Qed.

Lemma zbits_bval l : zbits (length l) (bval l) = l.
Proof.
  induction l as [|b l IH]; [done|]. cbn [zbits bval length].
  assert (Z.odd (Z.b2z b + 2 * bval l) = b) as ->.
  { rewrite Z.odd_add, Z.odd_mul. by destruct b. }
  assert (Z.div2 (Z.b2z b + 2 * bval l) = bval l) as ->.
  { rewrite Z.div2_div. symmetry. apply Z.div_unique with (Z.b2z b); destruct b; simpl; lia. }
  by rewrite IH.
Qed.

Lemma zbits_app n m v : zbits (n + m) v = zbits n v ++ zbits m (Z.shiftr v (Z.of_nat n)).
Proof.
  revert v; induction n as [|n IH]; intros v; [by rewrite Z.shiftr_0_r|].
  cbn [zbits Nat.add app]. rewrite IH. do 3 f_equal.
  rewrite Z.div2_spec, Z.shiftr_shiftr by lia. f_equal; lia.
Qed.

Lemma zbits_eq n a b :
  a mod 2 ^ Z.of_nat n = b mod 2 ^ Z.of_nat n -> zbits n a = zbits n b.
Proof.
  intros Hab. rewrite <- (zbits_bval (zbits n a)), <- (zbits_bval (zbits n b)).
  by rewrite !length_zbits, !bval_zbits, Hab.
Qed.

Lemma zbits_wrap n w v : Z.of_nat n <= w -> zbits n (wrap w v) = zbits n v.
Proof.
  intros Hnw. apply zbits_eq. unfold wrap.
  replace w with (Z.of_nat n + (w - Z.of_nat n)) by lia.
  rewrite Z.pow_add_r, Z.rem_mul_r by lia.
  rewrite Z.mul_comm, Z.mod_add by lia. apply Zmod_mod.
Qed.

Lemma bval_inj l1 l2 : length l1 = length l2 -> bval l1 = bval l2 -> l1 = l2.
Proof. intros Hl Hv. rewrite <- (zbits_bval l1), <- (zbits_bval l2). congruence. Qed.

Lemma bval_app l1 l2 : bval (l1 ++ l2) = bval l1 + 2 ^ Z.of_nat (length l1) * bval l2.
Proof.
  induction l1 as [|b l1 IH]; [cbn [bval length app]; lia|].
  cbn [bval length app]. rewrite IH, Nat2Z.inj_succ, Z.pow_succ_r by lia. lia.
Qed.

Lemma lor_shiftl_add a b n : 0 <= n -> 0 <= a < 2 ^ n -> Z.lor a (Z.shiftl b n) = a + 2 ^ n * b.
Proof.
  intros Hn Ha. rewrite Z.shiftl_mul_pow2, (Z.mul_comm b) by lia.
  rewrite <- Z.lxor_lor; [symmetry; apply Z.add_nocarry_lxor|];
    apply Z.bits_inj'; intros i Hi; rewrite Z.land_spec, Z.bits_0;
    (destruct (Z.lt_ge_cases i n);
     [rewrite Z.mul_comm, Z.mul_pow2_bits_low by lia; apply andb_false_r
     |rewrite <- (Z.mod_small a (2 ^ n)) by lia; by rewrite Z.mod_pow2_bits_high by lia]).
Qed.

Lemma zbits_lor_shiftl n m a v :
  0 <= a < 2 ^ Z.of_nat n ->
  zbits (n + m) (Z.lor a (Z.shiftl v (Z.of_nat n))) = zbits n a ++ zbits m v.
Proof.
  intros Ha. rewrite lor_shiftl_add by lia. rewrite zbits_app. f_equal.
  - apply zbits_eq. by rewrite Z.mul_comm, Z.mod_add by lia.
  - rewrite Z.shiftr_div_pow2, Z.mul_comm, Z.div_add by lia.
    by rewrite Z.div_small by lia.
Qed.

Lemma bits_of_bytes_app l1 l2 : bits_of_bytes (l1 ++ l2) = bits_of_bytes l1 ++ bits_of_bytes l2.
Proof. unfold bits_of_bytes. by rewrite fmap_app, concat_app. Qed.

Lemma length_bits_of_bytes l : length (bits_of_bytes l) = (8 * length l)%nat.
Proof.
  induction l as [|b l IH]; [done|].
  unfold bits_of_bytes in *. cbn [fmap list_fmap concat].
  rewrite length_app, IH, length_zbits. cbn [length]. lia.
Qed.

Lemma length_bits_of_bytes_Z l : Z.of_nat (length (bits_of_bytes l)) = 8 * Z.of_nat (length l).
Proof. rewrite length_bits_of_bytes; lia. Qed.

Lemma drop_bits_of_bytes k l : drop (8 * k) (bits_of_bytes l) = bits_of_bytes (drop k l).
Proof.
  revert l; induction k as [|k IH]; intros l; [done|].
  destruct l as [|b l]; [by rewrite !drop_nil|].
  replace (8 * S k)%nat with (8 + 8 * k)%nat by lia.
  rewrite <- drop_drop. cbn [drop]. rewrite <- IH. f_equal.
Qed.

Lemma take_bits_of_bytes k l : take (8 * k) (bits_of_bytes l) = bits_of_bytes (take k l).
Proof.
  revert l; induction k as [|k IH]; intros l; [done|].
  destruct l as [|b l]; [by rewrite !take_nil|].
  change (bits_of_bytes (b :: l)) with (zbits 8 b ++ bits_of_bytes l).
  change (bits_of_bytes (take (S k) (b :: l))) with (zbits 8 b ++ bits_of_bytes (take k l)).
  rewrite take_app, (take_ge (zbits 8 b)), length_zbits by (rewrite length_zbits; lia).
  by replace (8 * S k - 8)%nat with (8 * k)%nat by lia; rewrite IH.
Qed.

Lemma bits_of_bytes_inj l1 l2 :
  Forall (fits 8) l1 -> Forall (fits 8) l2 -> bits_of_bytes l1 = bits_of_bytes l2 -> l1 = l2.
Proof.
  intros H1 H2 E. revert l2 H2 E. induction H1 as [|a l1 Ha _ IH]; intros [|b l2] H2 E; try done.
  change (zbits 8 a ++ bits_of_bytes l1 = zbits 8 b ++ bits_of_bytes l2) in E.
  apply app_inj_1 in E as [Eab E]; [|by rewrite !length_zbits].
  inversion_clear H2 as [|?? Hb Hl2]. f_equal; [|by apply IH].
  apply (f_equal bval) in Eab. rewrite !bval_zbits in Eab.
  unfold fits in *. by rewrite !Z.mod_small in Eab by lia.
Qed.

Lemma Forall_zeros n : Forall (fits 8) (repeat 0 n).
Proof. induction n; constructor; [unfold fits; lia|done]. Qed.

Lemma bits_of_bytes_cons b l : bits_of_bytes (b :: l) = zbits 8 b ++ bits_of_bytes l.
Proof. done. Qed.

Lemma bits_of_bytes_singleton b : bits_of_bytes [b] = zbits 8 b.
Proof. apply app_nil_r. Qed.

Lemma fits_lor w a b : 0 <= w -> fits w a -> fits w b -> fits w (Z.lor a b).
Proof.
  unfold fits. intros Hw Ha Hb. assert (0 <= Z.lor a b) by (apply Z.lor_nonneg; lia). split; [done|].
  rewrite <- (Z.mod_small a (2 ^ w)), <- (Z.mod_small b (2 ^ w)) by lia.
  rewrite <- !Z.land_ones, <- Z.land_lor_distr_l, Z.land_ones by lia.
  apply Z.mod_pos_bound, Z.pow_pos_nonneg; lia.
Qed.

Lemma fits_lxor n a b : 0 <= n -> fits n a -> fits n b -> fits n (Z.lxor a b).
Proof.
  intros Hn [A1 A2] [B1 B2]. split; [by apply Z.lxor_nonneg|].
  destruct (Z.eq_dec (Z.lxor a b) 0) as [->|Hne]; [lia|].
  apply Z.log2_lt_pow2; [pose proof (proj2 (Z.lxor_nonneg a b)); lia|].
  pose proof (Z.log2_lxor a b A1 B1).
  assert (Ha : a = 0 \/ Z.log2 a < n) by (destruct (Z.eq_dec a 0); [by left|right; apply Z.log2_lt_pow2; lia]).
  assert (Hb : b = 0 \/ Z.log2 b < n) by (destruct (Z.eq_dec b 0); [by left|right; apply Z.log2_lt_pow2; lia]).
  destruct (Z.eq_dec n 0) as [->|]; [assert (a = 0) by lia; assert (b = 0) by lia; by subst|].
  destruct Ha as [->|Ha], Hb as [->|Hb]; try (change (Z.log2 0) with 0 in * ); lia.
Qed.

(** ** Lists *)
Lemma filter_ext_mem {A} (P Q : A -> Prop) `{!forall x, Decision (P x)} `{!forall x, Decision (Q x)} (l : list A) :
  (forall x, x ∈ l -> P x <-> Q x) -> filter P l = filter Q l.
Proof.
  induction l as [|x l IH]; intros HPQ; [done|]. rewrite !filter_cons.
  assert (E : P x <-> Q x) by (apply HPQ; left). rewrite IH by (intros y Hy; apply HPQ; by right).
  destruct (decide (P x)), (decide (Q x)); tauto.
Qed.

#[global] Arguments bits_of_bytes : simpl never.
#[global] Arguments zbits : simpl never.
#[global] Arguments wrap : simpl never.
