(* ===== verification/Bitstream.v ===== *)
(** * Bitstream: the LSB-first bit writer and reader ([src/src/proto/bitstream.h])

    [BitWriter] is modelled with the fields of the class: the caller's buffer,
    the 64-bit accumulator, the count of pending bits and of flushed bytes, and
    the latched overflow flag.  Its abstraction is the list of bits written
    ([written]); a writer action [writes m bs] when it appends exactly [bs],
    or latches the overflow flag when [bs] does not fit.  [BitReader] is
    modelled the same way: [reads m bs a] says that on a stream that starts
    with [bs], [m] returns [a] and moves the cursor past [bs].  The class
    [Codec] pairs the two, and every message of the protocol is an instance or
    a composition of instances. *)

From S2P Require Import Prelude.
From Stdlib Require Import ZArith Lia Bool Ascii String.
From stdpp Require Import base tactics numbers list option strings.
#[local] Open Scope Z_scope.

(** ** BitWriter *)
Record BitWriter := mkBitWriter {
  bw_buffer : list Z;
  bw_capacity_bits : Z;
  bw_bit_pos : Z;
  bw_accumulator : Z;
  bw_pending_bits : Z;
  bw_flushed_bytes : nat;
  bw_overflow : bool
}.

Definition BitWriter_new (buffer : list Z) (capacity : Z) : BitWriter :=
  mkBitWriter buffer (u32 (capacity * 8)) 0 0 0 0 false.

Definition set_overflow (w : BitWriter) : BitWriter :=
  mkBitWriter (bw_buffer w) (bw_capacity_bits w) (bw_bit_pos w) (bw_accumulator w)
    (bw_pending_bits w) (bw_flushed_bytes w) true.

(** [buffer_[flushed_bytes_++] = (u8)accumulator_; accumulator_ >>= 8; ...] *)
Definition flush_byte (w : BitWriter) : BitWriter :=
  mkBitWriter (<[bw_flushed_bytes w := u8 (bw_accumulator w)]> (bw_buffer w))
    (bw_capacity_bits w) (bw_bit_pos w) (Z.shiftr (bw_accumulator w) 8)
    (bw_pending_bits w - 8) (S (bw_flushed_bytes w)) (bw_overflow w).

(** [while (pending_bits_ >= 8)]; five rounds are enough for the 39 bits that
    can be pending. *)
Fixpoint flush_loop (fuel : nat) (w : BitWriter) : BitWriter :=
  match fuel with
  | O => w
  | S fuel => if bw_pending_bits w <? 8 then w else flush_loop fuel (flush_byte w)
  end.

Definition flush_fuel : nat := 5.

(** [accumulator_ |= value << pending_bits_; pending_bits_ += bits; bit_pos_ += bits;] *)
Definition accumulate (value bits : Z) (w : BitWriter) : BitWriter :=
  mkBitWriter (bw_buffer w) (bw_capacity_bits w) (u32 (bw_bit_pos w + bits))
    (Z.lor (bw_accumulator w) (u64 (Z.shiftl value (bw_pending_bits w))))
    (u32 (bw_pending_bits w + bits)) (bw_flushed_bytes w) (bw_overflow w).

Definition write_bits (value bits : Z) (w : BitWriter) : BitWriter :=
  if bits =? 0 then w
  else if bw_capacity_bits w <? u32 (bw_bit_pos w + bits) then set_overflow w
  else
    let value := if bits <? 32 then Z.land value (u32 (Z.shiftl 1 bits - 1)) else value in
    flush_loop flush_fuel (accumulate value bits w).

Definition write_bool (value : bool) : BitWriter -> BitWriter :=
  write_bits (if value then 1 else 0) 1.
Definition write_u8 (value : Z) : BitWriter -> BitWriter := write_bits value 8.
Definition write_u16 (value : Z) : BitWriter -> BitWriter := write_bits value 16.
Definition write_u32 (value : Z) : BitWriter -> BitWriter := write_bits value 32.

Definition write_u64 (value : Z) (w : BitWriter) : BitWriter :=
  write_bits (u32 (Z.shiftr value 32)) 32 (write_bits (u32 (Z.land value 0xffffffff)) 32 w).

(** [while (range > 0) { ++bits; range >>= 1; }] on a 32-bit range. *)
Fixpoint bit_length (fuel : nat) (range : Z) : Z :=
  match fuel with
  | O => 0
  | S fuel => if 0 <? range then 1 + bit_length fuel (Z.shiftr range 1) else 0
  end.

Definition bits_required (min max : Z) : Z :=
  let bits := bit_length 32 (u32 (max - min)) in
  if bits =? 0 then 1 else bits.

Definition write_ranged (value min max : Z) : BitWriter -> BitWriter :=
  let bits := bits_required min max in
  let value := if value <? min then min else value in
  let value := if max <? value then max else value in
  write_bits (u32 (value - min)) bits.

(** Five groups of seven bits cover a 32-bit value. *)
Fixpoint write_varint_loop (fuel : nat) (value : Z) (w : BitWriter) : BitWriter :=
  match fuel with
  | O => w
  | S fuel =>
      if value <? 0x80 then write_bits (Z.land value 0x7f) 8 w
      else write_varint_loop fuel (Z.shiftr value 7)
             (write_bits (Z.lor (Z.land value 0x7f) 0x80) 8 w)
  end.

Definition write_varint (value : Z) : BitWriter -> BitWriter := write_varint_loop 5 value.

Fixpoint write_each (data : list Z) (w : BitWriter) : BitWriter :=
  match data with
  | [] => w
  | b :: data => write_each data (write_u8 b w)
  end.

Definition byte_of_ascii (c : ascii) : Z := Z.of_N (N_of_ascii c).
Definition ascii_of_byte (b : Z) : ascii := ascii_of_N (Z.to_N (u8 b)).
Definition string_bytes (s : string) : list Z := byte_of_ascii <$> list_ascii_of_string s.
Definition bytes_string (l : list Z) : string := string_of_list_ascii (ascii_of_byte <$> l).

Definition write_string (value : string) (w : BitWriter) : BitWriter :=
  let size := Z.of_nat (String.length value) in
  let len := if 1023 <? size then 1023 else size in
  write_each (take (Z.to_nat len) (string_bytes value)) (write_varint len w).

(** [memcpy] into the buffer, [count = length data]. *)
Definition memcpy (buffer : list Z) (at_ : nat) (data : list Z) : list Z :=
  take at_ buffer ++ data ++ drop (at_ + length data) buffer.

Definition write_bytes (data : list Z) (w : BitWriter) : BitWriter :=
  if negb (bw_pending_bits w =? 0) then write_each data w
  else if bw_capacity_bits w <? u64 (bw_bit_pos w + Z.of_nat (length data) * 8) then set_overflow w
  else
    mkBitWriter (memcpy (bw_buffer w) (bw_flushed_bytes w) data) (bw_capacity_bits w)
      (u32 (bw_bit_pos w + Z.of_nat (length data) * 8)) (bw_accumulator w) (bw_pending_bits w)
      (bw_flushed_bytes w + length data) (bw_overflow w).

Definition align (w : BitWriter) : BitWriter :=
  let rem := Z.land (bw_bit_pos w) 7 in
  if rem =? 0 then w else write_bits 0 (8 - rem) w.

(** Materialises the trailing partial byte and returns the length. *)
Definition bytes_written (w : BitWriter) : Z * BitWriter :=
  let n := Z.of_nat (bw_flushed_bytes w) in
  if 0 <? bw_pending_bits w
  then (u32 (n + 1),
        mkBitWriter (<[bw_flushed_bytes w := u8 (bw_accumulator w)]> (bw_buffer w))
          (bw_capacity_bits w) (bw_bit_pos w) (bw_accumulator w) (bw_pending_bits w)
          (bw_flushed_bytes w) (bw_overflow w))
  else (u32 n, w).

Definition bits_remaining (w : BitWriter) : Z := u32 (bw_capacity_bits w - bw_bit_pos w).

(** ** BitReader *)
Record BitReader := mkBitReader {
  br_buffer : list Z;
  br_capacity_bits : Z;
  br_bit_pos : Z;
  br_overflow : bool
}.

Definition BitReader_new (buffer : list Z) (size : Z) : BitReader :=
  mkBitReader buffer (u32 (size * 8)) 0 false.

Definition Rd (A : Type) : Type := BitReader -> A * BitReader.

#[export] Instance Rd_ret : MRet Rd := fun A a r => (a, r).
#[export] Instance Rd_bind : MBind Rd := fun A B k m r => let '(a, r') := m r in k a r'.

Definition set_read_overflow (r : BitReader) : BitReader :=
  mkBitReader (br_buffer r) (br_capacity_bits r) (br_bit_pos r) true.

(** [while (remaining > 0)], one round per byte touched; a 32-bit field touches
    at most five bytes. *)
Fixpoint read_loop (fuel : nat) (result written remaining : Z) (r : BitReader) : Z * BitReader :=
  match fuel with
  | O => (result, r)
  | S fuel =>
      if remaining <=? 0 then (result, r) else
      let byte_index := Z.shiftr (br_bit_pos r) 3 in
      let bit_offset := Z.land (br_bit_pos r) 7 in
      let avail_in_byte := 8 - bit_offset in
      let take := if remaining <? avail_in_byte then remaining else avail_in_byte in
      let byte := default 0 (br_buffer r !! Z.to_nat byte_index) in
      let chunk := Z.land (Z.shiftr byte bit_offset) (u32 (Z.shiftl 1 take - 1)) in
      read_loop fuel (Z.lor result (u32 (Z.shiftl chunk written))) (written + take)
        (remaining - take)
        (mkBitReader (br_buffer r) (br_capacity_bits r) (u32 (br_bit_pos r + take)) (br_overflow r))
  end.

Definition read_bits (bits : Z) : Rd Z := fun r =>
  if bits =? 0 then (0, r)
  else if br_capacity_bits r <? u32 (br_bit_pos r + bits) then (0, set_read_overflow r)
  else read_loop 5 0 0 bits r.

Definition read_bool : Rd bool := v ← read_bits 1; mret (negb (v =? 0)).
Definition read_u8 : Rd Z := v ← read_bits 8; mret (u8 v).
Definition read_u16 : Rd Z := v ← read_bits 16; mret (u16 v).
Definition read_u32 : Rd Z := read_bits 32.

Definition read_u64 : Rd Z :=
  low ← read_bits 32;
  high ← read_bits 32;
  mret (Z.lor low (u64 (Z.shiftl high 32))).

Definition read_ranged (min max : Z) : Rd Z :=
  v ← read_bits (bits_required min max); mret (i32 (i32 v + min)).

Fixpoint read_varint_loop (fuel : nat) (result shift : Z) : Rd Z :=
  match fuel with
  | O => mret result
  | S fuel =>
      byte ← read_bits 8;
      let result := Z.lor result (u32 (Z.shiftl (Z.land byte 0x7f) shift)) in
      if Z.land byte 0x80 =? 0 then mret result
      else read_varint_loop fuel result (shift + 7)
  end.

Definition read_varint : Rd Z := read_varint_loop 5 0 0.

Fixpoint read_each (count : nat) : Rd (list Z) :=
  match count with
  | O => mret []
  | S count => b ← read_u8; l ← read_each count; mret (b :: l)
  end.

(** [{ overflow_ = true; return {}; }] *)
Definition read_latch {A} (a : A) : Rd A := fun r => (a, set_read_overflow r).

Definition read_string : Rd string :=
  len ← read_varint;
  if 1023 <? len then read_latch EmptyString
  else l ← read_each (Z.to_nat len); mret (bytes_string l).

(** [read_bytes(out, count)]: [out] is the destination array, returned with the
    bytes read; on overflow [memcpy] is skipped and [out] is left as it was. *)
Definition read_bytes (out : list Z) : Rd (list Z) := fun r =>
  let count := length out in
  if negb (Z.land (br_bit_pos r) 7 =? 0) then read_each count r
  else if br_capacity_bits r <? u64 (br_bit_pos r + Z.of_nat count * 8)
  then (out, set_read_overflow r)
  else (take count (drop (Z.to_nat (Z.shiftr (br_bit_pos r) 3)) (br_buffer r)),
        mkBitReader (br_buffer r) (br_capacity_bits r)
          (u32 (br_bit_pos r + Z.of_nat count * 8)) (br_overflow r)).

Definition read_align (r : BitReader) : BitReader :=
  let rem := Z.land (br_bit_pos r) 7 in
  if rem =? 0 then r else snd (read_bits (8 - rem) r).

Definition bytes_read (r : BitReader) : Z := Z.shiftr (u32 (br_bit_pos r + 7)) 3.

(** ** Writer invariant and abstraction *)
Record writer_wf (w : BitWriter) : Prop := {
  wf_capacity : bw_capacity_bits w <= 8 * Z.of_nat (length (bw_buffer w)) < 2 ^ 31;
  wf_whole : (8 | bw_capacity_bits w);
  wf_pos : bw_bit_pos w = 8 * Z.of_nat (bw_flushed_bytes w) + bw_pending_bits w;
  wf_pending : 0 <= bw_pending_bits w < 8;
  wf_accumulator : 0 <= bw_accumulator w < 2 ^ bw_pending_bits w;
  wf_fits : bw_bit_pos w <= bw_capacity_bits w;
  wf_bytes : Forall (fits 8) (bw_buffer w)
}.

(** The bits written so far. *)
Definition written (w : BitWriter) : list bool :=
  bits_of_bytes (take (bw_flushed_bytes w) (bw_buffer w))
    ++ zbits (Z.to_nat (bw_pending_bits w)) (bw_accumulator w).

(** What every writer operation guarantees: the capacity and the size of the
    buffer stay, bytes from the cursor on are untouched, overflow is latched. *)
Record writer_ext (w w' : BitWriter) : Prop := {
  ext_wf : writer_wf w';
  ext_capacity : bw_capacity_bits w' = bw_capacity_bits w;
  ext_length : length (bw_buffer w') = length (bw_buffer w);
  ext_flushed : (bw_flushed_bytes w <= bw_flushed_bytes w')%nat;
  ext_frame : drop (bw_flushed_bytes w') (bw_buffer w') = drop (bw_flushed_bytes w') (bw_buffer w);
  ext_latch : bw_overflow w = true -> bw_overflow w' = true
}.

Definition room (w : BitWriter) (n : nat) : Prop :=
  bw_bit_pos w + Z.of_nat n <= bw_capacity_bits w.

Definition writes (m : BitWriter -> BitWriter) (bs : list bool) : Prop :=
  forall w, writer_wf w ->
    writer_ext w (m w) /\
    (room w (length bs) -> written (m w) = written w ++ bs /\ bw_overflow (m w) = bw_overflow w) /\
    (~ room w (length bs) -> bw_overflow (m w) = true).

Lemma writer_ext_refl w : writer_wf w -> writer_ext w w.
Proof. intros; split; auto. Qed.

Lemma writer_ext_trans w1 w2 w3 : writer_ext w1 w2 -> writer_ext w2 w3 -> writer_ext w1 w3.
Proof.
  intros [] []; split; try congruence; try lia; auto.
  rewrite ext_frame1. replace (bw_flushed_bytes w3)
    with (bw_flushed_bytes w2 + (bw_flushed_bytes w3 - bw_flushed_bytes w2))%nat by lia.
  by rewrite <- !drop_drop, ext_frame0.
Qed.

Lemma length_written w : writer_wf w -> Z.of_nat (length (written w)) = bw_bit_pos w.
Proof.
  intros []. unfold written.
  rewrite length_app, length_zbits, length_bits_of_bytes, length_take. lia.
Qed.

Lemma writer_wf_new buffer capacity :
  Forall (fits 8) buffer ->
  0 <= capacity <= Z.of_nat (length buffer) -> 8 * Z.of_nat (length buffer) < 2 ^ 31 ->
  writer_wf (BitWriter_new buffer capacity) /\ written (BitWriter_new buffer capacity) = [].
Proof.
  intros Hby Hc Hb. split; [|done].
  assert (u32 (capacity * 8) = capacity * 8) as E by (apply wrap_small; split; lia).
  split; unfold BitWriter_new; cbn; rewrite ?E; try lia; [|done].
  by exists capacity.
Qed.

(** Composition: the monoid of writer actions mirrors list append. *)
Lemma writes_id : writes (fun w => w) [].
Proof.
  intros w Hw. split; [by apply writer_ext_refl|]. unfold room; cbn [length].
  destruct Hw. split; intros Hr; [by rewrite app_nil_r|lia].
Qed.

Lemma writes_comp m1 b1 m2 b2 :
  writes m1 b1 -> writes m2 b2 -> writes (fun w => m2 (m1 w)) (b1 ++ b2).
Proof.
  intros H1 H2 w Hw. destruct (H1 w Hw) as (E1 & R1 & O1).
  pose proof (ext_wf _ _ E1) as Hw1. destruct (H2 _ Hw1) as (E2 & R2 & O2).
  assert (Hpos : room w (length b1) ->
            bw_bit_pos (m1 w) = bw_bit_pos w + Z.of_nat (length b1)).
  { intros Hr. destruct (R1 Hr) as [Hwr _].
    rewrite <- (length_written _ Hw1), <- (length_written _ Hw), Hwr, length_app. lia. }
  split; [by eapply writer_ext_trans|]. unfold room in *.
  rewrite (ext_capacity _ _ E1), length_app, Nat2Z.inj_add in *. split.
  - intros Hr. destruct (R1 ltac:(lia)) as [W1 V1].
    destruct R2 as [W2 V2]; [rewrite Hpos; lia|].
    rewrite W2, W1, V2, V1. by rewrite app_assoc.
  - intros Hr. destruct (decide (bw_bit_pos w + Z.of_nat (length b1) <= bw_capacity_bits w)).
    + apply O2. rewrite Hpos; lia.
    + apply (ext_latch _ _ E2), O1; lia.
Qed.

Lemma writes_ext m m' bs : (forall w, m w = m' w) -> writes m' bs -> writes m bs.
Proof. intros E H w Hw. rewrite E. by apply H. Qed.

Lemma writes_eq m bs bs' : bs = bs' -> writes m bs -> writes m bs'.
Proof. by intros ->. Qed.

(** Splits an encoder into its fields, following the bits it is claimed to
    write; the remaining goals are the fields. *)
Ltac split_writes :=
  cbv zeta; rewrite ?app_assoc;
  repeat match goal with |- writes _ (_ ++ _) => eapply writes_comp end.

(** *** The flush loop *)
Lemma flush_byte_written w :
  8 <= bw_pending_bits w -> (bw_flushed_bytes w < length (bw_buffer w))%nat ->
  written (flush_byte w) = written w.
Proof.
  intros Hp Hl. unfold written, flush_byte;
    cbn [bw_buffer bw_flushed_bytes bw_pending_bits bw_accumulator].
  rewrite (take_S_r _ _ (u8 (bw_accumulator w))) by (by apply list_lookup_insert_eq).
  rewrite take_insert_ge by lia. rewrite bits_of_bytes_app, <- app_assoc. f_equal.
  replace (Z.to_nat (bw_pending_bits w)) with (8 + Z.to_nat (bw_pending_bits w - 8))%nat by lia.
  rewrite zbits_app, bits_of_bytes_singleton. f_equal. by apply zbits_wrap.
Qed.

Lemma flush_byte_accumulator w :
  8 <= bw_pending_bits w -> 0 <= bw_accumulator w < 2 ^ bw_pending_bits w ->
  0 <= bw_accumulator (flush_byte w) < 2 ^ bw_pending_bits (flush_byte w).
Proof.
  intros Hp Ha. cbn. split; [apply Z.shiftr_nonneg; lia|].
  rewrite Z.shiftr_div_pow2 by lia. apply Z.div_lt_upper_bound; [lia|].
  rewrite <- Z.pow_add_r by lia. replace (8 + _) with (bw_pending_bits w) by lia. lia.
Qed.

Lemma flush_loop_spec fuel w :
  bw_pending_bits w < 8 * (Z.of_nat fuel + 1) -> 0 <= bw_pending_bits w ->
  0 <= bw_accumulator w < 2 ^ bw_pending_bits w ->
  8 * Z.of_nat (bw_flushed_bytes w) + bw_pending_bits w <= 8 * Z.of_nat (length (bw_buffer w)) ->
  let w' := flush_loop fuel w in
  written w' = written w /\ 0 <= bw_pending_bits w' < 8 /\
  0 <= bw_accumulator w' < 2 ^ bw_pending_bits w' /\
  8 * Z.of_nat (bw_flushed_bytes w') + bw_pending_bits w' =
    8 * Z.of_nat (bw_flushed_bytes w) + bw_pending_bits w /\
  bw_capacity_bits w' = bw_capacity_bits w /\ bw_bit_pos w' = bw_bit_pos w /\
  bw_overflow w' = bw_overflow w /\ length (bw_buffer w') = length (bw_buffer w) /\
  (bw_flushed_bytes w <= bw_flushed_bytes w')%nat /\
  drop (bw_flushed_bytes w') (bw_buffer w') = drop (bw_flushed_bytes w') (bw_buffer w) /\
  (Forall (fits 8) (bw_buffer w) -> Forall (fits 8) (bw_buffer w')).
Proof.
  revert w; induction fuel as [|fuel IH]; intros w Hf H0 Hacc Hlen; cbn [flush_loop].
  { cbn in Hf. repeat split; auto; lia. }
  destruct (Z.ltb_spec (bw_pending_bits w) 8) as [Hp|Hp].
  { repeat split; auto; lia. }
  pose proof (flush_byte_accumulator w Hp Hacc) as Hacc1.
  assert (Hfl : (bw_flushed_bytes w < length (bw_buffer w))%nat) by lia.
  rewrite <- (flush_byte_written w Hp Hfl).
  destruct (IH (flush_byte w)) as (A & B & C & D & E & F & G & I & J & K & L); auto;
    try (cbn; rewrite ?length_insert; lia).
  rewrite A, D, E, F, G, I, K. cbn. rewrite length_insert.
  repeat split; try assumption; try lia.
  - cbn in J; lia.
  - cbn in J. by rewrite drop_insert_lt by lia.
  - intros Hby. apply L, Forall_insert; [done|]. apply wrap_range; lia.
Qed.

Lemma land_mask v n : 0 <= n < 32 -> Z.land v (u32 (Z.shiftl 1 n - 1)) = v mod 2 ^ n.
Proof.
  intros Hn. rewrite Z.shiftl_1_l.
  assert (2 ^ n <= 2 ^ 31) by (apply Z.pow_le_mono_r; lia).
  assert (0 < 2 ^ n) by (apply Z.pow_pos_nonneg; lia).
  rewrite wrap_small by (split; lia).
  replace (2 ^ n - 1) with (Z.ones n) by (rewrite Z.ones_equiv; lia).
  by rewrite Z.land_ones by lia.
Qed.

Lemma room_wrap w n : writer_wf w -> 0 <= n <= 2 ^ 31 ->
  u32 (bw_bit_pos w + n) = bw_bit_pos w + n.
Proof. intros [] Hn. apply wrap_small. split; lia. Qed.

Lemma mask_value v n : fits 32 v -> 0 < n <= 32 ->
  (if n <? 32 then Z.land v (u32 (Z.shiftl 1 n - 1)) else v) = v mod 2 ^ n.
Proof.
  intros Hv Hn. destruct (Z.ltb_spec n 32); [by apply land_mask; lia|].
  replace n with 32 by lia. symmetry. by apply Z.mod_small.
Qed.

Lemma accumulate_spec w v n :
  writer_wf w -> 0 < n <= 32 -> 0 <= v < 2 ^ n ->
  let w1 := accumulate v n w in
  written w1 = written w ++ zbits (Z.to_nat n) v /\
  bw_pending_bits w1 = bw_pending_bits w + n /\
  0 <= bw_accumulator w1 < 2 ^ (bw_pending_bits w + n).
Proof.
  intros [Hc Hdiv Hp Hpe Ha Hf Hby] Hn Hv. unfold accumulate, written;
    cbn [bw_buffer bw_flushed_bytes bw_pending_bits bw_accumulator].
  assert (0 < 2 ^ bw_pending_bits w) by (apply Z.pow_pos_nonneg; lia).
  assert (Hpow : 2 ^ (bw_pending_bits w + n) <= 2 ^ 39) by (apply Z.pow_le_mono_r; lia).
  rewrite Z.pow_add_r in * by lia.
  assert (Hsh : 0 <= Z.shiftl v (bw_pending_bits w) <= 2 ^ bw_pending_bits w * (2 ^ n - 1)).
  { rewrite Z.shiftl_mul_pow2 by lia. nia. }
  rewrite (wrap_small 64), (wrap_small 32) by (split; lia).
  repeat split.
  - rewrite <- app_assoc. f_equal. rewrite Z2Nat.inj_add by lia.
    pose proof (zbits_lor_shiftl (Z.to_nat (bw_pending_bits w)) (Z.to_nat n)
                  (bw_accumulator w) v) as E.
    rewrite Z2Nat.id in E by lia. by rewrite E by lia.
  - apply Z.lor_nonneg; lia.
  - rewrite lor_shiftl_add by lia. rewrite Z.shiftl_mul_pow2 in Hsh by lia. nia.
Qed.

Lemma writes_bits v n : fits 32 v -> 0 <= n <= 32 -> writes (write_bits v n) (zbits (Z.to_nat n) v).
Proof.
  intros Hv Hn. destruct (Z.eq_dec n 0) as [->|Hn0]; [apply writes_id|].
  intros w Hw. unfold write_bits, room. rewrite length_zbits, Z2Nat.id by lia.
  rewrite (proj2 (Z.eqb_neq n 0)) by done. rewrite room_wrap by (auto; lia).
  destruct (Z.ltb_spec (bw_capacity_bits w) (bw_bit_pos w + n)) as [Hcap|Hcap].
  { split; [destruct Hw; split; auto; split; auto | split; [lia|done]]. }
  rewrite mask_value by (auto; lia).
  assert (Hr : 0 <= v mod 2 ^ n < 2 ^ n) by (apply Z.mod_pos_bound, Z.pow_pos_nonneg; lia).
  destruct (accumulate_spec w _ n Hw ltac:(lia) Hr) as (A1 & B1 & C1).
  destruct Hw as [Hc Hdiv Hp Hpe Ha Hf Hby].
  destruct (flush_loop_spec flush_fuel (accumulate (v mod 2 ^ n) n w))
    as (A & B & C & D & E & F & G & I & J & K & L); rewrite ?B1; auto; try (unfold flush_fuel; lia).
  { cbn [accumulate bw_flushed_bytes bw_buffer]. lia. }
  rewrite A1 in A. rewrite B1 in D. rewrite A, G.
  cbn [accumulate bw_flushed_bytes bw_buffer bw_capacity_bits bw_bit_pos bw_overflow] in *.
  rewrite (wrap_small 32) in F by (split; lia).
  split.
  - split; try split; rewrite ?E, ?F, ?G, ?I; auto; try lia.
  - split; [|lia]. intros _. split; [|done]. f_equal. apply (zbits_wrap _ n). lia.
Qed.

Lemma writes_bool b : writes (write_bool b) [b].
Proof. destruct b; [apply (writes_bits 1 1) | apply (writes_bits 0 1)]; split; lia. Qed.

Lemma fits_le a b v : fits a v -> a <= b -> fits b v.
Proof.
  intros [H1 H2] Hab. split; [done|].
  eapply Z.lt_le_trans; [done|]. apply Z.pow_le_mono_r; lia.
Qed.

Lemma writes_u8 v : fits 8 v -> writes (write_u8 v) (zbits 8 v).
Proof. intros. apply (writes_bits v 8); [eapply fits_le; [done|lia]|lia]. Qed.

Lemma writes_u16 v : fits 16 v -> writes (write_u16 v) (zbits 16 v).
Proof. intros. apply (writes_bits v 16); [eapply fits_le; [done|lia]|lia]. Qed.

Lemma writes_u32 v : fits 32 v -> writes (write_u32 v) (zbits 32 v).
Proof. intros. apply (writes_bits v 32); [done|lia]. Qed.

Lemma writes_u64 v : fits 64 v -> writes (write_u64 v) (zbits 64 v).
Proof.
  intros [H0 H1]. apply (writes_eq _ (zbits 32 (u32 (Z.land v 0xffffffff)) ++
                                      zbits 32 (u32 (Z.shiftr v 32)))).
  - change 64%nat with (32 + 32)%nat. rewrite (zbits_app 32 32 v).
    rewrite !zbits_wrap by lia. f_equal. apply zbits_eq.
    change 0xffffffff with (Z.ones 32). rewrite Z.land_ones by lia. apply Zmod_mod.
  - unfold write_u64. apply writes_comp; apply (writes_bits _ 32); try lia;
      apply wrap_range; lia.
Qed.

(** *** Ranged integers *)
Lemma bit_length_spec fuel r :
  0 <= r < 2 ^ Z.of_nat fuel ->
  0 <= bit_length fuel r <= Z.of_nat fuel /\ r < 2 ^ bit_length fuel r.
Proof.
  revert r; induction fuel as [|fuel IH]; intros r Hr; cbn [bit_length].
  { cbn in *. lia. }
  destruct (Z.ltb_spec 0 r); [|split; [lia|cbn; lia]].
  rewrite Nat2Z.inj_succ in *. rewrite Z.pow_succ_r in Hr by lia.
  rewrite Z.shiftr_div_pow2 by lia. change (2 ^ 1) with 2.
  destruct (IH (r / 2)) as [A B].
  { split; [apply Z.div_pos; lia|apply Z.div_lt_upper_bound; lia]. }
  rewrite (Z.pow_add_r 2 1) by lia. pose proof (Z.div_mod r 2). pose proof (Z.mod_pos_bound r 2).
  lia.
Qed.

Definition i32_range (z : Z) : Prop := - 2 ^ 31 <= z < 2 ^ 31.

Lemma bits_required_spec lo hi :
  i32_range lo -> i32_range hi -> lo <= hi ->
  0 < bits_required lo hi <= 32 /\ hi - lo < 2 ^ bits_required lo hi.
Proof.
  unfold i32_range. intros Hlo Hhi Hle. unfold bits_required.
  rewrite wrap_small by (split; lia).
  destruct (bit_length_spec 32 (hi - lo)) as [A B]; [split; lia|].
  destruct (Z.eqb_spec (bit_length 32 (hi - lo)) 0) as [E|E]; [rewrite E in B|]; lia.
Qed.

Definition clampz (v lo hi : Z) : Z := Z.min hi (Z.max lo v).

Lemma writes_ranged v lo hi :
  i32_range lo -> i32_range hi -> lo <= hi ->
  writes (write_ranged v lo hi) (zbits (Z.to_nat (bits_required lo hi)) (clampz v lo hi - lo)).
Proof.
  intros Hlo Hhi Hle. destruct (bits_required_spec lo hi) as [A B]; auto.
  unfold write_ranged, i32_range, clampz in *.
  assert (E : (if hi <? (if v <? lo then lo else v) then hi else if v <? lo then lo else v)
            = Z.min hi (Z.max lo v)).
  { destruct (Z.ltb_spec v lo); [destruct (Z.ltb_spec hi lo)|destruct (Z.ltb_spec hi v)]; lia. }
  rewrite E. rewrite wrap_small by (split; lia).
  apply writes_bits; [split|]; lia.
Qed.

(** *** Variable-length integers *)
Fixpoint varint_bytes (fuel : nat) (v : Z) : list Z :=
  match fuel with
  | O => []
  | S fuel => if v <? 128 then [v] else (v mod 128 + 128) :: varint_bytes fuel (v / 128)
  end.

Definition varint_bits (v : Z) : list bool := bits_of_bytes (varint_bytes 5 v).

Lemma varint_low v : Z.land v 0x7f = v mod 128.
Proof. change 0x7f with (Z.ones 7). by rewrite Z.land_ones by lia. Qed.

Lemma varint_more v : Z.lor (Z.land v 0x7f) 0x80 = v mod 128 + 128.
Proof.
  rewrite varint_low. pose proof (Z.mod_pos_bound v 128 ltac:(lia)).
  pose proof (lor_shiftl_add (v mod 128) 1 7 ltac:(lia) ltac:(lia)) as E.
  change (Z.shiftl 1 7) with 128 in E. lia.
Qed.

Lemma writes_varint_loop fuel v :
  fits 32 v -> writes (write_varint_loop fuel v) (bits_of_bytes (varint_bytes fuel v)).
Proof.
  revert v; induction fuel as [|fuel IH]; intros v Hv; [apply writes_id|].
  cbn [write_varint_loop varint_bytes]. unfold fits in *.
  pose proof (Z.mod_pos_bound v 128 ltac:(lia)).
  destruct (Z.ltb_spec v 128).
  - rewrite varint_low, Z.mod_small, bits_of_bytes_singleton by lia.
    apply (writes_u8 v). split; lia.
  - rewrite varint_more, bits_of_bytes_cons, Z.shiftr_div_pow2 by lia. change (2 ^ 7) with 128.
    apply (writes_comp (write_bits (v mod 128 + 128) 8)).
    + apply writes_u8. split; lia.
    + apply IH. split; [apply Z.div_pos; lia|apply Z.div_lt_upper_bound; lia].
Qed.

Lemma writes_varint v : fits 32 v -> writes (write_varint v) (varint_bits v).
Proof. apply writes_varint_loop. Qed.

(** *** Byte strings *)
Lemma writes_each data : Forall (fits 8) data -> writes (write_each data) (bits_of_bytes data).
Proof.
  induction 1 as [|b data Hb _ IH]; [apply writes_id|].
  rewrite bits_of_bytes_cons. apply (writes_comp (write_u8 b)); [by apply writes_u8|done].
Qed.

Lemma memcpy_length l i data : (i + length data <= length l)%nat ->
  length (memcpy l i data) = length l.
Proof. intros. unfold memcpy. rewrite !length_app, length_take, length_drop. lia. Qed.

Lemma memcpy_take l i data : (i + length data <= length l)%nat ->
  take (i + length data) (memcpy l i data) = take i l ++ data.
Proof.
  intros. unfold memcpy. rewrite app_assoc, take_app_length'; [done|].
  rewrite length_app, length_take. lia.
Qed.

Lemma memcpy_drop l i data : (i + length data <= length l)%nat ->
  drop (i + length data) (memcpy l i data) = drop (i + length data) l.
Proof.
  intros. unfold memcpy. rewrite app_assoc, drop_app_length'; [done|].
  rewrite length_app, length_take. lia.
Qed.

Lemma memcpy_Forall (P : Z -> Prop) l i data :
  Forall P l -> Forall P data -> Forall P (memcpy l i data).
Proof. intros. unfold memcpy. auto using Forall_app_2, Forall_take, Forall_drop. Qed.

Lemma writes_bytes data :
  Forall (fits 8) data -> 8 * Z.of_nat (length data) < 2 ^ 31 ->
  writes (write_bytes data) (bits_of_bytes data).
Proof.
  intros Hd Hlen w Hw. unfold write_bytes.
  destruct (Z.eqb_spec (bw_pending_bits w) 0) as [Hp0|]; cbn [negb]; [|by apply writes_each].
  pose proof Hw as [Hc Hdiv Hp Hpe Ha Hf Hby]. unfold room. rewrite length_bits_of_bytes.
  rewrite (wrap_small 64) by (split; lia).
  destruct (Z.ltb_spec (bw_capacity_bits w) (bw_bit_pos w + Z.of_nat (length data) * 8)) as [Hl|Hl].
  { split; [split; auto; split; auto | split; [lia|done]]. }
  rewrite wrap_small by (split; lia). rewrite Hp0 in *.
  assert (Hfl : (bw_flushed_bytes w + length data <= length (bw_buffer w))%nat) by lia.
  split.
  - split; cbn -[Z.pow memcpy]; try split; cbn -[Z.pow memcpy]; rewrite ?memcpy_length by done;
      rewrite ?memcpy_drop by done; auto using memcpy_Forall; lia.
  - split; [|lia]. intros _. split; [|done]. unfold written. cbn -[memcpy].
    rewrite memcpy_take, bits_of_bytes_app, Hp0 by done. by rewrite !app_nil_r.
Qed.

(** *** Strings: a length varint, then at most 1023 bytes *)
Lemma byte_of_ascii_fits c : fits 8 (byte_of_ascii c).
Proof.
  unfold fits, byte_of_ascii. pose proof (N_ascii_bounded c).
  change (2 ^ 8) with (Z.of_N 256). lia.
Qed.

Lemma string_bytes_fits s : Forall (fits 8) (string_bytes s).
Proof. apply Forall_fmap, Forall_forall. intros c _. apply byte_of_ascii_fits. Qed.

Lemma length_string_bytes s : length (string_bytes s) = String.length s.
Proof.
  unfold string_bytes. rewrite length_fmap. induction s as [|c s IH]; [done|].
  cbn. by rewrite <- IH.
Qed.

Lemma bytes_string_bytes s : bytes_string (string_bytes s) = s.
Proof.
  unfold bytes_string, string_bytes. rewrite <- list_fmap_compose.
  rewrite <- (string_of_list_ascii_of_string s) at 2. f_equal.
  rewrite <- (list_fmap_id (list_ascii_of_string s)) at 2.
  apply list_fmap_ext. intros _ c _. unfold compose, ascii_of_byte.
  rewrite wrap_small by apply byte_of_ascii_fits. unfold byte_of_ascii.
  by rewrite N2Z.id, ascii_N_embedding.
Qed.

Definition string_bits (s : string) : list bool :=
  varint_bits (Z.of_nat (String.length s)) ++ bits_of_bytes (string_bytes s).

(** Strings the wire format carries unchanged; longer ones are cut at 1023. *)
Definition short_string (s : string) : Prop := (String.length s <= 1023)%nat.

Lemma writes_string s : short_string s -> writes (write_string s) (string_bits s).
Proof.
  unfold short_string. intros Hs. unfold write_string, string_bits.
  destruct (Z.ltb_spec 1023 (Z.of_nat (String.length s))); [lia|].
  rewrite take_ge by (rewrite length_string_bytes; lia).
  apply (writes_comp (write_varint _)).
  - apply writes_varint. split; lia.
  - apply writes_each, string_bytes_fits.
Qed.

(** *** Alignment and the final length *)
Lemma land_7 v : 0 <= v -> Z.land v 7 = v mod 8.
Proof. intros. change 7 with (Z.ones 3). by rewrite Z.land_ones by lia. Qed.

Lemma align_aligned w : writer_wf w -> bw_bit_pos w mod 8 = 0 -> align w = w.
Proof.
  intros Hw H0. unfold align. rewrite land_7 by (destruct Hw; lia). by rewrite H0.
Qed.

(** The bytes the caller sends: the buffer up to [bytes_written]. *)
Definition output (w : BitWriter) : list Z :=
  let '(n, w') := bytes_written w in take (Z.to_nat n) (bw_buffer w').

Lemma output_bits w : writer_wf w ->
  exists pad, bits_of_bytes (output w) = written w ++ repeat false pad /\ (pad < 8)%nat.
Proof.
  intros [Hc Hdiv Hp Hpe Ha Hf Hby]. unfold output, bytes_written, written.
  destruct (Z.ltb_spec 0 (bw_pending_bits w)) as [H0|H0]; rewrite wrap_small by (split; lia).
  - assert (Hdiv' : bw_bit_pos w <= bw_capacity_bits w) by lia.
    replace (Z.to_nat _) with (S (bw_flushed_bytes w)) by lia. cbn [bw_buffer].
    rewrite (take_S_r _ _ (u8 (bw_accumulator w)))
      by (apply list_lookup_insert_eq; destruct Hdiv; lia).
    rewrite take_insert_ge by lia.
    exists (8 - Z.to_nat (bw_pending_bits w))%nat. split; [|lia].
    rewrite bits_of_bytes_app, bits_of_bytes_singleton, <- app_assoc. f_equal.
    rewrite zbits_wrap by lia.
    replace 8%nat with (Z.to_nat (bw_pending_bits w) + (8 - Z.to_nat (bw_pending_bits w)))%nat at 1
      by lia.
    rewrite zbits_app. f_equal. rewrite Z2Nat.id by lia.
    rewrite Z.shiftr_div_pow2, Z.div_small by lia.
    generalize (8 - Z.to_nat (bw_pending_bits w))%nat. induction n as [|n IH]; [done|].
    cbn [repeat]. rewrite <- IH. done.
  - exists 0%nat. replace (Z.to_nat _) with (bw_flushed_bytes w) by lia.
    replace (bw_pending_bits w) with 0 by lia. split; [|lia]. cbn [bw_buffer repeat].
    change (zbits (Z.to_nat 0) (bw_accumulator w)) with (@nil bool). by rewrite !app_nil_r.
Qed.

Lemma length_output w : writer_wf w ->
  8 * Z.of_nat (length (output w)) < bw_bit_pos w + 8 /\
  bw_bit_pos w <= 8 * Z.of_nat (length (output w)) <= bw_capacity_bits w.
Proof.
  intros Hw. destruct (output_bits w Hw) as (pad & E & Hpad).
  apply (f_equal length) in E. rewrite length_bits_of_bytes, length_app, repeat_length in E.
  pose proof (length_written w Hw). destruct Hw as [? [k Hk] ? ? ? ? ?]. lia.
Qed.

(** ** Reader invariant and abstraction *)
Record reader_wf (r : BitReader) : Prop := {
  rf_capacity : br_capacity_bits r <= 8 * Z.of_nat (length (br_buffer r)) < 2 ^ 31;
  rf_pos : 0 <= br_bit_pos r <= br_capacity_bits r;
  rf_bytes : Forall (fits 8) (br_buffer r)
}.

(** The bits still to be read. *)
Definition rest (r : BitReader) : list bool :=
  drop (Z.to_nat (br_bit_pos r))
    (take (Z.to_nat (br_capacity_bits r)) (bits_of_bytes (br_buffer r))).

Definition advance (n : nat) (r : BitReader) : BitReader :=
  mkBitReader (br_buffer r) (br_capacity_bits r) (br_bit_pos r + Z.of_nat n) (br_overflow r).

(** [m], on any stream that starts with [bs], returns [a] and consumes [bs]. *)
Definition reads {A} (m : Rd A) (bs : list bool) (a : A) : Prop :=
  forall r tl, reader_wf r -> rest r = bs ++ tl -> m r = (a, advance (length bs) r).

Lemma length_rest r : reader_wf r ->
  Z.of_nat (length (rest r)) = br_capacity_bits r - br_bit_pos r.
Proof.
  intros []. unfold rest. rewrite length_drop, length_take, length_bits_of_bytes. lia.
Qed.

Lemma rest_advance n r : reader_wf r -> rest (advance n r) = drop n (rest r).
Proof.
  intros []. unfold rest, advance; cbn. rewrite drop_drop. f_equal. lia.
Qed.

Lemma reader_wf_advance n r :
  reader_wf r -> (n <= length (rest r))%nat -> reader_wf (advance n r).
Proof. intros Hr Hn. pose proof (length_rest r Hr). destruct Hr. split; cbn; [lia..|done]. Qed.

Lemma reader_wf_new buffer :
  Forall (fits 8) buffer -> 8 * Z.of_nat (length buffer) < 2 ^ 31 ->
  let r := BitReader_new buffer (Z.of_nat (length buffer)) in
  reader_wf r /\ rest r = bits_of_bytes buffer.
Proof.
  intros Hby Hb. cbn zeta. unfold rest, BitReader_new.
  rewrite wrap_small by (split; lia). split; [split; cbn; [lia..|done]|]. cbn.
  rewrite take_ge; [done|]. rewrite length_bits_of_bytes. lia.
Qed.

Lemma advance_advance n m r : advance m (advance n r) = advance (n + m) r.
Proof. unfold advance; cbn. f_equal. lia. Qed.

Lemma advance_0 r : advance 0 r = r.
Proof. destruct r. unfold advance; cbn. by rewrite Z.add_0_r. Qed.

Lemma reads_ret {A} (a : A) : reads (mret a) [] a.
Proof. intros r tl _ _. cbn. by rewrite advance_0. Qed.

Lemma reads_bind {A B} (m : Rd A) (k : A -> Rd B) b1 b2 a b :
  reads m b1 a -> reads (k a) b2 b -> reads (m ≫= k) (b1 ++ b2) b.
Proof.
  intros H1 H2 r tl Hr E. rewrite <- app_assoc in E.
  unfold mbind, Rd_bind. rewrite (H1 r (b2 ++ tl) Hr E).
  rewrite (H2 (advance (length b1) r) tl).
  - by rewrite advance_advance, length_app.
  - apply reader_wf_advance; [done|]. rewrite E, length_app. lia.
  - by rewrite rest_advance, E, drop_app_length by done.
Qed.

Lemma reads_bind_ret {A B} (m : Rd A) (f : A -> B) bs a :
  reads m bs a -> reads (m ≫= fun x => mret (f x)) bs (f a).
Proof.
  intros H. rewrite <- (app_nil_r bs). eapply reads_bind; [done|apply reads_ret].
Qed.

Lemma reads_eq {A} (m : Rd A) bs bs' a a' : bs = bs' -> a = a' -> reads m bs a -> reads m bs' a'.
Proof. by intros -> ->. Qed.

(** *** The byte loop of [read_bits] *)
Lemma chunk_value byte o t :
  0 <= o -> 0 < t -> o + t <= 8 ->
  Z.land (Z.shiftr byte o) (u32 (Z.shiftl 1 t - 1)) =
  bval (take (Z.to_nat t) (drop (Z.to_nat o) (zbits 8 byte))).
Proof.
  intros Ho Ht Hot. rewrite land_mask by lia.
  replace 8%nat with (Z.to_nat o + (Z.to_nat t + Z.to_nat (8 - o - t)))%nat by lia.
  rewrite zbits_app, drop_app_length' by (by rewrite length_zbits).
  rewrite zbits_app, take_app_length' by (by rewrite length_zbits).
  rewrite bval_zbits, !Z2Nat.id by lia. done.
Qed.

Lemma rest_head r t :
  reader_wf r -> let o := br_bit_pos r mod 8 in
  0 < t -> o + t <= 8 -> br_bit_pos r + t <= br_capacity_bits r ->
  take (Z.to_nat t) (rest r) =
  take (Z.to_nat t)
    (drop (Z.to_nat o) (zbits 8 (default 0 (br_buffer r !! Z.to_nat (br_bit_pos r / 8))))).
Proof.
  intros [Hc Hp _] o Ht Hot Hcap. unfold rest.
  set (k := Z.to_nat (br_bit_pos r / 8)).
  pose proof (Z.div_mod (br_bit_pos r) 8 ltac:(lia)) as Hdm.
  pose proof (Z.mod_pos_bound (br_bit_pos r) 8 ltac:(lia)).
  assert (Hk : (k < length (br_buffer r))%nat).
  { subst k. apply Nat2Z.inj_lt. rewrite Z2Nat.id by (apply Z.div_pos; lia).
    apply Z.div_lt_upper_bound; lia. }
  rewrite take_drop_commute, take_take, Nat.min_l by lia. rewrite <- take_drop_commute.
  replace (Z.to_nat (br_bit_pos r)) with (8 * k + Z.to_nat o)%nat by (subst k o; lia).
  rewrite <- drop_drop, drop_bits_of_bytes.
  destruct (lookup_lt_is_Some_2 (br_buffer r) k Hk) as [b Hb].
  rewrite Hb, (drop_S _ b) by done. cbn [default]. rewrite bits_of_bytes_cons.
  rewrite drop_app_le by (rewrite length_zbits; lia).
  rewrite take_app_le; [done|]. rewrite length_drop, length_zbits. lia.
Qed.

Lemma read_loop_spec fuel r result written remaining :
  reader_wf r -> 0 <= remaining -> br_bit_pos r + remaining <= br_capacity_bits r ->
  remaining = 0 \/ remaining + br_bit_pos r mod 8 <= 8 * Z.of_nat fuel ->
  0 <= written -> 0 <= result < 2 ^ written -> written + remaining <= 32 ->
  read_loop fuel result written remaining r =
  (result + 2 ^ written * bval (take (Z.to_nat remaining) (rest r)),
   advance (Z.to_nat remaining) r).
Proof.
  revert r result written remaining.
  induction fuel as [|fuel IH]; intros r result written remaining Hr Hrem Hcap Hfuel Hw Hres H32.
  all: pose proof (Z.mod_pos_bound (br_bit_pos r) 8 ltac:(lia)).
  { replace remaining with 0 by lia. change (Z.to_nat 0) with 0%nat.
    rewrite advance_0. cbn [read_loop take bval]. by rewrite Z.mul_0_r, Z.add_0_r. }
  cbn [read_loop]. destruct (Z.leb_spec remaining 0) as [H0|H0].
  { replace remaining with 0 by lia. change (Z.to_nat 0) with 0%nat.
    rewrite advance_0. cbn [read_loop take bval]. by rewrite Z.mul_0_r, Z.add_0_r. }
  cbv zeta. rewrite land_7 by (destruct Hr; lia).
  rewrite (Z.shiftr_div_pow2 (br_bit_pos r)) by lia. change (2 ^ 3) with 8.
  set (o := br_bit_pos r mod 8) in *.
  set (t := if remaining <? 8 - o then remaining else 8 - o).
  assert (Ht : 0 < t /\ o + t <= 8 /\ t <= remaining /\ (t = remaining \/ o + t = 8))
    by (subst t; destruct (Z.ltb_spec remaining (8 - o)); lia).
  destruct Ht as (Ht & Hot & Htr & Hmod).
  pose proof (rest_head r t Hr Ht Hot ltac:(lia)) as Hh. fold o in Hh.
  rewrite chunk_value, <- Hh by lia. clear Hh.
  pose proof (length_rest r Hr) as Hlen.
  pose proof (bval_range (take (Z.to_nat t) (rest r))) as Hch.
  rewrite length_take, Nat.min_l, Z2Nat.id in Hch by lia.
  assert (Hpow : 2 ^ written * 2 ^ t <= 2 ^ 32)
    by (rewrite <- Z.pow_add_r by lia; apply Z.pow_le_mono_r; lia).
  assert (0 < 2 ^ written) by (apply Z.pow_pos_nonneg; lia).
  rewrite (wrap_small 32 (Z.shiftl _ _)) by (rewrite Z.shiftl_mul_pow2 by lia; split; nia).
  rewrite lor_shiftl_add by lia.
  rewrite (wrap_small 32 (br_bit_pos r + t)) by (destruct Hr; split; lia).
  assert (Hr' : reader_wf (advance (Z.to_nat t) r)) by (apply reader_wf_advance; [done|lia]).
  replace (mkBitReader _ _ (br_bit_pos r + t) _) with (advance (Z.to_nat t) r)
    by (unfold advance; f_equal; lia).
  rewrite IH; auto; cbn [advance br_bit_pos br_capacity_bits]; rewrite ?Z2Nat.id by lia; try lia.
  - rewrite rest_advance, advance_advance by done. rewrite <- Z2Nat.inj_add by lia.
    replace (t + (remaining - t)) with remaining by lia. f_equal.
    replace (Z.to_nat remaining) with (Z.to_nat t + Z.to_nat (remaining - t))%nat by lia.
    rewrite <- take_take_drop.
    rewrite bval_app, length_take, Nat.min_l, Z2Nat.id, Z.pow_add_r by lia. lia.
  - destruct Hmod as [->|Hmod]; [lia|right].
    rewrite (Z.div_mod (br_bit_pos r) 8) by lia. fold o.
    replace (8 * (br_bit_pos r / 8) + o + t) with ((1 + br_bit_pos r / 8) * 8) by lia.
    rewrite Z.mod_mul by lia. lia.
  - rewrite Z.pow_add_r by lia. nia.
Qed.

Lemma read_bits_spec r n :
  reader_wf r -> 0 <= n <= 32 -> br_bit_pos r + n <= br_capacity_bits r ->
  read_bits n r = (bval (take (Z.to_nat n) (rest r)), advance (Z.to_nat n) r).
Proof.
  intros Hr Hn Hcap. unfold read_bits.
  destruct (Z.eqb_spec n 0) as [->|Hn0].
  { change (Z.to_nat 0) with 0%nat. by rewrite advance_0. }
  rewrite wrap_small by (destruct Hr; split; lia).
  destruct (Z.ltb_spec (br_capacity_bits r) (br_bit_pos r + n)); [lia|].
  pose proof (Z.mod_pos_bound (br_bit_pos r) 8 ltac:(lia)).
  rewrite read_loop_spec by (auto; cbn; lia). f_equal. lia.
Qed.

(** A read past the end returns zero, latches the flag and does not move. *)
Lemma read_bits_overflow r n :
  reader_wf r -> 0 < n <= 32 -> br_capacity_bits r < br_bit_pos r + n ->
  read_bits n r = (0, set_read_overflow r).
Proof.
  intros Hr Hn Hcap. unfold read_bits. rewrite (proj2 (Z.eqb_neq n 0)) by lia.
  rewrite wrap_small by (destruct Hr; split; lia).
  by rewrite (proj2 (Z.ltb_lt _ _)).
Qed.

Lemma reads_bits bs n : Z.of_nat (length bs) = n -> 0 <= n <= 32 -> reads (read_bits n) bs (bval bs).
Proof.
  intros Hl Hn r tl Hr E. pose proof (length_rest r Hr) as Hlen.
  rewrite E, length_app in Hlen. rewrite read_bits_spec by (auto; lia).
  rewrite E. replace (Z.to_nat n) with (length bs) by lia. by rewrite take_app_length.
Qed.

Lemma reads_zbits n v : fits (Z.of_nat n) v -> (n <= 32)%nat ->
  reads (read_bits (Z.of_nat n)) (zbits n v) v.
Proof.
  intros Hv Hn. eapply reads_eq; [done| |apply reads_bits; rewrite ?length_zbits; lia].
  rewrite bval_zbits. by apply Z.mod_small.
Qed.

Lemma reads_bool b : reads read_bool [b] b.
Proof.
  eapply reads_eq; [done| |apply reads_bind_ret, (reads_bits [b] 1); done].
  by destruct b.
Qed.

Lemma reads_u8 v : fits 8 v -> reads read_u8 (zbits 8 v) v.
Proof.
  intros Hv. eapply reads_eq; [done| |apply reads_bind_ret, (reads_zbits 8 v Hv); lia].
  by apply wrap_small.
Qed.

Lemma reads_u16 v : fits 16 v -> reads read_u16 (zbits 16 v) v.
Proof.
  intros Hv. eapply reads_eq; [done| |apply reads_bind_ret, (reads_zbits 16 v Hv); lia].
  by apply wrap_small.
Qed.

Lemma reads_u32 v : fits 32 v -> reads read_u32 (zbits 32 v) v.
Proof. intros Hv. apply (reads_zbits 32 v Hv). lia. Qed.

Lemma reads_u64 v : fits 64 v -> reads read_u64 (zbits 64 v) v.
Proof.
  intros [H0 H1]. change 64%nat with (32 + 32)%nat. rewrite (zbits_app 32 32).
  eapply reads_bind; [apply (reads_bits _ 32); rewrite ?length_zbits; lia|].
  eapply reads_eq; [done| |apply reads_bind_ret, (reads_bits _ 32); rewrite ?length_zbits; lia].
  rewrite !bval_zbits. change (2 ^ Z.of_nat 32) with (2 ^ 32).
  change (Z.of_nat 32) with 32. rewrite Z.shiftr_div_pow2 by lia.
  pose proof (Z.mod_pos_bound v (2 ^ 32) ltac:(lia)).
  pose proof (Z.div_mod v (2 ^ 32) ltac:(lia)).
  assert (v / 2 ^ 32 < 2 ^ 32) by (apply Z.div_lt_upper_bound; lia).
  assert (0 <= v / 2 ^ 32) by (apply Z.div_pos; lia).
  rewrite (Z.mod_small (v / 2 ^ 32)) by lia.
  rewrite wrap_small by (rewrite Z.shiftl_mul_pow2 by lia; split; lia).
  rewrite lor_shiftl_add by lia. lia.
Qed.

Lemma reads_ranged v lo hi :
  i32_range lo -> i32_range hi -> lo <= v <= hi -> hi - lo < 2 ^ 31 ->
  reads (read_ranged lo hi) (zbits (Z.to_nat (bits_required lo hi)) (v - lo)) v.
Proof.
  intros Hlo Hhi Hv Hr. destruct (bits_required_spec lo hi) as [A B]; [done..|lia|].
  unfold read_ranged, i32_range in *.
  eapply reads_eq; [done| |apply reads_bind_ret, reads_bits; rewrite ?length_zbits; lia].
  rewrite bval_zbits, Z2Nat.id, Z.mod_small by lia.
  rewrite (i32_small (v - lo)) by lia. rewrite i32_small; lia.
Qed.

Lemma varint_byte_split v : 128 <= v -> fits 32 v ->
  let b := v mod 128 + 128 in
  fits 8 b /\ Z.land b 0x7f = v mod 128 /\ Z.land b 0x80 = 128.
Proof.
  intros Hv Hf. pose proof (Z.mod_pos_bound v 128 ltac:(lia)) as Hm. cbn zeta.
  rewrite <- varint_more. repeat split.
  - rewrite varint_more. lia.
  - rewrite varint_more. lia.
  - rewrite varint_low, varint_more.
    replace (v mod 128 + 128) with (v mod 128 + 1 * 128) by lia.
    rewrite Z.mod_add by lia. apply Z.mod_mod. lia.
  - apply Z.bits_inj'. intros i Hi. rewrite Z.land_spec, Z.lor_spec, Z.land_spec.
    change 0x80 with (2 ^ 7). change 0x7f with (Z.ones 7).
    destruct (Z.eq_dec i 7) as [->|Hne].
    + rewrite Z.ones_spec_high by lia. by rewrite andb_false_r, Z.pow2_bits_true by lia.
    + rewrite Z.pow2_bits_false by lia. by rewrite andb_false_r.
Qed.

Lemma reads_varint_loop fuel v result shift :
  fits 32 v -> (0 < fuel)%nat -> v < 2 ^ (7 * Z.of_nat fuel) ->
  0 <= shift -> 0 <= result < 2 ^ shift -> v * 2 ^ shift < 2 ^ 32 ->
  reads (read_varint_loop fuel result shift) (bits_of_bytes (varint_bytes fuel v))
    (result + 2 ^ shift * v).
Proof.
  revert v result shift. induction fuel as [|fuel IH]; intros v result shift Hv H0 Hf Hs Hres Hlt.
  { lia. }
  cbn [read_varint_loop varint_bytes].
  assert (Hp : 0 < 2 ^ shift) by (apply Z.pow_pos_nonneg; lia).
  pose proof (Z.mod_pos_bound v 128 ltac:(lia)) as Hm.
  pose proof (Z.div_mod v 128 ltac:(lia)) as Hdm.
  destruct (Z.ltb_spec v 128) as [H|H].
  - rewrite bits_of_bytes_singleton, <- (app_nil_r (zbits 8 v)). destruct Hv.
    eapply reads_bind; [apply (reads_zbits 8); [split|]; lia|]. cbv zeta.
    rewrite varint_low, Z.mod_small by lia.
    assert (Z.land v 0x80 = 0) as ->.
    { apply Z.bits_inj'. intros i Hi. rewrite Z.land_spec, Z.bits_0. change 0x80 with (2 ^ 7).
      destruct (Z.eq_dec i 7) as [->|Hne].
      - rewrite <- (Z.mod_small v (2 ^ 7)) by lia. by rewrite Z.mod_pow2_bits_high by lia.
      - rewrite Z.pow2_bits_false by lia. by rewrite andb_false_r. }
    rewrite Z.eqb_refl.
    rewrite (wrap_small 32) by (rewrite Z.shiftl_mul_pow2 by lia; split; nia).
    rewrite lor_shiftl_add by lia. apply reads_ret.
  - destruct (varint_byte_split v H Hv) as (A & B & C). rewrite bits_of_bytes_cons.
    eapply reads_bind; [apply (reads_zbits 8); [done|lia]|]. cbv zeta.
    rewrite B, C. change (128 =? 0) with false. cbv iota.
    assert (Hmul : v mod 128 * 2 ^ shift <= v * 2 ^ shift) by nia.
    rewrite (wrap_small 32) by (rewrite Z.shiftl_mul_pow2 by lia; split; nia).
    rewrite lor_shiftl_add by lia.
    eapply reads_eq; [reflexivity| |apply IH]; rewrite ?Z.pow_add_r by lia; change (2 ^ 7) with 128.
    + nia.
    + destruct Hv. split; [apply Z.div_pos; lia|]. apply Z.div_lt_upper_bound; lia.
    + destruct fuel; [|lia]. cbn in Hf. lia.
    + apply Z.div_lt_upper_bound; [lia|]. rewrite Nat2Z.inj_succ in Hf.
      replace (7 * Z.succ (Z.of_nat fuel)) with (7 + 7 * Z.of_nat fuel) in Hf by lia.
      rewrite Z.pow_add_r in Hf by lia. change (2 ^ 7) with 128 in Hf. lia.
    + lia.
    + nia.
    + nia.
Qed.

Lemma reads_varint v : fits 32 v -> reads read_varint (varint_bits v) v.
Proof.
  intros Hv. eapply reads_eq; [done| |apply (reads_varint_loop 5 v 0 0)]; try done; try lia.
  - destruct Hv. eapply Z.lt_trans; [done|]. by vm_compute.
  - destruct Hv. lia.
Qed.

Lemma reads_each data : Forall (fits 8) data ->
  reads (read_each (length data)) (bits_of_bytes data) data.
Proof.
  induction 1 as [|b data Hb _ IH]; [apply reads_ret|].
  rewrite bits_of_bytes_cons. cbn [read_each length].
  eapply reads_bind; [by apply reads_u8|]. apply (reads_bind_ret _ (cons b)), IH.
Qed.

Lemma reads_string s : short_string s -> reads read_string (string_bits s) s.
Proof.
  unfold short_string. intros Hs.
  eapply reads_bind; [apply reads_varint; split; lia|]. cbv beta.
  destruct (Z.ltb_spec 1023 (Z.of_nat (String.length s))); [lia|].
  eapply reads_eq; [done| |apply reads_bind_ret].
  - apply bytes_string_bytes.
  - rewrite Nat2Z.id, <- length_string_bytes. apply reads_each, string_bytes_fits.
Qed.

Lemma reads_bytes out data :
  Forall (fits 8) data -> length out = length data -> 8 * Z.of_nat (length data) < 2 ^ 31 ->
  reads (read_bytes out) (bits_of_bytes data) data.
Proof.
  intros Hd Hlo Hlen r tl Hr E. unfold read_bytes. rewrite Hlo.
  pose proof Hr as [Hc Hp Hby]. rewrite land_7 by lia.
  destruct (Z.eqb_spec (br_bit_pos r mod 8) 0) as [H0|]; cbn [negb];
    [|by apply (reads_each data Hd r tl)].
  pose proof (length_rest r Hr) as Hl. rewrite E, length_app, length_bits_of_bytes in Hl.
  rewrite (wrap_small 64) by (split; lia).
  destruct (Z.ltb_spec (br_capacity_bits r) (br_bit_pos r + Z.of_nat (length data) * 8)); [lia|].
  rewrite (wrap_small 32) by (split; lia).
  rewrite Z.shiftr_div_pow2 by lia. change (2 ^ 3) with 8.
  pose proof (Z.div_mod (br_bit_pos r) 8 ltac:(lia)) as Hdm.
  f_equal; [|unfold advance; f_equal; rewrite length_bits_of_bytes; lia].
  set (k := Z.to_nat (br_bit_pos r / 8)).
  assert (Hk : Z.to_nat (br_bit_pos r) = (8 * k)%nat) by (subst k; lia).
  unfold rest in E. rewrite Hk in E.
  assert (Htk : take (8 * length data) (drop (8 * k) (bits_of_bytes (br_buffer r))) =
                bits_of_bytes data).
  { apply (f_equal (take (8 * length data))) in E.
    rewrite take_app_length' in E by (by rewrite length_bits_of_bytes). rewrite <- E.
    rewrite !take_drop_commute, take_take, Nat.min_l by lia. done. }
  rewrite drop_bits_of_bytes, take_bits_of_bytes in Htk.
  apply bits_of_bytes_inj; auto using Forall_take, Forall_drop.
Qed.

(** ** Parsers: readers that can refuse *)
Definition overflowed : Rd bool := fun r => (br_overflow r, r).

(** [if (reader.overflowed()) return false;] and [return !reader.overflowed();] *)
Definition unless_overflowed {A} (k : Rd (option A)) : Rd (option A) :=
  o ← overflowed; if o : bool then mret None else k.

(** [m], on a stream that starts with [bs] and has not overflowed, accepts with [a]. *)
Definition parses {A} (m : Rd (option A)) (bs : list bool) (a : A) : Prop :=
  forall r tl, reader_wf r -> br_overflow r = false -> rest r = bs ++ tl ->
    m r = (Some a, advance (length bs) r).

Lemma parses_ret {A} (a : A) : parses (mret (Some a)) [] a.
Proof. intros r tl _ _ _. cbn. by rewrite advance_0. Qed.

Lemma parses_bind {A B} (m : Rd A) (k : A -> Rd (option B)) b1 b2 a b :
  reads m b1 a -> parses (k a) b2 b -> parses (m ≫= k) (b1 ++ b2) b.
Proof.
  intros H1 H2 r tl Hr Ho E. rewrite <- app_assoc in E.
  unfold mbind, Rd_bind. rewrite (H1 r (b2 ++ tl) Hr E).
  rewrite (H2 (advance (length b1) r) tl).
  - by rewrite advance_advance, length_app.
  - apply reader_wf_advance; [done|]. rewrite E, length_app. lia.
  - done.
  - by rewrite rest_advance, E, drop_app_length by done.
Qed.

Lemma parses_check {A} (k : Rd (option A)) bs a : parses k bs a -> parses (unless_overflowed k) bs a.
Proof.
  intros H r tl Hr Ho E. unfold unless_overflowed, overflowed, mbind, Rd_bind. rewrite Ho.
  by apply (H r tl).
Qed.

(** The same for readers with any result, that look at the overflow flag. *)
Definition accepts {A} (m : Rd A) (bs : list bool) (a : A) : Prop :=
  forall r tl, reader_wf r -> br_overflow r = false -> rest r = bs ++ tl -> m r = (a, advance (length bs) r).

Lemma accepts_reads {A} (m : Rd A) bs a : reads m bs a -> accepts m bs a.
Proof. intros H r tl Hr _ E. by apply (H r tl). Qed.

Lemma accepts_overflowed : accepts overflowed [] false.
Proof. intros r tl _ Ho _. unfold overflowed. rewrite Ho. cbn. by rewrite advance_0. Qed.

Lemma accepts_bind {A B} (m : Rd A) (k : A -> Rd B) b1 b2 a b :
  accepts m b1 a -> accepts (k a) b2 b -> accepts (m ≫= k) (b1 ++ b2) b.
Proof.
  intros H1 H2 r tl Hr Ho E. rewrite <- app_assoc in E.
  unfold mbind, Rd_bind. rewrite (H1 r (b2 ++ tl) Hr Ho E).
  rewrite (H2 (advance (length b1) r) tl); [by rewrite advance_advance, length_app| |done|].
  - apply reader_wf_advance; [done|]. rewrite E, length_app. lia.
  - by rewrite rest_advance, E, drop_app_length by done.
Qed.

(** One step of a decoder written as a sequence of reads. *)
Lemma accepts_step {A} (m : Rd A) bs a r tl :
  accepts m bs a -> reader_wf r -> br_overflow r = false -> rest r = bs ++ tl ->
  exists r', m r = (a, r') /\ reader_wf r' /\ br_overflow r' = false /\ rest r' = tl /\
    br_bit_pos r' = br_bit_pos r + Z.of_nat (length bs).
Proof.
  intros Hm Hr Ho E. exists (advance (length bs) r). split; [by apply (Hm r tl)|]. split; [|split; [done|split; [|done]]].
  - apply reader_wf_advance; [done|]. rewrite E, length_app. lia.
  - by rewrite rest_advance, E, drop_app_length by done.
Qed.

Lemma reads_step {A} (m : Rd A) bs a r tl :
  reads m bs a -> reader_wf r -> br_overflow r = false -> rest r = bs ++ tl ->
  exists r', m r = (a, r') /\ reader_wf r' /\ br_overflow r' = false /\ rest r' = tl /\
    br_bit_pos r' = br_bit_pos r + Z.of_nat (length bs).
Proof. intros Hm. by apply accepts_step, accepts_reads. Qed.

(** What a reader guarantees on any bytes at all: it keeps the reader
    well-formed, and its result satisfies [P]. *)
Definition yields {A} (m : Rd A) (P : A -> Prop) : Prop :=
  forall r, reader_wf r -> P (fst (m r)) /\ reader_wf (snd (m r)).

Lemma yields_ret {A} (a : A) (P : A -> Prop) : P a -> yields (mret a) P.
Proof. by intros Ha r Hr. Qed.

Lemma yields_bind {A B} (m : Rd A) (k : A -> Rd B) P Q :
  yields m P -> (forall a, P a -> yields (k a) Q) -> yields (m ≫= k) Q.
Proof.
  intros Hm Hk r Hr. destruct (Hm r Hr) as [Hp Hr']. unfold mbind, Rd_bind.
  destruct (m r) as [a r']. by apply Hk.
Qed.

Lemma yields_weaken {A} (m : Rd A) (P Q : A -> Prop) :
  yields m P -> (forall a, P a -> Q a) -> yields m Q.
Proof. intros H HPQ r Hr. destruct (H r Hr). auto. Qed.

Lemma yields_latch {A} (a : A) (P : A -> Prop) : P a -> yields (read_latch a) P.
Proof. intros Ha r []. split; [done|by split]. Qed.

Lemma yields_check {A} (k : Rd (option A)) (P : option A -> Prop) :
  P None -> yields k P -> yields (unless_overflowed k) P.
Proof.
  intros HN Hk r Hr. unfold unless_overflowed, overflowed, mbind, Rd_bind.
  destruct (br_overflow r); [done|by apply Hk].
Qed.

Lemma yields_bits n : 0 <= n <= 32 -> yields (read_bits n) (fits n).
Proof.
  intros Hn r Hr. destruct (Z.le_gt_cases (br_bit_pos r + n) (br_capacity_bits r)) as [Hle|Hgt].
  - rewrite read_bits_spec by (auto; lia). cbn [fst snd]. pose proof (length_rest r Hr) as Hl. split.
    + pose proof (bval_range (take (Z.to_nat n) (rest r))) as B.
      rewrite length_take, Nat.min_l, Z2Nat.id in B by lia. done.
    + apply reader_wf_advance; [done|lia].
  - destruct (Z.eq_dec n 0) as [->|]; [destruct Hr; lia|].
    rewrite read_bits_overflow by (auto; lia). cbn [fst snd].
    split; [split; [lia|apply Z.pow_pos_nonneg; lia]|]. destruct Hr. by split.
Qed.

Lemma yields_u8 : yields read_u8 (fits 8).
Proof.
  eapply yields_bind; [apply (yields_bits 8); lia|]. intros v Hv. apply yields_ret, wrap_range. lia.
Qed.

Lemma yields_u32 : yields read_u32 (fits 32).
Proof. apply yields_bits. lia. Qed.

Lemma yields_bool : yields read_bool (fun _ => True).
Proof. eapply yields_bind; [apply (yields_bits 1); lia|]. intros. by apply yields_ret. Qed.

Lemma yields_u64 : yields read_u64 (fits 64).
Proof.
  eapply yields_bind; [apply (yields_bits 32); lia|]. intros lo Hlo.
  eapply yields_bind; [apply (yields_bits 32); lia|]. intros hi Hhi.
  apply yields_ret, fits_lor; [lia| |apply wrap_range; lia]. unfold fits in *; lia.
Qed.

(** A ranged field is only as tight as its width: the reader does not check [hi]. *)
Lemma yields_ranged lo hi :
  i32_range lo -> i32_range hi -> lo <= hi -> bits_required lo hi <= 31 ->
  lo + 2 ^ bits_required lo hi <= 2 ^ 31 ->
  yields (read_ranged lo hi) (fun v => lo <= v < lo + 2 ^ bits_required lo hi).
Proof.
  intros Hlo Hhi Hle Hb Hr. destruct (bits_required_spec lo hi) as [A B]; [done..|].
  eapply yields_bind; [apply yields_bits; lia|]. intros v Hv. apply yields_ret.
  assert (2 ^ bits_required lo hi <= 2 ^ 31) by (apply Z.pow_le_mono_r; lia).
  unfold fits, i32_range in *. rewrite !i32_small; rewrite ?i32_small; lia.
Qed.

Lemma yields_varint : yields read_varint (fits 32).
Proof.
  unfold read_varint.
  assert (H : forall fuel result shift, fits 32 result -> yields (read_varint_loop fuel result shift) (fits 32)).
  { induction fuel as [|fuel IH]; intros result shift Hr; [by apply yields_ret|].
    cbn [read_varint_loop]. eapply yields_bind; [apply (yields_bits 8); lia|]. intros b Hb. cbn beta zeta.
    assert (fits 32 (Z.lor result (u32 (Z.shiftl (Z.land b 127) shift)))).
    { apply fits_lor; [lia|done|apply wrap_range; lia]. }
    destruct (_ =? 0); [by apply yields_ret|by apply IH]. }
  apply H. split; lia.
Qed.

Lemma yields_each n : yields (read_each n) (fun l => length l = n /\ Forall (fits 8) l).
Proof.
  induction n as [|n IH]; [by apply yields_ret|]. cbn [read_each].
  eapply yields_bind; [apply yields_u8|]. intros b Hb.
  eapply yields_bind; [apply IH|]. intros l [Hl Hf]. apply yields_ret. split; [cbn; lia|by constructor].
Qed.

Lemma length_bytes_string l : String.length (bytes_string l) = length l.
Proof.
  unfold bytes_string. induction l as [|b l IH]; [done|]. cbn. by rewrite IH.
Qed.

Lemma yields_string : yields read_string short_string.
Proof.
  eapply yields_bind; [apply yields_varint|]. intros len Hlen. cbn beta.
  destruct (Z.ltb_spec 1023 len); [apply yields_latch; unfold short_string; cbn; lia|].
  eapply yields_bind; [apply yields_each|]. intros l [Hl _]. apply yields_ret.
  unfold short_string. rewrite length_bytes_string. unfold fits in Hlen. lia.
Qed.

(** ** The wire codec interface

    What a message promises to the layers that send it: an encoder, a decoder
    that may refuse, the bit string the two agree on for the values [codec_ok]
    allows, and what the receiver sees of the value ([codec_wire], the identity
    but for quantized fields). *)
Class Codec (A : Type) := {
  codec_write : A -> BitWriter -> BitWriter;
  codec_read : Rd (option A);
  codec_bits : A -> list bool;
  codec_ok : A -> Prop;
  codec_wire : A -> A;
  codec_writes a : codec_ok a -> writes (codec_write a) (codec_bits a);
  codec_parses a : codec_ok a -> parses codec_read (codec_bits a) (codec_wire a)
}.

(** A finished packet: nothing when the writer overflowed, else the bytes. *)
Definition finish (w : BitWriter) : option (list Z) :=
  if bw_overflow w then None else Some (output w).

Lemma Forall_output w : writer_wf w -> Forall (fits 8) (output w).
Proof.
  intros [Hc Hdiv Hp Hpe Ha Hf Hby]. unfold output, bytes_written.
  destruct (0 <? bw_pending_bits w); apply Forall_take; [|done].
  apply Forall_insert; [done|]. apply wrap_range. lia.
Qed.

Section Packet.
Context (m : BitWriter -> BitWriter) (bs : list bool) (Hm : writes m bs).
Context (buffer : list Z) (capacity : Z).
Context (Hbuf : Forall (fits 8) buffer) (Hcap : 0 <= capacity <= Z.of_nat (length buffer))
        (Hlen : 8 * Z.of_nat (length buffer) < 2 ^ 31).

Let w := m (BitWriter_new buffer capacity).

Lemma packet_wf : writer_wf w.
Proof.
  destruct (writer_wf_new buffer capacity) as [Hw _]; auto.
  apply (ext_wf _ _ (proj1 (Hm _ Hw))).
Qed.

(** The packet is built exactly when its bits fit. *)
Lemma packet_fits : finish w <> None <-> Z.of_nat (length bs) <= capacity * 8.
Proof.
  destruct (writer_wf_new buffer capacity) as [Hw Hw0]; auto.
  destruct (Hm _ Hw) as (E & R & O). unfold finish, room in *. fold w in R, O.
  unfold BitWriter_new in R, O; cbn [bw_bit_pos bw_capacity_bits bw_overflow] in R, O.
  rewrite wrap_small in R, O by (split; lia).
  split; intros H.
  - destruct (Z.le_gt_cases (Z.of_nat (length bs)) (capacity * 8)); [lia|].
    rewrite O in H by lia. done.
  - destruct R as [_ ->]; [lia|done].
Qed.

Lemma packet_bits bytes : finish w = Some bytes ->
  (exists pad, bits_of_bytes bytes = bs ++ repeat false pad /\ (pad < 8)%nat) /\
  Forall (fits 8) bytes /\ Z.of_nat (length bytes) <= capacity.
Proof.
  destruct (writer_wf_new buffer capacity) as [Hw Hw0]; auto.
  pose proof packet_fits as Hfit. pose proof packet_wf as Hwf. intros Hf.
  assert (Hle : Z.of_nat (length bs) <= capacity * 8) by (apply Hfit; by rewrite Hf).
  destruct (Hm _ Hw) as (E & R & O). unfold finish in Hf. fold w in R, O, E.
  destruct (bw_overflow w); [done|]. injection Hf as <-.
  destruct (output_bits w Hwf) as (pad & Ho & Hpad).
  destruct R as [Wr _].
  { unfold room, BitWriter_new. cbn. rewrite wrap_small by (split; lia). lia. }
  rewrite Hw0 in Wr. cbn [app] in Wr. rewrite Wr in Ho.
  split; [by exists pad|]. split; [by apply Forall_output|].
  destruct (length_output w Hwf) as [_ [_ Hc]]. rewrite (ext_capacity _ _ E) in Hc.
  unfold BitWriter_new in Hc. cbn in Hc. rewrite wrap_small in Hc by (split; lia). lia.
Qed.

(** A decoder for [bs] run on the packet returns the value, without overflow. *)
Lemma packet_roundtrip {A} (d : Rd A) (a : A) bytes :
  reads d bs a -> finish w = Some bytes ->
  exists r', d (BitReader_new bytes (Z.of_nat (length bytes))) = (a, r') /\
    br_overflow r' = false.
Proof.
  intros Hd Hf. destruct (packet_bits bytes Hf) as ((pad & E & _) & Hby & Hl).
  destruct (reader_wf_new bytes) as [Hr Hrest]; [done|lia|].
  rewrite E in Hrest. rewrite (Hd _ _ Hr Hrest). by eexists.
Qed.
End Packet.

(** [return writer.overflowed() ? 0 : writer.bytes_written();] and the decoder's
    [BitReader reader(data, size)]. *)
Definition encode_packet `{Codec A} (a : A) (buffer : list Z) (capacity : Z) : option (list Z) :=
  finish (codec_write a (BitWriter_new buffer capacity)).

Definition decode_packet `{Codec A} (data : list Z) : option A :=
  fst (codec_read (BitReader_new data (Z.of_nat (length data)))).

(** A buffer the caller can hand to an encoder. *)
Definition buffer_ok (buffer : list Z) (capacity : Z) : Prop :=
  Forall (fits 8) buffer /\ 0 <= capacity <= Z.of_nat (length buffer) /\ 8 * Z.of_nat (length buffer) < 2 ^ 31.

(** Every codec: encoding succeeds exactly when the bits fit, and what is
    encoded is decoded, followed by whatever the packet was padded with. *)
Lemma codec_roundtrip `{Codec A} (a : A) buffer capacity :
  codec_ok a -> buffer_ok buffer capacity ->
  (encode_packet a buffer capacity <> None <-> Z.of_nat (length (codec_bits a)) <= capacity * 8) /\
  forall bytes, encode_packet a buffer capacity = Some bytes ->
    decode_packet bytes = Some (codec_wire a) /\ Forall (fits 8) bytes /\ Z.of_nat (length bytes) <= capacity.
Proof.
  intros Hok (Hb & Hc & Hl). pose proof (codec_writes a Hok) as Hw. split; [by apply packet_fits|].
  intros bytes Hf. destruct (packet_bits _ _ Hw _ _ Hb Hc Hl _ Hf) as ((pad & E & _) & Hby & Hlen).
  destruct (reader_wf_new bytes) as [Hr Hrest]; [done|lia|]. rewrite E in Hrest.
  unfold decode_packet. by rewrite (codec_parses a Hok _ _ Hr eq_refl Hrest).
Qed.

(** ** Theorems *)
Section Stream.
(** The field kinds of the class, with what each of them carries. *)
Inductive Field :=
  | FBits (value bits : Z)
  | FBool (value : bool)
  | FU8 (value : Z)
  | FU16 (value : Z)
  | FU32 (value : Z)
  | FU64 (value : Z)
  | FRanged (value min max : Z)
  | FVarint (value : Z)
  | FString (value : string)
  | FBytes (data : list Z).

Definition field_ok (f : Field) : Prop :=
  match f with
  | FBits v n => 0 <= n <= 32 /\ fits n v
  | FBool _ => True
  | FU8 v => fits 8 v
  | FU16 v => fits 16 v
  | FU32 v => fits 32 v
  | FU64 v => fits 64 v
  | FRanged v lo hi => i32_range lo /\ i32_range hi /\ lo <= v <= hi /\ hi - lo < 2 ^ 31
  | FVarint v => fits 32 v
  | FString s => short_string s
  | FBytes d => Forall (fits 8) d /\ 8 * Z.of_nat (length d) < 2 ^ 31
  end.

Definition write_field (f : Field) : BitWriter -> BitWriter :=
  match f with
  | FBits v n => write_bits v n
  | FBool b => write_bool b
  | FU8 v => write_u8 v
  | FU16 v => write_u16 v
  | FU32 v => write_u32 v
  | FU64 v => write_u64 v
  | FRanged v lo hi => write_ranged v lo hi
  | FVarint v => write_varint v
  | FString s => write_string s
  | FBytes d => write_bytes d
  end.

(** The reader is told the shape (widths, bounds, byte counts), never the value. *)
Definition read_like (f : Field) : Rd Field :=
  match f with
  | FBits _ n => v ← read_bits n; mret (FBits v n)
  | FBool _ => b ← read_bool; mret (FBool b)
  | FU8 _ => v ← read_u8; mret (FU8 v)
  | FU16 _ => v ← read_u16; mret (FU16 v)
  | FU32 _ => v ← read_u32; mret (FU32 v)
  | FU64 _ => v ← read_u64; mret (FU64 v)
  | FRanged _ lo hi => v ← read_ranged lo hi; mret (FRanged v lo hi)
  | FVarint _ => v ← read_varint; mret (FVarint v)
  | FString _ => s ← read_string; mret (FString s)
  | FBytes d => l ← read_bytes (repeat 0 (length d)); mret (FBytes l)
  end.

Fixpoint write_fields (l : list Field) (w : BitWriter) : BitWriter :=
  match l with [] => w | f :: l => write_fields l (write_field f w) end.

Fixpoint read_fields (l : list Field) : Rd (list Field) :=
  match l with
  | [] => mret []
  | f :: l => x ← read_like f; xs ← read_fields l; mret (x :: xs)
  end.

Definition field_bits (f : Field) : list bool :=
  match f with
  | FBits v n => zbits (Z.to_nat n) v
  | FBool b => [b]
  | FU8 v => zbits 8 v
  | FU16 v => zbits 16 v
  | FU32 v => zbits 32 v
  | FU64 v => zbits 64 v
  | FRanged v lo hi => zbits (Z.to_nat (bits_required lo hi)) (v - lo)
  | FVarint v => varint_bits v
  | FString s => string_bits s
  | FBytes d => bits_of_bytes d
  end.

Lemma write_field_writes f : field_ok f -> writes (write_field f) (field_bits f).
Proof.
  destruct f as [v n|b|v|v|v|v|v lo hi|v|s|d]; intros Hok;
    [|exact (writes_bool b)|exact (writes_u8 v Hok)|exact (writes_u16 v Hok)
     |exact (writes_u32 v Hok)|exact (writes_u64 v Hok)| |exact (writes_varint v Hok)
     |exact (writes_string s Hok)|].
  - destruct Hok as [H1 H2]. apply (writes_bits v n); [by eapply fits_le; [|apply H1]|done].
  - destruct Hok as (H1 & H2 & H3 & H4).
    eapply writes_eq; [|apply (writes_ranged v lo hi); [done|done|lia]]. unfold clampz.
    by rewrite Z.max_r, Z.min_r by lia.
  - destruct Hok. by apply (writes_bytes d).
Qed.

Lemma read_like_reads f : field_ok f -> reads (read_like f) (field_bits f) f.
Proof.
  destruct f as [v n|b|v|v|v|v|v lo hi|v|s|d]; intros Hok.
  - destruct Hok as [H1 H2]. pose proof (reads_zbits (Z.to_nat n) v) as R.
    rewrite Z2Nat.id in R by lia.
    apply (reads_bind_ret (read_bits n) (fun v => FBits v n)), R; [done|lia].
  - exact (reads_bind_ret _ FBool _ _ (reads_bool b)).
  - exact (reads_bind_ret _ FU8 _ _ (reads_u8 v Hok)).
  - exact (reads_bind_ret _ FU16 _ _ (reads_u16 v Hok)).
  - exact (reads_bind_ret _ FU32 _ _ (reads_u32 v Hok)).
  - exact (reads_bind_ret _ FU64 _ _ (reads_u64 v Hok)).
  - destruct Hok as (H1 & H2 & H3 & H4).
    by apply (reads_bind_ret (read_ranged lo hi) (fun v => FRanged v lo hi)), reads_ranged.
  - exact (reads_bind_ret _ FVarint _ _ (reads_varint v Hok)).
  - exact (reads_bind_ret _ FString _ _ (reads_string s Hok)).
  - destruct Hok. apply (reads_bind_ret _ FBytes), reads_bytes; [done|by rewrite repeat_length|done].
Qed.

Lemma write_fields_writes l : Forall field_ok l -> writes (write_fields l) (l ≫= field_bits).
Proof.
  induction 1 as [|f l Hf _ IH]; [apply writes_id|].
  apply (writes_comp (write_field f)); [by apply write_field_writes|done].
Qed.

Lemma read_fields_reads l : Forall field_ok l -> reads (read_fields l) (l ≫= field_bits) l.
Proof.
  induction 1 as [|f l Hf _ IH]; [apply reads_ret|].
  eapply reads_bind; [by apply read_like_reads|]. apply (reads_bind_ret _ (cons f)), IH.
Qed.
End Stream.

(** C31. The bit stream round-trips: any sequence of fields (raw bits, booleans,
    fixed-width integers, ranged integers, varints, strings, byte blocks, mixed
    in any order and at any bit offset) that the writer accepts into a buffer of
    the given capacity without latching overflow is read back from the bytes it
    produced, field for field, without the reader overflowing; and the writer
    accepts it exactly when its bits fit. *)
Theorem bit_stream_roundtrip (l : list Field) (buffer : list Z) (capacity : Z) :
  Forall field_ok l -> Forall (fits 8) buffer ->
  0 <= capacity <= Z.of_nat (length buffer) -> 8 * Z.of_nat (length buffer) < 2 ^ 31 ->
  let result := finish (write_fields l (BitWriter_new buffer capacity)) in
  (result <> None <-> Z.of_nat (length (l ≫= field_bits)) <= capacity * 8) /\
  forall bytes, result = Some bytes ->
    exists r, read_fields l (BitReader_new bytes (Z.of_nat (length bytes))) = (l, r) /\
      br_overflow r = false.
Proof.
  intros Hl Hb Hc Hlen. pose proof (write_fields_writes l Hl) as Hw. split.
  - by apply packet_fits.
  - intros bytes Hbytes. eapply packet_roundtrip; eauto. by apply read_fields_reads.
Qed.

Definition sample_fields : list Field :=
  [FBits 43 6; FBits 467 9; FBool true; FRanged (-100) (-100) 100; FVarint 300;
   FU16 65535; FString "world-a"; FBytes [1; 255; 7]; FU64 (2 ^ 63 + 5); FVarint 4294967295].

Lemma bit_stream_roundtrip_witness :
  let result := finish (write_fields sample_fields (BitWriter_new (repeat 0 64) 64)) in
  (result <> None <-> Z.of_nat (length (sample_fields ≫= field_bits)) <= 64 * 8) /\
  forall bytes, result = Some bytes ->
    exists r, read_fields sample_fields (BitReader_new bytes (Z.of_nat (length bytes)))
      = (sample_fields, r) /\ br_overflow r = false.
Proof.
  apply (bit_stream_roundtrip sample_fields (repeat 0 64) 64).
  - repeat apply Forall_cons_2; try apply Forall_nil_2;
      cbn [field_ok]; unfold fits, i32_range, short_string; try lia.
    + cbn; lia.
    + split; [|cbn; lia]. repeat apply Forall_cons_2; try apply Forall_nil_2; lia.
  - apply Forall_zeros.
  - cbn; lia.
  - cbn; lia.
Defined.

(** [write_bits] on every branch: it appends exactly the low [bits] bits of
    the value when they fit and leaves the overflow flag alone; when they do not
    fit it latches the flag and appends nothing.  In both cases the class
    invariant holds again, the capacity is unchanged, no byte at or after the
    flushed position is touched, and a latched flag stays latched. *)
Theorem write_bits_refines (w : BitWriter) (value bits : Z) :
  writer_wf w -> fits 32 value -> 0 <= bits <= 32 ->
  let w' := write_bits value bits w in
  writer_wf w' /\ bw_capacity_bits w' = bw_capacity_bits w /\
  drop (bw_flushed_bytes w') (bw_buffer w') = drop (bw_flushed_bytes w') (bw_buffer w) /\
  (bw_bit_pos w + bits <= bw_capacity_bits w ->
     written w' = written w ++ zbits (Z.to_nat bits) value /\ bw_overflow w' = bw_overflow w) /\
  (bw_capacity_bits w < bw_bit_pos w + bits ->
     written w' = written w /\ bw_overflow w' = true) /\
  (bw_overflow w = true -> bw_overflow w' = true).
Proof.
  intros Hw Hv Hb. destruct (writes_bits value bits Hv Hb w Hw) as ([] & R & O).
  unfold room in *. rewrite length_zbits, Z2Nat.id in R, O by lia.
  cbn zeta. repeat split; auto; try (apply R; lia); try (apply O; lia); try apply ext_wf0.
  pose proof Hw as []. unfold write_bits. rewrite (proj2 (Z.eqb_neq bits 0)) by lia.
  rewrite room_wrap by (auto; lia). by rewrite (proj2 (Z.ltb_lt _ _)) by lia.
Qed.

Definition sample_writer : BitWriter := write_bits 5 3 (BitWriter_new (repeat 0 4) 4).

Lemma write_bits_refines_witness :
  written (write_bits 467 9 sample_writer) = written sample_writer ++ zbits 9 467 /\
  bw_overflow (write_bits 1 32 (write_bits 467 9 sample_writer)) = true.
Proof.
  assert (Hw : writer_wf sample_writer).
  { apply (ext_wf _ _ (proj1 (writes_bits 5 3 ltac:(split; lia) ltac:(lia) _
      (proj1 (writer_wf_new (repeat 0 4) 4 (Forall_zeros 4)
        ltac:(cbn; lia) ltac:(cbn; lia)))))). }
  pose proof (write_bits_refines sample_writer 467 9 Hw ltac:(split; lia) ltac:(lia))
    as (Hw' & _ & _ & H & _).
  pose proof (write_bits_refines _ 1 32 Hw' ltac:(split; lia) ltac:(lia)) as (_ & _ & _ & _ & H2 & _).
  split; [apply H; vm_compute; discriminate | apply H2; reflexivity].
Defined.
