(* ===== verification/F32.v ===== *)
(** * F32: single precision floats, casts and vectors ([src/src/core/types.h])

    [f32] is IEEE 754 binary32 with round to nearest even, as the executable
    specification of the Standard Library gives it ([SpecFloat], precision 24,
    [emax] 128).  No fused or reassociated operation is
    assumed.  The second half is the order and rounding theory the other files
    use: comparison agrees with the order of the values, and rounding never
    passes a representable bound. *)

From S2P Require Import Prelude.
From Stdlib Require Import ZArith Lia Bool Floats.SpecFloat.
From stdpp Require Import base tactics numbers list option.
#[local] Open Scope Z_scope.

Abbreviation f32 := spec_float.

(** What C++ leaves to the platform: casts of a float that the integer type
    cannot hold are undefined behaviour, and [std::cos]/[std::sin] are not
    correctly rounded by any standard.  Every definition and theorem holds for
    every platform. *)
Class Platform := {
  ub_cast_i32 : f32 -> Z;
  ub_cast_u32 : f32 -> Z;
  std_cos : f32 -> f32;
  std_sin : f32 -> f32
}.

Definition fadd : f32 -> f32 -> f32 := SFadd 24 128.
Definition fsub : f32 -> f32 -> f32 := SFsub 24 128.
Definition fmul : f32 -> f32 -> f32 := SFmul 24 128.
Definition fdiv : f32 -> f32 -> f32 := SFdiv 24 128.
Definition fsqrt : f32 -> f32 := SFsqrt 24 128.
Definition fopp : f32 -> f32 := SFopp.
Definition fabs : f32 -> f32 := SFabs.
Definition fltb : f32 -> f32 -> bool := SFltb.
Definition fleb : f32 -> f32 -> bool := SFleb.
Definition feqb : f32 -> f32 -> bool := SFeqb.
Abbreviation fgtb a b := (fltb b a).
Abbreviation fgeb a b := (fleb b a).

(** [static_cast<f32>] of an integer, and the literal [n / d]: both correctly
    rounded. *)
Definition f32_of_Z (z : Z) : f32 := binary_normalize 24 128 z 0 false.

Definition f32_lit (n : Z) (d : positive) : f32 :=
  match n with
  | Z0 => S754_zero false
  | _ =>
      let '(m, e, l) := SFdiv_core_binary 24 128 (Z.abs n) 0 (Zpos d) 0 in
      binary_round_aux 24 128 (n <? 0) m e l
  end.

Definition f0 : f32 := S754_zero false.
Definition f1 : f32 := f32_of_Z 1.
Definition fhalf : f32 := f32_lit 1 2.

(** The integer part of a finite float. *)
Definition ftrunc (x : f32) : option Z :=
  match x with
  | S754_zero _ => Some 0
  | S754_finite s m e =>
      let a := if 0 <=? e then Z.shiftl (Zpos m) e else Z.shiftr (Zpos m) (- e) in
      Some (if s then - a else a)
  | _ => None
  end.

Section Casts.
Context `{Platform}.

Definition f32_to_i32 (x : f32) : Z :=
  match ftrunc x with
  | Some z => if (- 2 ^ 31 <=? z) && (z <? 2 ^ 31) then z else i32 (ub_cast_i32 x)
  | None => i32 (ub_cast_i32 x)
  end.

Definition f32_to_u32 (x : f32) : Z :=
  match ftrunc x with
  | Some z => if (0 <=? z) && (z <? 2 ^ 32) then z else u32 (ub_cast_u32 x)
  | None => u32 (ub_cast_u32 x)
  end.
End Casts.

Definition is_nan (x : f32) : bool := match x with S754_nan => true | _ => false end.

(** [memcpy] between [f32] and [u32]; a NaN is written as the default quiet NaN. *)
Definition bits_of_f32 (x : f32) : Z :=
  match x with
  | S754_zero s => if s then 2 ^ 31 else 0
  | S754_infinity s => (if s then 2 ^ 31 else 0) + 255 * 2 ^ 23
  | S754_nan => 0x7fc00000
  | S754_finite s m e =>
      (if s then 2 ^ 31 else 0) +
      (if Zpos m <? 2 ^ 23 then Zpos m else (e + 150) * 2 ^ 23 + (Zpos m - 2 ^ 23))
  end.

Definition f32_of_bits (v : Z) : f32 :=
  let s := Z.testbit v 31 in
  let ex := Z.shiftr v 23 mod 256 in
  let m := v mod 2 ^ 23 in
  if ex =? 0 then match m with Zpos p => S754_finite s p (-149) | _ => S754_zero s end
  else if ex =? 255 then if m =? 0 then S754_infinity s else S754_nan
  else S754_finite s (Z.to_pos (m + 2 ^ 23)) (ex - 150).

(** ** Vectors and helpers *)
Record Vec2 := mkVec2 { vec_x : f32; vec_y : f32 }.

Definition Vec2_zero : Vec2 := mkVec2 f0 f0.
Definition vadd (a b : Vec2) : Vec2 := mkVec2 (fadd (vec_x a) (vec_x b)) (fadd (vec_y a) (vec_y b)).
Definition vsub (a b : Vec2) : Vec2 := mkVec2 (fsub (vec_x a) (vec_x b)) (fsub (vec_y a) (vec_y b)).
Definition vscale (a : Vec2) (s : f32) : Vec2 := mkVec2 (fmul (vec_x a) s) (fmul (vec_y a) s).
Definition veqb (a b : Vec2) : bool := feqb (vec_x a) (vec_x b) && feqb (vec_y a) (vec_y b).

Definition length_sq (a : Vec2) : f32 := fadd (fmul (vec_x a) (vec_x a)) (fmul (vec_y a) (vec_y a)).
Definition vlength (a : Vec2) : f32 := fsqrt (length_sq a).

Definition normalized (a : Vec2) : Vec2 :=
  let len := vlength a in
  if fltb len (f32_lit 1 1000000) then Vec2_zero else mkVec2 (fdiv (vec_x a) len) (fdiv (vec_y a) len).

Definition clamped (a : Vec2) (max_len : f32) : Vec2 :=
  let len_sq := length_sq a in
  if fleb len_sq (fmul max_len max_len) then a
  else let len := fsqrt len_sq in
       mkVec2 (fmul (fdiv (vec_x a) len) max_len) (fmul (fdiv (vec_y a) len) max_len).

Definition dot (a b : Vec2) : f32 := fadd (fmul (vec_x a) (vec_x b)) (fmul (vec_y a) (vec_y b)).

Definition distance_sq (a b : Vec2) : f32 :=
  let dx := fsub (vec_x a) (vec_x b) in
  let dy := fsub (vec_y a) (vec_y b) in
  fadd (fmul dx dx) (fmul dy dy).

Definition lerp (a b t : f32) : f32 := fadd a (fmul (fsub b a) t).
Definition vlerp (a b : Vec2) (t : f32) : Vec2 := mkVec2 (lerp (vec_x a) (vec_x b) t) (lerp (vec_y a) (vec_y b) t).
Definition clampf (v lo hi : f32) : f32 := if fltb v lo then lo else if fgtb v hi then hi else v.

(** Circular comparison of wrapping sequence numbers. *)
Definition sequence_greater16 (a b : Z) : bool :=
  ((b <? a) && (a - b <=? 32768)) || ((a <? b) && (32768 <? b - a)).

Definition sequence_greater32 (a b : Z) : bool :=
  ((b <? a) && (u32 (a - b) <=? 2147483648)) || ((a <? b) && (2147483648 <? u32 (b - a))).

(** ** Doubles ([f64]) *)
Definition f64 : Type := spec_float.
Definition f64_add : f64 -> f64 -> f64 := SFadd 53 1024.
Definition f64_div : f64 -> f64 -> f64 := SFdiv 53 1024.
Definition f64_sub : f64 -> f64 -> f64 := SFsub 53 1024.
Definition f64_mul : f64 -> f64 -> f64 := SFmul 53 1024.
Definition f64_ltb : f64 -> f64 -> bool := SFltb.
Definition f64_leb : f64 -> f64 -> bool := SFleb.
Definition f64_of_Z (z : Z) : f64 := binary_normalize 53 1024 z 0 false.

(** Conversion between the two formats: exact one way, rounded the other. *)
Definition convert (prec emax : Z) (x : spec_float) : spec_float :=
  match x with
  | S754_finite s m e => binary_normalize prec emax (if s then Zneg m else Zpos m) e s
  | _ => x
  end.

Definition f64_of_f32 (x : f32) : f64 := convert 53 1024 x.
Definition f32_of_f64 (x : f64) : f32 := convert 24 128 x.

(** ** Values as scaled integers

    Every exponent met by an operation on binary32 data is above [-K], so the
    value of [m * 2 ^ e] is represented by the integer [m * 2 ^ (e + K)]. *)
Definition K : Z := 500.
Definition sv (m e : Z) : Z := m * 2 ^ (e + K).

Definition fval (x : f32) : Z :=
  match x with
  | S754_finite s m e => if s then - sv (Zpos m) e else sv (Zpos m) e
  | _ => 0
  end.

Definition is_finite (x : f32) : bool :=
  match x with S754_zero _ | S754_finite _ _ _ => true | _ => false end.

Definition f32_valid (x : f32) : Prop := valid_binary 24 128 x = true.

#[export] Instance f32_valid_dec x : Decision (f32_valid x).
Proof. unfold f32_valid. apply _. Defined.

Lemma sv_shift m e k : 0 <= k -> - K <= e - k -> sv m e = sv (m * 2 ^ k) (e - k).
Proof.
  intros Hk He. unfold sv. replace (e + K) with (k + (e - k + K)) by lia.
  rewrite Z.pow_add_r by lia. lia.
Qed.

Lemma sv_mono m1 m2 e : - K <= e -> m1 <= m2 -> sv m1 e <= sv m2 e.
Proof.
  intros He Hm. unfold sv. assert (0 < 2 ^ (e + K)) by (apply Z.pow_pos_nonneg; lia). nia.
Qed.

Lemma sv_le_inv m1 m2 e : - K <= e -> sv m1 e <= sv m2 e -> m1 <= m2.
Proof.
  intros He. unfold sv. assert (0 < 2 ^ (e + K)) by (apply Z.pow_pos_nonneg; lia). nia.
Qed.

Lemma sv_pos m e : - K <= e -> 0 < m -> 0 < sv m e.
Proof.
  intros He Hm. unfold sv. assert (0 < 2 ^ (e + K)) by (apply Z.pow_pos_nonneg; lia). nia.
Qed.

(** *** Digits *)
Lemma digits2_pos_spec p :
  2 ^ (Zpos (digits2_pos p) - 1) <= Zpos p < 2 ^ Zpos (digits2_pos p).
Proof.
  induction p as [p IH|p IH|]; cbn [digits2_pos]; [| |done];
    rewrite Pos2Z.inj_succ;
    replace (Z.succ (Zpos (digits2_pos p)) - 1) with (Z.succ (Zpos (digits2_pos p) - 1)) by lia;
    rewrite !Z.pow_succ_r by lia; lia.
Qed.

Lemma Zdigits2_spec m : 0 < m -> 2 ^ (Zdigits2 m - 1) <= m < 2 ^ Zdigits2 m /\ 0 < Zdigits2 m.
Proof. destruct m as [|p|p]; try lia. intros _. split; [apply digits2_pos_spec|done]. Qed.

Lemma pow2_lt_inv a b : 0 <= b -> 2 ^ a < 2 ^ b -> a < b.
Proof.
  intros Hb H. destruct (Z.lt_ge_cases a b); [done|].
  assert (2 ^ b <= 2 ^ a) by (apply Z.pow_le_mono_r; lia). lia.
Qed.

(** *** The sticky shift

    [X = 4 m + 2 r + s] stands for any real strictly inside, or exactly at, the
    quarter the record describes; [below X T] says it does not pass [T]. *)
Definition sticky (mrs : shr_record) : Z := 4 * shr_m mrs + 2 * Z.b2z (shr_r mrs) + Z.b2z (shr_s mrs).

Lemma sticky_shr_1 mrs T :
  0 <= shr_m mrs ->
  0 <= shr_m (shr_1 mrs) /\
  (sticky mrs <= 4 * (2 * T) <-> sticky (shr_1 mrs) <= 4 * T).
Proof.
  destruct mrs as [[|p|p] r s]; cbn [shr_m]; intros Hm; [| |lia].
  - unfold sticky; cbn. destruct r, s; cbn; lia.
  - unfold sticky; destruct p as [p|p|]; cbn; destruct r, s; cbn; lia.
Qed.

Lemma iter_pos_plus {A} (f : A -> A) p q a : SpecFloat.iter_pos f (p + q) a = SpecFloat.iter_pos f q (SpecFloat.iter_pos f p a).
Proof.
  assert (H : forall n a, SpecFloat.iter_pos f n a = Nat.iter (Pos.to_nat n) f a).
  { induction n as [n IH|n IH|]; intros b; cbn [SpecFloat.iter_pos]; rewrite ?IH.
    - rewrite Pos2Nat.inj_xI, Nat.iter_succ_r, <- Nat.iter_add. f_equal. lia.
    - rewrite Pos2Nat.inj_xO, <- Nat.iter_add. f_equal. lia.
    - done. }
  rewrite !H, Pos2Nat.inj_add, Nat.add_comm. apply Nat.iter_add.
Qed.

Lemma sticky_shr n mrs T :
  0 <= shr_m mrs ->
  0 <= shr_m (SpecFloat.iter_pos shr_1 n mrs) /\
  (sticky mrs <= 4 * (T * 2 ^ Zpos n) <-> sticky (SpecFloat.iter_pos shr_1 n mrs) <= 4 * T).
Proof.
  revert mrs T. induction n as [|n IH] using Pos.peano_ind; intros mrs T Hm.
  - destruct (sticky_shr_1 mrs T Hm) as [A B]. change (SpecFloat.iter_pos shr_1 1 mrs) with (shr_1 mrs).
    split; [done|]. rewrite <- B. change (2 ^ 1) with 2. by rewrite (Z.mul_comm T).
  - rewrite <- Pos.add_1_l, iter_pos_plus. change (SpecFloat.iter_pos shr_1 1 mrs) with (shr_1 mrs).
    destruct (sticky_shr_1 mrs (T * 2 ^ Zpos n) Hm) as [A B].
    destruct (IH (shr_1 mrs) T A) as [C D]. split; [done|]. rewrite <- D, <- B.
    rewrite Pos2Z.inj_add, Z.pow_add_r by lia. change (2 ^ 1) with 2.
    by replace (T * (2 * 2 ^ Zpos n)) with (2 * (T * 2 ^ Zpos n)) by lia.
Qed.

Lemma round_le mrs T :
  0 <= shr_m mrs -> sticky mrs <= 4 * T ->
  0 <= round_nearest_even (shr_m mrs) (loc_of_shr_record mrs) <= T.
Proof.
  destruct mrs as [m r s]; unfold sticky; cbn [shr_m shr_r shr_s].
  destruct r, s; cbn; try lia. destruct (Z.even m); lia.
Qed.

(** *** Rounding never passes a representable bound *)
Lemma sticky_of_loc m l : 4 * m <= sticky (shr_record_of_loc m l) <= 4 * m + 3.
Proof. destruct l as [|[]]; unfold sticky; cbn; lia. Qed.

Lemma shr_m_of_loc m l : shr_m (shr_record_of_loc m l) = m.
Proof. by destruct l as [|[]]. Qed.

Lemma shr_sticky mrs e n T :
  0 <= shr_m mrs ->
  let '(mrs', e') := shr mrs e n in
  e' = Z.max e (e + n) /\ 0 <= shr_m mrs' /\
  (sticky mrs <= 4 * (T * 2 ^ Z.max 0 n) <-> sticky mrs' <= 4 * T).
Proof.
  intros Hm. unfold shr. destruct n as [|p|p].
  - rewrite Z.max_l by lia. split; [lia|]. split; [done|]. cbn. by rewrite Z.mul_1_r.
  - destruct (sticky_shr p mrs T Hm). rewrite Z.max_r by lia. split; [lia|].
    split; [done|]. by rewrite Z.max_r by lia.
  - rewrite !Z.max_l by lia. split; [lia|]. split; [done|]. cbn. by rewrite Z.mul_1_r.
Qed.

(** The second normalisation of [binary_round_aux] only renames [2 ^ 24]. *)
Lemma renormalise N e :
  0 < N <= 2 ^ 24 -> -149 <= e ->
  exists m e2, shr_fexp 24 128 N e loc_Exact = (Build_shr_record (Zpos m) false false, e2) /\
    ((Zpos m = N /\ e2 = e) \/ (N = 2 ^ 24 /\ Zpos m = 2 ^ 23 /\ e2 = e + 1)) /\ Zpos m < 2 ^ 24.
Proof.
  intros HN He. unfold shr_fexp. cbn [shr_record_of_loc].
  destruct (Zdigits2_spec N) as [[D1 D2] D3]; [lia|].
  assert (Hd : Zdigits2 N <= 25).
  { assert (Zdigits2 N - 1 < 25) by (apply pow2_lt_inv; lia). lia. }
  destruct (Z.eq_dec N (2 ^ 24)) as [->|Hne].
  - assert (Zdigits2 (2 ^ 24) = 25) as -> by reflexivity.
    unfold fexp, emin. replace (Z.max _ _ - e) with 1 by lia.
    eexists _, _. split; [reflexivity|]. split; [right|]; lia.
  - assert (Zdigits2 N <= 24).
    { assert (Zdigits2 N - 1 < 24) by (apply pow2_lt_inv; lia). lia. }
    unfold shr, fexp, emin.
    destruct (Z.max (Zdigits2 N + e - 24) (3 - 128 - 24) - e) as [|p|p] eqn:E; [|lia|];
      destruct N as [|q|q]; try lia; exists q, e; (split; [done|]; split; [by left|lia]).
Qed.

Definition below (sx : bool) (B : Z) (x : f32) : Prop :=
  match x with
  | S754_zero _ => 0 <= B
  | S754_finite s m e => s = sx /\ -149 <= e <= 104 /\ Zpos m < 2 ^ 24 /\ sv (Zpos m) e <= B
  | _ => False
  end.

Lemma round_upper sx mx ex lx mB eB :
  0 <= mx -> 0 <= mB < 2 ^ 24 -> -149 <= eB <= 104 -> - K <= ex <= eB ->
  sticky (shr_record_of_loc mx lx) <= 4 * (mB * 2 ^ (eB - ex)) ->
  below sx (sv mB eB) (binary_round_aux 24 128 sx mx ex lx).
Proof.
  intros Hmx HmB HeB Hex Hst. unfold binary_round_aux, shr_fexp at 1.
  pose proof (sticky_of_loc mx lx) as Hsl.
  set (n := fexp 24 128 (Zdigits2 mx + ex) - ex).
  set (e1 := Z.max ex (ex + n)).
  assert (Hdig : 0 <= Zdigits2 mx /\ mx < 2 ^ Zdigits2 mx /\
            (mx = 0 \/ 2 ^ (Zdigits2 mx - 1) <= mx)).
  { destruct mx as [|p|p]; [cbn; lia| |lia].
    destruct (Zdigits2_spec (Zpos p)) as [[]]; lia. }
  destruct Hdig as (Hd0 & Hd1 & Hd2).
  assert (He1 : -149 <= e1 <= eB).
  { subst e1 n. unfold fexp, emin in *. split; [lia|].
    apply Z.max_lub; [lia|]. replace (ex + _) with (Z.max (Zdigits2 mx + ex - 24) (-149)) by lia.
    apply Z.max_lub; [|lia]. destruct Hd2 as [->|Hd2]; [cbn; lia|].
    assert (Zdigits2 mx - 1 < 24 + (eB - ex)); [|lia].
    apply pow2_lt_inv; [lia|]. rewrite Z.pow_add_r by lia.
    assert (0 < 2 ^ (eB - ex)) by (apply Z.pow_pos_nonneg; lia). nia. }
  pose proof (shr_sticky (shr_record_of_loc mx lx) ex n (mB * 2 ^ (eB - e1))) as S1.
  pose proof (shr_sticky (shr_record_of_loc mx lx) ex n (2 ^ 24)) as S2.
  destruct (shr (shr_record_of_loc mx lx) ex n) as [mrs' e'].
  rewrite shr_m_of_loc in S1, S2.
  destruct (S1 Hmx) as (Ee & Hm' & I1). destruct (S2 Hmx) as (_ & _ & I2). clear S1 S2.
  fold e1 in Ee. subst e'.
  assert (Hst1 : sticky mrs' <= 4 * (mB * 2 ^ (eB - e1))).
  { apply I1. rewrite <- Z.mul_assoc, <- Z.pow_add_r by (subst e1; lia).
    by replace (eB - e1 + Z.max 0 n) with (eB - ex) by (subst e1; lia). }
  assert (Hst2 : sticky mrs' <= 4 * 2 ^ 24).
  { apply I2. rewrite <- Z.pow_add_r by lia.
    assert (2 ^ Zdigits2 mx <= 2 ^ (24 + Z.max 0 n)); [|lia].
    apply Z.pow_le_mono_r; [lia|]. subst n. unfold fexp. lia. }
  pose proof (round_le mrs' _ Hm' Hst1) as HN1. pose proof (round_le mrs' _ Hm' Hst2) as HN2.
  set (N := round_nearest_even _ _) in *.
  destruct (Z.eq_dec N 0) as [->|HN0].
  { unfold shr_fexp. cbn [shr_record_of_loc]. unfold shr.
    destruct (fexp 24 128 (Zdigits2 0 + e1) - e1) as [|p|p] eqn:E; cbn; try (unfold fexp, emin in E; cbn in E; lia);
      unfold sv; assert (0 < 2 ^ (eB + K)) by (apply Z.pow_pos_nonneg; unfold K; lia); nia. }
  destruct (renormalise N e1) as (m & e2 & -> & Hme & Hm24); [lia|lia|]. cbn [shr_m].
  assert (Hv : sv (Zpos m) e2 <= sv mB eB).
  { transitivity (sv N e1).
    - destruct Hme as [[<- ->]|(-> & -> & ->)]; [lia|]. unfold sv.
      replace (e1 + 1 + K) with (1 + (e1 + K)) by lia.
      rewrite Z.pow_add_r by (unfold K; lia). lia.
    - rewrite (sv_shift mB eB (eB - e1)) by (unfold K; lia).
      replace (eB - (eB - e1)) with e1 by lia. apply sv_mono; [unfold K|]; lia. }
  assert (He2 : e2 <= 128 - 24).
  { destruct Hme as [[_ ->]|(HN24 & _ & ->)]; [lia|].
    assert (e1 < eB); [|lia].
    assert (24 + 0 < 24 + (eB - e1)); [|lia]. apply pow2_lt_inv; [lia|].
    rewrite (Z.pow_add_r 2 24 (eB - e1)) by lia.
    assert (0 < 2 ^ (eB - e1)) by (apply Z.pow_pos_nonneg; lia). nia. }
  rewrite (proj2 (Z.leb_le _ _)) by done. cbn. repeat split; try lia.
Qed.

(** *** The operations on nonnegative operands *)
Lemma below_weaken sx B B' x : below sx B x -> B <= B' -> below sx B' x.
Proof. destruct x; cbn; intuition lia. Qed.

Lemma sv_digits m e : 0 < m -> - K <= e -> 2 ^ (Zdigits2 m - 1 + (e + K)) <= sv m e.
Proof.
  intros Hm He. destruct (Zdigits2_spec m Hm) as [[D _] D0]. unfold sv.
  rewrite Z.pow_add_r by lia. apply Z.mul_le_mono_nonneg_r; [apply Z.pow_nonneg|]; lia.
Qed.

Lemma sv_digits_lt m e B eB d :
  0 < m -> - K <= e -> - K <= eB -> 0 <= d -> B < 2 ^ d -> sv m e <= sv B eB ->
  Zdigits2 m + e <= d + eB.
Proof.
  intros Hm He HeB Hd HB Hv. pose proof (sv_digits m e Hm He).
  assert (sv B eB < 2 ^ (d + (eB + K))).
  { unfold sv. rewrite (Z.pow_add_r 2 d) by lia. apply Z.mul_lt_mono_pos_r; [|done]. apply Z.pow_pos_nonneg; lia. }
  assert (Zdigits2 m - 1 + (e + K) < d + (eB + K)) by (apply pow2_lt_inv; lia). lia.
Qed.

Lemma round_exact sx m e mB eB :
  0 <= m -> 0 <= mB < 2 ^ 24 -> -149 <= eB <= 104 -> - K <= e <= eB ->
  sv m e <= sv mB eB -> below sx (sv mB eB) (binary_round_aux 24 128 sx m e loc_Exact).
Proof.
  intros Hm HmB HeB He Hv. apply round_upper; try lia.
  rewrite (sv_shift mB eB (eB - e)) in Hv by lia.
  replace (eB - (eB - e)) with e in Hv by lia. apply sv_le_inv in Hv; [|lia].
  unfold sticky. cbn. lia.
Qed.

Lemma fmul_upper mx ex my ey mB eB :
  0 <= mB < 2 ^ 24 -> -149 <= eB <= 104 -> - K <= ex + ey <= eB ->
  sv (Zpos mx * Zpos my) (ex + ey) <= sv mB eB ->
  below false (sv mB eB) (fmul (S754_finite false mx ex) (S754_finite false my ey)).
Proof. intros HmB HeB He Hv. unfold fmul, SFmul. cbn [xorb]. by apply round_exact; try lia. Qed.

Lemma iter_xO m d : Zpos (Pos.iter xO m d) = Zpos m * 2 ^ Zpos d.
Proof.
  induction d as [|d IH] using Pos.peano_ind; [change (2 ^ 1) with 2; cbn; lia|].
  rewrite Pos.iter_succ, Pos2Z.inj_succ, Z.pow_succ_r by lia.
  rewrite Pos2Z.inj_xO, IH. lia.
Qed.

Lemma shl_align_spec m e ez :
  - K <= ez <= e ->
  sv (Zpos (fst (shl_align m e ez))) ez = sv (Zpos m) e /\
  (forall ez', ez' <= e -> snd (shl_align m e ez') = ez').
Proof.
  intros He. split.
  - unfold shl_align. rewrite (sv_shift (Zpos m) e (e - ez)) by lia.
    replace (e - (e - ez)) with ez by lia. destruct (ez - e) as [|p|p] eqn:E; [|lia|].
    + replace (e - ez) with 0 by lia. by rewrite Z.mul_1_r.
    + cbn [fst]. rewrite iter_xO. by replace (e - ez) with (Zpos p) by lia.
  - intros ez' He'. unfold shl_align. destruct (ez' - e) as [|p|p] eqn:E; cbn; lia.
Qed.

Lemma normalize_upper N e mB eB :
  0 <= N -> 0 <= mB < 2 ^ 24 -> -149 <= eB <= 104 -> -149 <= e ->
  sv N e <= sv mB eB -> below false (sv mB eB) (binary_normalize 24 128 N e false).
Proof.
  intros HN HmB HeB He Hv. destruct N as [|m|m]; [done| |lia].
  cbn [binary_normalize]. unfold binary_round.
  assert (Hf : fexp 24 128 (Zpos (digits2_pos m) + e) <= eB).
  { pose proof (sv_digits_lt (Zpos m) e mB eB 24) as D. cbn [Zdigits2] in D.
    unfold fexp, emin. apply Z.max_lub; [|lia].
    assert (Zpos (digits2_pos m) + e <= 24 + eB); [|lia]. unfold K in D. apply D; lia. }
  set (f := fexp 24 128 _) in *. assert (-149 <= f) by (subst f; unfold fexp, emin; lia).
  destruct (Z.le_gt_cases f e) as [Hfe|Hfe].
  - destruct (shl_align_spec m e f) as [S1 S2]; [unfold K; lia|].
    specialize (S2 f Hfe). destruct (shl_align m e f) as [mz ez]. cbn [fst snd] in *. subst ez.
    apply round_exact; unfold K; lia.
  - unfold shl_align. destruct (f - e) as [|p|p] eqn:E; try lia; apply round_exact; unfold K; lia.
Qed.

Lemma fdiv_upper mx ex my ey :
  -149 <= ex <= 104 -> -149 <= ey <= 104 -> sv (Zpos mx) ex <= sv (Zpos my) ey ->
  Zpos my < 2 ^ 24 ->
  below false (sv 1 0) (fdiv (S754_finite false mx ex) (S754_finite false my ey)).
Proof.
  intros Hex Hey Hv Hmy. unfold fdiv, SFdiv, SFdiv_core_binary. cbn [xorb].
  set (d1 := Zdigits2 (Zpos mx)). set (d2 := Zdigits2 (Zpos my)).
  destruct (Zdigits2_spec (Zpos my)) as [[D1 D2] D3]; [lia|]. fold d2 in D1, D2, D3.
  assert (Hd : d1 + ex <= d2 + ey).
  { apply (sv_digits_lt (Zpos mx) ex (Zpos my) ey d2); unfold K; lia. }
  assert (d2 <= 24).
  { assert (d2 - 1 < 24) by (apply pow2_lt_inv; lia). lia. }
  set (e' := Z.min (fexp 24 128 (d1 + ex - (d2 + ey))) (ex - ey)).
  assert (He' : -253 <= e' <= 0 /\ e' <= ex - ey) by (subst e'; unfold fexp, emin; lia).
  set (m' := match ex - ey - e' with Zpos _ => _ | _ => _ end).
  assert (Hm' : m' = Zpos mx * 2 ^ (ex - ey - e')).
  { subst m'. destruct (ex - ey - e') eqn:E; [by rewrite Z.mul_1_r|by rewrite Z.shiftl_mul_pow2|lia]. }
  clearbody m'. assert (Hle : m' <= Zpos my * 2 ^ (- e')).
  { rewrite Hm'. apply (sv_le_inv _ _ (ey + e')); [unfold K; lia|].
    rewrite (sv_shift (Zpos mx) ex (ex - ey - e')) in Hv by (unfold K; lia).
    rewrite (sv_shift (Zpos my) ey (- e')) in Hv by (unfold K; lia).
    by replace (ex - (ex - ey - e')) with (ey + e') in Hv by lia;
       replace (ey - - e') with (ey + e') in Hv by lia. }
  assert (0 <= m') by (rewrite Hm'; apply Z.mul_nonneg_nonneg; [|apply Z.pow_nonneg]; lia).
  pose proof (Z_div_mod m' (Zpos my) ltac:(lia)) as Hq.
  destruct (Z.div_eucl m' (Zpos my)) as [q r].
  destruct Hq as [Hq Hr]. assert (0 <= q) by nia.
  apply round_upper; try (unfold K; lia). rewrite Z.sub_0_l, Z.mul_1_l.
  pose proof (sticky_of_loc q (new_location (Zpos my) r)) as Hs.
  destruct (Z.eq_dec r 0) as [->|Hr0].
  - assert (q <= 2 ^ (- e')) by nia.
    assert (new_location (Zpos my) 0 = loc_Exact) as ->.
    { unfold new_location, new_location_even, new_location_odd. by destruct (Z.even _). }
    unfold sticky; cbn; lia.
  - assert (q < 2 ^ (- e')) by nia. lia.
Qed.

(** *** Validity, comparison and the sums *)
Lemma valid_finite s m e :
  f32_valid (S754_finite s m e) ->
  -149 <= e <= 104 /\ Zpos m < 2 ^ 24 /\ (-149 < e -> 2 ^ 23 <= Zpos m).
Proof.
  unfold f32_valid. cbn [valid_binary]. unfold bounded, canonical_mantissa. intros [Hc He]%andb_true_iff.
  apply Z.eqb_eq in Hc. apply Z.leb_le in He. unfold fexp, emin in Hc.
  destruct (digits2_pos_spec m) as [D1 D2].
  assert (Zpos (digits2_pos m) <= 24) by lia. split; [lia|]. split.
  - eapply Z.lt_le_trans; [done|]. apply Z.pow_le_mono_r; lia.
  - intros Hlt. replace (Zpos (digits2_pos m)) with 24 in D1 by lia. done.
Qed.

Lemma sv_exp_lt m1 e1 m2 e2 :
  -149 <= e1 < e2 -> 0 < m1 < 2 ^ 24 -> 2 ^ 23 <= m2 -> sv m1 e1 < sv m2 e2.
Proof.
  intros He Hm1 Hm2. unfold sv. replace (e2 + K) with (1 + (e2 - e1 - 1) + (e1 + K)) by lia.
  rewrite (Z.pow_add_r 2 (_ + _)), (Z.pow_add_r 2 1) by (unfold K; lia). assert (0 < 2 ^ (e1 + K)) by (apply Z.pow_pos_nonneg; unfold K; lia).
  assert (1 <= 2 ^ (e2 - e1 - 1)) by (apply (Z.pow_le_mono_r 2 0); lia).
  rewrite Z.mul_assoc. apply Z.mul_lt_mono_pos_r; [done|]. nia.
Qed.

Lemma compare_mag m1 e1 m2 e2 s1 s2 :
  f32_valid (S754_finite s1 m1 e1) -> f32_valid (S754_finite s2 m2 e2) ->
  match Z.compare e1 e2 with Lt => Lt | Gt => Gt | Eq => Pos.compare_cont Eq m1 m2 end =
  (sv (Zpos m1) e1 ?= sv (Zpos m2) e2).
Proof.
  intros (A1 & A2 & A3)%valid_finite (B1 & B2 & B3)%valid_finite. symmetry.
  destruct (Z.compare_spec e1 e2) as [->|Hlt|Hgt].
  - change (Pos.compare_cont Eq m1 m2) with (Zpos m1 ?= Zpos m2). unfold sv.
    symmetry. apply Zmult_compare_compat_r, Z.lt_gt, Z.pow_pos_nonneg; unfold K; lia.
  - apply Z.compare_lt_iff, sv_exp_lt; lia.
  - apply Z.compare_gt_iff, sv_exp_lt; lia.
Qed.

Lemma compare_neg a b : (- a ?= - b) = CompOpp (a ?= b).
Proof. by destruct (Z.compare_spec a b), (Z.compare_spec (- a) (- b)); try lia. Qed.

Lemma SFcompare_fval a b :
  is_finite a = true -> is_finite b = true -> f32_valid a -> f32_valid b ->
  SFcompare a b = Some (fval a ?= fval b).
Proof.
  destruct a as [s1| | |s1 m1 e1], b as [s2| | |s2 m2 e2]; try done; intros _ _ Ha Hb; cbn [SFcompare fval].
  - pose proof (valid_finite _ _ _ Hb) as (B & _).
    pose proof (sv_pos (Zpos m2) e2 ltac:(unfold K; lia) ltac:(lia)).
    destruct s2; f_equal; symmetry; [apply Z.compare_gt_iff|apply Z.compare_lt_iff]; lia.
  - pose proof (valid_finite _ _ _ Ha) as (B & _).
    pose proof (sv_pos (Zpos m1) e1 ltac:(unfold K; lia) ltac:(lia)).
    destruct s1; f_equal; symmetry; [apply Z.compare_lt_iff|apply Z.compare_gt_iff]; lia.
  - pose proof (valid_finite _ _ _ Ha) as (A & _). pose proof (valid_finite _ _ _ Hb) as (B & _).
    pose proof (sv_pos (Zpos m1) e1 ltac:(unfold K; lia) ltac:(lia)).
    pose proof (sv_pos (Zpos m2) e2 ltac:(unfold K; lia) ltac:(lia)).
    pose proof (compare_mag m1 e1 m2 e2 _ _ Ha Hb) as C.
    f_equal. destruct s1, s2.
    + rewrite compare_neg, <- C. by destruct (e1 ?= e2).
    + symmetry. apply Z.compare_lt_iff. lia.
    + symmetry. apply Z.compare_gt_iff. lia.
    + done.
Qed.

Lemma fltb_spec a b :
  is_finite a = true -> is_finite b = true -> f32_valid a -> f32_valid b ->
  fltb a b = (fval a <? fval b).
Proof. intros. unfold fltb, SFltb, Z.ltb. by rewrite SFcompare_fval. Qed.

Lemma fleb_spec a b :
  is_finite a = true -> is_finite b = true -> f32_valid a -> f32_valid b ->
  fleb a b = (fval a <=? fval b).
Proof. intros. unfold fleb, SFleb, Z.leb. rewrite SFcompare_fval by done. by destruct (_ ?= _). Qed.

Definition finite_valid (x : f32) : Prop := is_finite x = true /\ f32_valid x.

Lemma clampf_spec v lo hi :
  is_nan v = false -> f32_valid v -> finite_valid lo -> finite_valid hi -> fval lo <= fval hi ->
  finite_valid (clampf v lo hi) /\ fval lo <= fval (clampf v lo hi) <= fval hi.
Proof.
  intros Hn Hv [Fl Vl] [Fh Vh] Hlh. unfold clampf.
  destruct (is_finite v) eqn:Fv.
  - rewrite !fltb_spec by done.
    destruct (Z.ltb_spec (fval v) (fval lo)); [split; [done|lia]|].
    destruct (Z.ltb_spec (fval hi) (fval v)); split; done || lia.
  - destruct v as [| [] | |]; try done; destruct lo, hi; try done; split; done || lia.
Qed.

Lemma sum_exact sa ma ea sb mb eb :
  -149 <= ea -> -149 <= eb ->
  let ez := Z.min ea eb in
  sv (SpecFloat.cond_Zopp sa (Zpos (fst (shl_align ma ea ez))) +
      SpecFloat.cond_Zopp sb (Zpos (fst (shl_align mb eb ez)))) ez =
  fval (S754_finite sa ma ea) + fval (S754_finite sb mb eb).
Proof.
  intros Ha Hb ez.
  destruct (shl_align_spec ma ea ez) as [E1 _]; [unfold K; lia|].
  destruct (shl_align_spec mb eb ez) as [E2 _]; [unfold K; lia|].
  cbn [fval]. rewrite <- E1, <- E2. unfold sv. destruct sa, sb; cbn [SpecFloat.cond_Zopp]; lia.
Qed.

(** Finite, with exponent and mantissa in range; not necessarily canonical. *)
Definition small_finite (x : f32) : Prop :=
  match x with
  | S754_zero _ => True
  | S754_finite _ m e => -149 <= e <= 104 /\ Zpos m < 2 ^ 24
  | _ => False
  end.

Lemma finite_valid_small x : finite_valid x -> small_finite x.
Proof. intros [Hf Hv]. destruct x; try done. by apply valid_finite in Hv as (? & ? & _). Qed.

Lemma below_small sx B x : below sx B x -> small_finite x.
Proof. destruct x; cbn; intuition lia. Qed.

Lemma below_fval B x : below false B x -> 0 <= fval x <= B.
Proof.
  destruct x as [| | |s m e]; cbn; try lia; try done. intros (-> & He & _ & Hv).
  pose proof (sv_pos (Zpos m) e ltac:(unfold K; lia) ltac:(lia)). lia.
Qed.

Lemma below_self x : small_finite x -> 0 <= fval x -> below false (fval x) x.
Proof.
  intros Hs H0. destruct x as [| | |s m e]; try done. destruct Hs.
  pose proof (sv_pos (Zpos m) e ltac:(unfold K; lia) ltac:(lia)).
  destruct s; cbn in *; repeat split; lia.
Qed.

Lemma fadd_upper a b mB eB :
  small_finite a -> small_finite b -> 0 <= mB < 2 ^ 24 -> -149 <= eB <= 104 ->
  0 <= fval a + fval b <= sv mB eB -> below false (sv mB eB) (fadd a b).
Proof.
  intros Ha Hb HmB HeB Hs.
  destruct a as [sa| | |sa ma ea], b as [sb| | |sb mb eb]; try done.
  - cbn in Hs. destruct sa, sb; cbn; lia.
  - cbn [fval] in Hs. eapply below_weaken; [apply (below_self (S754_finite sb mb eb))|]; cbn [fval]; auto; lia.
  - cbn [fval] in Hs. eapply below_weaken; [apply (below_self (S754_finite sa ma ea))|]; cbn [fval]; auto; lia.
  - destruct Ha as [A _], Hb as [B _].
    pose proof (sum_exact sa ma ea sb mb eb ltac:(lia) ltac:(lia)) as E. cbn zeta in E.
    apply normalize_upper; try lia. rewrite <- E in Hs. destruct Hs as [Hs _]. unfold sv at 1 in Hs.
    assert (0 < 2 ^ (Z.min ea eb + K)) by (apply Z.pow_pos_nonneg; unfold K; lia). nia.
Qed.

Lemma SFsub_add a b : fsub a b = fadd a (SFopp b) \/ (exists s, a = S754_zero s /\ exists s', b = S754_zero s').
Proof.
  destruct a as [sa|sa| |sa ma ea], b as [sb|sb| |sb mb eb]; try (left; done);
    try (left; by destruct sa, sb); right; eauto.
Qed.

Lemma fval_opp b : fval (SFopp b) = - fval b.
Proof. destruct b as [| | |[]]; cbn; lia. Qed.

Lemma fsub_upper a b mB eB :
  small_finite a -> small_finite b -> 0 <= mB < 2 ^ 24 -> -149 <= eB <= 104 ->
  0 <= fval a - fval b <= sv mB eB -> below false (sv mB eB) (fsub a b).
Proof.
  intros Ha Hb HmB HeB Hs. destruct (SFsub_add a b) as [->|(s & -> & s' & ->)].
  - apply fadd_upper; auto; [|rewrite fval_opp; lia]. by destruct b.
  - cbn in Hs. destruct s, s'; cbn; lia.
Qed.

(** *** Truncation and the bit pattern *)
Lemma ftrunc_below L x :
  0 <= L -> below false (sv (2 * L + 1) (-1)) x -> exists z, ftrunc x = Some z /\ 0 <= z <= L.
Proof.
  intros HL Hb. destruct x as [s| | |s m e]; try done.
  - exists 0. cbn. split; [done|lia].
  - destruct Hb as (-> & He & _ & Hv). cbn [ftrunc]. eexists. split; [reflexivity|].
    destruct (Z.leb_spec 0 e) as [He0|He0].
    + rewrite Z.shiftl_mul_pow2 by lia. rewrite (sv_shift (Zpos m) e (e + 1)) in Hv by (unfold K; lia).
      replace (e - (e + 1)) with (-1) in Hv by lia. apply sv_le_inv in Hv; [|unfold K; lia].
      rewrite Z.pow_add_r in Hv by lia. change (2 ^ 1) with 2 in Hv.
      split; [|lia]. apply Z.mul_nonneg_nonneg; [|apply Z.pow_nonneg]; lia.
    + rewrite Z.shiftr_div_pow2 by lia.
      rewrite (sv_shift (2 * L + 1) (-1) (-1 - e)) in Hv by (unfold K; lia).
      replace (-1 - (-1 - e)) with e in Hv by lia. apply sv_le_inv in Hv; [|unfold K; lia].
      assert (0 < 2 ^ (-1 - e)) by (apply Z.pow_pos_nonneg; lia).
      replace (- e) with (1 + (-1 - e)) by lia. rewrite Z.pow_add_r by lia. change (2 ^ 1) with 2.
      split; [apply Z.div_pos; lia|].
      assert (Zpos m / (2 * 2 ^ (-1 - e)) < L + 1); [|lia]. apply Z.div_lt_upper_bound; lia.
Qed.

Lemma f32_to_u32_in_range `{Platform} x z :
  ftrunc x = Some z -> 0 <= z < 2 ^ 32 -> f32_to_u32 x = z.
Proof.
  intros E Hz. unfold f32_to_u32. rewrite E.
  by rewrite (proj2 (Z.leb_le 0 z)), (proj2 (Z.ltb_lt z (2 ^ 32))) by lia.
Qed.

Lemma bits_of_f32_range x : f32_valid x -> fits 32 (bits_of_f32 x).
Proof.
  destruct x as [[]|[]| |s m e]; unfold fits; cbn [bits_of_f32]; try lia.
  intros (He & Hm & Hn)%valid_finite. destruct (Z.ltb_spec (Zpos m) (2 ^ 23)); destruct s; lia.
Qed.

Lemma bit_field s ex m :
  0 <= ex < 256 -> 0 <= m < 2 ^ 23 ->
  let v := (if s : bool then 2 ^ 31 else 0) + (ex * 2 ^ 23 + m) in
  Z.testbit v 31 = s /\ Z.shiftr v 23 mod 256 = ex /\ v mod 2 ^ 23 = m.
Proof.
  intros He Hm v.
  assert (Hv : v = (Z.b2z s * 256 + ex) * 2 ^ 23 + m) by (subst v; destruct s; cbn [Z.b2z]; lia).
  clearbody v. subst v. split; [|split].
  - rewrite Z.testbit_eqb by lia.
    replace (_ / 2 ^ 31) with (Z.b2z s); [by destruct s|].
    apply Z.div_unique with (ex * 2 ^ 23 + m); destruct s; cbn [Z.b2z]; lia.
  - rewrite Z.shiftr_div_pow2, Z.div_add_l, (Z.div_small m) by lia.
    rewrite Z.add_0_r, Z.add_comm, Z.mod_add by lia. apply Z.mod_small. lia.
  - rewrite Z.add_comm, Z.mod_add by lia. apply Z.mod_small. lia.
Qed.

Lemma f32_of_bits_of_f32 x : f32_valid x -> f32_of_bits (bits_of_f32 x) = x.
Proof.
  destruct x as [[]|[]| |s m e]; try reflexivity.
  intros (He & Hm & Hn)%valid_finite. unfold f32_of_bits. cbn [bits_of_f32].
  destruct (Z.ltb_spec (Zpos m) (2 ^ 23)) as [Hlt|Hge].
  - destruct (bit_field s 0 (Zpos m)) as (E1 & E2 & E3); [lia|lia|].
    rewrite Z.mul_0_l, Z.add_0_l in E1, E2, E3. rewrite E1, E2, E3. cbn.
    by replace e with (-149) by lia.
  - destruct (bit_field s (e + 150) (Zpos m - 2 ^ 23)) as (-> & -> & ->); [lia|lia|].
    rewrite (proj2 (Z.eqb_neq (e + 150) 0)), (proj2 (Z.eqb_neq (e + 150) 255)) by lia.
    replace (Zpos m - 2 ^ 23 + 2 ^ 23) with (Zpos m) by lia. cbn [Z.to_pos]. f_equal. lia.
Qed.
