(* ===== verification/Quantizer.v ===== *)
(** * Quantizer: float fields and fixed point ([src/src/proto/bitstream.h])

    [write_float]/[read_float] and the struct [Quantizer], with the theorem the
    wire formats rest on: an encoded value always fits the field it is written
    into, so a position can never wrap to the other side of the world. *)

From S2P Require Import Prelude Bitstream F32.
From Stdlib Require Import ZArith Lia Bool Floats.SpecFloat.
From stdpp Require Import base tactics numbers list option.
#[local] Open Scope Z_scope.

(** ** Float fields *)
Definition write_float (value : f32) : BitWriter -> BitWriter := write_bits (bits_of_f32 value) 32.
Definition read_float : Rd f32 := raw ← read_bits 32; mret (f32_of_bits raw).

Definition float_bits (value : f32) : list bool := zbits 32 (bits_of_f32 value).

Lemma writes_float v : f32_valid v -> writes (write_float v) (float_bits v).
Proof.
  intros Hv. apply (writes_bits (bits_of_f32 v) 32); [by apply bits_of_f32_range|lia].
Qed.

Lemma reads_float v : f32_valid v -> reads read_float (float_bits v) v.
Proof.
  intros Hv. rewrite <- (f32_of_bits_of_f32 v Hv) at 2.
  apply (reads_bind_ret (read_bits 32) f32_of_bits).
  apply (reads_zbits 32); [by apply bits_of_f32_range|lia].
Qed.

(** ** Quantizer *)
Record Quantizer := mkQuantizer { q_min : f32; q_max : f32; q_bits : Z }.

Definition levels (bits : Z) : Z :=
  if 32 <=? bits then 0xffffffff else u32 (u32 (Z.shiftl 1 bits) - 1).

Section Quantize.
Context `{Platform}.

Definition q_encode (q : Quantizer) (value : f32) : Z :=
  let clamped := clampf value (q_min q) (q_max q) in
  let normalized := fdiv (fsub clamped (q_min q)) (fsub (q_max q) (q_min q)) in
  let levels := levels (q_bits q) in
  f32_to_u32 (fadd (fmul normalized (f32_of_Z levels)) fhalf).

Definition q_decode (q : Quantizer) (quantized : Z) : f32 :=
  let levels := levels (q_bits q) in
  let normalized := fdiv (f32_of_Z quantized) (f32_of_Z levels) in
  fadd (q_min q) (fmul normalized (fsub (q_max q) (q_min q))).

Definition q_snap (q : Quantizer) (value : f32) : f32 := q_decode q (q_encode q value).

(** The bounds are finite, in order, and their difference is a float. *)
Record quantizer_ok (q : Quantizer) : Prop := {
  qok_min : finite_valid (q_min q);
  qok_max : finite_valid (q_max q);
  qok_range : finite_valid (fsub (q_max q) (q_min q));
  qok_exact : fval (fsub (q_max q) (q_min q)) = fval (q_max q) - fval (q_min q);
  qok_lt : fval (q_min q) < fval (q_max q);
  qok_bits : 1 <= q_bits q <= 22
}.

(** Up to 22 bits the level count is a float. *)
Definition level_exact (bits : Z) : bool :=
  match f32_of_Z (levels bits) with
  | S754_finite false m e =>
      (-23 <=? e) && (e <=? 0) && (Zpos m =? levels bits * 2 ^ (- e)) && (levels bits =? 2 ^ bits - 1)
  | _ => false
  end.

Lemma levels_exact bits : 1 <= bits <= 22 -> level_exact bits = true.
Proof.
  intros Hb. assert (F : Forall (fun b => level_exact b = true) (seqZ 1 22)).
  { repeat (apply Forall_cons_2; [vm_compute; reflexivity|]). apply Forall_nil_2. }
  rewrite Forall_forall in F. apply F, list_elem_of_In, elem_of_seqZ. lia.
Qed.

Lemma levels_spec bits :
  1 <= bits <= 22 -> levels bits = 2 ^ bits - 1 /\
  exists m e, f32_of_Z (levels bits) = S754_finite false m e /\ -23 <= e <= 0 /\
    Zpos m = levels bits * 2 ^ (- e).
Proof.
  intros Hb%levels_exact. unfold level_exact in Hb.
  destruct (f32_of_Z (levels bits)) as [| | |[] m e]; try done.
  rewrite !andb_true_iff, !Z.leb_le, !Z.eqb_eq in Hb. destruct Hb as [[[? ?] ?] ?].
  split; [done|]. by exists m, e.
Qed.

Lemma normalized_below q value :
  quantizer_ok q -> is_nan value = false -> f32_valid value ->
  below false (sv 1 0)
    (fdiv (fsub (clampf value (q_min q) (q_max q)) (q_min q)) (fsub (q_max q) (q_min q))).
Proof.
  intros [Hmin Hmax Hr Hx Hlt _] Hn Hv.
  destruct (clampf_spec value (q_min q) (q_max q)) as [Hc Hcr]; auto; [lia|].
  set (c := clampf _ _ _) in *. set (D := fsub (q_max q) (q_min q)) in *. clearbody D c.
  destruct D as [| | |sD mD eD]; [cbn in Hx; lia|by destruct Hr|by destruct Hr|].
  destruct (valid_finite _ _ _ (proj2 Hr)) as (He & Hm & _).
  pose proof (sv_pos (Zpos mD) eD ltac:(unfold K; lia) ltac:(lia)).
  destruct sD; cbn [fval] in Hx; [lia|].
  assert (Hb : below false (sv (Zpos mD) eD) (fsub c (q_min q))).
  { apply fsub_upper; try lia; by apply finite_valid_small. }
  destruct (fsub c (q_min q)) as [| | |s m e]; try done.
  destruct Hb as (-> & Hb1 & Hb2 & Hb3). apply fdiv_upper; lia.
Qed.

Lemma scaled_below bits x :
  1 <= bits <= 22 -> below false (sv 1 0) x ->
  below false (sv (levels bits) 0) (fmul x (f32_of_Z (levels bits))).
Proof.
  intros Hb Hx. destruct (levels_spec bits Hb) as (Hl & mL & eL & -> & HeL & HmL).
  assert (2 <= 2 ^ bits <= 2 ^ 22).
  { split; [apply (Z.pow_le_mono_r 2 1); lia|apply Z.pow_le_mono_r; lia]. }
  destruct x as [s| | |s m e]; try done.
  - change (0 <= sv (levels bits) 0). unfold sv. apply Z.mul_nonneg_nonneg; [lia|].
    apply Z.pow_nonneg; lia.
  - destruct Hx as (-> & He & Hm & Hv).
    assert (e <= 0).
    { pose proof (sv_digits_lt (Zpos m) e 1 0 1). destruct (Zdigits2_spec (Zpos m)); [lia|].
      unfold K in *. lia. }
    rewrite (sv_shift 1 0 (- e)) in Hv by (unfold K; lia). replace (0 - - e) with e in Hv by lia.
    apply sv_le_inv in Hv; [|unfold K; lia].
    apply fmul_upper; try (unfold K; lia).
    rewrite (sv_shift (levels bits) 0 (- (e + eL))) by (unfold K; lia).
    replace (0 - - (e + eL)) with (e + eL) by lia. apply sv_mono; [unfold K; lia|].
    replace (- (e + eL)) with (- e + - eL) by lia. rewrite Z.pow_add_r, HmL by lia.
    assert (0 < 2 ^ (- eL)) by (apply Z.pow_pos_nonneg; lia). nia.
Qed.

Lemma q_encode_range q value :
  quantizer_ok q -> is_nan value = false -> f32_valid value ->
  0 <= q_encode q value <= levels (q_bits q).
Proof.
  intros Hq Hn Hv. pose proof (qok_bits q Hq) as Hb.
  pose proof (scaled_below _ _ Hb (normalized_below q value Hq Hn Hv)) as Hs.
  destruct (levels_spec _ Hb) as [Hl _]. unfold q_encode.
  set (t := fmul _ _) in *. clearbody t.
  assert (2 ^ q_bits q <= 2 ^ 22) by (apply Z.pow_le_mono_r; lia).
  assert (2 <= 2 ^ q_bits q) by (apply (Z.pow_le_mono_r 2 1); lia).
  destruct (ftrunc_below (levels (q_bits q)) (fadd t fhalf)) as (z & E & Hz); [lia| |].
  - apply fadd_upper; try lia; [by eapply below_small|by cbn|].
    apply below_fval in Hs. change (fval fhalf) with (sv 1 (-1)).
    rewrite (sv_shift (levels _) 0 1) in Hs by (unfold K; lia). unfold sv in *.
    replace (0 - 1 + K) with (-1 + K) in Hs by lia.
    assert (0 < 2 ^ (-1 + K)) by (apply Z.pow_pos_nonneg; unfold K; lia). lia.
  - rewrite (f32_to_u32_in_range _ z E); lia.
Qed.

Lemma q_encode_fits q value :
  quantizer_ok q -> is_nan value = false -> f32_valid value ->
  fits (q_bits q) (q_encode q value).
Proof.
  intros Hq Hn Hv. pose proof (q_encode_range q value Hq Hn Hv).
  destruct (levels_spec _ (qok_bits q Hq)) as [Hl _]. unfold fits. lia.
Qed.
End Quantize.

(** ** Theorems *)

(** C35. The encoder of every fixed-point field stays in its field: for bounds
    whose difference is exact and up to 22 bits, the level of any value that is
    not NaN (infinities included) lies between 0 and [2^bits - 1], so the cast
    is defined and masking it to [bits] bits on the wire changes nothing.  The
    witness applies it to the program's three quantizers (input axes, positions
    and velocities). *)
Theorem quantizer_encode_in_field `{Platform} (q : Quantizer) (value : f32) :
  quantizer_ok q -> is_nan value = false -> f32_valid value ->
  0 <= q_encode q value <= 2 ^ q_bits q - 1 /\
  Z.land (q_encode q value) (u32 (Z.shiftl 1 (q_bits q) - 1)) = q_encode q value.
Proof.
  intros Hq Hn Hv. pose proof (q_encode_range q value Hq Hn Hv) as Hr.
  pose proof (qok_bits q Hq) as Hb. destruct (levels_spec _ Hb) as [Hl _].
  split; [lia|]. rewrite Z.shiftl_1_l.
  assert (2 ^ q_bits q <= 2 ^ 22) by (apply Z.pow_le_mono_r; lia).
  rewrite (wrap_small 32) by (split; lia).
  replace (2 ^ q_bits q - 1) with (Z.ones (q_bits q)) by (rewrite Z.ones_equiv; lia).
  rewrite Z.land_ones by lia. apply Z.mod_small. lia.
Qed.

(** The platform of the witnesses: casts out of range saturate to zero. *)
Definition plain_platform : Platform :=
  {| ub_cast_i32 := fun _ => 0; ub_cast_u32 := fun _ => 0; std_cos := fun x => x; std_sin := fun x => x |}.

Definition sample_axis : Quantizer := mkQuantizer (f32_of_Z (-1)) f1 8.
Definition sample_positions : Quantizer := mkQuantizer f0 (f32_of_Z 2048) 16.
Definition sample_velocities : Quantizer := mkQuantizer (f32_of_Z (-640)) (f32_of_Z 640) 12.

Lemma quantizer_encode_in_field_witness :
  Forall (fun q => 0 <= @q_encode plain_platform q (S754_infinity false) <= 2 ^ q_bits q - 1)
    [sample_axis; sample_positions; sample_velocities].
Proof.
  repeat apply Forall_cons_2; try apply Forall_nil_2.
  - apply (@quantizer_encode_in_field plain_platform); [constructor; vm_compute; auto; split; discriminate|reflexivity|reflexivity].
  - apply (@quantizer_encode_in_field plain_platform); [constructor; vm_compute; auto; split; discriminate|reflexivity|reflexivity].
  - apply (@quantizer_encode_in_field plain_platform); [constructor; vm_compute; auto; split; discriminate|reflexivity|reflexivity].
Defined.

