(* ===== verification/Movement.v ===== *)
(** * Movement: one tick of one entity ([src/src/sim/movement.h])

    [step_movement] is the integrator that client and server both run.  The
    theorems say what prediction and the world rely on: the result is inside the
    walls whatever the input, a wall stops the motion into it, and quantizing an
    input is idempotent, so re-quantizing a value that came off the wire is a
    no-op. *)

From S2P Require Import Prelude Bitstream F32 Quantizer.
From Stdlib Require Import ZArith Lia Bool Floats.SpecFloat.
From stdpp Require Import base tactics numbers list option.
#[local] Open Scope Z_scope.

Record WorldParams := mkWorldParams {
  wp_size : f32;
  wp_acceleration : f32;
  wp_max_speed : f32;
  wp_friction : f32;
  wp_player_radius : f32;
  wp_tick_rate : Z
}.

Definition WorldParams_default : WorldParams :=
  mkWorldParams (f32_of_Z 2048) (f32_of_Z 1600) (f32_of_Z 320) (f32_of_Z 6) (f32_of_Z 8) 30.

Definition tick_dt (p : WorldParams) : f32 := fdiv f1 (f32_of_Z (wp_tick_rate p)).

Record MoveInput := mkMoveInput {
  mi_sequence : Z;
  mi_tick : Z;
  mi_move_x : f32;
  mi_move_y : f32;
  mi_sprint : bool
}.

Definition MoveInput_default : MoveInput := mkMoveInput 0 0 f0 f0 false.

Record MoveState := mkMoveState { ms_position : Vec2; ms_velocity : Vec2 }.

Definition fm1 : f32 := f32_of_Z (-1).

Definition input_axis_quantizer : Quantizer := mkQuantizer fm1 f1 8.

Definition quantize_input `{Platform} (input : MoveInput) : MoveInput :=
  let q := input_axis_quantizer in
  mkMoveInput (mi_sequence input) (mi_tick input)
    (q_snap q (clampf (mi_move_x input) fm1 f1))
    (q_snap q (clampf (mi_move_y input) fm1 f1))
    (mi_sprint input).

(** The wall test of one axis: [(position, velocity)] before and after. *)
Definition step_wall (low high : f32) (p v : f32) : f32 * f32 :=
  if fltb p low then (low, if fltb v f0 then f0 else v)
  else if fgtb p high then (high, if fgtb v f0 then f0 else v)
  else (p, v).

Definition step_velocity (velocity : Vec2) (input : MoveInput) (params : WorldParams) (dt : f32) : Vec2 :=
  let direction := mkVec2 (mi_move_x input) (mi_move_y input) in
  let magnitude_sq := length_sq direction in
  let direction :=
    if fgtb magnitude_sq f1 then vscale direction (fdiv f1 (fsqrt magnitude_sq)) else direction in
  let acceleration := fmul (wp_acceleration params) (if mi_sprint input then f32_lit 16 10 else f1) in
  let max_speed := fmul (wp_max_speed params) (if mi_sprint input then f32_lit 15 10 else f1) in
  let velocity := vadd velocity (vscale direction (fmul acceleration dt)) in
  let damping := fdiv f1 (fadd f1 (fmul (wp_friction params) dt)) in
  clamped (vscale velocity damping) max_speed.

Definition wall_low (params : WorldParams) : f32 := wp_player_radius params.
Definition wall_high (params : WorldParams) : f32 := fsub (wp_size params) (wp_player_radius params).

Definition step_movement (state : MoveState) (input : MoveInput) (params : WorldParams) (dt : f32) : MoveState :=
  let velocity := step_velocity (ms_velocity state) input params dt in
  let position := vadd (ms_position state) (vscale velocity dt) in
  let '(px, vx) := step_wall (wall_low params) (wall_high params) (vec_x position) (vec_x velocity) in
  let '(py, vy) := step_wall (wall_low params) (wall_high params) (vec_y position) (vec_y velocity) in
  mkMoveState (mkVec2 px py) (mkVec2 vx vy).

(** ** Comparison of floats that need not be finite *)
Lemma SFcompare_swap a b : SFcompare a b = option_map CompOpp (SFcompare b a).
Proof.
  destruct a as [[]|[]| |[] m e], b as [[]|[]| |[] m' e']; try reflexivity; cbn [SFcompare option_map];
    rewrite (Z.compare_antisym e' e); f_equal; destruct (e' ?= e); try done;
    rewrite (Pos.compare_cont_antisym m' m Eq); cbn [CompOpp];
    by destruct (PosDef.Pos.compare_cont Eq m' m).
Qed.

Lemma SFcompare_nan a b : is_nan a = false -> is_nan b = false -> SFcompare a b <> None.
Proof. by destruct a as [[]|[]| |[] ? ?], b as [[]|[]| |[] ? ?]. Qed.

Lemma fltb_false_fleb a b : is_nan a = false -> is_nan b = false -> fltb a b = false -> fleb b a = true.
Proof.
  intros Ha Hb. pose proof (SFcompare_nan a b Ha Hb). unfold fltb, fleb, SFltb, SFleb.
  rewrite (SFcompare_swap b a). by destruct (SFcompare a b) as [[]|].
Qed.

Lemma fleb_refl a : is_nan a = false -> fleb a a = true.
Proof.
  intros Ha. pose proof (SFcompare_nan a a Ha Ha) as Hn. pose proof (SFcompare_swap a a) as Hs.
  unfold fleb, SFleb. by destruct (SFcompare a a) as [[]|].
Qed.

(** [x] is between [lo] and [hi] as the code compares floats. *)
Definition within (lo hi x : f32) : Prop := fleb lo x = true /\ fleb x hi = true.

(** The two walls are in order and neither is NaN. *)
Definition params_ok (params : WorldParams) : Prop :=
  fleb (wall_low params) (wall_high params) = true.

Lemma fleb_not_nan a b : fleb a b = true -> is_nan a = false /\ is_nan b = false.
Proof. by destruct a as [[]|[]| |[] ? ?], b as [[]|[]| |[] ? ?]. Qed.

Lemma clampf_between v lo hi :
  fleb lo hi = true -> is_nan v = false -> within lo hi (clampf v lo hi).
Proof.
  intros H Hv. destruct (fleb_not_nan _ _ H). unfold clampf, within.
  destruct (fltb v lo) eqn:E1; [auto using fleb_refl|].
  destruct (fltb hi v) eqn:E2; [auto using fleb_refl|]. auto using fltb_false_fleb.
Qed.

Lemma step_wall_between low high p v :
  fleb low high = true -> is_nan p = false -> within low high (fst (step_wall low high p v)).
Proof.
  intros H Hp. pose proof (clampf_between p low high H Hp) as C. unfold clampf, step_wall in *.
  destruct (fltb p low); [done|]. by destruct (fltb high p).
Qed.

Lemma step_wall_stops low high p v :
  fleb low high = true ->
  (fltb p low = true -> fst (step_wall low high p v) = low /\ fltb (snd (step_wall low high p v)) f0 = false) /\
  (fgtb p high = true -> fltb p low = false ->
     fst (step_wall low high p v) = high /\ fgtb (snd (step_wall low high p v)) f0 = false) /\
  (fltb p low = false -> fgtb p high = false -> step_wall low high p v = (p, v)).
Proof.
  intros H. unfold step_wall. destruct (fltb p low) eqn:E1, (fltb high p) eqn:E2; split_and!; try done;
    intros; (split; [done|]); cbn [snd]; try (by destruct (fltb v f0) eqn:E); by destruct (fltb f0 v) eqn:E.
Qed.

(** ** Quantized inputs *)
Lemma axis_ok : quantizer_ok input_axis_quantizer.
Proof. by constructor; vm_compute. Qed.

(** What the wire can carry on one axis: level [k] of 255. *)
Definition axis_level (k : Z) : f32 :=
  fadd fm1 (fmul (fdiv (f32_of_Z k) (f32_of_Z 255)) (f32_of_Z 2)).

Section Axis.
Context `{Platform}.

Lemma axis_decode k : q_decode input_axis_quantizer k = axis_level k.
Proof. reflexivity. Qed.

(** [q_encode] on the axis, with the platform's undefined casts out of the way. *)
Definition axis_encode_z (v : f32) : option Z :=
  ftrunc (fadd (fmul (fdiv (fsub (clampf v fm1 f1) fm1) (f32_of_Z 2)) (f32_of_Z 255)) fhalf).

Lemma axis_encode v z :
  axis_encode_z v = Some z -> 0 <= z < 2 ^ 32 -> q_encode input_axis_quantizer v = z.
Proof. intros E Hz. unfold q_encode. exact (f32_to_u32_in_range _ z E Hz). Qed.

Definition axis_level_ok (k : Z) : bool :=
  match axis_encode_z (axis_level k), axis_encode_z (clampf (axis_level k) fm1 f1) with
  | Some a, Some b => (a =? k) && (b =? k)
  | _, _ => false
  end && negb (is_nan (axis_level k)) && valid_binary 24 128 (axis_level k)
  && fleb fm1 (axis_level k) && fleb (axis_level k) f1.

Lemma axis_levels_ok : Forall (fun k => axis_level_ok k = true) (seqZ 0 256).
Proof. repeat (apply Forall_cons_2; [vm_compute; reflexivity|]). apply Forall_nil_2. Qed.

Lemma axis_level_spec k : fits 8 k ->
  q_encode input_axis_quantizer (axis_level k) = k /\
  q_encode input_axis_quantizer (clampf (axis_level k) fm1 f1) = k /\
  is_nan (axis_level k) = false /\ f32_valid (axis_level k) /\ within fm1 f1 (axis_level k).
Proof.
  intros Hk. pose proof axis_levels_ok as F. rewrite Forall_forall in F.
  specialize (F k). unfold axis_level_ok in F.
  rewrite !andb_true_iff, negb_true_iff in F.
  destruct F as [[[[F1 F2] F3] F4] F5]; [apply list_elem_of_In, elem_of_seqZ; unfold fits in Hk; lia|].
  destruct (axis_encode_z (axis_level k)) as [a|] eqn:Ea; [|done].
  destruct (axis_encode_z (clampf _ _ _)) as [b|] eqn:Eb; [|done].
  apply andb_true_iff in F1 as [->%Z.eqb_eq ->%Z.eqb_eq]. unfold fits in Hk.
  split; [apply axis_encode; [done|lia]|]. split; [apply axis_encode; [done|lia]|].
  by split_and!.
Qed.

(** An analog value a client can produce: not NaN, a real binary32. *)
Definition analog (v : f32) : Prop := is_nan v = false /\ f32_valid v.

Lemma clamp_axis_analog v : analog v -> analog (clampf v fm1 f1).
Proof.
  intros [Hn Hv]. unfold clampf. destruct (fltb v fm1); [by split; vm_compute|].
  destruct (fltb f1 v); [by split; vm_compute|by split].
Qed.

Lemma axis_encode_level v : analog v ->
  exists k, fits 8 k /\ q_encode input_axis_quantizer v = k /\
    q_snap input_axis_quantizer v = axis_level k.
Proof.
  intros [Hn Hv]. eexists. split; [apply (q_encode_fits input_axis_quantizer v axis_ok Hn Hv)|].
  split; [done|apply axis_decode].
Qed.

Lemma snap_clamp v : analog v ->
  exists k, fits 8 k /\ q_snap input_axis_quantizer (clampf v fm1 f1) = axis_level k.
Proof.
  intros Hv. destruct (axis_encode_level _ (clamp_axis_analog v Hv)) as (k & Hk & _ & E). eauto.
Qed.

Lemma clampf_idem v : clampf (clampf v fm1 f1) fm1 f1 = clampf v fm1 f1.
Proof.
  unfold clampf at 2 3. destruct (fltb v fm1) eqn:E1; [reflexivity|].
  destruct (fltb f1 v) eqn:E2; [reflexivity|]. unfold clampf. by rewrite E1, E2.
Qed.

(** The encoder's own clamp makes the caller's redundant. *)
Lemma encode_clamp v :
  q_encode input_axis_quantizer (clampf v fm1 f1) = q_encode input_axis_quantizer v.
Proof. unfold q_encode. cbn [q_min q_max q_bits input_axis_quantizer]. by rewrite clampf_idem. Qed.

Lemma snap_clamp_level k : fits 8 k ->
  q_snap input_axis_quantizer (clampf (axis_level k) fm1 f1) = axis_level k.
Proof. intros Hk. unfold q_snap. by rewrite (proj1 (proj2 (axis_level_spec k Hk))). Qed.

Definition analog_input (i : MoveInput) : Prop := analog (mi_move_x i) /\ analog (mi_move_y i).

(** An input as it comes off the wire: both axes on a level. *)
Definition level_input (i : MoveInput) : Prop :=
  exists kx ky, fits 8 kx /\ fits 8 ky /\ mi_move_x i = axis_level kx /\ mi_move_y i = axis_level ky.

Lemma quantize_input_level i : analog_input i -> level_input (quantize_input i).
Proof.
  intros [Hx Hy]. destruct (snap_clamp _ Hx) as (kx & Hkx & Ex), (snap_clamp _ Hy) as (ky & Hky & Ey).
  by exists kx, ky.
Qed.

Lemma quantize_level_input i : level_input i -> quantize_input i = i.
Proof.
  destruct i as [s t x y b]. intros (kx & ky & Hx & Hy & E1 & E2). cbn in E1, E2. subst x y.
  unfold quantize_input. cbn [mi_move_x mi_move_y mi_sequence mi_tick mi_sprint].
  by rewrite !snap_clamp_level.
Qed.

Lemma level_analog i : level_input i -> analog_input i.
Proof.
  intros (kx & ky & Hkx & Hky & Ex & Ey). unfold analog_input. rewrite Ex, Ey.
  destruct (axis_level_spec kx Hkx) as (_ & _ & Hx & Hx' & _). destruct (axis_level_spec ky Hky) as (_ & _ & Hy & Hy' & _).
  by split; split.
Qed.
End Axis.

(** ** Theorems *)

(** Prediction and authority integrate the same input: quantizing is
    idempotent on every analog input, its result is between -1 and 1 on both
    axes, and it keeps the sequence, the tick and the sprint flag; so the value
    a client predicted with is a fixed point of the quantization the server
    applies to what it received. *)
Theorem quantize_input_idempotent `{Platform} (i : MoveInput) :
  analog_input i ->
  quantize_input (quantize_input i) = quantize_input i /\
  within fm1 f1 (mi_move_x (quantize_input i)) /\ within fm1 f1 (mi_move_y (quantize_input i)) /\
  mi_sequence (quantize_input i) = mi_sequence i /\ mi_tick (quantize_input i) = mi_tick i /\
  mi_sprint (quantize_input i) = mi_sprint i.
Proof.
  intros Hi. pose proof (quantize_input_level i Hi) as Hl.
  split; [by apply quantize_level_input|].
  destruct Hl as (kx & ky & Hx & Hy & -> & ->).
  by repeat split; apply axis_level_spec.
Qed.

Lemma quantize_input_idempotent_witness :
  let i := mkMoveInput 7 3 (f32_lit 7 10) (S754_infinity true) true in
  @quantize_input plain_platform (@quantize_input plain_platform i) = @quantize_input plain_platform i.
Proof.
  apply (@quantize_input_idempotent plain_platform (mkMoveInput 7 3 (f32_lit 7 10) (S754_infinity true) true)).
  repeat split; vm_compute; reflexivity.
Defined.

(** C29. The walls hold.  Whatever the input, the velocity and the step, on each
    axis the new position is between the walls unless the free motion was NaN;
    where the free motion passes a wall the entity stands exactly on it and no
    longer moves into it; and where it passes neither, position and velocity
    are those of the free motion. *)
Theorem step_movement_walls (state : MoveState) (input : MoveInput) (params : WorldParams) (dt : f32) :
  params_ok params ->
  let v := step_velocity (ms_velocity state) input params dt in
  let free := vadd (ms_position state) (vscale v dt) in
  let state' := step_movement state input params dt in
  let low := wall_low params in
  let high := wall_high params in
  forall axis, axis = vec_x \/ axis = vec_y ->
    (is_nan (axis free) = false -> within low high (axis (ms_position state'))) /\
    (fltb (axis free) low = true ->
       axis (ms_position state') = low /\ fltb (axis (ms_velocity state')) f0 = false) /\
    (fltb (axis free) low = false -> fgtb (axis free) high = true ->
       axis (ms_position state') = high /\ fgtb (axis (ms_velocity state')) f0 = false) /\
    (fltb (axis free) low = false -> fgtb (axis free) high = false ->
       axis (ms_position state') = axis free /\ axis (ms_velocity state') = axis v).
Proof.
  intros Hp v free state' low high.
  assert (E : forall axis, axis = vec_x \/ axis = vec_y ->
    (axis (ms_position state'), axis (ms_velocity state')) = step_wall low high (axis free) (axis v)).
  { subst state'. unfold step_movement. fold v free low high.
    destruct (step_wall low high (vec_x free) (vec_x v)) eqn:Ex, (step_wall low high (vec_y free) (vec_y v)) eqn:Ey.
    intros axis [->| ->]; cbn [ms_position ms_velocity vec_x vec_y]; by rewrite ?Ex, ?Ey. }
  intros axis Ha. specialize (E axis Ha).
  destruct (step_wall_stops low high (axis free) (axis v) Hp) as (S1 & S2 & S3).
  pose proof (step_wall_between low high (axis free) (axis v) Hp) as S4.
  rewrite <- E in S1, S2, S3, S4. cbn [fst snd] in *.
  split_and!; auto. intros A B. specialize (S3 A B). split; congruence.
Qed.

Lemma step_movement_walls_witness :
  let params := WorldParams_default in
  let start := mkMoveState (mkVec2 (f32_of_Z 10) (f32_of_Z 1000)) (mkVec2 (f32_of_Z (-300)) f0) in
  let s := step_movement start (mkMoveInput 1 0 fm1 f0 true) params (tick_dt params) in
  vec_x (ms_position s) = f32_of_Z 8 /\ fltb (vec_x (ms_velocity s)) f0 = false.
Proof.
  cbv zeta. apply (step_movement_walls (mkMoveState (mkVec2 (f32_of_Z 10) (f32_of_Z 1000)) (mkVec2 (f32_of_Z (-300)) f0))
    (mkMoveInput 1 0 fm1 f0 true) WorldParams_default (tick_dt WorldParams_default)
    ltac:(vm_compute; reflexivity) vec_x (or_introl eq_refl)).
  vm_compute. reflexivity.
Defined.
