(* ===== verification/Messages.v ===== *)
(** * Messages: the payloads of the input and event channels
      ([src/src/proto/messages.h])

    Each message is an instance of [Codec]: the encoder and decoder of the
    source, the bits they agree on, and what the receiver sees of the value.
    An input packet does not survive unchanged: the axes come back snapped to
    their 255 levels and the tick of each command is not on the wire at all. *)

From S2P Require Import Prelude Bitstream F32 Quantizer Movement.
From Stdlib Require Import ZArith Lia Bool Ascii String Floats.SpecFloat.
From stdpp Require Import base tactics numbers list option strings.
#[local] Open Scope Z_scope.

(** ** Constants of [src/src/net/protocol.h] *)
Definition kProtocolId : Z := 0x4d525401.

Inductive Channel := kInput | kSnapshot | kEvent.
Definition channel_code (c : Channel) : Z :=
  match c with kInput => 1 | kSnapshot => 2 | kEvent => 3 end.

Inductive EventType :=
  kMigrateRedirect | kMigrateComplete | kWorldConfig | kPlayerJoined | kPlayerLeft | kShardDrainingEvent.
Definition event_code (e : EventType) : Z :=
  match e with
  | kMigrateRedirect => 1 | kMigrateComplete => 2 | kWorldConfig => 3
  | kPlayerJoined => 4 | kPlayerLeft => 5 | kShardDrainingEvent => 6
  end.

Definition kMaxReliablePerPacket : Z := 8.
Definition kMaxReliableMessageSize : Z := 512.
Definition kAckWindowSize : Z := 1024.
Definition kConnectTokenBytes : Z := 32.

Definition kInputRedundancy : Z := 6.
Definition kMaxInputsPerPacket : Z := 16.

(** ** Input packets *)
Record InputPacket := mkInputPacket {
  ip_client_tick : Z;
  ip_acked_snapshot_tick : Z;
  ip_inputs : list MoveInput
}.

Section InputPackets.
Context `{Platform}.

Definition write_input (input : MoveInput) (w : BitWriter) : BitWriter :=
  let axis := input_axis_quantizer in
  let w := write_u32 (mi_sequence input) w in
  let w := write_bits (q_encode axis (mi_move_x input)) (q_bits axis) w in
  let w := write_bits (q_encode axis (mi_move_y input)) (q_bits axis) w in
  write_bool (mi_sprint input) w.

Fixpoint write_inputs (inputs : list MoveInput) (w : BitWriter) : BitWriter :=
  match inputs with
  | [] => w
  | input :: inputs => write_inputs inputs (write_input input w)
  end.

Definition encode_input_packet (packet : InputPacket) (w : BitWriter) : BitWriter :=
  let w := write_u8 (channel_code kInput) w in
  let w := write_u32 (ip_client_tick packet) w in
  let w := write_u32 (ip_acked_snapshot_tick packet) w in
  let count := u32 (Z.of_nat (length (ip_inputs packet))) in
  let count := if kMaxInputsPerPacket <? count then kMaxInputsPerPacket else count in
  let w := write_ranged (i32 count) 0 (i32 kMaxInputsPerPacket) w in
  write_inputs (take (Z.to_nat count) (ip_inputs packet)) w.

Definition read_input : Rd MoveInput :=
  let axis := input_axis_quantizer in
  sequence ← read_u32;
  x ← read_bits (q_bits axis);
  y ← read_bits (q_bits axis);
  sprint ← read_bool;
  mret (mkMoveInput sequence 0 (q_decode axis x) (q_decode axis y) sprint).

Fixpoint read_inputs (count : nat) : Rd (list MoveInput) :=
  match count with
  | O => mret []
  | S count => input ← read_input; inputs ← read_inputs count; mret (input :: inputs)
  end.

Definition decode_input_packet : Rd (option InputPacket) :=
  channel ← read_u8;
  if negb (channel =? channel_code kInput) then mret None else
  client_tick ← read_u32;
  acked_snapshot_tick ← read_u32;
  count ← read_ranged 0 (i32 kMaxInputsPerPacket);
  unless_overflowed (
    if count <? 0 then mret None else
    inputs ← read_inputs (Z.to_nat count);
    unless_overflowed (mret (Some (mkInputPacket client_tick acked_snapshot_tick inputs)))).

(** What arrives of a command. *)
Definition wire_input (i : MoveInput) : MoveInput :=
  mkMoveInput (mi_sequence i) 0 (q_snap input_axis_quantizer (mi_move_x i))
    (q_snap input_axis_quantizer (mi_move_y i)) (mi_sprint i).

Definition wire_packet (p : InputPacket) : InputPacket :=
  mkInputPacket (ip_client_tick p) (ip_acked_snapshot_tick p)
    (wire_input <$> take (Z.to_nat kMaxInputsPerPacket) (ip_inputs p)).

Definition input_ok (i : MoveInput) : Prop := fits 32 (mi_sequence i) /\ analog_input i.

Definition input_packet_ok (p : InputPacket) : Prop :=
  fits 32 (ip_client_tick p) /\ fits 32 (ip_acked_snapshot_tick p) /\
  Z.of_nat (length (ip_inputs p)) < 2 ^ 32 /\ Forall input_ok (ip_inputs p).

Definition input_bits (i : MoveInput) : list bool :=
  zbits 32 (mi_sequence i) ++
  zbits 8 (q_encode input_axis_quantizer (mi_move_x i)) ++
  zbits 8 (q_encode input_axis_quantizer (mi_move_y i)) ++ [mi_sprint i].

Definition input_packet_bits (p : InputPacket) : list bool :=
  let inputs := take (Z.to_nat kMaxInputsPerPacket) (ip_inputs p) in
  zbits 8 1 ++ zbits 32 (ip_client_tick p) ++ zbits 32 (ip_acked_snapshot_tick p) ++
  zbits 5 (Z.of_nat (length inputs)) ++ (inputs ≫= input_bits).

Lemma axis_fits v : analog v -> fits 8 (q_encode input_axis_quantizer v).
Proof. intros []. by apply (q_encode_fits input_axis_quantizer _ axis_ok). Qed.

Lemma write_input_writes i : input_ok i -> writes (write_input i) (input_bits i).
Proof.
  intros (Hs & Hx & Hy). apply axis_fits in Hx, Hy.
  unfold write_input, input_bits. split_writes; [exact (writes_u32 _ Hs)| | |apply writes_bool];
    (apply (writes_bits _ 8); [unfold fits in *|]; lia).
Qed.

Lemma write_inputs_writes l : Forall input_ok l -> writes (write_inputs l) (l ≫= input_bits).
Proof.
  induction 1 as [|i l Hi _ IH]; [apply writes_id|].
  apply (writes_comp (write_input i)); [by apply write_input_writes|done].
Qed.

Lemma read_input_reads i : input_ok i -> reads read_input (input_bits i) (wire_input i).
Proof.
  intros (Hs & Hx & Hy). apply axis_fits in Hx, Hy.
  eapply reads_bind; [by apply reads_u32|]. cbn beta.
  eapply reads_bind; [apply (reads_zbits 8); [done|lia]|]. cbn beta.
  eapply reads_bind; [apply (reads_zbits 8); [done|lia]|]. cbn beta.
  apply (reads_bind_ret read_bool (mkMoveInput _ _ _ _)), reads_bool.
Qed.

Lemma read_inputs_reads l :
  Forall input_ok l -> reads (read_inputs (length l)) (l ≫= input_bits) (wire_input <$> l).
Proof.
  induction 1 as [|i l Hi _ IH]; [apply reads_ret|].
  eapply reads_bind; [by apply read_input_reads|]. apply (reads_bind_ret _ (cons _)), IH.
Qed.

Lemma clip_count n : 0 <= n -> n < 2 ^ 32 ->
  (if kMaxInputsPerPacket <? u32 n then kMaxInputsPerPacket else u32 n) = Z.min 16 n.
Proof.
  intros H0 Hn. rewrite wrap_small by (split; lia). unfold kMaxInputsPerPacket.
  destruct (Z.ltb_spec 16 n); lia.
Qed.

Lemma clip_take {A} (l : list A) :
  take (Z.to_nat (Z.min 16 (Z.of_nat (length l)))) l = take 16 l.
Proof.
  destruct (Nat.le_gt_cases (length l) 16); [rewrite !take_ge by lia; done|].
  do 2 f_equal. lia.
Qed.

Lemma encode_input_packet_writes p :
  input_packet_ok p -> writes (encode_input_packet p) (input_packet_bits p).
Proof.
  intros (Hc & Ha & Hl & Hi). unfold encode_input_packet, input_packet_bits.
  rewrite clip_count, clip_take by lia.
  split_writes; [apply (writes_u8 1); split; lia|exact (writes_u32 _ Hc)|exact (writes_u32 _ Ha)|
    |by apply write_inputs_writes, Forall_take].
  change (i32 kMaxInputsPerPacket) with 16.
  eapply writes_eq; [|apply writes_ranged; unfold i32_range; lia].
  change (Z.to_nat (bits_required 0 16)) with 5%nat. f_equal. unfold clampz.
  rewrite i32_small, length_take by lia. unfold kMaxInputsPerPacket. lia.
Qed.

Lemma decode_input_packet_parses p :
  input_packet_ok p -> parses decode_input_packet (input_packet_bits p) (wire_packet p).
Proof.
  intros (Hc & Ha & Hl & Hi).
  eapply parses_bind; [apply (reads_u8 1); split; lia|]. cbn -[read_ranged read_u32 read_inputs].
  eapply parses_bind; [by apply reads_u32|]. cbn beta.
  eapply parses_bind; [by apply reads_u32|]. cbn beta.
  set (n := length (take (Z.to_nat kMaxInputsPerPacket) (ip_inputs p))).
  assert (Hn : 0 <= Z.of_nat n <= 16).
  { subst n. rewrite length_take. unfold kMaxInputsPerPacket. lia. }
  eapply parses_bind.
  { eapply (reads_eq _ (zbits (Z.to_nat (bits_required 0 16)) (Z.of_nat n - 0))); [|done|].
    - change (Z.to_nat (bits_required 0 16)) with 5%nat. by rewrite Z.sub_0_r.
    - apply reads_ranged; unfold i32_range; lia. }
  cbn beta. apply parses_check. rewrite (proj2 (Z.ltb_ge (Z.of_nat n) 0)), Nat2Z.id by lia.
  rewrite <- (app_nil_r (_ ≫= _)).
  eapply parses_bind; [by apply read_inputs_reads, Forall_take|]. apply parses_check, parses_ret.
Qed.

#[export] Instance InputPacket_codec : Codec InputPacket := {
  codec_write := encode_input_packet;
  codec_read := decode_input_packet;
  codec_bits := input_packet_bits;
  codec_ok := input_packet_ok;
  codec_wire := wire_packet;
  codec_writes := encode_input_packet_writes;
  codec_parses := decode_input_packet_parses
}.

(** What the decoder can return, whatever the bytes. *)
Definition received_input (i : MoveInput) : Prop :=
  fits 32 (mi_sequence i) /\ mi_tick i = 0 /\ level_input i.

Definition received_packet (p : InputPacket) : Prop :=
  fits 32 (ip_client_tick p) /\ fits 32 (ip_acked_snapshot_tick p) /\
  Z.of_nat (length (ip_inputs p)) <= 31 /\ Forall received_input (ip_inputs p).

Lemma read_input_yields : yields read_input received_input.
Proof.
  eapply yields_bind; [apply yields_u32|]. intros s Hs.
  eapply yields_bind; [apply (yields_bits 8); lia|]. intros x Hx.
  eapply yields_bind; [apply (yields_bits 8); lia|]. intros y Hy.
  eapply yields_bind; [apply yields_bool|]. intros b _. apply yields_ret.
  split; [done|]. split; [done|]. by exists x, y.
Qed.

Lemma read_inputs_yields n :
  yields (read_inputs n) (fun l => length l = n /\ Forall received_input l).
Proof.
  induction n as [|n IH]; [by apply yields_ret|].
  eapply yields_bind; [apply read_input_yields|]. intros i Hi.
  eapply yields_bind; [apply IH|]. intros l [Hl Hf]. apply yields_ret. split; [cbn; lia|by constructor].
Qed.

Lemma decode_input_packet_yields :
  yields decode_input_packet (fun o => match o with Some p => received_packet p | None => True end).
Proof.
  eapply yields_bind; [apply yields_u8|]. intros c _.
  destruct (negb _); [by apply yields_ret|].
  eapply yields_bind; [apply yields_u32|]. intros t Ht.
  eapply yields_bind; [apply yields_u32|]. intros a Ha.
  eapply yields_bind.
  { change (i32 kMaxInputsPerPacket) with 16.
    apply yields_ranged; change (bits_required 0 16) with 5; unfold i32_range; lia. }
  intros n Hn. cbn beta in *. change (bits_required 0 16) with 5 in Hn.
  apply yields_check; [done|]. destruct (n <? 0); [by apply yields_ret|].
  eapply yields_bind; [apply read_inputs_yields|]. intros l [Hl Hf].
  apply yields_check; [done|]. apply yields_ret.
  split; [done|]. split; [done|]. split; [cbn; lia|done].
Qed.
End InputPackets.

(** ** Event messages *)
Record WorldConfigEvent := mkWorldConfigEvent {
  wc_entity : Z;
  wc_tick : Z;
  wc_region : Z;
  wc_world_size : f32;
  wc_tick_rate : Z;
  wc_shard_id : string
}.

Definition encode_world_config (event : WorldConfigEvent) (w : BitWriter) : BitWriter :=
  let w := write_u8 (event_code kWorldConfig) w in
  let w := write_u32 (wc_entity event) w in
  let w := write_u32 (wc_tick event) w in
  let w := write_varint (wc_region event) w in
  let w := write_float (wc_world_size event) w in
  let w := write_varint (wc_tick_rate event) w in
  write_string (wc_shard_id event) w.

Definition decode_world_config : Rd (option WorldConfigEvent) :=
  type ← read_u8;
  if negb (type =? event_code kWorldConfig) then mret None else
  entity ← read_u32;
  tick ← read_u32;
  region ← read_varint;
  world_size ← read_float;
  tick_rate ← read_varint;
  shard_id ← read_string;
  unless_overflowed (mret (Some (mkWorldConfigEvent entity tick region world_size tick_rate shard_id))).

Record MigrateRedirectEvent := mkMigrateRedirectEvent {
  mr_ticket : Z;
  mr_region : Z;
  mr_endpoint : string;
  mr_shard_id : string
}.

Definition encode_migrate_redirect (event : MigrateRedirectEvent) (w : BitWriter) : BitWriter :=
  let w := write_u8 (event_code kMigrateRedirect) w in
  let w := write_u64 (mr_ticket event) w in
  let w := write_varint (mr_region event) w in
  let w := write_string (mr_endpoint event) w in
  write_string (mr_shard_id event) w.

Definition string_empty (s : string) : bool := match s with EmptyString => true | _ => false end.

Definition decode_migrate_redirect : Rd (option MigrateRedirectEvent) :=
  type ← read_u8;
  if negb (type =? event_code kMigrateRedirect) then mret None else
  ticket ← read_u64;
  region ← read_varint;
  endpoint ← read_string;
  shard_id ← read_string;
  unless_overflowed (
    if string_empty endpoint then mret None
    else mret (Some (mkMigrateRedirectEvent ticket region endpoint shard_id))).

(** ** Credentials *)
Inductive CredentialKind := kSession | kMigration.
Definition kind_code (k : CredentialKind) : Z := match k with kSession => 0 | kMigration => 1 end.
Definition kind_of_code (c : Z) : CredentialKind := if c =? 0 then kSession else kMigration.

Record ConnectCredential := mkConnectCredential {
  cc_kind : CredentialKind;
  cc_token : Z;
  cc_player_id : string
}.

Definition kMaxPlayerIdBytes : Z := 20.

Definition string_size (s : string) : Z := Z.of_nat (String.length s).

Definition write_credential (c : ConnectCredential) (w : BitWriter) : BitWriter :=
  let w := write_u8 (kind_code (cc_kind c)) w in
  let w := write_u64 (cc_token c) w in
  write_string (cc_player_id c) w.

(** [out->fill(0)]: the token is the whole 32-byte array.  The source does not
    call [bytes_written] here; every field is a whole number of bytes, so no
    partial byte is pending. *)
Definition encode_credential (c : ConnectCredential) : option (list Z) :=
  if string_empty (cc_player_id c) || (kMaxPlayerIdBytes <? string_size (cc_player_id c)) then None else
  let w := write_credential c (BitWriter_new (repeat 0 32) kConnectTokenBytes) in
  if bw_overflow w then None else Some (bw_buffer w).

Definition read_credential : Rd (option ConnectCredential) :=
  kind ← read_u8;
  if kind_code kMigration <? kind then mret None else
  token ← read_u64;
  player_id ← read_string;
  unless_overflowed (
    if string_empty player_id || (kMaxPlayerIdBytes <? string_size player_id) then mret None
    else mret (Some (mkConnectCredential (kind_of_code kind) token player_id))).

Definition decode_credential (token : list Z) : option ConnectCredential :=
  fst (read_credential (BitReader_new token kConnectTokenBytes)).

(** ** Codecs *)
Definition world_config_ok (e : WorldConfigEvent) : Prop :=
  fits 32 (wc_entity e) /\ fits 32 (wc_tick e) /\ fits 32 (wc_region e) /\ f32_valid (wc_world_size e) /\
  fits 32 (wc_tick_rate e) /\ short_string (wc_shard_id e).

Definition world_config_bits (e : WorldConfigEvent) : list bool :=
  zbits 8 3 ++ zbits 32 (wc_entity e) ++ zbits 32 (wc_tick e) ++ varint_bits (wc_region e) ++
  float_bits (wc_world_size e) ++ varint_bits (wc_tick_rate e) ++ string_bits (wc_shard_id e).

Lemma encode_world_config_writes e :
  world_config_ok e -> writes (encode_world_config e) (world_config_bits e).
Proof.
  intros (H1 & H2 & H3 & H4 & H5 & H6). unfold encode_world_config, world_config_bits.
  split_writes; [apply (writes_u8 3); split; lia|exact (writes_u32 _ H1)|exact (writes_u32 _ H2)
    |exact (writes_varint _ H3)|exact (writes_float _ H4)|exact (writes_varint _ H5)|exact (writes_string _ H6)].
Qed.

(** Reads the fields of a parser one after the other, leaving the checks. *)
Ltac parse_field lem := eapply parses_bind; [apply lem; eauto|cbn beta].

Lemma decode_world_config_parses e :
  world_config_ok e -> parses decode_world_config (world_config_bits e) e.
Proof.
  intros (H1 & H2 & H3 & H4 & H5 & H6).
  eapply parses_bind; [apply (reads_u8 3); split; lia|].
  change (negb (3 =? event_code kWorldConfig)) with false. cbn iota.
  parse_field reads_u32. parse_field reads_u32. parse_field reads_varint. parse_field reads_float.
  parse_field reads_varint. rewrite <- (app_nil_r (string_bits _)). parse_field reads_string.
  destruct e. apply parses_check, parses_ret.
Qed.

#[export] Instance WorldConfig_codec : Codec WorldConfigEvent := {
  codec_write := encode_world_config;
  codec_read := decode_world_config;
  codec_bits := world_config_bits;
  codec_ok := world_config_ok;
  codec_wire := id;
  codec_writes := encode_world_config_writes;
  codec_parses := decode_world_config_parses
}.

Definition migrate_redirect_ok (e : MigrateRedirectEvent) : Prop :=
  fits 64 (mr_ticket e) /\ fits 32 (mr_region e) /\
  string_empty (mr_endpoint e) = false /\ short_string (mr_endpoint e) /\ short_string (mr_shard_id e).

Definition migrate_redirect_bits (e : MigrateRedirectEvent) : list bool :=
  zbits 8 1 ++ zbits 64 (mr_ticket e) ++ varint_bits (mr_region e) ++
  string_bits (mr_endpoint e) ++ string_bits (mr_shard_id e).

Lemma encode_migrate_redirect_writes e :
  migrate_redirect_ok e -> writes (encode_migrate_redirect e) (migrate_redirect_bits e).
Proof.
  intros (H1 & H2 & _ & H4 & H5). unfold encode_migrate_redirect, migrate_redirect_bits.
  split_writes; [apply (writes_u8 1); split; lia|exact (writes_u64 _ H1)|exact (writes_varint _ H2)
    |exact (writes_string _ H4)|exact (writes_string _ H5)].
Qed.

Lemma decode_migrate_redirect_parses e :
  migrate_redirect_ok e -> parses decode_migrate_redirect (migrate_redirect_bits e) e.
Proof.
  intros (H1 & H2 & H3 & H4 & H5).
  eapply parses_bind; [apply (reads_u8 1); split; lia|].
  change (negb (1 =? event_code kMigrateRedirect)) with false. cbn iota.
  parse_field reads_u64. parse_field reads_varint. parse_field reads_string.
  rewrite <- (app_nil_r (string_bits _)). parse_field reads_string.
  apply parses_check. rewrite H3. destruct e. apply parses_ret.
Qed.

#[export] Instance MigrateRedirect_codec : Codec MigrateRedirectEvent := {
  codec_write := encode_migrate_redirect;
  codec_read := decode_migrate_redirect;
  codec_bits := migrate_redirect_bits;
  codec_ok := migrate_redirect_ok;
  codec_wire := id;
  codec_writes := encode_migrate_redirect_writes;
  codec_parses := decode_migrate_redirect_parses
}.

(** *** Credentials fill a fixed array *)
Definition credential_ok (c : ConnectCredential) : Prop :=
  fits 64 (cc_token c) /\ string_empty (cc_player_id c) = false /\ string_size (cc_player_id c) <= kMaxPlayerIdBytes.

Definition credential_bits (c : ConnectCredential) : list bool :=
  zbits 8 (kind_code (cc_kind c)) ++ zbits 64 (cc_token c) ++ string_bits (cc_player_id c).

Lemma kind_code_range k : 0 <= kind_code k <= 1.
Proof. destruct k; cbn; lia. Qed.

Lemma credential_short c : credential_ok c -> short_string (cc_player_id c).
Proof. intros (_ & _ & H). unfold string_size, kMaxPlayerIdBytes, short_string in *. lia. Qed.

Lemma write_credential_writes c : credential_ok c -> writes (write_credential c) (credential_bits c).
Proof.
  intros Hc. pose proof (credential_short c Hc) as Hs. destruct Hc as (H1 & _).
  unfold write_credential, credential_bits. pose proof (kind_code_range (cc_kind c)).
  split_writes; [apply writes_u8; split; lia|exact (writes_u64 _ H1)|exact (writes_string _ Hs)].
Qed.

Lemma read_credential_parses c : credential_ok c -> parses read_credential (credential_bits c) c.
Proof.
  intros Hc. pose proof (credential_short c Hc) as Hs. destruct Hc as (H1 & H2 & H3).
  pose proof (kind_code_range (cc_kind c)).
  eapply parses_bind; [apply reads_u8; split; lia|].
  change (kind_code kMigration) with 1. rewrite (proj2 (Z.ltb_ge 1 _)) by lia. cbn iota.
  parse_field reads_u64. rewrite <- (app_nil_r (string_bits _)). parse_field reads_string.
  apply parses_check. rewrite H2, (proj2 (Z.ltb_ge _ _)) by done. cbn [orb].
  destruct c as [k t p]. destruct k; apply parses_ret.
Qed.

Lemma length_short_varint n : 0 <= n < 128 -> length (varint_bits n) = 8%nat.
Proof.
  intros Hn. unfold varint_bits. rewrite length_bits_of_bytes. cbn [varint_bytes].
  by rewrite (proj2 (Z.ltb_lt n _)) by lia.
Qed.

Lemma length_credential_bits c :
  credential_ok c -> length (credential_bits c) = (80 + 8 * String.length (cc_player_id c))%nat.
Proof.
  intros (_ & _ & H). unfold string_size, kMaxPlayerIdBytes in H. unfold credential_bits, string_bits.
  rewrite !length_app, !length_zbits, length_short_varint, length_bits_of_bytes, length_string_bytes by lia. lia.
Qed.

(** A writer at a byte boundary has nothing pending: the buffer holds all of it. *)
Lemma aligned_buffer w : writer_wf w -> (8 | bw_bit_pos w) ->
  bits_of_bytes (bw_buffer w) = written w ++ bits_of_bytes (drop (bw_flushed_bytes w) (bw_buffer w)).
Proof.
  intros [] [k Hk]. unfold written. replace (bw_pending_bits w) with 0 by lia.
  change (zbits (Z.to_nat 0) _) with (@nil bool). by rewrite app_nil_r, <- bits_of_bytes_app, take_drop.
Qed.

Lemma credential_token c : credential_ok c ->
  exists token, encode_credential c = Some token /\ length token = 32%nat /\ Forall (fits 8) token /\
    exists tl, bits_of_bytes token = credential_bits c ++ tl.
Proof.
  intros Hc. pose proof (length_credential_bits c Hc) as Hlen. pose proof Hc as (_ & H2 & H3).
  unfold string_size, kMaxPlayerIdBytes in H3.
  destruct (writer_wf_new (repeat 0 32) 32 (Forall_zeros 32)) as [Hw Hw0]; [cbn; lia|cbn; lia|].
  destruct (write_credential_writes c Hc _ Hw) as (E & R & _).
  unfold encode_credential. rewrite H2, (proj2 (Z.ltb_ge kMaxPlayerIdBytes _)) by done. cbn [orb].
  change kConnectTokenBytes with 32. set (w := write_credential _ _) in *.
  destruct R as [Wr Ho].
  { unfold room. change (bw_bit_pos _) with 0. change (bw_capacity_bits _) with 256. lia. }
  rewrite Hw0 in Wr. cbn [app] in Wr. change (bw_overflow (BitWriter_new _ _)) with false in Ho. rewrite Ho.
  exists (bw_buffer w). pose proof (ext_wf _ _ E) as Hwf.
  split; [done|]. split; [by rewrite (ext_length _ _ E)|]. split; [by destruct Hwf|].
  eexists. rewrite aligned_buffer, Wr; [reflexivity|done|].
  rewrite <- (length_written w Hwf), Wr, Hlen. exists (Z.of_nat (10 + String.length (cc_player_id c))). lia.
Qed.

Lemma read_credential_yields :
  yields read_credential (fun o => match o with
    | Some c => fits 64 (cc_token c) /\ string_empty (cc_player_id c) = false /\
                string_size (cc_player_id c) <= kMaxPlayerIdBytes
    | None => True end).
Proof.
  eapply yields_bind; [apply yields_u8|]. intros k _. destruct (_ <? k); [by apply yields_ret|].
  eapply yields_bind; [apply yields_u64|]. intros t Ht.
  eapply yields_bind; [apply yields_string|]. intros s _.
  apply yields_check; [done|]. destruct (string_empty s) eqn:Es; [by apply yields_ret|].
  destruct (Z.ltb_spec kMaxPlayerIdBytes (string_size s)); by apply yields_ret.
Qed.

(** ** Theorems *)

(** C32. Client to server: an input packet that is encoded is decoded to the same
    ticks and to the first sixteen commands, each with its own sequence and
    sprint flag and with its axes snapped to the wire levels; and quantizing a
    received command, as the server does when it queues it, gives exactly the
    command the client predicted with, but for the tick, which is not on the
    wire and reads as zero.  Encoding fails only when the packet does not fit. *)
Theorem input_packet_roundtrip `{Platform} (p : InputPacket) (buffer : list Z) (capacity : Z) :
  input_packet_ok p -> buffer_ok buffer capacity ->
  (encode_packet p buffer capacity <> None <->
     77 + 49 * Z.of_nat (length (take 16 (ip_inputs p))) <= capacity * 8) /\
  (forall bytes, encode_packet p buffer capacity = Some bytes -> decode_packet bytes = Some (wire_packet p)) /\
  Forall (fun i => quantize_input (wire_input i) =
            mkMoveInput (mi_sequence i) 0 (mi_move_x (quantize_input i)) (mi_move_y (quantize_input i)) (mi_sprint i))
    (ip_inputs p).
Proof.
  intros Hp Hb. pose proof (codec_roundtrip p buffer capacity) as R. destruct (R Hp Hb) as [R1 R2]. split_and!.
  - rewrite R1. cbn [codec_bits InputPacket_codec]. unfold input_packet_bits.
    change (Z.to_nat kMaxInputsPerPacket) with 16%nat. generalize (take 16 (ip_inputs p)). intros l.
    assert (E : Z.of_nat (length (l ≫= input_bits)) = 49 * Z.of_nat (length l)).
    { induction l as [|i l IH]; [done|]. change ((i :: l) ≫= input_bits) with (input_bits i ++ (l ≫= input_bits)).
      rewrite length_app, Nat2Z.inj_add, IH. unfold input_bits. rewrite !length_app, !length_zbits. cbn [length]. lia. }
    rewrite !length_app, !length_zbits. lia.
  - intros bytes E. by apply R2.
  - destruct Hp as (_ & _ & _ & Hi). eapply Forall_impl; [exact Hi|]. intros i [_ [Hx Hy]].
    destruct (axis_encode_level _ Hx) as (kx & Hkx & Ekx & Esx), (axis_encode_level _ Hy) as (ky & Hky & Eky & Esy).
    unfold quantize_input, wire_input. cbn [mi_move_x mi_move_y mi_sequence mi_tick mi_sprint].
    rewrite Esx, Esy, !snap_clamp_level by done. unfold q_snap. rewrite !encode_clamp, Ekx, Eky.
    reflexivity.
Qed.

Definition sample_input_packet : InputPacket :=
  mkInputPacket 100 97 [mkMoveInput 41 12 f1 fm1 true; mkMoveInput 42 13 (f32_lit 3 10) f0 false].

Lemma input_packet_roundtrip_witness :
  match @encode_packet _ (@InputPacket_codec plain_platform) sample_input_packet (repeat 0 64) 64 with
  | Some bytes =>
      @decode_packet _ (@InputPacket_codec plain_platform) bytes = Some (@wire_packet plain_platform sample_input_packet)
  | None => False
  end.
Proof.
  destruct (@input_packet_roundtrip plain_platform sample_input_packet (repeat 0 64) 64) as (A & B & _).
  - split_and!; [split; cbn; lia|split; cbn; lia|cbn; lia|].
    repeat apply Forall_cons_2; try apply Forall_nil_2;
      (split; [split; cbn; lia|repeat split; vm_compute; reflexivity]).
  - split_and!; [apply Forall_zeros|cbn; lia|cbn; lia|cbn; lia].
  - destruct (@encode_packet _ (@InputPacket_codec plain_platform) sample_input_packet (repeat 0 64) 64);
      [by apply B|apply A; [cbn; lia|done]].
Defined.

(** C36. Any datagram is safe to decode: whatever the bytes, the decoder either
    refuses or returns a packet whose words fit their width, whose commands all
    have tick 0 and axes that are wire levels (so finite and between -1 and 1),
    and which has at most 31 of them, the width of the count field. *)
Theorem decode_input_packet_safe `{Platform} (data : list Z) :
  Forall (fits 8) data -> 8 * Z.of_nat (length data) < 2 ^ 31 ->
  match decode_packet data with
  | Some p =>
      received_packet p /\
      Forall (fun i => within fm1 f1 (mi_move_x i) /\ within fm1 f1 (mi_move_y i) /\ quantize_input i = i)
        (ip_inputs p)
  | None => True
  end.
Proof.
  intros Hd Hl. destruct (reader_wf_new data Hd Hl) as [Hr _].
  pose proof (decode_input_packet_yields _ Hr) as [Hy _]. unfold decode_packet.
  cbn [codec_read InputPacket_codec]. destruct (fst (decode_input_packet _)) as [p|]; [|done].
  split; [done|]. destruct Hy as (_ & _ & _ & Hi). eapply Forall_impl; [exact Hi|].
  intros i (_ & _ & Hlv). split_and!; [| |by apply quantize_level_input];
    destruct Hlv as (kx & ky & Hkx & Hky & Ex & Ey); rewrite ?Ex, ?Ey; by apply axis_level_spec.
Qed.

Lemma decode_input_packet_safe_witness :
  match @decode_packet _ (@InputPacket_codec plain_platform) (1 :: repeat 255 200) with
  | Some p => received_packet p
  | None => False
  end.
Proof.
  pose proof (@decode_input_packet_safe plain_platform (1 :: repeat 255 200)
    ltac:(repeat constructor; lia) ltac:(cbn; lia)) as H.
  assert (E : @decode_packet _ (@InputPacket_codec plain_platform) (1 :: repeat 255 200) <> None)
    by (vm_compute; discriminate).
  destruct (@decode_packet _ (@InputPacket_codec plain_platform) (1 :: repeat 255 200)) as [p|];
    [exact (proj1 H)|exact (E eq_refl)].
Defined.

(** The handshake credential: it encodes exactly when the player id has
    between 1 and 20 bytes, always into the 32 bytes of the connect token; the
    token decodes to the same credential; and every token that decodes at all
    carries a player id of 1 to 20 bytes. *)
Theorem credential_roundtrip (c : ConnectCredential) :
  fits 64 (cc_token c) ->
  (encode_credential c <> None <-> 1 <= string_size (cc_player_id c) <= kMaxPlayerIdBytes) /\
  (forall token, encode_credential c = Some token ->
     length token = 32%nat /\ Forall (fits 8) token /\ decode_credential token = Some c) /\
  (forall token c', length token = 32%nat -> Forall (fits 8) token -> decode_credential token = Some c' ->
     1 <= string_size (cc_player_id c') <= kMaxPlayerIdBytes).
Proof.
  intros Ht.
  assert (Hsz : forall s, string_empty s = false <-> 1 <= string_size s).
  { intros []; unfold string_size; cbn [string_empty String.length]; split; try done; lia. }
  assert (Hnone : ~ credential_ok c -> encode_credential c = None).
  { intros Hno. unfold encode_credential. destruct (string_empty _) eqn:He; [done|].
    destruct (Z.ltb_spec kMaxPlayerIdBytes (string_size (cc_player_id c))); [done|]. by destruct Hno. }
  assert (Hdec : forall token, length token = 32%nat -> Forall (fits 8) token ->
            reader_wf (BitReader_new token kConnectTokenBytes) /\
            rest (BitReader_new token kConnectTokenBytes) = bits_of_bytes token).
  { intros token Hl Hf. pose proof (reader_wf_new token Hf) as R. rewrite Hl in R. apply R. lia. }
  assert (Hok : credential_ok c <-> 1 <= string_size (cc_player_id c) <= kMaxPlayerIdBytes).
  { unfold credential_ok. rewrite Hsz. split; [tauto|]. intros []. auto. }
  split_and!.
  - rewrite <- Hok. split; [intros Hn; destruct (string_empty (cc_player_id c)) eqn:E1|].
    + unfold encode_credential in Hn. by rewrite E1 in Hn.
    + apply Hok. rewrite <- Hsz. split; [done|]. unfold encode_credential in Hn. rewrite E1 in Hn. cbn [orb] in Hn.
      by destruct (Z.ltb_spec kMaxPlayerIdBytes (string_size (cc_player_id c))).
    + intros Hc. by destruct (credential_token c Hc) as (token & -> & _).
  - intros token E. assert (Hc : credential_ok c).
    { destruct (decide (1 <= string_size (cc_player_id c) <= kMaxPlayerIdBytes)); [by apply Hok|].
      rewrite Hnone in E; [done|]. by rewrite Hok. }
    destruct (credential_token c Hc) as (token' & E' & Hl & Hf & tl & Hbits). assert (token' = token) as -> by congruence.
    split; [done|]. split; [done|]. destruct (Hdec token Hl Hf) as [Hr Hrest]. rewrite Hbits in Hrest.
    unfold decode_credential. by rewrite (read_credential_parses c Hc _ _ Hr eq_refl Hrest).
  - intros token c' Hl Hf E. destruct (Hdec token Hl Hf) as [Hr _].
    pose proof (read_credential_yields _ Hr) as [Hy _]. unfold decode_credential in E. rewrite E in Hy.
    destruct Hy as (_ & H1 & H2). by rewrite <- Hsz.
Qed.

Lemma credential_roundtrip_witness :
  let c := mkConnectCredential kMigration (2 ^ 63 + 12345) "player-0123456789ab" in
  encode_credential c <> None /\
  forall token, encode_credential c = Some token -> decode_credential token = Some c.
Proof.
  cbv zeta. pose proof (credential_roundtrip (mkConnectCredential kMigration (2 ^ 63 + 12345) "player-0123456789ab")
    ltac:(split; cbn; lia)) as (A & B & _).
  split; [apply A; vm_compute; split; discriminate|]. intros token E. by apply B.
Defined.

(** The reliable events round-trip: a world configuration and a migration
    redirect are decoded to exactly the event that was encoded, and encoding
    succeeds exactly when the bits fit the caller's buffer. *)
Theorem events_roundtrip (e : WorldConfigEvent) (m : MigrateRedirectEvent) (buffer : list Z) (capacity : Z) :
  world_config_ok e -> migrate_redirect_ok m -> buffer_ok buffer capacity ->
  (encode_packet e buffer capacity <> None <-> Z.of_nat (length (world_config_bits e)) <= capacity * 8) /\
  (forall bytes, encode_packet e buffer capacity = Some bytes -> decode_packet bytes = Some e) /\
  (encode_packet m buffer capacity <> None <-> Z.of_nat (length (migrate_redirect_bits m)) <= capacity * 8) /\
  (forall bytes, encode_packet m buffer capacity = Some bytes -> decode_packet bytes = Some m).
Proof.
  intros He Hm Hb. pose proof (codec_roundtrip e buffer capacity) as R1.
  pose proof (codec_roundtrip m buffer capacity) as R2.
  destruct (R1 He Hb) as [A1 B1], (R2 Hm Hb) as [A2 B2].
  split_and!; try done; intros bytes E; [by apply B1|by apply B2].
Qed.

Definition sample_world_config : WorldConfigEvent :=
  mkWorldConfigEvent 17 1000 3 (f32_of_Z 2048) 30 "shard-2".
Definition sample_redirect : MigrateRedirectEvent :=
  mkMigrateRedirectEvent (2 ^ 40 + 7) 5 "127.0.0.1:7001" "shard-3".

Lemma events_roundtrip_witness :
  (encode_packet sample_world_config (repeat 0 64) 64 <> None /\
   encode_packet sample_redirect (repeat 0 64) 64 <> None) /\
  forall bytes, encode_packet sample_redirect (repeat 0 64) 64 = Some bytes ->
    decode_packet bytes = Some sample_redirect.
Proof.
  destruct (events_roundtrip sample_world_config sample_redirect (repeat 0 64) 64) as (A & _ & B & C).
  - repeat split; try (vm_compute; discriminate); vm_compute; try lia; reflexivity.
  - repeat split; try (vm_compute; discriminate); vm_compute; try lia; reflexivity.
  - split_and!; [apply Forall_zeros|cbn; lia|cbn; lia|cbn; lia].
  - split; [split; [apply A|apply B]; vm_compute; discriminate|exact C].
Defined.

(** The decoder does not enforce [kMaxInputsPerPacket]: the count field is five
    bits wide and [read_ranged] has no upper check. *)
Example decode_input_packet_over_limit :
  match @decode_packet _ (@InputPacket_codec plain_platform) (1 :: repeat 255 200) with
  | Some p => Z.of_nat (length (ip_inputs p)) = 31 /\ kMaxInputsPerPacket < 31
  | None => False
  end.
Proof. vm_compute. split; reflexivity. Qed.
