(* ===== verification/Morton.v ===== *)
(** * Morton: Z-order codes ([src/src/spatial/morton.h])

    The bit-spreading routines on 16- and 32-bit words.  The specification is
    bitwise: bit [2 i] of a code is bit [i] of x, bit [2 i + 1] is bit [i] of y. *)

From S2P Require Import Prelude.
From Stdlib Require Import ZArith Lia Bool Btauto.
From stdpp Require Import base tactics numbers list option.
#[local] Open Scope Z_scope.

Definition spread_bits (value : Z) : Z :=
  let x := value in
  let x := Z.land (Z.lor x (u32 (Z.shiftl x 8))) 0x00ff00ff in
  let x := Z.land (Z.lor x (u32 (Z.shiftl x 4))) 0x0f0f0f0f in
  let x := Z.land (Z.lor x (u32 (Z.shiftl x 2))) 0x33333333 in
  let x := Z.land (Z.lor x (u32 (Z.shiftl x 1))) 0x55555555 in
  x.

Definition compact_bits (value : Z) : Z :=
  let x := Z.land value 0x55555555 in
  let x := Z.land (Z.lor x (Z.shiftr x 1)) 0x33333333 in
  let x := Z.land (Z.lor x (Z.shiftr x 2)) 0x0f0f0f0f in
  let x := Z.land (Z.lor x (Z.shiftr x 4)) 0x00ff00ff in
  let x := Z.land (Z.lor x (Z.shiftr x 8)) 0x0000ffff in
  u16 x.

Definition morton_encode (cell_x cell_y : Z) : Z :=
  Z.lor (spread_bits cell_x) (u32 (Z.shiftl (spread_bits cell_y) 1)).

Definition morton_decode (code : Z) : Z * Z :=
  (compact_bits code, compact_bits (Z.shiftr code 1)).

(** ** Bits of one step *)
Lemma wrap_bit w z n : 0 <= n < w -> Z.testbit (wrap w z) n = Z.testbit z n.
Proof. intros Hn. unfold wrap. by rewrite Z.mod_pow2_bits_low by lia. Qed.

Lemma spread_step_bit x k mask n :
  0 <= n < 32 -> 0 <= k ->
  Z.testbit (Z.land (Z.lor x (u32 (Z.shiftl x k))) mask) n =
  (Z.testbit x n || Z.testbit x (n - k)) && Z.testbit mask n.
Proof.
  intros Hn Hk. rewrite Z.land_spec, Z.lor_spec, wrap_bit, Z.shiftl_spec by lia. done.
Qed.

Lemma compact_step_bit x k mask n :
  0 <= n -> 0 <= k ->
  Z.testbit (Z.land (Z.lor x (Z.shiftr x k)) mask) n =
  (Z.testbit x n || Z.testbit x (n + k)) && Z.testbit mask n.
Proof. intros Hn Hk. by rewrite Z.land_spec, Z.lor_spec, Z.shiftr_spec by lia. Qed.

Lemma fits_high w v n : fits w v -> w <= n -> 0 <= w -> Z.testbit v n = false.
Proof.
  intros Hv Hn Hw. rewrite <- (Z.mod_small v (2 ^ w)) by done. apply Z.mod_pow2_bits_high. lia.
Qed.

Lemma land_fits w a m : 0 <= w -> 0 <= a -> fits w m -> fits w (Z.land a m).
Proof.
  intros Hw Ha Hm. rewrite <- (Z.mod_small m (2 ^ w)) by done. rewrite <- Z.land_ones, Z.land_assoc by lia.
  rewrite Z.land_ones by lia. apply Z.mod_pos_bound, Z.pow_pos_nonneg; lia.
Qed.

Lemma eq_of_bits w a b : 0 <= w -> fits w a -> fits w b ->
  (forall n, 0 <= n < w -> Z.testbit a n = Z.testbit b n) -> a = b.
Proof.
  intros Hw Ha Hb H. apply Z.bits_inj'. intros n Hn. destruct (Z.lt_ge_cases n w); [by apply H|].
  by rewrite !(fits_high w) by done.
Qed.

(** Case analysis on a bit position below a small bound. *)
Ltac each_bit n bound :=
  let H := fresh in
  assert (H : n ∈ seqZ 0 bound) by (apply elem_of_seqZ; lia);
  repeat (apply elem_of_cons in H as [->|H]); [..|by apply elem_of_nil in H].

Lemma spread_fits v : 0 <= v -> fits 32 (spread_bits v).
Proof.
  intros Hv. unfold spread_bits. apply land_fits; [lia| |split; lia].
  apply Z.lor_nonneg. split; [|apply wrap_range; lia].
  apply Z.land_nonneg. right. lia.
Qed.

Lemma compact_fits v : fits 16 (compact_bits v).
Proof. apply wrap_range. lia. Qed.

Lemma spread_step_true x k mask n :
  0 <= n < 32 -> 0 <= k -> Z.testbit mask n = true ->
  Z.testbit (Z.land (Z.lor x (u32 (Z.shiftl x k))) mask) n = Z.testbit x n || Z.testbit x (n - k).
Proof. intros Hn Hk Hm. by rewrite spread_step_bit, Hm, andb_true_r by lia. Qed.

Lemma spread_step_false x k mask n :
  0 <= n < 32 -> 0 <= k -> Z.testbit mask n = false ->
  Z.testbit (Z.land (Z.lor x (u32 (Z.shiftl x k))) mask) n = false.
Proof. intros Hn Hk Hm. by rewrite spread_step_bit, Hm, andb_false_r by lia. Qed.

Lemma compact_step_true x k mask n :
  0 <= n -> 0 <= k -> Z.testbit mask n = true ->
  Z.testbit (Z.land (Z.lor x (Z.shiftr x k)) mask) n = Z.testbit x n || Z.testbit x (n + k).
Proof. intros Hn Hk Hm. by rewrite compact_step_bit, Hm, andb_true_r by lia. Qed.

Lemma compact_step_false x k mask n :
  0 <= n -> 0 <= k -> Z.testbit mask n = false ->
  Z.testbit (Z.land (Z.lor x (Z.shiftr x k)) mask) n = false.
Proof. intros Hn Hk Hm. by rewrite compact_step_bit, Hm, andb_false_r by lia. Qed.

(** Rewrites a bit of a masked shift with every number a literal. *)
Ltac fold_index e := let n := eval vm_compute in e in change e with n.

Ltac bit_step :=
  match goal with
  | |- context [Z.testbit ?x (?a - ?b)] => fold_index (a - b)
  | |- context [Z.testbit ?x (?a + ?b)] => fold_index (a + b)
  | |- context [Z.testbit ?x (Zneg ?p)] => change (Z.testbit x (Zneg p)) with false
  | |- context [Z.testbit (Z.land (Z.lor ?x _) ?m) ?n] =>
      first [ rewrite (spread_step_true x _ m n) by (reflexivity || lia)
            | rewrite (spread_step_false x _ m n) by (reflexivity || lia)
            | rewrite (compact_step_true x _ m n) by (reflexivity || lia)
            | rewrite (compact_step_false x _ m n) by (reflexivity || lia) ]
  end; rewrite ?orb_false_r, ?orb_false_l.

Lemma spread_bit v n : fits 16 v -> 0 <= n < 32 ->
  Z.testbit (spread_bits v) n = if Z.even n then Z.testbit v (n / 2) else false.
Proof.
  intros Hv Hn. unfold spread_bits. each_bit n 32;
    cbn [Z.even]; repeat bit_step;
    rewrite ?(fits_high 16 v) by (done || lia); rewrite ?orb_false_r, ?orb_false_l; reflexivity.
Qed.

Lemma compact_bit v n : 0 <= n < 16 -> Z.testbit (compact_bits v) n = Z.testbit v (2 * n).
Proof.
  intros Hn. unfold compact_bits. rewrite wrap_bit by lia. each_bit n 16;
    repeat bit_step; rewrite !Z.land_spec; rewrite ?andb_false_r, ?orb_false_r, ?orb_false_l;
    change (Z.testbit 0x55555555 _) with true; rewrite ?andb_true_r; reflexivity.
Qed.

(** ** The interleaving *)
Lemma encode_fits x y : fits 16 x -> fits 16 y -> fits 32 (morton_encode x y).
Proof.
  intros [Hx _] _. apply fits_lor; [lia|by apply spread_fits|apply wrap_range; lia].
Qed.

Lemma encode_bit x y n : fits 16 x -> fits 16 y -> 0 <= n < 32 ->
  Z.testbit (morton_encode x y) n = if Z.even n then Z.testbit x (n / 2) else Z.testbit y (n / 2).
Proof.
  intros Hx Hy Hn. unfold morton_encode. rewrite Z.lor_spec, wrap_bit, Z.shiftl_spec, spread_bit by (done || lia).
  destruct (Z.eq_dec n 0) as [->|Hn0]; [cbn; by rewrite orb_false_r|].
  rewrite spread_bit by (done || lia).
  replace (Z.even (n - 1)) with (negb (Z.even n)) by (by rewrite Z.sub_1_r, Z.even_pred, Z.negb_even).
  destruct (Z.even n) eqn:E; cbn [negb]; [by rewrite orb_false_r|]. cbn [orb]. f_equal.
  rewrite <- Z.negb_odd, negb_false_iff in E. apply Z.odd_spec in E as [k ->].
  replace (2 * k + 1 - 1) with (k * 2) by lia. rewrite Z.div_mul by lia.
  symmetry. replace (2 * k + 1) with (1 + k * 2) by lia. by rewrite Z.div_add.
Qed.

Lemma decode_encode x y : fits 16 x -> fits 16 y -> morton_decode (morton_encode x y) = (x, y).
Proof.
  intros Hx Hy. unfold morton_decode. f_equal.
  - apply (eq_of_bits 16); [lia|apply compact_fits|done|]. intros n Hn.
    rewrite compact_bit, encode_bit by (done || lia). rewrite Z.even_mul. cbn [Z.even orb].
    by rewrite Z.mul_comm, Z.div_mul.
  - apply (eq_of_bits 16); [lia|apply compact_fits|done|]. intros n Hn.
    rewrite compact_bit, Z.shiftr_spec, encode_bit by (done || lia).
    rewrite Z.even_add, Z.even_mul. cbn [Z.even orb Bool.eqb].
    replace (2 * n + 1) with (1 + n * 2) by lia. by rewrite Z.div_add.
Qed.

Lemma encode_decode c : fits 32 c -> let '(x, y) := morton_decode c in morton_encode x y = c.
Proof.
  intros Hc. unfold morton_decode.
  apply (eq_of_bits 32); [lia|apply encode_fits; apply compact_fits|done|]. intros n Hn.
  pose proof (Z.div_mod n 2 ltac:(lia)) as Hd. rewrite Zmod_even in Hd.
  rewrite encode_bit by (apply compact_fits || lia).
  destruct (Z.even n); rewrite compact_bit, ?Z.shiftr_spec by lia; f_equal; lia.
Qed.

(** A word is below [2 ^ k] when its bits from [k] on are clear. *)
Lemma fits_of_bits w k v : 0 <= k <= w -> fits w v ->
  (forall n, k <= n < w -> Z.testbit v n = false) -> fits k v.
Proof.
  intros Hk Hv H. assert (v = v mod 2 ^ k) as ->; [|apply Z.mod_pos_bound, Z.pow_pos_nonneg; lia].
  apply Z.bits_inj'. intros n Hn. destruct (Z.lt_ge_cases n k); [by rewrite Z.mod_pow2_bits_low by lia|].
  rewrite Z.mod_pow2_bits_high by lia. destruct (Z.lt_ge_cases n w); [by apply H|by apply (fits_high w); try lia].
Qed.

Lemma encode_tile x y k : 0 <= k <= 16 -> fits k x -> fits k y -> fits (2 * k) (morton_encode x y).
Proof.
  intros Hk Hx Hy.
  assert (H16 : 2 ^ k <= 2 ^ 16) by (apply Z.pow_le_mono_r; lia).
  assert (fits 16 x /\ fits 16 y) as [Hx16 Hy16] by (unfold fits in *; lia).
  apply (fits_of_bits 32); [lia|by apply encode_fits|]. intros n Hn.
  rewrite encode_bit by (done || lia). assert (k <= n / 2) by (apply Z.div_le_lower_bound; lia).
  destruct (Z.even n); apply (fits_high k); try done; lia.
Qed.

Lemma decode_tile c k : 0 <= k <= 16 -> fits (2 * k) c ->
  fits k (fst (morton_decode c)) /\ fits k (snd (morton_decode c)).
Proof.
  intros Hk Hc. unfold morton_decode. cbn [fst snd].
  split; apply (fits_of_bits 16); try apply compact_fits; try lia; intros n Hn;
    rewrite compact_bit, ?Z.shiftr_spec by lia; apply (fits_high (2 * k)); try done; lia.
Qed.

Lemma encode_inj x y x' y' : fits 16 x -> fits 16 y -> fits 16 x' -> fits 16 y' ->
  morton_encode x y = morton_encode x' y' -> x = x' /\ y = y'.
Proof.
  intros Hx Hy Hx' Hy' E. apply (f_equal morton_decode) in E. rewrite !decode_encode in E by done.
  by simplify_eq.
Qed.

(** ** Theorems *)

(** C37. A Morton code is the bit interleaving of its coordinates, and the codes
    of a [2^k] by [2^k] grid tile an array of [4^k] cells exactly: decoding
    inverts encoding in both directions, coordinates below [2^k] have codes
    below [4^k], and every index below [4^k] is the code of one such cell. *)
Theorem morton_tiles (k : Z) :
  0 <= k <= 16 ->
  (forall x y, fits k x -> fits k y ->
     (forall i, 0 <= i < 16 ->
        Z.testbit (morton_encode x y) (2 * i) = Z.testbit x i /\
        Z.testbit (morton_encode x y) (2 * i + 1) = Z.testbit y i) /\
     0 <= morton_encode x y < 4 ^ k /\ morton_decode (morton_encode x y) = (x, y)) /\
  (forall c, 0 <= c < 4 ^ k ->
     exists x y, fits k x /\ fits k y /\ morton_decode c = (x, y) /\ morton_encode x y = c).
Proof.
  intros Hk. assert (H16 : 2 ^ k <= 2 ^ 16) by (apply Z.pow_le_mono_r; lia).
  assert (H4 : 4 ^ k = 2 ^ (2 * k)) by (rewrite Z.pow_mul_r by lia; done).
  assert (H32 : 2 ^ (2 * k) <= 2 ^ 32) by (apply Z.pow_le_mono_r; lia). rewrite H4. split.
  - intros x y Hx Hy. assert (fits 16 x /\ fits 16 y) as [Hx16 Hy16] by (unfold fits in *; lia).
    split; [|split; [by apply encode_tile|by apply decode_encode]].
    intros i Hi. rewrite !encode_bit by (done || lia).
    rewrite Z.even_add, !Z.even_mul. cbn [Z.even orb Bool.eqb].
    replace (2 * i + 1) with (1 + i * 2) by lia. rewrite Z.div_add, (Z.mul_comm 2), Z.div_mul by lia. done.
  - intros c Hc. destruct (decode_tile c k Hk Hc). pose proof (encode_decode c ltac:(unfold fits; lia)) as E.
    destruct (morton_decode c) as [x y] eqn:D. by exists x, y.
Qed.

Lemma morton_tiles_witness :
  0 <= morton_encode 5 9 < 4 ^ 4 /\ morton_decode (morton_encode 5 9) = (5, 9).
Proof.
  destruct (morton_tiles 4 ltac:(lia)) as [H _].
  apply (H 5 9); split; lia.
Defined.
