(* ===== verification/Grid.v ===== *)
(** * Grid: the spatial index ([src/src/spatial/grid.h], [grid.cpp])

    [SpatialGrid] buckets entity indices by Morton code with a counting sort,
    answers circle queries by cells and walks candidate pairs with the
    half-neighbourhood trick.  Array indices are [nat]: the grid has at most
    2^20 cells and the entity count is the length of an array, so the 32-bit
    counters of the source cannot wrap.  [MORTON_CHECK] aborts the process;
    here the operation returns [None]. *)

From S2P Require Import Prelude F32 Morton.
From Stdlib Require Import ZArith Lia Bool Floats.SpecFloat.
From stdpp Require Import base tactics numbers list option sorting.
#[local] Open Scope Z_scope.

Record SpatialGrid := mkSpatialGrid {
  g_world_size : f32;
  g_cell_size : f32;
  g_inv_cell_size : f32;
  g_cells_per_axis : Z;
  g_cell_start : list nat;
  g_sorted : list nat;
  g_codes : list nat;
  g_cursor : list nat
}.

Definition SpatialGrid_empty : SpatialGrid := mkSpatialGrid f0 f0 f0 0 [] [] [] [].

Definition cell_count (g : SpatialGrid) : Z := u32 (g_cells_per_axis g * g_cells_per_axis g).
Definition entity_count (g : SpatialGrid) : nat := length (g_sorted g).

Definition configure_ok (cells_per_axis : Z) : bool :=
  (0 <? cells_per_axis) && (Z.land cells_per_axis (cells_per_axis - 1) =? 0) && (cells_per_axis <=? 1024).

Definition grid_configure (g : SpatialGrid) (world_size : f32) (cells_per_axis : Z) : option SpatialGrid :=
  if negb (configure_ok cells_per_axis) then None else
  let cell_size := fdiv world_size (f32_of_Z cells_per_axis) in
  Some (mkSpatialGrid world_size cell_size (fdiv f1 cell_size) cells_per_axis
          (replicate (S (Z.to_nat (u32 (cells_per_axis * cells_per_axis)))) 0%nat) [] [] (g_cursor g)).

Definition grid_clear (g : SpatialGrid) : SpatialGrid :=
  mkSpatialGrid (g_world_size g) (g_cell_size g) (g_inv_cell_size g) (g_cells_per_axis g)
    (replicate (length (g_cell_start g)) 0%nat) [] [] [].

Section Cells.
Context `{Platform}.

Definition cell_x_of (g : SpatialGrid) (x : f32) : Z :=
  let cell := f32_to_i32 (fmul x (g_inv_cell_size g)) in
  let cell := if cell <? 0 then 0 else cell in
  let cell := if i32 (g_cells_per_axis g) <=? cell then i32 (g_cells_per_axis g) - 1 else cell in
  u16 cell.

Definition cell_of (g : SpatialGrid) (position : Vec2) : Z :=
  morton_encode (cell_x_of g (vec_x position)) (cell_x_of g (vec_y position)).

(** *** The counting sort *)

(** [++cell_start_[code + 1]] for every code. *)
Definition count_pass (codes : list nat) (cell_start : list nat) : list nat :=
  foldl (fun cs code => <[S code := S (cs !!! S code)]> cs) cell_start codes.

(** [cell_start_[c + 1] += cell_start_[c]] for [c] from 0 to [cells - 1]. *)
Definition prefix_pass (cells : nat) (cell_start : list nat) : list nat :=
  foldl (fun cs c => <[S c := (cs !!! S c + cs !!! c)%nat]> cs) cell_start (seq 0 cells).

(** [sorted_[cursor_[codes_[i]]++] = i] for every [i]. *)
Definition scatter_step (codes : list nat) (st : list nat * list nat) (i : nat) : list nat * list nat :=
  let '(sorted, cursor) := st in
  let code := codes !!! i in
  (<[cursor !!! code := i]> sorted, <[code := S (cursor !!! code)]> cursor).

Definition scatter_pass (codes : list nat) (st : list nat * list nat) : list nat * list nat :=
  foldl (scatter_step codes) st (seq 0 (length codes)).

(** [build(positions, count)]: [positions] holds the [count] entities. *)
Definition grid_build (g : SpatialGrid) (positions : list Vec2) : SpatialGrid :=
  if g_cells_per_axis g =? 0 then g else
  let cells := Z.to_nat (cell_count g) in
  let codes := (fun p => Z.to_nat (cell_of g p)) <$> positions in
  let cell_start := prefix_pass cells (count_pass codes (replicate (S cells) 0%nat)) in
  let cursor := take (length cell_start - 1) cell_start in
  let '(sorted, cursor) := scatter_pass codes (resize (length positions) 0%nat (g_sorted g), cursor) in
  mkSpatialGrid (g_world_size g) (g_cell_size g) (g_inv_cell_size g) (g_cells_per_axis g)
    cell_start sorted codes cursor.

Definition occupancy (g : SpatialGrid) (code : nat) : nat :=
  (g_cell_start g !!! S code - g_cell_start g !!! code)%nat.

Definition peak_cell_occupancy (g : SpatialGrid) : nat :=
  foldl (fun peak c => let occ := occupancy g c in if (peak <? occ)%nat then occ else peak) 0%nat
    (seq 0 (length (g_cell_start g) - 1)).

(** [sorted_[begin .. end)] of one cell. *)
Definition bucket (g : SpatialGrid) (code : nat) : list nat :=
  let begin := g_cell_start g !!! code in
  let end_ := g_cell_start g !!! S code in
  take (end_ - begin) (drop begin (g_sorted g)).

(** *** Circle queries *)
Definition query_radius (g : SpatialGrid) (center : Vec2) (radius : f32) : list nat :=
  if g_cells_per_axis g =? 0 then [] else
  let min_x := cell_x_of g (fsub (vec_x center) radius) in
  let max_x := cell_x_of g (fadd (vec_x center) radius) in
  let min_y := cell_x_of g (fsub (vec_y center) radius) in
  let max_y := cell_x_of g (fadd (vec_y center) radius) in
  y ← seqZ min_y (max_y - min_y + 1);
  let row := u32 (Z.shiftl (spread_bits y) 1) in
  x ← seqZ min_x (max_x - min_x + 1);
  let code := Z.lor row (spread_bits x) in
  bucket g (Z.to_nat code).
End Cells.

(** *** Pairs *)

(** The pairs of one bucket: [for i, for j = i + 1]. *)
Fixpoint pairs_within (l : list nat) : list (nat * nat) :=
  match l with
  | [] => []
  | a :: l => ((fun b => (a, b)) <$> l) ++ pairs_within l
  end.

Definition pairs_across (l1 l2 : list nat) : list (nat * nat) :=
  a ← l1; b ← l2; [(a, b)].

Definition kOffsets : list (Z * Z) := [(1, 0); (-1, 1); (0, 1); (1, 1)].

Definition in_grid (g : SpatialGrid) (nx ny : Z) : bool :=
  negb ((nx <? 0) || (ny <? 0) || (i32 (g_cells_per_axis g) <=? nx) || (i32 (g_cells_per_axis g) <=? ny)).

(** The pairs the loops reach from cell [(x, y)], in their order. *)
Definition cell_pairs (g : SpatialGrid) (x y : Z) : list (nat * nat) :=
  let here := bucket g (Z.to_nat (morton_encode x y)) in
  match here with
  | [] => []
  | _ =>
      pairs_within here ++
      (offset ← kOffsets;
       let nx := x + fst offset in
       let ny := y + snd offset in
       if in_grid g nx ny
       then pairs_across here (bucket g (Z.to_nat (morton_encode (u16 nx) (u16 ny))))
       else [])
  end.

Definition candidate_pairs (g : SpatialGrid) : list (nat * nat) :=
  if g_cells_per_axis g =? 0 then [] else
  y ← seqZ 0 (g_cells_per_axis g); x ← seqZ 0 (g_cells_per_axis g); cell_pairs g x y.

(** [for_each_pair]: the callback may move the entities, so the distance test
    reads the positions of the current state. *)
Definition pair_step {S} (positions : S -> list Vec2) (radius_sq : f32) (fn : nat -> nat -> S -> S)
    (s : S) (ab : nat * nat) : S :=
  let '(a, b) := ab in
  match positions s !! a, positions s !! b with
  | Some pa, Some pb => if fleb (distance_sq pa pb) radius_sq then fn a b s else s
  | _, _ => s
  end.

Definition for_each_pair {S} (g : SpatialGrid) (positions : S -> list Vec2) (radius : f32)
    (fn : nat -> nat -> S -> S) (s : S) : option S :=
  if g_cells_per_axis g =? 0 then Some s
  else if negb (fleb radius (g_cell_size g)) then None
  else Some (foldl (pair_step positions (fmul radius radius) fn) s (candidate_pairs g)).

(** ** The counting sort is a stable bucketing *)
Section CountingSort.
Context (codes : list nat) (cells : nat).
Context (Hcodes : Forall (fun c => (c < cells)%nat) codes).

Definition cnt (c : nat) (l : list nat) : nat := length (filter (fun x => x = c) l).
Definition start (c : nat) : nat := length (filter (fun x => (x < c)%nat) codes).

(** The entities of a cell, in index order, among the first [k]. *)
Definition members (c k : nat) : list nat := filter (fun i => codes !!! i = c) (seq 0 k).

Lemma cnt_cons c x l : cnt c (x :: l) = ((if decide (x = c) then 1 else 0) + cnt c l)%nat.
Proof. unfold cnt. rewrite filter_cons. by destruct (decide (x = c)). Qed.

Lemma cnt_snoc c x l : cnt c (l ++ [x]) = (cnt c l + if decide (x = c) then 1 else 0)%nat.
Proof. unfold cnt. rewrite filter_app, length_app, filter_cons, filter_nil. by destruct (decide (x = c)). Qed.

Lemma start_S c : start (S c) = (start c + cnt c codes)%nat.
Proof.
  unfold start, cnt. clear Hcodes. induction codes as [|x l IH]; [done|]. rewrite !filter_cons.
  destruct (decide (x < S c)%nat), (decide (x < c)%nat), (decide (x = c)); try lia; cbn [length]; lia.
Qed.

Lemma start_0 : start 0 = 0%nat.
Proof. unfold start. clear Hcodes. induction codes as [|x l IH]; [done|]. by rewrite filter_cons_False by lia. Qed.

Lemma start_all : start cells = length codes.
Proof.
  unfold start. induction Hcodes as [|x l Hx Hl IH]; [done|].
  rewrite filter_cons_True by done. cbn [length]. by rewrite IH.
Qed.

Lemma start_mono c c' : (c <= c')%nat -> (start c <= start c')%nat.
Proof. induction 1; [done|]. rewrite start_S. lia. Qed.

Lemma count_pass_spec l cs :
  length cs = S cells -> Forall (fun c => (c < cells)%nat) l ->
  length (count_pass l cs) = S cells /\ count_pass l cs !!! 0%nat = cs !!! 0%nat /\
  forall c, (c < cells)%nat -> count_pass l cs !!! S c = (cs !!! S c + cnt c l)%nat.
Proof.
  intros Hlen Hl. revert cs Hlen. induction Hl as [|x l Hx _ IH]; intros cs Hlen.
  { split_and!; [done..|]. intros c _. cbn. lia. }
  change (count_pass (x :: l) cs) with (count_pass l (<[S x := S (cs !!! S x)]> cs)).
  destruct (IH (<[S x := S (cs !!! S x)]> cs)) as (A & B & C); [by rewrite length_insert|].
  split_and!; [done| |].
  - rewrite B. by rewrite list_lookup_total_insert_ne.
  - intros c Hc. rewrite C, cnt_cons by done. destruct (decide (x = c)) as [->|Hne].
    + rewrite list_lookup_total_insert_eq by lia. lia.
    + rewrite list_lookup_total_insert_ne by lia. lia.
Qed.

Lemma prefix_pass_spec cs :
  length cs = S cells -> cs !!! 0%nat = 0%nat ->
  (forall c, (c < cells)%nat -> cs !!! S c = cnt c codes) ->
  length (prefix_pass cells cs) = S cells /\
  forall c, (c <= cells)%nat -> prefix_pass cells cs !!! c = start c.
Proof.
  intros Hlen H0 Hc.
  assert (H : forall k, (k <= cells)%nat ->
    length (prefix_pass k cs) = S cells /\
    (forall c, (c <= k)%nat -> prefix_pass k cs !!! c = start c) /\
    (forall c, (k < c <= cells)%nat -> prefix_pass k cs !!! c = cs !!! c)).
  { induction k as [|k IH]; intros Hk.
    - cbn. split_and!; [done| |done]. intros c Hc0. by replace c with 0%nat by lia; rewrite start_0.
    - destruct IH as (A & B & C); [lia|]. unfold prefix_pass in *.
      rewrite seq_S, foldl_app, Nat.add_0_l. cbn [foldl].
      split_and!; [by rewrite length_insert| |].
      + intros c Hck. destruct (decide (c = S k)) as [->|].
        * rewrite list_lookup_total_insert_eq by lia. rewrite (C (S k)), (B k), Hc, start_S by lia. lia.
        * rewrite list_lookup_total_insert_ne by lia. apply B. lia.
      + intros c Hck. rewrite list_lookup_total_insert_ne by lia. apply C. lia. }
  destruct (H cells) as (A & B & _); [done|]. done.
Qed.

Lemma members_S c k : members c (S k) = members c k ++ (if decide (codes !!! k = c) then [k] else []).
Proof.
  unfold members. by rewrite seq_S, filter_app, Nat.add_0_l.
Qed.

Lemma length_members c k : (k <= length codes)%nat -> length (members c k) = cnt c (take k codes).
Proof.
  induction k as [|k IH]; intros Hk; [done|].
  rewrite members_S, length_app, IH by lia. destruct (lookup_lt_is_Some_2 codes k) as [x Hx]; [lia|].
  rewrite (take_S_r _ _ x Hx), cnt_snoc, (list_lookup_total_correct _ _ _ Hx). by destruct (decide (x = c)).
Qed.

Lemma cnt_take_le c k : (cnt c (take k codes) <= cnt c codes)%nat.
Proof.
  unfold cnt. rewrite <- (take_drop k codes) at 2. rewrite filter_app, length_app. lia.
Qed.

Lemma cnt_take_lt k x : codes !! k = Some x -> (cnt x (take k codes) < cnt x codes)%nat.
Proof.
  intros Hx. rewrite <- (take_drop_middle codes k x Hx) at 2. unfold cnt.
  rewrite filter_app, length_app, filter_cons_True by done. cbn [length]. lia.
Qed.

Lemma code_lt k x : codes !! k = Some x -> (x < cells)%nat.
Proof. intros Hx. by eapply Forall_lookup in Hcodes. Qed.

(** Slots of different cells are different. *)
Lemma slot_inj c c' j j' :
  (j < cnt c codes)%nat -> (j' < cnt c' codes)%nat -> (start c + j = start c' + j')%nat -> c = c' /\ j = j'.
Proof.
  intros Hj Hj' E. destruct (Nat.lt_trichotomy c c') as [Hlt|[->|Hlt]]; [|lia|].
  - pose proof (start_mono (S c) c' Hlt). rewrite start_S in H. lia.
  - pose proof (start_mono (S c') c Hlt). rewrite start_S in H. lia.
Qed.

Lemma slot_bound c j : (c < cells)%nat -> (j < cnt c codes)%nat -> (start c + j < length codes)%nat.
Proof. intros Hc Hj. pose proof (start_mono (S c) cells Hc). rewrite start_S, start_all in H. lia. Qed.

Lemma scatter_pass_spec sorted0 cursor0 :
  length sorted0 = length codes -> length cursor0 = cells ->
  (forall c, (c < cells)%nat -> cursor0 !!! c = start c) ->
  length (fst (scatter_pass codes (sorted0, cursor0))) = length codes /\
  forall c j i, (c < cells)%nat -> members c (length codes) !! j = Some i ->
    fst (scatter_pass codes (sorted0, cursor0)) !! (start c + j)%nat = Some i.
Proof.
  intros Hs Hcu Hst. unfold scatter_pass.
  assert (H : forall k, (k <= length codes)%nat ->
    let st := foldl (scatter_step codes) (sorted0, cursor0) (seq 0 k) in
    length (fst st) = length codes /\ length (snd st) = cells /\
    (forall c, (c < cells)%nat -> snd st !!! c = (start c + cnt c (take k codes))%nat) /\
    (forall c j i, (c < cells)%nat -> members c k !! j = Some i -> fst st !! (start c + j)%nat = Some i)).
  { induction k as [|k IH]; intros Hk st.
    - subst st. cbn [seq foldl fst snd]. split_and!; try done. intros c Hc. rewrite Hst by done.
      change (cnt c (take 0 codes)) with 0%nat. lia.
    - destruct IH as (A & B & C & D); [lia|]. subst st. rewrite seq_S, foldl_app, Nat.add_0_l.
      destruct (foldl _ _ (seq 0 k)) as [so cu]. cbn [foldl fst snd] in *. unfold scatter_step.
      destruct (lookup_lt_is_Some_2 codes k) as [x Hx]; [lia|].
      rewrite (list_lookup_total_correct _ _ _ Hx). cbn [fst snd].
      pose proof (code_lt k x Hx) as Hxc. rewrite (C x Hxc).
      pose proof (cnt_take_lt k x Hx) as Hlt. pose proof (slot_bound x _ Hxc Hlt) as Hb.
      split_and!; [by rewrite length_insert..| |].
      + intros c Hc. rewrite (take_S_r _ _ x Hx), cnt_snoc. destruct (decide (x = c)) as [->|].
        * rewrite list_lookup_total_insert_eq by lia. lia.
        * rewrite list_lookup_total_insert_ne by done. rewrite C by done. lia.
      + intros c j i Hc Hm. rewrite members_S in Hm.
        rewrite (list_lookup_total_correct _ _ _ Hx) in Hm.
        pose proof (length_members c k ltac:(lia)) as Hl.
        apply lookup_app_Some in Hm as [Hm|[Hge Hm]].
        * pose proof (lookup_lt_Some _ _ _ Hm) as Hj. pose proof (cnt_take_le c k).
          rewrite list_lookup_insert_ne; [by apply D|].
          intros E. symmetry in E. apply slot_inj in E as [-> E]; lia.
        * destruct (decide (x = c)) as [->|]; [|done].
          apply list_lookup_singleton_Some in Hm as [Hj <-].
          replace j with (cnt c (take k codes)) by lia. apply list_lookup_insert_eq. lia. }
  destruct (H (length codes)) as (A & _ & _ & D); [done|]. done.
Qed.
End CountingSort.

(** ** The grid invariant *)
#[export] Instance Vec2_inhabited : Inhabited Vec2 := populate Vec2_zero.

(** The cells per axis are a power of two up to 1024. *)
Definition grid_ok (g : SpatialGrid) : Prop :=
  exists k, 0 <= k <= 10 /\ g_cells_per_axis g = 2 ^ k.

Definition is_pow2 (c : Z) : bool := existsb (fun k => 2 ^ k =? c) (seqZ 0 11).

Lemma configure_ok_pow2 c : configure_ok c = true -> exists k, 0 <= k <= 10 /\ c = 2 ^ k.
Proof.
  unfold configure_ok. rewrite !andb_true_iff, Z.ltb_lt, Z.leb_le. intros [[H0 Hl] H1].
  assert (F : forallb (fun c => implb (Z.land c (c - 1) =? 0) (is_pow2 c)) (seqZ 1 1024) = true)
    by (vm_compute; reflexivity).
  rewrite forallb_forall in F.
  specialize (F c ltac:(apply list_elem_of_In, elem_of_seqZ; lia)). rewrite Hl in F. cbn [implb] in F.
  apply existsb_exists in F as (k & Hk & E).
  apply list_elem_of_In, elem_of_seqZ in Hk. exists k. lia.
Qed.

Section Buckets.
Context `{Platform} (g : SpatialGrid) (Hg : grid_ok g).

Lemma axis_bound : 1 <= g_cells_per_axis g <= 1024.
Proof.
  destruct Hg as (k & Hk & ->). split; [apply (Z.pow_le_mono_r 2 0)|apply (Z.pow_le_mono_r 2 k 10)]; lia.
Qed.

Lemma cell_x_of_range x : 0 <= cell_x_of g x < g_cells_per_axis g.
Proof.
  pose proof axis_bound. unfold cell_x_of. set (c := f32_to_i32 _). clearbody c.
  rewrite (i32_small (g_cells_per_axis g)) by lia.
  assert (Hc : 0 <= if c <? 0 then 0 else c) by (destruct (Z.ltb_spec c 0); lia).
  set (c1 := if c <? 0 then 0 else c) in *. clearbody c1.
  destruct (Z.leb_spec (g_cells_per_axis g) c1); rewrite wrap_small; unfold fits; lia.
Qed.

Lemma cell_count_eq : exists k, 0 <= k <= 10 /\ g_cells_per_axis g = 2 ^ k /\ cell_count g = 4 ^ k.
Proof.
  destruct Hg as (k & Hk & E). exists k. split_and!; try done; try lia. unfold cell_count. rewrite E.
  rewrite <- Z.pow_mul_l. change (2 * 2) with 4.
  assert (4 ^ k <= 4 ^ 10) by (apply Z.pow_le_mono_r; lia).
  assert (0 < 4 ^ k) by (apply Z.pow_pos_nonneg; lia).
  apply wrap_small. split; lia.
Qed.

Lemma coord_fits x k : g_cells_per_axis g = 2 ^ k -> 0 <= x < g_cells_per_axis g -> fits k x.
Proof. intros E Hx. unfold fits. by rewrite <- E. Qed.

Lemma coord_fits16 x : 0 <= x < g_cells_per_axis g -> fits 16 x.
Proof. pose proof axis_bound. unfold fits. lia. Qed.

Lemma code_range x y :
  0 <= x < g_cells_per_axis g -> 0 <= y < g_cells_per_axis g -> 0 <= morton_encode x y < cell_count g.
Proof.
  intros Hx Hy. destruct cell_count_eq as (k & Hk & E & ->).
  change 4 with (2 ^ 2). rewrite <- Z.pow_mul_r by lia. apply encode_tile; [lia|by apply coord_fits..].
Qed.

Context (positions : list Vec2).

Let codes : list nat := (fun p => Z.to_nat (cell_of g p)) <$> positions.
Let cells : nat := Z.to_nat (cell_count g).
Let g' : SpatialGrid := grid_build g positions.

Lemma codes_bound : Forall (fun c => (c < cells)%nat) codes.
Proof.
  subst codes cells. apply Forall_fmap, Forall_true. intros p. cbn.
  pose proof (code_range (cell_x_of g (vec_x p)) (cell_x_of g (vec_y p))
                (cell_x_of_range _) (cell_x_of_range _)). unfold cell_of. lia.
Qed.

Lemma build_fields :
  g_cells_per_axis g' = g_cells_per_axis g /\ g_inv_cell_size g' = g_inv_cell_size g /\
  g_cell_size g' = g_cell_size g /\ g_codes g' = codes /\
  length (g_sorted g') = length positions /\ length (g_cell_start g') = S cells /\
  (forall c, (c <= cells)%nat -> g_cell_start g' !!! c = start codes c) /\
  (forall c j i, (c < cells)%nat -> members codes c (length codes) !! j = Some i ->
     g_sorted g' !! (start codes c + j)%nat = Some i).
Proof.
  pose proof axis_bound as Hb. subst g'. unfold grid_build.
  rewrite (proj2 (Z.eqb_neq (g_cells_per_axis g) 0)) by lia. fold codes cells.
  destruct (count_pass_spec cells codes (replicate (S cells) 0%nat)) as (A1 & A2 & A3);
    [apply length_replicate|apply codes_bound|].
  destruct (prefix_pass_spec codes cells (count_pass codes (replicate (S cells) 0%nat))) as (B1 & B2).
  { done. }
  { rewrite A2. by rewrite lookup_total_replicate_2 by lia. }
  { intros c Hc. rewrite A3 by done. by rewrite lookup_total_replicate_2 by lia. }
  set (cs := prefix_pass cells _) in *.
  destruct (scatter_pass_spec codes cells codes_bound (resize (length positions) 0%nat (g_sorted g))
              (take (length cs - 1) cs)) as (C1 & C2).
  { rewrite length_resize. subst codes. by rewrite length_fmap. }
  { rewrite length_take. lia. }
  { intros c Hc. rewrite list_lookup_total_alt, lookup_take_lt, <- list_lookup_total_alt by lia. apply B2. lia. }
  destruct (scatter_pass _ _) as [so cu]. cbn [fst] in *. cbn.
  split_and!; try done. rewrite C1. subst codes. by rewrite length_fmap.
Qed.

Lemma bucket_members c : (c < cells)%nat -> bucket g' c = members codes c (length codes).
Proof.
  intros Hc. destruct build_fields as (_ & _ & _ & _ & Hl & _ & Hs & Hm).
  unfold bucket. rewrite !Hs, start_S by lia.
  pose proof (length_members codes c (length codes) ltac:(lia)) as Hlen. rewrite firstn_all in Hlen.
  replace (start codes c + cnt c codes - start codes c)%nat with (cnt c codes) by lia.
  apply list_eq_same_length with (cnt c codes); [done| |].
  - rewrite length_take, length_drop, Hl.
    pose proof (start_mono codes (S c) cells ltac:(lia)) as Hmo.
    rewrite start_S, (start_all codes cells codes_bound) in Hmo. subst codes. rewrite length_fmap in Hmo. lia.
  - intros j x y Hj Hx Hy. rewrite lookup_take_lt, lookup_drop in Hx by done.
    rewrite (Hm c j y Hc Hy) in Hx. congruence.
Qed.

(** The cell of entity [i]. *)
Definition cell_at (i : nat) : Z * Z :=
  (cell_x_of g (vec_x (positions !!! i)), cell_x_of g (vec_y (positions !!! i))).

Lemma codes_lookup i : (i < length positions)%nat ->
  codes !!! i = Z.to_nat (morton_encode (fst (cell_at i)) (snd (cell_at i))).
Proof.
  intros Hi. subst codes. destruct (lookup_lt_is_Some_2 positions i Hi) as [p Hp].
  unfold cell_at. rewrite (list_lookup_total_correct _ _ _ Hp). apply list_lookup_total_correct.
  by rewrite list_lookup_fmap, Hp.
Qed.

Lemma cell_at_range i :
  (0 <= fst (cell_at i) < g_cells_per_axis g) /\ (0 <= snd (cell_at i) < g_cells_per_axis g).
Proof. split; apply cell_x_of_range. Qed.

Lemma code_inj x y x' y' :
  0 <= x < g_cells_per_axis g -> 0 <= y < g_cells_per_axis g ->
  0 <= x' < g_cells_per_axis g -> 0 <= y' < g_cells_per_axis g ->
  Z.to_nat (morton_encode x y) = Z.to_nat (morton_encode x' y') -> x = x' /\ y = y'.
Proof.
  intros Hx Hy Hx' Hy' E. pose proof (code_range x y Hx Hy). pose proof (code_range x' y' Hx' Hy').
  apply encode_inj; try by apply coord_fits16. lia.
Qed.

Lemma bucket_cell x y :
  0 <= x < g_cells_per_axis g -> 0 <= y < g_cells_per_axis g ->
  bucket g' (Z.to_nat (morton_encode x y)) = filter (fun i => cell_at i = (x, y)) (seq 0 (length positions)).
Proof.
  intros Hx Hy. pose proof (code_range x y Hx Hy). rewrite bucket_members by (subst cells; lia).
  unfold members. replace (length codes) with (length positions) by (subst codes; by rewrite length_fmap).
  apply filter_ext_mem. intros i Hi%elem_of_seq.
  rewrite codes_lookup by lia. destruct (cell_at_range i). destruct (cell_at i) as [cx cy]. cbn [fst snd] in *.
  split; [|by intros [= -> ->]]. intros E. apply code_inj in E as [-> ->]; done.
Qed.

Lemma elem_of_bucket x y i :
  0 <= x < g_cells_per_axis g -> 0 <= y < g_cells_per_axis g ->
  i ∈ bucket g' (Z.to_nat (morton_encode x y)) <-> (i < length positions)%nat /\ cell_at i = (x, y).
Proof. intros Hx Hy. rewrite bucket_cell, list_elem_of_filter, elem_of_seq by done. intuition lia. Qed.

Lemma NoDup_bucket x y :
  0 <= x < g_cells_per_axis g -> 0 <= y < g_cells_per_axis g -> NoDup (bucket g' (Z.to_nat (morton_encode x y))).
Proof. intros Hx Hy. rewrite bucket_cell by done. apply NoDup_filter, NoDup_seq. Qed.

(** Every index is somewhere in [sorted_], so [sorted_] is a permutation. *)
Lemma sorted_permutation : g_sorted g' ≡ₚ seq 0 (length positions).
Proof.
  symmetry. apply submseteq_length_Permutation.
  - apply NoDup_submseteq; [apply NoDup_seq|]. intros i Hi%elem_of_seq.
    destruct (cell_at_range i) as [Hx Hy].
    pose proof (elem_of_bucket _ _ i Hx Hy) as [_ E].
    assert (Hb : i ∈ bucket g' (Z.to_nat (morton_encode (fst (cell_at i)) (snd (cell_at i))))).
    { apply E. split; [lia|by destruct (cell_at i)]. }
    unfold bucket in Hb. apply elem_of_take in Hb as (j & Hj & _).
    rewrite lookup_drop in Hj. by eapply list_elem_of_lookup_2.
  - rewrite length_seq. by destruct build_fields as (_ & _ & _ & _ & -> & _).
Qed.
End Buckets.

(** ** Pairs of a list *)
Lemma StronglySorted_filter {A} (R : A -> A -> Prop) (P : A -> Prop) `{!forall x, Decision (P x)} (l : list A) :
  StronglySorted R l -> StronglySorted R (filter P l).
Proof.
  induction 1 as [|x l _ IH Hx]; [constructor|]. rewrite filter_cons.
  destruct (decide (P x)); [|done]. constructor; [done|].
  apply Forall_forall. intros y [_ Hy]%list_elem_of_filter.
  rewrite Forall_forall in Hx. by apply Hx.
Qed.

Lemma StronglySorted_seq k n : StronglySorted lt (seq k n).
Proof.
  revert k. induction n as [|n IH]; intros k; [constructor|]. constructor; [apply IH|].
  apply Forall_forall. intros x Hx%elem_of_seq. lia.
Qed.

Lemma elem_of_pairs_within l a b :
  StronglySorted lt l -> (a, b) ∈ pairs_within l <-> a ∈ l /\ b ∈ l /\ (a < b)%nat.
Proof.
  induction 1 as [|x l Hs IH Hx]; [split; [by intros ?%elem_of_nil|by intros (?%elem_of_nil & _)]|].
  cbn [pairs_within]. rewrite elem_of_app, list_elem_of_fmap, IH, !elem_of_cons.
  assert (Hlt : forall y, y ∈ l -> (x < y)%nat).
  { intros y Hy. rewrite Forall_forall in Hx. by apply Hx. }
  split.
  - intros [(y & [= -> ->] & Hy)|(Ha & Hb & Hab)]; [|tauto]. auto.
  - intros ([->|Ha] & [->|Hb] & Hab); [lia|left; eauto| |tauto].
    specialize (Hlt a Ha). lia.
Qed.

Lemma NoDup_pairs_within l : NoDup l -> NoDup (pairs_within l).
Proof.
  induction 1 as [|x l Hx Hl IH]; [constructor|]. cbn [pairs_within]. apply NoDup_app. split_and!; [| |done].
  - apply NoDup_fmap_2; [|done]. by intros ? ? [= ->].
  - intros [a b] (y & [= -> ->] & Hy)%list_elem_of_fmap Hin.
    assert (forall l', (x, y) ∈ pairs_within l' -> x ∈ l') as Hm; [|by apply Hm in Hin].
    induction l' as [|z l' IHl']; [by intros ?%elem_of_nil|]. cbn [pairs_within].
    rewrite elem_of_app, list_elem_of_fmap. intros [(? & [= -> ->] & _)|H']; [left|right; auto].
Qed.

Lemma elem_of_pairs_across l1 l2 a b : (a, b) ∈ pairs_across l1 l2 <-> a ∈ l1 /\ b ∈ l2.
Proof.
  unfold pairs_across. rewrite list_elem_of_bind. split.
  - intros (x & (y & Hp & Hy)%list_elem_of_bind & Hx). apply list_elem_of_singleton in Hp. by simplify_eq.
  - intros [Ha Hb]. exists a. split; [|done]. apply list_elem_of_bind. exists b.
    split; [|done]. by apply list_elem_of_singleton.
Qed.

Lemma NoDup_pairs_across l1 l2 : NoDup l1 -> NoDup l2 -> NoDup (pairs_across l1 l2).
Proof.
  intros H1 H2. apply NoDup_bind; [| |done].
  - intros x1 x2 [a b] _ _ (y1 & E1 & _)%list_elem_of_bind (y2 & E2 & _)%list_elem_of_bind.
    apply list_elem_of_singleton in E1, E2. by simplify_eq.
  - intros x _. apply NoDup_bind; [|intros; apply NoDup_singleton|done].
    intros y1 y2 p _ _ E1%list_elem_of_singleton E2%list_elem_of_singleton. by simplify_eq.
Qed.

(** ** Queries and pairs of a built grid *)
Section Queries.
Context `{Platform} (g : SpatialGrid) (Hg : grid_ok g) (positions : list Vec2).

Let g' : SpatialGrid := grid_build g positions.
Let n : nat := length positions.
Let side : Z := g_cells_per_axis g.
Let at_ : nat -> Z * Z := cell_at g positions.

Lemma cell_x_of_build x : cell_x_of g' x = cell_x_of g x.
Proof.
  destruct (build_fields g Hg positions) as (E1 & E2 & _). unfold cell_x_of. subst g'. by rewrite E1, E2.
Qed.

(** The cells a query touches. *)
Definition query_rect (center : Vec2) (radius : f32) (c : Z * Z) : Prop :=
  cell_x_of g (fsub (vec_x center) radius) <= fst c <= cell_x_of g (fadd (vec_x center) radius) /\
  cell_x_of g (fsub (vec_y center) radius) <= snd c <= cell_x_of g (fadd (vec_y center) radius).

Lemma bucket_row x y :
  bucket g' (Z.to_nat (Z.lor (u32 (Z.shiftl (spread_bits y) 1)) (spread_bits x))) =
  bucket g' (Z.to_nat (morton_encode x y)).
Proof. unfold morton_encode. by rewrite Z.lor_comm. Qed.

Lemma built_axis : g_cells_per_axis g' = side.
Proof. apply (build_fields g Hg positions). Qed.

Lemma in_side x lo hi : lo <= x <= hi -> 0 <= lo -> hi < side -> 0 <= x < side.
Proof. lia. Qed.

Lemma elem_of_query center radius i :
  i ∈ query_radius g' center radius <-> (i < n)%nat /\ query_rect center radius (at_ i).
Proof.
  pose proof (axis_bound g Hg) as Hb. unfold query_radius.
  rewrite built_axis, (proj2 (Z.eqb_neq side 0)) by (subst side; lia). rewrite !cell_x_of_build.
  pose proof (cell_x_of_range g Hg) as R. unfold query_rect. fold side in R.
  set (x0 := cell_x_of g (fsub (vec_x center) radius)). set (x1 := cell_x_of g (fadd (vec_x center) radius)).
  set (y0 := cell_x_of g (fsub (vec_y center) radius)). set (y1 := cell_x_of g (fadd (vec_y center) radius)).
  assert (Hx0 : 0 <= x0) by apply R. assert (Hy0 : 0 <= y0) by apply R.
  assert (Hx1 : x1 < side) by apply R. assert (Hy1 : y1 < side) by apply R.
  rewrite list_elem_of_bind. split.
  - intros (y & (x & Hi & Hx%elem_of_seqZ)%list_elem_of_bind & Hy%elem_of_seqZ).
    rewrite bucket_row in Hi. apply (elem_of_bucket g Hg) in Hi as [Hi E]; [|fold side; lia..].
    split; [done|]. subst at_. rewrite E. cbn. lia.
  - intros (Hi & Hx & Hy). exists (snd (at_ i)). rewrite elem_of_seqZ. split; [|lia].
    apply list_elem_of_bind. exists (fst (at_ i)). rewrite elem_of_seqZ. split; [|lia].
    rewrite bucket_row. apply (elem_of_bucket g Hg); [fold side; lia..|].
    split; [done|]. subst at_. by destruct (cell_at g positions i).
Qed.

Lemma NoDup_query center radius : NoDup (query_radius g' center radius).
Proof.
  pose proof (axis_bound g Hg) as Hb. unfold query_radius.
  rewrite built_axis, (proj2 (Z.eqb_neq side 0)) by (subst side; lia). rewrite !cell_x_of_build.
  pose proof (cell_x_of_range g Hg) as R. fold side in R.
  set (x0 := cell_x_of g (fsub (vec_x center) radius)). set (x1 := cell_x_of g (fadd (vec_x center) radius)).
  set (y0 := cell_x_of g (fsub (vec_y center) radius)). set (y1 := cell_x_of g (fadd (vec_y center) radius)).
  assert (Hx0 : 0 <= x0) by apply R. assert (Hy0 : 0 <= y0) by apply R.
  assert (Hx1 : x1 < side) by apply R. assert (Hy1 : y1 < side) by apply R.
  apply NoDup_bind; [| |apply NoDup_seqZ].
  - intros y y' i Hy%elem_of_seqZ Hy'%elem_of_seqZ (x & Hi & Hx%elem_of_seqZ)%list_elem_of_bind
      (x' & Hi' & Hx'%elem_of_seqZ)%list_elem_of_bind.
    rewrite bucket_row in Hi, Hi'. apply (elem_of_bucket g Hg) in Hi as [_ E]; [|fold side; lia..].
    apply (elem_of_bucket g Hg) in Hi' as [_ E']; [|fold side; lia..]. congruence.
  - intros y Hy%elem_of_seqZ. apply NoDup_bind; [| |apply NoDup_seqZ].
    + intros x x' i Hx%elem_of_seqZ Hx'%elem_of_seqZ Hi Hi'.
      rewrite bucket_row in Hi, Hi'. apply (elem_of_bucket g Hg) in Hi as [_ E]; [|fold side; lia..].
      apply (elem_of_bucket g Hg) in Hi' as [_ E']; [|fold side; lia..]. congruence.
    + intros x Hx%elem_of_seqZ. rewrite bucket_row. apply (NoDup_bucket g Hg); fold side; lia.
Qed.

(** Cell [c2] is one of the four forward neighbours of [c1]. *)
Definition forward (c1 c2 : Z * Z) : Prop := (fst c2 - fst c1, snd c2 - snd c1) ∈ kOffsets.

Lemma in_grid_spec x y : in_grid g' x y = true <-> 0 <= x < side /\ 0 <= y < side.
Proof.
  pose proof (axis_bound g Hg) as Hb. unfold in_grid. rewrite built_axis, i32_small by (subst side; lia).
  rewrite negb_true_iff, !orb_false_iff, !Z.ltb_ge, !Z.leb_gt. lia.
Qed.

Lemma elem_of_cell_pairs x y a b :
  0 <= x < side -> 0 <= y < side ->
  (a, b) ∈ cell_pairs g' x y <->
  (a < n)%nat /\ (b < n)%nat /\ at_ a = (x, y) /\ ((at_ b = (x, y) /\ (a < b)%nat) \/ forward (x, y) (at_ b)).
Proof.
  intros Hx Hy. pose proof (axis_bound g Hg) as Hb. fold side in Hb.
  pose proof (elem_of_bucket g Hg positions x y) as Eb. fold g' in Eb.
  assert (Hsort : StronglySorted lt (bucket g' (Z.to_nat (morton_encode x y)))).
  { subst g'. rewrite (bucket_cell g Hg) by done. apply StronglySorted_filter, StronglySorted_seq. }
  assert (E : (a, b) ∈ cell_pairs g' x y <->
    (a, b) ∈ pairs_within (bucket g' (Z.to_nat (morton_encode x y))) \/
    exists o, o ∈ kOffsets /\ in_grid g' (x + fst o) (y + snd o) = true /\
      a ∈ bucket g' (Z.to_nat (morton_encode x y)) /\
      b ∈ bucket g' (Z.to_nat (morton_encode (u16 (x + fst o)) (u16 (y + snd o))))).
  { unfold cell_pairs. destruct (bucket g' (Z.to_nat (morton_encode x y))) as [|z l].
    { split; [by intros ?%elem_of_nil|]. intros [?%elem_of_nil|(? & _ & _ & ?%elem_of_nil & _)]; done. }
    rewrite elem_of_app, list_elem_of_bind. f_equiv. split.
    - intros (o & Hin & Ho). exists o. destruct (in_grid _ _ _); [|by apply elem_of_nil in Hin].
      by apply elem_of_pairs_across in Hin as [? ?].
    - intros (o & Ho & Hg' & Ha & Hb'). exists o. rewrite Hg'. split; [|done]. by apply elem_of_pairs_across. }
  rewrite E, elem_of_pairs_within, !Eb by done. clear E. unfold forward. cbn [fst snd]. split.
  - intros [((Ha & Ea) & (Hb1 & Eb1) & Hlt)|(o & Ho & Hin & Ha & Hbo)].
    + split_and!; auto.
    + apply Eb in Ha as [Ha Ea]; [|done..]. apply in_grid_spec in Hin as [Hx' Hy']. rewrite !wrap_small in Hbo by (unfold fits; lia).
      apply (elem_of_bucket g Hg) in Hbo as [Hb1 Eb1]; [|done..].
      split_and!; try done. right. subst at_. rewrite Eb1. cbn [fst snd].
      replace (x + fst o - x) with (fst o) by lia. replace (y + snd o - y) with (snd o) by lia. by destruct o.
  - intros (Ha & Hb1 & Ea & [[Eb1 Hlt]|Hf]); [left; auto|right].
    destruct (cell_at_range g Hg positions b) as [Rx Ry]. fold side at_ in Rx, Ry.
    eexists. split; [exact Hf|]. cbn [fst snd].
    replace (x + (fst (at_ b) - x)) with (fst (at_ b)) by lia.
    replace (y + (snd (at_ b) - y)) with (snd (at_ b)) by lia.
    split; [by apply in_grid_spec|]. split; [by apply Eb|]. rewrite !wrap_small by (unfold fits; lia).
    apply (elem_of_bucket g Hg); [done..|]. split; [done|]. subst at_. by destruct (cell_at g positions b).
Qed.

Lemma NoDup_cell_pairs x y : 0 <= x < side -> 0 <= y < side -> NoDup (cell_pairs g' x y).
Proof.
  intros Hx Hy. pose proof (axis_bound g Hg) as Hb. fold side in Hb.
  pose proof (NoDup_bucket g Hg positions x y Hx Hy) as Hnd. fold g' in Hnd.
  pose proof (elem_of_bucket g Hg positions x y) as Eb. fold g' in Eb.
  unfold cell_pairs. destruct (bucket g' (Z.to_nat (morton_encode x y))) as [|z l] eqn:El; [constructor|].
  rewrite <- El in *. clear El z l.
  assert (Hnb : forall o i, in_grid g' (x + fst o) (y + snd o) = true ->
    i ∈ bucket g' (Z.to_nat (morton_encode (u16 (x + fst o)) (u16 (y + snd o)))) ->
    at_ i = (x + fst o, y + snd o)).
  { intros o i [Hx' Hy']%in_grid_spec Hi. rewrite !wrap_small in Hi by (unfold fits; lia).
    by apply (elem_of_bucket g Hg) in Hi as [_ ?]. }
  apply NoDup_app. split_and!; [by apply NoDup_pairs_within| |].
  - intros [a b] Hin (o & Ho' & Ho)%list_elem_of_bind.
    destruct (in_grid _ _ _) eqn:Hgr; [|by apply elem_of_nil in Ho'].
    apply elem_of_pairs_across in Ho' as [_ Hbo]. apply Hnb in Hbo; [|done].
    apply elem_of_pairs_within in Hin as (_ & Hbi & _).
    + apply Eb in Hbi as [_ E]; [|done..]. fold at_ in E. rewrite E in Hbo. injection Hbo as E1 E2.
      unfold kOffsets in Ho. repeat (apply elem_of_cons in Ho as [->|Ho]); [cbn in *; lia..|].
      by apply elem_of_nil in Ho.
    + subst g'. rewrite (bucket_cell g Hg) by done. apply StronglySorted_filter, StronglySorted_seq.
  - apply NoDup_bind.
    + intros o1 o2 [a b] _ _ H1 H2. destruct (in_grid _ _ _) eqn:G1; [|by apply elem_of_nil in H1].
      destruct (in_grid g' (x + fst o2) _) eqn:G2; [|by apply elem_of_nil in H2].
      apply elem_of_pairs_across in H1 as [_ H1], H2 as [_ H2].
      apply Hnb in H1; [|done]. apply Hnb in H2; [|done]. destruct o1, o2. cbn in *.
      rewrite H1 in H2. injection H2 as E1 E2. f_equal; lia.
    + intros o _. destruct (in_grid _ _ _) eqn:Gr; [|constructor].
      apply in_grid_spec in Gr as [Hx' Hy']. apply NoDup_pairs_across; [done|].
      rewrite !wrap_small by (unfold fits; lia). by apply (NoDup_bucket g Hg).
    + unfold kOffsets. repeat (apply NoDup_cons; split; [rewrite ?elem_of_cons, ?elem_of_nil; intuition discriminate|]).
      constructor.
Qed.

Lemma elem_of_candidates a b :
  (a, b) ∈ candidate_pairs g' <->
  (a < n)%nat /\ (b < n)%nat /\ ((at_ a = at_ b /\ (a < b)%nat) \/ forward (at_ a) (at_ b)).
Proof.
  pose proof (axis_bound g Hg) as Hb. unfold candidate_pairs.
  rewrite built_axis, (proj2 (Z.eqb_neq side 0)) by (subst side; lia).
  rewrite list_elem_of_bind. split.
  - intros (y & (x & Hp & Hx%elem_of_seqZ)%list_elem_of_bind & Hy%elem_of_seqZ).
    apply elem_of_cell_pairs in Hp as (Ha & Hb' & Ea & Hc); [|lia..]. rewrite Ea.
    split_and!; try done. destruct Hc as [[-> ?]|?]; auto.
  - intros (Ha & Hb' & Hc). destruct (cell_at_range g Hg positions a) as [Rx Ry]. fold side at_ in Rx, Ry.
    exists (snd (at_ a)). rewrite elem_of_seqZ. split; [|lia].
    apply list_elem_of_bind. exists (fst (at_ a)). rewrite elem_of_seqZ. split; [|lia].
    apply elem_of_cell_pairs; [done..|]. rewrite <- surjective_pairing.
    destruct Hc as [[E ?]|?]; rewrite <- ?E; split_and!; auto.
Qed.

Lemma NoDup_candidates : NoDup (candidate_pairs g').
Proof.
  pose proof (axis_bound g Hg) as Hb. unfold candidate_pairs.
  rewrite built_axis, (proj2 (Z.eqb_neq side 0)) by (subst side; lia).
  apply NoDup_bind; [| |apply NoDup_seqZ].
  - intros y y' [a b] Hy%elem_of_seqZ Hy'%elem_of_seqZ (x & Hp & Hx%elem_of_seqZ)%list_elem_of_bind
      (x' & Hp' & Hx'%elem_of_seqZ)%list_elem_of_bind.
    apply elem_of_cell_pairs in Hp as (_ & _ & E & _); [|lia..].
    apply elem_of_cell_pairs in Hp' as (_ & _ & E' & _); [|lia..]. congruence.
  - intros y Hy%elem_of_seqZ. apply NoDup_bind; [| |apply NoDup_seqZ].
    + intros x x' [a b] Hx%elem_of_seqZ Hx'%elem_of_seqZ Hp Hp'.
      apply elem_of_cell_pairs in Hp as (_ & _ & E & _); [|lia..].
    apply elem_of_cell_pairs in Hp' as (_ & _ & E' & _); [|lia..]. congruence.
    + intros x Hx%elem_of_seqZ. apply NoDup_cell_pairs; lia.
Qed.
End Queries.

Lemma foldl_collect (positions : list Vec2) rsq (l acc : list (nat * nat)) :
  Forall (fun ab => (fst ab < length positions)%nat /\ (snd ab < length positions)%nat) l ->
  foldl (pair_step (fun _ => positions) rsq (fun a b s => s ++ [(a, b)])) acc l =
  acc ++ filter (fun ab => fleb (distance_sq (positions !!! fst ab) (positions !!! snd ab)) rsq = true) l.
Proof.
  intros Hl. revert acc. induction Hl as [|[a b] l [Ha Hb] _ IH]; intros acc; [by rewrite app_nil_r|].
  cbn [foldl]. rewrite IH, filter_cons. cbn [fst snd] in *. unfold pair_step at 1.
  destruct (lookup_lt_is_Some_2 _ _ Ha) as [pa Ea], (lookup_lt_is_Some_2 _ _ Hb) as [pb Eb].
  rewrite Ea, Eb, (list_lookup_total_correct _ _ _ Ea), (list_lookup_total_correct _ _ _ Eb).
  destruct (fleb _ _); [rewrite decide_True by done; by rewrite <- app_assoc|by rewrite decide_False by done].
Qed.

Lemma configure_grid_ok g ws c g0 : grid_configure g ws c = Some g0 -> grid_ok g0 /\ g_cells_per_axis g0 = c.
Proof.
  unfold grid_configure. destruct (configure_ok c) eqn:E; [|done]. intros [= <-].
  split; [by apply configure_ok_pow2|done].
Qed.

(** ** Theorems *)

(** C18. The counting sort is correct: after [build] on a configured grid, the
    bucket of every cell holds exactly the indices of the entities whose
    position falls in that cell, in increasing order, [sorted_] is a permutation
    of all the indices, and the occupancy the grid reports is the number of
    entities in the cell. *)
Theorem grid_build_buckets `{Platform} (g0 g : SpatialGrid) (world_size : f32) (cells_per_axis : Z)
    (positions : list Vec2) :
  grid_configure g0 world_size cells_per_axis = Some g ->
  let g' := grid_build g positions in
  g_sorted g' ≡ₚ seq 0 (length positions) /\
  forall x y, 0 <= x < cells_per_axis -> 0 <= y < cells_per_axis ->
    let cell := filter (fun i => cell_of g (positions !!! i) = morton_encode x y) (seq 0 (length positions)) in
    bucket g' (Z.to_nat (morton_encode x y)) = cell /\
    occupancy g' (Z.to_nat (morton_encode x y)) = length cell.
Proof.
  intros [Hg Hc]%configure_grid_ok g'. split; [by apply sorted_permutation|].
  intros x y Hx Hy cell. rewrite <- Hc in Hx, Hy. pose proof (code_range g Hg x y Hx Hy) as Hr.
  assert (E : bucket g' (Z.to_nat (morton_encode x y)) = cell).
  { subst g' cell. rewrite bucket_cell by done. apply filter_ext_mem. intros i _.
    destruct (cell_at_range g Hg positions i) as [Rx Ry]. unfold cell_of.
    change (cell_x_of g (vec_x (positions !!! i))) with (fst (cell_at g positions i)).
    change (cell_x_of g (vec_y (positions !!! i))) with (snd (cell_at g positions i)).
    destruct (cell_at g positions i) as [cx cy]. cbn [fst snd] in *. split; [by intros [= -> ->]|].
    intros E. apply encode_inj in E as [-> ->]; [done|by apply (coord_fits16 g Hg)..]. }
  split; [done|]. rewrite <- E. destruct (build_fields g Hg positions) as (_ & _ & _ & _ & _ & _ & Hs & _).
  subst g'. rewrite bucket_members by (try done; lia). rewrite length_members, firstn_all by done.
  unfold occupancy. rewrite !Hs, start_S by lia. lia.
Qed.

Definition sample_positions : list Vec2 :=
  [mkVec2 (f32_of_Z 10) (f32_of_Z 10); mkVec2 (f32_of_Z 90) (f32_of_Z 10); mkVec2 (f32_of_Z 12) (f32_of_Z 11);
   mkVec2 (f32_of_Z 40) (f32_of_Z 12); mkVec2 (f32_of_Z 35) (f32_of_Z 60)].

Definition sample_grid : SpatialGrid :=
  default SpatialGrid_empty (grid_configure SpatialGrid_empty (f32_of_Z 128) 4).

Definition grid_platform : Platform :=
  {| ub_cast_i32 := fun _ => 0; ub_cast_u32 := fun _ => 0; std_cos := fun x => x; std_sin := fun x => x |}.

Lemma grid_build_buckets_witness :
  g_sorted (@grid_build grid_platform sample_grid sample_positions) ≡ₚ [0; 1; 2; 3; 4]%nat /\
  bucket (@grid_build grid_platform sample_grid sample_positions) 0 = [0; 2]%nat.
Proof.
  pose proof (@grid_build_buckets grid_platform SpatialGrid_empty sample_grid (f32_of_Z 128) 4 sample_positions
                eq_refl) as [A B].
  split; [exact A|]. destruct (B 0 0 ltac:(lia) ltac:(lia)) as [E _]. refine (eq_trans E _). vm_compute. reflexivity.
Defined.

(** A circle query visits, each exactly once, precisely the entities whose
    cell lies in the rectangle of cells spanned by the circle's bounding box. *)
Theorem query_radius_cells `{Platform} (g0 g : SpatialGrid) (world_size : f32) (cells_per_axis : Z)
    (positions : list Vec2) (center : Vec2) (radius : f32) :
  grid_configure g0 world_size cells_per_axis = Some g ->
  let visited := query_radius (grid_build g positions) center radius in
  NoDup visited /\
  forall i, i ∈ visited <->
    (i < length positions)%nat /\ query_rect g center radius (cell_at g positions i).
Proof.
  intros [Hg _]%configure_grid_ok visited. split; [by apply NoDup_query|]. intros i. by apply elem_of_query.
Qed.

Lemma query_radius_cells_witness :
  (3%nat ∈ @query_radius grid_platform (@grid_build grid_platform sample_grid sample_positions)
     (mkVec2 (f32_of_Z 20) (f32_of_Z 20)) (f32_of_Z 15)) /\
  ~ (1%nat ∈ @query_radius grid_platform (@grid_build grid_platform sample_grid sample_positions)
     (mkVec2 (f32_of_Z 20) (f32_of_Z 20)) (f32_of_Z 15)).
Proof.
  pose proof (@query_radius_cells grid_platform SpatialGrid_empty sample_grid (f32_of_Z 128) 4 sample_positions
                (mkVec2 (f32_of_Z 20) (f32_of_Z 20)) (f32_of_Z 15) eq_refl) as [_ B].
  rewrite !B. split; [split; [cbn; lia|repeat split; vm_compute; discriminate]|].
  intros [_ [[_ Hq] _]]. vm_compute in Hq. by apply Hq.
Defined.

(** C22. The half-neighbourhood walk: with the radius within one cell,
    [for_each_pair] calls back no pair twice, calls back only pairs of distinct
    entities within the radius, and for any two entities within the radius whose
    cells are equal or adjacent, diagonals included, it calls back exactly one
    of the two orders.  With a larger radius it aborts. *)
Theorem for_each_pair_once `{Platform} (g0 g : SpatialGrid) (world_size : f32) (cells_per_axis : Z)
    (positions : list Vec2) (radius : f32) :
  grid_configure g0 world_size cells_per_axis = Some g ->
  let close a b := fleb (distance_sq (positions !!! a) (positions !!! b)) (fmul radius radius) = true in
  let near a b :=
    Z.abs (fst (cell_at g positions a) - fst (cell_at g positions b)) <= 1 /\
    Z.abs (snd (cell_at g positions a) - snd (cell_at g positions b)) <= 1 in
  match for_each_pair (grid_build g positions) (fun _ => positions) radius (fun a b s => s ++ [(a, b)]) [] with
  | None => fleb radius (g_cell_size g) = false
  | Some visited =>
      fleb radius (g_cell_size g) = true /\ NoDup visited /\
      (forall a b, (a, b) ∈ visited ->
         (a < length positions)%nat /\ (b < length positions)%nat /\ a <> b /\ close a b /\ near a b) /\
      (forall a b, (a < b < length positions)%nat -> near a b -> close a b -> close b a ->
         ((a, b) ∈ visited /\ (b, a) ∉ visited) \/ ((b, a) ∈ visited /\ (a, b) ∉ visited))
  end.
Proof.
  intros [Hg _]%configure_grid_ok close near. pose proof (axis_bound g Hg) as Hb.
  destruct (build_fields g Hg positions) as (E1 & _ & E3 & _).
  unfold for_each_pair. rewrite E1, E3, (proj2 (Z.eqb_neq (g_cells_per_axis g) 0)) by lia.
  destruct (fleb radius (g_cell_size g)) eqn:Er; cbn [negb]; [|done].
  pose proof (elem_of_candidates g Hg positions) as Hin.
  rewrite foldl_collect.
  2: { apply Forall_forall. intros [a b] Hab. apply Hin in Hab. cbn. tauto. }
  cbn [app]. split; [done|]. split; [apply NoDup_filter, (NoDup_candidates g Hg)|].
  assert (Hf : forall a b, forward (cell_at g positions a) (cell_at g positions b) <->
    (snd (cell_at g positions b) = snd (cell_at g positions a) /\
     fst (cell_at g positions b) = fst (cell_at g positions a) + 1) \/
    (snd (cell_at g positions b) = snd (cell_at g positions a) + 1 /\
     Z.abs (fst (cell_at g positions b) - fst (cell_at g positions a)) <= 1)).
  { intros a b. unfold forward, kOffsets. rewrite !elem_of_cons, elem_of_nil.
    rewrite !pair_equal_spec. split; [intros [[? ?]|[[? ?]|[[? ?]|[[? ?]|[]]]]]; lia|]. lia. }
  split.
  - intros a b (Hc & Hab)%list_elem_of_filter. apply Hin in Hab as (Ha & Hb' & Hab). cbn [fst snd] in Hc.
    destruct Hab as [[E Hlt]|F].
    + do 2 (split; [done|]). split; [lia|]. split; [done|]. unfold near. rewrite E. lia.
    + pose proof (proj1 (Hf a b) F) as F'. do 2 (split; [done|]).
      split; [intros ->; lia|]. split; [done|]. unfold near. lia.
  - intros a b Hab Hn Hc Hc'. rewrite !list_elem_of_filter, !Hin. cbn [fst snd].
    unfold near in Hn. rewrite !Hf.
    destruct (cell_at g positions a) as [ax ay], (cell_at g positions b) as [bx by_]. cbn [fst snd] in *.
    rewrite !pair_equal_spec.
    assert (Hd : (by_ = ay /\ bx = ax + 1) \/ (by_ = ay + 1 /\ Z.abs (bx - ax) <= 1) \/
                 (ay = by_ /\ ax = bx + 1) \/ (ay = by_ + 1 /\ Z.abs (ax - bx) <= 1) \/ (ax = bx /\ ay = by_)) by lia.
    destruct Hd as [Hd|[Hd|[Hd|[Hd|Hd]]]]; [left|left|right|right|left]; split; intuition lia.
Qed.

Lemma for_each_pair_once_witness :
  match for_each_pair (@grid_build grid_platform sample_grid sample_positions) (fun _ => sample_positions)
          (f32_of_Z 32) (fun a b s => s ++ [(a, b)]) [] with
  | Some visited => NoDup visited /\ visited = [(0, 2); (0, 3); (2, 3)]%nat
  | None => False
  end.
Proof.
  pose proof (@for_each_pair_once grid_platform SpatialGrid_empty sample_grid (f32_of_Z 128) 4 sample_positions
                (f32_of_Z 32) eq_refl) as P. cbv zeta in P.
  assert (E : for_each_pair (@grid_build grid_platform sample_grid sample_positions) (fun _ => sample_positions)
                (f32_of_Z 32) (fun a b s => s ++ [(a, b)]) [] = Some [(0, 2); (0, 3); (2, 3)]%nat)
    by (vm_compute; reflexivity).
  rewrite E in P |- *. split; [apply P|reflexivity].
Defined.
