(* ===== verification/EntityStore.v ===== *)
(** * EntityStore: structure-of-arrays entities ([src/src/sim/world.h], [world.cpp])

    Seven parallel arrays and an index, with swap-and-pop removal.  The abstract
    view of a store is a finite map from entity ids to records; [add] inserts,
    [remove] deletes, and nothing else moves, although the arrays are permuted. *)

From S2P Require Import Prelude F32.
From Stdlib Require Import ZArith Lia Bool.
From stdpp Require Import base tactics numbers list option gmap.
#[local] Open Scope Z_scope.

Inductive EntityKind := kPlayer | kDrifter.
Definition entity_kind_code (k : EntityKind) : Z := match k with kPlayer => 0 | kDrifter => 1 end.

(** Deterministic 32-bit hash. *)
Definition hash_u32 (x : Z) : Z :=
  let x := Z.lxor x (Z.shiftr x 16) in
  let x := u32 (x * 0x7feb352d) in
  let x := Z.lxor x (Z.shiftr x 15) in
  let x := u32 (x * 0x846ca68b) in
  Z.lxor x (Z.shiftr x 16).

Record EntityStore := mkEntityStore {
  es_id : list Z;
  es_position : list Vec2;
  es_velocity : list Vec2;
  es_kind : list Z;
  es_owner : list Z;
  es_last_input_sequence : list Z;
  es_ai_seed : list Z;
  es_index_of : gmap Z nat
}.

Definition EntityStore_empty : EntityStore := mkEntityStore [] [] [] [] [] [] [] ∅.

Definition es_size (s : EntityStore) : nat := length (es_id s).

Definition store_add (entity : Z) (entity_kind : EntityKind) (start : Vec2) (client : Z) (s : EntityStore)
    : nat * EntityStore :=
  let index := es_size s in
  (index,
   mkEntityStore (es_id s ++ [entity]) (es_position s ++ [start]) (es_velocity s ++ [Vec2_zero])
     (es_kind s ++ [entity_kind_code entity_kind]) (es_owner s ++ [client])
     (es_last_input_sequence s ++ [0]) (es_ai_seed s ++ [hash_u32 (u32 (entity * 2654435761))])
     (<[entity := index]> (es_index_of s))).

(** [a[index] = a[last]] when they differ, then [a.pop_back()]. *)
Definition swap_pop {A} (index last : nat) (l : list A) : list A :=
  let l' := if decide (index = last) then l
            else match l !! last with Some x => <[index := x]> l | None => l end in
  take (length l' - 1) l'.

Definition store_remove (entity : Z) (s : EntityStore) : bool * EntityStore :=
  match es_index_of s !! entity with
  | None => (false, s)
  | Some index =>
      let last := (es_size s - 1)%nat in
      let index_of :=
        if decide (index = last) then es_index_of s
        else match es_id s !! last with
             | Some moved => <[moved := index]> (es_index_of s)
             | None => es_index_of s
             end in
      (true,
       mkEntityStore (swap_pop index last (es_id s)) (swap_pop index last (es_position s))
         (swap_pop index last (es_velocity s)) (swap_pop index last (es_kind s))
         (swap_pop index last (es_owner s)) (swap_pop index last (es_last_input_sequence s))
         (swap_pop index last (es_ai_seed s)) (delete entity index_of))
  end.

(** [find] returns -1 for an unknown entity; here [None]. *)
Definition store_find (entity : Z) (s : EntityStore) : option nat := es_index_of s !! entity.

Definition store_clear (s : EntityStore) : EntityStore := EntityStore_empty.

(** ** Abstract view *)
Record EntityData := mkEntityData {
  ed_position : Vec2;
  ed_velocity : Vec2;
  ed_kind : Z;
  ed_owner : Z;
  ed_last_input_sequence : Z;
  ed_ai_seed : Z
}.

(** The record at an index: every array has an entry there. *)
Definition data_at (s : EntityStore) (i : nat) : option EntityData :=
  p ← es_position s !! i; v ← es_velocity s !! i; k ← es_kind s !! i; o ← es_owner s !! i;
  q ← es_last_input_sequence s !! i; a ← es_ai_seed s !! i; Some (mkEntityData p v k o q a).

(** The record of an entity, through the index. *)
Definition entity_data (s : EntityStore) (e : Z) : option EntityData :=
  i ← store_find e s; data_at s i.

Record store_wf (s : EntityStore) : Prop := {
  sw_position : length (es_position s) = es_size s;
  sw_velocity : length (es_velocity s) = es_size s;
  sw_kind : length (es_kind s) = es_size s;
  sw_owner : length (es_owner s) = es_size s;
  sw_sequence : length (es_last_input_sequence s) = es_size s;
  sw_seed : length (es_ai_seed s) = es_size s;
  sw_index : forall e i, es_index_of s !! e = Some i <-> es_id s !! i = Some e
}.

Lemma store_wf_empty : store_wf EntityStore_empty.
Proof. split; try done. Qed.

Lemma data_at_lt s i : store_wf s -> (i < es_size s)%nat -> is_Some (data_at s i).
Proof.
  intros [] Hi. unfold data_at.
  destruct (lookup_lt_is_Some_2 (es_position s) i) as [? ->]; [lia|].
  destruct (lookup_lt_is_Some_2 (es_velocity s) i) as [? ->]; [lia|].
  destruct (lookup_lt_is_Some_2 (es_kind s) i) as [? ->]; [lia|].
  destruct (lookup_lt_is_Some_2 (es_owner s) i) as [? ->]; [lia|].
  destruct (lookup_lt_is_Some_2 (es_last_input_sequence s) i) as [? ->]; [lia|].
  destruct (lookup_lt_is_Some_2 (es_ai_seed s) i) as [? ->]; [lia|].
  by eexists.
Qed.

Lemma find_lt s e i : store_wf s -> store_find e s = Some i -> (i < es_size s)%nat.
Proof. intros Hs H%(sw_index s Hs). by apply lookup_lt_Some in H. Qed.

Lemma find_id s e i : store_wf s -> store_find e s = Some i <-> es_id s !! i = Some e.
Proof. intros Hs. apply (sw_index s Hs). Qed.

(** The index is exact: an entity is found when, and only when, it has a record. *)
Lemma entity_data_is_Some s e : store_wf s -> is_Some (entity_data s e) <-> is_Some (store_find e s).
Proof.
  intros Hs. unfold entity_data. destruct (store_find e s) as [i|] eqn:E; cbn.
  - split; [done|]. intros _. by apply data_at_lt, (find_lt s e).
  - split; intros [? ?]; done.
Qed.

(** *** Lookup after [add] and [remove] *)
Lemma lookup_snoc {A} (l : list A) (x : A) i :
  (l ++ [x]) !! i = if decide (i = length l) then Some x else l !! i.
Proof.
  destruct (decide (i = length l)) as [->|Hne].
  - rewrite lookup_app_r by lia. by rewrite Nat.sub_diag.
  - destruct (decide (i < length l)%nat) as [Hi|Hi].
    + by rewrite lookup_app_l.
    + rewrite !lookup_ge_None_2; [done|lia|rewrite length_app; cbn; lia].
Qed.

Lemma length_swap_pop {A} index last (l : list A) : length (swap_pop index last l) = (length l - 1)%nat.
Proof.
  unfold swap_pop. rewrite length_take.
  destruct (decide (index = last)); [lia|]. destruct (l !! last); rewrite ?length_insert; lia.
Qed.

Lemma lookup_swap_pop {A} index n (l : list A) i :
  length l = n -> (index < n)%nat -> (i < n - 1)%nat ->
  swap_pop index (n - 1) l !! i = l !! (if decide (i = index) then (n - 1)%nat else i).
Proof.
  intros <- Hi Hlt. unfold swap_pop. destruct (lookup_lt_is_Some_2 l (length l - 1)) as [x Hx]; [lia|]. rewrite Hx.
  destruct (decide (index = length l - 1)%nat) as [E|Hne].
  - rewrite lookup_take_lt by lia. by rewrite decide_False by lia.
  - rewrite length_insert, lookup_take_lt by lia. destruct (decide (i = index)) as [->|].
    + by rewrite list_lookup_insert_eq by lia.
    + by rewrite list_lookup_insert_ne by done.
Qed.

Section Add.
Context (s : EntityStore) (Hs : store_wf s) (e : Z) (k : EntityKind) (p : Vec2) (c : Z).
Context (Hfresh : store_find e s = None).

Lemma store_add_wf : store_wf (snd (store_add e k p c s)).
Proof.
  destruct Hs. unfold store_find in *. unfold store_add. cbn [snd].
  split; unfold es_size in *; cbn; rewrite ?length_app; cbn [length]; try lia.
  intros e' i. rewrite lookup_snoc, lookup_insert_Some. destruct (decide (i = length (es_id s))) as [->|Hne].
  - rewrite sw_index0. split; [intros [[-> _]|[_ H%lookup_lt_Some]]; [done|lia]|]. intros [= ->]. by left.
  - rewrite sw_index0. split; [intros [[_ <-]|[_ H]]; [done|done]|]. intros H. right. split; [|done].
    intros ->. apply sw_index0 in H. congruence.
Qed.

Lemma data_at_add i :
  data_at (snd (store_add e k p c s)) i =
  if decide (i = es_size s)
  then Some (mkEntityData p Vec2_zero (entity_kind_code k) c 0 (hash_u32 (u32 (e * 2654435761))))
  else data_at s i.
Proof.
  unfold data_at, store_add. cbn. rewrite !lookup_snoc.
  rewrite (sw_position s Hs), (sw_velocity s Hs), (sw_kind s Hs), (sw_owner s Hs), (sw_sequence s Hs), (sw_seed s Hs).
  by destruct (decide (i = es_size s)).
Qed.

Lemma entity_data_add e' :
  entity_data (snd (store_add e k p c s)) e' =
  if decide (e' = e)
  then Some (mkEntityData p Vec2_zero (entity_kind_code k) c 0 (hash_u32 (u32 (e * 2654435761))))
  else entity_data s e'.
Proof.
  unfold entity_data, store_find at 1. cbn [es_index_of store_add snd].
  destruct (decide (e' = e)) as [->|Hne].
  - rewrite lookup_insert_eq. cbn -[data_at store_add]. rewrite data_at_add. by rewrite decide_True.
  - rewrite lookup_insert_ne by done. change (es_index_of s !! e') with (store_find e' s).
    destruct (store_find e' s) as [i|] eqn:E; [|done]. cbn -[data_at store_add]. rewrite data_at_add.
    pose proof (find_lt s e' i Hs E). by rewrite decide_False by lia.
Qed.
End Add.

Section Remove.
Context (s : EntityStore) (Hs : store_wf s) (e : Z).

Lemma remove_absent : store_find e s = None -> store_remove e s = (false, s).
Proof. intros H. unfold store_remove. unfold store_find in H. by rewrite H. Qed.

Context (index : nat) (Hfind : store_find e s = Some index).

Let s' : EntityStore := snd (store_remove e s).
Let last : nat := (es_size s - 1)%nat.

Lemma remove_present : fst (store_remove e s) = true.
Proof. unfold store_remove. unfold store_find in Hfind. by rewrite Hfind. Qed.

Lemma remove_size : es_size s' = last.
Proof.
  subst s' last. unfold store_remove, es_size. unfold store_find in Hfind. rewrite Hfind. cbn.
  by rewrite length_swap_pop.
Qed.

Lemma remove_id_lookup i :
  es_id s' !! i = if decide (i < last)%nat then es_id s !! (if decide (i = index) then last else i) else None.
Proof.
  pose proof (find_lt s e index Hs Hfind) as Hlt. pose proof remove_size as Hsz.
  destruct (decide (i < last)%nat) as [Hi|Hi].
  - subst s' last. unfold store_remove. unfold store_find in Hfind. rewrite Hfind. cbn. by apply lookup_swap_pop.
  - apply lookup_ge_None_2. unfold es_size at 1 in Hsz. lia.
Qed.

Lemma remove_index_lookup e' :
  es_index_of s' !! e' =
  if decide (e' = e) then None
  else if decide (es_id s !! last = Some e') then Some index else es_index_of s !! e'.
Proof.
  pose proof (find_lt s e index Hs Hfind) as Hlt.
  pose proof (proj1 (find_id s e index Hs) Hfind) as Hid.
  destruct (lookup_lt_is_Some_2 (es_id s) last) as [m Hm]; [subst last; unfold es_size in *; lia|].
  subst s' last. unfold store_remove. unfold store_find in Hfind. rewrite Hfind. cbn. rewrite Hm.
  destruct (decide (e' = e)) as [->|Hne]; [by rewrite lookup_delete_eq|].
  rewrite lookup_delete_ne by done. destruct (decide (index = es_size s - 1)%nat) as [E|Hne'].
  - rewrite <- E in Hm. rewrite decide_False by congruence. done.
  - destruct (decide (m = e')) as [->|].
    + rewrite lookup_insert_eq. by rewrite decide_True.
    + rewrite lookup_insert_ne by done. by rewrite decide_False by congruence.
Qed.

Lemma store_remove_wf : store_wf s'.
Proof.
  pose proof (find_lt s e index Hs Hfind) as Hlt.
  pose proof (proj1 (find_id s e index Hs) Hfind) as Hid.
  pose proof remove_size as Hlen. split.
  1-6: rewrite Hlen; subst s' last; unfold store_remove; unfold store_find in Hfind; rewrite Hfind; cbn;
       rewrite length_swap_pop; destruct Hs; lia.
  intros e' i. rewrite remove_index_lookup, remove_id_lookup.
  pose proof (sw_index s Hs) as Hix. destruct (decide (e' = e)) as [->|Hne].
  - split; [done|]. destruct (decide (i < last)%nat); [|done]. intros H%Hix.
    apply Hix in Hid. destruct (decide (i = index)); [|congruence]. assert (last = index) by congruence. lia.
  - destruct (decide (es_id s !! last = Some e')) as [Hl|Hl].
    + assert (index <> last) by (intros ->; congruence). split.
      * intros [= <-]. rewrite decide_True by (subst last; lia). by rewrite decide_True.
      * destruct (decide (i < last)%nat); [|done]. destruct (decide (i = index)); [congruence|].
        intros Hi%Hix. apply Hix in Hl. assert (last = i) by congruence. lia.
    + rewrite Hix. split.
      * intros Hi. assert (i <> last) by (intros ->; congruence).
        pose proof (lookup_lt_Some _ _ _ Hi). unfold es_size in *.
        rewrite decide_True by (subst last; unfold es_size; lia). rewrite decide_False; [done|]. intros ->. congruence.
      * destruct (decide (i < last)%nat); [|done]. by destruct (decide (i = index)).
Qed.

Lemma data_at_remove i : (i < last)%nat -> data_at s' i = data_at s (if decide (i = index) then last else i).
Proof.
  pose proof (find_lt s e index Hs Hfind) as Hlt. intros Hi. subst s' last. unfold data_at, store_remove.
  unfold store_find in Hfind. rewrite Hfind. cbn. by destruct Hs; rewrite !(lookup_swap_pop index (es_size s)).
Qed.

Lemma entity_data_remove e' : entity_data s' e' = if decide (e' = e) then None else entity_data s e'.
Proof.
  pose proof (find_lt s e index Hs Hfind) as Hlt. unfold entity_data, store_find.
  rewrite remove_index_lookup. destruct (decide (e' = e)) as [->|Hne]; [done|].
  pose proof (proj1 (find_id s e index Hs) Hfind) as Hid.
  destruct (decide (es_id s !! last = Some e')) as [Hl|Hl].
  - apply (sw_index s Hs) in Hl as Hx. rewrite Hx. cbn -[data_at].
    assert (index <> last) by (intros ->; congruence).
    rewrite data_at_remove by (subst last; lia). by rewrite decide_True.
  - destruct (es_index_of s !! e') as [i|] eqn:Ex; [|done]. cbn -[data_at].
    apply (sw_index s Hs) in Ex as Hi. pose proof (lookup_lt_Some _ _ _ Hi).
    assert (i <> last) by (intros ->; congruence).
    rewrite data_at_remove by (subst last; unfold es_size in *; lia).
    rewrite decide_False; [done|]. intros ->. congruence.
Qed.
End Remove.

#[global] Arguments store_add : simpl never.
#[global] Arguments store_remove : simpl never.

(** ** Theorems *)

(** C12. [EntityStore] refines a finite map from entity ids to records.  Adding a
    new entity appends it and inserts its record; removing a present entity
    deletes exactly its record, though the last entity moves into the hole;
    removing an absent one changes nothing and returns false; the index stays
    the exact inverse of the id array throughout. *)
Theorem store_refines_map (s : EntityStore) (e : Z) (k : EntityKind) (p : Vec2) (c : Z) :
  store_wf s ->
  (store_find e s = None ->
     let '(index, s') := store_add e k p c s in
     store_wf s' /\ index = es_size s /\ es_size s' = S (es_size s) /\ store_find e s' = Some index /\
     forall e', entity_data s' e' =
       if decide (e' = e)
       then Some (mkEntityData p Vec2_zero (entity_kind_code k) c 0 (hash_u32 (u32 (e * 2654435761))))
       else entity_data s e') /\
  (let '(removed, s') := store_remove e s in
   store_wf s' /\ (removed = true <-> is_Some (store_find e s)) /\
   (removed = true -> S (es_size s') = es_size s) /\ (removed = false -> s' = s) /\
   forall e', entity_data s' e' = if decide (e' = e) then None else entity_data s e').
Proof.
  intros Hs. split.
  - intros Hf. pose proof (store_add_wf s Hs e k p c Hf) as Hw. pose proof (entity_data_add s Hs e k p c) as Hd.
    destruct (store_add e k p c s) as [index s'] eqn:E. injection E as <- <-. cbn [snd] in *.
    split; [done|]. split; [done|]. split; [unfold es_size; cbn; rewrite length_app; cbn; lia|].
    split; [|done]. unfold store_find. cbn. by rewrite lookup_insert_eq.
  - destruct (store_find e s) as [index|] eqn:Ef.
    + pose proof (store_remove_wf s Hs e index Ef) as Hw. pose proof (entity_data_remove s Hs e index Ef) as Hd.
      pose proof (remove_present s e index Ef) as Ht. pose proof (remove_size s e index Ef) as Hsz.
      pose proof (find_lt s e index Hs Ef).
      destruct (store_remove e s) as [removed s']. cbn [fst snd] in *. subst removed.
      split_and!; try done. lia.
    + rewrite remove_absent by done. split; [done|]. split; [by split; [|intros [? ?]]|].
      split; [done|]. split; [done|].
      intros e'. destruct (decide (e' = e)) as [->|]; [|done]. unfold entity_data. by rewrite Ef.
Qed.

Definition sample_store : EntityStore :=
  snd (store_add 3 kDrifter Vec2_zero 0 (snd (store_add 2 kPlayer Vec2_zero 7
    (snd (store_add 1 kPlayer Vec2_zero 5 EntityStore_empty))))).

Lemma store_refines_map_witness :
  let s' := snd (store_remove 1 sample_store) in
  es_id s' = [3; 2] /\ store_find 3 s' = Some 0%nat /\ entity_data s' 1 = None /\
  entity_data s' 3 = entity_data sample_store 3.
Proof.
  assert (Hw : store_wf sample_store).
  { apply store_add_wf; [|vm_compute; reflexivity]. apply store_add_wf; [|vm_compute; reflexivity].
    apply store_add_wf; [apply store_wf_empty|reflexivity]. }
  destruct (store_refines_map sample_store 1 kPlayer Vec2_zero 0 Hw) as [_ H].
  destruct (store_remove 1 sample_store) as [removed s'] eqn:E. cbv zeta. cbn [snd].
  destruct H as (_ & _ & _ & _ & Hd). rewrite (Hd 1), (Hd 3).
  vm_compute in E. injection E as <- <-. split_and!; reflexivity.
Defined.
