(* ===== verification/World.v ===== *)
(** * World: the authoritative simulation ([src/src/sim/world.h], [world.cpp])

    Queued inputs, the tick (integration, grid rebuild, collisions) and the
    per-player command buffer.  [players_] is an [unordered_map]; the tick visits
    it in an order the standard library does not fix, so the order is an argument
    of [step] and the theorems hold for every order.  Timers are not modelled. *)

From S2P Require Import Prelude F32 Quantizer Movement Morton Grid EntityStore.
From Stdlib Require Import ZArith Lia Bool Floats.SpecFloat.
From stdpp Require Import base tactics numbers list option gmap sorting.
#[local] Open Scope Z_scope.

Definition kInputRepeatTicks : Z := 6.
Definition kMaxQueuedInputs : nat := 32.
Definition kDrifterHeadingTicks : Z := 45.

Record WorldStats := mkWorldStats {
  st_entity_count : Z;
  st_player_count : Z;
  st_inputs_applied : Z;
  st_inputs_starved : Z;
  st_collision_pairs : Z;
  st_peak_cell_occupancy : Z
}.

Definition WorldStats_zero : WorldStats := mkWorldStats 0 0 0 0 0 0.

Record PlayerSlot := mkPlayerSlot {
  ps_entity : Z;
  ps_client : Z;
  ps_pending : list MoveInput;
  ps_last_applied : MoveInput;
  ps_last_applied_sequence : Z;
  ps_highest_received_sequence : Z;
  ps_dropped_stale_inputs : Z;
  ps_has_applied : bool
}.

Definition new_slot (entity client sequence : Z) : PlayerSlot :=
  mkPlayerSlot entity client [] MoveInput_default sequence sequence 0 false.

Record World := mkWorld {
  w_params : WorldParams;
  w_entities : EntityStore;
  w_grid : SpatialGrid;
  w_players : gmap Z PlayerSlot;
  w_stats : WorldStats;
  w_tick : Z;
  w_next_entity : Z
}.

Definition World_new : World :=
  mkWorld WorldParams_default EntityStore_empty SpatialGrid_empty ∅ WorldStats_zero 0 1.

Definition set_entities (s : EntityStore) (w : World) : World :=
  mkWorld (w_params w) s (w_grid w) (w_players w) (w_stats w) (w_tick w) (w_next_entity w).
Definition set_players (p : gmap Z PlayerSlot) (w : World) : World :=
  mkWorld (w_params w) (w_entities w) (w_grid w) p (w_stats w) (w_tick w) (w_next_entity w).
Definition set_stats (st : WorldStats) (w : World) : World :=
  mkWorld (w_params w) (w_entities w) (w_grid w) (w_players w) st (w_tick w) (w_next_entity w).
Definition set_grid (g : SpatialGrid) (w : World) : World :=
  mkWorld (w_params w) (w_entities w) g (w_players w) (w_stats w) (w_tick w) (w_next_entity w).
Definition set_next_entity (n : Z) (w : World) : World :=
  mkWorld (w_params w) (w_entities w) (w_grid w) (w_players w) (w_stats w) (w_tick w) n.
Definition set_tick (t : Z) (w : World) : World :=
  mkWorld (w_params w) (w_entities w) (w_grid w) (w_players w) (w_stats w) t (w_next_entity w).

(** Writes to one slot of one array of the store. *)
Definition set_positions (l : list Vec2) (s : EntityStore) : EntityStore :=
  mkEntityStore (es_id s) l (es_velocity s) (es_kind s) (es_owner s) (es_last_input_sequence s) (es_ai_seed s) (es_index_of s).
Definition set_velocities (l : list Vec2) (s : EntityStore) : EntityStore :=
  mkEntityStore (es_id s) (es_position s) l (es_kind s) (es_owner s) (es_last_input_sequence s) (es_ai_seed s) (es_index_of s).
Definition set_owners (l : list Z) (s : EntityStore) : EntityStore :=
  mkEntityStore (es_id s) (es_position s) (es_velocity s) (es_kind s) l (es_last_input_sequence s) (es_ai_seed s) (es_index_of s).
Definition set_sequences (l : list Z) (s : EntityStore) : EntityStore :=
  mkEntityStore (es_id s) (es_position s) (es_velocity s) (es_kind s) (es_owner s) l (es_ai_seed s) (es_index_of s).

Definition set_motion (i : nat) (p v : Vec2) (s : EntityStore) : EntityStore :=
  set_velocities (<[i := v]> (es_velocity s)) (set_positions (<[i := p]> (es_position s)) s).

(** ** Operations *)
Section WorldOps.
Context `{Platform}.

(** [None] when a [MORTON_CHECK] aborts. *)
Definition configure (params : WorldParams) (cells_per_axis : Z) (w : World) : option World :=
  g ← grid_configure (w_grid w) (wp_size params) cells_per_axis;
  if fleb (fmul (wp_player_radius params) (f32_of_Z 2)) (g_cell_size g)
  then Some (mkWorld params (w_entities w) g (w_players w) (w_stats w) (w_tick w) (w_next_entity w))
  else None.

Definition spawn_player (client : Z) (position : Vec2) (w : World) : Z * World :=
  let entity := w_next_entity w in
  let entities := snd (store_add entity kPlayer position client (w_entities w)) in
  (entity,
   set_players (<[client := new_slot entity client 0]> (w_players w))
     (set_entities entities (set_next_entity (u32 (entity + 1)) w))).

Definition spawn_drifter (position : Vec2) (w : World) : Z * World :=
  let entity := w_next_entity w in
  (entity,
   set_entities (snd (store_add entity kDrifter position 0 (w_entities w)))
     (set_next_entity (u32 (entity + 1)) w)).

Definition despawn (entity : Z) (w : World) : World :=
  match store_find entity (w_entities w) with
  | None => w
  | Some index =>
      let client := es_owner (w_entities w) !!! index in
      let w := set_entities (snd (store_remove entity (w_entities w))) w in
      if negb (client =? 0) then set_players (delete client (w_players w)) w else w
  end.

(** The four writes of [adopt_entity] at the index of the entity. *)
Definition adopt_write (index : nat) (client : Z) (position velocity : Vec2) (last_input_sequence : Z)
    (s : EntityStore) : EntityStore :=
  let s := set_positions (<[index := position]> (es_position s)) s in
  let s := set_velocities (<[index := velocity]> (es_velocity s)) s in
  let s := set_owners (<[index := client]> (es_owner s)) s in
  set_sequences (<[index := last_input_sequence]> (es_last_input_sequence s)) s.

Definition adopt_entity (entity client : Z) (position velocity : Vec2) (last_input_sequence : Z) (w : World) : World :=
  let '(index, w) :=
    match store_find entity (w_entities w) with
    | None =>
        let '(index, entities) := store_add entity kPlayer position client (w_entities w) in
        let w := set_entities entities w in
        (index, if w_next_entity w <=? entity then set_next_entity (u32 (entity + 1)) w else w)
    | Some index => (index, w)
    end in
  let s := adopt_write index client position velocity last_input_sequence (w_entities w) in
  set_players (<[client := new_slot entity client last_input_sequence]> (w_players w)) (set_entities s w).

Definition slot_queue (input : MoveInput) (slot : PlayerSlot) : PlayerSlot :=
  if (mi_sequence input <=? ps_highest_received_sequence slot) && negb (ps_highest_received_sequence slot =? 0)
  then mkPlayerSlot (ps_entity slot) (ps_client slot) (ps_pending slot) (ps_last_applied slot)
         (ps_last_applied_sequence slot) (ps_highest_received_sequence slot)
         (u32 (ps_dropped_stale_inputs slot + 1)) (ps_has_applied slot)
  else
    let pending := if (kMaxQueuedInputs <=? length (ps_pending slot))%nat then tail (ps_pending slot)
                   else ps_pending slot in
    mkPlayerSlot (ps_entity slot) (ps_client slot) (pending ++ [quantize_input input]) (ps_last_applied slot)
      (ps_last_applied_sequence slot) (mi_sequence input) (ps_dropped_stale_inputs slot) (ps_has_applied slot).

Definition queue_input (client : Z) (input : MoveInput) (w : World) : World :=
  match w_players w !! client with
  | None => w
  | Some slot => set_players (<[client := slot_queue input slot]> (w_players w)) w
  end.

Definition count_applied (st : WorldStats) : WorldStats :=
  mkWorldStats (st_entity_count st) (st_player_count st) (u32 (st_inputs_applied st + 1)) (st_inputs_starved st)
    (st_collision_pairs st) (st_peak_cell_occupancy st).
Definition count_starved (st : WorldStats) : WorldStats :=
  mkWorldStats (st_entity_count st) (st_player_count st) (st_inputs_applied st) (u32 (st_inputs_starved st + 1))
    (st_collision_pairs st) (st_peak_cell_occupancy st).

(** The input a slot contributes to this tick: the oldest queued one, else the
    last one repeated for a few ticks, else none. *)
Definition next_input (tick : Z) (slot : PlayerSlot) : MoveInput * PlayerSlot * bool :=
  match ps_pending slot with
  | input :: pending =>
      (input,
       mkPlayerSlot (ps_entity slot) (ps_client slot) pending input (mi_sequence input)
         (ps_highest_received_sequence slot) (ps_dropped_stale_inputs slot) true,
       true)
  | [] =>
      if ps_has_applied slot && (u32 (tick - mi_tick (ps_last_applied slot)) <=? kInputRepeatTicks)
      then (ps_last_applied slot, slot, false)
      else (mkMoveInput (ps_last_applied_sequence slot) 0 f0 f0 false, slot, false)
  end.

(** One iteration of the loop of [apply_inputs]. *)
Definition apply_slot (client : Z) (w : World) : World :=
  match w_players w !! client with
  | None => w
  | Some slot =>
      match store_find (ps_entity slot) (w_entities w) with
      | None => w
      | Some index =>
          let '(input, slot, applied) := next_input (w_tick w) slot in
          let stats := if applied : bool then count_applied (w_stats w) else count_starved (w_stats w) in
          let s := w_entities w in
          let state := mkMoveState (es_position s !!! index) (es_velocity s !!! index) in
          let state := step_movement state input (w_params w) (tick_dt (w_params w)) in
          let s := set_motion index (ms_position state) (ms_velocity state) s in
          let s := set_sequences (<[index := ps_last_applied_sequence slot]> (es_last_input_sequence s)) s in
          set_stats stats (set_players (<[client := slot]> (w_players w)) (set_entities s w))
      end
  end.

Definition apply_inputs (order : list Z) (w : World) : World := foldl (fun w client => apply_slot client w) w order.

Definition angle_of (noise : Z) : f32 :=
  fmul (fdiv (f32_of_Z (Z.land noise 0xffff)) (f32_of_Z 65535)) (f32_lit 62831853 10000000).

Definition drifter_input (seed tick : Z) : MoveInput :=
  let heading_epoch := tick / kDrifterHeadingTicks in
  let noise := hash_u32 (Z.lxor seed (hash_u32 heading_epoch)) in
  let angle := angle_of noise in
  quantize_input (mkMoveInput 0 0 (std_cos angle) (std_sin angle) false).

Definition drive_drifter (w : World) (i : nat) : World :=
  let s := w_entities w in
  if negb (es_kind s !!! i =? entity_kind_code kDrifter) then w else
  let state := mkMoveState (es_position s !!! i) (es_velocity s !!! i) in
  let state := step_movement state (drifter_input (es_ai_seed s !!! i) (w_tick w)) (w_params w) (tick_dt (w_params w)) in
  set_entities (set_motion i (ms_position state) (ms_velocity state) s) w.

Definition drive_drifters (w : World) : World :=
  foldl drive_drifter w (seq 0 (es_size (w_entities w))).

Definition integrate (order : list Z) (w : World) : World := drive_drifters (apply_inputs order w).

(** The callback of [resolve_collisions] on the positions and the pair count. *)
Definition push_apart (ids : list Z) (diameter : f32) (a b : nat) (st : list Vec2 * Z) : list Vec2 * Z :=
  let '(position, pairs) := st in
  let delta := vsub (position !!! b) (position !!! a) in
  let distance := vlength delta in
  let '(axis, distance) :=
    if fltb distance (f32_lit 1 10000) then
      let tie_break := hash_u32 (Z.lxor (ids !!! a) (u32 (Z.shiftl (ids !!! b) 16))) in
      let angle := angle_of tie_break in
      (mkVec2 (std_cos angle) (std_sin angle), f0)
    else (vscale delta (fdiv f1 distance), distance) in
  let overlap := fsub diameter distance in
  if fleb overlap f0 then (position, pairs)
  else
    let correction := vscale axis (fmul overlap fhalf) in
    let position := <[a := vsub (position !!! a) correction]> position in
    let position := <[b := vadd (position !!! b) correction]> position in
    (position, u32 (pairs + 1)).

Definition clamp_position (params : WorldParams) (p : Vec2) : Vec2 :=
  mkVec2 (clampf (vec_x p) (wall_low params) (wall_high params)) (clampf (vec_y p) (wall_low params) (wall_high params)).

Definition resolve_collisions (w : World) : option World :=
  let s := w_entities w in
  let diameter := fmul (wp_player_radius (w_params w)) (f32_of_Z 2) in
  '(position, pairs) ← for_each_pair (w_grid w) fst diameter (push_apart (es_id s) diameter) (es_position s, 0);
  let st := w_stats w in
  let st := mkWorldStats (st_entity_count st) (st_player_count st) (st_inputs_applied st) (st_inputs_starved st)
              pairs (st_peak_cell_occupancy st) in
  Some (set_stats st (set_entities (set_positions (clamp_position (w_params w) <$> position) s) w)).

(** One tick; [order] is the order in which the map of players is visited. *)
Definition step (order : list Z) (w : World) : option World :=
  let st := w_stats w in
  let w := set_stats (mkWorldStats (st_entity_count st) (st_player_count st) 0 0 (st_collision_pairs st)
                        (st_peak_cell_occupancy st)) w in
  let w := integrate order w in
  let w := set_grid (grid_build (w_grid w) (es_position (w_entities w))) w in
  w ← resolve_collisions w;
  let st := w_stats w in
  let st := mkWorldStats (Z.of_nat (es_size (w_entities w))) (Z.of_nat (size (w_players w))) (st_inputs_applied st)
              (st_inputs_starved st) (st_collision_pairs st) (Z.of_nat (peak_cell_occupancy (w_grid w))) in
  Some (set_tick (u32 (w_tick w + 1)) (set_stats st w)).

Definition player_of (client : Z) (w : World) : option PlayerSlot := w_players w !! client.
End WorldOps.

(** ** The command buffer of one player *)

(** Strictly increasing, but for the sequence 0, which the source never rejects. *)
Definition seq_before (a b : Z) : Prop := a < b \/ (a = 0 /\ b = 0).

Record slot_ok (slot : PlayerSlot) : Prop := {
  so_length : (length (ps_pending slot) <= kMaxQueuedInputs)%nat;
  so_nonneg : 0 <= ps_last_applied_sequence slot;
  so_order : StronglySorted seq_before (ps_last_applied_sequence slot :: (mi_sequence <$> ps_pending slot));
  so_high : Forall (fun s => s <= ps_highest_received_sequence slot)
              (ps_last_applied_sequence slot :: (mi_sequence <$> ps_pending slot));
  so_level : Forall level_input (ps_pending slot)
}.

#[export] Instance seq_before_trans : Transitive seq_before.
Proof. intros a b c. unfold seq_before. lia. Qed.

Lemma seq_before_nonneg a b : 0 <= a -> seq_before a b -> 0 <= b.
Proof. unfold seq_before. lia. Qed.

Lemma new_slot_ok e c q : 0 <= q -> slot_ok (new_slot e c q).
Proof.
  intros Hq. split; cbn; [lia|lia|repeat constructor|repeat constructor; lia|constructor].
Qed.

Lemma StronglySorted_snoc {A} (R : A -> A -> Prop) l x :
  StronglySorted R l -> Forall (fun y => R y x) l -> StronglySorted R (l ++ [x]).
Proof.
  induction 1 as [|y l Hl IH Hy]; intros Hf; [repeat constructor|].
  inversion_clear Hf as [|? ? Hyx Hlx]. cbn. constructor; [by apply IH|].
  apply Forall_app. split; [done|by repeat constructor].
Qed.

Lemma StronglySorted_skip {A} (R : A -> A -> Prop) x y l :
  StronglySorted R (x :: y :: l) -> StronglySorted R (x :: l).
Proof.
  intros Hs. inversion_clear Hs as [|? ? Hl Hx]. inversion_clear Hl. inversion_clear Hx. by constructor.
Qed.

Section Slots.
Context `{Platform}.

(** On a slot without its oldest command. *)
Lemma slot_ok_tail slot :
  slot_ok slot ->
  StronglySorted seq_before (ps_last_applied_sequence slot :: (mi_sequence <$> tail (ps_pending slot))) /\
  Forall (fun s => s <= ps_highest_received_sequence slot)
    (ps_last_applied_sequence slot :: (mi_sequence <$> tail (ps_pending slot))) /\
  Forall level_input (tail (ps_pending slot)).
Proof.
  intros [_ _ Ho Hh Hl]. destruct (ps_pending slot) as [|i l]; [done|]. cbn [tail].
  change (mi_sequence <$> i :: l) with (mi_sequence i :: (mi_sequence <$> l)) in *.
  split_and!; [by eapply StronglySorted_skip| |by inversion_clear Hl].
  inversion_clear Hh as [|? ? H1 H2]. inversion_clear H2. by constructor.
Qed.

Lemma push_ok slot pending input dropped :
  slot_ok slot ->
  StronglySorted seq_before (ps_last_applied_sequence slot :: (mi_sequence <$> pending)) ->
  Forall (fun s => s <= ps_highest_received_sequence slot)
    (ps_last_applied_sequence slot :: (mi_sequence <$> pending)) ->
  Forall level_input pending -> (length pending < kMaxQueuedInputs)%nat ->
  seq_before (ps_highest_received_sequence slot) (mi_sequence input) -> analog_input input ->
  slot_ok (mkPlayerSlot (ps_entity slot) (ps_client slot) (pending ++ [quantize_input input]) (ps_last_applied slot)
             (ps_last_applied_sequence slot) (mi_sequence input) dropped (ps_has_applied slot)).
Proof.
  intros Hs Po Ph Pl Plen Hb Ha. pose proof Hs as [_ Hn _ _ _].
  assert (Hall : Forall (fun s => seq_before s (mi_sequence input) /\ s <= mi_sequence input)
            (ps_last_applied_sequence slot :: (mi_sequence <$> pending))).
  { inversion_clear Po as [|? ? _ Pf]. rewrite Forall_cons in Ph. destruct Ph as [P1 P2].
    unfold seq_before in Hb. constructor; [unfold seq_before; lia|].
    rewrite Forall_forall in Pf, P2 |- *. intros s Hs'. specialize (Pf s Hs'). specialize (P2 s Hs').
    apply seq_before_nonneg in Pf; [|done]. cbn in P2. unfold seq_before. lia. }
  split; cbn [ps_pending ps_last_applied_sequence ps_highest_received_sequence];
    rewrite ?length_app, ?fmap_app; cbn [length]; [lia|done| | |].
  - rewrite app_comm_cons. apply StronglySorted_snoc; [done|]. eapply Forall_impl; [exact Hall|]. cbn. tauto.
  - rewrite app_comm_cons. apply Forall_app. split; [|repeat constructor; cbn; lia].
    eapply Forall_impl; [exact Hall|]. cbn. tauto.
  - apply Forall_app. split; [done|]. constructor; [by apply quantize_input_level|constructor].
Qed.

Lemma slot_queue_ok slot input :
  slot_ok slot -> 0 <= mi_sequence input -> analog_input input -> slot_ok (slot_queue input slot).
Proof.
  intros Hs Hq Ha. pose proof (slot_ok_tail slot Hs) as (To & Th & Tl). pose proof Hs as [Hlen Hn Ho Hh Hl].
  unfold slot_queue. destruct (_ && _) eqn:Estale; [by split|].
  apply push_ok; try done; try (destruct (Nat.leb_spec kMaxQueuedInputs (length (ps_pending slot))); done || lia).
  - destruct (Nat.leb_spec kMaxQueuedInputs (length (ps_pending slot))); [|done].
    unfold kMaxQueuedInputs in *. destruct (ps_pending slot); cbn in *; lia.
  - rewrite andb_false_iff, negb_false_iff, Z.leb_gt, Z.eqb_eq in Estale. unfold seq_before.
    destruct (Z.eq_dec (mi_sequence input) 0); lia.
Qed.

Lemma next_input_ok tick slot : slot_ok slot ->
  let '(input, slot', applied) := next_input tick slot in
  slot_ok slot' /\ ps_entity slot' = ps_entity slot /\ ps_client slot' = ps_client slot /\
  ps_highest_received_sequence slot' = ps_highest_received_sequence slot /\
  (applied = true -> seq_before (ps_last_applied_sequence slot) (mi_sequence input) /\
     ps_last_applied_sequence slot' = mi_sequence input /\ level_input input /\
     ps_pending slot = input :: ps_pending slot') /\
  (applied = false -> slot' = slot).
Proof.
  intros Hs. pose proof (slot_ok_tail slot Hs) as (To & Th & Tl). pose proof Hs as [Hlen Hn Ho Hh Hl].
  unfold next_input. destruct (ps_pending slot) as [|input pending] eqn:E.
  - destruct (_ && _); split_and!; done.
  - change (mi_sequence <$> input :: pending) with (mi_sequence input :: (mi_sequence <$> pending)) in *.
    inversion_clear Ho as [|? ? Ho' Hf]. inversion_clear Hf as [|? ? Hb _].
    inversion_clear Hh as [|? ? _ Hh']. inversion_clear Hl as [|? ? Hli Hl'].
    split_and!; try done. split; cbn; try done; [cbn in Hlen; lia|by eapply seq_before_nonneg].
Qed.
Lemma sublist_full {A} (l1 l2 : list A) : l1 `sublist_of` l2 -> length l1 = length l2 -> l1 = l2.
Proof.
  induction 1 as [|x l1 l2 _ IH|x l1 l2 Hs _]; intros El; [done| |]; cbn in El.
  - f_equal. apply IH. lia.
  - apply sublist_length in Hs. lia.
Qed.

(** *** Histories of a slot *)
Inductive SlotEvent :=
  | Receive (input : MoveInput)
  | TakeTick (tick : Z).

(** A tick of the slot: the input it was integrated with, and whether that one was
    taken from the queue for it. *)
Record Integration := mkIntegration { in_tick : Z; in_input : MoveInput; in_fresh : bool }.

(** A slot with what happened to it: its ticks, the sequences taken from the queue, the
    sequences accepted into it, and how many were dropped by a full queue. *)
Record SlotTrace := mkSlotTrace {
  tr_slot : PlayerSlot;
  tr_ticks : list Integration;
  tr_applied : list Z;
  tr_accepted : list Z;
  tr_overflowed : nat
}.

Definition stale (input : MoveInput) (slot : PlayerSlot) : bool :=
  (mi_sequence input <=? ps_highest_received_sequence slot) && negb (ps_highest_received_sequence slot =? 0).

Definition slot_exec (t : SlotTrace) (ev : SlotEvent) : SlotTrace :=
  let slot := tr_slot t in
  match ev with
  | Receive input =>
      let full := (kMaxQueuedInputs <=? length (ps_pending slot))%nat in
      mkSlotTrace (slot_queue input slot) (tr_ticks t) (tr_applied t)
        (if stale input slot then tr_accepted t else tr_accepted t ++ [mi_sequence input])
        (if negb (stale input slot) && full then S (tr_overflowed t) else tr_overflowed t)
  | TakeTick tick =>
      let '(input, slot', applied) := next_input tick slot in
      mkSlotTrace slot' (tr_ticks t ++ [mkIntegration tick input applied])
        (if applied : bool then tr_applied t ++ [mi_sequence input] else tr_applied t)
        (tr_accepted t) (tr_overflowed t)
  end.

(** A slot made for a player whose last command was [q]. *)
Definition trace_start (e c q : Z) : SlotTrace := mkSlotTrace (new_slot e c q) [] [] [] 0.
Definition slot_run (e c q : Z) (events : list SlotEvent) : SlotTrace := foldl slot_exec (trace_start e c q) events.

(** What a tick with an empty queue integrates: the last command taken, for the ticks up
    to [kInputRepeatTicks] after the one it names, and then nothing. *)
Definition repeated_input (q : Z) (taken : option MoveInput) (tick : Z) : MoveInput :=
  match taken with
  | Some input => if u32 (tick - mi_tick input) <=? kInputRepeatTicks then input else mkMoveInput (mi_sequence input) 0 f0 f0 false
  | None => mkMoveInput q 0 f0 f0 false
  end.

Definition last_taken (taken : option MoveInput) (ticks : list Integration) : option MoveInput :=
  foldl (fun taken x => if in_fresh x then Some (in_input x) else taken) taken ticks.

Fixpoint starved_as (q : Z) (taken : option MoveInput) (ticks : list Integration) : Prop :=
  match ticks with
  | [] => True
  | x :: ticks => if in_fresh x then starved_as q (Some (in_input x)) ticks
                  else in_input x = repeated_input q taken (in_tick x) /\ starved_as q taken ticks
  end.

Lemma starved_as_snoc q taken ticks x : starved_as q taken (ticks ++ [x]) <->
  starved_as q taken ticks /\ (in_fresh x = false -> in_input x = repeated_input q (last_taken taken ticks) (in_tick x)).
Proof.
  revert taken. induction ticks as [|y ticks IH]; intros taken; cbn; [destruct (in_fresh x); naive_solver|].
  destruct (in_fresh y); rewrite IH; naive_solver.
Qed.

Definition event_ok (ev : SlotEvent) : Prop :=
  match ev with Receive i => 0 <= mi_sequence i /\ analog_input i | TakeTick _ => True end.

Record trace_ok (q : Z) (t : SlotTrace) : Prop := {
  to_slot : slot_ok (tr_slot t);
  to_last : ps_last_applied_sequence (tr_slot t) = default q (last (tr_applied t));
  to_order : StronglySorted seq_before (q :: tr_applied t);
  to_below : Forall (fun s => seq_before s (ps_last_applied_sequence (tr_slot t)) \/
                              s = ps_last_applied_sequence (tr_slot t)) (q :: tr_applied t);
  to_sublist : (tr_applied t ++ (mi_sequence <$> ps_pending (tr_slot t))) `sublist_of` tr_accepted t;
  to_count : (length (tr_applied t) + length (ps_pending (tr_slot t)) + tr_overflowed t = length (tr_accepted t))%nat;
  to_fresh : (mi_sequence ∘ in_input) <$> filter (fun x => in_fresh x = true) (tr_ticks t) = tr_applied t;
  to_starved : starved_as q None (tr_ticks t);
  to_taken : match last_taken None (tr_ticks t) with
             | Some input => ps_has_applied (tr_slot t) = true /\ ps_last_applied (tr_slot t) = input /\
                             ps_last_applied_sequence (tr_slot t) = mi_sequence input
             | None => ps_has_applied (tr_slot t) = false /\ ps_last_applied_sequence (tr_slot t) = q
             end
}.

Lemma quantize_sequence i : mi_sequence (quantize_input i) = mi_sequence i.
Proof. done. Qed.

Lemma sublist_tail_app {A} (l k m : list A) x : l ++ x :: k `sublist_of` m -> l ++ k `sublist_of` m.
Proof. intros Hs. etrans; [|exact Hs]. apply sublist_app; [done|]. by apply sublist_cons. Qed.

Lemma exec_receive_ok q t i : trace_ok q t -> event_ok (Receive i) -> trace_ok q (slot_exec t (Receive i)).
Proof.
  intros [Hs Hl Ho Hb Hsub Hc Hf Hst Ht] [Hq Ha]. cbn [slot_exec].
  pose proof (slot_queue_ok _ i Hs Hq Ha) as Hs'.
  unfold slot_queue in *. fold (stale i (tr_slot t)) in *. destruct (stale i (tr_slot t)); cbn [negb andb].
  { by split. }
  split; cbn [tr_slot tr_ticks tr_applied tr_accepted tr_overflowed ps_pending ps_last_applied_sequence ps_has_applied ps_last_applied]; try done.
  - rewrite fmap_app, app_assoc. apply sublist_app; [|done].
    destruct (Nat.leb_spec kMaxQueuedInputs (length (ps_pending (tr_slot t)))); [|done].
    destruct (ps_pending (tr_slot t)); [exact Hsub|]. eapply sublist_tail_app. exact Hsub.
  - rewrite !length_app. cbn [length].
    destruct (Nat.leb_spec kMaxQueuedInputs (length (ps_pending (tr_slot t)))); [|lia].
    unfold kMaxQueuedInputs in *. destruct (ps_pending (tr_slot t)); cbn in *; lia.
Qed.

(** A tick with an empty queue. *)
Lemma exec_starved_ok q t k : trace_ok q t -> ps_pending (tr_slot t) = [] ->
  next_input k (tr_slot t) = (repeated_input q (last_taken None (tr_ticks t)) k, tr_slot t, false).
Proof.
  intros [_ _ _ _ _ _ _ _ Ht] Ep. unfold next_input, repeated_input. rewrite Ep.
  destruct (last_taken None (tr_ticks t)) as [input|].
  - destruct Ht as (-> & -> & ->). cbn [andb]. by destruct (_ <=? _).
  - by destruct Ht as [-> ->].
Qed.

Lemma exec_tick_ok q t k : trace_ok q t -> trace_ok q (slot_exec t (TakeTick k)).
Proof.
  intros Hok. pose proof Hok as [Hs Hl Ho Hb Hsub Hc Hf Hst Ht]. cbn [slot_exec]. destruct (ps_pending (tr_slot t)) as [|input pending] eqn:Ep.
  - rewrite (exec_starved_ok q t k Hok Ep). split; cbn [tr_slot tr_ticks tr_applied tr_accepted tr_overflowed]; rewrite ?Ep; try done.
    + by rewrite filter_app, filter_cons_False, app_nil_r.
    + by apply starved_as_snoc.
    + unfold last_taken in *. by rewrite foldl_snoc.
  - pose proof (next_input_ok k _ Hs) as Hn. unfold next_input in *. rewrite Ep in *. destruct Hn as (Hs' & _ & _ & _ & Hlt & _).
    destruct Hlt as (Hlt & _ & _ & _); [done|]. split; cbn [tr_slot tr_ticks tr_applied tr_accepted tr_overflowed ps_pending
      ps_last_applied_sequence ps_has_applied ps_last_applied]; try done.
    + by rewrite last_snoc.
    + rewrite app_comm_cons. apply StronglySorted_snoc; [done|]. eapply Forall_impl; [exact Hb|]. cbn.
      intros s [Hsb|E]; [by etrans|]. by subst s.
    + rewrite app_comm_cons. apply Forall_app. split; [|apply Forall_singleton; by right].
      eapply Forall_impl; [exact Hb|]. cbn. intros s [Hsb|E]; left; [by etrans|]. by subst s.
    + by rewrite <- app_assoc.
    + rewrite length_app. cbn in *. lia.
    + by rewrite filter_app, fmap_app, Hf, filter_cons_True.
    + apply starved_as_snoc. by split.
    + unfold last_taken. by rewrite foldl_snoc.
Qed.

Lemma slot_run_ok e c q events : 0 <= q -> Forall event_ok events -> trace_ok q (slot_run e c q events).
Proof.
  unfold slot_run. intros Hq Hev.
  assert (H0 : trace_ok q (trace_start e c q)).
  { split; cbn; try done; [by apply new_slot_ok|repeat constructor|by repeat constructor; right]. }
  revert H0. generalize (trace_start e c q).
  induction Hev as [|ev events He _ IH]; intros t Ht; [done|]. cbn [foldl]. apply IH.
  destruct ev; [by apply exec_receive_ok|by apply exec_tick_ok].
Qed.
End Slots.

(** ** The invariant of the world *)
Record world_ok (w : World) : Prop := {
  wo_store : store_wf (w_entities w);
  wo_next : 0 < w_next_entity w < 2 ^ 32;
  wo_ids : forall e i, store_find e (w_entities w) = Some i -> 0 < e < w_next_entity w;
  wo_slot : forall c slot, w_players w !! c = Some slot ->
    slot_ok slot /\ ps_client slot = c /\ c <> 0 /\
    ed_owner <$> entity_data (w_entities w) (ps_entity slot) = Some c;
  wo_owner : forall e c, ed_owner <$> entity_data (w_entities w) e = Some c -> c <> 0 ->
    exists slot, w_players w !! c = Some slot /\ ps_entity slot = e;
  wo_params : params_ok (w_params w);
  wo_grid : grid_ok (w_grid w);
  wo_radius : fleb (fmul (wp_player_radius (w_params w)) (f32_of_Z 2)) (g_cell_size (w_grid w)) = true
}.

(** The spatial index was built over the entities the world still has. *)
Definition grid_current `{Platform} (w : World) : Prop :=
  exists g positions, grid_ok g /\ w_grid w = grid_build g positions /\ length positions = es_size (w_entities w).

(** Same entities with the same owners, at the same indices. *)
Record same_shape (s s' : EntityStore) : Prop := {
  ss_id : es_id s' = es_id s;
  ss_kind : es_kind s' = es_kind s;
  ss_owner : es_owner s' = es_owner s;
  ss_seed : es_ai_seed s' = es_ai_seed s;
  ss_index : es_index_of s' = es_index_of s;
  ss_wf : store_wf s -> store_wf s'
}.

Lemma same_shape_refl s : same_shape s s.
Proof. by split. Qed.

Lemma same_shape_trans s1 s2 s3 : same_shape s1 s2 -> same_shape s2 s3 -> same_shape s1 s3.
Proof. intros [] []. split; try congruence. auto. Qed.

Lemma same_shape_find s s' e : same_shape s s' -> store_find e s' = store_find e s.
Proof. intros []. unfold store_find. by rewrite ss_index0. Qed.

Lemma owner_lookup s e : store_wf s ->
  ed_owner <$> entity_data s e = i ← store_find e s; es_owner s !! i.
Proof.
  intros Hs. unfold entity_data. destruct (store_find e s) as [i|] eqn:E; [|done]. cbn -[data_at].
  destruct (data_at_lt s i Hs (find_lt s e i Hs E)) as [d Hd]. rewrite Hd. revert Hd. unfold data_at.
  destruct (es_position s !! i), (es_velocity s !! i), (es_kind s !! i), (es_owner s !! i),
    (es_last_input_sequence s !! i), (es_ai_seed s !! i); cbn; try done. by intros [= <-].
Qed.

Lemma same_shape_owner s s' e : same_shape s s' -> store_wf s ->
  ed_owner <$> entity_data s' e = ed_owner <$> entity_data s e.
Proof.
  intros Hss Hs. rewrite !owner_lookup by (try apply Hss; done). rewrite (same_shape_find s s') by done.
  by rewrite (ss_owner _ _ Hss).
Qed.

Lemma set_motion_shape i p v s : same_shape s (set_motion i p v s).
Proof. split; try done. intros []. split; unfold es_size in *; cbn; rewrite ?length_insert; done. Qed.

Lemma set_sequences_shape i q s :
  same_shape s (set_sequences (<[i := q]> (es_last_input_sequence s)) s).
Proof. split; try done. intros []. split; unfold es_size in *; cbn; rewrite ?length_insert; done. Qed.

Lemma set_positions_shape l s : length l = length (es_position s) -> same_shape s (set_positions l s).
Proof. intros Hl. split; try done. intros []. split; unfold es_size in *; cbn; try done; congruence. Qed.

(** What every part of a tick does to the world: entities move, players consume
    input, and nothing else changes but the statistics and the grid. *)
Record evolves (w w' : World) : Prop := {
  ev_params : w_params w' = w_params w;
  ev_shape : same_shape (w_entities w) (w_entities w');
  ev_axis : grid_ok (w_grid w) -> grid_ok (w_grid w');
  ev_cell : grid_ok (w_grid w) -> g_cell_size (w_grid w') = g_cell_size (w_grid w);
  ev_slots : forall c, match w_players w !! c, w_players w' !! c with
    | Some slot, Some slot' =>
        (slot_ok slot -> slot_ok slot') /\ ps_entity slot' = ps_entity slot /\ ps_client slot' = ps_client slot
    | None, None => True
    | _, _ => False
    end;
  ev_next : w_next_entity w' = w_next_entity w
}.

Lemma evolves_refl w : evolves w w.
Proof. split; try done. intros c. by destruct (w_players w !! c). Qed.

Lemma evolves_trans w1 w2 w3 : evolves w1 w2 -> evolves w2 w3 -> evolves w1 w3.
Proof.
  intros [] []. split; [congruence|by eapply same_shape_trans|auto| | |congruence].
  - intros Hg. rewrite ev_cell1 by auto. auto.
  - intros c. specialize (ev_slots0 c). specialize (ev_slots1 c).
    destruct (w_players w1 !! c), (w_players w2 !! c), (w_players w3 !! c); try done.
    destruct ev_slots0 as (? & ? & ?), ev_slots1 as (? & ? & ?). split_and!; auto; congruence.
Qed.

Lemma evolves_ok w w' : world_ok w -> evolves w w' -> world_ok w'.
Proof.
  intros [] Hev. pose proof Hev as [Ep Es Eg Ec Esl En].
  assert (Ho : forall e, ed_owner <$> entity_data (w_entities w') e = ed_owner <$> entity_data (w_entities w) e)
    by (intros; by apply same_shape_owner).
  split; try (rewrite ?En, ?Ep; done).
  - by apply Es.
  - intros e i. rewrite (same_shape_find _ _ _ Es), En. apply wo_ids0.
  - intros c slot' Hc. specialize (Esl c). rewrite Hc in Esl.
    destruct (w_players w !! c) as [slot|] eqn:E; [|done]. destruct (wo_slot0 c slot E) as (A & B & C & D).
    destruct Esl as (F & G & I). rewrite Ho, G. split; [by apply F|]. by rewrite I.
  - intros e c Hc Hn. rewrite Ho in Hc. destruct (wo_owner0 e c Hc Hn) as (slot & Hs & He).
    specialize (Esl c). rewrite Hs in Esl. destruct (w_players w' !! c) as [slot'|]; [|done].
    exists slot'. split; [done|]. destruct Esl as (_ & -> & _). done.
  - auto.
  - rewrite Ep, Ec by done. done.
Qed.

Section Ticks.
Context `{Platform}.

Lemma apply_slot_evolves c w : evolves w (apply_slot c w).
Proof.
  unfold apply_slot. destruct (w_players w !! c) as [slot|] eqn:Ec; [|apply evolves_refl].
  destruct (store_find _ _) as [index|]; [|apply evolves_refl].
  destruct (next_input (w_tick w) slot) as [[input slot'] applied] eqn:En.
  split; try done; cbn.
  - eapply same_shape_trans; [|apply (set_sequences_shape index _ (set_motion index _ _ (w_entities w)))].
    apply set_motion_shape.
  - intros c'. destruct (decide (c' = c)) as [->|Hne].
    + rewrite lookup_insert_eq, Ec. split_and!.
      * intros Hs. pose proof (next_input_ok (w_tick w) slot Hs) as Hn. rewrite En in Hn. apply Hn.
      * unfold next_input in En. destruct (ps_pending slot); [destruct (_ && _)|]; by injection En as <- <- <-.
      * unfold next_input in En. destruct (ps_pending slot); [destruct (_ && _)|]; by injection En as <- <- <-.
    + rewrite lookup_insert_ne by done. by destruct (w_players w !! c').
Qed.

Lemma foldl_evolves {A} (f : World -> A -> World) l w :
  (forall w a, evolves w (f w a)) -> evolves w (foldl f w l).
Proof.
  intros Hf. revert w. induction l as [|a l IH]; intros w; [apply evolves_refl|].
  eapply evolves_trans; [apply Hf|apply IH].
Qed.

Lemma set_entities_evolves w s : same_shape (w_entities w) s -> evolves w (set_entities s w).
Proof. intros. split; try done. cbn. intros c. by destruct (w_players w !! c). Qed.

Lemma drive_drifter_evolves w i : evolves w (drive_drifter w i).
Proof.
  unfold drive_drifter. destruct (negb _); [apply evolves_refl|]. apply set_entities_evolves, set_motion_shape.
Qed.

Lemma integrate_evolves order w : evolves w (integrate order w).
Proof.
  unfold integrate, drive_drifters, apply_inputs. eapply evolves_trans.
  - apply (foldl_evolves (fun w client => apply_slot client w)). intros. apply apply_slot_evolves.
  - apply foldl_evolves, drive_drifter_evolves.
Qed.

(** The pair walk keeps the number of positions. *)
Lemma push_apart_length ids d a b st : length (fst (push_apart ids d a b st)) = length (fst st).
Proof.
  unfold push_apart. destruct st as [position pairs]. cbn [fst]. destruct (if fltb _ _ then _ else _) as [axis distance].
  destruct (fleb _ _); [done|]. cbn. by rewrite !length_insert.
Qed.

Lemma pairs_length (g : SpatialGrid) ids d radius st st' :
  for_each_pair g fst radius (push_apart ids d) st = Some st' -> length (fst st') = length (fst st).
Proof.
  unfold for_each_pair. destruct (_ =? 0); [by intros [= <-]|]. destruct (negb _); [done|]. intros [= <-].
  revert st. induction (candidate_pairs g) as [|[a b] l IH]; intros st; [done|]. cbn [foldl]. rewrite IH.
  unfold pair_step. destruct (fst st !! a), (fst st !! b); try done. destruct (fleb _ _); [|done].
  apply push_apart_length.
Qed.

Lemma resolve_collisions_spec w : 
  grid_ok (w_grid w) ->
  fleb (fmul (wp_player_radius (w_params w)) (f32_of_Z 2)) (g_cell_size (w_grid w)) = true ->
  exists w', resolve_collisions w = Some w' /\ evolves w w' /\
    w_grid w' = w_grid w /\ w_players w' = w_players w /\ w_tick w' = w_tick w /\
    es_velocity (w_entities w') = es_velocity (w_entities w) /\
    es_last_input_sequence (w_entities w') = es_last_input_sequence (w_entities w) /\
    exists position, es_position (w_entities w') = clamp_position (w_params w) <$> position.
Proof.
  intros Hg Hr. unfold resolve_collisions.
  destruct (for_each_pair _ _ _ _ _) as [[position pairs]|] eqn:E.
  - eexists. split; [reflexivity|]. split; [|by eauto 10]. split; try done; cbn.
    + apply set_positions_shape. apply pairs_length in E. cbn in E. by rewrite length_fmap.
    + intros c. by destruct (w_players w !! c).
  - exfalso. unfold for_each_pair in E. rewrite Hr in E. by destruct (_ =? 0).
Qed.
End Ticks.

(** ** The visiting order of the players does not matter *)
Section Order.
Context `{Platform}.

(** Distinct clients drive distinct entities. *)
Definition slots_apart (w : World) : Prop :=
  forall c1 c2 s1 s2, w_players w !! c1 = Some s1 -> w_players w !! c2 = Some s2 ->
    ps_entity s1 = ps_entity s2 -> c1 = c2.

Lemma world_ok_apart w : world_ok w -> slots_apart w.
Proof.
  intros Hw c1 c2 s1 s2 H1 H2 E. apply (wo_slot w Hw) in H1 as (_ & _ & _ & O1).
  apply (wo_slot w Hw) in H2 as (_ & _ & _ & O2). congruence.
Qed.

Lemma next_input_entity t slot : ps_entity (snd (fst (next_input t slot))) = ps_entity slot.
Proof. unfold next_input. destruct (ps_pending slot); [destruct (_ && _)|]; done. Qed.

Lemma count_comm (a b : bool) st :
  (if a then count_applied else count_starved) ((if b then count_applied else count_starved) st) =
  (if b then count_applied else count_starved) ((if a then count_applied else count_starved) st).
Proof. by destruct a, b. Qed.

(** The slot and motion one visit computes, from the world it starts in. *)
Definition visit_slot (w : World) (slot : PlayerSlot) (index : nat) : MoveState :=
  step_movement (mkMoveState (es_position (w_entities w) !!! index) (es_velocity (w_entities w) !!! index))
    (fst (fst (next_input (w_tick w) slot))) (w_params w) (tick_dt (w_params w)).

Lemma apply_slot_eq c w slot index :
  w_players w !! c = Some slot -> store_find (ps_entity slot) (w_entities w) = Some index ->
  apply_slot c w =
  mkWorld (w_params w)
    (mkEntityStore (es_id (w_entities w))
       (<[index := ms_position (visit_slot w slot index)]> (es_position (w_entities w)))
       (<[index := ms_velocity (visit_slot w slot index)]> (es_velocity (w_entities w)))
       (es_kind (w_entities w)) (es_owner (w_entities w))
       (<[index := ps_last_applied_sequence (snd (fst (next_input (w_tick w) slot)))]>
          (es_last_input_sequence (w_entities w)))
       (es_ai_seed (w_entities w)) (es_index_of (w_entities w)))
    (w_grid w) (<[c := snd (fst (next_input (w_tick w) slot))]> (w_players w))
    ((if snd (next_input (w_tick w) slot) then count_applied else count_starved) (w_stats w))
    (w_tick w) (w_next_entity w).
Proof.
  intros Hc Hi. unfold apply_slot, visit_slot. rewrite Hc, Hi.
  destruct (next_input (w_tick w) slot) as [[input slot'] []]; reflexivity.
Qed.

Lemma apply_slot_skip c w :
  (forall slot index, w_players w !! c = Some slot -> store_find (ps_entity slot) (w_entities w) = Some index -> False) ->
  apply_slot c w = w.
Proof.
  intros Hn. unfold apply_slot. destruct (w_players w !! c) as [slot|] eqn:Ec; [|done].
  destruct (store_find (ps_entity slot) (w_entities w)) as [index|] eqn:Ei; [|done]. by destruct (Hn slot index).
Qed.

Definition visitable (c : Z) (w : World) : Prop :=
  exists slot index, w_players w !! c = Some slot /\ store_find (ps_entity slot) (w_entities w) = Some index.

Lemma visitable_dec c w : visitable c w \/ (~ visitable c w /\ apply_slot c w = w).
Proof.
  assert (D : visitable c w \/ ~ visitable c w).
  { destruct (w_players w !! c) as [slot|] eqn:Ec.
    - destruct (store_find (ps_entity slot) (w_entities w)) as [i|] eqn:Ei; [left; by exists slot, i|].
      right. intros (slot' & i & ? & ?). congruence.
    - right. intros (slot' & i & ? & ?). congruence. }
  destruct D as [D|D]; [by left|right]. split; [done|]. apply apply_slot_skip.
  intros slot i ? ?. apply D. by exists slot, i.
Qed.

Lemma visitable_frame c c' w : c <> c' -> visitable c (apply_slot c' w) <-> visitable c w.
Proof.
  intros Hne. destruct (visitable_dec c' w) as [(slot' & index' & Hc' & Hi')|[_ ->]]; [|done].
  unfold visitable. rewrite (apply_slot_eq c' w slot' index') by done. cbn. by rewrite lookup_insert_ne.
Qed.

(** A visit to [c'] does not touch what a visit to [c] reads. *)
Lemma apply_slot_frame c c' w slot index :
  store_wf (w_entities w) -> slots_apart w -> c <> c' ->
  w_players w !! c = Some slot -> store_find (ps_entity slot) (w_entities w) = Some index ->
  w_players (apply_slot c' w) !! c = Some slot /\
  store_find (ps_entity slot) (w_entities (apply_slot c' w)) = Some index /\
  visit_slot (apply_slot c' w) slot index = visit_slot w slot index /\ w_tick (apply_slot c' w) = w_tick w.
Proof.
  intros Hs Ha Hne Hc Hi. destruct (visitable_dec c' w) as [(slot' & index' & Hc' & Hi')|[_ ->]]; [|done].
  rewrite (apply_slot_eq c' w slot' index') by done. cbn.
  rewrite lookup_insert_ne by done. split; [done|]. split; [done|]. split; [|done].
  unfold visit_slot. cbn. assert (index' <> index).
  { intros ->. apply Hne. apply (Ha c c' slot slot'); [done..|].
    apply (find_id _ _ _ Hs) in Hi, Hi'. congruence. }
  by rewrite !list_lookup_total_insert_ne by done.
Qed.

Lemma apply_slot_comm c1 c2 w :
  store_wf (w_entities w) -> slots_apart w -> c1 <> c2 ->
  apply_slot c1 (apply_slot c2 w) = apply_slot c2 (apply_slot c1 w).
Proof.
  intros Hs Ha Hne.
  destruct (visitable_dec c1 w) as [V1|[N1 E1]]; [|rewrite E1; destruct (visitable_dec c1 (apply_slot c2 w)) as [V|[_ ->]];
    [by apply visitable_frame in V|done]].
  destruct (visitable_dec c2 w) as [V2|[N2 E2]]; [|rewrite E2; destruct (visitable_dec c2 (apply_slot c1 w)) as [V|[_ ->]];
    [by apply visitable_frame in V|done]].
  destruct V1 as (s1 & i1 & P1 & I1), V2 as (s2 & i2 & P2 & I2).
  destruct (apply_slot_frame c1 c2 w s1 i1) as (A1 & A2 & A3 & A4); [done..|].
  destruct (apply_slot_frame c2 c1 w s2 i2) as (B1 & B2 & B3 & B4); [done..|].
  rewrite (apply_slot_eq c1 _ s1 i1 A1 A2), (apply_slot_eq c2 _ s2 i2 B1 B2), A3, A4, B3, B4.
  rewrite (apply_slot_eq c2 w s2 i2 P2 I2), (apply_slot_eq c1 w s1 i1 P1 I1). cbn.
  assert (i1 <> i2).
  { intros ->. apply Hne. apply (Ha c1 c2 s1 s2); [done..|]. apply (find_id _ _ _ Hs) in I1, I2. congruence. }
  f_equal; [f_equal; by apply list_insert_insert_ne|by apply insert_insert_ne|apply count_comm].
Qed.

Lemma evolves_apart w w' : store_wf (w_entities w) -> slots_apart w -> evolves w w' ->
  store_wf (w_entities w') /\ slots_apart w'.
Proof.
  intros Hs Ha [_ Es _ _ Esl _]. split; [by apply Es|]. intros c1 c2 s1 s2 H1 H2 E.
  pose proof (Esl c1) as L1. pose proof (Esl c2) as L2. rewrite H1 in L1. rewrite H2 in L2.
  destruct (w_players w !! c1) as [t1|] eqn:T1; [|done]. destruct (w_players w !! c2) as [t2|] eqn:T2; [|done].
  destruct L1 as (_ & L1 & _), L2 as (_ & L2 & _). apply (Ha c1 c2 t1 t2); congruence.
Qed.

Lemma apply_inputs_order o1 o2 w :
  store_wf (w_entities w) -> slots_apart w -> NoDup o1 -> o1 ≡ₚ o2 -> apply_inputs o1 w = apply_inputs o2 w.
Proof.
  intros Hs Ha Hnd Hp. revert w Hs Ha Hnd. unfold apply_inputs. induction Hp as [|x l1 l2 _ IH|x y l|l1 l2 l3 H1 IH1 _ IH2];
    intros w Hs Ha Hnd; cbn [foldl].
  - done.
  - inversion_clear Hnd. destruct (evolves_apart w (apply_slot x w)) as [? ?]; auto using apply_slot_evolves.
  - rewrite apply_slot_comm; [done|done|done|]. intros ->. by inversion_clear Hnd; set_solver.
  - rewrite IH1 by done. apply IH2; try done. by rewrite <- H1.
Qed.

(** Visits to other players leave a player's slot and its entity's motion alone. *)
Lemma apply_others c rest w slot index :
  store_wf (w_entities w) -> slots_apart w -> c ∉ rest ->
  w_players w !! c = Some slot -> store_find (ps_entity slot) (w_entities w) = Some index ->
  let w' := apply_inputs rest w in
  w_players w' !! c = Some slot /\
  es_position (w_entities w') !!! index = es_position (w_entities w) !!! index /\
  es_velocity (w_entities w') !!! index = es_velocity (w_entities w) !!! index /\
  es_last_input_sequence (w_entities w') !!! index = es_last_input_sequence (w_entities w) !!! index.
Proof.
  unfold apply_inputs. revert w. induction rest as [|c' rest IH]; intros w Hs Ha Hni Hc Hi; [done|].
  apply not_elem_of_cons in Hni as [Hne Hni]. cbn [foldl].
  destruct (apply_slot_frame c c' w slot index) as (A1 & A2 & _); [done..|].
  destruct (evolves_apart w (apply_slot c' w)) as [Hs' Ha']; auto using apply_slot_evolves.
  destruct (IH (apply_slot c' w)) as (B1 & B2 & B3 & B4); auto.
  cbn zeta. rewrite B1, B2, B3, B4. split; [done|].
  destruct (visitable_dec c' w) as [(slot' & index' & Hc' & Hi')|[_ ->]]; [|done].
  rewrite (apply_slot_eq c' w slot' index') by done. cbn.
  assert (index' <> index).
  { intros ->. apply Hne. apply (Ha c c' slot slot'); [done..|].
    apply (find_id _ _ _ Hs) in Hi, Hi'. congruence. }
  by rewrite !list_lookup_total_insert_ne by done.
Qed.

(** One tick of input for one player, whatever the order. *)
Lemma apply_inputs_player order w c slot index :
  store_wf (w_entities w) -> slots_apart w -> NoDup order -> c ∈ order ->
  w_players w !! c = Some slot -> store_find (ps_entity slot) (w_entities w) = Some index ->
  let w' := apply_inputs order w in
  w_players w' !! c = Some (snd (fst (next_input (w_tick w) slot))) /\
  es_position (w_entities w') !!! index = ms_position (visit_slot w slot index) /\
  es_velocity (w_entities w') !!! index = ms_velocity (visit_slot w slot index) /\
  es_last_input_sequence (w_entities w') !!! index =
    ps_last_applied_sequence (snd (fst (next_input (w_tick w) slot))).
Proof.
  intros Hs Ha Hnd Hin Hc Hi. apply elem_of_Permutation in Hin as [rest Hp].
  rewrite (apply_inputs_order order (c :: rest) w) by done.
  assert (Hni : c ∉ rest) by (rewrite Hp in Hnd; by inversion_clear Hnd).
  destruct (evolves_apart w (apply_slot c w)) as [Hs' Ha']; auto using apply_slot_evolves.
  change (apply_inputs (c :: rest) w) with (apply_inputs rest (apply_slot c w)).
  pose proof (find_lt _ _ _ Hs Hi) as Hlt. destruct Hs as [Lp Lv _ _ Lq _ _].
  rewrite (apply_slot_eq c w slot index Hc Hi) in *.
  set (w1 := mkWorld _ _ _ _ _ _ _) in *.
  destruct (apply_others c rest w1 (snd (fst (next_input (w_tick w) slot))) index) as (A1 & A2 & A3 & A4); auto.
  - subst w1. cbn. by rewrite lookup_insert_eq.
  - subst w1. cbn. by rewrite next_input_entity.
  - cbn zeta. rewrite A1, A2, A3, A4. subst w1. cbn.
    by rewrite !list_lookup_total_insert_eq by lia.
Qed.
End Order.

(** ** The operations keep the invariant *)
Section Operations.
Context `{Platform}.

Lemma add_owner s e k p c e' : store_wf s -> store_find e s = None ->
  ed_owner <$> entity_data (snd (store_add e k p c s)) e' =
  if decide (e' = e) then Some c else ed_owner <$> entity_data s e'.
Proof. intros Hs Hf. rewrite entity_data_add by done. by destruct (decide (e' = e)). Qed.

Lemma fresh_id w e : world_ok w -> w_next_entity w <= e -> store_find e (w_entities w) = None.
Proof.
  intros Hw He. destruct (store_find e (w_entities w)) as [i|] eqn:E; [|done].
  apply (wo_ids w Hw) in E. lia.
Qed.

Lemma unowned_absent w e : world_ok w -> store_find e (w_entities w) = None ->
  ed_owner <$> entity_data (w_entities w) e = None.
Proof. intros _ E. unfold entity_data. by rewrite E. Qed.

Lemma add_find_lt s e k p c e' i :
  store_find e' (snd (store_add e k p c s)) = Some i -> e' = e \/ store_find e' s = Some i.
Proof.
  unfold store_find, store_add. cbn. rewrite lookup_insert_Some. intros [[-> _]|[_ ?]]; auto.
Qed.

Lemma spawn_player_ok c p w :
  world_ok w -> c <> 0 -> w_players w !! c = None -> w_next_entity w + 1 < 2 ^ 32 ->
  world_ok (snd (spawn_player c p w)).
Proof.
  intros Hw Hc Hn Hnext. pose proof (fresh_id w (w_next_entity w) Hw ltac:(lia)) as Hf.
  destruct Hw. unfold spawn_player. cbn [snd].
  set (s' := snd (store_add _ _ _ _ _)).
  assert (Ho : forall e', ed_owner <$> entity_data s' e' = _) by (intros; by apply add_owner).
  split; cbn; try done.
  - by apply store_add_wf.
  - rewrite wrap_small by (split; lia). lia.
  - rewrite wrap_small by (split; lia). intros e i [->|He]%add_find_lt; [lia|]. apply wo_ids0 in He. lia.
  - intros c' slot. rewrite lookup_insert_Some, Ho. intros [[<- <-]|[Hne Hs]].
    + cbn. rewrite decide_True by done. split; [by apply new_slot_ok|done].
    + destruct (wo_slot0 c' slot Hs) as (A & B & C & D). split_and!; try done.
      rewrite decide_False; [done|]. intros E. rewrite E in D. unfold entity_data in D. by rewrite Hf in D.
  - intros e c' He Hc'. rewrite Ho in He. destruct (decide (e = w_next_entity w)) as [->|].
    + injection He as ->. exists (new_slot (w_next_entity w) c' 0). by rewrite lookup_insert_eq.
    + destruct (wo_owner0 e c' He Hc') as (slot & Hs & <-). exists slot.
      rewrite lookup_insert_ne; [done|]. intros <-. congruence.
Qed.

Lemma spawn_drifter_ok p w :
  world_ok w -> w_next_entity w + 1 < 2 ^ 32 -> world_ok (snd (spawn_drifter p w)).
Proof.
  intros Hw Hnext. pose proof (fresh_id w (w_next_entity w) Hw ltac:(lia)) as Hf.
  destruct Hw. unfold spawn_drifter. cbn [snd]. set (s' := snd (store_add _ _ _ _ _)).
  assert (Ho : forall e', ed_owner <$> entity_data s' e' = _) by (intros; by apply add_owner).
  split; cbn; try done.
  - by apply store_add_wf.
  - rewrite wrap_small by (split; lia). lia.
  - rewrite wrap_small by (split; lia). intros e i [->|He]%add_find_lt; [lia|]. apply wo_ids0 in He. lia.
  - intros c' slot Hs. rewrite Ho. destruct (wo_slot0 c' slot Hs) as (A & B & C & D). split_and!; try done.
    rewrite decide_False; [done|]. intros E. rewrite E in D. unfold entity_data in D. by rewrite Hf in D.
  - intros e c' He Hc'. rewrite Ho in He. destruct (decide (e = w_next_entity w)) as [->|]; [congruence|].
    by apply wo_owner0.
Qed.

Lemma remove_owner s e e' : store_wf s ->
  ed_owner <$> entity_data (snd (store_remove e s)) e' =
  if decide (e' = e) then None else ed_owner <$> entity_data s e'.
Proof.
  intros Hs. destruct (store_find e s) as [i|] eqn:Ef.
  - rewrite (entity_data_remove s Hs e i Ef). by destruct (decide (e' = e)).
  - rewrite remove_absent by done. cbn [snd]. destruct (decide (e' = e)) as [->|]; [|done].
    unfold entity_data. by rewrite Ef.
Qed.

Lemma despawn_ok e w : world_ok w -> world_ok (despawn e w).
Proof.
  intros Hw. unfold despawn. destruct (store_find e (w_entities w)) as [index|] eqn:Ef; [|done].
  pose proof Hw as []. pose proof (owner_lookup _ e wo_store0) as Hoe. rewrite Ef in Hoe. cbn in Hoe.
  destruct (lookup_lt_is_Some_2 (es_owner (w_entities w)) index) as [c Hc].
  { rewrite (sw_owner _ wo_store0). by apply (find_lt _ e). }
  rewrite Hc in Hoe. rewrite (list_lookup_total_correct _ _ _ Hc).
  pose proof (fun e' => remove_owner (w_entities w) e e' wo_store0) as Ho.
  pose proof (store_remove_wf (w_entities w) wo_store0 e index Ef) as Hwf.
  set (s' := snd (store_remove e (w_entities w))) in *.
  assert (Hids : forall e' i, store_find e' s' = Some i -> 0 < e' < w_next_entity w).
  { intros e' i Hi. destruct (data_at_lt s' i Hwf (find_lt s' e' i Hwf Hi)) as [d Hd].
    specialize (Ho e'). unfold entity_data at 1 in Ho. rewrite Hi in Ho. cbn -[data_at] in Ho. rewrite Hd in Ho.
    destruct (decide (e' = e)); [done|]. unfold entity_data in Ho.
    destruct (store_find e' (w_entities w)) as [j|] eqn:Ej; [|done]. by apply (wo_ids0 e' j). }
  destruct (Z.eqb_spec c 0) as [->|Hc0]; cbn [negb]; split; cbn; try done.
  - intros c' slot Hs. destruct (wo_slot0 c' slot Hs) as (A & B & C & D). split_and!; try done.
    rewrite Ho, decide_False; [done|]. intros E. rewrite E in D. congruence.
  - intros e' c' He Hc'. rewrite Ho in He. destruct (decide (e' = e)); [done|]. by apply wo_owner0.
  - intros c' slot. rewrite lookup_delete_Some. intros [Hne Hs].
    destruct (wo_slot0 c' slot Hs) as (A & B & C & D). split_and!; try done.
    rewrite Ho, decide_False; [done|]. intros E. rewrite E in D. congruence.
  - intros e' c' He Hc'. rewrite Ho in He. destruct (decide (e' = e)) as [|Hne]; [done|].
    destruct (wo_owner0 e' c' He Hc') as (slot & Hs & <-). exists slot. split; [|done].
    rewrite lookup_delete_ne; [done|]. intros <-.
    destruct (wo_owner0 e c Hoe Hc0) as (slot2 & Hs2 & He2). congruence.
Qed.

Lemma queue_input_ok c i w :
  world_ok w -> 0 <= mi_sequence i -> analog_input i -> world_ok (queue_input c i w).
Proof.
  intros Hw Hq Ha. unfold queue_input. destruct (w_players w !! c) as [slot|] eqn:Ec; [|done].
  apply (evolves_ok w); [done|]. split; try done. intros c'. cbn. destruct (decide (c' = c)) as [->|].
  - rewrite Ec, lookup_insert_eq. split; [by intros; apply slot_queue_ok|].
    unfold slot_queue. by destruct (_ && _).
  - rewrite lookup_insert_ne by done. by destruct (w_players w !! c').
Qed.

Lemma adopt_write_wf i c p v q s : store_wf s -> store_wf (adopt_write i c p v q s).
Proof. intros []. split; unfold es_size in *; cbn; rewrite ?length_insert; done. Qed.

Lemma adopt_write_owner i c p v q s e e' :
  store_wf s -> store_find e s = Some i ->
  ed_owner <$> entity_data (adopt_write i c p v q s) e' =
  if decide (e' = e) then Some c else ed_owner <$> entity_data s e'.
Proof.
  intros Hs Hi. rewrite !owner_lookup by (try apply adopt_write_wf; done).
  change (store_find e' (adopt_write i c p v q s)) with (store_find e' s). cbn [adopt_write es_owner set_sequences set_owners].
  pose proof (find_lt s e i Hs Hi) as Hlt. destruct Hs as [_ _ _ Lo _ _ Hix].
  destruct (decide (e' = e)) as [->|Hne].
  - rewrite Hi. cbn. apply list_lookup_insert_eq. lia.
  - destruct (store_find e' s) as [j|] eqn:Ej; [|done]. cbn. apply list_lookup_insert_ne.
    intros <-. apply Hix in Hi, Ej. congruence.
Qed.

(** When a migrated entity can be adopted: a known client, a new entity or one
    that client already drives, and no other entity of that client. *)
Definition adoptable (e c : Z) (w : World) : Prop :=
  c <> 0 /\ 0 < e /\ e + 1 < 2 ^ 32 /\
  (forall slot, w_players w !! c = Some slot -> ps_entity slot = e) /\
  (forall o, ed_owner <$> entity_data (w_entities w) e = Some o -> o = 0 \/ o = c).

(** The store and the id counter [adopt_entity] works on. *)
Lemma adopt_target e c p w :
  world_ok w -> adoptable e c w ->
  exists index s n, store_wf s /\ store_find e s = Some index /\
    (forall e', e' <> e -> ed_owner <$> entity_data s e' = ed_owner <$> entity_data (w_entities w) e') /\
    (forall e' i, store_find e' s = Some i -> 0 < e' < n) /\ 0 < n < 2 ^ 32 /\
    forall v q, adopt_entity e c p v q w =
      set_players (<[c := new_slot e c q]> (w_players w))
        (set_entities (adopt_write index c p v q s) (set_next_entity n w)).
Proof.
  intros Hw (Hc & He & Hen & Hs & Ho). destruct Hw. unfold adopt_entity.
  destruct (store_find e (w_entities w)) as [index|] eqn:Ef.
  - exists index, (w_entities w), (w_next_entity w). split_and!; try done; lia.
  - exists (es_size (w_entities w)), (snd (store_add e kPlayer p c (w_entities w))),
      (if w_next_entity w <=? e then u32 (e + 1) else w_next_entity w).
    split; [by apply store_add_wf|]. split; [unfold store_find, store_add; cbn; by rewrite lookup_insert_eq|].
    split; [intros e' Hne; rewrite add_owner by done; by rewrite decide_False|].
    rewrite wrap_small by (split; lia).
    split; [|split; [destruct (_ <=? _); lia|intros v q; unfold store_add; cbn; by destruct (_ <=? _)]].
    intros e' i [->|Hi]%add_find_lt; destruct (Z.leb_spec (w_next_entity w) e); try lia;
      apply wo_ids0 in Hi; lia.
Qed.

Lemma adopt_entity_ok e c p v q w :
  world_ok w -> adoptable e c w -> 0 <= q -> world_ok (adopt_entity e c p v q w).
Proof.
  intros Hw Had Hq. destruct (adopt_target e c p w Hw Had) as (i & s & n & Hs & Hi & Ho & Hids & Hn & ->).
  destruct Had as (Hc & He & Hen & Hone & Hown). destruct Hw.
  pose proof (fun e' => adopt_write_owner i c p v q s e e' Hs Hi) as Hwo.
  split; cbn [w_entities w_players w_next_entity w_params w_grid set_players set_entities set_next_entity]; try done.
  - by apply adopt_write_wf.
  - intros c' slot. rewrite lookup_insert_Some, Hwo. intros [[<- <-]|[Hne Hsl]].
    + cbn. rewrite decide_True by done. split; [by apply new_slot_ok|done].
    + destruct (wo_slot0 c' slot Hsl) as (A & B & C & D). split_and!; try done.
      assert (ps_entity slot <> e).
      { intros E. rewrite E in D. destruct (Hown c' D); congruence. }
      rewrite decide_False, Ho by done. done.
  - intros e' c'. rewrite Hwo. destruct (decide (e' = e)) as [->|Hne].
    + intros [= <-] _. exists (new_slot e c q). by rewrite lookup_insert_eq.
    + rewrite Ho by done. intros He' Hc'. destruct (wo_owner0 e' c' He' Hc') as (slot & Hsl & <-).
      exists slot. rewrite lookup_insert_ne; [done|]. intros <-. by apply Hne, Hone.
Qed.

(** ** The tick *)
Lemma build_evolves w : grid_ok (w_grid w) ->
  evolves w (set_grid (grid_build (w_grid w) (es_position (w_entities w))) w).
Proof.
  intros Hg. destruct (build_fields (w_grid w) Hg (es_position (w_entities w))) as (E1 & _ & E3 & _).
  split; try done; cbn.
  - intros _. destruct Hg as (k & Hk & Ek). exists k. by rewrite E1.
  - intros c. by destruct (w_players w !! c).
Qed.

Lemma set_stats_evolves st w : evolves w (set_stats st w).
Proof. split; try done. cbn. intros c. by destruct (w_players w !! c). Qed.

Lemma set_tick_evolves t w : evolves w (set_tick t w).
Proof. split; try done. cbn. intros c. by destruct (w_players w !! c). Qed.

Lemma integrate_tick order w : w_tick (integrate order w) = w_tick w.
Proof.
  assert (D : forall l w, w_tick (foldl drive_drifter w l) = w_tick w).
  { induction l as [|i l IH]; intros w'; [done|]. cbn [foldl]. rewrite IH. unfold drive_drifter.
    by destruct (negb _). }
  unfold integrate, drive_drifters. rewrite D. unfold apply_inputs.
  revert w. induction order as [|c order IH]; intros w; [done|]. cbn [foldl]. rewrite IH.
  unfold apply_slot. destruct (w_players w !! c); [|done]. destruct (store_find _ _); [|done].
  by destruct (next_input _ _) as [[? ?] ?].
Qed.

Lemma drifters_players w : w_players (drive_drifters w) = w_players w.
Proof.
  unfold drive_drifters. generalize (seq 0 (es_size (w_entities w))) as l. intros l. revert w.
  induction l as [|i l IH]; intros w; [done|]. cbn [foldl]. rewrite IH. unfold drive_drifter. by destruct (negb _).
Qed.

(** Every part of a tick together. *)
Lemma step_spec order w :
  world_ok w ->
  exists w', step order w = Some w' /\ evolves w w' /\ w_tick w' = u32 (w_tick w + 1) /\
    (exists position, es_position (w_entities w') = clamp_position (w_params w) <$> position) /\
    w_players w' =
      w_players (apply_inputs order (set_stats (mkWorldStats (st_entity_count (w_stats w)) (st_player_count (w_stats w)) 0 0
                   (st_collision_pairs (w_stats w)) (st_peak_cell_occupancy (w_stats w))) w)) /\
    grid_current w'.
Proof.
  intros Hw. unfold step. set (w0 := set_stats _ w).
  pose proof (set_stats_evolves (mkWorldStats (st_entity_count (w_stats w)) (st_player_count (w_stats w)) 0 0
                   (st_collision_pairs (w_stats w)) (st_peak_cell_occupancy (w_stats w))) w) as E0. fold w0 in E0.
  pose proof (integrate_evolves order w0) as E1. set (w1 := integrate order w0) in *.
  assert (O1 : world_ok w1) by (eapply evolves_ok; [eapply evolves_ok|]; done).
  pose proof (build_evolves w1 (wo_grid _ O1)) as E2. set (w2 := set_grid _ w1) in *.
  assert (O2 : world_ok w2) by (eapply evolves_ok; done).
  destruct (resolve_collisions_spec w2 (wo_grid _ O2) (wo_radius _ O2))
    as (w3 & -> & E3 & Eg & Ep & Et & _ & _ & position & Epos). cbn [mbind option_bind].
  eexists. split; [reflexivity|]. split; [|split_and!].
  - eapply evolves_trans; [exact E0|]. eapply evolves_trans; [exact E1|]. eapply evolves_trans; [exact E2|].
    eapply evolves_trans; [exact E3|]. eapply evolves_trans; [apply set_stats_evolves|apply set_tick_evolves].
  - cbn. rewrite Et. subst w2. cbn. subst w1. by rewrite integrate_tick.
  - exists position. cbn. rewrite Epos. do 2 f_equal. rewrite (ev_params _ _ E2), (ev_params _ _ E1). done.
  - cbn. rewrite Ep. subst w2. cbn. subst w1. unfold integrate. apply drifters_players.
  - exists (w_grid w1), (es_position (w_entities w1)). split; [apply O1|]. cbn.
    split; [by rewrite Eg|]. rewrite (sw_position _ (wo_store _ O1)). unfold es_size.
    by rewrite (ss_id _ _ (ev_shape _ _ E3)).
Qed.
End Operations.

(** ** Theorems *)

(** C9. Commands are taken from the queue in order, each at most once, with the exception
    of the number 0.  Take the slot of a player whose
    last command was [q], over any history of received commands and ticks.  The sequences
    taken from the queue are strictly increasing and newer than [q] (only the sequence 0,
    which the source never rejects from a player that has sent no other, may repeat),
    the slot reports the last one, the queue never holds more than 32 commands, and
    what was taken followed by what is still queued is what was accepted, in that
    order, less the commands a full queue dropped.  Every tick integrates one input: the
    ticks that took a command integrate it, in this order, and a tick that finds the queue empty
    integrates the last command taken once more, as long as the tick is at most
    [kInputRepeatTicks] past the one the command names, and no movement after that. *)
Theorem commands_taken_once `{Platform} (entity client q : Z) (events : list SlotEvent) :
  0 <= q -> Forall event_ok events ->
  let t := slot_run entity client q events in
  let queued := mi_sequence <$> ps_pending (tr_slot t) in
  StronglySorted seq_before (q :: tr_applied t) /\
  ps_last_applied_sequence (tr_slot t) = default q (last (tr_applied t)) /\
  (length queued <= kMaxQueuedInputs)%nat /\
  (tr_applied t ++ queued) `sublist_of` tr_accepted t /\
  (length (tr_applied t) + length queued + tr_overflowed t = length (tr_accepted t))%nat /\
  (tr_overflowed t = 0%nat -> tr_applied t ++ queued = tr_accepted t) /\
  (mi_sequence ∘ in_input) <$> filter (fun x => in_fresh x = true) (tr_ticks t) = tr_applied t /\
  starved_as q None (tr_ticks t).
Proof.
  intros Hq Hev t queued. pose proof (slot_run_ok entity client q events Hq Hev) as Ht. fold t in Ht.
  destruct Ht as [Hs Hl Ho Hb Hsub Hc Hf Hst _].
  subst queued. rewrite length_fmap. split_and!; try done; [apply Hs|].
  intros E0. apply sublist_full; [done|]. rewrite length_app, length_fmap. lia.
Qed.

Definition sample_input (q : Z) : MoveInput := mkMoveInput q 0 f1 f0 false.

(** The last two ticks find the queue empty: one repeats command 3, one does not. *)
Definition sample_events : list SlotEvent :=
  [Receive (sample_input 1); Receive (sample_input 1); TakeTick 1; Receive (sample_input 3);
   Receive (sample_input 2); TakeTick 2; TakeTick 3; TakeTick 9].

Lemma commands_taken_once_witness :
  let t := @slot_run plain_platform 5 7 0 sample_events in
  StronglySorted seq_before (0 :: tr_applied t) /\ starved_as 0 None (tr_ticks t) /\ tr_applied t = [1; 3] /\
  in_fresh <$> tr_ticks t = [true; true; false; false] /\ mi_move_x ∘ in_input <$> tr_ticks t = [f1; f1; f1; f0].
Proof.
  destruct (@commands_taken_once plain_platform 5 7 0 sample_events) as (A & _ & _ & _ & _ & _ & _ & B).
  { lia. }
  { repeat apply Forall_cons_2; try apply Forall_nil_2; try exact I;
      (split; [cbn; lia|repeat split; vm_compute; reflexivity]). }
  split; [exact A|]. split; [exact B|]. split_and!; vm_compute; reflexivity.
Defined.

(** C30. Applying inputs does not depend on the order in which the hash map of
    players is visited: every order gives the same world; and each visited
    player consumes its own next input exactly once and its entity moves by
    exactly that input, from the state it had at the start of the tick. *)
Theorem apply_inputs_order_free (w : World) (o1 o2 : list Z) :
  world_ok w -> NoDup o1 -> o1 ≡ₚ o2 ->
  apply_inputs o1 w = apply_inputs o2 w /\
  forall c slot index, c ∈ o1 -> w_players w !! c = Some slot ->
    store_find (ps_entity slot) (w_entities w) = Some index ->
    let w' := apply_inputs o1 w in
    let '(input, slot', _) := next_input (w_tick w) slot in
    let moved := step_movement (mkMoveState (es_position (w_entities w) !!! index) (es_velocity (w_entities w) !!! index))
                   input (w_params w) (tick_dt (w_params w)) in
    w_players w' !! c = Some slot' /\
    es_position (w_entities w') !!! index = ms_position moved /\
    es_velocity (w_entities w') !!! index = ms_velocity moved /\
    es_last_input_sequence (w_entities w') !!! index = ps_last_applied_sequence slot'.
Proof.
  intros Hw Hnd Hp. pose proof (world_ok_apart w Hw) as Ha. destruct Hw as [Hs _ _ _ _ _ _ _].
  split; [by apply apply_inputs_order|]. intros c slot index Hin Hc Hi.
  pose proof (apply_inputs_player o1 w c slot index Hs Ha Hnd Hin Hc Hi) as Hpl. unfold visit_slot in Hpl.
  by destruct (next_input (w_tick w) slot) as [[input slot'] applied].
Qed.

(** Worlds the server can reach: configured once, then driven by its operations,
    called as the server calls them (a client has at most one slot, and the
    32-bit entity counter has not been exhausted). *)
Inductive world_reachable `{Platform} : World -> Prop :=
  | wr_configure params cells w :
      params_ok params -> configure params cells World_new = Some w -> world_reachable w
  | wr_spawn_player w c p :
      world_reachable w -> c <> 0 -> w_players w !! c = None -> w_next_entity w + 1 < 2 ^ 32 ->
      world_reachable (snd (spawn_player c p w))
  | wr_spawn_drifter w p :
      world_reachable w -> w_next_entity w + 1 < 2 ^ 32 -> world_reachable (snd (spawn_drifter p w))
  | wr_despawn w e : world_reachable w -> world_reachable (despawn e w)
  | wr_adopt w e c p v q :
      world_reachable w -> adoptable e c w -> 0 <= q -> world_reachable (adopt_entity e c p v q w)
  | wr_queue w c i :
      world_reachable w -> 0 <= mi_sequence i -> analog_input i -> world_reachable (queue_input c i w)
  | wr_step w order w' :
      world_reachable w -> order ≡ₚ (map_to_list (w_players w)).*1 -> step order w = Some w' -> world_reachable w'
  | wr_set_tick w t : world_reachable w -> world_reachable (set_tick t w).

Lemma configure_world_ok params cells w :
  params_ok params -> configure params cells World_new = Some w -> world_ok w.
Proof.
  intros Hp. unfold configure. destruct (grid_configure _ _ _) as [g|] eqn:Eg; [|done]. cbn [mbind option_bind].
  destruct (fleb _ _) eqn:Er; [|done]. intros [= <-]. apply configure_grid_ok in Eg as [Hg _].
  by split; cbn.
Qed.

(** C16. The world invariant: in every reachable world the store is well formed,
    entity ids are nonzero and below the counter, every player slot is in order
    and drives an entity it owns, every entity owned by a client is driven by
    that client's slot, and the grid and the walls are as configured. *)
Theorem world_invariant `{Platform} (w : World) : world_reachable w -> world_ok w.
Proof.
  induction 1.
  - by eapply configure_world_ok.
  - by apply spawn_player_ok.
  - by apply spawn_drifter_ok.
  - by apply despawn_ok.
  - by apply adopt_entity_ok.
  - by apply queue_input_ok.
  - destruct (step_spec order w) as (w'' & E & Hev & _); [done|]. assert (w'' = w') as -> by congruence.
    by eapply evolves_ok.
  - eapply evolves_ok; [done|]. apply set_tick_evolves.
Qed.

Definition sample_world : World :=
  default World_new (configure WorldParams_default 8 World_new).

Definition sample_world2 : World :=
  @queue_input plain_platform 7 (sample_input 1)
    (snd (spawn_drifter (mkVec2 (f32_of_Z 100) (f32_of_Z 104))
      (snd (spawn_player 7 (mkVec2 (f32_of_Z 100) (f32_of_Z 100)) sample_world)))).

Lemma world_invariant_witness : world_ok sample_world2.
Proof.
  apply (@world_invariant plain_platform). apply wr_queue; [|cbn; lia|repeat split; vm_compute; reflexivity].
  apply wr_spawn_drifter; [|vm_compute; reflexivity].
  apply wr_spawn_player; [|lia|vm_compute; reflexivity|vm_compute; reflexivity].
  apply (wr_configure WorldParams_default 8); vm_compute; reflexivity.
Defined.

Lemma apply_inputs_order_free_witness :
  apply_inputs [7; 9] (snd (spawn_player 9 Vec2_zero sample_world2)) =
  apply_inputs [9; 7] (snd (spawn_player 9 Vec2_zero sample_world2)).
Proof.
  apply (apply_inputs_order_free).
  - apply spawn_player_ok; [|lia|vm_compute; reflexivity|vm_compute; reflexivity].
    apply (@queue_input_ok plain_platform); [|cbn; lia|repeat split; vm_compute; reflexivity].
    apply spawn_drifter_ok; [|vm_compute; reflexivity].
    apply spawn_player_ok; [|lia|vm_compute; reflexivity|vm_compute; reflexivity].
    apply (configure_world_ok WorldParams_default 8); vm_compute; reflexivity.
  - constructor; [rewrite list_elem_of_singleton; lia|apply NoDup_singleton].
  - apply Permutation_swap.
Defined.

(** C17. A tick is total and safe: from any world in the invariant it completes
    without aborting, keeps the invariant, the entities, their indices and
    owners, advances the tick by one modulo 2^32, consumes exactly one input per
    visited player, leaves every coordinate between the walls unless it is NaN,
    and leaves a spatial index that covers exactly the world's entities. *)
Theorem step_safe `{Platform} (order : list Z) (w : World) :
  world_ok w -> order ≡ₚ (map_to_list (w_players w)).*1 ->
  exists w', step order w = Some w' /\ world_ok w' /\
    w_tick w' = u32 (w_tick w + 1) /\
    es_id (w_entities w') = es_id (w_entities w) /\ es_owner (w_entities w') = es_owner (w_entities w) /\
    es_index_of (w_entities w') = es_index_of (w_entities w) /\
    (forall c, w_players w' !! c = (fun slot => snd (fst (next_input (w_tick w) slot))) <$> w_players w !! c) /\
    Forall (fun p => forall axis, axis = vec_x \/ axis = vec_y ->
              is_nan (axis p) = true \/ within (wall_low (w_params w)) (wall_high (w_params w)) (axis p))
      (es_position (w_entities w')) /\
    grid_current w'.
Proof.
  intros Hw Hord. destruct (step_spec order w Hw) as (w' & E & Hev & Et & (position & Ep) & Epl & Hcur).
  exists w'. split; [done|]. split; [by eapply evolves_ok|]. split; [done|].
  destruct (ev_shape _ _ Hev) as [-> _ -> _ -> _]. do 3 (split; [done|]). split.
  - intros c. rewrite Epl. set (w0 := set_stats _ w).
    assert (Hw0 : world_ok w0) by (eapply evolves_ok; [exact Hw|apply set_stats_evolves]).
    assert (Hnd : NoDup order) by (rewrite Hord; apply NoDup_fst_map_to_list).
    destruct (w_players w !! c) as [slot|] eqn:Ec; cbn [fmap option_fmap option_map].
    + assert (Hin : c ∈ order).
      { rewrite Hord. apply list_elem_of_fmap. exists (c, slot). split; [done|]. by apply elem_of_map_to_list. }
      destruct (wo_slot w Hw c slot Ec) as (_ & _ & _ & D). unfold entity_data in D.
      destruct (store_find (ps_entity slot) (w_entities w)) as [index|] eqn:Ei; [|done].
      apply (apply_inputs_player order w0 c slot index); try done; [apply Hw0|by apply world_ok_apart].
    + pose proof (foldl_evolves (fun w client => apply_slot client w) order w0 (fun w a => apply_slot_evolves a w)) as Hf.
      pose proof (ev_slots _ _ Hf c) as Hs. cbn in Hs. rewrite Ec in Hs. unfold apply_inputs.
      by destruct (w_players (foldl _ w0 order) !! c).
  - split; [|exact Hcur]. rewrite Ep. apply Forall_fmap, Forall_true. intros p axis Ha.
    pose proof (wo_params w Hw) as Hp. unfold clamp_position.
    assert (C : forall v, is_nan (clampf v (wall_low (w_params w)) (wall_high (w_params w))) = true \/
              within (wall_low (w_params w)) (wall_high (w_params w))
                (clampf v (wall_low (w_params w)) (wall_high (w_params w)))).
    { intros v. destruct (is_nan v) eqn:Ev; [|right; by apply clampf_between]. left.
      destruct v; try done. unfold clampf. by destruct (wall_high _). }
    destruct Ha as [->| ->]; apply C.
Qed.

Lemma step_safe_witness :
  exists w', @step plain_platform [7] sample_world2 = Some w' /\ w_tick w' = 1.
Proof.
  assert (Hw : world_ok sample_world2).
  { apply (@queue_input_ok plain_platform); [|cbn; lia|repeat split; vm_compute; reflexivity].
    apply spawn_drifter_ok; [|vm_compute; reflexivity].
    apply spawn_player_ok; [|lia|vm_compute; reflexivity|vm_compute; reflexivity].
    apply (configure_world_ok WorldParams_default 8); vm_compute; reflexivity. }
  destruct (@step_safe plain_platform [7] sample_world2 Hw) as (w' & E & _ & Et & _).
  - replace (map_to_list (w_players sample_world2)).*1 with [7]; [done|vm_compute; reflexivity].
  - exists w'. split; [exact E|]. rewrite Et. vm_compute. reflexivity.
Defined.

(** A player whose queue runs dry has its last command repeated while that
    command's tick is at most six ticks old, and then coasts on a neutral input
    that keeps the last sequence; the slot itself is unchanged.  Since a command
    off the wire carries tick 0, on a server past tick 6 it is never repeated. *)
Theorem starved_input (tick : Z) (slot : PlayerSlot) :
  ps_pending slot = [] -> fits 32 tick -> fits 32 (mi_tick (ps_last_applied slot)) ->
  let '(input, slot', applied) := next_input tick slot in
  applied = false /\ slot' = slot /\
  (ps_has_applied slot = true -> mi_tick (ps_last_applied slot) <= tick ->
   tick - mi_tick (ps_last_applied slot) <= kInputRepeatTicks -> input = ps_last_applied slot) /\
  (mi_tick (ps_last_applied slot) = 0 -> kInputRepeatTicks < tick ->
   input = mkMoveInput (ps_last_applied_sequence slot) 0 f0 f0 false).
Proof.
  intros Hp Ht Hl. unfold next_input. rewrite Hp. unfold fits in *.
  destruct (ps_has_applied slot) eqn:Eh; cbn [andb].
  - destruct (Z.leb_spec (u32 (tick - mi_tick (ps_last_applied slot))) kInputRepeatTicks) as [Hle|Hgt].
    + split_and!; try done. intros E. rewrite E, Z.sub_0_r, wrap_small in Hle by done. lia.
    + split_and!; try done. intros _ H1 H2. rewrite wrap_small in Hgt by (split; lia). lia.
  - by split_and!.
Qed.

Lemma starved_input_witness :
  let slot := mkPlayerSlot 5 7 [] (sample_input 9) 9 9 0 true in
  fst (fst (next_input 100 slot)) = mkMoveInput 9 0 f0 f0 false.
Proof.
  cbv zeta. pose proof (starved_input 100 (mkPlayerSlot 5 7 [] (sample_input 9) 9 9 0 true) eq_refl
    ltac:(split; lia) ltac:(split; cbn; lia)) as S.
  destruct (next_input 100 (mkPlayerSlot 5 7 [] (sample_input 9) 9 9 0 true)) as [[input slot'] applied].
  cbn [fst]. apply S; vm_compute; reflexivity.
Defined.
