(* ===== verification/Snapshot.v ===== *)
(** * Snapshot: delta-compressed replication ([src/src/proto/snapshot.h], [snapshot.cpp])

    The server side ([ReplicationState::encode]) selects the entities around a
    viewer, diffs them against the last acknowledged frame, fits as many updates
    as the budget allows and remembers what it sent; the client side
    ([decode_snapshot]) applies the packet to its own copy of the baseline.
    [std::nth_element] is a parameter with its documented contract, since the
    standard leaves its choice among equal priorities open. *)

From S2P Require Import Prelude Bitstream F32 Quantizer Movement Morton Grid EntityStore World.
From Stdlib Require Import ZArith Lia Bool Floats.SpecFloat.
From stdpp Require Import base tactics numbers list option gmap sorting.
#[local] Open Scope Z_scope.

(** ** Data *)
Record ReplicationQuantizers := mkReplicationQuantizers {
  rq_position : Quantizer;
  rq_velocity : Quantizer
}.

Definition ReplicationQuantizers_from (params : WorldParams) : ReplicationQuantizers :=
  mkReplicationQuantizers
    (mkQuantizer f0 (wp_size params) 16)
    (mkQuantizer (fmul (fopp (wp_max_speed params)) (f32_of_Z 2)) (fmul (wp_max_speed params) (f32_of_Z 2)) 12).

Record EntityWireState := mkEntityWireState {
  ws_id : Z;
  ws_px : Z;
  ws_py : Z;
  ws_vx : Z;
  ws_vy : Z;
  ws_kind : Z
}.

#[export] Instance EntityWireState_eq_dec : EqDecision EntityWireState.
Proof. solve_decision. Defined.

Definition same_state_as (s o : EntityWireState) : bool :=
  (ws_px s =? ws_px o) && (ws_py s =? ws_py o) && (ws_vx s =? ws_vx o) && (ws_vy s =? ws_vy o) &&
  (ws_kind s =? ws_kind o).

Record SnapshotFrame := mkSnapshotFrame {
  sf_tick : Z;
  sf_valid : bool;
  sf_states : list EntityWireState
}.

Definition SnapshotFrame_empty : SnapshotFrame := mkSnapshotFrame 0 false [].

#[export] Instance SnapshotFrame_inhabited : Inhabited SnapshotFrame := populate SnapshotFrame_empty.
#[export] Instance EntityWireState_inhabited : Inhabited EntityWireState := populate (mkEntityWireState 0 0 0 0 0 0).

(** [std::lower_bound] by id on a sorted list: the first state not below [id]. *)
Fixpoint lower_bound (states : list EntityWireState) (id : Z) : nat :=
  match states with
  | [] => O
  | s :: states => if ws_id s <? id then S (lower_bound states id) else O
  end.

Definition frame_find (frame : SnapshotFrame) (id : Z) : option EntityWireState :=
  match sf_states frame !! lower_bound (sf_states frame) id with
  | Some s => if negb (ws_id s =? id) then None else Some s
  | None => None
  end.

(** ** The history ring *)
Abbreviation SnapshotHistory := (list SnapshotFrame).

Definition history_configure (capacity : nat) : SnapshotHistory := replicate capacity SnapshotFrame_empty.

Definition slot_of (h : SnapshotHistory) (tick : Z) : nat := Z.to_nat (tick mod Z.of_nat (length h)).

(** [get]: the frame of [tick], only if it still occupies its slot. *)
Definition history_get (h : SnapshotHistory) (tick : Z) : option SnapshotFrame :=
  if (length h =? 0)%nat then None else
  let frame := h !!! slot_of h tick in
  if negb (sf_valid frame) || negb (sf_tick frame =? tick) then None else Some frame.

(** Writing through the pointer [slot] returns; a null pointer writes nothing. *)
Definition history_put (h : SnapshotHistory) (tick : Z) (frame : SnapshotFrame) : SnapshotHistory :=
  if (length h =? 0)%nat then h else <[slot_of h tick := frame]> h.

Definition history_reset (h : SnapshotHistory) : SnapshotHistory := (fun _ => SnapshotFrame_empty) <$> h.

(** ** Encoding *)
Definition kSmallDeltaMin : Z := -2048.
Definition kSmallDeltaMax : Z := 2047.
Definition kVelocityBits : Z := 12.
Definition kKindBits : Z := 2.
Definition kWorstCaseEntityBits : Z := 40 + 1 + 1 + 1 + 16 + 16 + kVelocityBits * 2 + kKindBits.
Definition kUpdateCountBits : Z := 16.

Definition write_entity_id (id previous : Z) : BitWriter -> BitWriter := write_varint (u32 (id - previous)).
Definition read_entity_id (previous : Z) : Rd Z := gap ← read_varint; mret (u32 (previous + gap)).

(** One merge over two id-sorted frames: the baseline state of every current
    entity, and the ids that are gone. *)
Fixpoint diff_frames (base : list EntityWireState) :
    list EntityWireState -> list (option EntityWireState) * list Z :=
  match base with
  | [] => fun current => ((fun _ => None) <$> current, [])
  | b :: bs =>
      fix walk (current : list EntityWireState) : list (option EntityWireState) * list Z :=
        match current with
        | [] => ([], ws_id b :: (ws_id <$> bs))
        | c :: cs =>
            if ws_id b <? ws_id c then
              let '(previous, removed) := diff_frames bs current in (previous, ws_id b :: removed)
            else if ws_id c <? ws_id b then
              let '(previous, removed) := walk cs in (None :: previous, removed)
            else
              let '(previous, removed) := diff_frames bs cs in (Some b :: previous, removed)
        end
  end.

Fixpoint write_removed (removed : list Z) (previous : Z) (w : BitWriter) : BitWriter :=
  match removed with
  | [] => w
  | id :: removed => write_removed removed id (write_entity_id id previous w)
  end.

Definition write_snapshot_header (tick : Z) (base_tick : option Z) (last_input_sequence viewer : Z)
    (removed : list Z) (w : BitWriter) : BitWriter :=
  let full := match base_tick with None => true | Some _ => false end in
  let w := write_u32 tick w in
  let w := write_bool full w in
  let w := match base_tick with Some t => write_u32 t w | None => w end in
  let w := write_u32 last_input_sequence w in
  let w := write_varint viewer w in
  let w := write_varint (u32 (Z.of_nat (length removed))) w in
  write_removed removed 0 w.

Definition small_delta (dx dy : Z) : bool :=
  (kSmallDeltaMin <=? dx) && (dx <=? kSmallDeltaMax) && (kSmallDeltaMin <=? dy) && (dy <=? kSmallDeltaMax).

Definition write_position (current previous : EntityWireState) (w : BitWriter) : BitWriter :=
  let position_changed := negb (ws_px current =? ws_px previous) || negb (ws_py current =? ws_py previous) in
  let w := write_bool position_changed w in
  if position_changed then
    let dx := ws_px current - ws_px previous in
    let dy := ws_py current - ws_py previous in
    let small := small_delta dx dy in
    let w := write_bool small w in
    if small then
      let w := write_ranged dx kSmallDeltaMin kSmallDeltaMax w in
      write_ranged dy kSmallDeltaMin kSmallDeltaMax w
    else
      let w := write_u16 (ws_px current) w in
      write_u16 (ws_py current) w
  else w.

Definition write_velocity (current previous : EntityWireState) (w : BitWriter) : BitWriter :=
  let velocity_changed := negb (ws_vx current =? ws_vx previous) || negb (ws_vy current =? ws_vy previous) in
  let w := write_bool velocity_changed w in
  if velocity_changed then
    let w := write_bits (ws_vx current) kVelocityBits w in
    write_bits (ws_vy current) kVelocityBits w
  else w.

(** The record of one selected entity, after its id. *)
Definition write_state (current : EntityWireState) (previous : option EntityWireState) (w : BitWriter) : BitWriter :=
  match previous with
  | None =>
      let w := write_bool true w in
      let w := write_u16 (ws_px current) w in
      let w := write_u16 (ws_py current) w in
      let w := write_bits (ws_vx current) kVelocityBits w in
      let w := write_bits (ws_vy current) kVelocityBits w in
      write_bits (ws_kind current) kKindBits w
  | Some previous =>
      let w := write_bool false w in
      let w := write_position current previous w in
      write_velocity current previous w
  end.

(** [selected] pairs each selected state with its baseline. *)
Fixpoint write_records (selected : list (EntityWireState * option EntityWireState)) (previous_id : Z)
    (w : BitWriter) : BitWriter :=
  match selected with
  | [] => w
  | (current, previous) :: selected =>
      write_records selected (ws_id current)
        (write_state current previous (write_entity_id (ws_id current) previous_id w))
  end.

(** ** Decoding *)
Record DecodedSnapshot := mkDecodedSnapshot {
  ds_tick : Z;
  ds_baseline_tick : Z;
  ds_full : bool;
  ds_last_input_sequence : Z;
  ds_viewer : Z;
  ds_states : list EntityWireState;
  ds_removed : list Z
}.

Fixpoint read_removed (count : nat) (previous_id : Z) : Rd (list Z) :=
  match count with
  | O => mret []
  | S count =>
      id ← read_entity_id previous_id;
      removed ← read_removed count id;
      mret (id :: removed)
  end.

(** [state.px = static_cast<u16>(static_cast<i32>(state.px) + delta)] *)
Definition read_delta (v : Z) : Rd Z :=
  d ← read_ranged kSmallDeltaMin kSmallDeltaMax; mret (u16 (v + d)).

Definition read_position (px py : Z) : Rd (Z * Z) :=
  changed ← read_bool;
  if negb changed then mret (px, py) else
  small ← read_bool;
  if small : bool
  then x ← read_delta px; y ← read_delta py; mret (x, y)
  else x ← read_u16; y ← read_u16; mret (x, y).

Definition read_velocity (vx vy : Z) : Rd (Z * Z) :=
  changed ← read_bool;
  if negb changed then mret (vx, vy) else
  x ← read_bits kVelocityBits; y ← read_bits kVelocityBits; mret (u16 x, u16 y).

(** The state of one record; [None] when a delta arrives for an unknown entity. *)
Definition read_state (id : Z) (is_new : bool) (existing : option EntityWireState) : Rd (option EntityWireState) :=
  if is_new then
    px ← read_u16;
    py ← read_u16;
    vx ← read_bits kVelocityBits;
    vy ← read_bits kVelocityBits;
    kind ← read_bits kKindBits;
    mret (Some (mkEntityWireState id px py (u16 vx) (u16 vy) (u8 kind)))
  else
    match existing with
    | None => mret None
    | Some s =>
        '(px, py) ← read_position (ws_px s) (ws_py s);
        '(vx, vy) ← read_velocity (ws_vx s) (ws_vy s);
        mret (Some (mkEntityWireState id px py vx vy (ws_kind s)))
    end.

Fixpoint read_records (count : nat) (previous_id : Z) (states : list EntityWireState) :
    Rd (option (list EntityWireState)) :=
  match count with
  | O => mret (Some states)
  | S count =>
      id ← read_entity_id previous_id;
      is_new ← read_bool;
      unless_overflowed (
        let at_ := lower_bound states id in
        let existing :=
          match states !! at_ with
          | Some s => if ws_id s =? id then Some s else None
          | None => None
          end in
        decoded ← read_state id is_new existing;
        match decoded with
        | None => mret None
        | Some state =>
            unless_overflowed (
              read_records count id
                (match existing with
                 | Some _ => <[at_ := state]> states
                 | None => take at_ states ++ state :: drop at_ states
                 end))
        end)
  end.

Definition peek_snapshot_header : Rd (option (Z * Z * bool)) :=
  tick ← read_u32;
  full ← read_bool;
  baseline_tick ← (if full : bool then mret 0 else read_u32);
  unless_overflowed (mret (Some (tick, baseline_tick, full))).

(** The part of [decode_snapshot] after the header checks; [base_states] are the
    states of the accepted baseline, none for a full snapshot. *)
Definition decode_body (tick baseline_tick : Z) (full : bool) (last_input_sequence viewer : Z)
    (base_states : list EntityWireState) : Rd (option DecodedSnapshot) :=
  removed_count ← read_varint;
  unless_overflowed (
    if 65535 <? removed_count then mret None else
    removed ← read_removed (Z.to_nat removed_count) 0;
    unless_overflowed (
      let states := filter (fun s => ws_id s ∉ removed) base_states in
      updated_count ← read_u16;
      unless_overflowed (
        decoded ← read_records (Z.to_nat updated_count) 0 states;
        mret ((fun states => mkDecodedSnapshot tick baseline_tick full last_input_sequence viewer states removed)
                <$> decoded)))).

(** [baseline] is the frame the caller looked up, [None] for a null pointer. *)
Definition decode_snapshot (baseline : option SnapshotFrame) : Rd (option DecodedSnapshot) :=
  tick ← read_u32;
  full ← read_bool;
  baseline_tick ← (if full : bool then mret 0 else read_u32);
  last_input_sequence ← read_u32;
  viewer ← read_varint;
  unless_overflowed (
    if full : bool then decode_body tick baseline_tick full last_input_sequence viewer [] else
    match baseline with
    | Some frame =>
        if negb (sf_valid frame) || negb (sf_tick frame =? baseline_tick) then mret None
        else decode_body tick baseline_tick full last_input_sequence viewer (sf_states frame)
    | None => mret None
    end).

(** ** The server's replication state *)
Record InterestConfig := mkInterestConfig {
  ic_aoi_radius : f32;
  ic_max_snapshot_bytes : Z;
  ic_baseline_history : nat;
  ic_distance_priority_falloff : f32
}.

Definition InterestConfig_default : InterestConfig := mkInterestConfig (f32_of_Z 260) 1000 32 f1.

Record ReplicationStats := mkReplicationStats {
  rt_relevant_entities : Z;
  rt_entities_sent : Z;
  rt_entities_removed : Z;
  rt_entities_deferred : Z;
  rt_snapshot_bytes : Z;
  rt_was_full_snapshot : bool
}.

Definition ReplicationStats_zero : ReplicationStats := mkReplicationStats 0 0 0 0 0 false.

Record ReplicationState := mkReplicationState {
  rs_config : InterestConfig;
  rs_quantizers : ReplicationQuantizers;
  rs_params : WorldParams;
  rs_history : SnapshotHistory;
  rs_last_acked_tick : Z;
  rs_has_acked : bool;
  rs_priority : list (Z * f32);
  rs_stats : ReplicationStats
}.

Definition rs_configure (config : InterestConfig) (params : WorldParams) (rs : ReplicationState) : ReplicationState :=
  mkReplicationState config (ReplicationQuantizers_from params) params
    (history_configure (ic_baseline_history config)) (rs_last_acked_tick rs) (rs_has_acked rs) (rs_priority rs)
    (rs_stats rs).

Definition rs_reset (rs : ReplicationState) : ReplicationState :=
  mkReplicationState (rs_config rs) (rs_quantizers rs) (rs_params rs) (history_reset (rs_history rs)) 0 false []
    ReplicationStats_zero.

Definition acknowledge (tick : Z) (rs : ReplicationState) : ReplicationState :=
  if rs_has_acked rs && negb (sequence_greater32 tick (rs_last_acked_tick rs)) then rs
  else mkReplicationState (rs_config rs) (rs_quantizers rs) (rs_params rs) (rs_history rs) tick true (rs_priority rs)
         (rs_stats rs).

Definition rs_baseline (rs : ReplicationState) : option SnapshotFrame :=
  if rs_has_acked rs then history_get (rs_history rs) (rs_last_acked_tick rs) else None.

(** The baseline, unless its slot is about to be overwritten. *)
Definition usable_baseline (rs : ReplicationState) (tick : Z) : option SnapshotFrame :=
  match rs_baseline rs with
  | Some base =>
      if (slot_of (rs_history rs) (rs_last_acked_tick rs) =? slot_of (rs_history rs) tick)%nat then None else Some base
  | None => None
  end.

Record Candidate := mkCandidate { cd_index : nat; cd_priority : f32 }.

Section Encode.
Context `{Platform} (nth_element : nat -> list Candidate -> list Candidate).

(** [id << 32 | index] keys of the entities in the area of interest, sorted. *)
Definition gather (world : World) (eye : Vec2) (radius : f32) : list Z :=
  let s := w_entities world in
  let aoi_sq := fmul radius radius in
  merge_sort Z.le
    ((fun index => Z.lor (u64 (Z.shiftl (es_id s !!! index) 32)) (Z.of_nat index)) <$>
       filter (fun index => negb (fgtb (distance_sq (es_position s !!! index) eye) aoi_sq) = true)
         (query_radius (w_grid world) eye radius)).

Definition wire_state (q : ReplicationQuantizers) (s : EntityStore) (key : Z) : EntityWireState :=
  let index := Z.to_nat (Z.land key 0xffffffff) in
  mkEntityWireState (u32 (Z.shiftr key 32))
    (u16 (q_encode (rq_position q) (vec_x (es_position s !!! index))))
    (u16 (q_encode (rq_position q) (vec_y (es_position s !!! index))))
    (u16 (q_encode (rq_velocity q) (vec_x (es_velocity s !!! index))))
    (u16 (q_encode (rq_velocity q) (vec_y (es_velocity s !!! index))))
    (es_kind s !!! index).

(** [while (carried_at < size && priority_[carried_at].id < id) ++carried_at] *)
Fixpoint skip_carried (carried : list (Z * f32)) (id : Z) : list (Z * f32) :=
  match carried with
  | [] => []
  | (cid, p) :: rest => if cid <? id then skip_carried rest id else carried
  end.

Definition carried_priority (carried : list (Z * f32)) (id : Z) : f32 :=
  match carried with
  | (cid, p) :: _ => if cid =? id then p else f0
  | [] => f0
  end.

Definition priority_of (rs : ReplicationState) (eye : Vec2) (viewer : Z) (current : EntityWireState) (carried : f32) : f32 :=
  let q := rs_quantizers rs in
  let decoded := mkVec2 (q_decode (rq_position q) (ws_px current)) (q_decode (rq_position q) (ws_py current)) in
  let closeness :=
    fsub f1 (clampf (fdiv (fsqrt (distance_sq decoded eye)) (ic_aoi_radius (rs_config rs))) f0 f1) in
  let priority :=
    fadd (fadd carried (fmul closeness (ic_distance_priority_falloff (rs_config rs)))) (f32_lit 1 100) in
  if ws_id current =? viewer then fadd priority (f32_of_Z 1000000) else priority.

(** The candidate loop: [candidate_priority_] ([None] for the -1 of an entity
    that did not change), walking the carried priorities alongside. *)
Fixpoint candidate_priorities (rs : ReplicationState) (eye : Vec2) (viewer : Z)
    (l : list (EntityWireState * option EntityWireState)) (carried : list (Z * f32)) : list (option f32) :=
  match l with
  | [] => []
  | (current, previous) :: l =>
      let carried := skip_carried carried (ws_id current) in
      let unchanged := match previous with Some p => same_state_as current p | None => false end in
      (if unchanged : bool then None
       else Some (priority_of rs eye viewer current (carried_priority carried (ws_id current))))
        :: candidate_priorities rs eye viewer l carried
  end.

Fixpoint candidates_from (i : nat) (priorities : list (option f32)) : list Candidate :=
  match priorities with
  | [] => []
  | p :: priorities => option_list (mkCandidate i <$> p) ++ candidates_from (S i) priorities
  end.

Definition candidates_of (priorities : list (option f32)) : list Candidate := candidates_from 0 priorities.

(** How many worst-case records fit after the header and the count. *)
Definition record_fits (available_bits : Z) : Z :=
  if available_bits <=? kUpdateCountBits then 0 else (available_bits - kUpdateCountBits) / kWorstCaseEntityBits.

Definition select (candidates : list Candidate) (fits : nat) : list nat :=
  if (length candidates <=? fits)%nat then cd_index <$> candidates
  else merge_sort le (cd_index <$> take fits (nth_element fits candidates)).

(** What the frame remembers: what was sent, else what the client already had. *)
Fixpoint frame_states (i : nat) (l : list (EntityWireState * option EntityWireState)) (selected : list nat) :
    list EntityWireState :=
  match l with
  | [] => []
  | (current, previous) :: l =>
      (if bool_decide (i ∈ selected) then [current] else option_list previous) ++ frame_states (S i) l selected
  end.

(** The starvation credit carried to the next tick. *)
Fixpoint next_priorities (i : nat) (l : list (EntityWireState * option f32)) (selected : list nat) : list (Z * f32) :=
  match l with
  | [] => []
  | (current, p) :: l =>
      match p with
      | Some p => if bool_decide (i ∈ selected) || fltb p f0 then [] else [(ws_id current, p)]
      | None => []
      end ++ next_priorities (S i) l selected
  end.

(** [encode]: the bytes written, or [None] for the 0 of an unknown viewer or an
    overflow; [out] is the buffer, [capacity] its size. *)
Definition rs_encode (world : World) (viewer last_input_sequence : Z) (out : list Z) (capacity : Z)
    (rs : ReplicationState) : option (list Z) * ReplicationState :=
  let with_stats st := mkReplicationState (rs_config rs) (rs_quantizers rs) (rs_params rs) (rs_history rs)
                         (rs_last_acked_tick rs) (rs_has_acked rs) (rs_priority rs) st in
  let s := w_entities world in
  match store_find viewer s with
  | None => (None, with_stats ReplicationStats_zero)
  | Some viewer_index =>
      let eye := es_position s !!! viewer_index in
      let keys := gather world eye (ic_aoi_radius (rs_config rs)) in
      let current := wire_state (rs_quantizers rs) s <$> keys in
      let base := usable_baseline rs (w_tick world) in
      let full := match base with None => true | Some _ => false end in
      let '(previous, removed) :=
        match base with
        | None => ((fun _ => None) <$> current, [])
        | Some base => diff_frames (sf_states base) current
        end in
      let entries := zip current previous in
      let priorities := candidate_priorities rs eye viewer entries (rs_priority rs) in
      let candidates := candidates_of priorities in
      let budget := Z.min capacity (ic_max_snapshot_bytes (rs_config rs)) in
      let header := write_snapshot_header (w_tick world) (sf_tick <$> base) last_input_sequence viewer removed
                      (BitWriter_new out budget) in
      let relevant := u32 (Z.of_nat (length current)) in
      let removed_count := u32 (Z.of_nat (length removed)) in
      if bw_overflow header
      then (None, with_stats (mkReplicationStats relevant 0 removed_count 0 0 full))
      else
        let selected := select candidates (Z.to_nat (record_fits (bits_remaining header))) in
        let w := write_u16 (u16 (Z.of_nat (length selected))) header in
        let w := write_records ((fun i => entries !!! i) <$> selected) 0 w in
        match finish w with
        | None => (None, with_stats (mkReplicationStats relevant 0 removed_count 0 0 full))
        | Some bytes =>
            let frame := mkSnapshotFrame (w_tick world) true (frame_states 0 entries selected) in
            let stats := mkReplicationStats relevant (u32 (Z.of_nat (length selected))) removed_count
                           (u32 (Z.of_nat (length candidates - length selected))) (Z.of_nat (length bytes)) full in
            (Some bytes,
             mkReplicationState (rs_config rs) (rs_quantizers rs) (rs_params rs)
               (history_put (rs_history rs) (w_tick world) frame) (rs_last_acked_tick rs) (rs_has_acked rs)
               (next_priorities 0 (zip current priorities) selected) stats)
        end
  end.
End Encode.

(** ** Bits of a packet *)
Definition id_bits (id previous : Z) : list bool := varint_bits (u32 (id - previous)).

Fixpoint removed_bits (removed : list Z) (previous : Z) : list bool :=
  match removed with
  | [] => []
  | id :: removed => id_bits id previous ++ removed_bits removed id
  end.

Definition base_bits (base_tick : option Z) : list bool :=
  match base_tick with Some t => [false] ++ zbits 32 t | None => [true] end.

Definition header_bits (tick : Z) (base_tick : option Z) (last_input_sequence viewer : Z) (removed : list Z) : list bool :=
  zbits 32 tick ++ base_bits base_tick ++ zbits 32 last_input_sequence ++ varint_bits viewer ++
  varint_bits (Z.of_nat (length removed)) ++ removed_bits removed 0.

Definition changed_bits (a b : bool) (bits : list bool) : list bool := if a || b then true :: bits else [false].

Definition position_bits (c p : EntityWireState) : list bool :=
  changed_bits (negb (ws_px c =? ws_px p)) (negb (ws_py c =? ws_py p))
    (if small_delta (ws_px c - ws_px p) (ws_py c - ws_py p)
     then [true] ++ zbits 12 (ws_px c - ws_px p - kSmallDeltaMin) ++ zbits 12 (ws_py c - ws_py p - kSmallDeltaMin)
     else [false] ++ zbits 16 (ws_px c) ++ zbits 16 (ws_py c)).

Definition velocity_bits (c p : EntityWireState) : list bool :=
  changed_bits (negb (ws_vx c =? ws_vx p)) (negb (ws_vy c =? ws_vy p)) (zbits 12 (ws_vx c) ++ zbits 12 (ws_vy c)).

(** The record after the flag that says whether the entity is new. *)
Definition state_bits (c : EntityWireState) (previous : option EntityWireState) : list bool :=
  match previous with
  | None => zbits 16 (ws_px c) ++ zbits 16 (ws_py c) ++ zbits 12 (ws_vx c) ++ zbits 12 (ws_vy c) ++ zbits 2 (ws_kind c)
  | Some p => position_bits c p ++ velocity_bits c p
  end.

Definition is_new_bit (previous : option EntityWireState) : list bool :=
  [match previous with None => true | Some _ => false end].

Fixpoint records_bits (selected : list (EntityWireState * option EntityWireState)) (previous_id : Z) : list bool :=
  match selected with
  | [] => []
  | (c, p) :: selected =>
      id_bits (ws_id c) previous_id ++ is_new_bit p ++ state_bits c p ++ records_bits selected (ws_id c)
  end.

Record wire_ok (s : EntityWireState) : Prop := {
  wk_id : fits 32 (ws_id s);
  wk_px : fits 16 (ws_px s);
  wk_py : fits 16 (ws_py s);
  wk_vx : fits 12 (ws_vx s);
  wk_vy : fits 12 (ws_vy s);
  wk_kind : fits 2 (ws_kind s)
}.

(** A selected state can be sent against its baseline: same entity, same kind. *)
Definition entry_ok (e : EntityWireState * option EntityWireState) : Prop :=
  wire_ok (fst e) /\
  match snd e with Some p => wire_ok p /\ ws_id p = ws_id (fst e) /\ ws_kind p = ws_kind (fst e) | None => True end.

Lemma u32_range z : fits 32 (u32 z).
Proof. apply wrap_range. lia. Qed.

Lemma small_delta_spec dx dy : small_delta dx dy = true <-> -2048 <= dx <= 2047 /\ -2048 <= dy <= 2047.
Proof. unfold small_delta, kSmallDeltaMin, kSmallDeltaMax. rewrite !andb_true_iff, !Z.leb_le. lia. Qed.

Lemma writes_delta d : -2048 <= d <= 2047 ->
  writes (write_ranged d kSmallDeltaMin kSmallDeltaMax) (zbits 12 (d - kSmallDeltaMin)).
Proof.
  intros Hd. unfold kSmallDeltaMin, kSmallDeltaMax. eapply writes_eq; [|apply writes_ranged; unfold i32_range; lia].
  change (Z.to_nat (bits_required (-2048) 2047)) with 12%nat. f_equal. unfold clampz. lia.
Qed.

Lemma writes_small n v : 0 <= n <= 16 -> fits n v -> writes (write_bits v n) (zbits (Z.to_nat n) v).
Proof.
  intros Hn Hv. apply writes_bits; [|lia]. unfold fits in *.
  assert (2 ^ n <= 2 ^ 16) by (apply Z.pow_le_mono_r; lia). lia.
Qed.

Lemma write_entity_id_writes id previous : writes (write_entity_id id previous) (id_bits id previous).
Proof. apply writes_varint, u32_range. Qed.

Lemma write_removed_writes l previous : writes (write_removed l previous) (removed_bits l previous).
Proof.
  revert previous. induction l as [|id l IH]; intros previous; [apply writes_id|].
  apply (writes_comp (write_entity_id id previous)); [apply write_entity_id_writes|apply IH].
Qed.

(** Solves one field, chosen by the bits it writes. *)
Ltac write_field :=
  match goal with
  | |- writes _ (zbits 32 ?v) => apply (writes_u32 v)
  | |- writes _ (zbits 16 ?v) => apply (writes_u16 v)
  | |- writes _ (zbits 12 (_ - kSmallDeltaMin)) => apply writes_delta
  | |- writes _ (zbits 12 ?v) => apply (writes_small 12 v)
  | |- writes _ (zbits 2 ?v) => apply (writes_small 2 v)
  | |- writes _ (varint_bits ?v) => apply (writes_varint v)
  | |- writes _ (removed_bits _ _) => apply write_removed_writes
  | |- writes _ [?b] => apply (writes_bool b)
  end.

Lemma write_header_writes tick base_tick q viewer removed :
  fits 32 tick -> (forall t, base_tick = Some t -> fits 32 t) -> fits 32 q -> fits 32 viewer ->
  Z.of_nat (length removed) < 2 ^ 32 ->
  writes (write_snapshot_header tick base_tick q viewer removed) (header_bits tick base_tick q viewer removed).
Proof.
  intros H1 H2 H3 H4 H5. unfold write_snapshot_header, header_bits, base_bits.
  rewrite (wrap_small 32 (Z.of_nat (length removed))) by (split; lia).
  destruct base_tick as [t|]; split_writes; write_field; auto; split; lia.
Qed.

(** A flag, and the fields it announces. *)
Lemma writes_flagged (b : bool) m bs :
  (b = true -> writes m bs) ->
  writes (fun w => if b then m (write_bool b w) else write_bool b w) (if b then [true] ++ bs else [false]).
Proof.
  intros Hm. destruct b; [|apply writes_bool].
  apply (writes_comp (write_bool true) [true] m bs); [apply writes_bool|by apply Hm].
Qed.

Lemma write_position_writes c p :
  wire_ok c -> wire_ok p -> writes (write_position c p) (position_bits c p).
Proof.
  intros [] []. unfold write_position, position_bits, changed_bits. cbv zeta.
  set (pc := negb _ || negb _). set (small := small_delta _ _).
  set (dx := ws_px c - ws_px p) in *. set (dy := ws_py c - ws_py p) in *.
  apply (writes_flagged pc (fun w =>
    if small
    then write_ranged dy kSmallDeltaMin kSmallDeltaMax (write_ranged dx kSmallDeltaMin kSmallDeltaMax (write_bool small w))
    else write_u16 (ws_py c) (write_u16 (ws_px c) (write_bool small w)))). intros _.
  destruct small eqn:Es; subst small; [apply small_delta_spec in Es|]; split_writes; write_field; auto; lia.
Qed.

Lemma write_velocity_writes c p : wire_ok c -> writes (write_velocity c p) (velocity_bits c p).
Proof.
  intros []. unfold write_velocity, velocity_bits, changed_bits. cbv zeta.
  set (vc := negb _ || negb _).
  apply (writes_flagged vc (fun w => write_bits (ws_vy c) kVelocityBits (write_bits (ws_vx c) kVelocityBits w))).
  intros _. split_writes; write_field; auto; lia.
Qed.

Lemma write_state_writes c p : entry_ok (c, p) -> writes (write_state c p) (is_new_bit p ++ state_bits c p).
Proof.
  intros [Hc Hp]. cbn [fst snd] in *. unfold write_state, is_new_bit, state_bits. destruct p as [p|].
  - destruct Hp as [Hp _]. split_writes; [write_field|by apply write_position_writes|by apply write_velocity_writes].
  - destruct Hc. split_writes; write_field; auto; lia.
Qed.

Lemma write_records_writes l previous :
  Forall entry_ok l -> writes (write_records l previous) (records_bits l previous).
Proof.
  intros Hl. revert previous. induction Hl as [|[c p] l He _ IH]; intros previous; [apply writes_id|].
  cbn [write_records records_bits]. rewrite (app_assoc (is_new_bit p)).
  apply (writes_comp (write_entity_id (ws_id c) previous) _ (fun w => write_records l (ws_id c) (write_state c p w)));
    [apply write_entity_id_writes|].
  apply (writes_comp (write_state c p)); [by apply write_state_writes|apply IH].
Qed.

(** *** The worst case the selection budgets for *)
Lemma length_varint_bits v : (length (varint_bits v) <= 40)%nat.
Proof.
  unfold varint_bits. rewrite length_bits_of_bytes.
  assert (H : forall fuel v, (length (varint_bytes fuel v) <= fuel)%nat).
  { induction fuel as [|fuel IH]; intros z; [done|]. cbn [varint_bytes].
    destruct (z <? 128); cbn [length]; [lia|]. specialize (IH (z / 128)). lia. }
  specialize (H 5%nat v). lia.
Qed.

Lemma length_state_bits c p : (length (state_bits c p) <= 60)%nat.
Proof.
  unfold state_bits, position_bits, velocity_bits, changed_bits.
  destruct p as [p|]; repeat case_match; cbn [app length]; rewrite ?length_app; cbn [length];
    rewrite ?length_app, ?length_zbits; lia.
Qed.

Lemma length_records_bits l previous : Z.of_nat (length (records_bits l previous)) <= kWorstCaseEntityBits * Z.of_nat (length l).
Proof.
  change kWorstCaseEntityBits with 101.
  revert previous. induction l as [|[c p] l IH]; intros previous; [done|]. cbn [records_bits].
  rewrite !length_app. specialize (IH (ws_id c)). unfold id_bits, is_new_bit.
  pose proof (length_varint_bits (u32 (ws_id c - previous))). pose proof (length_state_bits c p).
  cbn [length]. lia.
Qed.

(** ** Reading back *)
Lemma reads_entity_id id previous : fits 32 id -> fits 32 previous ->
  reads (read_entity_id previous) (id_bits id previous) id.
Proof.
  intros Hi Hp. unfold read_entity_id, id_bits.
  eapply reads_eq; [reflexivity| |apply (reads_bind_ret read_varint (fun gap => u32 (previous + gap))), reads_varint, u32_range].
  rewrite wrap_add_r. replace (previous + (id - previous)) with id by lia. by apply wrap_small.
Qed.

Lemma reads_removed l previous : Forall (fits 32) l -> fits 32 previous ->
  reads (read_removed (length l) previous) (removed_bits l previous) l.
Proof.
  intros Hl. revert previous. induction Hl as [|id l Hid _ IH]; intros previous Hp; [apply reads_ret|].
  eapply reads_bind; [by apply reads_entity_id|]. apply (reads_bind_ret _ (cons id)), IH, Hid.
Qed.

Lemma reads_delta v d : fits 16 (v + d) -> -2048 <= d <= 2047 ->
  reads (read_delta v) (zbits 12 (d - kSmallDeltaMin)) (v + d).
Proof.
  intros Hv Hd. unfold read_delta, kSmallDeltaMin, kSmallDeltaMax.
  eapply reads_eq; [reflexivity| |apply (reads_bind_ret _ (fun d => u16 (v + d)) (zbits 12 (d - -2048)) d)].
  - by apply wrap_small.
  - apply (reads_ranged d (-2048) 2047); unfold i32_range; lia.
Qed.

Lemma reads_narrow n v : fits (Z.of_nat n) v -> (n <= 16)%nat -> reads (read_bits (Z.of_nat n)) (zbits n v) v.
Proof. intros. apply reads_zbits; [done|lia]. Qed.

Lemma reads_position c p : wire_ok c -> wire_ok p ->
  reads (read_position (ws_px p) (ws_py p)) (position_bits c p) (ws_px c, ws_py c).
Proof.
  intros [] []. unfold read_position, position_bits, changed_bits.
  destruct (_ || _) eqn:E.
  - refine (reads_bind read_bool _ [true] _ true _ (reads_bool true) _). cbn [negb].
    destruct (small_delta _ _) eqn:Es.
    + apply small_delta_spec in Es. refine (reads_bind read_bool _ [true] _ true _ (reads_bool true) _). cbn beta iota.
      eapply reads_bind; [apply reads_delta|].
      { by replace (ws_px p + (ws_px c - ws_px p)) with (ws_px c) by lia. } { lia. }
      replace (ws_px p + (ws_px c - ws_px p)) with (ws_px c) by lia.
      apply (reads_bind_ret _ (fun y => (ws_px c, y))).
      eapply reads_eq; [reflexivity| |apply reads_delta]; [lia| |lia].
      by replace (ws_py p + (ws_py c - ws_py p)) with (ws_py c) by lia.
    + refine (reads_bind read_bool _ [false] _ false _ (reads_bool false) _). cbn beta iota.
      eapply reads_bind; [by apply reads_u16|]. apply (reads_bind_ret _ (fun y => (ws_px c, y))). by apply reads_u16.
  - apply orb_false_iff in E as [E1 E2]. apply negb_false_iff, Z.eqb_eq in E1, E2.
    rewrite E1, E2. rewrite <- (app_nil_r [false]).
    refine (reads_bind read_bool _ [false] _ false _ (reads_bool false) _). apply reads_ret.
Qed.

Lemma reads_velocity c p : wire_ok c ->
  reads (read_velocity (ws_vx p) (ws_vy p)) (velocity_bits c p) (ws_vx c, ws_vy c).
Proof.
  intros []. unfold read_velocity, velocity_bits, changed_bits.
  assert (H12 : forall v, fits 12 v -> u16 v = v).
  { intros v Hv. apply wrap_small. eapply fits_le; [exact Hv|lia]. }
  destruct (_ || _) eqn:E.
  - refine (reads_bind read_bool _ [true] _ true _ (reads_bool true) _). cbn [negb].
    eapply reads_bind; [apply (reads_narrow 12); [done|lia]|].
    eapply reads_eq; [reflexivity| |apply (reads_bind_ret _ (fun y => (u16 (ws_vx c), u16 y))), (reads_narrow 12); [done|lia]].
    by rewrite !H12.
  - apply orb_false_iff in E as [E1 E2]. apply negb_false_iff, Z.eqb_eq in E1, E2.
    rewrite E1, E2. rewrite <- (app_nil_r [false]).
    refine (reads_bind read_bool _ [false] _ false _ (reads_bool false) _). apply reads_ret.
Qed.

Lemma wire_state_eta s : mkEntityWireState (ws_id s) (ws_px s) (ws_py s) (ws_vx s) (ws_vy s) (ws_kind s) = s.
Proof. by destruct s. Qed.

(** What the record decodes to: the state that was sent, whatever the client
    held, provided a delta finds the baseline it was made against. *)
Lemma reads_state c p existing : entry_ok (c, p) -> (p <> None -> existing = p) ->
  reads (read_state (ws_id c) (match p with None => true | Some _ => false end) existing) (state_bits c p) (Some c).
Proof.
  intros [Hc Hp] Hex. cbn [fst snd] in *. unfold read_state, state_bits. destruct p as [p|].
  - destruct Hp as (Hp & Hid & Hk). rewrite (Hex ltac:(done)).
    eapply reads_bind; [by apply reads_position|]. cbn beta iota.
    rewrite <- (app_nil_r (velocity_bits c p)). eapply reads_bind; [by apply reads_velocity|]. cbn beta iota.
    rewrite Hk, wire_state_eta. apply reads_ret.
  - destruct Hc. do 2 (eapply reads_bind; [by apply reads_u16|]).
    do 2 (eapply reads_bind; [by apply (reads_narrow 12); [|lia]|]).
    eapply reads_eq; [reflexivity| |apply (reads_bind_ret _ (fun k => Some (mkEntityWireState (ws_id c) (ws_px c)
      (ws_py c) (u16 (ws_vx c)) (u16 (ws_vy c)) (u8 k)))), (reads_narrow 2); [done|lia]].
    rewrite !wrap_small; [by rewrite wire_state_eta|..]; (eapply fits_le; [eassumption|lia]).
Qed.

(** ** Merging sorted frames *)
Definition sorted_ids (l : list EntityWireState) : Prop := StronglySorted Z.lt (ws_id <$> l).

(** [frame_find] on the states of a frame. *)
Definition find_state (l : list EntityWireState) (id : Z) : option EntityWireState :=
  match l !! lower_bound l id with
  | Some s => if ws_id s =? id then Some s else None
  | None => None
  end.

Lemma find_state_cons b bs id :
  find_state (b :: bs) id = if ws_id b <? id then find_state bs id else if ws_id b =? id then Some b else None.
Proof. unfold find_state. cbn [lower_bound]. by destruct (ws_id b <? id). Qed.

Lemma frame_find_state frame id : frame_find frame id = find_state (sf_states frame) id.
Proof. unfold frame_find, find_state. case_match; [|done]. by destruct (ws_id _ =? id). Qed.

Lemma find_state_Some l id s : find_state l id = Some s -> s ∈ l /\ ws_id s = id.
Proof.
  unfold find_state. destruct (l !! _) as [x|] eqn:E; [|done]. destruct (Z.eqb_spec (ws_id x) id); [|done].
  intros [= <-]. by apply list_elem_of_lookup_2 in E.
Qed.

Lemma sorted_ids_cons b bs : sorted_ids (b :: bs) <-> sorted_ids bs /\ forall x, x ∈ bs -> ws_id b < ws_id x.
Proof.
  unfold sorted_ids. rewrite fmap_cons. split.
  - intros [Hs Hf]%StronglySorted_inv. split; [done|]. intros x Hx. rewrite Forall_fmap, Forall_forall in Hf. by apply Hf.
  - intros [Hs Hf]. constructor; [done|]. by rewrite Forall_fmap, Forall_forall.
Qed.

Lemma find_state_in l s : sorted_ids l -> s ∈ l -> find_state l (ws_id s) = Some s.
Proof.
  induction l as [|b bs IH]; intros Hs Hin; [by apply not_elem_of_nil in Hin|].
  apply sorted_ids_cons in Hs as [Hs Hb]. rewrite find_state_cons. apply elem_of_cons in Hin as [->|Hin].
  - by rewrite Z.ltb_irrefl, Z.eqb_refl.
  - rewrite (proj2 (Z.ltb_lt _ _)) by auto. auto.
Qed.

(** Two id-sorted lists are walked together. *)
Lemma merge_ind (P : list EntityWireState -> list EntityWireState -> Prop) :
  (forall current, P [] current) -> (forall b bs, P (b :: bs) []) ->
  (forall b bs c cs, ws_id b < ws_id c -> P bs (c :: cs) -> P (b :: bs) (c :: cs)) ->
  (forall b bs c cs, ws_id c < ws_id b -> P (b :: bs) cs -> P (b :: bs) (c :: cs)) ->
  (forall b bs c cs, ws_id b = ws_id c -> P bs cs -> P (b :: bs) (c :: cs)) ->
  forall base current, P base current.
Proof.
  intros H1 H2 H3 H4 H5. induction base as [|b bs IH]; [done|]. induction current as [|c cs IHc]; [done|].
  destruct (Z.lt_trichotomy (ws_id b) (ws_id c)) as [?|[?|?]]; auto.
Qed.

Lemma diff_frames_cons b bs c cs :
  diff_frames (b :: bs) (c :: cs) =
  if ws_id b <? ws_id c then let '(p, r) := diff_frames bs (c :: cs) in (p, ws_id b :: r)
  else if ws_id c <? ws_id b then let '(p, r) := diff_frames (b :: bs) cs in (None :: p, r)
  else let '(p, r) := diff_frames bs cs in (Some b :: p, r).
Proof. reflexivity. Qed.

Lemma find_state_above b bs (cs : list EntityWireState) : (forall x, x ∈ cs -> ws_id b < ws_id x) ->
  (fun c => find_state (b :: bs) (ws_id c)) <$> cs = (fun c => find_state bs (ws_id c)) <$> cs.
Proof.
  intros H. apply list_fmap_ext. intros i x Hx%list_elem_of_lookup_2. rewrite find_state_cons.
  by rewrite (proj2 (Z.ltb_lt _ _)) by auto.
Qed.

Definition in_ids (l : list EntityWireState) (s : EntityWireState) : Prop := ws_id s ∈ ws_id <$> l.

#[export] Instance in_ids_dec l s : Decision (in_ids l s).
Proof. unfold in_ids. apply _. Defined.

Lemma not_in_above b cs : (forall x, x ∈ cs -> ws_id b < ws_id x) -> ~ in_ids cs b.
Proof. intros H (x & E & Hx)%list_elem_of_fmap. specialize (H x Hx). lia. Qed.

Lemma in_ids_cons c cs s : in_ids (c :: cs) s <-> ws_id s = ws_id c \/ in_ids cs s.
Proof. unfold in_ids. by rewrite fmap_cons, elem_of_cons. Qed.

(** The merge computes each entity's baseline state and the ids that left. *)
Lemma diff_frames_spec base current : sorted_ids base -> sorted_ids current ->
  diff_frames base current =
  ((fun c => find_state base (ws_id c)) <$> current, ws_id <$> filter (fun b => ~ in_ids current b) base).
Proof.
  revert base current. apply (merge_ind (fun base current => sorted_ids base -> sorted_ids current ->
    diff_frames base current = ((fun c => find_state base (ws_id c)) <$> current,
      ws_id <$> filter (fun b => ~ in_ids current b) base))).
  - done.
  - intros b bs _ _. change (diff_frames (b :: bs) []) with (@nil (option EntityWireState), ws_id <$> b :: bs).
    f_equal. f_equal. induction (b :: bs) as [|x l IH]; [done|].
    rewrite filter_cons_True by apply not_elem_of_nil. by rewrite <- IH.
  - intros b bs c cs Hlt IH Hb Hc. rewrite diff_frames_cons, (proj2 (Z.ltb_lt _ _)) by done.
    pose proof Hb as [Hbs _]%sorted_ids_cons. rewrite IH by done. apply sorted_ids_cons in Hc as [_ Hc].
    assert (Ha : forall x, x ∈ c :: cs -> ws_id b < ws_id x).
    { intros x [->|Hx]%elem_of_cons; [done|]. specialize (Hc x Hx). lia. }
    rewrite (find_state_above b) by done. rewrite filter_cons_True by (by apply not_in_above). done.
  - intros b bs c cs Hlt IH Hb Hc. rewrite diff_frames_cons.
    rewrite (proj2 (Z.ltb_ge _ _)), (proj2 (Z.ltb_lt _ _)) by lia.
    apply sorted_ids_cons in Hc as [Hcs _]. rewrite IH by done. rewrite fmap_cons, find_state_cons.
    rewrite (proj2 (Z.ltb_ge _ _)), (proj2 (Z.eqb_neq _ _)) by lia. do 2 f_equal.
    apply filter_ext_mem. intros x Hx. rewrite in_ids_cons.
    assert (ws_id b <= ws_id x).
    { apply sorted_ids_cons in Hb as [_ Hb]. apply elem_of_cons in Hx as [->|Hx]; [lia|]. specialize (Hb x Hx). lia. }
    split; [intros Hni [?|?]; [lia|auto]|tauto].
  - intros b bs c cs He IH Hb Hc. rewrite diff_frames_cons, He, Z.ltb_irrefl.
    apply sorted_ids_cons in Hb as [Hbs Hb]. apply sorted_ids_cons in Hc as [Hcs Hc]. rewrite IH by done. rewrite fmap_cons, find_state_cons.
    rewrite He, Z.ltb_irrefl, Z.eqb_refl, (find_state_above b) by (rewrite He; auto).
    rewrite filter_cons_False by (rewrite in_ids_cons; tauto). do 2 f_equal.
    apply filter_ext_mem. intros x Hx. rewrite in_ids_cons. specialize (Hb x Hx).
    split; [intros Hni [?|?]; [lia|auto]|tauto].
Qed.

Lemma omap_none {A B} (f : A -> option B) (l : list A) : (forall x, x ∈ l -> f x = None) -> omap f l = [].
Proof.
  induction l as [|x l IH]; intros H; [done|]. cbn. rewrite H by left. apply IH. intros y Hy. apply H. by right.
Qed.

Lemma omap_ext_mem {A B} (f g : A -> option B) (l : list A) : (forall x, x ∈ l -> f x = g x) -> omap f l = omap g l.
Proof.
  induction l as [|x l IH]; intros H; [done|]. cbn. rewrite <- H, IH by (try left; intros; apply H; by right). done.
Qed.

Lemma filter_none {A} (P : A -> Prop) `{!forall x, Decision (P x)} (l : list A) :
  (forall x, x ∈ l -> ~ P x) -> filter P l = [].
Proof.
  induction l as [|x l IH]; intros Hn; [done|]. rewrite filter_cons_False by (apply Hn; left).
  apply IH. intros y Hy. apply Hn. by right.
Qed.

(** What survives the removals is the baseline of the entities still there. *)
Lemma kept_baseline base current : sorted_ids base -> sorted_ids current ->
  filter (in_ids current) base = omap (fun c => find_state base (ws_id c)) current.
Proof.
  revert base current. apply (merge_ind (fun base current => sorted_ids base -> sorted_ids current ->
    filter (in_ids current) base = omap (fun c => find_state base (ws_id c)) current)).
  - intros current _ _. by rewrite omap_none.
  - intros b bs _ _. apply filter_none. intros x _. apply not_elem_of_nil.
  - intros b bs c cs Hlt IH Hb Hc.
    pose proof Hb as [Hbs _]%sorted_ids_cons. apply sorted_ids_cons in Hc as Hc'. destruct Hc' as [_ Hc'].
    assert (Ha : forall x, x ∈ c :: cs -> ws_id b < ws_id x).
    { intros x [->|Hx]%elem_of_cons; [done|]. specialize (Hc' x Hx). lia. }
    rewrite filter_cons_False by (by apply not_in_above). rewrite IH by done. apply omap_ext_mem.
    intros x Hx. rewrite find_state_cons. by rewrite (proj2 (Z.ltb_lt _ _)) by auto.
  - intros b bs c cs Hlt IH Hb Hc. apply sorted_ids_cons in Hc as [Hcs _].
    change (omap _ (c :: cs)) with (match find_state (b :: bs) (ws_id c) with
      | Some y => y :: omap (fun c => find_state (b :: bs) (ws_id c)) cs
      | None => omap (fun c => find_state (b :: bs) (ws_id c)) cs end).
    rewrite find_state_cons, (proj2 (Z.ltb_ge _ _)), (proj2 (Z.eqb_neq _ _)) by lia. rewrite <- IH by done.
    apply filter_ext_mem. intros x Hx. rewrite in_ids_cons.
    assert (ws_id b <= ws_id x).
    { apply sorted_ids_cons in Hb as [_ Hb]. apply elem_of_cons in Hx as [->|Hx]; [lia|]. specialize (Hb x Hx). lia. }
    split; [intros [?|?]; [lia|done]|tauto].
  - intros b bs c cs He IH Hb Hc. apply sorted_ids_cons in Hb as [Hbs Hb]. apply sorted_ids_cons in Hc as [Hcs Hc].
    rewrite filter_cons_True by (rewrite in_ids_cons; tauto).
    change (omap _ (c :: cs)) with (match find_state (b :: bs) (ws_id c) with
      | Some y => y :: omap (fun c => find_state (b :: bs) (ws_id c)) cs
      | None => omap (fun c => find_state (b :: bs) (ws_id c)) cs end).
    rewrite find_state_cons, He, Z.ltb_irrefl, Z.eqb_refl. f_equal.
    rewrite (omap_ext_mem _ (fun c => find_state bs (ws_id c))).
    + rewrite <- IH by done. apply filter_ext_mem. intros x Hx. rewrite in_ids_cons. specialize (Hb x Hx).
      split; [intros [?|?]; [lia|done]|tauto].
    + intros x Hx. rewrite find_state_cons. rewrite He, (proj2 (Z.ltb_lt _ _)) by auto. done.
Qed.

(** ** Reading the records *)
(** Entries with the flag that says whether they were selected. *)
Definition Tagged := (bool * (EntityWireState * option EntityWireState))%type.
Definition tag_id (x : Tagged) : Z := ws_id (fst (snd x)).
Definition sent (l : list Tagged) : list (EntityWireState * option EntityWireState) :=
  snd <$> filter (fun x => fst x = true) l.
Definition stored (l : list Tagged) : list EntityWireState :=
  l ≫= fun x => if fst x : bool then [fst (snd x)] else option_list (snd (snd x)).
Definition pending (l : list Tagged) : list EntityWireState := omap (fun x => snd (snd x)) l.

Lemma lower_bound_app done_ l id : Forall (fun s => ws_id s < id) done_ ->
  lower_bound (done_ ++ l) id = (length done_ + lower_bound l id)%nat.
Proof.
  induction 1 as [|s done_ Hs _ IH]; [done|]. cbn [app lower_bound length].
  rewrite (proj2 (Z.ltb_lt _ _)) by done. by rewrite IH.
Qed.

Lemma lower_bound_above l id : (forall s, s ∈ l -> id <= ws_id s) -> lower_bound l id = 0%nat.
Proof.
  destruct l as [|s l]; intros H; [done|]. cbn [lower_bound]. by rewrite (proj2 (Z.ltb_ge _ _)) by (apply H; left).
Qed.

Record tagged_ok (l : list Tagged) : Prop := {
  tg_entries : Forall (fun x => entry_ok (snd x)) l;
  tg_sorted : StronglySorted (fun x y => tag_id x < tag_id y) l
}.

Lemma tagged_ok_cons x l : tagged_ok (x :: l) ->
  entry_ok (snd x) /\ (forall y, y ∈ l -> tag_id x < tag_id y) /\ tagged_ok l.
Proof.
  intros [He Hs]. apply StronglySorted_inv in Hs as [Hs Hf]. inversion_clear He.
  rewrite Forall_forall in Hf. split; [done|]. split; [exact Hf|by split].
Qed.

Lemma pending_in l s : tagged_ok l -> s ∈ pending l -> exists x, x ∈ l /\ ws_id s = tag_id x.
Proof.
  intros [He _] (x & Hx & E)%list_elem_of_omap. exists x. split; [done|]. rewrite Forall_forall in He.
  specialize (He x Hx). destruct x as [f [c p]]. destruct He as [_ He]. cbn in *. rewrite E in He. tauto.
Qed.

Lemma parses_records l done_ previous :
  tagged_ok l -> (forall s x, s ∈ done_ -> x ∈ l -> ws_id s < tag_id x) -> fits 32 previous ->
  parses (read_records (length (sent l)) previous (done_ ++ pending l)) (records_bits (sent l) previous) (done_ ++ stored l).
Proof.
  revert done_ previous. induction l as [|[f [c p]] l IH]; intros done_ previous Hl Hd Hp.
  { cbn. rewrite app_nil_r. apply parses_ret. }
  apply tagged_ok_cons in Hl as (He & Hlt & Hl). change (tag_id (f, (c, p))) with (ws_id c) in Hlt. cbn [snd] in He.
  assert (Hdc : Forall (fun s => ws_id s < ws_id c) done_).
  { apply Forall_forall. intros s Hs. apply (Hd s (f, (c, p)) Hs). left. }
  assert (Hnext : forall s x, s ∈ done_ ++ [c] \/ s ∈ done_ ++ option_list p -> x ∈ l -> ws_id s < tag_id x).
  { intros s x Hs Hx. rewrite !elem_of_app in Hs. destruct He as [_ He]. specialize (Hlt x Hx).
    assert (s ∈ done_ \/ ws_id s = ws_id c) as [Hin|Heq].
    { destruct Hs as [[?|Hs]|[?|Hs]]; auto; right; destruct p; cbn in Hs, He;
        try (by apply elem_of_nil in Hs); apply list_elem_of_singleton in Hs; subst; tauto. }
    - apply (Hd s x Hin). by right.
    - by rewrite Heq. }
  destruct f.
  - change (sent ((true, (c, p)) :: l)) with ((c, p) :: sent l).
    change (stored ((true, (c, p)) :: l)) with ([c] ++ stored l).
    cbn [length read_records records_bits]. unfold is_new_bit.
    destruct He as [Hc Hp'].
    eapply parses_bind; [apply reads_entity_id; [apply Hc|done]|].
    eapply parses_bind; [apply reads_bool|]. apply parses_check.
    change (pending ((true, (c, p)) :: l)) with (match p with Some q => q :: pending l | None => pending l end).
    assert (Hpend : forall s, s ∈ pending l -> ws_id c < ws_id s).
    { intros s (x & Hx & ->)%pending_in; auto. }
    rewrite (lower_bound_app done_) by done.
    assert (Hlb : lower_bound (match p with Some q => q :: pending l | None => pending l end) (ws_id c) = 0%nat).
    { apply lower_bound_above. intros s Hs. destruct p as [q|]; [apply elem_of_cons in Hs as [->|Hs]|];
        cbn in Hp'; try (specialize (Hpend s Hs)); lia. }
    rewrite Hlb, Nat.add_0_r.
    assert (Hex : match (done_ ++ match p with Some q => q :: pending l | None => pending l end) !! length done_ with
        | Some s => if ws_id s =? ws_id c then Some s else None | None => None end = p).
    { rewrite lookup_app_r, Nat.sub_diag by lia. destruct p as [q|]; cbn in *.
      - rewrite (proj2 (Z.eqb_eq _ _)) by tauto. done.
      - destruct (pending l) as [|s l'] eqn:El; [done|]. cbn.
        rewrite (proj2 (Z.eqb_neq _ _)); [done|]. specialize (Hpend s ltac:(left)). lia. }
    cbv zeta. rewrite Hex.
    eapply parses_bind; [by apply reads_state|]. cbn beta iota. apply parses_check.
    replace (match p with Some _ => _ | None => _ end) with ((done_ ++ [c]) ++ pending l).
    + rewrite (app_assoc done_ [c]). apply IH; [done| |apply Hc]. intros s x Hs. apply Hnext. by left.
    + destruct p as [q|].
      * rewrite insert_app_r_alt, Nat.sub_diag by lia. cbn. by rewrite <- app_assoc.
      * rewrite take_app_length, drop_app_length. by rewrite <- app_assoc.
  - change (parses (read_records (length (sent l)) previous
      (done_ ++ match p with Some q => q :: pending l | None => pending l end))
      (records_bits (sent l) previous) (done_ ++ option_list p ++ stored l)).
    replace (match p with Some q => q :: pending l | None => pending l end) with (option_list p ++ pending l)
      by (by destruct p).
    rewrite !app_assoc. apply IH; [done| |done]. intros s x Hs. apply Hnext. by right.
Qed.

(** ** The whole packet *)
Lemma parses_map {A B} (m : Rd (option A)) (f : A -> B) bs a :
  parses m bs a -> parses (x ← m; mret (f <$> x)) bs (f a).
Proof.
  intros H r tl Hr Ho E. unfold mbind, Rd_bind. by rewrite (H r tl Hr Ho E).
Qed.

Section Parse.
Context (tick last_input viewer : Z) (base : option SnapshotFrame) (removed : list Z) (l : list Tagged).
Context (Htick : fits 32 tick) (Hinput : fits 32 last_input) (Hviewer : fits 32 viewer).
Context (Hbase : forall b, base = Some b -> sf_valid b = true /\ fits 32 (sf_tick b)).
Context (Hremoved : Forall (fits 32) removed) (Hcount : Z.of_nat (length removed) <= 65535).
Context (Hl : tagged_ok l) (Hsent : Z.of_nat (length (sent l)) <= 65535).

Let base_tick := sf_tick <$> base.
Let full := match base with None => true | Some _ => false end.
Let base_states := match base with Some b => sf_states b | None => [] end.

Context (Hpending : filter (fun s => ws_id s ∉ removed) base_states = pending l).

Definition body_bits : list bool :=
  varint_bits (Z.of_nat (length removed)) ++ removed_bits removed 0 ++
  zbits 16 (Z.of_nat (length (sent l))) ++ records_bits (sent l) 0.

Lemma parses_body bt f : parses (decode_body tick bt f last_input viewer base_states) body_bits
  (mkDecodedSnapshot tick bt f last_input viewer (stored l) removed).
Proof.
  unfold decode_body, body_bits.
  eapply parses_bind; [apply reads_varint; split; lia|]. apply parses_check.
  rewrite (proj2 (Z.ltb_ge _ _)), Nat2Z.id by lia.
  eapply parses_bind; [apply reads_removed; [done|split; lia]|]. apply parses_check. cbv zeta.
  eapply parses_bind; [apply reads_u16; split; lia|]. apply parses_check.
  rewrite Nat2Z.id, Hpending.
  apply (parses_map _ (fun states => mkDecodedSnapshot tick bt f last_input viewer states removed)).
  apply (parses_records l [] 0); [done| |split; lia]. intros s x Hs. by apply elem_of_nil in Hs.
Qed.

Definition snapshot_bits : list bool :=
  zbits 32 tick ++ base_bits base_tick ++ zbits 32 last_input ++ varint_bits viewer ++ body_bits.

(** Exactly the packet's content, on a client that holds the same baseline. *)
Lemma parses_snapshot (client : option SnapshotFrame) : (full = false -> client = base) ->
  parses (decode_snapshot client) snapshot_bits
    (mkDecodedSnapshot tick (default 0 base_tick) full last_input viewer (stored l) removed).
Proof.
  intros Hclient. unfold decode_snapshot, snapshot_bits.
  eapply parses_bind; [by apply reads_u32|].
  pose proof parses_body as Hbody.
  subst base_tick base_states full. destruct base as [b|]; cbn [fmap option_fmap option_map default base_bits] in *.
  - destruct (Hbase b eq_refl) as [Hv Ht]. rewrite Hclient by done. rewrite <- app_assoc.
    eapply parses_bind; [apply reads_bool|]. cbn beta iota. eapply parses_bind; [by apply reads_u32|].
    eapply parses_bind; [by apply reads_u32|]. eapply parses_bind; [by apply reads_varint|]. apply parses_check.
    rewrite Hv, Z.eqb_refl. apply Hbody.
  - eapply parses_bind; [apply reads_bool|]. cbn beta iota.
    refine (parses_bind (mret 0) _ [] _ 0 _ (reads_ret 0) _).
    eapply parses_bind; [by apply reads_u32|]. eapply parses_bind; [by apply reads_varint|]. apply parses_check.
    apply Hbody.
Qed.

Lemma parses_peek : parses peek_snapshot_header (zbits 32 tick ++ base_bits base_tick) (tick, default 0 base_tick, full).
Proof.
  clear Hpending. clear base_states. unfold peek_snapshot_header. eapply parses_bind; [by apply reads_u32|].
  subst base_tick full. destruct base as [b|]; cbn [fmap option_fmap option_map default base_bits].
  - destruct (Hbase b eq_refl) as [Hv Ht].
    eapply parses_bind; [apply reads_bool|]. cbn beta iota. rewrite <- (app_nil_r (zbits 32 _)).
    eapply parses_bind; [by apply reads_u32|]. apply parses_check, parses_ret.
  - rewrite <- (app_nil_r [true]). eapply parses_bind; [apply reads_bool|]. cbn beta iota.
    refine (parses_bind (mret 0) _ [] _ 0 _ (reads_ret 0) _). apply parses_check, parses_ret.
Qed.
End Parse.

(** ** Selection *)
Fixpoint tag_from (i : nat) (l : list (EntityWireState * option EntityWireState)) (selected : list nat) : list Tagged :=
  match l with
  | [] => []
  | e :: l => (bool_decide (i ∈ selected), e) :: tag_from (S i) l selected
  end.

Lemma frame_states_stored i l selected : frame_states i l selected = stored (tag_from i l selected).
Proof.
  revert i. induction l as [|[c p] l IH]; intros i; [done|]. cbn [frame_states tag_from]. by rewrite IH.
Qed.

Lemma tag_from_entries i l selected : snd <$> tag_from i l selected = l.
Proof. revert i. induction l as [|e l IH]; intros i; [done|]. cbn. by rewrite IH. Qed.

Lemma sent_tag_from i l selected :
  sent (tag_from i l selected) = (fun k => l !!! (k - i)%nat) <$> filter (fun k => k ∈ selected) (seq i (length l)).
Proof.
  revert i. induction l as [|e l IH]; intros i; [done|]. cbn [tag_from length seq]. unfold sent.
  assert (E : (fun k => (e :: l) !!! (k - i)%nat) <$> filter (fun k => k ∈ selected) (seq (S i) (length l)) =
              (fun k => l !!! (k - S i)%nat) <$> filter (fun k => k ∈ selected) (seq (S i) (length l))).
  { apply list_fmap_ext. intros j k Hk%list_elem_of_lookup_2. apply list_elem_of_filter in Hk as [_ Hk%elem_of_seq].
    by replace (k - i)%nat with (S (k - S i)) by lia. }
  rewrite !filter_cons. cbn [fst]. destruct (decide (i ∈ selected)) as [Hi|Hi].
  - rewrite bool_decide_true by done. cbn [decide decide_rel]. rewrite decide_True by done. rewrite !fmap_cons, E, Nat.sub_diag.
    cbn [snd]. f_equal. apply IH.
  - rewrite bool_decide_false by done. rewrite decide_False by done. rewrite E. apply IH.
Qed.

#[export] Instance lt_antisymm : AntiSymm (=) lt.
Proof. intros x y ? ?. lia. Qed.

Lemma StronglySorted_lt_NoDup l : StronglySorted lt l -> NoDup l.
Proof.
  induction 1 as [|x l _ IH Hf]; constructor; [|done]. intros Hx. rewrite Forall_forall in Hf.
  specialize (Hf x Hx). lia.
Qed.

Lemma strictly_sorted_unique l1 l2 : StronglySorted lt l1 -> StronglySorted lt l2 -> (forall x, x ∈ l1 <-> x ∈ l2) -> l1 = l2.
Proof.
  intros H1 H2 H. apply (StronglySorted_unique lt); [done|done|].
  apply NoDup_Permutation; [by apply StronglySorted_lt_NoDup..|done].
Qed.

Lemma seq_sorted i n : StronglySorted lt (seq i n).
Proof.
  revert i. induction n as [|n IH]; intros i; [constructor|]. constructor; [apply IH|].
  apply Forall_forall. intros x Hx%elem_of_seq. lia.
Qed.

(** The records are those of the tagged entries. *)
Lemma selected_records l selected : StronglySorted lt selected -> (forall i, i ∈ selected -> (i < length l)%nat) ->
  (fun i => l !!! i) <$> selected = sent (tag_from 0 l selected).
Proof.
  intros Hs Hlt. rewrite sent_tag_from.
  assert (filter (fun k => k ∈ selected) (seq 0 (length l)) = selected) as ->.
  { apply strictly_sorted_unique; [by apply StronglySorted_filter, seq_sorted|done|].
    intros x. rewrite list_elem_of_filter, elem_of_seq. split; [tauto|]. intros Hx. specialize (Hlt x Hx). split; [done|lia]. }
  apply list_fmap_ext. intros i k _. by rewrite Nat.sub_0_r.
Qed.

Lemma candidates_from_spec i ps :
  StronglySorted lt (cd_index <$> candidates_from i ps) /\
  forall k p, mkCandidate k p ∈ candidates_from i ps <-> (i <= k)%nat /\ ps !! (k - i)%nat = Some (Some p).
Proof.
  revert i. induction ps as [|p ps IH]; intros i.
  { split; [constructor|]. intros k p. rewrite elem_of_nil. cbn. split; [done|by intros [_ ?]]. }
  destruct (IH (S i)) as [Hs Hm]. cbn [candidates_from]. split.
  - destruct p as [p|]; cbn; [|done]. constructor; [done|]. apply Forall_fmap, Forall_forall.
    intros [k q] Hk%Hm. cbn. lia.
  - intros k q. rewrite elem_of_app, Hm. destruct (decide (k = i)) as [->|Hne].
    + rewrite Nat.sub_diag. destruct p as [p|]; cbn.
      * rewrite list_elem_of_singleton. split; [intros [[= ->]|?]; [done|lia]|intros [_ [= ->]]; by left].
      * rewrite elem_of_nil. split; [intros [?|?]; [done|lia]|by intros [_ ?]].
    + assert (Hi : mkCandidate k q ∈ option_list (mkCandidate i <$> p) <-> False).
      { destruct p; cbn; [rewrite list_elem_of_singleton|apply elem_of_nil]. split; [by intros [= ?]|done]. }
      rewrite Hi. destruct (decide (i <= k)%nat).
      * replace (k - i)%nat with (S (k - S i)) by lia. cbn. split; [intros [?|[? ?]]; [done|split; [lia|done]]|].
        intros [_ ?]. right. split; [lia|done].
      * split; [intros [?|[? ?]]; [done|lia]|lia].
Qed.

Lemma candidates_length i ps : (length (candidates_from i ps) <= length ps)%nat.
Proof.
  revert i. induction ps as [|p ps IH]; intros i; [done|]. cbn [candidates_from length]. rewrite length_app.
  specialize (IH (S i)). destruct p; cbn; lia.
Qed.

(** [std::nth_element] permutes its range and puts the best [n] first. *)
Record nth_element_ok (nth_element : nat -> list Candidate -> list Candidate) : Prop := {
  ne_permutes n l : (n <= length l)%nat -> nth_element n l ≡ₚ l;
  ne_partitions n l x y : (n <= length l)%nat -> x ∈ take n (nth_element n l) -> y ∈ drop n (nth_element n l) ->
    fgtb (cd_priority y) (cd_priority x) = false
}.

Lemma select_spec nth_element ps n : nth_element_ok nth_element ->
  let candidates := candidates_of ps in
  let selected := select nth_element candidates n in
  StronglySorted lt selected /\ length selected = Nat.min n (length candidates) /\
  (forall i, i ∈ selected -> exists p, ps !! i = Some (Some p)) /\
  ((length candidates <= n)%nat -> selected = cd_index <$> candidates) /\
  (forall i j p q, i ∈ selected -> j ∉ selected -> ps !! i = Some (Some p) -> ps !! j = Some (Some q) -> fgtb q p = false).
Proof.
  intros Hne candidates selected. destruct (candidates_from_spec 0 ps) as [Hs Hm].
  fold (candidates_of ps) in Hs, Hm. fold candidates in Hs, Hm.
  assert (Hin : forall i, i ∈ cd_index <$> candidates -> exists p, ps !! i = Some (Some p)).
  { intros i ([k p] & -> & Hk)%list_elem_of_fmap. apply Hm in Hk as [_ Hk]. rewrite Nat.sub_0_r in Hk. by exists p. }
  assert (Hmem : forall i p, ps !! i = Some (Some p) -> mkCandidate i p ∈ candidates).
  { intros i p Hi. apply Hm. rewrite Nat.sub_0_r. split; [lia|done]. }
  unfold select in selected. destruct (Nat.leb_spec (length candidates) n) as [Hle|Hgt].
  - subst selected. split; [done|]. split; [rewrite length_fmap; lia|]. split; [done|]. split; [done|].
    intros i j p q _ Hj _ Hq. destruct Hj. apply list_elem_of_fmap. by exists (mkCandidate j q); auto.
  - pose proof (ne_permutes _ Hne n candidates ltac:(lia)) as Hp.
    pose proof (merge_sort_Permutation le (cd_index <$> take n (nth_element n candidates))) as Hms. fold selected in Hms.
    assert (Hsub : forall i, i ∈ selected -> i ∈ cd_index <$> candidates).
    { intros i Hi. rewrite Hms in Hi. apply list_elem_of_fmap in Hi as (c & -> & Hc). apply list_elem_of_fmap.
      exists c. split; [done|]. rewrite <- Hp. apply elem_of_take in Hc as (k & Hk & _). by eapply list_elem_of_lookup_2. }
    split; [|split; [|split; [|split]]].
    + assert (Hnd : NoDup selected).
      { rewrite Hms, fmap_take. apply (sublist_NoDup _ (cd_index <$> nth_element n candidates)); [|apply sublist_take]. rewrite Hp. by apply StronglySorted_lt_NoDup. }
      pose proof (StronglySorted_merge_sort le (cd_index <$> take n (nth_element n candidates))) as Hle.
      fold selected in Hle. clearbody selected. clear Hms Hsub.
      induction Hle as [|x l _ IH Hf]; [constructor|]. apply NoDup_cons in Hnd as [Hx Hnd]. constructor; [by apply IH|].
      apply Forall_forall. intros y Hy. rewrite Forall_forall in Hf. specialize (Hf y Hy).
      destruct (decide (x = y)) as [->|]; [done|lia].
    + rewrite Hms, length_fmap, length_take, Hp. lia.
    + auto.
    + lia.
    + intros i j p q Hi Hj Hip Hjq. rewrite Hms in Hi, Hj.
      apply list_elem_of_fmap in Hi as ([i' p'] & -> & Hi). cbn [cd_index] in *.
      assert (Hi' : mkCandidate i' p' ∈ candidates).
      { rewrite <- Hp. apply elem_of_take in Hi as (k & Hk & _). by eapply list_elem_of_lookup_2. }
      apply Hm in Hi' as [_ Hi']. rewrite Nat.sub_0_r, Hip in Hi'. injection Hi' as ->.
      apply (ne_partitions _ Hne n candidates (mkCandidate i' p') (mkCandidate j q)); [lia|done|].
      apply Hmem in Hjq. rewrite <- Hp, <- (take_drop n (nth_element n candidates)), elem_of_app in Hjq.
      destruct Hjq as [Hjq|Hjq]; [|done]. destruct Hj. apply list_elem_of_fmap. by exists (mkCandidate j q).
Qed.

(** ** The states around a viewer *)
Section Gather.
Context `{Platform} (world : World) (q : ReplicationQuantizers).
Context (Hw : world_ok world) (Hcurrent : grid_current world).

Let s := w_entities world.

(** What the encoder reads of an entity is a number, of a kind the wire carries. *)
Definition entity_numeric (i : nat) : Prop :=
  let p := es_position s !!! i in let v := es_velocity s !!! i in
  Forall (fun x => is_nan x = false /\ f32_valid x) [vec_x p; vec_y p; vec_x v; vec_y v] /\ fits 2 (es_kind s !!! i).

Context (Hnum : forall i, (i < es_size s)%nat -> entity_numeric i).
Context (Hsize : Z.of_nat (es_size s) < 2 ^ 32).
Context (Hqp : quantizer_ok (rq_position q)) (Hqv : quantizer_ok (rq_velocity q)).
Context (Hbp : q_bits (rq_position q) = 16) (Hbv : q_bits (rq_velocity q) = 12).

Definition entity_key (i : nat) : Z := Z.lor (u64 (Z.shiftl (es_id s !!! i) 32)) (Z.of_nat i).

Lemma entity_id_fits i : (i < es_size s)%nat -> 0 < es_id s !!! i < 2 ^ 32.
Proof.
  intros Hi. assert (E : es_id s !! i = Some (es_id s !!! i)) by (by apply list_lookup_lookup_total_lt).
  apply (sw_index _ (wo_store _ Hw)) in E. pose proof (wo_ids _ Hw _ _ E). pose proof (wo_next _ Hw). lia.
Qed.

Lemma entity_key_value i : (i < es_size s)%nat -> entity_key i = Z.of_nat i + 2 ^ 32 * (es_id s !!! i).
Proof.
  intros Hi. pose proof (entity_id_fits i Hi). unfold entity_key.
  rewrite wrap_small; [|rewrite Z.shiftl_mul_pow2 by lia; unfold fits; lia].
  rewrite Z.lor_comm, lor_shiftl_add; lia.
Qed.

Lemma entity_key_parts i : (i < es_size s)%nat ->
  Z.land (entity_key i) 0xffffffff = Z.of_nat i /\ Z.shiftr (entity_key i) 32 = es_id s !!! i.
Proof.
  intros Hi. rewrite entity_key_value by done. change 0xffffffff with (Z.ones 32).
  rewrite Z.land_ones, Z.shiftr_div_pow2, (Z.mul_comm (2 ^ 32)), Z.mod_add, Z.div_add by lia.
  rewrite Z.mod_small, Z.div_small by lia. lia.
Qed.

Lemma gather_keys eye radius : exists l,
  gather world eye radius = entity_key <$> l /\ NoDup l /\ (forall i, i ∈ l -> (i < es_size s)%nat) /\
  (forall i, i ∈ l <-> i ∈ query_radius (w_grid world) eye radius /\
                        fgtb (distance_sq (es_position s !!! i) eye) (fmul radius radius) = false).
Proof.
  destruct Hcurrent as (g & positions & Hg & Eg & Hlen). unfold gather. fold s.
  set (keep := filter _ _). pose proof (merge_sort_Permutation Z.le (entity_key <$> keep)) as Hp.
  apply Permutation_map_inv in Hp as (l & El & Hl). symmetry in Hl. exists l. split; [exact El|].
  assert (Hmem : forall i, i ∈ l <-> i ∈ query_radius (w_grid world) eye radius /\
                        fgtb (distance_sq (es_position s !!! i) eye) (fmul radius radius) = false).
  { intros i. rewrite Hl. subst keep. rewrite list_elem_of_filter, negb_true_iff. tauto. }
  split; [|split; [|done]].
  - rewrite Hl. subst keep. apply NoDup_filter. rewrite Eg. by apply NoDup_query.
  - intros i [Hi _]%Hmem. rewrite Eg in Hi. apply (elem_of_query g Hg positions) in Hi as [Hi _]. by rewrite Hlen in Hi.
Qed.

Lemma wire_state_fields i : (i < es_size s)%nat ->
  ws_id (wire_state q s (entity_key i)) = es_id s !!! i /\
  ws_kind (wire_state q s (entity_key i)) = es_kind s !!! i /\ wire_ok (wire_state q s (entity_key i)).
Proof.
  intros Hi. destruct (entity_key_parts i Hi) as [E1 E2]. unfold wire_state. rewrite E1, E2, Nat2Z.id.
  pose proof (entity_id_fits i Hi). destruct (Hnum i Hi) as [Hf Hk]. rewrite !Forall_cons in Hf.
  destruct Hf as ((? & ?) & (? & ?) & (? & ?) & (? & ?) & _). cbn [ws_id ws_kind].
  rewrite (wrap_small 32) by (split; lia). split; [done|]. split; [done|].
  assert (P : forall x, is_nan x = false -> f32_valid x -> fits 16 (u16 (q_encode (rq_position q) x))).
  { intros x _ _. apply wrap_range. lia. }
  assert (V : forall x, is_nan x = false -> f32_valid x -> fits 12 (u16 (q_encode (rq_velocity q) x))).
  { intros x Hn Hv. pose proof (q_encode_fits _ x Hqv Hn Hv) as F. rewrite Hbv in F.
    rewrite wrap_small; [done|]. eapply fits_le; [exact F|lia]. }
  split; cbn; auto. split; lia.
Qed.

Definition current_states eye radius : list EntityWireState := wire_state q s <$> gather world eye radius.

Lemma current_from eye radius c : c ∈ current_states eye radius ->
  exists i, (i < es_size s)%nat /\ c = wire_state q s (entity_key i).
Proof.
  destruct (gather_keys eye radius) as (l & El & _ & Hlt & _). unfold current_states. rewrite El.
  intros (k & -> & (i & -> & Hi)%list_elem_of_fmap)%list_elem_of_fmap. exists i. auto.
Qed.

Lemma current_wire_ok eye radius : Forall wire_ok (current_states eye radius).
Proof. apply Forall_forall. intros c (i & Hi & ->)%current_from. by apply wire_state_fields. Qed.

(** The keys sort by id, and no two of them share an id. *)
Lemma current_sorted eye radius : sorted_ids (current_states eye radius).
Proof.
  destruct (gather_keys eye radius) as (l & El & Hnd & Hlt & _).
  assert (Hs : StronglySorted Z.le (gather world eye radius)) by (apply StronglySorted_merge_sort; apply _).
  unfold sorted_ids, current_states. rewrite El in *. rewrite <- !list_fmap_compose.
  clear El. induction l as [|i l IH]; [constructor|].
  apply NoDup_cons in Hnd as [Hni Hnd]. rewrite fmap_cons in Hs. apply StronglySorted_inv in Hs as [Hs Hf].
  assert (Hi : (i < es_size s)%nat) by (apply Hlt; left).
  rewrite fmap_cons. constructor; [apply IH; auto; intros j Hj; apply Hlt; by right|].
  apply Forall_fmap, Forall_forall. intros j Hj. rewrite Forall_fmap, Forall_forall in Hf. specialize (Hf j Hj).
  assert (Hj' : (j < es_size s)%nat) by (apply Hlt; by right). cbn beta in Hf.
  change (ws_id (wire_state q s (entity_key i)) < ws_id (wire_state q s (entity_key j))).
  destruct (wire_state_fields i Hi) as [-> _], (wire_state_fields j Hj') as [-> _].
  change (entity_key i <= entity_key j) in Hf. rewrite !entity_key_value in Hf by done.
  assert (es_id s !!! i <> es_id s !!! j).
  { intros E. apply list_lookup_lookup_total_lt in Hi as Ei, Hj' as Ej. change (es_id s !! i = Some (es_id s !!! i)) in Ei.
    change (es_id s !! j = Some (es_id s !!! j)) in Ej. rewrite E in Ei.
    apply (sw_index _ (wo_store _ Hw)) in Ei, Ej. fold s in Ei, Ej. congruence. }
  pose proof (entity_id_fits i Hi). pose proof (entity_id_fits j Hj'). lia.
Qed.
End Gather.

(** ** The server's side of a snapshot *)
Record frame_ok (kinds : Z -> Z) (frame : SnapshotFrame) : Prop := {
  fo_sorted : sorted_ids (sf_states frame);
  fo_wire : Forall wire_ok (sf_states frame);
  fo_kinds : forall s, s ∈ sf_states frame -> ws_kind s = kinds (ws_id s);
  fo_tick : fits 32 (sf_tick frame);
  fo_size : Z.of_nat (length (sf_states frame)) < 2 ^ 32
}.

(** Every frame the history can hand out is well-formed; [kinds] is the kind
    each id has for as long as it lives. *)
Record rs_ok (kinds : Z -> Z) (rs : ReplicationState) : Prop := {
  ro_frames : forall frame, frame ∈ rs_history rs -> sf_valid frame = true -> frame_ok kinds frame;
  ro_position : quantizer_ok (rq_position (rs_quantizers rs)) /\ q_bits (rq_position (rs_quantizers rs)) = 16;
  ro_velocity : quantizer_ok (rq_velocity (rs_quantizers rs)) /\ q_bits (rq_velocity (rs_quantizers rs)) = 12;
  ro_budget : ic_max_snapshot_bytes (rs_config rs) <= 65535
}.

Lemma StronglySorted_fmap {A B} (R : B -> B -> Prop) (f : A -> B) (l : list A) :
  StronglySorted R (f <$> l) <-> StronglySorted (fun x y => R (f x) (f y)) l.
Proof.
  induction l as [|x l IH]; [split; constructor|]. rewrite fmap_cons. split; intros [Hs Hf]%StronglySorted_inv.
  - constructor; [by apply IH|]. by rewrite Forall_fmap in Hf.
  - constructor; [by apply IH|]. by rewrite Forall_fmap.
Qed.

Lemma history_get_in h t frame : history_get h t = Some frame -> frame ∈ h /\ sf_valid frame = true /\ sf_tick frame = t.
Proof.
  unfold history_get. destruct (Nat.eqb_spec (length h) 0) as [|Hn]; [done|].
  destruct (sf_valid (h !!! slot_of h t)) eqn:Ev; cbn [negb orb]; [|done].
  destruct (Z.eqb_spec (sf_tick (h !!! slot_of h t)) t) as [Et|]; [|done]. cbn. intros [= <-].
  split; [|done]. apply list_elem_of_lookup_2 with (slot_of h t), list_lookup_lookup_total_lt.
  unfold slot_of. pose proof (Z.mod_pos_bound t (Z.of_nat (length h)) ltac:(lia)). lia.
Qed.

Lemma history_get_nonempty h t frame : history_get h t = Some frame -> (0 < length h)%nat.
Proof. unfold history_get. destruct (Nat.eqb_spec (length h) 0); [done|lia]. Qed.

Lemma history_put_in h t frame x : x ∈ history_put h t frame -> x = frame \/ x ∈ h.
Proof.
  unfold history_put. destruct (_ =? _)%nat; [by right|].
  intros (i & Hi)%list_elem_of_lookup. apply list_lookup_insert_Some in Hi as [(_ & <- & _)|[_ Hi]]; [by left|].
  right. by eapply list_elem_of_lookup_2.
Qed.

(** What was stored is what is looked up, until its slot is reused. *)
Lemma history_get_put h t t' frame : (0 < length h)%nat -> sf_valid frame = true -> sf_tick frame = t ->
  history_get (history_put h t frame) t' =
  if bool_decide (slot_of h t' = slot_of h t) then (if t' =? t then Some frame else None) else history_get h t'.
Proof.
  intros Hn Hv Ht. unfold history_get, history_put. rewrite (proj2 (Nat.eqb_neq (length h) 0)) by lia.
  cbv iota. rewrite length_insert, (proj2 (Nat.eqb_neq (length h) 0)) by lia.
  assert (E : slot_of (<[slot_of h t:=frame]> h) t' = slot_of h t') by (unfold slot_of; by rewrite length_insert).
  rewrite E. case_bool_decide as Es.
  - rewrite Es, list_lookup_total_insert_eq.
    + rewrite Hv, Ht. cbn. rewrite (Z.eqb_sym t t'). by destruct (t' =? t).
    + unfold slot_of. pose proof (Z.mod_pos_bound t (Z.of_nat (length h)) ltac:(lia)). lia.
  - by rewrite list_lookup_total_insert_ne.
Qed.

Lemma usable_baseline_ok kinds rs t base : rs_ok kinds rs -> usable_baseline rs t = Some base ->
  frame_ok kinds base /\ sf_valid base = true /\ rs_baseline rs = Some base.
Proof.
  intros Hrs. unfold usable_baseline. destruct (rs_baseline rs) as [b|] eqn:Eb; [|done].
  destruct (_ =? _)%nat; [done|]. intros [= <-]. unfold rs_baseline in Eb. destruct (rs_has_acked rs); [|done].
  apply history_get_in in Eb as (Hin & Hv & _). split; [by apply (ro_frames _ _ Hrs)|done].
Qed.

(** *** The entries of a viewer against a baseline *)
Section Entries.
Context (kinds : Z -> Z) (base_states current : list EntityWireState).
Context (Hbs : sorted_ids base_states) (Hbw : Forall wire_ok base_states)
        (Hbk : forall s, s ∈ base_states -> ws_kind s = kinds (ws_id s)).
Context (Hcs : sorted_ids current) (Hcw : Forall wire_ok current)
        (Hck : forall s, s ∈ current -> ws_kind s = kinds (ws_id s)).

Definition entries_of : list (EntityWireState * option EntityWireState) :=
  (fun c => (c, find_state base_states (ws_id c))) <$> current.

Definition removed_of : list Z := ws_id <$> filter (fun b => ~ in_ids current b) base_states.

Lemma zip_entries : zip current ((fun c => find_state base_states (ws_id c)) <$> current) = entries_of.
Proof. unfold entries_of. clear. induction current as [|c l IH]; [done|]. rewrite !fmap_cons. cbn. by f_equal. Qed.

Lemma find_state_kind c p : c ∈ current -> find_state base_states (ws_id c) = Some p ->
  wire_ok p /\ ws_id p = ws_id c /\ ws_kind p = ws_kind c.
Proof.
  intros Hc [Hp Hid]%find_state_Some. rewrite Forall_forall in Hbw. split; [by apply Hbw|]. split; [done|].
  rewrite Hbk, Hck, Hid by done. done.
Qed.

Lemma entries_ok : Forall entry_ok entries_of.
Proof.
  apply Forall_forall. intros e (c & -> & Hc)%list_elem_of_fmap. rewrite Forall_forall in Hcw. split; [by apply Hcw|].
  cbn [snd fst]. destruct (find_state _ _) as [p|] eqn:E; [|done]. by apply find_state_kind.
Qed.

Lemma tagged_entries selected : tagged_ok (tag_from 0 entries_of selected).
Proof.
  pose proof (tag_from_entries 0 entries_of selected) as E. split.
  - pose proof entries_ok as He. rewrite <- E in He. by rewrite Forall_fmap in He.
  - unfold tag_id. apply (StronglySorted_fmap Z.lt (fun x : Tagged => ws_id (fst (snd x)))).
    assert (Ei : (fun x : Tagged => ws_id (fst (snd x))) <$> tag_from 0 entries_of selected = ws_id <$> current).
    { transitivity ((fun e => ws_id (fst e)) <$> (snd <$> tag_from 0 entries_of selected)); [by rewrite <- list_fmap_compose|].
      rewrite E. unfold entries_of. by rewrite <- list_fmap_compose. }
    rewrite Ei. exact Hcs.
Qed.

Lemma pending_entries selected :
  filter (fun s => ws_id s ∉ removed_of) base_states = pending (tag_from 0 entries_of selected).
Proof.
  transitivity (filter (in_ids current) base_states).
  - apply filter_ext_mem. intros x Hx. unfold removed_of. split.
    + intros Hn. destruct (decide (in_ids current x)) as [?|Hni]; [done|]. destruct Hn. apply list_elem_of_fmap.
      exists x. split; [done|]. by apply list_elem_of_filter.
    + intros Hi (y & Hid & [Hy Hyb]%list_elem_of_filter)%list_elem_of_fmap. apply Hy. unfold in_ids in *. by rewrite <- Hid.
  - rewrite kept_baseline by done. transitivity (omap snd entries_of).
    + unfold entries_of. generalize current. intros l. induction l as [|c l IH]; [done|]. cbn. by rewrite IH.
    + rewrite <- (tag_from_entries 0 entries_of selected) at 1. unfold pending.
      induction (tag_from 0 entries_of selected) as [|[f [c p]] l IH]; [done|]. cbn. by rewrite IH.
Qed.

Lemma removed_fits : Forall (fits 32) removed_of.
Proof.
  apply Forall_fmap, Forall_forall. intros b [_ Hb]%list_elem_of_filter. rewrite Forall_forall in Hbw. apply Hbw, Hb.
Qed.

Lemma stored_in selected s : s ∈ stored (tag_from 0 entries_of selected) -> s ∈ current \/ s ∈ base_states.
Proof.
  unfold stored. rewrite list_elem_of_bind. intros ([f e] & Hs & Hx). cbn [fst snd] in Hs.
  assert (He : e ∈ entries_of).
  { rewrite <- (tag_from_entries 0 entries_of selected). apply list_elem_of_fmap. by exists (f, e). }
  apply list_elem_of_fmap in He as (c & -> & Hc). cbn [fst snd] in Hs. destruct f.
  - apply list_elem_of_singleton in Hs as ->. by left.
  - destruct (find_state _ _) as [p|] eqn:E; [|by apply elem_of_nil in Hs]. apply list_elem_of_singleton in Hs as ->.
    apply find_state_Some in E as [? _]. by right.
Qed.

Lemma stored_sorted l : tagged_ok l -> sorted_ids (stored l).
Proof.
  induction l as [|[f [c p]] l IH]; intros Hl; [constructor|]. apply tagged_ok_cons in Hl as (He & Hlt & Hl).
  assert (Hrest : forall s, s ∈ stored l -> ws_id c < ws_id s).
  { intros s Hs. unfold stored in Hs. rewrite list_elem_of_bind in Hs. destruct Hs as ([f' [c' p']] & Hs & Hx).
    specialize (Hlt _ Hx). change (ws_id c < ws_id c') in Hlt. cbn [fst snd] in Hs.
    destruct Hl as [Hl _]. rewrite Forall_forall in Hl. destruct (Hl _ Hx) as [_ Hp']. cbn [fst snd] in Hp'.
    destruct f'; [apply list_elem_of_singleton in Hs as ->; done|].
    destruct p'; [apply list_elem_of_singleton in Hs as ->; lia|by apply elem_of_nil in Hs]. }
  change (stored ((f, (c, p)) :: l)) with ((if f then [c] else option_list p) ++ stored l).
  destruct He as [_ Hp]. cbn [fst snd] in Hp.
  destruct f; [|destruct p as [p|]]; cbn [app option_list]; [apply sorted_ids_cons; auto| |auto].
  apply sorted_ids_cons. split; [auto|]. intros s Hs. specialize (Hrest s Hs). lia.
Qed.
End Entries.

Lemma length_stored i l selected : (length (stored (tag_from i l selected)) <= length l)%nat.
Proof.
  revert i. induction l as [|[c p] l IH]; intros i; [done|]. cbn [tag_from].
  change (stored ((bool_decide (i ∈ selected), (c, p)) :: tag_from (S i) l selected))
    with ((if bool_decide (i ∈ selected) then [c] else option_list p) ++ stored (tag_from (S i) l selected)).
  rewrite length_app. specialize (IH (S i)).
  destruct (bool_decide _); [|destruct p]; cbn; lia.
Qed.

Lemma length_removed_bits l previous : (8 * length l <= length (removed_bits l previous))%nat.
Proof.
  revert previous. induction l as [|id l IH]; intros previous; [done|]. cbn [removed_bits length]. rewrite length_app.
  assert (8 <= length (id_bits id previous))%nat.
  { unfold id_bits, varint_bits. rewrite length_bits_of_bytes. generalize (u32 (id - previous)). intros z.
    change (varint_bytes 5 z) with (if z <? 128 then [z] else (z mod 128 + 128) :: varint_bytes 4 (z / 128)).
    destruct (z <? 128); cbn [length]; lia. }
  specialize (IH id). lia.
Qed.

Lemma snapshot_bits_header tick q viewer base removed l :
  snapshot_bits tick q viewer base removed l =
  header_bits tick (sf_tick <$> base) q viewer removed ++ zbits 16 (Z.of_nat (length (sent l))) ++ records_bits (sent l) 0.
Proof. unfold snapshot_bits, body_bits, header_bits. by rewrite <- !app_assoc. Qed.

(** ** One snapshot, from the world to the packet *)
Section Round.
Context `{Platform} (nth_element : nat -> list Candidate -> list Candidate) (Hne : nth_element_ok nth_element).
Context (kinds : Z -> Z) (world : World) (rs : ReplicationState) (viewer last_input : Z) (index : nat).
Context (out : list Z) (capacity : Z).

Let s := w_entities world.

Record encode_ready : Prop := {
  er_world : world_ok world;
  er_grid : grid_current world;
  er_numeric i : (i < es_size s)%nat -> entity_numeric world i /\ es_kind s !!! i = kinds (es_id s !!! i);
  er_size : Z.of_nat (es_size s) < 2 ^ 32;
  er_tick : fits 32 (w_tick world);
  er_input : fits 32 last_input;
  er_viewer : fits 32 viewer;
  er_state : rs_ok kinds rs;
  er_buffer : buffer_ok out capacity;
  er_positive : 0 <= ic_max_snapshot_bytes (rs_config rs)
}.

Context (Hr : encode_ready) (Hindex : store_find viewer (w_entities world) = Some index).

Definition ctx_current : list EntityWireState :=
  current_states world (rs_quantizers rs) (es_position (w_entities world) !!! index) (ic_aoi_radius (rs_config rs)).
Definition ctx_base : option SnapshotFrame := usable_baseline rs (w_tick world).
Definition ctx_base_states : list EntityWireState := match ctx_base with Some b => sf_states b | None => [] end.
Definition ctx_removed : list Z := removed_of ctx_base_states ctx_current.
Definition ctx_entries := entries_of ctx_base_states ctx_current.
Definition ctx_priorities : list (option f32) :=
  candidate_priorities rs (es_position (w_entities world) !!! index) viewer ctx_entries (rs_priority rs).
Definition ctx_budget : Z := Z.min capacity (ic_max_snapshot_bytes (rs_config rs)).
Definition ctx_header_bits : list bool :=
  header_bits (w_tick world) (sf_tick <$> ctx_base) last_input viewer ctx_removed.
Definition ctx_selected : list nat :=
  select nth_element (candidates_of ctx_priorities)
    (Z.to_nat (record_fits (ctx_budget * 8 - Z.of_nat (length ctx_header_bits)))).
Definition ctx_tags : list Tagged := tag_from 0 ctx_entries ctx_selected.
Definition ctx_frame : SnapshotFrame := mkSnapshotFrame (w_tick world) true (stored ctx_tags).
Definition ctx_bits : list bool :=
  snapshot_bits (w_tick world) last_input viewer ctx_base ctx_removed ctx_tags.
Definition ctx_write (w : BitWriter) : BitWriter :=
  write_records (sent ctx_tags) 0 (write_u16 (u16 (Z.of_nat (length ctx_selected)))
    (write_snapshot_header (w_tick world) (sf_tick <$> ctx_base) last_input viewer ctx_removed w)).

Lemma ctx_base_ok : (forall b, ctx_base = Some b -> frame_ok kinds b /\ sf_valid b = true) /\
  sorted_ids ctx_base_states /\ Forall wire_ok ctx_base_states /\
  (forall s, s ∈ ctx_base_states -> ws_kind s = kinds (ws_id s)) /\ Z.of_nat (length ctx_base_states) < 2 ^ 32.
Proof.
  assert (Hb : forall b, ctx_base = Some b -> frame_ok kinds b /\ sf_valid b = true).
  { intros b Eb. destruct (usable_baseline_ok kinds rs _ b (er_state Hr) Eb) as (? & ? & _). done. }
  split; [exact Hb|]. unfold ctx_base_states. destruct ctx_base as [b|].
  - destruct (Hb b eq_refl) as [[] _]. done.
  - split; [constructor|]. split; [constructor|]. split; [intros x Hx; by apply elem_of_nil in Hx|done].
Qed.

Lemma ctx_current_ok : sorted_ids ctx_current /\ Forall wire_ok ctx_current /\
  (forall s, s ∈ ctx_current -> ws_kind s = kinds (ws_id s)) /\ Z.of_nat (length ctx_current) < 2 ^ 32.
Proof.
  destruct Hr as [Hw Hg Hn Hs _ _ _ [_ [Hqp Hbp] [Hqv Hbv] _] _ _].
  assert (Hnum : forall i, (i < es_size (w_entities world))%nat -> entity_numeric world i) by (intros i Hi; by apply Hn).
  unfold ctx_current. split; [by apply current_sorted|]. split; [by apply current_wire_ok|]. split.
  - intros c Hc. eapply current_from in Hc as (i & Hi & ->); try done.
    edestruct (wire_state_fields world (rs_quantizers rs)) as (-> & -> & _); try done. by apply Hn.
  - unfold current_states. rewrite length_fmap.
    edestruct (gather_keys world) as (l & -> & Hnd & Hlt & _); try done. rewrite length_fmap.
    assert (length l <= length (seq 0 (es_size (w_entities world))))%nat.
    { apply submseteq_length, NoDup_submseteq; [done|]. intros i Hi. apply elem_of_seq. specialize (Hlt i Hi). lia. }
    rewrite length_seq in *. change (Z.of_nat (es_size (w_entities world)) < 2 ^ 32) in Hs. lia.
Qed.

Lemma ctx_tags_ok : tagged_ok ctx_tags.
Proof.
  destruct ctx_base_ok as (_ & ? & ? & ? & _), ctx_current_ok as (? & ? & ? & _). by eapply tagged_entries.
Qed.

Lemma ctx_entries_length : length ctx_entries = length ctx_current.
Proof. apply length_fmap. Qed.

Lemma candidate_priorities_length eye v l carried : length (candidate_priorities rs eye v l carried) = length l.
Proof. revert carried. induction l as [|[c p] l IH]; intros carried; [done|]. cbn. by rewrite IH. Qed.

Lemma ctx_selected_spec : StronglySorted lt ctx_selected /\
  (forall i, i ∈ ctx_selected -> (i < length ctx_entries)%nat) /\
  (length ctx_selected <= Z.to_nat (record_fits (ctx_budget * 8 - Z.of_nat (length ctx_header_bits))))%nat.
Proof.
  destruct (select_spec nth_element ctx_priorities
    (Z.to_nat (record_fits (ctx_budget * 8 - Z.of_nat (length ctx_header_bits)))) Hne) as (Hs & Hl & Hin & _).
  fold ctx_selected in Hs, Hl, Hin. split; [done|]. split; [|lia].
  intros i (p & Hi)%Hin. apply lookup_lt_Some in Hi. unfold ctx_priorities in Hi.
  by rewrite candidate_priorities_length in Hi.
Qed.

Lemma ctx_records : (fun i => ctx_entries !!! i) <$> ctx_selected = sent ctx_tags.
Proof. destruct ctx_selected_spec as (Hs & Hlt & _). by apply selected_records. Qed.

Lemma ctx_sent_length : length (sent ctx_tags) = length ctx_selected.
Proof. by rewrite <- ctx_records, length_fmap. Qed.

Lemma ctx_removed_length : (length ctx_removed <= length ctx_base_states)%nat.
Proof. unfold ctx_removed, removed_of. rewrite length_fmap. apply length_filter. Qed.

Lemma ctx_header_writes :
  writes (write_snapshot_header (w_tick world) (sf_tick <$> ctx_base) last_input viewer ctx_removed) ctx_header_bits.
Proof.
  destruct ctx_base_ok as (Hb & _ & _ & _ & Hlen). apply write_header_writes; try apply Hr.
  - intros t Ht. destruct ctx_base as [b|]; [|done]. injection Ht as <-. apply (Hb b eq_refl).
  - pose proof ctx_removed_length. lia.
Qed.

Lemma ctx_budget_range : 0 <= ctx_budget <= 65535 /\ ctx_budget <= capacity.
Proof. unfold ctx_budget. pose proof (ro_budget _ _ (er_state Hr)). pose proof (er_positive Hr). destruct (er_buffer Hr) as (_ & ? & _). lia. Qed.

Lemma record_fits_bound a n : Z.of_nat n <= record_fits a -> 0 < Z.of_nat n -> 16 + 101 * Z.of_nat n <= a.
Proof.
  unfold record_fits, kUpdateCountBits, kWorstCaseEntityBits, kVelocityBits, kKindBits.
  destruct (Z.leb_spec a 16); [lia|]. change (40 + 1 + 1 + 1 + 16 + 16 + 12 * 2 + 2) with 101.
  pose proof (Z.div_mod (a - 16) 101 ltac:(lia)). pose proof (Z.mod_pos_bound (a - 16) 101 ltac:(lia)). lia.
Qed.

(** The selection budgets for the worst case, so records never overflow. *)
Lemma ctx_records_fit :
  Z.of_nat (length ctx_header_bits) + 16 <= ctx_budget * 8 -> Z.of_nat (length ctx_bits) <= ctx_budget * 8.
Proof.
  intros Hh. unfold ctx_bits. rewrite snapshot_bits_header. fold ctx_header_bits. rewrite !length_app, length_zbits.
  pose proof (length_records_bits (sent ctx_tags) 0) as Hl. change kWorstCaseEntityBits with 101 in Hl.
  rewrite ctx_sent_length in Hl. destruct ctx_selected_spec as (_ & _ & Hn).
  destruct (decide (length ctx_selected = 0)%nat) as [E|E]; [rewrite E in Hl; lia|].
  pose proof (record_fits_bound (ctx_budget * 8 - Z.of_nat (length ctx_header_bits)) (length ctx_selected)). lia.
Qed.

Lemma ctx_selected_small : Z.of_nat (length ctx_selected) <= 65535.
Proof.
  destruct ctx_selected_spec as (_ & _ & Hn). pose proof ctx_budget_range.
  destruct (decide (length ctx_selected = 0)%nat) as [E|E]; [lia|].
  pose proof (record_fits_bound (ctx_budget * 8 - Z.of_nat (length ctx_header_bits)) (length ctx_selected)). lia.
Qed.

Lemma ctx_writes : writes ctx_write ctx_bits.
Proof.
  unfold ctx_write, ctx_bits. rewrite snapshot_bits_header. fold ctx_header_bits. rewrite app_assoc.
  rewrite <- ctx_sent_length. pose proof ctx_selected_small as Hs. rewrite <- ctx_sent_length in Hs.
  rewrite wrap_small by (split; lia).
  apply (writes_comp (fun w => write_u16 (Z.of_nat (length (sent ctx_tags)))
    (write_snapshot_header (w_tick world) (sf_tick <$> ctx_base) last_input viewer ctx_removed w))).
  - apply (writes_comp _ _ (write_u16 _)); [apply ctx_header_writes|]. apply writes_u16. split; lia.
  - apply write_records_writes. unfold sent. apply Forall_fmap, Forall_forall. intros x [_ Hx]%list_elem_of_filter.
    pose proof (tg_entries _ ctx_tags_ok) as He. rewrite Forall_forall in He. by apply He.
Qed.

Let buffer := BitWriter_new out ctx_budget.

Lemma ctx_buffer : Forall (fits 8) out /\ 0 <= ctx_budget <= Z.of_nat (length out) /\ 8 * Z.of_nat (length out) < 2 ^ 31.
Proof. destruct (er_buffer Hr) as (? & ? & ?). pose proof ctx_budget_range. split; [done|]. lia. Qed.

(** The header overflows exactly when its bits do not fit, and else leaves the rest. *)
Lemma ctx_header_state :
  let header := write_snapshot_header (w_tick world) (sf_tick <$> ctx_base) last_input viewer ctx_removed buffer in
  (bw_overflow header = true <-> ctx_budget * 8 < Z.of_nat (length ctx_header_bits)) /\
  (bw_overflow header = false -> bits_remaining header = ctx_budget * 8 - Z.of_nat (length ctx_header_bits)).
Proof.
  destruct ctx_buffer as (Hb & Hc & Hl). destruct (writer_wf_new out ctx_budget) as [Hw Hw0]; auto.
  destruct (ctx_header_writes _ Hw) as (E & R & O). subst buffer. set (header := write_snapshot_header _ _ _ _ _ _) in *.
  assert (Hpos : bw_bit_pos (BitWriter_new out ctx_budget) = 0) by done.
  assert (Hcap : bw_capacity_bits (BitWriter_new out ctx_budget) = ctx_budget * 8) by (apply wrap_small; split; lia).
  unfold room in R, O. rewrite Hpos, Hcap in R, O. cbv zeta.
  destruct (Z.le_gt_cases (Z.of_nat (length ctx_header_bits)) (ctx_budget * 8)) as [Hle|Hgt].
  - destruct R as [Hwr Ho]; [lia|]. change (bw_overflow (BitWriter_new out ctx_budget)) with false in Ho.
    split; [rewrite Ho; split; [done|lia]|]. intros _. unfold bits_remaining. rewrite (ext_capacity _ _ E), Hcap.
    rewrite <- (length_written _ (ext_wf _ _ E)), Hwr, Hw0. cbn [app]. apply wrap_small. split; lia.
  - rewrite O by lia. split; [|done]. split; [lia|done].
Qed.

Lemma encode_cases :
  let '(result, rs') := rs_encode nth_element world viewer last_input out capacity rs in
  (result = None <-> ctx_budget * 8 < Z.of_nat (length ctx_header_bits) + 16) /\
  forall bytes, result = Some bytes ->
    finish (ctx_write buffer) = Some bytes /\
    rs' = mkReplicationState (rs_config rs) (rs_quantizers rs) (rs_params rs)
            (history_put (rs_history rs) (w_tick world) ctx_frame) (rs_last_acked_tick rs) (rs_has_acked rs)
            (next_priorities 0 (zip ctx_current ctx_priorities) ctx_selected)
            (mkReplicationStats (u32 (Z.of_nat (length ctx_current))) (u32 (Z.of_nat (length ctx_selected)))
               (u32 (Z.of_nat (length ctx_removed)))
               (u32 (Z.of_nat (length (candidates_of ctx_priorities) - length ctx_selected))) (Z.of_nat (length bytes))
               (match ctx_base with None => true | Some _ => false end)).
Proof.
  unfold rs_encode. rewrite Hindex. cbv zeta.
  change (wire_state (rs_quantizers rs) (w_entities world) <$>
    gather world (es_position (w_entities world) !!! index) (ic_aoi_radius (rs_config rs))) with ctx_current.
  change (usable_baseline rs (w_tick world)) with ctx_base.
  assert (Ediff : match ctx_base with
    | None => ((fun _ => None) <$> ctx_current, [])
    | Some base => diff_frames (sf_states base) ctx_current end =
    ((fun c => find_state ctx_base_states (ws_id c)) <$> ctx_current, ctx_removed)).
  { destruct ctx_base_ok as (_ & Hs & _), ctx_current_ok as (Hc & _). unfold ctx_removed, ctx_base_states in *.
    destruct ctx_base as [b|]; [by apply diff_frames_spec|]. done. }
  rewrite Ediff, zip_entries. fold ctx_entries. change (entries_of ctx_base_states ctx_current) with ctx_entries.
  fold ctx_priorities ctx_budget. fold buffer.
  destruct ctx_header_state as [Ho Hrem]. cbv zeta in Ho, Hrem.
  set (header := write_snapshot_header _ _ _ _ _ _) in *.
  destruct (bw_overflow header) eqn:Eh.
  { split; [split; [|done]; intros _; assert (H0 := proj1 Ho eq_refl); lia|done]. }
  rewrite Hrem by done. fold ctx_selected. rewrite ctx_records.
  change (write_records (sent ctx_tags) 0 (write_u16 (u16 (Z.of_nat (length ctx_selected))) header)) with (ctx_write buffer).
  destruct ctx_buffer as (Hb & Hc & Hl). pose proof (packet_fits _ _ ctx_writes _ _ Hb Hc Hl) as Hfit. fold buffer in Hfit.
  assert (Hle : Z.of_nat (length ctx_header_bits) + 16 <= Z.of_nat (length ctx_bits)).
  { unfold ctx_bits. rewrite snapshot_bits_header. fold ctx_header_bits. rewrite !length_app, length_zbits. lia. }
  pose proof ctx_records_fit as Hrf.
  destruct (finish (ctx_write buffer)) as [bytes|] eqn:Ef.
  - split; [|intros ? [= <-]; rewrite frame_states_stored; done]. split; [done|]. intros Hlt.
    assert (Z.of_nat (length ctx_bits) <= ctx_budget * 8) by (by apply Hfit). lia.
  - split; [|done]. split; [|done]. intros _. destruct (Z.lt_ge_cases (ctx_budget * 8) (Z.of_nat (length ctx_header_bits) + 16)); [done|].
    assert (None <> @None (list Z)) by (apply Hfit; lia). done.
Qed.

Lemma ctx_frame_ok : frame_ok kinds ctx_frame.
Proof.
  destruct ctx_base_ok as (_ & Hs & Hbw & Hbk & _), ctx_current_ok as (Hcs & Hcw & Hck & Hlen).
  split; cbn [ctx_frame sf_states sf_tick]; [by apply stored_sorted, ctx_tags_ok| | |apply Hr|].
  - apply Forall_forall. intros x Hx. apply stored_in in Hx. rewrite Forall_forall in Hbw, Hcw. destruct Hx; auto.
  - intros x Hx. apply stored_in in Hx. destruct Hx; auto.
  - pose proof (length_stored 0 ctx_entries ctx_selected) as Hl. fold ctx_tags in Hl. rewrite ctx_entries_length in Hl. lia.
Qed.

Lemma encode_state_ok : rs_ok kinds (snd (rs_encode nth_element world viewer last_input out capacity rs)).
Proof.
  pose proof encode_cases as Hc. destruct (er_state Hr) as [Hf Hp Hv Hb].
  destruct (rs_encode _ _ _ _ _ _ _) as [[bytes|] rs'] eqn:E; cbn [snd].
  - destruct Hc as [_ Hc]. destruct (Hc bytes eq_refl) as [_ ->]. split; try done. cbn [rs_history].
    intros frame [->|Hin]%history_put_in Hval; [apply ctx_frame_ok|by apply Hf].
  - unfold rs_encode in E. repeat (case_match; simplify_eq; try done).
Qed.

Lemma ctx_decode client bytes : (ctx_base <> None -> client = ctx_base) -> finish (ctx_write buffer) = Some bytes ->
  let r := BitReader_new bytes (Z.of_nat (length bytes)) in
  let full := match ctx_base with None => true | Some _ => false end in
  fst (decode_snapshot client r) = Some (mkDecodedSnapshot (w_tick world) (default 0 (sf_tick <$> ctx_base)) full
    last_input viewer (sf_states ctx_frame) ctx_removed) /\
  fst (peek_snapshot_header r) = Some (w_tick world, default 0 (sf_tick <$> ctx_base), full) /\
  Forall (fits 8) bytes /\ Z.of_nat (length bytes) <= ctx_budget.
Proof.
  intros Hclient Hf. destruct ctx_buffer as (Hb & Hc & Hl).
  destruct (packet_bits _ _ ctx_writes _ _ Hb Hc Hl _ Hf) as ((pad & E & _) & Hby & Hlen). cbv zeta.
  destruct (reader_wf_new bytes) as [Hrd Hrest]; [done|lia|]. rewrite E in Hrest.
  destruct ctx_base_ok as (Hbo & Hbs & Hbw & Hbk & Hbl), ctx_current_ok as (Hcs & Hcw & Hck & Hcl).
  assert (Hbt : forall b, ctx_base = Some b -> sf_valid b = true /\ fits 32 (sf_tick b)).
  { intros b Eb. destruct (Hbo b Eb) as [Hok ?]. split; [done|apply Hok]. }
  split; [|split; [|done]].
  - assert (Hp : parses (decode_snapshot client) ctx_bits (mkDecodedSnapshot (w_tick world)
      (default 0 (sf_tick <$> ctx_base)) (match ctx_base with None => true | Some _ => false end) last_input viewer
      (stored ctx_tags) ctx_removed)).
    { apply parses_snapshot; try done; try apply Hr.
      - by apply removed_fits.
      - pose proof (length_removed_bits ctx_removed 0). pose proof ctx_budget_range.
        pose proof (packet_fits _ _ ctx_writes _ _ Hb Hc Hl) as Hfit. fold buffer in Hfit. rewrite Hf in Hfit.
        assert (Hle : Z.of_nat (length ctx_bits) <= ctx_budget * 8) by (by apply Hfit).
        unfold ctx_bits in Hle. rewrite snapshot_bits_header in Hle. unfold header_bits in Hle.
        rewrite !length_app in Hle. lia.
      - apply ctx_tags_ok.
      - rewrite ctx_sent_length. apply ctx_selected_small.
      - apply pending_entries; done.
      - intros Hfull. apply Hclient. by destruct ctx_base. }
    by rewrite (Hp _ _ Hrd eq_refl Hrest).
  - pose proof (parses_peek (w_tick world) ctx_base (er_tick Hr) Hbt) as Hp.
    unfold ctx_bits, snapshot_bits in Hrest. rewrite <- !app_assoc in Hrest.
    rewrite (app_assoc (zbits 32 (w_tick world))) in Hrest. by rewrite (Hp _ _ Hrd eq_refl Hrest).
Qed.

(** *** When nothing is deferred *)
Lemma same_state_eq c p : ws_id p = ws_id c -> same_state_as c p = true -> p = c.
Proof.
  unfold same_state_as. rewrite !andb_true_iff, !Z.eqb_eq. destruct c, p; cbn. intros -> [[[[-> ->] ->] ->] ->]. done.
Qed.

Lemma stored_all i l selected :
  (forall k e, l !! k = Some e -> (i + k)%nat ∈ selected \/ snd e = Some (fst e)) ->
  stored (tag_from i l selected) = fst <$> l.
Proof.
  revert i. induction l as [|[c p] l IH]; intros i Hl; [done|]. cbn [tag_from].
  change (stored ((bool_decide (i ∈ selected), (c, p)) :: tag_from (S i) l selected))
    with ((if bool_decide (i ∈ selected) then [c] else option_list p) ++ stored (tag_from (S i) l selected)).
  rewrite IH.
  - case_bool_decide as Hi; [done|]. destruct (Hl 0%nat _ eq_refl) as [Hin|E]; [by rewrite Nat.add_0_r in Hin|].
    cbn in E. by rewrite E.
  - intros k e Hk. replace (S i + k)%nat with (i + S k)%nat by lia. by apply Hl.
Qed.

Lemma candidate_priorities_none eye v l carried k e : l !! k = Some e ->
  candidate_priorities rs eye v l carried !! k = Some None ->
  exists p, snd e = Some p /\ same_state_as (fst e) p = true.
Proof.
  revert carried k. induction l as [|[c p] l IH]; intros carried [|k] Hk Hp; try done.
  - injection Hk as <-. cbn in Hp |- *. destruct p as [p|]; [|done]. exists p. split; [done|].
    by destruct (same_state_as c p).
  - cbn in Hk, Hp. by eapply IH.
Qed.

Lemma ctx_complete : (length (candidates_of ctx_priorities) <= length ctx_selected)%nat -> sf_states ctx_frame = ctx_current.
Proof.
  intros Hle. destruct (select_spec nth_element ctx_priorities
    (Z.to_nat (record_fits (ctx_budget * 8 - Z.of_nat (length ctx_header_bits)))) Hne) as (_ & Hl & _ & Hall & _).
  fold ctx_selected in Hl, Hall.
  assert (Hsel : ctx_selected = cd_index <$> candidates_of ctx_priorities) by (apply Hall; lia).
  destruct (candidates_from_spec 0 ctx_priorities) as [_ Hm]. fold (candidates_of ctx_priorities) in Hm.
  cbn [ctx_frame sf_states]. unfold ctx_tags. rewrite stored_all.
  - unfold ctx_entries, entries_of. rewrite <- list_fmap_compose. apply list_fmap_id.
  - intros k e He. rewrite Hsel.
    assert (Hk : (k < length ctx_priorities)%nat).
    { unfold ctx_priorities. rewrite candidate_priorities_length. by eapply lookup_lt_Some. }
    apply lookup_lt_is_Some in Hk as [[p|] Hp].
    + left. apply list_elem_of_fmap. exists (mkCandidate k p). split; [done|]. apply Hm. rewrite Nat.sub_0_r. split; [lia|done].
    + right. destruct (candidate_priorities_none _ _ _ _ _ _ He Hp) as (q & Eq & Hsame). rewrite Eq. f_equal.
      apply list_elem_of_lookup_2, list_elem_of_fmap in He as (c & -> & Hc). cbn [fst snd] in *.
      apply find_state_Some in Eq as [_ Hid]. by apply same_state_eq.
Qed.

(** The statistic of deferred entities is zero only when every candidate went out. *)
Lemma ctx_none_deferred : u32 (Z.of_nat (length (candidates_of ctx_priorities) - length ctx_selected)) = 0 ->
  (length (candidates_of ctx_priorities) <= length ctx_selected)%nat.
Proof.
  intros Hdef. pose proof (candidates_length 0 ctx_priorities) as Hlen. fold (candidates_of ctx_priorities) in Hlen.
  unfold ctx_priorities in Hlen at 2. rewrite candidate_priorities_length, ctx_entries_length in Hlen.
  destruct ctx_current_ok as (_ & _ & _ & Hcur). rewrite wrap_small in Hdef by (split; lia). lia.
Qed.
End Round.

(** ** Acknowledgements *)
Lemma sequence_greater32_window a b base : base <= a < base + 2 ^ 31 -> base <= b < base + 2 ^ 31 ->
  sequence_greater32 (u32 a) (u32 b) = (b <? a).
Proof.
  intros Ha Hb. unfold sequence_greater32.
  assert (Hab : u32 (u32 a - u32 b) = u32 (a - b)) by apply Zminus_mod_idemp_l || (unfold wrap; by rewrite <- Zminus_mod).
  assert (Hba : u32 (u32 b - u32 a) = u32 (b - a)) by (unfold wrap; by rewrite <- Zminus_mod).
  rewrite Hab, Hba. clear Hab Hba. unfold wrap.
  pose proof (Z.mod_pos_bound a (2 ^ 32) ltac:(lia)). pose proof (Z.mod_pos_bound b (2 ^ 32) ltac:(lia)).
  pose proof (Z.div_mod a (2 ^ 32) ltac:(lia)). pose proof (Z.div_mod b (2 ^ 32) ltac:(lia)).
  destruct (Z.lt_trichotomy a b) as [Hlt|[->|Hgt]].
  - rewrite (Z.mod_small (b - a)) by lia. replace ((a - b) mod 2 ^ 32) with (a - b + 2 ^ 32) by
      (apply (Z.mod_unique _ _ (-1)); lia).
    repeat match goal with |- context [?x <? ?y] => destruct (Z.ltb_spec x y) | |- context [?x <=? ?y] => destruct (Z.leb_spec x y) end;
      cbn; try done; lia.
  - rewrite Z.sub_diag, Zmod_0_l, !Z.ltb_irrefl. done.
  - rewrite (Z.mod_small (a - b)) by lia. replace ((b - a) mod 2 ^ 32) with (b - a + 2 ^ 32) by
      (apply (Z.mod_unique _ _ (-1)); lia).
    repeat match goal with |- context [?x <? ?y] => destruct (Z.ltb_spec x y) | |- context [?x <=? ?y] => destruct (Z.leb_spec x y) end;
      cbn; try done; try lia.
Qed.

(** ** Theorems *)

(** C5. A snapshot brings the client to exactly the frame the server remembers.
    For any world with a current index, any viewer, and any replication state
    whose frames are well-formed: the state stays well-formed, and when a packet
    is produced, decoding it against the baseline the server diffed from (any
    baseline at all when the snapshot is full) succeeds and yields the very
    entity list stored in the server's history for this tick, with the same
    tick, baseline tick, flags, last input and viewer; the packet respects the
    byte budget, and the baseline used is still in the history afterwards.  So
    the next delta, made against that stored frame, starts from what the client
    really has. *)
Theorem snapshot_synchronizes `{Platform} nth_element (kinds : Z -> Z) (world : World) (rs : ReplicationState)
    (viewer last_input : Z) (index : nat) (out : list Z) (capacity : Z) :
  nth_element_ok nth_element -> encode_ready kinds world rs viewer last_input out capacity ->
  store_find viewer (w_entities world) = Some index ->
  let base := usable_baseline rs (w_tick world) in
  let full := match base with None => true | Some _ => false end in
  let '(result, rs') := rs_encode nth_element world viewer last_input out capacity rs in
  rs_ok kinds rs' /\
  forall bytes, result = Some bytes ->
    Forall (fits 8) bytes /\ Z.of_nat (length bytes) <= Z.min capacity (ic_max_snapshot_bytes (rs_config rs)) /\
    (forall b, base = Some b -> rs_baseline rs' = Some b) /\
    exists frame, rs_history rs' = history_put (rs_history rs) (w_tick world) frame /\
      sf_valid frame = true /\ sf_tick frame = w_tick world /\
      forall client, (base <> None -> client = base) ->
        fst (decode_snapshot client (BitReader_new bytes (Z.of_nat (length bytes)))) =
        Some (mkDecodedSnapshot (w_tick world) (default 0 (sf_tick <$> base)) full last_input viewer (sf_states frame)
                (ctx_removed world rs index)).
Proof.
  intros Hne Hr Hi. cbv zeta. pose proof (encode_state_ok _ Hne _ _ _ _ _ _ _ _ Hr Hi) as Hok.
  pose proof (encode_cases _ Hne _ _ _ _ _ _ _ _ Hr Hi) as Hc. destruct (rs_encode _ _ _ _ _ _ _) as [result rs'].
  cbn [snd] in Hok. split; [done|]. intros bytes ->. destruct Hc as [_ Hc]. destruct (Hc bytes eq_refl) as [Hf ->].
  destruct (ctx_decode _ Hne _ _ _ _ _ _ _ _ Hr (ctx_base world rs) bytes ltac:(done) Hf) as (_ & _ & Hby & Hlen).
  split; [done|]. split; [done|]. split.
  - intros b Eb. unfold rs_baseline. cbn [rs_has_acked rs_history rs_last_acked_tick].
    unfold usable_baseline in Eb. unfold rs_baseline in Eb. destruct (rs_has_acked rs); [|done].
    destruct (history_get (rs_history rs) (rs_last_acked_tick rs)) as [b'|] eqn:Eg; [|done].
    destruct (Nat.eqb_spec (slot_of (rs_history rs) (rs_last_acked_tick rs)) (slot_of (rs_history rs) (w_tick world))); [done|].
    rewrite history_get_put; [|by apply history_get_nonempty in Eg|done|done]. by rewrite bool_decide_false, Eg.
  - eexists. split; [reflexivity|]. split; [done|]. split; [done|]. intros client Hclient.
    by destruct (ctx_decode _ Hne _ _ _ _ _ _ _ _ Hr client bytes Hclient Hf) as (-> & _).
Qed.

(** When the statistics report no deferred entity, the client sees the area
    of interest exactly: the decoded states are the quantized states of all
    entities the grid query finds within the radius of the viewer, in id order,
    whichever of them were actually in the packet. *)
Theorem snapshot_complete `{Platform} nth_element (kinds : Z -> Z) (world : World) (rs : ReplicationState)
    (viewer last_input : Z) (index : nat) (out : list Z) (capacity : Z) bytes rs' client d :
  nth_element_ok nth_element -> encode_ready kinds world rs viewer last_input out capacity ->
  store_find viewer (w_entities world) = Some index ->
  rs_encode nth_element world viewer last_input out capacity rs = (Some bytes, rs') ->
  rt_entities_deferred (rs_stats rs') = 0 ->
  (usable_baseline rs (w_tick world) <> None -> client = usable_baseline rs (w_tick world)) ->
  fst (decode_snapshot client (BitReader_new bytes (Z.of_nat (length bytes)))) = Some d ->
  ds_states d = current_states world (rs_quantizers rs) (es_position (w_entities world) !!! index)
                  (ic_aoi_radius (rs_config rs)).
Proof.
  intros Hne Hr Hi E Hdef Hclient Hd. pose proof (encode_cases _ Hne _ _ _ _ _ _ _ _ Hr Hi) as Hc. rewrite E in Hc.
  destruct Hc as [_ Hc]. destruct (Hc bytes eq_refl) as [Hf ->]. cbn [rs_stats rt_entities_deferred] in Hdef.
  destruct (ctx_decode _ Hne _ _ _ _ _ _ _ _ Hr client bytes Hclient Hf) as (Hd' & _). rewrite Hd in Hd'.
  injection Hd' as ->. cbn [ds_states]. eapply ctx_complete; [done|]. by eapply ctx_none_deferred.
Qed.

(** Encoding fails in exactly two cases, and never half-way through the
    records: the viewer is not in the world, or the header (with its removal
    list) and the 16-bit count do not fit the budget.  A failed encode leaves
    the history, the priorities and the acknowledgement alone. *)
Theorem snapshot_encode_total `{Platform} nth_element (kinds : Z -> Z) (world : World) (rs : ReplicationState)
    (viewer last_input : Z) (out : list Z) (capacity : Z) :
  nth_element_ok nth_element -> encode_ready kinds world rs viewer last_input out capacity ->
  let '(result, rs') := rs_encode nth_element world viewer last_input out capacity rs in
  (result = None <->
     match store_find viewer (w_entities world) with
     | None => True
     | Some index => Z.min capacity (ic_max_snapshot_bytes (rs_config rs)) * 8 <
         Z.of_nat (length (header_bits (w_tick world) (sf_tick <$> usable_baseline rs (w_tick world)) last_input viewer
                             (ctx_removed world rs index))) + 16
     end) /\
  (result = None -> rs_history rs' = rs_history rs /\ rs_priority rs' = rs_priority rs /\
     rs_last_acked_tick rs' = rs_last_acked_tick rs /\ rs_has_acked rs' = rs_has_acked rs).
Proof.
  intros Hne Hr. assert (Hkeep : forall rs', rs_encode nth_element world viewer last_input out capacity rs = (None, rs') ->
    rs_history rs' = rs_history rs /\ rs_priority rs' = rs_priority rs /\
     rs_last_acked_tick rs' = rs_last_acked_tick rs /\ rs_has_acked rs' = rs_has_acked rs).
  { intros rs' E. unfold rs_encode in E. repeat (case_match; simplify_eq; try done). }
  destruct (store_find viewer (w_entities world)) as [index|] eqn:Hi.
  - pose proof (encode_cases _ Hne _ _ _ _ _ _ _ _ Hr Hi) as Hc.
    destruct (rs_encode _ _ _ _ _ _ _) as [result rs'] eqn:E. destruct Hc as [Hc _]. split; [exact Hc|].
    intros ->. by apply Hkeep.
  - destruct (rs_encode _ _ _ _ _ _ _) as [result rs'] eqn:E. split; [|intros ->; by apply Hkeep].
    unfold rs_encode in E. rewrite Hi in E. by injection E as <- <-.
Qed.

(** Selection under pressure: when the changed entities do not all fit,
    exactly as many records as fit are chosen, and no entity left behind has a
    strictly higher priority than one that was sent; the indices come out
    sorted, so the records are in id order.  This holds for every
    [std::nth_element] that meets its contract. *)
Theorem selection_by_priority nth_element (priorities : list (option f32)) (fits : nat) :
  nth_element_ok nth_element ->
  let selected := select nth_element (candidates_of priorities) fits in
  StronglySorted lt selected /\ length selected = Nat.min fits (length (candidates_of priorities)) /\
  (forall i, i ∈ selected -> exists p, priorities !! i = Some (Some p)) /\
  (forall i j p q, i ∈ selected -> j ∉ selected -> priorities !! i = Some (Some p) -> priorities !! j = Some (Some q) ->
     fgtb q p = false).
Proof. intros Hne. destruct (select_spec nth_element priorities fits Hne) as (? & ? & ? & _ & ?). done. Qed.

(** Acknowledgements may arrive late, duplicated and out of order: as long
    as they span less than half the sequence space, the state remembers the
    latest tick, across the wrap of the 32-bit counter. *)
Theorem acknowledge_latest (rs : ReplicationState) (base : Z) (acks : list Z) (first : Z) :
  rs_has_acked rs = false -> Forall (fun t => base <= t < base + 2 ^ 31) (first :: acks) ->
  let rs' := foldl (fun rs t => acknowledge (u32 t) rs) rs (first :: acks) in
  rs_last_acked_tick rs' = u32 (foldl Z.max first acks) /\ rs_has_acked rs' = true /\
  rs_history rs' = rs_history rs.
Proof.
  intros Hno Hall. cbn [foldl]. inversion_clear Hall as [|?? Hf Hacks].
  assert (Hstart : acknowledge (u32 first) rs = mkReplicationState (rs_config rs) (rs_quantizers rs) (rs_params rs)
    (rs_history rs) (u32 first) true (rs_priority rs) (rs_stats rs)) by (unfold acknowledge; by rewrite Hno).
  assert (Hgen : forall rs m, rs_last_acked_tick rs = u32 m -> rs_has_acked rs = true -> base <= m < base + 2 ^ 31 ->
    let rs' := foldl (fun rs t => acknowledge (u32 t) rs) rs acks in
    rs_last_acked_tick rs' = u32 (foldl Z.max m acks) /\ rs_has_acked rs' = true /\ rs_history rs' = rs_history rs).
  { clear Hstart Hf Hno. induction Hacks as [|t acks Ht _ IH]; intros r m Hm Ha Hr; [done|]. cbn [foldl].
    unfold acknowledge at 2 4 6. rewrite Ha, Hm, (sequence_greater32_window t m base) by done. cbn [andb].
    destruct (Z.ltb_spec m t); cbn [negb].
    - destruct (IH (mkReplicationState (rs_config r) (rs_quantizers r) (rs_params r) (rs_history r) (u32 t) true
        (rs_priority r) (rs_stats r)) t eq_refl eq_refl ltac:(lia)) as (-> & -> & ->). by rewrite Z.max_r by lia.
    - destruct (IH r m Hm Ha Hr) as (-> & -> & ->). by rewrite Z.max_l by lia. }
  destruct (Hgen (acknowledge (u32 first) rs) first) as (-> & -> & ->); rewrite ?Hstart; try done.
Qed.

(** *** A [std::nth_element] for the witnesses: sort by priority, NaN last *)
Definition priority_key (p : f32) : Z * Z * Z :=
  match p with
  | S754_nan => (-3, 0, 0)
  | S754_infinity true => (-2, 0, 0)
  | S754_finite true m e => (-1, - e, - Zpos m)
  | S754_zero _ => (0, 0, 0)
  | S754_finite false m e => (1, e, Zpos m)
  | S754_infinity false => (2, 0, 0)
  end.

Definition key_le (a b : Z * Z * Z) : Prop :=
  let '(a1, a2, a3) := a in let '(b1, b2, b3) := b in a1 < b1 \/ (a1 = b1 /\ (a2 < b2 \/ (a2 = b2 /\ a3 <= b3))).

Definition ranks_before (x y : Candidate) : Prop := key_le (priority_key (cd_priority y)) (priority_key (cd_priority x)).

#[export] Instance ranks_before_dec x y : Decision (ranks_before x y).
Proof. unfold ranks_before, key_le. destruct (priority_key _) as [[? ?] ?], (priority_key _) as [[? ?] ?]. apply _. Defined.

#[export] Instance ranks_before_trans : Transitive ranks_before.
Proof.
  intros x y z. unfold ranks_before, key_le.
  destruct (priority_key (cd_priority x)) as [[? ?] ?], (priority_key (cd_priority y)) as [[? ?] ?],
    (priority_key (cd_priority z)) as [[? ?] ?]. lia.
Qed.

#[export] Instance ranks_before_total : Total ranks_before.
Proof.
  intros x y. unfold ranks_before, key_le.
  destruct (priority_key (cd_priority x)) as [[? ?] ?], (priority_key (cd_priority y)) as [[? ?] ?]. lia.
Qed.

Lemma key_le_not_greater q p : key_le (priority_key q) (priority_key p) -> fgtb q p = false.
Proof.
  unfold fgtb, fltb. destruct q as [[]|[]| |[] mq eq], p as [[]|[]| |[] mp ep]; try done; cbn; try lia; intros H;
    unfold SFltb, SFcompare; destruct (Z.compare_spec ep eq); try done; try lia; subst;
    change (PosDef.Pos.compare_cont Eq mp mq) with (Pos.compare mp mq); destruct (Pos.compare_spec mp mq); try done; lia.
Qed.

Definition best_first (n : nat) (l : list Candidate) : list Candidate := merge_sort ranks_before l.

Lemma best_first_ok : nth_element_ok best_first.
Proof.
  split; intros n l; unfold best_first; [intros _; apply merge_sort_Permutation|].
  intros x y _ Hx Hy. apply key_le_not_greater. change (ranks_before x y).
  assert (Hs : StronglySorted ranks_before (merge_sort ranks_before l)) by (apply StronglySorted_merge_sort; apply _).
  rewrite <- (take_drop n (merge_sort ranks_before l)) in Hs. revert Hx Hs. generalize (take n (merge_sort ranks_before l)).
  intros t Hx. induction t as [|z t IH]; [by apply elem_of_nil in Hx|]. intros [Hs Hf]%StronglySorted_inv.
  apply elem_of_cons in Hx as [->|Hx]; [|auto]. rewrite Forall_forall in Hf. apply Hf, elem_of_app. by right.
Qed.
(** *** Witnesses *)
Definition ReplicationState_new : ReplicationState :=
  mkReplicationState InterestConfig_default (ReplicationQuantizers_from WorldParams_default) WorldParams_default [] 0 false
    [] ReplicationStats_zero.

(** The two entities of [sample_world2] around a player, with a fresh index. *)
Definition sample_seen : World :=
  set_grid (@grid_build plain_platform (w_grid sample_world2) (es_position (w_entities sample_world2))) sample_world2.

Definition sample_kinds (id : Z) : Z := if id =? 2 then 1 else 0.

(** The client acknowledged tick 5, where it saw the player elsewhere and an
    entity that has left since. *)
Definition sample_frame : SnapshotFrame :=
  mkSnapshotFrame 5 true [mkEntityWireState 1 3000 3000 2048 2048 0; mkEntityWireState 9 7 8 0 0 0].

Definition sample_replication : ReplicationState :=
  let rs := rs_configure InterestConfig_default WorldParams_default ReplicationState_new in
  acknowledge 5 (mkReplicationState (rs_config rs) (rs_quantizers rs) (rs_params rs)
    (history_put (rs_history rs) 5 sample_frame) 0 false [] ReplicationStats_zero).

Lemma sample_replication_ok : rs_ok sample_kinds sample_replication.
Proof.
  split; [|split; [constructor; vm_compute; auto; split; discriminate|reflexivity]..|cbn; lia].
  intros frame [->|Hin]%history_put_in Hv.
  - split; cbn [sample_frame sf_states sf_tick]; [| | |split; lia|cbn; lia].
    + repeat constructor.
    + repeat constructor; cbn; lia.
    + intros s [->|[->|Hs%elem_of_nil]%elem_of_cons]%elem_of_cons; done.
  - apply list_elem_of_lookup in Hin as (i & Hi). by apply lookup_replicate in Hi as [-> _].
Qed.

Lemma sample_ready : @encode_ready plain_platform sample_kinds sample_seen sample_replication 1 17 (repeat 0 64) 64.
Proof.
  assert (Hw : world_ok sample_world2).
  { apply (@queue_input_ok plain_platform); [|cbn; lia|repeat split; vm_compute; reflexivity].
    apply spawn_drifter_ok; [|vm_compute; reflexivity].
    apply spawn_player_ok; [|lia|vm_compute; reflexivity|vm_compute; reflexivity].
    apply (configure_world_ok WorldParams_default 8); vm_compute; reflexivity. }
  assert (Hs : es_size (w_entities sample_seen) = 2%nat) by (vm_compute; reflexivity).
  split.
  - eapply evolves_ok; [exact Hw|]. apply (@build_evolves plain_platform), Hw.
  - eexists _, _. split; [apply Hw|]. split; [reflexivity|]. vm_compute. reflexivity.
  - intros i Hi. rewrite Hs in Hi. unfold entity_numeric, fits.
    destruct i as [|[|i]]; [| |lia]; (split; [split; [repeat constructor; vm_compute; reflexivity|vm_compute; split; [discriminate|reflexivity]]|vm_compute; reflexivity]).
  - rewrite Hs. lia.
  - vm_compute. split; [discriminate|reflexivity].
  - split; lia.
  - split; lia.
  - apply sample_replication_ok.
  - split; [apply Forall_zeros|]. split; cbn; lia.
  - cbn. lia.
Qed.

Lemma length_header_bits tick base_tick q viewer removed :
  (length (header_bits tick base_tick q viewer removed) <= 177 + 40 * length removed)%nat.
Proof.
  unfold header_bits. rewrite !length_app, !length_zbits.
  assert (length (base_bits base_tick) <= 33)%nat by (destruct base_tick; cbn [base_bits]; rewrite ?length_app, ?length_zbits; cbn [length]; lia).
  pose proof (length_varint_bits viewer). pose proof (length_varint_bits (Z.of_nat (length removed))).
  assert (forall l p, length (removed_bits l p) <= 40 * length l)%nat as Hr.
  { induction l as [|id l IH]; intros p; [done|]. cbn [removed_bits length]. rewrite length_app.
    pose proof (length_varint_bits (u32 (id - p))). specialize (IH id). unfold id_bits. lia. }
  specialize (Hr removed 0). lia.
Qed.

Lemma sample_removed : (length (@ctx_removed plain_platform sample_seen sample_replication 0) <= 2)%nat.
Proof.
  eapply Nat.le_trans; [apply ctx_removed_length|]. unfold ctx_base_states, ctx_base.
  destruct (usable_baseline _ _) as [b|] eqn:Eb; [|cbn; lia].
  replace (usable_baseline sample_replication (w_tick sample_seen)) with (Some sample_frame) in Eb
    by (vm_compute; reflexivity). injection Eb as <-. cbn. lia.
Qed.

Lemma sample_header : Z.of_nat (length (header_bits (w_tick sample_seen)
    (sf_tick <$> usable_baseline sample_replication (w_tick sample_seen)) 17 1
    (@ctx_removed plain_platform sample_seen sample_replication 0))) <= 257.
Proof. pose proof sample_removed. eapply Z.le_trans; [apply Nat2Z.inj_le, length_header_bits|]. lia. Qed.

Lemma snapshot_synchronizes_witness :
  let '(result, rs') := @rs_encode plain_platform best_first sample_seen 1 17 (repeat 0 64) 64 sample_replication in
  exists bytes states, result = Some bytes /\ Z.of_nat (length bytes) <= 64 /\ rs_baseline rs' = Some sample_frame /\
    fst (decode_snapshot (Some sample_frame) (BitReader_new bytes (Z.of_nat (length bytes)))) =
    Some (mkDecodedSnapshot 0 5 false 17 1 states (@ctx_removed plain_platform sample_seen sample_replication 0)).
Proof.
  pose proof (@snapshot_synchronizes plain_platform best_first sample_kinds sample_seen sample_replication 1 17 0
    (repeat 0 64) 64 best_first_ok sample_ready ltac:(vm_compute; reflexivity)) as Hs.
  pose proof (@encode_cases plain_platform best_first best_first_ok sample_kinds sample_seen sample_replication 1 17 0
    (repeat 0 64) 64 sample_ready ltac:(vm_compute; reflexivity)) as Hc.
  destruct (rs_encode _ _ _ _ _ _ _) as [[bytes|] rs'].
  - destruct Hs as [_ Hs]. destruct (Hs bytes eq_refl) as (_ & Hlen & Hb & frame & _ & _ & _ & Hd).
    replace (usable_baseline sample_replication (w_tick sample_seen)) with (Some sample_frame) in Hb, Hd
      by (vm_compute; reflexivity).
    exists bytes, (sf_states frame). split; [done|]. split; [exact Hlen|]. split; [by apply Hb|].
    exact (Hd (Some sample_frame) (fun _ => eq_refl)).
  - destruct Hc as [Hc _]. pose proof (proj1 Hc eq_refl) as Hlt. pose proof sample_header as Hh.
    unfold ctx_header_bits, ctx_base in Hlt.
    change (ctx_budget sample_replication 64) with 64 in Hlt. lia.
Defined.

Lemma sample_candidates : (length (candidates_of (@ctx_priorities plain_platform sample_seen sample_replication 1 0)) <= 2)%nat.
Proof.
  eapply Nat.le_trans; [apply candidates_length|]. unfold ctx_priorities. rewrite candidate_priorities_length.
  unfold ctx_entries, entries_of, ctx_current, current_states. rewrite !length_fmap.
  destruct (@gather_keys plain_platform sample_seen (er_grid _ _ _ _ _ _ _ sample_ready)
    (es_position (w_entities sample_seen) !!! 0%nat) (ic_aoi_radius (rs_config sample_replication))) as (l & -> & Hnd & Hlt & _).
  rewrite length_fmap. apply (submseteq_length l (seq 0 2)), NoDup_submseteq; [done|]. intros i Hi%Hlt.
  change (es_size (w_entities sample_seen)) with 2%nat in Hi. apply elem_of_seq. lia.
Qed.

Lemma snapshot_complete_witness : exists bytes rs' d,
  @rs_encode plain_platform best_first sample_seen 1 17 (repeat 0 64) 64 sample_replication = (Some bytes, rs') /\
  fst (decode_snapshot (Some sample_frame) (BitReader_new bytes (Z.of_nat (length bytes)))) = Some d /\
  ds_states d = @current_states plain_platform sample_seen (rs_quantizers sample_replication)
                  (es_position (w_entities sample_seen) !!! 0%nat) (ic_aoi_radius (rs_config sample_replication)).
Proof.
  pose proof (@encode_cases plain_platform best_first best_first_ok sample_kinds sample_seen sample_replication 1 17 0
    (repeat 0 64) 64 sample_ready ltac:(vm_compute; reflexivity)) as Hc.
  pose proof (@snapshot_complete plain_platform best_first sample_kinds sample_seen sample_replication 1 17 0
    (repeat 0 64) 64) as Hs.
  assert (Hbase : usable_baseline sample_replication (w_tick sample_seen) = Some sample_frame) by (vm_compute; reflexivity).
  pose proof sample_header as Hh. pose proof sample_candidates as Hcand.
  destruct (rs_encode _ _ _ _ _ _ _) as [[bytes|] rs'].
  - destruct Hc as [_ Hc]. destruct (Hc bytes eq_refl) as [Hf Ers].
    pose proof (@ctx_decode plain_platform best_first best_first_ok sample_kinds sample_seen sample_replication 1 17 0
      (repeat 0 64) 64 sample_ready (Some sample_frame) bytes) as Hd.
    unfold ctx_base in Hd. rewrite Hbase in Hd. destruct (Hd ltac:(done) Hf) as (Hd' & _).
    exists bytes, rs'. eexists. split; [done|]. split; [exact Hd'|].
    apply (Hs bytes rs' (Some sample_frame)); [apply best_first_ok|apply sample_ready|vm_compute; reflexivity|done| |by rewrite Hbase|exact Hd'].
    rewrite Ers. cbn [rs_stats rt_entities_deferred]. unfold ctx_selected.
    destruct (select_spec best_first (@ctx_priorities plain_platform sample_seen sample_replication 1 0)
      (Z.to_nat (record_fits (ctx_budget sample_replication 64 * 8 -
         Z.of_nat (length (@ctx_header_bits plain_platform sample_seen sample_replication 1 17 0))))) best_first_ok)
      as (_ & -> & _).
    rewrite Nat.min_r; [by rewrite Nat.sub_diag|]. etrans; [exact Hcand|].
    change (ctx_budget sample_replication 64) with 64. unfold ctx_header_bits, ctx_base. unfold record_fits.
    match type of Hh with ?x <= _ => set (h := x) in * end. clearbody h.
    change kWorstCaseEntityBits with 101. unfold kUpdateCountBits. destruct (Z.leb_spec (64 * 8 - h) 16); [lia|].
    assert (2 <= (64 * 8 - h - 16) / 101) by (apply Z.div_le_lower_bound; lia). lia.
  - destruct Hc as [Hc _]. pose proof (proj1 Hc eq_refl) as Hlt. unfold ctx_header_bits, ctx_base in Hlt.
    change (ctx_budget sample_replication 64) with 64 in Hlt. lia.
Defined.

Lemma snapshot_encode_total_witness :
  fst (@rs_encode plain_platform best_first sample_seen 1 17 (repeat 0 64) 64 sample_replication) <> None.
Proof.
  pose proof (@snapshot_encode_total plain_platform best_first sample_kinds sample_seen sample_replication 1 17
    (repeat 0 64) 64 best_first_ok sample_ready) as Hs. pose proof sample_header as Hh.
  destruct (rs_encode _ _ _ _ _ _ _) as [result rs']. destruct Hs as [[Hs _] _]. intros E. specialize (Hs E).
  replace (store_find 1 (w_entities sample_seen)) with (Some 0%nat) in Hs by (vm_compute; reflexivity).
  change (Z.min 64 (ic_max_snapshot_bytes (rs_config sample_replication))) with 64 in Hs. lia.
Defined.

Definition sample_priorities : list (option f32) :=
  [Some (f32_lit 1 2); None; Some (f32_of_Z 1000000); Some f1; Some (f32_lit 1 100)].

Lemma selection_by_priority_witness :
  select best_first (candidates_of sample_priorities) 2 = [2%nat; 3%nat] /\
  StronglySorted lt (select best_first (candidates_of sample_priorities) 2).
Proof.
  split; [vm_compute; reflexivity|]. apply (selection_by_priority best_first sample_priorities 2 best_first_ok).
Defined.

Lemma acknowledge_latest_witness :
  rs_last_acked_tick (foldl (fun rs t => acknowledge (u32 t) rs) ReplicationState_new
    [2 ^ 32 - 3; 2 ^ 32 + 1; 2 ^ 32 - 2; 2 ^ 32 + 1]) = 1.
Proof.
  destruct (acknowledge_latest ReplicationState_new (2 ^ 32 - 10) [2 ^ 32 + 1; 2 ^ 32 - 2; 2 ^ 32 + 1] (2 ^ 32 - 3)) as [E _].
  - reflexivity.
  - repeat constructor; lia.
  - rewrite E. vm_compute. reflexivity.
Defined.
