(* ===== verification/SequenceBuffer.v ===== *)
(** * SequenceBuffer: a window over wrapping 16-bit sequences ([src/src/net/sequence_buffer.h])

    The template is a record of its arrays with the capacity as a parameter of
    its operations.  Its meaning is a partial map from unbounded sequence
    numbers to values, restricted to the window of [capacity] numbers that ends
    at the newest one: [represents] relates the arrays to that map, and every
    operation is shown to act on the map. *)

From S2P Require Import Prelude F32.
From Stdlib Require Import ZArith Lia Bool.
From stdpp Require Import base tactics numbers list option.
#[local] Open Scope Z_scope.

(** ** The buffer *)
Record SequenceBuffer (T : Type) := mkSequenceBuffer {
  sq_keys : list Z;
  sq_values : list T;
  sq_latest : Z;
  sq_has_latest : bool
}.
Arguments mkSequenceBuffer {T}.
Arguments sq_keys {T}.
Arguments sq_values {T}.
Arguments sq_latest {T}.
Arguments sq_has_latest {T}.

Definition kEmpty : Z := 0xffffffff.

Section Operations.
Context {T : Type} (blank : T) (capacity : Z).

Definition sq_index (sequence : Z) : nat := Z.to_nat (sequence mod capacity).

Definition sq_new : SequenceBuffer T :=
  mkSequenceBuffer (replicate (Z.to_nat capacity) kEmpty) (replicate (Z.to_nat capacity) blank) 0 false.

Definition sq_reset (b : SequenceBuffer T) : SequenceBuffer T :=
  mkSequenceBuffer (replicate (Z.to_nat capacity) kEmpty) (sq_values b) 0 false.

(** [for (u16 s = begin;; ++s) { keys_[s % Capacity] = kEmpty; if (s == end) break; }] *)
Fixpoint clear_keys (count : nat) (s : Z) (keys : list Z) : list Z :=
  match count with
  | O => keys
  | S count => clear_keys count (u16 (s + 1)) (<[sq_index s := kEmpty]> keys)
  end.

Definition remove_range (begin_ end_ : Z) (keys : list Z) : list Z :=
  let span := u16 (end_ - begin_) in
  if capacity <=? span then replicate (Z.to_nat capacity) kEmpty
  else clear_keys (S (Z.to_nat span)) begin_ keys.

(** [insert]: [None] for the null pointer; the new slot holds [T{}]. *)
Definition sq_insert (sequence : Z) (b : SequenceBuffer T) : option (SequenceBuffer T) :=
  if sq_has_latest b && sequence_greater16 (sq_latest b) sequence && (capacity <=? u16 (sq_latest b - sequence))
  then None
  else
    let newer := negb (sq_has_latest b) || sequence_greater16 sequence (sq_latest b) in
    let keys :=
      if newer
      then remove_range (if sq_has_latest b then u16 (sq_latest b + 1) else sequence) sequence (sq_keys b)
      else sq_keys b in
    Some (mkSequenceBuffer (<[sq_index sequence := sequence]> keys) (<[sq_index sequence := blank]> (sq_values b))
            (if newer then sequence else sq_latest b) (newer || sq_has_latest b)).

(** Writing through the pointer [insert] or [find] returned. *)
Definition sq_update (sequence : Z) (f : T -> T) (b : SequenceBuffer T) : SequenceBuffer T :=
  mkSequenceBuffer (sq_keys b) (alter f (sq_index sequence) (sq_values b)) (sq_latest b) (sq_has_latest b).

Definition sq_exists (sequence : Z) (b : SequenceBuffer T) : bool :=
  default kEmpty (sq_keys b !! sq_index sequence) =? sequence.

Definition sq_find (sequence : Z) (b : SequenceBuffer T) : option T :=
  if sq_exists sequence b then sq_values b !! sq_index sequence else None.

Definition sq_remove (sequence : Z) (b : SequenceBuffer T) : SequenceBuffer T :=
  mkSequenceBuffer (<[sq_index sequence := kEmpty]> (sq_keys b)) (sq_values b) (sq_latest b) (sq_has_latest b).
End Operations.

(** ** Wrapping arithmetic *)
Lemma sequence_greater16_window a b : - 2 ^ 15 < a - b < 2 ^ 15 ->
  sequence_greater16 (u16 a) (u16 b) = (b <? a).
Proof.
  intros H. unfold sequence_greater16, wrap.
  pose proof (Z.mod_pos_bound a (2 ^ 16) ltac:(lia)). pose proof (Z.mod_pos_bound b (2 ^ 16) ltac:(lia)).
  pose proof (Z.div_mod a (2 ^ 16) ltac:(lia)). pose proof (Z.div_mod b (2 ^ 16) ltac:(lia)).
  repeat match goal with |- context [?x <? ?y] => destruct (Z.ltb_spec x y) | |- context [?x <=? ?y] => destruct (Z.leb_spec x y) end;
    cbn; try done; lia.
Qed.

Lemma u16_diff a b : 0 <= a - b < 2 ^ 16 -> u16 (u16 a - u16 b) = a - b.
Proof. intros H. unfold wrap. rewrite <- Zminus_mod. by apply Z.mod_small. Qed.

Lemma u16_inj a b : - 2 ^ 16 < a - b < 2 ^ 16 -> u16 a = u16 b -> a = b.
Proof.
  unfold wrap. intros H E. pose proof (Z.div_mod a (2 ^ 16) ltac:(lia)). pose proof (Z.div_mod b (2 ^ 16) ltac:(lia)). lia.
Qed.

Lemma u16_add_1 s : u16 (u16 s + 1) = u16 (s + 1).
Proof. apply wrap_add_l. Qed.

(** ** Meaning *)
Section Meaning.
Context {T : Type} (blank : T) (capacity : Z).
Context (Hcap : 0 < capacity < 2 ^ 15) (Hdiv : (capacity | 2 ^ 16)).

Let index := sq_index capacity.

Lemma index_wrap s : index (u16 s) = index s.
Proof.
  subst index. unfold sq_index, wrap. destruct Hdiv as [k Hk]. f_equal. rewrite Hk, (Z.mul_comm k), Z.rem_mul_r by lia.
  by rewrite Z.mul_comm, Z.mod_add, Z.mod_mod by lia.
Qed.

Lemma index_lt s : (index s < Z.to_nat capacity)%nat.
Proof. subst index. unfold sq_index. pose proof (Z.mod_pos_bound s capacity ltac:(lia)). lia. Qed.

Lemma index_inj a b : - capacity < a - b < capacity -> index a = index b -> a = b.
Proof.
  subst index. unfold sq_index. intros Hab E.
  pose proof (Z.mod_pos_bound a capacity ltac:(lia)). pose proof (Z.mod_pos_bound b capacity ltac:(lia)).
  assert (Em : a mod capacity = b mod capacity) by lia.
  pose proof (Z.div_mod a capacity ltac:(lia)) as Ea. pose proof (Z.div_mod b capacity ltac:(lia)) as Eb. rewrite Em in Ea.
  generalize dependent (a / capacity). generalize dependent (b / capacity). intros qb Eb qa Ea.
  destruct (Z.lt_trichotomy qa qb) as [?|[->|?]]; [|lia|]; nia.
Qed.

(** Every slot belongs to one number of a window. *)
Lemma index_window latest i : (i < Z.to_nat capacity)%nat -> exists s, latest - capacity < s <= latest /\ index s = i.
Proof.
  intros Hi. subst index. unfold sq_index. exists (latest - (latest - Z.of_nat i) mod capacity).
  pose proof (Z.mod_pos_bound (latest - Z.of_nat i) capacity ltac:(lia)). split; [lia|].
  replace (latest - (latest - Z.of_nat i) mod capacity) with (Z.of_nat i + ((latest - Z.of_nat i) / capacity) * capacity)
    by (rewrite (Z.mul_comm (_ / _)); pose proof (Z.div_mod (latest - Z.of_nat i) capacity ltac:(lia)) as E; lia).
  rewrite Z.mod_add, Z.mod_small by lia. lia.
Qed.

(** The newest number is [latest], and a slot holds exactly what the map says
    of its number in the window. *)
Record represents (b : SequenceBuffer T) (latest : Z) (m : Z -> option T) : Prop := {
  rp_has : sq_has_latest b = true;
  rp_latest : sq_latest b = u16 latest;
  rp_keys : length (sq_keys b) = Z.to_nat capacity;
  rp_values : length (sq_values b) = Z.to_nat capacity;
  rp_slot s : latest - capacity < s <= latest ->
    match m s with
    | Some v => sq_keys b !! index s = Some (u16 s) /\ sq_values b !! index s = Some v
    | None => sq_keys b !! index s = Some kEmpty
    end
}.

Lemma kEmpty_not_u16 s : kEmpty <> u16 s.
Proof. pose proof (wrap_range 16 s ltac:(lia)) as H. unfold fits, kEmpty in *. lia. Qed.

(** Looking up a number less than 2^16 away from the window. *)
Lemma find_represents b latest m s : represents b latest m -> latest - 2 ^ 16 + capacity <= s < latest - capacity + 2 ^ 16 ->
  sq_find capacity (u16 s) b = if bool_decide (latest - capacity < s <= latest) then m s else None.
Proof.
  intros [Hh Hl Hk Hv Hs] Hr. unfold sq_find, sq_exists. fold index. rewrite index_wrap.
  case_bool_decide as Hw.
  - specialize (Hs s Hw). destruct (m s) as [v|].
    + destruct Hs as [-> Hv']. cbn. by rewrite Z.eqb_refl.
    + rewrite Hs. cbn [default]. rewrite (proj2 (Z.eqb_neq _ _)); [done|]. apply kEmpty_not_u16.
  - destruct (index_window latest (index s) (index_lt s)) as (t & Ht & Et). specialize (Hs t Ht). rewrite Et in Hs.
    assert (Hne : default kEmpty (sq_keys b !! index s) <> u16 s).
    { destruct (m t); [destruct Hs as [-> _]|rewrite Hs]; cbn; [|apply kEmpty_not_u16].
      intros E%u16_inj; [lia|]. lia. }
    by rewrite (proj2 (Z.eqb_neq _ _) Hne).
Qed.

Lemma exists_find (b : SequenceBuffer T) s : sq_exists capacity s b = true -> length (sq_values b) = Z.to_nat capacity ->
  is_Some (sq_find capacity s b).
Proof. intros He Hl. unfold sq_find. rewrite He. apply lookup_lt_is_Some. rewrite Hl. apply index_lt. Qed.

(** *** Insertion *)
Lemma length_clear count s keys : length (clear_keys capacity count s keys) = length keys.
Proof. revert s keys. induction count as [|n IH]; intros s keys; [done|]. cbn. by rewrite IH, length_insert. Qed.

Lemma clear_hit count s keys j : length keys = Z.to_nat capacity -> s <= j < s + Z.of_nat count ->
  clear_keys capacity count (u16 s) keys !! index j = Some kEmpty.
Proof.
  revert s keys. induction count as [|n IH]; intros s keys Hl Hj; [lia|].
  cbn [clear_keys]. rewrite u16_add_1. fold index. rewrite index_wrap.
  destruct (decide (s + 1 <= j)) as [Hlt|Hge]; [apply IH; [by rewrite length_insert|lia]|].
  replace j with s by lia. clear IH Hj Hge.
  assert (Hkeep : forall n t l, l !! index s = Some kEmpty -> clear_keys capacity n t l !! index s = Some kEmpty).
  { clear. intros n. induction n as [|n IH]; intros t l El; [done|]. cbn [clear_keys]. apply IH. fold index.
    destruct (decide (index t = index s)) as [->|Hne]; [|by rewrite list_lookup_insert_ne].
    apply list_lookup_insert_eq. by eapply lookup_lt_Some. }
  apply Hkeep, list_lookup_insert_eq. rewrite Hl. apply index_lt.
Qed.

Lemma clear_miss count s keys i : (forall j, s <= j < s + Z.of_nat count -> index j <> i) ->
  clear_keys capacity count (u16 s) keys !! i = keys !! i.
Proof.
  revert s keys. induction count as [|n IH]; intros s keys Hj; [done|].
  cbn [clear_keys]. rewrite u16_add_1. fold index. rewrite index_wrap, IH; [|intros j ?; apply Hj; lia].
  apply list_lookup_insert_ne, Hj. lia.
Qed.

Lemma length_remove_range a b keys : length keys = Z.to_nat capacity ->
  length (remove_range capacity a b keys) = Z.to_nat capacity.
Proof. intros Hl. unfold remove_range. case_match; [by rewrite length_replicate|by rewrite length_clear]. Qed.

(** What [insert] does to the map; numbers are less than half the space apart. *)
Definition insert_map (latest s : Z) (m : Z -> option T) : Z -> option T :=
  fun t => if t =? s then Some blank else if (latest <? t) then None else m t.

Lemma insert_first (b : SequenceBuffer T) s : sq_has_latest b = false ->
  length (sq_keys b) = Z.to_nat capacity -> length (sq_values b) = Z.to_nat capacity ->
  (forall i, (i < Z.to_nat capacity)%nat -> sq_keys b !! i = Some kEmpty) ->
  exists b', sq_insert blank capacity (u16 s) b = Some b' /\ represents b' s (fun t => if t =? s then Some blank else None).
Proof.
  intros Hh Hk Hv He. unfold sq_insert. rewrite Hh. cbn [andb negb orb]. eexists. split; [reflexivity|].
  unfold remove_range. rewrite Z.sub_diag. change (u16 0) with 0. rewrite (proj2 (Z.leb_gt _ _)) by lia.
  change (S (Z.to_nat 0)) with 1%nat. fold index. rewrite index_wrap.
  split; cbn [sq_has_latest sq_latest sq_keys sq_values]; try done; try (by rewrite !length_insert, ?length_clear).
  intros t Ht. cbn [clear_keys]. fold index. rewrite index_wrap. destruct (Z.eqb_spec t s) as [->|Hne].
  - split; apply list_lookup_insert_eq; rewrite ?length_insert, ?Hk, ?Hv; apply index_lt.
  - rewrite !list_lookup_insert_ne by (intros E%index_inj; lia). apply He, index_lt.
Qed.

Lemma insert_represents b latest m s : represents b latest m -> - 2 ^ 15 < s - latest < 2 ^ 15 ->
  if s <=? latest - capacity then sq_insert blank capacity (u16 s) b = None
  else exists b', sq_insert blank capacity (u16 s) b = Some b' /\ represents b' (Z.max latest s) (insert_map latest s m).
Proof.
  intros [Hh Hl Hk Hv Hs] Hr. unfold sq_insert. rewrite Hh, Hl, !sequence_greater16_window by lia. cbn [andb negb orb].
  destruct (Z.leb_spec s (latest - capacity)) as [Hold|Hin].
  { rewrite (proj2 (Z.ltb_lt _ _)), u16_diff, (proj2 (Z.leb_le _ _)) by lia. done. }
  assert (E : (s <? latest) && (capacity <=? u16 (u16 latest - u16 s)) = false).
  { destruct (Z.ltb_spec s latest); [|done]. rewrite u16_diff by lia. cbn. apply Z.leb_gt. lia. }
  rewrite E. clear E. eexists. split; [reflexivity|]. fold index. rewrite index_wrap.
  destruct (Z.ltb_spec latest s) as [Hnew|Hcur].
  - rewrite Z.max_r by lia. rewrite orb_true_l.
    split; cbn [sq_has_latest sq_latest sq_keys sq_values]; try done; try (by rewrite !length_insert, ?length_remove_range).
    intros t Ht. unfold insert_map. destruct (Z.eqb_spec t s) as [->|Hne].
    { split; apply list_lookup_insert_eq; rewrite ?length_remove_range, ?Hv by done; apply index_lt. }
    rewrite !list_lookup_insert_ne by (intros E%index_inj; lia).
    unfold remove_range. rewrite u16_add_1, u16_diff by lia.
    destruct (Z.leb_spec capacity (s - (latest + 1))) as [Hjump|Hstep].
    + rewrite (proj2 (Z.ltb_lt latest t)) by lia. apply lookup_replicate. split; [done|apply index_lt].
    + destruct (Z.ltb_spec latest t) as [Hgap|Hkept].
      * apply clear_hit; [done|lia].
      * rewrite clear_miss; [apply Hs; lia|]. intros j Hj E%index_inj; lia.
  - rewrite Z.max_l by lia. rewrite orb_false_l.
    split; cbn [sq_has_latest sq_latest sq_keys sq_values]; try done; try (by rewrite !length_insert).
    intros t Ht. unfold insert_map. destruct (Z.eqb_spec t s) as [->|Hne].
    { split; apply list_lookup_insert_eq; rewrite ?Hk, ?Hv; apply index_lt. }
    rewrite !list_lookup_insert_ne by (intros E%index_inj; lia). rewrite (proj2 (Z.ltb_ge latest t)) by lia. by apply Hs.
Qed.

(** Writing through the pointer changes that number only. *)
Lemma update_represents b latest m s f : represents b latest m -> latest - capacity < s <= latest ->
  represents (sq_update capacity (u16 s) f b) latest (fun t => if t =? s then f <$> m s else m t).
Proof.
  intros [Hh Hl Hk Hv Hs] Hw. unfold sq_update. fold index. rewrite index_wrap.
  split; cbn [sq_has_latest sq_latest sq_keys sq_values]; try done; [by rewrite length_alter|].
  intros t Ht. specialize (Hs t Ht). destruct (Z.eqb_spec t s) as [->|Hne].
  - destruct (m s) as [v|]; cbn [fmap option_fmap option_map]; [|done]. destruct Hs as [? Hval]. split; [done|].
    by rewrite list_lookup_alter_eq, Hval.
  - rewrite list_lookup_alter_ne by (intros E%index_inj; lia). done.
Qed.

Lemma represents_ext b latest m m' : represents b latest m ->
  (forall t, latest - capacity < t <= latest -> m t = m' t) -> represents b latest m'.
Proof. intros [Hh Hl Hk Hv Hs] Hm. split; try done. intros t Ht. rewrite <- Hm by done. by apply Hs. Qed.
End Meaning.

Lemma represents_new {T} (blank : T) capacity b s :
  0 < capacity < 2 ^ 15 -> (capacity | 2 ^ 16) ->
  b = sq_new blank capacity \/ (exists b0, length (sq_values b0) = Z.to_nat capacity /\ b = sq_reset capacity b0) ->
  exists b', sq_insert blank capacity (u16 s) b = Some b' /\
    represents capacity b' s (fun t => if t =? s then Some blank else None).
Proof.
  intros Hc Hd Hb.
  assert (sq_has_latest b = false /\ sq_keys b = replicate (Z.to_nat capacity) kEmpty /\
          length (sq_values b) = Z.to_nat capacity) as (Hh & Hk & Hv).
  { destruct Hb as [->|(b0 & Hl & ->)]; cbn; [by rewrite length_replicate|done]. }
  apply insert_first; try done; [by rewrite Hk, length_replicate|].
  intros i Hi. rewrite Hk. by apply lookup_replicate_2.
Qed.

(** ** Theorems *)
Section Window.
Context {T : Type} (blank : T) (capacity : Z).

(** A caller that asks for the slot of a number and, unless it is refused, writes its
    value through the pointer. *)
Definition store (sequence : Z) (v : T) (b : SequenceBuffer T) : SequenceBuffer T :=
  match sq_insert blank capacity (u16 sequence) b with
  | Some b => sq_update capacity (u16 sequence) (fun _ => v) b
  | None => b
  end.

Definition store_all (l : list (Z * T)) (b : SequenceBuffer T) : SequenceBuffer T := foldl (fun b e => store (fst e) (snd e) b) b l.

(** The value stored last under [t]. *)
Definition last_stored (t : Z) (l : list (Z * T)) (before : option T) : option T :=
  foldl (fun found e => if fst e =? t then Some (snd e) else found) before l.

(** Every number is less than half the sequence space from the newest one. *)
Fixpoint in_reach (latest : Z) (l : list (Z * T)) : Prop :=
  match l with
  | [] => True
  | e :: l => - 2 ^ 15 < fst e - latest < 2 ^ 15 /\ in_reach (Z.max latest (fst e)) l
  end.

Definition newest (first : Z) (l : list (Z * T)) : Z := foldl (fun n e => Z.max n (fst e)) first l.

Lemma newest_le first l : first <= newest first l.
Proof. revert first. induction l as [|e l IH]; intros first; cbn; [lia|]. specialize (IH (Z.max first (fst e))). unfold newest in IH. lia. Qed.

Lemma store_represents b latest m s v : 0 < capacity < 2 ^ 15 -> (capacity | 2 ^ 16) ->
  represents capacity b latest m -> - 2 ^ 15 < s - latest < 2 ^ 15 ->
  represents capacity (store s v b) (Z.max latest s)
    (fun t => if s <=? latest - capacity then m t else if t =? s then Some v else if latest <? t then None else m t).
Proof.
  intros Hc Hd Hb Hs. pose proof (insert_represents blank capacity Hc Hd b latest m s Hb Hs) as Hi. unfold store.
  destruct (Z.leb_spec s (latest - capacity)) as [Hold|Hnew]; [rewrite Hi; by rewrite Z.max_l by lia|].
  destruct Hi as (b' & -> & Hb'). eapply represents_ext; [apply update_represents; [done|done|exact Hb'|lia]|].
  intros t _. cbn beta. unfold insert_map. rewrite Z.eqb_refl. by destruct (t =? s).
Qed.

Lemma store_all_spec b latest m l : 0 < capacity < 2 ^ 15 -> (capacity | 2 ^ 16) ->
  represents capacity b latest m -> in_reach latest l ->
  exists m', represents capacity (store_all l b) (newest latest l) m' /\
    forall t, newest latest l - capacity < t <= newest latest l ->
      m' t = last_stored t l (if t <=? latest then m t else None).
Proof.
  intros Hc Hd. revert b latest m. induction l as [|[s v] l IH]; intros b latest m Hb Hl.
  { exists m. split; [done|]. cbn. intros t Ht. by rewrite (proj2 (Z.leb_le _ _)) by lia. }
  destruct Hl as [Hs Hl]. cbn [fst] in *. destruct (IH _ _ _ (store_represents b latest m s v Hc Hd Hb Hs) Hl) as (m' & Hm' & Hval).
  exists m'. split; [exact Hm'|]. intros t Ht. change (newest latest ((s, v) :: l)) with (newest (Z.max latest s) l) in Ht.
  rewrite Hval by exact Ht. cbn [last_stored foldl fst snd]. pose proof (newest_le (Z.max latest s) l). f_equal.
  rewrite (Z.eqb_sym s t). destruct (Z.eqb_spec t s) as [->|Hne].
  - rewrite (proj2 (Z.leb_le s (Z.max latest s))) by lia. destruct (Z.leb_spec s (latest - capacity)); [|done]. exfalso. lia.
  - destruct (Z.leb_spec t (Z.max latest s)), (Z.leb_spec t latest), (Z.ltb_spec latest t), (Z.leb_spec s (latest - capacity)); try done; exfalso; lia.
Qed.
End Window.

(** C19. The buffer remembers exactly a sliding window.  For any capacity that
    divides the 16-bit space, store values under any numbers, in any order and with
    repetitions, each number less than half the space from the newest: afterwards
    [find] returns, for every number in the window of [capacity] numbers that ends at
    the newest, exactly the value that was stored under it last, or nothing when none
    was, and nothing for every older or newer number within reach; the counter
    may wrap any number of times. *)
Theorem sequence_window {T} (blank : T) (capacity : Z) (first : Z) (v : T) (l : list (Z * T)) :
  0 < capacity < 2 ^ 15 -> (capacity | 2 ^ 16) -> in_reach first l ->
  let b := store_all blank capacity ((first, v) :: l) (sq_new blank capacity) in
  let latest := newest first l in
  sq_latest b = u16 latest /\
  forall t, latest - 2 ^ 16 + capacity <= t < latest - capacity + 2 ^ 16 ->
    sq_find capacity (u16 t) b = if bool_decide (latest - capacity < t <= latest) then last_stored t ((first, v) :: l) None else None.
Proof.
  intros Hc Hd Hl. cbn [store_all foldl fst snd]. unfold store at 2 4.
  destruct (represents_new blank capacity (sq_new blank capacity) first Hc Hd ltac:(by left)) as (b & -> & Hb).
  apply update_represents with (s := first) (f := fun _ => v) in Hb; [|done|done|lia].
  destruct (store_all_spec blank capacity _ first _ l Hc Hd Hb Hl) as (m & Hm & Hval). unfold store_all in Hm. cbv zeta.
  split; [apply (rp_latest _ _ _ _ Hm)|]. intros t Ht. rewrite (find_represents capacity Hc Hd _ _ _ _ Hm) by done.
  case_bool_decide as Hw; [|done]. rewrite Hval by done. cbn [last_stored foldl fst snd]. unfold last_stored. f_equal.
  rewrite Z.eqb_refl, (Z.eqb_sym first t). destruct (Z.eqb_spec t first) as [->|]; [by rewrite (proj2 (Z.leb_le _ _)) by lia|].
  by destruct (t <=? first).
Qed.

Lemma sequence_window_witness :
  let b := store_all 0 1024 [(65530, 1); (65540, 2); (65535, 3); (66000, 4); (65540, 5); (64000, 6)] (sq_new 0 1024) in
  sq_find 1024 (u16 65540) b = Some 5 /\ sq_find 1024 (u16 65535) b = Some 3 /\ sq_find 1024 (u16 65541) b = None /\ sq_find 1024 (u16 64000) b = None.
Proof.
  destruct (sequence_window 0 1024 65530 1 [(65540, 2); (65535, 3); (66000, 4); (65540, 5); (64000, 6)]) as [_ H]; [lia|by exists 64|cbn; lia|].
  cbv zeta. split_and!; (rewrite H by (cbn; lia)); reflexivity.
Defined.
