(* ===== verification/Reliability.v ===== *)
(** * Reliability: acknowledged packets and reliable messages
    ([src/src/net/reliability.h], [reliability.cpp], [src/src/net/protocol.h])

    [ReliableEndpoint] with its packet builder, its packet parser, the
    acknowledgement bookkeeping and the rate meters.  The second half composes
    two endpoints over a network that loses, duplicates, delays and reorders
    packets, and shows that what one side delivers is always a prefix of what
    the other side queued. *)

From S2P Require Import Prelude Bitstream F32 Messages SequenceBuffer.
From Stdlib Require Import ZArith Lia Bool Floats.SpecFloat.
From stdpp Require Import base tactics numbers list option gmap sorting.
#[local] Open Scope Z_scope.

(** ** Data *)
Definition kRateWindowUs : Z := 250000.
Definition kRttSmoothing : f32 := f32_lit 1 10.
Definition kJitterSmoothing : f32 := f32_lit 1 10.
Definition kRateSmoothing : f32 := f32_lit 1 10.
Definition kLossHorizon : Z := 32.

Record ReliableMessage := mkReliableMessage {
  rm_id : Z;
  rm_channel : Z;
  rm_sends : Z;
  rm_payload : list Z
}.

Record NetworkStats := mkNetworkStats {
  ns_rtt_ms : f32;
  ns_rtt_jitter_ms : f32;
  ns_rtt_min_ms : f32;
  ns_sent_loss_percent : f32;
  ns_recv_loss_percent : f32;
  ns_sent_kbps : f32;
  ns_recv_kbps : f32;
  ns_packets_sent : Z;
  ns_packets_received : Z;
  ns_packets_acked : Z;
  ns_packets_lost : Z;
  ns_reliable_retransmits : Z
}.

Definition NetworkStats_zero : NetworkStats := mkNetworkStats f0 f0 f0 f0 f0 f0 f0 0 0 0 0 0.

Record SentPacket := mkSentPacket {
  sp_send_time_us : Z;
  sp_size : Z;
  sp_acked : bool;
  sp_message_ids : list Z
}.

Definition SentPacket_blank : SentPacket := mkSentPacket 0 0 false [].

Record ReceivedPacket := mkReceivedPacket { rp_recv_time_us : Z; rp_size : Z }.

Definition ReceivedPacket_blank : ReceivedPacket := mkReceivedPacket 0 0.

(** The smoothed round-trip estimate and the counters of the current rate window. *)
Record Meters := mkMeters {
  mt_stats : NetworkStats;
  mt_rtt_ewma_ms : f32;
  mt_rtt_min_ms : f32;
  mt_jitter_ewma_ms : f32;
  mt_rtt_initialized : bool;
  mt_rate_window_start_us : Z;
  mt_bytes_sent : Z;
  mt_bytes_recv : Z;
  mt_packets_recv : Z;
  mt_packets_expected : Z;
  mt_packets_acked : Z;
  mt_packets_lost : Z;
  mt_rates_initialized : bool
}.

Definition Meters_zero : Meters := mkMeters NetworkStats_zero f0 f0 f0 false 0 0 0 0 0 0 0 false.

Record ReliableEndpoint := mkEndpoint {
  re_sequence : Z;
  re_next_message_id : Z;
  re_expected_message_id : Z;
  re_sent : SequenceBuffer SentPacket;
  re_received : SequenceBuffer ReceivedPacket;
  re_unacked : list ReliableMessage;
  re_reorder_buffer : gmap Z ReliableMessage;
  re_highest_received : Z;
  re_has_received : bool;
  re_meters : Meters;
  re_loss_cursor : Z;
  re_has_loss_cursor : bool
}.

(** *** Field updates *)
Definition set_sent s e := mkEndpoint (re_sequence e) (re_next_message_id e) (re_expected_message_id e) s (re_received e)
  (re_unacked e) (re_reorder_buffer e) (re_highest_received e) (re_has_received e) (re_meters e) (re_loss_cursor e) (re_has_loss_cursor e).
Definition set_unacked u e := mkEndpoint (re_sequence e) (re_next_message_id e) (re_expected_message_id e) (re_sent e) (re_received e)
  u (re_reorder_buffer e) (re_highest_received e) (re_has_received e) (re_meters e) (re_loss_cursor e) (re_has_loss_cursor e).
Definition set_meters m e := mkEndpoint (re_sequence e) (re_next_message_id e) (re_expected_message_id e) (re_sent e) (re_received e)
  (re_unacked e) (re_reorder_buffer e) (re_highest_received e) (re_has_received e) m (re_loss_cursor e) (re_has_loss_cursor e).
Definition set_inbox expected reorder e := mkEndpoint (re_sequence e) (re_next_message_id e) expected (re_sent e) (re_received e)
  (re_unacked e) reorder (re_highest_received e) (re_has_received e) (re_meters e) (re_loss_cursor e) (re_has_loss_cursor e).
Definition set_received r highest e := mkEndpoint (re_sequence e) (re_next_message_id e) (re_expected_message_id e) (re_sent e) r
  (re_unacked e) (re_reorder_buffer e) highest true (re_meters e) (re_loss_cursor e) (re_has_loss_cursor e).
Definition set_sequence s e := mkEndpoint s (re_next_message_id e) (re_expected_message_id e) (re_sent e) (re_received e)
  (re_unacked e) (re_reorder_buffer e) (re_highest_received e) (re_has_received e) (re_meters e) (re_loss_cursor e) (re_has_loss_cursor e).
Definition set_loss_cursor c e := mkEndpoint (re_sequence e) (re_next_message_id e) (re_expected_message_id e) (re_sent e) (re_received e)
  (re_unacked e) (re_reorder_buffer e) (re_highest_received e) (re_has_received e) (re_meters e) c true.

(** The constructor. *)
Definition ReliableEndpoint_new : ReliableEndpoint :=
  mkEndpoint 0 0 0 (sq_new SentPacket_blank kAckWindowSize) (sq_new ReceivedPacket_blank kAckWindowSize) [] ∅ 0 false
    Meters_zero 0 false.

Definition re_reset (e : ReliableEndpoint) : ReliableEndpoint :=
  mkEndpoint 0 0 0 (sq_reset kAckWindowSize (re_sent e)) (sq_reset kAckWindowSize (re_received e)) [] ∅ 0 false
    Meters_zero 0 false.

(** ** Sending *)
Definition queue_reliable (channel : Z) (data : list Z) (e : ReliableEndpoint) : ReliableEndpoint :=
  let size := Z.of_nat (length data) in
  if (size =? 0) || (kMaxReliableMessageSize <? size) then e
  else
    mkEndpoint (re_sequence e) (u16 (re_next_message_id e + 1)) (re_expected_message_id e) (re_sent e) (re_received e)
      (re_unacked e ++ [mkReliableMessage (re_next_message_id e) channel 0 data]) (re_reorder_buffer e)
      (re_highest_received e) (re_has_received e) (re_meters e) (re_loss_cursor e) (re_has_loss_cursor e).

(** Bit [i] tells whether the packet [i + 1] before the newest arrived. *)
Definition ack_bit (e : ReliableEndpoint) (i : nat) : Z :=
  let previous := u16 (re_highest_received e - (Z.of_nat i + 1)) in
  if sq_exists kAckWindowSize previous (re_received e) then Z.shiftl 1 (Z.of_nat i) else 0.

Definition ack_bits_of (e : ReliableEndpoint) : Z :=
  if re_has_received e then foldl (fun bits i => Z.lor bits (ack_bit e i)) 0 (seq 0 32) else 0.

(** The counting loop: how many pending messages the packet takes. *)
Fixpoint include_count (fuel : nat) (remaining unreliable_size : Z) (unacked : list ReliableMessage) : nat :=
  match fuel, unacked with
  | S fuel, message :: unacked =>
      let needed_bits := u32 (16 + 8 + 16 + Z.of_nat (length (rm_payload message)) * 8) in
      if remaining <? u32 (needed_bits + unreliable_size * 8 + 32) then O
      else S (include_count fuel remaining unreliable_size unacked)
  | _, _ => O
  end.

Definition write_message (message : ReliableMessage) (w : BitWriter) : BitWriter :=
  let w := write_u16 (rm_id message) w in
  let w := write_u8 (rm_channel message) w in
  let w := write_u16 (u16 (Z.of_nat (length (rm_payload message)))) w in
  write_bytes (rm_payload message) w.

Fixpoint write_messages (messages : list ReliableMessage) (w : BitWriter) : BitWriter :=
  match messages with
  | [] => w
  | message :: messages => write_messages messages (write_message message w)
  end.

Definition bump_sends (message : ReliableMessage) : ReliableMessage :=
  mkReliableMessage (rm_id message) (rm_channel message) (u32 (rm_sends message + 1)) (rm_payload message).

Definition count_retransmits (n : Z) (m : Meters) : Meters :=
  let st := mt_stats m in
  mkMeters (mkNetworkStats (ns_rtt_ms st) (ns_rtt_jitter_ms st) (ns_rtt_min_ms st) (ns_sent_loss_percent st)
      (ns_recv_loss_percent st) (ns_sent_kbps st) (ns_recv_kbps st) (ns_packets_sent st) (ns_packets_received st)
      (ns_packets_acked st) (ns_packets_lost st) (u64 (ns_reliable_retransmits st + n)))
    (mt_rtt_ewma_ms m) (mt_rtt_min_ms m) (mt_jitter_ewma_ms m) (mt_rtt_initialized m) (mt_rate_window_start_us m)
    (mt_bytes_sent m) (mt_bytes_recv m) (mt_packets_recv m) (mt_packets_expected m) (mt_packets_acked m)
    (mt_packets_lost m) (mt_rates_initialized m).

Definition count_sent (size : Z) (m : Meters) : Meters :=
  let st := mt_stats m in
  mkMeters (mkNetworkStats (ns_rtt_ms st) (ns_rtt_jitter_ms st) (ns_rtt_min_ms st) (ns_sent_loss_percent st)
      (ns_recv_loss_percent st) (ns_sent_kbps st) (ns_recv_kbps st) (u64 (ns_packets_sent st + 1))
      (ns_packets_received st) (ns_packets_acked st) (ns_packets_lost st) (ns_reliable_retransmits st))
    (mt_rtt_ewma_ms m) (mt_rtt_min_ms m) (mt_jitter_ewma_ms m) (mt_rtt_initialized m) (mt_rate_window_start_us m)
    (u64 (mt_bytes_sent m + size)) (mt_bytes_recv m) (mt_packets_recv m) (mt_packets_expected m) (mt_packets_acked m)
    (mt_packets_lost m) (mt_rates_initialized m).

(** Sequence, acknowledgements and the message count. *)
Definition write_packet_header (sequence ack ack_bits : Z) (w : BitWriter) : BitWriter :=
  write_u32 ack_bits (write_u16 ack (write_u16 sequence w)).

(** The content of a packet: sequence, acknowledgements, the messages it
    carries and the unreliable payload. *)
Record Packet := mkPacket {
  pk_sequence : Z;
  pk_ack : Z;
  pk_ack_bits : Z;
  pk_messages : list ReliableMessage;
  pk_unreliable : list Z
}.

(** What the next packet carries: as many pending messages as the loop lets in
    after the header. *)
Definition packet_of (out : list Z) (capacity : Z) (unreliable : list Z) (e : ReliableEndpoint) : Packet :=
  let ack := if re_has_received e then re_highest_received e else 0 in
  let w := write_packet_header (re_sequence e) ack (ack_bits_of e) (BitWriter_new out capacity) in
  let count := include_count (Z.to_nat kMaxReliablePerPacket) (bits_remaining w) (Z.of_nat (length unreliable)) (re_unacked e) in
  mkPacket (re_sequence e) ack (ack_bits_of e) (take count (re_unacked e)) unreliable.

(** Everything [write_packet] writes, in order. *)
Definition write_content (p : Packet) (w : BitWriter) : BitWriter :=
  let w := write_packet_header (pk_sequence p) (pk_ack p) (pk_ack_bits p) w in
  let w := write_u8 (u8 (Z.of_nat (length (pk_messages p)))) w in
  let w := write_messages (pk_messages p) w in
  let w := write_u16 (u16 (Z.of_nat (length (pk_unreliable p)))) w in
  if 0 <? Z.of_nat (length (pk_unreliable p)) then write_bytes (pk_unreliable p) w else w.

(** The state once the packet is built, before its size is recorded. *)
Definition after_build (p : Packet) (now_us : Z) (sent : SequenceBuffer SentPacket) (e : ReliableEndpoint) : ReliableEndpoint :=
  let record := mkSentPacket now_us 0 false (rm_id <$> pk_messages p) in
  let retransmits := Z.of_nat (length (filter (fun message => 0 < rm_sends message) (pk_messages p))) in
  let e := set_sequence (u16 (pk_sequence p + 1)) e in
  let e := set_sent (sq_update kAckWindowSize (pk_sequence p) (fun _ => record) sent) e in
  let e := set_unacked ((bump_sends <$> pk_messages p) ++ drop (length (pk_messages p)) (re_unacked e)) e in
  set_meters (count_retransmits retransmits (re_meters e)) e.

(** [record->size = size; ++stats_.packets_sent; bytes_sent_window_ += size;] *)
Definition record_size (p : Packet) (size : Z) (e : ReliableEndpoint) : ReliableEndpoint :=
  let e := set_sent (sq_update kAckWindowSize (pk_sequence p)
             (fun r => mkSentPacket (sp_send_time_us r) size (sp_acked r) (sp_message_ids r)) (re_sent e)) e in
  set_meters (count_sent size (re_meters e)) e.

(** [write_packet]: [None] for the 0 of a packet that could not be built. *)
Definition write_packet (out : list Z) (capacity : Z) (unreliable : list Z) (now_us : Z) (e : ReliableEndpoint) :
    option (list Z) * ReliableEndpoint :=
  let p := packet_of out capacity unreliable e in
  match sq_insert SentPacket_blank kAckWindowSize (re_sequence e) (re_sent e) with
  | None => (None, set_sequence (u16 (re_sequence e + 1)) e)
  | Some sent =>
      let e := after_build p now_us sent e in
      match finish (write_content p (BitWriter_new out capacity)) with
      | None => (None, e)
      | Some bytes => (Some bytes, record_size p (Z.of_nat (length bytes)) e)
      end
  end.

(** ** Acknowledgements *)
(** [for (it = unacked_.begin(); ...) if (it->id == id) { erase; break; }] *)
Fixpoint erase_message (id : Z) (unacked : list ReliableMessage) : list ReliableMessage :=
  match unacked with
  | [] => []
  | message :: unacked => if rm_id message =? id then unacked else message :: erase_message id unacked
  end.

Definition sample_rtt (now_us send_time_us : Z) (m : Meters) : Meters :=
  let st := mt_stats m in
  let sample_ms := fdiv (f32_of_Z (u64 (now_us - send_time_us))) (f32_of_Z 1000) in
  let '(ewma, jitter, minimum) :=
    if negb (mt_rtt_initialized m) then (sample_ms, mt_jitter_ewma_ms m, sample_ms)
    else
      (fadd (mt_rtt_ewma_ms m) (fmul (fsub sample_ms (mt_rtt_ewma_ms m)) kRttSmoothing),
       fadd (mt_jitter_ewma_ms m)
         (fmul (fsub (fabs (fsub sample_ms (mt_rtt_ewma_ms m))) (mt_jitter_ewma_ms m)) kJitterSmoothing),
       if fltb sample_ms (mt_rtt_min_ms m) then sample_ms else mt_rtt_min_ms m) in
  mkMeters (mkNetworkStats ewma jitter minimum (ns_sent_loss_percent st)
      (ns_recv_loss_percent st) (ns_sent_kbps st) (ns_recv_kbps st) (ns_packets_sent st) (ns_packets_received st)
      (u64 (ns_packets_acked st + 1)) (ns_packets_lost st) (ns_reliable_retransmits st))
    ewma minimum jitter true (mt_rate_window_start_us m)
    (mt_bytes_sent m) (mt_bytes_recv m) (mt_packets_recv m) (mt_packets_expected m) (u64 (mt_packets_acked m + 1))
    (mt_packets_lost m) (mt_rates_initialized m).

Definition on_packet_acked (now_us : Z) (sequence : Z) (e : ReliableEndpoint) : ReliableEndpoint :=
  match sq_find kAckWindowSize sequence (re_sent e) with
  | None => e
  | Some record =>
      if sp_acked record then e else
      let e := set_sent (sq_update kAckWindowSize sequence
                 (fun r => mkSentPacket (sp_send_time_us r) (sp_size r) true (sp_message_ids r)) (re_sent e)) e in
      let e := set_meters (sample_rtt now_us (sp_send_time_us record) (re_meters e)) e in
      set_unacked (foldl (fun u id => erase_message id u) (re_unacked e) (sp_message_ids record)) e
  end.

Definition process_acks (ack ack_bits now_us : Z) (e : ReliableEndpoint) : ReliableEndpoint :=
  foldl (fun e i =>
           if negb (Z.land ack_bits (Z.shiftl 1 (Z.of_nat i)) =? 0)
           then on_packet_acked now_us (u16 (ack - (Z.of_nat i + 1))) e else e)
    (on_packet_acked now_us ack e) (seq 0 32).

(** ** Receiving *)
Definition count_received (size expected : Z) (m : Meters) : Meters :=
  let st := mt_stats m in
  mkMeters (mkNetworkStats (ns_rtt_ms st) (ns_rtt_jitter_ms st) (ns_rtt_min_ms st) (ns_sent_loss_percent st)
      (ns_recv_loss_percent st) (ns_sent_kbps st) (ns_recv_kbps st) (ns_packets_sent st)
      (u64 (ns_packets_received st + 1)) (ns_packets_acked st) (ns_packets_lost st) (ns_reliable_retransmits st))
    (mt_rtt_ewma_ms m) (mt_rtt_min_ms m) (mt_jitter_ewma_ms m) (mt_rtt_initialized m) (mt_rate_window_start_us m)
    (mt_bytes_sent m) (u64 (mt_bytes_recv m + size)) (u64 (mt_packets_recv m + 1)) (u64 (mt_packets_expected m + expected))
    (mt_packets_acked m) (mt_packets_lost m) (mt_rates_initialized m).

(** Storing one message: not when it was delivered or is already waiting. *)
Definition store_message (expected : Z) (message : ReliableMessage) (reorder : gmap Z ReliableMessage) :
    gmap Z ReliableMessage :=
  let already_delivered := negb (sequence_greater16 (rm_id message) expected) && negb (rm_id message =? expected) in
  if already_delivered then reorder
  else match reorder !! rm_id message with Some _ => reorder | None => <[rm_id message := message]> reorder end.

(** The message loop; [false] for its [return false], which keeps what the
    earlier rounds stored. *)
Fixpoint read_messages (count : nat) (expected : Z) (reorder : gmap Z ReliableMessage) :
    Rd (bool * gmap Z ReliableMessage) :=
  match count with
  | O => mret (true, reorder)
  | S count =>
      id ← read_u16;
      channel ← read_u8;
      payload_size ← read_u16;
      o ← overflowed;
      if (kMaxReliableMessageSize <? payload_size) || o then mret (false, reorder) else
      payload ← read_bytes (replicate (Z.to_nat payload_size) 0);
      o ← overflowed;
      if o : bool then mret (false, reorder) else
      read_messages count expected (store_message expected (mkReliableMessage id channel 0 payload) reorder)
  end.

(** [deliver_in_order]: every round takes one message out of the buffer, so its
    size is enough fuel. *)
Fixpoint deliver_loop (fuel : nat) (expected : Z) (reorder : gmap Z ReliableMessage) :
    list ReliableMessage * Z * gmap Z ReliableMessage :=
  match fuel with
  | O => ([], expected, reorder)
  | S fuel =>
      match reorder !! expected with
      | None => ([], expected, reorder)
      | Some message =>
          let '(out, expected', reorder') := deliver_loop fuel (u16 (expected + 1)) (delete expected reorder) in
          (message :: out, expected', reorder')
      end
  end.

Definition deliver_in_order (e : ReliableEndpoint) : list ReliableMessage * ReliableEndpoint :=
  let '(out, expected, reorder) :=
    deliver_loop (size (re_reorder_buffer e)) (re_expected_message_id e) (re_reorder_buffer e) in
  (out, set_inbox expected reorder e).

(** [highest_received_] after a packet, and how many packets it makes expected. *)
Definition advance_highest (sequence : Z) (e : ReliableEndpoint) : Z * Z :=
  if negb (re_has_received e) then (sequence, 1)
  else if sequence_greater16 sequence (re_highest_received e)
  then (sequence, u16 (sequence - re_highest_received e))
  else (re_highest_received e, 0).

(** [read_packet]: [Some (payload, messages)] for [true]; the unreliable payload
    is the bytes the view points at, none for the null view. *)
Definition read_packet (data : list Z) (now_us : Z) (e : ReliableEndpoint) :
    option (list Z * list ReliableMessage) * ReliableEndpoint :=
  let size := Z.of_nat (length data) in
  let r := BitReader_new data size in
  let '(sequence, r) := read_u16 r in
  let '(ack, r) := read_u16 r in
  let '(ack_bits, r) := read_u32 r in
  if br_overflow r then (None, e) else
  if sq_exists kAckWindowSize sequence (re_received e) then (None, e) else
  match sq_insert ReceivedPacket_blank kAckWindowSize sequence (re_received e) with
  | None => (None, e)
  | Some received =>
      let received := sq_update kAckWindowSize sequence (fun _ => mkReceivedPacket now_us size) received in
      let '(highest, expected_packets) := advance_highest sequence e in
      let e := set_meters (count_received size expected_packets (re_meters e)) (set_received received highest e) in
      let e := process_acks ack ack_bits now_us e in
      let '(message_count, r) := read_u8 r in
      if kMaxReliablePerPacket <? message_count then (None, e) else
      let '((ok, reorder), r) :=
        read_messages (Z.to_nat message_count) (re_expected_message_id e) (re_reorder_buffer e) r in
      let e := set_inbox (re_expected_message_id e) reorder e in
      if negb ok then (None, e) else
      let '(unreliable_size, r) := read_u16 r in
      if br_overflow r then (None, e) else
      if size <? u32 (bytes_read r + unreliable_size) then (None, e) else
      let unreliable := take (Z.to_nat unreliable_size) (drop (Z.to_nat (bytes_read r)) data) in
      let '(messages, e) := deliver_in_order e in
      (Some (unreliable, messages), e)
  end.

(** ** Rates *)
Definition count_lost (n : Z) (m : Meters) : Meters :=
  let st := mt_stats m in
  mkMeters (mkNetworkStats (ns_rtt_ms st) (ns_rtt_jitter_ms st) (ns_rtt_min_ms st) (ns_sent_loss_percent st)
      (ns_recv_loss_percent st) (ns_sent_kbps st) (ns_recv_kbps st) (ns_packets_sent st) (ns_packets_received st)
      (ns_packets_acked st) (u64 (ns_packets_lost st + n)) (ns_reliable_retransmits st))
    (mt_rtt_ewma_ms m) (mt_rtt_min_ms m) (mt_jitter_ewma_ms m) (mt_rtt_initialized m) (mt_rate_window_start_us m)
    (mt_bytes_sent m) (mt_bytes_recv m) (mt_packets_recv m) (mt_packets_expected m) (mt_packets_acked m)
    (u64 (mt_packets_lost m + n)) (mt_rates_initialized m).

Definition blend (m : Meters) (target sample : f32) : f32 :=
  if mt_rates_initialized m then fadd target (fmul (fsub sample target) kRateSmoothing) else sample.

(** [while (sequence_greater(horizon_end, loss_cursor_))]: the packets that left
    the horizon without an acknowledgement; [None] when the fuel runs out. *)
Fixpoint loss_loop (fuel : nat) (horizon_end cursor : Z) (sent : SequenceBuffer SentPacket) (lost : Z) : option (Z * Z) :=
  if sequence_greater16 horizon_end cursor then
    match fuel with
    | O => None
    | S fuel =>
        let judged := match sq_find kAckWindowSize cursor sent with
                      | Some record => if sp_acked record then 0 else 1
                      | None => 0
                      end in
        loss_loop fuel horizon_end (u16 (cursor + 1)) sent (lost + judged)
    end
  else Some (cursor, lost).

(** Enough rounds for any pair of sequences. *)
Definition loss_fuel (horizon_end cursor : Z) : nat := Z.to_nat (u16 (horizon_end - cursor)).

Definition close_window (now_us : Z) (m : Meters) : Meters :=
  let st := mt_stats m in
  let elapsed_s := fdiv (f32_of_Z (u64 (now_us - mt_rate_window_start_us m))) (f32_of_Z 1000000) in
  let kbps bytes := fdiv (fdiv (fmul (f32_of_Z bytes) (f32_of_Z 8)) (f32_of_Z 1000)) elapsed_s in
  let sent_judged := u64 (mt_packets_acked m + mt_packets_lost m) in
  let missing := if mt_packets_recv m <? mt_packets_expected m
                 then u64 (mt_packets_expected m - mt_packets_recv m) else 0 in
  mkMeters
    (mkNetworkStats (mt_rtt_ewma_ms m) (mt_jitter_ewma_ms m) (mt_rtt_min_ms m)
       (if 0 <? sent_judged
        then blend m (ns_sent_loss_percent st)
               (fdiv (fmul (f32_of_Z (mt_packets_lost m)) (f32_of_Z 100)) (f32_of_Z sent_judged))
        else ns_sent_loss_percent st)
       (if 0 <? mt_packets_expected m
        then blend m (ns_recv_loss_percent st)
               (fdiv (fmul (f32_of_Z missing) (f32_of_Z 100)) (f32_of_Z (mt_packets_expected m)))
        else ns_recv_loss_percent st)
       (blend m (ns_sent_kbps st) (kbps (mt_bytes_sent m))) (blend m (ns_recv_kbps st) (kbps (mt_bytes_recv m)))
       (ns_packets_sent st) (ns_packets_received st) (ns_packets_acked st) (ns_packets_lost st) (ns_reliable_retransmits st))
    (mt_rtt_ewma_ms m) (mt_rtt_min_ms m) (mt_jitter_ewma_ms m) (mt_rtt_initialized m) now_us 0 0 0 0 0 0 true.

Definition start_window (now_us : Z) (m : Meters) : Meters :=
  if mt_rate_window_start_us m =? 0 then
    mkMeters (mt_stats m) (mt_rtt_ewma_ms m) (mt_rtt_min_ms m) (mt_jitter_ewma_ms m) (mt_rtt_initialized m) now_us
      (mt_bytes_sent m) (mt_bytes_recv m) (mt_packets_recv m) (mt_packets_expected m) (mt_packets_acked m)
      (mt_packets_lost m) (mt_rates_initialized m)
  else m.

(** [update]; [None] would mean that the loss loop had not ended. *)
Definition re_update (now_us : Z) (e : ReliableEndpoint) : option ReliableEndpoint :=
  let m := start_window now_us (re_meters e) in
  let horizon_end := u16 (re_sequence e - kLossHorizon) in
  let cursor := if re_has_loss_cursor e then re_loss_cursor e else horizon_end in
  '(cursor, lost) ← loss_loop (loss_fuel horizon_end cursor) horizon_end cursor (re_sent e) 0;
  let m := count_lost lost m in
  let e := set_loss_cursor cursor e in
  mret (set_meters (if u64 (now_us - mt_rate_window_start_us m) <? kRateWindowUs then m else close_window now_us m) e).

Definition has_pending_reliable (e : ReliableEndpoint) : bool := negb (bool_decide (re_unacked e = [])).
Definition pending_reliable_count (e : ReliableEndpoint) : Z := u32 (Z.of_nat (length (re_unacked e))).

(** ** The wire format *)
Definition message_bits (message : ReliableMessage) : list bool :=
  zbits 16 (rm_id message) ++ zbits 8 (rm_channel message) ++ zbits 16 (Z.of_nat (length (rm_payload message))) ++
  bits_of_bytes (rm_payload message).

Definition messages_bits (messages : list ReliableMessage) : list bool := messages ≫= message_bits.

Definition header_bits (p : Packet) : list bool :=
  zbits 16 (pk_sequence p) ++ zbits 16 (pk_ack p) ++ zbits 32 (pk_ack_bits p).

Definition content_bits (p : Packet) : list bool :=
  header_bits p ++ zbits 8 (Z.of_nat (length (pk_messages p))) ++ messages_bits (pk_messages p) ++
  zbits 16 (Z.of_nat (length (pk_unreliable p))) ++ bits_of_bytes (pk_unreliable p).

Definition message_ok (m : ReliableMessage) : Prop :=
  fits 16 (rm_id m) /\ fits 8 (rm_channel m) /\ Forall (fits 8) (rm_payload m) /\
  Z.of_nat (length (rm_payload m)) <= kMaxReliableMessageSize.

Record packet_ok (p : Packet) : Prop := {
  po_sequence : fits 16 (pk_sequence p);
  po_ack : fits 16 (pk_ack p);
  po_bits : fits 32 (pk_ack_bits p);
  po_messages : Forall message_ok (pk_messages p);
  po_count : Z.of_nat (length (pk_messages p)) <= kMaxReliablePerPacket;
  po_unreliable : Forall (fits 8) (pk_unreliable p) /\ Z.of_nat (length (pk_unreliable p)) < 2 ^ 16
}.

Lemma write_message_writes m : message_ok m -> writes (write_message m) (message_bits m).
Proof.
  intros (Hi & Hc & Hp & Hl). unfold write_message, message_bits, kMaxReliableMessageSize in *.
  rewrite (wrap_small 16 (Z.of_nat _)) by (split; lia). rewrite !app_assoc. cbv zeta.
  apply (writes_comp _ _ (write_bytes _)); [|apply writes_bytes; [done|lia]].
  apply (writes_comp _ _ (write_u16 _)); [|apply writes_u16; split; lia].
  apply (writes_comp _ _ (write_u8 _)); [by apply writes_u16|by apply writes_u8].
Qed.

Lemma write_messages_writes l : Forall message_ok l -> writes (write_messages l) (messages_bits l).
Proof.
  induction 1 as [|m l Hm _ IH]; [apply writes_id|]. unfold messages_bits. cbn [write_messages mbind list_bind].
  apply (writes_comp (write_message m)); [by apply write_message_writes|exact IH].
Qed.

Lemma packet_header_writes p : packet_ok p ->
  writes (write_packet_header (pk_sequence p) (pk_ack p) (pk_ack_bits p)) (header_bits p).
Proof.
  intros []. unfold write_packet_header, header_bits. rewrite !app_assoc.
  apply (writes_comp _ _ (write_u32 _)); [|by apply writes_u32].
  apply (writes_comp _ _ (write_u16 _)); [by apply writes_u16|by apply writes_u16].
Qed.

Lemma write_content_writes p : packet_ok p -> writes (write_content p) (content_bits p).
Proof.
  intros Hp. pose proof (packet_header_writes p Hp) as Hh. destruct Hp as [_ _ _ Hm Hc [Hu Hl]].
  unfold kMaxReliablePerPacket in Hc. unfold write_content, content_bits. cbv zeta.
  rewrite (wrap_small 8), (wrap_small 16) by (split; lia).
  assert (Hpre : writes (fun w => write_u16 (Z.of_nat (length (pk_unreliable p))) (write_messages (pk_messages p)
     (write_u8 (Z.of_nat (length (pk_messages p))) (write_packet_header (pk_sequence p) (pk_ack p) (pk_ack_bits p) w))))
     (header_bits p ++ zbits 8 (Z.of_nat (length (pk_messages p))) ++ messages_bits (pk_messages p) ++
        zbits 16 (Z.of_nat (length (pk_unreliable p))))).
  { rewrite !app_assoc. apply (writes_comp _ _ (write_u16 _)); [|apply writes_u16; split; lia].
    apply (writes_comp _ _ (write_messages _)); [|by apply write_messages_writes].
    apply (writes_comp _ _ (write_u8 _)); [exact Hh|apply writes_u8; split; lia]. }
  destruct (Z.ltb_spec 0 (Z.of_nat (length (pk_unreliable p)))) as [Hlt|Hge].
  - replace (header_bits p ++ _) with ((header_bits p ++ zbits 8 (Z.of_nat (length (pk_messages p))) ++
      messages_bits (pk_messages p) ++ zbits 16 (Z.of_nat (length (pk_unreliable p)))) ++ bits_of_bytes (pk_unreliable p))
      by (by rewrite <- !app_assoc).
    apply (writes_comp _ _ (write_bytes _)); [exact Hpre|apply writes_bytes; [done|lia]].
  - eapply writes_eq; [|exact Hpre]. destruct (pk_unreliable p); [|cbn in Hge; lia].
    change (bits_of_bytes []) with (@nil bool). by rewrite app_nil_r.
Qed.

(** *** Reading it back *)
Lemma accepts_messages l expected reorder : Forall message_ok l ->
  accepts (read_messages (length l) expected reorder) (messages_bits l)
    (true, foldl (fun b m => store_message expected (mkReliableMessage (rm_id m) (rm_channel m) 0 (rm_payload m)) b) reorder l).
Proof.
  intros Hl. revert reorder. induction Hl as [|m l (Hi & Hc & Hp & Hlen) _ IH]; intros reorder.
  { apply accepts_reads, reads_ret. }
  unfold kMaxReliableMessageSize in *.
  change (messages_bits (m :: l)) with (message_bits m ++ messages_bits l). unfold message_bits.
  rewrite <- !app_assoc. cbn [length read_messages foldl].
  eapply accepts_bind; [by apply accepts_reads, reads_u16|].
  eapply accepts_bind; [by apply accepts_reads, reads_u8|].
  eapply accepts_bind; [apply accepts_reads, reads_u16; split; lia|].
  refine (accepts_bind overflowed _ [] _ false _ accepts_overflowed _).
  rewrite (proj2 (Z.ltb_ge _ _)) by (unfold kMaxReliableMessageSize; lia). cbn [orb].
  eapply accepts_bind; [apply accepts_reads, reads_bytes; [done|rewrite length_replicate; lia|lia]|].
  refine (accepts_bind overflowed _ [] _ false _ accepts_overflowed _). apply IH.
Qed.

Lemma length_messages_bits l : exists n, length (messages_bits l) = (8 * n)%nat.
Proof.
  induction l as [|m l [n IH]]; [by exists 0%nat|]. unfold messages_bits in *. cbn [mbind list_bind].
  rewrite length_app, IH. unfold message_bits. rewrite !length_app, !length_zbits, length_bits_of_bytes.
  exists (5 + length (rm_payload m) + n)%nat. lia.
Qed.

(** Every field is a whole number of bytes, so nothing is padded. *)
Lemma content_aligned p : exists n, length (content_bits p) = (8 * n)%nat.
Proof.
  unfold content_bits, header_bits. destruct (length_messages_bits (pk_messages p)) as [n Hn].
  rewrite !length_app, Hn, !length_zbits, length_bits_of_bytes. exists (11 + n + length (pk_unreliable p))%nat. lia.
Qed.

(** What [read_packet] does, on the content of the packet. *)
Definition receive_packet (p : Packet) (size now_us : Z) (e : ReliableEndpoint) :
    option (list Z * list ReliableMessage) * ReliableEndpoint :=
  if sq_exists kAckWindowSize (pk_sequence p) (re_received e) then (None, e) else
  match sq_insert ReceivedPacket_blank kAckWindowSize (pk_sequence p) (re_received e) with
  | None => (None, e)
  | Some received =>
      let received := sq_update kAckWindowSize (pk_sequence p) (fun _ => mkReceivedPacket now_us size) received in
      let '(highest, expected_packets) := advance_highest (pk_sequence p) e in
      let e := set_meters (count_received size expected_packets (re_meters e)) (set_received received highest e) in
      let e := process_acks (pk_ack p) (pk_ack_bits p) now_us e in
      let reorder := foldl (fun b m => store_message (re_expected_message_id e)
        (mkReliableMessage (rm_id m) (rm_channel m) 0 (rm_payload m)) b) (re_reorder_buffer e) (pk_messages p) in
      let '(messages, e) := deliver_in_order (set_inbox (re_expected_message_id e) reorder e) in
      (Some (pk_unreliable p, messages), e)
  end.

(** Reads the next field of a packet whose remaining bits are known. *)
Ltac next_field r' Hpos lem :=
  let Hm := fresh in let Hw := fresh "Hw" in let Ho := fresh "Ho" in let Hrest := fresh "Hrest" in
  match goal with
  | H1 : reader_wf ?r, H2 : br_overflow ?r = false, H3 : rest ?r = _ ++ _ |- _ =>
      destruct (lem r _ H1 H2 H3) as (r' & Hm & Hw & Ho & Hrest & Hpos); rewrite Hm; clear Hm H1 H2 H3
  end.

Ltac no_overflow := match goal with H : br_overflow ?r = false |- _ => rewrite H end.

Lemma read_packet_content p bytes now_us e : packet_ok p -> Forall (fits 8) bytes -> 8 * Z.of_nat (length bytes) < 2 ^ 31 ->
  bits_of_bytes bytes = content_bits p ->
  read_packet bytes now_us e = receive_packet p (Z.of_nat (length bytes)) now_us e.
Proof.
  intros Hp Hby Hlen Hbits. destruct (reader_wf_new bytes Hby Hlen) as [Hr Hrest]. rewrite Hbits in Hrest.
  destruct Hp as [Hs Ha Hb Hm Hc [Hu Hul]]. unfold kMaxReliablePerPacket in Hc.
  assert (Ho : br_overflow (BitReader_new bytes (Z.of_nat (length bytes))) = false) by done.
  assert (Hpos0 : br_bit_pos (BitReader_new bytes (Z.of_nat (length bytes))) = 0) by done.
  unfold content_bits, header_bits in Hrest. rewrite <- !app_assoc in Hrest.
  unfold read_packet, receive_packet. set (r0 := BitReader_new bytes (Z.of_nat (length bytes))) in *. clearbody r0.
  next_field r1 P1 (fun r tl => reads_step read_u16 _ _ r tl (reads_u16 _ Hs)).
  next_field r2 P2 (fun r tl => reads_step read_u16 _ _ r tl (reads_u16 _ Ha)).
  next_field r3 P3 (fun r tl => reads_step read_u32 _ _ r tl (reads_u32 _ Hb)).
  no_overflow. destruct (sq_exists _ _ _); [done|]. destruct (sq_insert _ _ _ _) as [received|]; [|done].
  destruct (advance_highest _ _) as [highest expected_packets].
  set (e1 := process_acks _ _ _ _). clearbody e1.
  next_field r4 P4 (fun r tl => reads_step read_u8 _ _ r tl (reads_u8 (Z.of_nat (length (pk_messages p))) ltac:(split; lia))).
  unfold kMaxReliablePerPacket. rewrite (proj2 (Z.ltb_ge _ _)), Nat2Z.id by lia.
  next_field r5 P5 (fun r tl => accepts_step (read_messages (length (pk_messages p)) (re_expected_message_id e1) (re_reorder_buffer e1))
    _ _ r tl (accepts_messages _ _ _ Hm)).
  cbn [negb re_expected_message_id set_inbox].
  next_field r6 P6 (fun r tl => reads_step read_u16 _ _ r tl (reads_u16 (Z.of_nat (length (pk_unreliable p))) ltac:(split; lia))).
  no_overflow.
  (* the payload starts where the header ends *)
  destruct (length_messages_bits (pk_messages p)) as [n Hn].
  assert (Hpos : br_bit_pos r6 = 8 * Z.of_nat (11 + n)) by (rewrite !length_zbits, Hn in *; lia).
  assert (Hdrop : drop (11 + n) bytes = pk_unreliable p).
  { apply bits_of_bytes_inj; [by apply Forall_drop|done|]. rewrite <- drop_bits_of_bytes, Hbits. unfold content_bits, header_bits.
    rewrite !app_assoc. apply drop_app_length'. rewrite !length_app, !length_zbits, Hn. lia. }
  assert (Hsize : length bytes = (11 + n + length (pk_unreliable p))%nat).
  { apply (f_equal length) in Hbits. rewrite length_bits_of_bytes in Hbits. unfold content_bits, header_bits in Hbits.
    rewrite !length_app, !length_zbits, Hn, length_bits_of_bytes in Hbits. lia. }
  assert (Hread : bytes_read r6 = Z.of_nat (11 + n)).
  { unfold bytes_read. rewrite Hpos, wrap_small by (split; lia). rewrite Z.shiftr_div_pow2 by lia. change (2 ^ 3) with 8.
    symmetry. apply Z.div_unique with 7; lia. }
  rewrite Hread, wrap_small by (split; lia). rewrite (proj2 (Z.ltb_ge _ _)) by lia.
  rewrite !Nat2Z.id, Hdrop, take_ge by lia. done.
Qed.

(** *** Building it *)
Definition endpoint_ok (e : ReliableEndpoint) : Prop :=
  fits 16 (re_sequence e) /\ fits 16 (re_highest_received e) /\ Forall message_ok (re_unacked e).

Lemma foldl_lor_fits (f : nat -> Z) l a n : 0 <= n -> fits n a -> (forall i, i ∈ l -> fits n (f i)) ->
  fits n (foldl (fun bits i => Z.lor bits (f i)) a l).
Proof.
  intros Hn. revert a. induction l as [|i l IH]; intros a Ha Hl; [done|]. cbn. apply IH.
  - apply fits_lor; [done|done|apply Hl; left].
  - intros j Hj. apply Hl. by right.
Qed.

Lemma ack_bits_fits e : fits 32 (ack_bits_of e).
Proof.
  unfold ack_bits_of. destruct (re_has_received e); [|split; lia]. apply foldl_lor_fits; [lia|split; lia|].
  intros i Hi%elem_of_seq. unfold ack_bit. destruct (sq_exists _ _ _); [|split; lia].
  rewrite Z.shiftl_1_l. split; [apply Z.pow_nonneg; lia|apply Z.pow_lt_mono_r; lia].
Qed.

(** A packet that did not arrive leaves its bit clear. *)
Lemma ack_bits_clear e i : (i < 32)%nat ->
  sq_exists kAckWindowSize (u16 (re_highest_received e - (Z.of_nat i + 1))) (re_received e) = false ->
  Z.land (foldl (fun bits i => Z.lor bits (ack_bit e i)) 0 (seq 0 32)) (Z.shiftl 1 (Z.of_nat i)) = 0.
Proof.
  intros Hi He. rewrite Z.shiftl_1_l.
  assert (Hbit : Z.testbit (foldl (fun bits i => Z.lor bits (ack_bit e i)) 0 (seq 0 32)) (Z.of_nat i) = false).
  { assert (Hgen : forall l a, Z.testbit a (Z.of_nat i) = false ->
      Z.testbit (foldl (fun bits i => Z.lor bits (ack_bit e i)) a l) (Z.of_nat i) = false).
    { induction l as [|j l IH]; intros a Ha; [done|]. cbn [foldl]. apply IH. rewrite Z.lor_spec, Ha. cbn.
      unfold ack_bit. destruct (sq_exists _ (u16 (_ - (Z.of_nat j + 1))) _) eqn:Ej; [|apply Z.bits_0].
      rewrite Z.shiftl_1_l, Z.pow2_bits_eqb by lia. apply Z.eqb_neq. intros Eji. apply Nat2Z.inj in Eji as ->. congruence. }
    apply Hgen, Z.bits_0. }
  apply Z.bits_inj'. intros n Hn. rewrite Z.land_spec, Z.bits_0, Z.pow2_bits_eqb by lia.
  destruct (Z.eqb_spec (Z.of_nat i) n) as [<-|]; [by rewrite Hbit|apply andb_false_r].
Qed.

Lemma include_count_le fuel remaining size l :
  (include_count fuel remaining size l <= fuel)%nat /\ (include_count fuel remaining size l <= length l)%nat.
Proof.
  revert l. induction fuel as [|fuel IH]; intros l; [cbn; lia|]. destruct l as [|m l]; cbn; [lia|].
  case_match; [lia|]. specialize (IH l). lia.
Qed.

Lemma packet_of_ok out capacity unreliable e : endpoint_ok e -> Forall (fits 8) unreliable ->
  Z.of_nat (length unreliable) < 2 ^ 16 -> packet_ok (packet_of out capacity unreliable e).
Proof.
  intros (Hs & Hh & Hu) Hb Hl. unfold packet_of. generalize (bits_remaining (write_packet_header (re_sequence e)
    (if re_has_received e then re_highest_received e else 0) (ack_bits_of e) (BitWriter_new out capacity))). intros room.
  split; cbn [pk_sequence pk_ack pk_ack_bits pk_messages pk_unreliable]; [done| |apply ack_bits_fits|by apply Forall_take| |done].
  - destruct (re_has_received e); [done|split; lia].
  - rewrite length_take. pose proof (proj1 (include_count_le (Z.to_nat kMaxReliablePerPacket) room
      (Z.of_nat (length unreliable)) (re_unacked e))) as Hc. unfold kMaxReliablePerPacket in *. lia.
Qed.

(** [write_packet] sends that packet when it fits, and in any case spends the
    sequence number and remembers which messages it was given. *)
Lemma write_packet_spec out capacity unreliable now_us e sent :
  endpoint_ok e -> buffer_ok out capacity -> Forall (fits 8) unreliable -> Z.of_nat (length unreliable) < 2 ^ 16 ->
  sq_insert SentPacket_blank kAckWindowSize (re_sequence e) (re_sent e) = Some sent ->
  let p := packet_of out capacity unreliable e in
  let '(result, e') := write_packet out capacity unreliable now_us e in
  (exists f, (forall r, sp_message_ids (f r) = rm_id <$> pk_messages p) /\
     re_sent e' = sq_update kAckWindowSize (re_sequence e) f sent) /\
  re_unacked e' = (bump_sends <$> pk_messages p) ++ drop (length (pk_messages p)) (re_unacked e) /\
  re_sequence e' = u16 (re_sequence e + 1) /\ re_next_message_id e' = re_next_message_id e /\
  re_expected_message_id e' = re_expected_message_id e /\ re_received e' = re_received e /\
  re_reorder_buffer e' = re_reorder_buffer e /\ re_highest_received e' = re_highest_received e /\
  re_has_received e' = re_has_received e /\
  (result <> None <-> Z.of_nat (length (content_bits p)) <= capacity * 8) /\
  forall bytes, result = Some bytes -> bits_of_bytes bytes = content_bits p /\ Forall (fits 8) bytes /\
    Z.of_nat (length bytes) <= capacity.
Proof.
  intros He (Hb & Hc & Hl) Hu Hul Hins. pose proof (packet_of_ok out capacity unreliable e He Hu Hul) as Hp.
  cbv zeta. unfold write_packet. rewrite Hins.
  assert (Hseq : pk_sequence (packet_of out capacity unreliable e) = re_sequence e) by reflexivity.
  set (p := packet_of out capacity unreliable e) in *. clearbody p.
  pose proof (write_content_writes p Hp) as Hw.
  pose proof (packet_fits _ _ Hw _ _ Hb Hc Hl) as Hfit.
  destruct (finish (write_content p (BitWriter_new out capacity))) as [bytes|] eqn:Ef.
  - split; [|unfold record_size, after_build; rewrite Hseq; do 8 (split; [reflexivity|]); split; [exact Hfit|]].
    + eexists (fun r => mkSentPacket now_us (Z.of_nat (length bytes)) false (rm_id <$> pk_messages p)).
      split; [done|]. unfold record_size, after_build, sq_update. rewrite Hseq. cbn. by rewrite list_alter_alter_eq.
    + intros bytes' [= <-]. destruct (packet_bits _ _ Hw _ _ Hb Hc Hl _ Ef) as ((pad & E & Hpad) & Hby & Hlen).
      split; [|done]. destruct (content_aligned p) as [n Hn]. pose proof (f_equal length E) as El.
      rewrite length_bits_of_bytes, length_app, repeat_length, Hn in El.
      replace pad with 0%nat in E by lia. cbn in E. by rewrite app_nil_r in E.
  - split; [|unfold after_build; rewrite Hseq; do 8 (split; [reflexivity|]); split; [exact Hfit|done]].
    eexists (fun _ => mkSentPacket now_us 0 false (rm_id <$> pk_messages p)). split; [done|].
    unfold after_build. by rewrite Hseq.
Qed.

(** ** Two endpoints and a network

    A node is an endpoint with the history a proof can refer to: what the
    application queued and was given, every [write_packet] call in order (its
    index is the packet's unbounded sequence number), and the newest packet of
    the other side it took.  Only [nd_endpoint] is read by the code. *)
Record Sent := mkSent {
  st_packet : Packet;
  st_bytes : option (list Z);
  st_ack : option Z;
  st_ids : list Z
}.

Record Node := mkNode {
  nd_endpoint : ReliableEndpoint;
  nd_queued : list (Z * list Z);
  nd_delivered : list (Z * list Z);
  nd_sent : list Sent;
  nd_highest : option Z
}.

Definition node_new : Node := mkNode ReliableEndpoint_new [] [] [] None.

(** The newest number below [next] that wraps to [id]. *)
Definition unwrap_id (next id : Z) : Z := next - 1 - u16 (next - 1 - id).

Definition message_content (m : ReliableMessage) : Z * list Z := (rm_channel m, rm_payload m).

Definition node_queue (channel : Z) (data : list Z) (n : Node) : Node :=
  let size := Z.of_nat (length data) in
  mkNode (queue_reliable channel data (nd_endpoint n))
    (if (size =? 0) || (kMaxReliableMessageSize <? size) then nd_queued n else nd_queued n ++ [(channel, data)])
    (nd_delivered n) (nd_sent n) (nd_highest n).

Definition node_send (out : list Z) (capacity : Z) (unreliable : list Z) (now_us : Z) (n : Node) : Node :=
  let p := packet_of out capacity unreliable (nd_endpoint n) in
  let '(result, e) := write_packet out capacity unreliable now_us (nd_endpoint n) in
  mkNode e (nd_queued n) (nd_delivered n)
    (nd_sent n ++ [mkSent p result (nd_highest n)
       ((fun m => unwrap_id (Z.of_nat (length (nd_queued n))) (rm_id m)) <$> pk_messages p)])
    (nd_highest n).

Definition node_receive (k : Z) (bytes : list Z) (now_us : Z) (n : Node) : Node :=
  match read_packet bytes now_us (nd_endpoint n) with
  | (Some (_, messages), e) =>
      mkNode e (nd_queued n) (nd_delivered n ++ (message_content <$> messages)) (nd_sent n)
        (Some (Z.max k (default k (nd_highest n))))
  | (None, e) => mkNode e (nd_queued n) (nd_delivered n) (nd_sent n) (nd_highest n)
  end.

Definition delivered_count (n : Node) : Z := Z.of_nat (length (nd_delivered n)).
Definition queued_count (n : Node) : Z := Z.of_nat (length (nd_queued n)).
Definition sent_count (n : Node) : Z := Z.of_nat (length (nd_sent n)).

(** What bounded delay means for the packet [st], the [k]-th of the other side,
    when [n] receives it: it is less than half the sequence space away from the
    newest packet taken, its messages are less than half the space away from the
    next one expected, what it acknowledges was sent less than half the space
    ago, and the packets of the acknowledgement window carry messages of the last
    half space.  A packet written before its sender had received anything acknowledges
    packet 0, whether or not that arrived. *)
Record timely (n : Node) (k : Z) (st : Sent) : Prop := {
  ti_sequence L : nd_highest n = Some L -> - 2 ^ 15 < k - L < 2 ^ 15;
  ti_messages m : m ∈ st_ids st -> - 2 ^ 15 < m - delivered_count n < 2 ^ 15;
  ti_ack h : st_ack st = Some h -> sent_count n - h < 2 ^ 15;
  ti_window s st' : nd_sent n !! Z.to_nat s = Some st' -> sent_count n - kAckWindowSize <= s ->
    forall m, m ∈ st_ids st' -> queued_count n - m <= 2 ^ 15;
  ti_blind : st_ack st = None -> sent_count n < 2 ^ 15
}.

(** One action of [n] while the other side is [other]. *)
Inductive acts (other : Node) : Node -> Node -> Prop :=
  | act_queue channel data n :
      fits 8 channel -> Forall (fits 8) data ->
      (forall m, m ∈ re_unacked (nd_endpoint n) -> queued_count n - unwrap_id (queued_count n) (rm_id m) < 2 ^ 15) ->
      acts other n (node_queue channel data n)
  | act_send out capacity unreliable now_us n :
      buffer_ok out capacity -> Forall (fits 8) unreliable -> Z.of_nat (length unreliable) < 2 ^ 16 ->
      acts other n (node_send out capacity unreliable now_us n)
  | act_receive k st bytes now_us n :
      nd_sent other !! k = Some st -> st_bytes st = Some bytes -> timely n (Z.of_nat k) st ->
      acts other n (node_receive (Z.of_nat k) bytes now_us n)
  | act_update now_us n e :
      re_update now_us (nd_endpoint n) = Some e ->
      acts other n (mkNode e (nd_queued n) (nd_delivered n) (nd_sent n) (nd_highest n)).

(** Any interleaving of the two; any packet ever written may arrive, any number
    of times, in any order, or never. *)
Inductive reachable : Node -> Node -> Prop :=
  | reach_start : reachable node_new node_new
  | reach_left a b a' : reachable a b -> acts b a a' -> reachable a' b
  | reach_right a b b' : reachable a b -> acts a b b' -> reachable a b'.

(** *** The invariant of one direction *)
Definition carries (queued : list (Z * list Z)) (m : Z) (message : ReliableMessage) : Prop :=
  rm_id message = u16 m /\ 0 <= m /\ queued !! Z.to_nat m = Some (message_content message).

(** The receiver has message [m]: delivered, or waiting for an earlier one. *)
Definition has (b : Node) (m : Z) : Prop :=
  m < delivered_count b \/
  (m < delivered_count b + 2 ^ 15 /\ is_Some (re_reorder_buffer (nd_endpoint b) !! u16 m)).

Definition entry_ok (x : Z * list Z) : Prop :=
  fits 8 x.1 /\ Forall (fits 8) x.2 /\ Z.of_nat (length x.2) <= kMaxReliableMessageSize.

(** What [b] took of packet [s] of [a]: all its messages. *)
Definition took (a b : Node) (s : Z) : Prop :=
  0 <= s /\ exists st, nd_sent a !! Z.to_nat s = Some st /\ forall m, m ∈ st_ids st -> has b m.

Record outbound (a : Node) : Prop := {
  ob_log : Forall entry_ok (nd_queued a);
  ob_next : re_next_message_id (nd_endpoint a) = u16 (queued_count a);
  ob_sequence : re_sequence (nd_endpoint a) = u16 (sent_count a);
  ob_highest : fits 16 (re_highest_received (nd_endpoint a));
  ob_sent :
    if decide (nd_sent a = []) then re_sent (nd_endpoint a) = sq_new SentPacket_blank kAckWindowSize
    else exists M, represents kAckWindowSize (re_sent (nd_endpoint a)) (sent_count a - 1) M /\
      forall s v, sent_count a - 1 - kAckWindowSize < s <= sent_count a - 1 -> M s = Some v ->
        0 <= s /\ exists st, nd_sent a !! Z.to_nat s = Some st /\ sp_message_ids v = u16 <$> st_ids st;
  ob_wire k st : nd_sent a !! k = Some st ->
    packet_ok (st_packet st) /\ pk_sequence (st_packet st) = u16 (Z.of_nat k) /\
    Forall2 (carries (nd_queued a)) (st_ids st) (pk_messages (st_packet st)) /\
    forall bytes, st_bytes st = Some bytes ->
      bits_of_bytes bytes = content_bits (st_packet st) /\ Forall (fits 8) bytes /\ 8 * Z.of_nat (length bytes) < 2 ^ 31
}.

Record inbound (a b : Node) : Prop := {
  ib_expected : re_expected_message_id (nd_endpoint b) = u16 (delivered_count b);
  ib_prefix : nd_delivered b `prefix_of` nd_queued a;
  ib_reorder id message : re_reorder_buffer (nd_endpoint b) !! id = Some message ->
    exists m, delivered_count b <= m < delivered_count b + 2 ^ 15 /\ id = u16 m /\ carries (nd_queued a) m message;
  ib_drained : re_reorder_buffer (nd_endpoint b) !! u16 (delivered_count b) = None;
  ib_received :
    match nd_highest b with
    | None => re_has_received (nd_endpoint b) = false /\ re_highest_received (nd_endpoint b) = 0 /\
              re_received (nd_endpoint b) = sq_new ReceivedPacket_blank kAckWindowSize
    | Some L => re_has_received (nd_endpoint b) = true /\ re_highest_received (nd_endpoint b) = u16 L /\ took a b L /\
        exists M, represents kAckWindowSize (re_received (nd_endpoint b)) L M /\
          forall s v, L - kAckWindowSize < s <= L -> M s = Some v -> took a b s
    end
}.

(** The acknowledgements in [b]'s packets are true. *)
Definition acks_true (a b : Node) : Prop :=
  forall k st, nd_sent b !! k = Some st ->
    match st_ack st with
    | None => pk_ack (st_packet st) = 0 /\ pk_ack_bits (st_packet st) = 0
    | Some h => pk_ack (st_packet st) = u16 h /\ took a b h /\
        forall i, (i < 32)%nat -> Z.land (pk_ack_bits (st_packet st)) (Z.shiftl 1 (Z.of_nat i)) <> 0 ->
          took a b (h - (Z.of_nat i + 1))
    end.

(** [a]'s packet 0 carried message [m], and [b] wrote a packet before it had received any:
    that packet acknowledges [m] although [b] may not have it. *)
Definition blindly_acked (a b : Node) (m : Z) : Prop :=
  (exists st, nd_sent a !! 0%nat = Some st /\ m ∈ st_ids st) /\ (exists j st, nd_sent b !! j = Some st /\ st_ack st = None).

(** Pending messages, and what can be lost: every message is pending, has arrived, or was
    acknowledged blindly. *)
Definition pending (a b : Node) : Prop :=
  exists U, Forall2 (carries (nd_queued a)) U (re_unacked (nd_endpoint a)) /\ StronglySorted Z.lt U /\
    (forall m, m ∈ U -> queued_count a - m <= 2 ^ 15) /\
    (forall m, 0 <= m < queued_count a -> m ∈ U \/ has b m \/ blindly_acked a b m).

Record direction (a b : Node) : Prop := {
  dr_out : outbound a;
  dr_in : inbound a b;
  dr_acks : acks_true a b;
  dr_pending : pending a b
}.

(** *** Sequence arithmetic *)
Lemma unwrap_id_u16 next m : 0 <= next - 1 - m < 2 ^ 16 -> unwrap_id next (u16 m) = m.
Proof.
  intros H. unfold unwrap_id, wrap. rewrite Zminus_mod_idemp_r, Z.mod_small by lia. lia.
Qed.

Lemma window_ok : 0 < kAckWindowSize < 2 ^ 15 /\ (kAckWindowSize | 2 ^ 16).
Proof. split; [unfold kAckWindowSize; lia|by exists 64]. Qed.

Lemma carries_app queued extra m message : carries queued m message -> carries (queued ++ extra) m message.
Proof. intros (? & ? & H). split; [done|]. split; [done|]. by apply lookup_app_l_Some. Qed.

Lemma carries_lt queued m message : carries queued m message -> 0 <= m < Z.of_nat (length queued).
Proof. intros (_ & ? & H%lookup_lt_Some). lia. Qed.

Lemma carries_in queued U messages m : Forall2 (carries queued) U messages -> m ∈ U ->
  exists message, message ∈ messages /\ carries queued m message.
Proof.
  induction 1 as [|m' message U messages Hc H IH]; [by intros ?%elem_of_nil|].
  intros [->|Hin]%elem_of_cons; [exists message; split; [left|done]|]. destruct (IH Hin) as (x & ? & ?). exists x. split; [by right|done].
Qed.

Lemma carries_bump queued m message : carries queued m message -> carries queued m (bump_sends message).
Proof. by destruct message. Qed.

Lemma carries_ok queued m message : Forall entry_ok queued -> carries queued m message -> message_ok message.
Proof.
  intros Hq (Hid & _ & Hl). rewrite Forall_lookup in Hq. destruct (Hq _ _ Hl) as (? & ? & ?).
  split; [rewrite Hid; apply wrap_range; lia|]. done.
Qed.

(** *** Acknowledged packets leave the pending list *)
Section Acked.
Context (a b : Node).

(** The part of the endpoint the acknowledgements act on. *)
Record out_state (e : ReliableEndpoint) : Prop := {
  os_sent :
    if decide (nd_sent a = []) then re_sent e = sq_new SentPacket_blank kAckWindowSize
    else exists M, represents kAckWindowSize (re_sent e) (sent_count a - 1) M /\
      forall s v, sent_count a - 1 - kAckWindowSize < s <= sent_count a - 1 -> M s = Some v ->
        0 <= s /\ exists st, nd_sent a !! Z.to_nat s = Some st /\ sp_message_ids v = u16 <$> st_ids st;
  os_pending : exists U, Forall2 (carries (nd_queued a)) U (re_unacked e) /\ StronglySorted Z.lt U /\
    (forall m, m ∈ U -> queued_count a - m <= 2 ^ 15) /\
    (forall m, 0 <= m < queued_count a -> m ∈ U \/ has b m \/ blindly_acked a b m)
}.

Lemma erase_pending U unacked m :
  Forall2 (carries (nd_queued a)) U unacked -> (forall m', m' ∈ U -> queued_count a - m' <= 2 ^ 15) ->
  queued_count a - m <= 2 ^ 15 -> m < queued_count a ->
  exists U', Forall2 (carries (nd_queued a)) U' (erase_message (u16 m) unacked) /\ U' `sublist_of` U /\
    (forall m', m' ∈ U -> m' ∈ U' \/ m' = m).
Proof.
  intros HU Hold Hm Hlt. induction HU as [|m1 message U unacked Hc HU IH].
  { exists []. split; [constructor|]. split; [done|auto]. }
  destruct IH as (U' & H1 & H2 & H3); [intros; apply Hold; by right|]. cbn [erase_message].
  pose proof (carries_lt _ _ _ Hc) as Hr. destruct Hc as (Hid & ?). rewrite Hid.
  destruct (Z.eqb_spec (u16 m1) (u16 m)) as [E|Hne].
  - exists U. split; [done|]. split; [by constructor|]. intros m' [->|?]%elem_of_cons; [right|by left].
    apply u16_inj; [|done]. specialize (Hold m1 ltac:(left)). unfold queued_count in *. lia.
  - exists (m1 :: U'). split; [by constructor|]. split; [by constructor|].
    intros m' [->|Hin]%elem_of_cons; [left; left|]. destruct (H3 m' Hin) as [?|?]; [left; by right|by right].
Qed.

Lemma sublist_sorted (l1 l2 : list Z) : l1 `sublist_of` l2 -> StronglySorted Z.lt l2 -> StronglySorted Z.lt l1.
Proof.
  intros Hs. induction Hs as [|x l1 l2 Hs IH|x l1 l2 Hs IH]; [done| |]; intros [H1 H2]%StronglySorted_inv; [|auto].
  constructor; [auto|]. eapply Forall_forall. intros y Hy. rewrite Forall_forall in H2. apply H2.
  by eapply sublist_subseteq in Hy.
Qed.

Lemma erase_all_pending ids U unacked :
  Forall2 (carries (nd_queued a)) U unacked -> StronglySorted Z.lt U ->
  (forall m', m' ∈ U -> queued_count a - m' <= 2 ^ 15) ->
  (forall m, m ∈ ids -> queued_count a - m <= 2 ^ 15 /\ m < queued_count a) ->
  exists U', Forall2 (carries (nd_queued a)) U' (foldl (fun u id => erase_message id u) unacked (u16 <$> ids)) /\
    StronglySorted Z.lt U' /\ (forall m', m' ∈ U' -> queued_count a - m' <= 2 ^ 15) /\
    (forall m', m' ∈ U -> m' ∈ U' \/ m' ∈ ids).
Proof.
  revert U unacked. induction ids as [|m ids IH]; intros U unacked HU Hs Hold Hids.
  { exists U. split; [done|]. split; [done|]. split; [done|auto]. }
  destruct (erase_pending U unacked m HU Hold) as (U1 & H1 & H2 & H3); [apply Hids; left..|].
  destruct (IH U1 (erase_message (u16 m) unacked)) as (U' & G1 & G2 & G3 & G4); [done|by eapply sublist_sorted|..].
  - intros m' Hm'. apply Hold. by eapply sublist_subseteq in Hm'.
  - intros m' Hm'. apply Hids. by right.
  - exists U'. split; [exact G1|]. split; [done|]. split; [done|]. intros m' Hm'. rewrite elem_of_cons.
    destruct (H3 m' Hm') as [Hin|?]; [|tauto]. destruct (G4 m' Hin); tauto.
Qed.

(** All the messages of packet [s] have arrived or were acknowledged blindly. *)
Definition accounted (s : Z) : Prop :=
  0 <= s /\ exists st, nd_sent a !! Z.to_nat s = Some st /\ forall m, m ∈ st_ids st -> has b m \/ blindly_acked a b m.

Lemma took_accounted s : took a b s -> accounted s.
Proof. intros (Hs & st & Hst & Hall). split; [done|]. exists st. split; [done|]. intros m Hm. left. by apply Hall. Qed.

Lemma acked_state s now_us e : out_state e -> accounted s -> sent_count a - s < 2 ^ 15 + 64 ->
  (forall st', nd_sent a !! Z.to_nat s = Some st' -> sent_count a - kAckWindowSize <= s -> forall m, m ∈ st_ids st' ->
     queued_count a - m <= 2 ^ 15) ->
  (forall st', nd_sent a !! Z.to_nat s = Some st' -> forall m, m ∈ st_ids st' -> m < queued_count a) ->
  out_state (on_packet_acked now_us (u16 s) e).
Proof.
  intros [Hsent Hpend] (Hs0 & st & Hst & Hhas) Hrec Hwin Hlt. destruct window_ok as [Hc Hd].
  assert (Hne : nd_sent a <> []) by (intros E; by rewrite E in Hst).
  rewrite decide_False in Hsent by done. destruct Hsent as (M & HM & Hids).
  assert (Hsl : s < sent_count a) by (apply lookup_lt_Some in Hst; unfold sent_count; lia).
  unfold on_packet_acked. rewrite (find_represents kAckWindowSize Hc Hd _ _ _ _ HM) by (unfold kAckWindowSize in *; lia).
  case_bool_decide as Hw; [|by split; [rewrite decide_False by done; eauto|]].
  destruct (M s) as [record|] eqn:EM; [|by split; [rewrite decide_False by done; eauto|]].
  destruct (sp_acked record); [by split; [rewrite decide_False by done; eauto|]|].
  destruct (Hids s record Hw EM) as (_ & st' & Hst' & Hrec'). rewrite Hst in Hst'. injection Hst' as <-.
  split; cbn [re_sent re_unacked set_unacked set_meters set_sent].
  - rewrite decide_False by done. eexists. split; [by apply update_represents|].
    intros s' v Hw'. cbn beta. destruct (Z.eqb_spec s' s) as [->|]; [|by apply Hids]. rewrite EM. cbn. intros [= <-].
    split; [done|]. by exists st.
  - destruct Hpend as (U & HU & Hsort & Hold & Hall). rewrite Hrec'.
    destruct (erase_all_pending (st_ids st) U (re_unacked e) HU Hsort Hold) as (U' & H1 & H2 & H3 & H4).
    { intros m Hm. split; [apply (Hwin st Hst); [lia|done]|by apply (Hlt st)]. }
    exists U'. split; [exact H1|]. split; [done|]. split; [done|]. intros m Hm. destruct (Hall m Hm) as [Hin|?]; [|by right].
    destruct (H4 m Hin) as [?|?]; [by left|right; by apply Hhas].
Qed.
End Acked.

(** All the acknowledgements of one packet. *)
Lemma process_acks_fields ack bits now_us e : let e' := process_acks ack bits now_us e in
  re_sequence e' = re_sequence e /\ re_next_message_id e' = re_next_message_id e /\
  re_expected_message_id e' = re_expected_message_id e /\ re_received e' = re_received e /\
  re_reorder_buffer e' = re_reorder_buffer e /\ re_highest_received e' = re_highest_received e /\
  re_has_received e' = re_has_received e.
Proof.
  assert (H1 : forall s e, let e' := on_packet_acked now_us s e in
    re_sequence e' = re_sequence e /\ re_next_message_id e' = re_next_message_id e /\
    re_expected_message_id e' = re_expected_message_id e /\ re_received e' = re_received e /\
    re_reorder_buffer e' = re_reorder_buffer e /\ re_highest_received e' = re_highest_received e /\
    re_has_received e' = re_has_received e).
  { intros s e0. unfold on_packet_acked. destruct (sq_find _ _ _) as [r|]; [|done]. by destruct (sp_acked r). }
  unfold process_acks. cbv zeta. pose proof (H1 ack e) as E. cbv zeta in E. rewrite <- !(proj1 E).
  assert (H2 : forall l e0, let e' := foldl (fun e i => if negb (Z.land bits (Z.shiftl 1 (Z.of_nat i)) =? 0)
      then on_packet_acked now_us (u16 (ack - (Z.of_nat i + 1))) e else e) e0 l in
    re_sequence e' = re_sequence e0 /\ re_next_message_id e' = re_next_message_id e0 /\
    re_expected_message_id e' = re_expected_message_id e0 /\ re_received e' = re_received e0 /\
    re_reorder_buffer e' = re_reorder_buffer e0 /\ re_highest_received e' = re_highest_received e0 /\
    re_has_received e' = re_has_received e0).
  { induction l as [|i l IH]; intros e0; [done|]. cbn [foldl]. cbv zeta in *.
    destruct (negb _); [|apply IH]. destruct (IH (on_packet_acked now_us (u16 (ack - (Z.of_nat i + 1))) e0)) as (?&?&?&?&?&?&?).
    destruct (H1 (u16 (ack - (Z.of_nat i + 1))) e0) as (?&?&?&?&?&?&?). repeat split; congruence. }
  specialize (H2 (seq 0 32) (on_packet_acked now_us ack e)). cbv zeta in H2.
  destruct H2 as (?&?&?&?&?&?&?), E as (?&?&?&?&?&?&?). repeat split; congruence.
Qed.

Lemma process_acks_state a b h bits now_us e : out_state a b e -> took a b h -> sent_count a - h < 2 ^ 15 ->
  (forall i, (i < 32)%nat -> Z.land bits (Z.shiftl 1 (Z.of_nat i)) <> 0 -> took a b (h - (Z.of_nat i + 1))) ->
  (forall s st', nd_sent a !! Z.to_nat s = Some st' -> sent_count a - kAckWindowSize <= s -> forall m, m ∈ st_ids st' ->
     queued_count a - m <= 2 ^ 15) ->
  (forall s st', nd_sent a !! Z.to_nat s = Some st' -> forall m, m ∈ st_ids st' -> m < queued_count a) ->
  out_state a b (process_acks (u16 h) bits now_us e).
Proof.
  intros He Hh Hrec Hbits Hwin Hlt. unfold process_acks.
  assert (H1 : out_state a b (on_packet_acked now_us (u16 h) e)) by (apply acked_state; auto using took_accounted; [lia|apply Hwin|apply Hlt]).
  assert (Hgen : forall l e0, (forall i, i ∈ l -> (i < 32)%nat) -> out_state a b e0 ->
    out_state a b (foldl (fun e i => if negb (Z.land bits (Z.shiftl 1 (Z.of_nat i)) =? 0)
      then on_packet_acked now_us (u16 (u16 h - (Z.of_nat i + 1))) e else e) e0 l)).
  { induction l as [|i l IH]; intros e0 Hl H0; [done|]. cbn [foldl]. apply IH; [intros j Hj; apply Hl; by right|].
    destruct (Z.eqb_spec (Z.land bits (Z.shiftl 1 (Z.of_nat i))) 0) as [|Hne]; [done|]. cbn [negb].
    assert (Hi : (i < 32)%nat) by (apply Hl; left).
    replace (u16 (u16 h - (Z.of_nat i + 1))) with (u16 (h - (Z.of_nat i + 1))) by (unfold wrap; by rewrite Zminus_mod_idemp_l).
    apply acked_state; auto using took_accounted; [lia|apply Hwin|apply Hlt]. }
  apply Hgen; [|done]. intros i Hi%elem_of_seq. lia.
Qed.

Lemma find_new {T} (blank : T) s : fits 16 s -> sq_find kAckWindowSize s (sq_new blank kAckWindowSize) = None.
Proof.
  intros Hs. destruct window_ok as [Hc Hd]. unfold sq_find, sq_exists, sq_new. cbn [sq_keys].
  rewrite lookup_replicate_2 by (apply index_lt; exact Hc). cbn [default]. rewrite (proj2 (Z.eqb_neq _ _)); [done|].
  change (kEmpty <> s). unfold kEmpty, fits in *. lia.
Qed.

Lemma blind_acks_state a b now_us e : out_state a b e -> sent_count a < 2 ^ 15 ->
  (exists j st, nd_sent b !! j = Some st /\ st_ack st = None) ->
  (forall s st', nd_sent a !! Z.to_nat s = Some st' -> sent_count a - kAckWindowSize <= s -> forall m, m ∈ st_ids st' ->
     queued_count a - m <= 2 ^ 15) ->
  (forall s st', nd_sent a !! Z.to_nat s = Some st' -> forall m, m ∈ st_ids st' -> m < queued_count a) ->
  out_state a b (process_acks 0 0 now_us e).
Proof.
  intros He Hrec Hblind Hwin Hlt. assert (E : process_acks 0 0 now_us e = on_packet_acked now_us (u16 0) e).
  { unfold process_acks. change (u16 0) with 0. generalize (on_packet_acked now_us 0 e) as e0.
    assert (forall l e0, foldl (fun e i => if negb (Z.land 0 (Z.shiftl 1 (Z.of_nat i)) =? 0)
      then on_packet_acked now_us (u16 (0 - (Z.of_nat i + 1))) e else e) e0 l = e0) as Hl; [|intros; apply Hl].
    induction l as [|i l IH]; intros e0; [done|]. cbn [foldl]. rewrite Z.land_0_l. apply IH. }
  rewrite E. destruct (nd_sent a !! 0%nat) as [st|] eqn:Est.
  - apply acked_state; auto; [|lia|apply Hwin|apply Hlt].
    split; [done|]. exists st. split; [done|]. intros m Hm. right. split; [by exists st|done].
  - destruct He as [Hs Hp]. assert (En : nd_sent a = []) by (by destruct (nd_sent a)). rewrite En in Hs. cbn in Hs.
    unfold on_packet_acked. rewrite Hs, find_new by (apply wrap_range; lia). split; [by rewrite En|done].
Qed.

(** *** Messages arriving *)
Section Arriving.
Context (queued : list (Z * list Z)).

(** The buffer holds messages that are ahead, each under its wrapped number. *)
Definition reorder_ok (expected : Z) (reorder : gmap Z ReliableMessage) : Prop :=
  forall id message, reorder !! id = Some message ->
    exists m, expected <= m < expected + 2 ^ 15 /\ id = u16 m /\ carries queued m message.

Definition held (expected : Z) (reorder : gmap Z ReliableMessage) (m : Z) : Prop :=
  m < expected \/ (m < expected + 2 ^ 15 /\ is_Some (reorder !! u16 m)).

Lemma store_message_ok expected reorder m message :
  reorder_ok expected reorder -> carries queued m message -> - 2 ^ 15 < m - expected < 2 ^ 15 ->
  let reorder' := store_message (u16 expected) message reorder in
  reorder_ok expected reorder' /\ held expected reorder' m /\
  forall m', held expected reorder m' -> held expected reorder' m'.
Proof.
  intros Hr Hc Hm. unfold store_message. destruct (Hc) as (Hid & Hm0 & _). rewrite Hid, sequence_greater16_window by lia.
  assert (E : negb (expected <? m) && negb (u16 m =? u16 expected) = (m <? expected)).
  { destruct (Z.ltb_spec expected m), (Z.ltb_spec m expected); try lia; cbn; try done.
    - apply negb_true_iff, Z.eqb_neq. intros E%u16_inj; lia.
    - replace m with expected by lia. by rewrite Z.eqb_refl. }
  rewrite E. cbv zeta. destruct (Z.ltb_spec m expected) as [Hlt|Hge].
  { split; [done|]. split; [by left|done]. }
  destruct (reorder !! u16 m) as [old|] eqn:Eo.
  { split; [done|]. split; [|done]. right. split; [lia|by eexists]. }
  split; [|split].
  - intros id message' Hl. destruct (decide (id = u16 m)) as [->|Hne].
    + rewrite lookup_insert_eq in Hl. injection Hl as <-. exists m. split; [lia|done].
    + rewrite lookup_insert_ne in Hl by done. by apply Hr.
  - right. split; [lia|]. rewrite lookup_insert_eq. by eexists.
  - intros m' [?|[? ?]]; [by left|]. right. split; [done|]. destruct (decide (u16 m' = u16 m)) as [->|Hne].
    + rewrite lookup_insert_eq. by eexists.
    + by rewrite lookup_insert_ne.
Qed.

Lemma store_messages_ok expected reorder ids messages :
  reorder_ok expected reorder -> Forall2 (carries queued) ids messages ->
  (forall m, m ∈ ids -> - 2 ^ 15 < m - expected < 2 ^ 15) ->
  let reorder' := foldl (fun b m => store_message (u16 expected)
    (mkReliableMessage (rm_id m) (rm_channel m) 0 (rm_payload m)) b) reorder messages in
  reorder_ok expected reorder' /\ (forall m, m ∈ ids -> held expected reorder' m) /\
  forall m', held expected reorder m' -> held expected reorder' m'.
Proof.
  intros Hr Hc. revert reorder Hr. induction Hc as [|m message ids messages Hm Hc IH]; intros reorder Hr Hids.
  { split; [done|]. split; [|done]. intros m Hm. by apply elem_of_nil in Hm. }
  cbn [foldl]. destruct (store_message_ok expected reorder m (mkReliableMessage (rm_id message) (rm_channel message) 0
    (rm_payload message)) Hr) as (H1 & H2 & H3); [by destruct message|apply Hids; left|].
  destruct (IH _ H1) as (G1 & G2 & G3); [intros m' Hm'; apply Hids; by right|].
  split; [exact G1|]. split; [|auto]. intros m' [->|Hin]%elem_of_cons; auto.
Qed.

Lemma deliver_loop_ok fuel expected reorder delivered :
  reorder_ok expected reorder -> delivered `prefix_of` queued -> expected = Z.of_nat (length delivered) ->
  let '(out, expected', reorder') := deliver_loop fuel (u16 expected) reorder in
  let next := expected + Z.of_nat (length out) in
  expected' = u16 next /\ delivered ++ (message_content <$> out) `prefix_of` queued /\ reorder_ok next reorder' /\
  (forall m, held expected reorder m -> held next reorder' m) /\
  ((size reorder <= fuel)%nat -> reorder' !! u16 next = None).
Proof.
  revert expected reorder delivered. induction fuel as [|fuel IH]; intros expected reorder delivered Hr Hp He.
  { cbn. rewrite Z.add_0_r, app_nil_r. split; [done|]. split; [done|]. split; [done|]. split; [done|].
    intros Hs. assert (size reorder = 0%nat) as ->%map_size_empty_inv by lia. apply lookup_empty. }
  cbn [deliver_loop]. destruct (reorder !! u16 expected) as [message|] eqn:El.
  - destruct (Hr _ _ El) as (m & Hm & Eid & Hc). apply u16_inj in Eid; [|lia]. subst m.
    destruct Hc as (Hid & Hm0 & Hlook). replace (u16 (u16 expected + 1)) with (u16 (expected + 1)) by (by rewrite u16_add_1).
    assert (Hp' : delivered ++ [message_content message] `prefix_of` queued).
    { destruct Hp as [rest ->]. rewrite lookup_app_r in Hlook by lia.
      replace (Z.to_nat expected - length delivered)%nat with 0%nat in Hlook by lia.
      destruct rest as [|x rest]; [done|]. injection Hlook as ->. exists rest. by rewrite <- app_assoc. }
    specialize (IH (expected + 1) (delete (u16 expected) reorder) (delivered ++ [message_content message])).
    destruct (deliver_loop fuel (u16 (expected + 1)) (delete (u16 expected) reorder)) as [[out expected'] reorder'].
    destruct IH as (H1 & H2 & H3 & H4 & H5); [|exact Hp'|rewrite length_app; cbn; lia|].
    { intros id message' Hl. apply lookup_delete_Some in Hl as [Hne Hl]. destruct (Hr _ _ Hl) as (m & Hm' & -> & Hc).
      exists m. split; [|done]. destruct (decide (m = expected)) as [->|]; [done|lia]. }
    cbn [length fmap list_fmap]. replace (expected + Z.of_nat (S (length out))) with (expected + 1 + Z.of_nat (length out)) by lia.
    split; [done|]. split; [by rewrite <- app_assoc in H2|]. split; [done|]. split.
    + intros m Hh. apply H4. destruct Hh as [?|[? Hs]]; [left; lia|]. destruct (decide (u16 m = u16 expected)) as [E|Hne].
      * destruct (Z.lt_ge_cases m (expected + 1)); [by left|]. apply u16_inj in E; lia.
      * right. split; [lia|]. by rewrite lookup_delete_ne.
    + intros Hs. apply H5. rewrite map_size_delete_Some by (by eexists). lia.
  - rewrite Z.add_0_r, app_nil_r. split; [done|]. split; [done|]. split; [done|]. split; [done|]. done.
Qed.
End Arriving.

(** *** Steps that leave a direction alone *)
Lemma took_mono a b a' b' s : nd_sent a `prefix_of` nd_sent a' -> (forall m, has b m -> has b' m) -> took a b s -> took a' b' s.
Proof.
  intros [l Hl] Hh (Hs & st & Hst & Hall). split; [done|]. exists st. rewrite Hl. split; [by apply lookup_app_l_Some|auto].
Qed.

Record out_same (a a' : Node) : Prop := {
  oe_queued : nd_queued a' = nd_queued a;
  oe_sent : nd_sent a' = nd_sent a;
  oe_next : re_next_message_id (nd_endpoint a') = re_next_message_id (nd_endpoint a);
  oe_sequence : re_sequence (nd_endpoint a') = re_sequence (nd_endpoint a);
  oe_highest : fits 16 (re_highest_received (nd_endpoint a'))
}.

(** [a] changes only what the acknowledgements act on. *)
Lemma direction_out a a' b : direction a b -> out_same a a' -> out_state a b (nd_endpoint a') -> direction a' b.
Proof.
  intros [[H1 H2 H3 Hh H4 H5] [I1 I2 I3 Id I4] Ha Hp] [Eq Es En Eseq Eh] [S1 S2].
  assert (Ht : forall s, took a b s -> took a' b s) by (intros s; apply took_mono; [by rewrite Es|done]).
  split.
  - split; unfold queued_count, sent_count in *; rewrite ?Eq, ?Es, ?En, ?Eseq; auto.
  - split; unfold delivered_count in *; rewrite ?Eq; auto.
    destruct (nd_highest b) as [L|]; [|done]. destruct I4 as (? & ? & ? & M & HM & Hall).
    split; [done|]. split; [done|]. split; [auto|]. exists M. split; [done|eauto].
  - intros k st Hk. specialize (Ha k st Hk). destruct (st_ack st) as [h|]; [|done].
    destruct Ha as (? & ? & ?). split; [done|]. split; auto.
  - destruct S2 as (U & ? & ? & ? & ?). exists U. unfold queued_count, blindly_acked in *. rewrite Eq, Es. done.
Qed.

Record in_same (b b' : Node) : Prop := {
  ie_delivered : nd_delivered b' = nd_delivered b;
  ie_highest : nd_highest b' = nd_highest b;
  ie_expected : re_expected_message_id (nd_endpoint b') = re_expected_message_id (nd_endpoint b);
  ie_reorder : re_reorder_buffer (nd_endpoint b') = re_reorder_buffer (nd_endpoint b);
  ie_received : re_received (nd_endpoint b') = re_received (nd_endpoint b);
  ie_has : re_has_received (nd_endpoint b') = re_has_received (nd_endpoint b);
  ie_newest : re_highest_received (nd_endpoint b') = re_highest_received (nd_endpoint b)
}.

Lemma has_same b b' m : in_same b b' -> has b m <-> has b' m.
Proof. intros [E1 _ _ E2 _ _ _]. unfold has, delivered_count. by rewrite E1, E2. Qed.

Lemma blindly_acked_mono a a' b b' m : nd_sent a `prefix_of` nd_sent a' -> nd_sent b `prefix_of` nd_sent b' ->
  blindly_acked a b m -> blindly_acked a' b' m.
Proof.
  intros [la Ha] [lb Hb] ((st & Hst & Hm) & j & st' & Hst' & Hack). unfold blindly_acked. rewrite Ha, Hb. split.
  - exists st. split; [by apply lookup_app_l_Some|done].
  - exists j, st'. split; [by apply lookup_app_l_Some|done].
Qed.

Lemma direction_in a b b' : direction a b -> in_same b b' -> nd_sent b `prefix_of` nd_sent b' -> acks_true a b' -> direction a b'.
Proof.
  intros [Ho [I1 I2 I3 Id I4] _ (U & P1 & P2 & P3 & P4)] Hin Hpre Ha.
  assert (Hh : forall m, has b m -> has b' m) by (intros m; by apply (has_same b b')).
  destruct Hin as [E1 E2 E3 E4 E5 E6 E7]. split; [done| |done|].
  - split; unfold delivered_count in *; rewrite ?E1, ?E2, ?E3, ?E4, ?E5, ?E6, ?E7; auto.
    destruct (nd_highest b) as [L|]; [|done]. destruct I4 as (? & ? & ? & M & HM & Hall).
    assert (Ht : forall s, took a b s -> took a b' s) by (intros s; by apply took_mono).
    split; [done|]. split; [done|]. split; [auto|]. exists M. split; [done|eauto].
  - exists U. split; [done|]. split; [done|]. split; [done|]. intros m Hm.
    destruct (P4 m Hm) as [?|[?|?]]; [auto|auto|right; right; by eapply (blindly_acked_mono a a b)].
Qed.

Lemma direction_state a b : direction a b -> out_state a b (nd_endpoint a).
Proof. intros [[] _ _ ?]. by split. Qed.

(** *** Queueing and sending *)
Lemma ids_unwrap queued U messages : Forall2 (carries queued) U messages ->
  (forall m, m ∈ U -> Z.of_nat (length queued) - m <= 2 ^ 15) ->
  (fun m => unwrap_id (Z.of_nat (length queued)) (rm_id m)) <$> messages = U.
Proof.
  intros H. induction H as [|m message U messages Hc H IH]; intros Hold; [done|]. rewrite fmap_cons.
  rewrite IH by (intros; apply Hold; by right). f_equal. specialize (Hold m ltac:(left)).
  pose proof (carries_lt _ _ _ Hc). destruct Hc as (-> & _). apply unwrap_id_u16. lia.
Qed.

Lemma carries_ids queued U messages : Forall2 (carries queued) U messages -> rm_id <$> messages = u16 <$> U.
Proof. induction 1 as [|m message U messages (Hid & _) H IH]; [done|]. rewrite !fmap_cons. by rewrite Hid, IH. Qed.

Lemma direction_queue a b channel data : direction a b -> fits 8 channel -> Forall (fits 8) data ->
  (forall m, m ∈ re_unacked (nd_endpoint a) -> queued_count a - unwrap_id (queued_count a) (rm_id m) < 2 ^ 15) ->
  direction (node_queue channel data a) b.
Proof.
  intros Hd Hch Hdata Hspan. unfold node_queue, queue_reliable.
  destruct (_ || _) eqn:Eb; [by destruct a|]. apply orb_false_iff in Eb as [E0 Emax]. apply Z.ltb_ge in Emax.
  destruct Hd as [[H1 H2 H3 Hh H4 H5] [I1 I2 I3 Id I4] Ha (U & P1 & P2 & P3 & P4)].
  set (n := queued_count a) in *.
  assert (Hn : Z.of_nat (length (nd_queued a ++ [(channel, data)])) = n + 1) by (rewrite length_app; cbn; subst n; unfold queued_count; lia).
  split.
  - split; cbn [nd_endpoint nd_queued nd_sent re_next_message_id re_sequence re_highest_received re_sent];
      unfold queued_count, sent_count in *; cbn [nd_queued nd_sent]; auto.
    + apply Forall_app. split; [done|]. by apply Forall_singleton.
    + by rewrite Hn, H2, u16_add_1.
    + intros k st Hk. destruct (H5 k st Hk) as (? & ? & ? & ?). split; [done|]. split; [done|]. split; [|done].
      eapply Forall2_impl; [done|]. intros. by apply carries_app.
  - split; auto.
    + cbn. by apply prefix_app_r.
    + intros id message Hl. destruct (I3 id message Hl) as (m & ? & ? & ?). exists m. split; [done|]. split; [done|]. by apply carries_app.
  - exact Ha.
  - exists (U ++ [n]). cbn [nd_queued nd_endpoint re_unacked]. unfold queued_count. cbn [nd_queued]. rewrite Hn. split; [|split; [|split]].
    + apply Forall2_app; [eapply Forall2_impl; [done|]; intros; by apply carries_app|]. constructor; [|constructor].
      unfold carries. cbn [rm_id message_content rm_channel rm_payload]. split; [by rewrite H2|]. subst n. unfold queued_count.
      split; [lia|]. rewrite Nat2Z.id, lookup_app_r, Nat.sub_diag by lia. done.
    + apply StronglySorted_app_2; [|done|repeat constructor]. intros x1 x2 Hx1 ->%list_elem_of_singleton.
      destruct (carries_in _ _ _ x1 P1 Hx1) as (message & _ & Hc). apply carries_lt in Hc. subst n. unfold queued_count. lia.
    + intros m [Hm| ->%list_elem_of_singleton]%elem_of_app; [|lia].
      destruct (carries_in _ _ _ m P1 Hm) as (message & Hin & Hc).
      pose proof (carries_lt _ _ _ Hc) as Hlt. specialize (P3 m Hm). specialize (Hspan message Hin).
      destruct Hc as (Hid & _). rewrite Hid, unwrap_id_u16 in Hspan by (subst n; unfold queued_count in *; lia). lia.
    + intros m Hm. rewrite elem_of_app, list_elem_of_singleton. destruct (decide (m = n)) as [->|]; [tauto|].
      destruct (P4 m ltac:(lia)) as [?|[?|?]]; tauto.
Qed.

Lemma sent_slot a b (Hd : direction a b) :
  let e := nd_endpoint a in
  exists sent M, sq_insert SentPacket_blank kAckWindowSize (re_sequence e) (re_sent e) = Some sent /\
    represents kAckWindowSize sent (sent_count a) M /\
    (exists v, M (sent_count a) = Some v) /\
    forall s v, sent_count a - kAckWindowSize < s < sent_count a -> M s = Some v ->
      0 <= s /\ exists st, nd_sent a !! Z.to_nat s = Some st /\ sp_message_ids v = u16 <$> st_ids st.
Proof.
  destruct window_ok as [Hc Hdiv]. destruct Hd as [[_ _ Hseq _ Hsent _] _ _ _]. cbv zeta. rewrite Hseq.
  destruct (decide (nd_sent a = [])) as [E|Hne].
  - rewrite Hsent. destruct (represents_new SentPacket_blank kAckWindowSize (sq_new SentPacket_blank kAckWindowSize)
      (sent_count a) Hc Hdiv ltac:(by left)) as (b' & -> & Hb'). eexists b', _. split; [done|]. split; [exact Hb'|].
    cbn beta. rewrite Z.eqb_refl. split; [by eexists|]. intros s v Hs. rewrite (proj2 (Z.eqb_neq _ _)) by lia. done.
  - destruct Hsent as (M & HM & Hall).
    pose proof (insert_represents SentPacket_blank kAckWindowSize Hc Hdiv _ _ M (sent_count a) HM ltac:(lia)) as Hi.
    rewrite (proj2 (Z.leb_gt _ _)) in Hi by lia. destruct Hi as (b' & -> & Hb'). rewrite Z.max_r in Hb' by lia.
    eexists b', _. split; [done|]. split; [exact Hb'|]. unfold insert_map. rewrite Z.eqb_refl. split; [by eexists|].
    intros s v Hs. rewrite (proj2 (Z.eqb_neq _ _)), (proj2 (Z.ltb_ge _ _)) by lia. intros Hv. apply Hall; [lia|done].
Qed.

Lemma endpoint_ok_of a b : direction a b -> endpoint_ok (nd_endpoint a).
Proof.
  intros [[Hlog _ Hseq Hh _ _] _ _ (U & HU & _)]. split; [rewrite Hseq; apply wrap_range; lia|]. split; [done|].
  clear -HU Hlog. induction HU; constructor; [by eapply carries_ok|done].
Qed.

Lemma Forall2_take_drop {A B} (R : A -> B -> Prop) n l k : Forall2 R l k -> Forall2 R (take n l) (take n k) /\ Forall2 R (drop n l) (drop n k).
Proof. intros. split; [by apply Forall2_take|by apply Forall2_drop]. Qed.

Lemma direction_send a b out capacity unreliable now_us : direction a b -> buffer_ok out capacity ->
  Forall (fits 8) unreliable -> Z.of_nat (length unreliable) < 2 ^ 16 ->
  direction (node_send out capacity unreliable now_us a) b.
Proof.
  intros Hd Hbuf Hu Hul. pose proof (endpoint_ok_of a b Hd) as Hep. destruct (sent_slot a b Hd) as (sent & M & Hins & HM & (v0 & Hv0) & Hold).
  pose proof (write_packet_spec out capacity unreliable now_us (nd_endpoint a) sent Hep Hbuf Hu Hul Hins) as Hspec. cbv zeta in Hspec.
  pose proof (packet_of_ok out capacity unreliable (nd_endpoint a) Hep Hu Hul) as Hpk.
  assert (Hpre : exists n, pk_messages (packet_of out capacity unreliable (nd_endpoint a)) = take n (re_unacked (nd_endpoint a)))
    by (eexists; reflexivity).
  assert (Hpseq : pk_sequence (packet_of out capacity unreliable (nd_endpoint a)) = re_sequence (nd_endpoint a)) by reflexivity.
  unfold node_send. destruct (write_packet _ _ _ _ _) as [result e'].
  set (p := packet_of out capacity unreliable (nd_endpoint a)) in *. clearbody p.
  destruct Hspec as ((f & Hf & Hsent') & Hun & Hseq' & Hnext' & _ & _ & _ & Hhi' & _ & _ & Hbytes).
  destruct Hd as [[H1 H2 H3 Hh H4 H5] [I1 I2 I3 Id I4] Ha (U & P1 & P2 & P3 & P4)].
  destruct Hpre as [n Hn].
  set (ids := (fun m => unwrap_id (Z.of_nat (length (nd_queued a))) (rm_id m)) <$> pk_messages p).
  destruct (Forall2_take_drop _ n _ _ P1) as [T1 T2]. rewrite <- Hn in T1.
  assert (Hids : ids = take n U).
  { apply ids_unwrap; [exact T1|]. intros m Hm. apply P3. by apply elem_of_take in Hm as (i & Hi & _); eapply list_elem_of_lookup_2. }
  set (a' := mkNode e' _ _ _ _).
  assert (Hcount : sent_count a' = sent_count a + 1) by (unfold sent_count; subst a'; cbn [nd_sent]; rewrite length_app; cbn; lia).
  assert (Htook : forall s, took a b s -> took a' b s) by (intros s; apply took_mono; [by eexists|done]).
  split.
  - split; [exact H1|by rewrite <- Hnext' in H2| | | |].
    + cbn [nd_endpoint a']. by rewrite Hseq', H3, Hcount, u16_add_1.
    + cbn [nd_endpoint a']. by rewrite Hhi'.
    + cbn [nd_sent nd_endpoint a']. rewrite decide_False by (intros E; by apply app_eq_nil in E as [_ ?]).
      eexists. rewrite Hcount, Hsent', H3. replace (sent_count a + 1 - 1) with (sent_count a) by lia.
      split; [apply update_represents; [apply window_ok..|exact HM|unfold kAckWindowSize; lia]|].
      intros s v Hs. cbn beta. destruct (Z.eqb_spec s (sent_count a)) as [->|Hne].
      * rewrite Hv0. cbn. intros [= <-]. split; [unfold sent_count; lia|].
        eexists. split; [apply list_lookup_middle; unfold sent_count; lia|]. cbn [st_ids]. rewrite Hf, Hids.
        by apply carries_ids with (queued := nd_queued a).
      * intros Hv. destruct (Hold s v ltac:(lia) Hv) as (? & st & Hst & ?). split; [done|]. exists st.
        split; [by apply lookup_app_l_Some|done].
    + intros k st. cbn [nd_sent a']. rewrite lookup_app_Some. intros [Hk|[Hlen Hk]]; [by apply H5|].
      apply list_lookup_singleton_Some in Hk as [Hk0 <-]. cbn [st_packet st_bytes st_ids]. split; [done|]. split.
      { rewrite Hpseq, H3. unfold sent_count. do 2 f_equal. lia. }
      split; [cbn [nd_queued a']; fold ids; by rewrite Hids|]. intros bytes Hb. destruct (Hbytes bytes Hb) as (? & ? & ?).
      split; [done|]. split; [done|]. destruct Hbuf as (_ & ? & ?). lia.
  - split; auto. destruct (nd_highest b) as [L|]; [|done]. destruct I4 as (? & ? & ? & M' & HM' & Hall).
    split; [done|]. split; [done|]. split; [auto|]. exists M'. split; [done|eauto].
  - intros k st Hk. specialize (Ha k st Hk). destruct (st_ack st) as [h|]; [|done].
    destruct Ha as (? & ? & ?). split; [done|]. split; auto.
  - exists U. split; [|split; [done|split; [done|]]].
    2: { intros m Hm. destruct (P4 m Hm) as [?|[?|?]]; [by left|by right; left|right; right].
         eapply (blindly_acked_mono a a' b); [by eexists|done|done]. }
    cbn [nd_queued nd_endpoint a']. rewrite Hun.
    replace (drop (length (pk_messages p)) (re_unacked (nd_endpoint a))) with (drop n (re_unacked (nd_endpoint a))).
    2: { rewrite Hn, length_take. destruct (Nat.le_gt_cases n (length (re_unacked (nd_endpoint a)))); [by rewrite Nat.min_l by lia|].
         by rewrite Nat.min_r, !drop_ge by lia. }
    rewrite <- (take_drop n U). apply Forall2_app; [|done]. clear -T1.
    induction T1; constructor; [by apply carries_bump|done].
Qed.

(** The acknowledgements a node writes are true. *)
Lemma direction_acks a b out capacity unreliable now_us : direction a b -> direction b a ->
  buffer_ok out capacity -> Forall (fits 8) unreliable -> Z.of_nat (length unreliable) < 2 ^ 16 ->
  direction a (node_send out capacity unreliable now_us b).
Proof.
  intros Hd Hd' Hbuf Hu Hul. pose proof (endpoint_ok_of b a Hd') as Hep. destruct (sent_slot b a Hd') as (sent & _ & Hins & _).
  pose proof (write_packet_spec out capacity unreliable now_us (nd_endpoint b) sent Hep Hbuf Hu Hul Hins) as Hspec. cbv zeta in Hspec.
  destruct window_ok as [Hc Hdiv].
  assert (Hack : pk_ack (packet_of out capacity unreliable (nd_endpoint b)) =
      (if re_has_received (nd_endpoint b) then re_highest_received (nd_endpoint b) else 0) /\
      pk_ack_bits (packet_of out capacity unreliable (nd_endpoint b)) = ack_bits_of (nd_endpoint b)) by done.
  unfold node_send. destruct (write_packet _ _ _ _ _) as [result e'].
  set (p := packet_of out capacity unreliable (nd_endpoint b)) in *. clearbody p. destruct Hack as [Hack Hbits].
  destruct Hspec as (_ & _ & _ & _ & E1 & E2 & E3 & E4 & E5 & _).
  set (b' := mkNode e' _ _ _ _).
  assert (Hin : in_same b b') by (split; done).
  assert (Htook : forall s, took a b s -> took a b' s).
  { intros s. apply took_mono; [done|]. intros m. by apply (has_same b b'). }
  apply direction_in with (b := b); [done|done|by eexists|].
  destruct Hd as [_ [_ _ _ _ I4] Ha _]. intros k st. cbn [nd_sent b']. rewrite lookup_app_Some.
  intros [Hk|[_ Hk]].
  - specialize (Ha k st Hk). destruct (st_ack st) as [h|]; [|done]. destruct Ha as (? & ? & ?). split; [done|]. split; auto.
  - apply list_lookup_singleton_Some in Hk as [_ <-]. cbn [st_ack st_packet].
    destruct (nd_highest b) as [L|].
    + destruct I4 as (Hhas & Hhi & HL & M & HM & Hall). rewrite Hack, Hbits, Hhas. split; [done|]. split; [auto|].
      intros i Hi Hbit. apply Htook. unfold ack_bits_of in Hbit. rewrite Hhas in Hbit.
      assert (Hex : sq_exists kAckWindowSize (u16 (re_highest_received (nd_endpoint b) - (Z.of_nat i + 1)))
                      (re_received (nd_endpoint b)) = true).
      { destruct (sq_exists _ _ _) eqn:Eex; [done|]. destruct Hbit. by apply ack_bits_clear. }
      rewrite Hhi in Hex. replace (u16 (u16 L - (Z.of_nat i + 1))) with (u16 (L - (Z.of_nat i + 1))) in Hex
        by (unfold wrap; by rewrite Zminus_mod_idemp_l).
      apply (exists_find kAckWindowSize Hc) in Hex as [v Hv]; [|apply HM].
      rewrite (find_represents kAckWindowSize Hc Hdiv _ _ _ _ HM) in Hv by (unfold kAckWindowSize in *; lia).
      rewrite bool_decide_true in Hv by (unfold kAckWindowSize; lia). eapply Hall; [|exact Hv]. unfold kAckWindowSize. lia.
    + destruct I4 as (Hhas & _). rewrite Hack, Hbits. unfold ack_bits_of. by rewrite Hhas.
Qed.

(** *** Receiving *)
(** The endpoint after the bookkeeping of an accepted packet, before its
    acknowledgements and messages. *)
Definition taken (p : Packet) (size now_us : Z) (received : SequenceBuffer ReceivedPacket) (e : ReliableEndpoint) : ReliableEndpoint :=
  set_meters (count_received size (snd (advance_highest (pk_sequence p) e)) (re_meters e))
    (set_received (sq_update kAckWindowSize (pk_sequence p) (fun _ => mkReceivedPacket now_us size) received)
       (fst (advance_highest (pk_sequence p) e)) e).

Definition arrived (p : Packet) (e : ReliableEndpoint) : gmap Z ReliableMessage :=
  foldl (fun b m => store_message (re_expected_message_id e)
    (mkReliableMessage (rm_id m) (rm_channel m) 0 (rm_payload m)) b) (re_reorder_buffer e) (pk_messages p).

Lemma receive_packet_cases p size now_us e :
  receive_packet p size now_us e = (None, e) \/
  exists received, sq_exists kAckWindowSize (pk_sequence p) (re_received e) = false /\
    sq_insert ReceivedPacket_blank kAckWindowSize (pk_sequence p) (re_received e) = Some received /\
    let '(out, expected, reorder) :=
      deliver_loop (base.size (arrived p e)) (re_expected_message_id e) (arrived p e) in
    receive_packet p size now_us e =
      (Some (pk_unreliable p, out),
       set_inbox expected reorder (process_acks (pk_ack p) (pk_ack_bits p) now_us (taken p size now_us received e))).
Proof.
  unfold receive_packet. destruct (sq_exists _ _ _); [by left|].
  destruct (sq_insert _ _ _ _) as [received|]; [|by left]. right. exists received. split; [done|]. split; [done|].
  unfold taken, arrived. destruct (advance_highest (pk_sequence p) e) as [highest n]. cbn [fst snd].
  set (e1 := set_meters _ _).
  destruct (process_acks_fields (pk_ack p) (pk_ack_bits p) now_us e1) as (_ & _ & Ex & _ & Er & _).
  change (re_expected_message_id e1) with (re_expected_message_id e) in Ex.
  change (re_reorder_buffer e1) with (re_reorder_buffer e) in Er.
  revert Ex Er. generalize (process_acks (pk_ack p) (pk_ack_bits p) now_us e1). clear e1. intros e2 Ex Er.
  rewrite Ex, Er. unfold deliver_in_order.
  cbn [re_reorder_buffer re_expected_message_id set_inbox]. set (r := foldl _ _ _).
  by destruct (deliver_loop _ _ _) as [[out ex] ro].
Qed.

Section Receive.
Context (a b : Node) (Hab : direction a b) (Hba : direction b a).
Context (k : nat) (st : Sent) (bytes : list Z) (now_us : Z).
Context (Hst : nd_sent b !! k = Some st) (Hbytes : st_bytes st = Some bytes) (Htime : timely a (Z.of_nat k) st).

Let p := st_packet st.
Let e := nd_endpoint a.
Let size := Z.of_nat (length bytes).

Lemma recv_eq : read_packet bytes now_us e = receive_packet p size now_us e.
Proof.
  destruct (ob_wire _ (dr_out _ _ Hba) k st Hst) as (Hp & _ & _ & Hw). destruct (Hw bytes Hbytes) as (H1 & H2 & H3).
  by apply read_packet_content.
Qed.

Lemma recv_out_state received : 
  out_state a b (process_acks (pk_ack p) (pk_ack_bits p) now_us (taken p size now_us received e)).
Proof.
  assert (H0 : out_state a b (taken p size now_us received e)) by (destruct (direction_state a b Hab); by split).
  pose proof (dr_acks _ _ Hab k st Hst) as Hack.
  assert (Hlt : forall s st', nd_sent a !! Z.to_nat s = Some st' -> forall m, m ∈ st_ids st' -> m < queued_count a).
  { intros s st' Hs m Hm. destruct (ob_wire _ (dr_out _ _ Hab) _ st' Hs) as (_ & _ & Hc & _).
    destruct (carries_in _ _ _ m Hc Hm) as (x & _ & Hx). apply carries_lt in Hx. unfold queued_count. lia. }
  destruct (st_ack st) as [h|] eqn:Eh.
  - destruct Hack as (Ea & Ht & Hb). subst p. rewrite Ea. apply process_acks_state; auto.
    + by apply (ti_ack _ _ _ Htime).
    + apply (ti_window _ _ _ Htime).
  - destruct Hack as (Ea & Eb). subst p. rewrite Ea, Eb. apply blind_acks_state; auto.
    + by apply (ti_blind _ _ _ Htime).
    + by exists k, st.
    + apply (ti_window _ _ _ Htime).
Qed.

(** What the node holds of the other side's messages afterwards. *)
Lemma recv_messages :
  let '(out, expected, reorder) := deliver_loop (base.size (arrived p e)) (re_expected_message_id e) (arrived p e) in
  let next := delivered_count a + Z.of_nat (length out) in
  expected = u16 next /\ nd_delivered a ++ (message_content <$> out) `prefix_of` nd_queued b /\
  reorder_ok (nd_queued b) next reorder /\ reorder !! u16 next = None /\
  (forall m, held (delivered_count a) (re_reorder_buffer e) m -> held next reorder m) /\
  forall m, m ∈ st_ids st -> held next reorder m.
Proof.
  destruct Hba as [[_ _ _ _ _ Hwire] [I1 I2 I3 Id _] _ _]. destruct (Hwire k st Hst) as (_ & _ & Hc & _).
  fold e in I1, I3, Id. fold p in Hc. unfold arrived. rewrite I1.
  destruct (store_messages_ok (nd_queued b) (delivered_count a) (re_reorder_buffer e) (st_ids st) (pk_messages p)) as (R1 & R2 & R3).
  { exact I3. } { exact Hc. } { apply (ti_messages _ _ _ Htime). }
  cbv zeta in R1, R2, R3. set (reorder1 := foldl _ _ _) in *.
  pose proof (deliver_loop_ok (nd_queued b) (base.size reorder1) (delivered_count a) reorder1 (nd_delivered a) R1 I2 eq_refl) as Hd.
  destruct (deliver_loop _ _ _) as [[out expected] reorder]. cbv zeta in Hd. destruct Hd as (D1 & D2 & D3 & D4 & D5).
  split; [done|]. split; [done|]. split; [done|]. split; [by apply D5|]. split; auto.
Qed.

(** The received window after an accepted packet. *)
Lemma recv_window received :
  sq_exists kAckWindowSize (pk_sequence p) (re_received e) = false ->
  sq_insert ReceivedPacket_blank kAckWindowSize (pk_sequence p) (re_received e) = Some received ->
  let L := Z.max (Z.of_nat k) (default (Z.of_nat k) (nd_highest a)) in
  fst (advance_highest (pk_sequence p) e) = u16 L /\
  exists M, represents kAckWindowSize (sq_update kAckWindowSize (pk_sequence p) (fun _ => mkReceivedPacket now_us size) received) L M /\
    forall s v, L - kAckWindowSize < s <= L -> M s = Some v ->
      s = Z.of_nat k \/ took b a s.
Proof.
  destruct window_ok as [Hc Hdiv]. destruct (ob_wire _ (dr_out _ _ Hba) k st Hst) as (_ & Eseq & _). fold p in Eseq.
  rewrite Eseq. pose proof (ib_received _ _ (dr_in _ _ Hba)) as I. fold e in I. cbv zeta.
  destruct (nd_highest a) as [L|] eqn:EL.
  - change (default (Z.of_nat k) (Some L)) with L. destruct I as (Ihas & Ihi & _ & M & HM & Hall). intros _ Hins.
    pose proof (ti_sequence _ _ _ Htime L EL) as Hk.
    pose proof (insert_represents ReceivedPacket_blank kAckWindowSize Hc Hdiv _ _ _ (Z.of_nat k) HM ltac:(lia)) as Hi.
    destruct (Z.leb_spec (Z.of_nat k) (L - kAckWindowSize)) as [Hold|Hnew]; [congruence|].
    destruct Hi as (b' & Hb' & Hrep). rewrite Hb' in Hins. injection Hins as <-. rewrite Z.max_comm. split.
    + unfold advance_highest. rewrite Ihas, Ihi, sequence_greater16_window by lia. cbn [negb].
      destruct (Z.ltb_spec L (Z.of_nat k)); cbn [fst]; f_equal; lia.
    + eexists. split; [apply update_represents; [done..|exact Hrep|lia]|]. intros s v Hs. cbn beta.
      destruct (Z.eqb_spec s (Z.of_nat k)) as [->|Hne]; [by left|]. unfold insert_map.
      rewrite (proj2 (Z.eqb_neq s (Z.of_nat k))) by done. destruct (Z.ltb_spec L s); [done|]. intros Hv. right.
      apply (Hall s v); [lia|done].
  - change (default (Z.of_nat k) None) with (Z.of_nat k). destruct I as (Ihas & _ & Inew). intros _ Hins. rewrite Inew in Hins.
    destruct (represents_new ReceivedPacket_blank kAckWindowSize (sq_new ReceivedPacket_blank kAckWindowSize) (Z.of_nat k) Hc Hdiv
      ltac:(by left)) as (b' & Hb' & Hrep). rewrite Hb' in Hins. injection Hins as <-. rewrite Z.max_id. split.
    + unfold advance_highest. by rewrite Ihas.
    + eexists. split; [apply update_represents; [done..|exact Hrep|unfold kAckWindowSize; lia]|]. intros s v Hs. cbn beta.
      by destruct (Z.eqb_spec s (Z.of_nat k)) as [->|Hne]; [left|].
Qed.

(** The node after a packet it took. *)
Record after_receive (a' : Node) (expected : Z) (out : list ReliableMessage) (reorder : gmap Z ReliableMessage)
    (e2 : ReliableEndpoint) : Prop := {
  ar_queued : nd_queued a' = nd_queued a;
  ar_sent : nd_sent a' = nd_sent a;
  ar_delivered : nd_delivered a' = nd_delivered a ++ (message_content <$> out);
  ar_highest : nd_highest a' = Some (Z.max (Z.of_nat k) (default (Z.of_nat k) (nd_highest a)));
  ar_endpoint : nd_endpoint a' = set_inbox expected reorder e2
}.

Lemma receive_out a' expected out reorder e2 : after_receive a' expected out reorder e2 -> out_state a b e2 ->
  re_sequence e2 = re_sequence e -> re_next_message_id e2 = re_next_message_id e ->
  fits 16 (re_highest_received e2) -> direction a' b.
Proof.
  intros [E1 E2 _ _ E5] [S1 S2] F1 F2 F6. apply direction_out with (a := a); [exact Hab| |].
  - constructor; rewrite ?E5; cbn [set_inbox re_next_message_id re_sequence re_highest_received]; assumption.
  - rewrite E5. constructor; cbn [set_inbox re_sent re_unacked]; assumption.
Qed.

Lemma receive_in a' expected out reorder e2 L : after_receive a' expected out reorder e2 ->
  L = Z.max (Z.of_nat k) (default (Z.of_nat k) (nd_highest a)) ->
  let next := delivered_count a + Z.of_nat (length out) in
  expected = u16 next -> nd_delivered a ++ (message_content <$> out) `prefix_of` nd_queued b ->
  reorder_ok (nd_queued b) next reorder -> reorder !! u16 next = None ->
  (forall m, held (delivered_count a) (re_reorder_buffer e) m -> held next reorder m) ->
  (forall m, m ∈ st_ids st -> held next reorder m) ->
  re_has_received e2 = true -> re_highest_received e2 = u16 L ->
  (exists M, represents kAckWindowSize (re_received e2) L M /\
    forall s v, L - kAckWindowSize < s <= L -> M s = Some v -> s = Z.of_nat k \/ took b a s) ->
  direction b a'.
Proof.
  intros [E1 E2 E3 E4 E5] EL next G1 G2 G3 G4 G5 G6 F7 F6 (M & HM & Hall).
  assert (Hcount : delivered_count a' = next).
  { unfold delivered_count. rewrite E3, length_app, length_fmap. subst next. unfold delivered_count. lia. }
  assert (Hh : forall m, held next reorder m -> has a' m).
  { intros m Hm. unfold has. rewrite Hcount, E5. cbn [set_inbox re_reorder_buffer]. exact Hm. }
  assert (Hhas : forall m, has a m -> has a' m) by (intros m Hm; apply Hh, G5; exact Hm).
  assert (Htook : forall s, took b a s -> took b a' s) by (intros s; apply took_mono; [reflexivity|exact Hhas]).
  assert (Hk : took b a' (Z.of_nat k)).
  { split; [lia|]. exists st. rewrite Nat2Z.id. split; [exact Hst|]. intros m Hm. apply Hh, G6, Hm. }
  destruct Hba as [Hout [_ _ _ _ I4] Ha (U & P1 & P2 & P3 & P4)]. constructor; [exact Hout| | |].
  - constructor; rewrite ?Hcount, ?E3, ?E4, ?E5, <- ?EL; cbn [set_inbox re_expected_message_id re_reorder_buffer]; try assumption.
    cbn [set_inbox re_has_received re_highest_received re_received].
    split; [exact F7|]. split; [exact F6|]. split.
    + destruct (nd_highest a) as [L'|]; subst L; [|rewrite Z.max_id; exact Hk].
      change (default (Z.of_nat k) (Some L')) with L'.
      destruct (Z.max_spec (Z.of_nat k) L') as [[_ ->]|[_ ->]]; [apply Htook, I4|exact Hk].
    + exists M. split; [exact HM|]. intros s v Hs Hv. destruct (Hall s v Hs Hv) as [->|?]; auto.
  - intros j st' Hj. rewrite E2 in Hj. specialize (Ha j st' Hj). destruct (st_ack st') as [h|]; [|exact Ha]. destruct Ha as (? & ? & ?).
    split; [assumption|]. split; auto.
  - exists U. split; [exact P1|]. split; [exact P2|]. split; [exact P3|]. intros m Hm.
    destruct (P4 m Hm) as [?|[?|?]]; [auto|auto|right; right]. eapply (blindly_acked_mono b b a); [done|by rewrite E2|done].
Qed.

Lemma direction_receive : direction (node_receive (Z.of_nat k) bytes now_us a) b /\ direction b (node_receive (Z.of_nat k) bytes now_us a).
Proof.
  pose proof recv_eq as Hrd. unfold node_receive. fold e. rewrite Hrd.
  destruct (receive_packet_cases p size now_us e) as [->|(received & Hex & Hins & Hres)]; [by destruct a|].
  pose proof recv_messages as Hmsg. destruct (deliver_loop _ _ _) as [[out expected] reorder]. rewrite Hres.
  destruct (recv_window received Hex Hins) as (Hhi & M & HM & Hall). cbv zeta in *.
  destruct Hmsg as (G1 & G2 & G3 & G4 & G5 & G6).
  pose proof (recv_out_state received) as Hos.
  destruct (process_acks_fields (pk_ack p) (pk_ack_bits p) now_us (taken p size now_us received e)) as (F1 & F2 & F3 & F4 & F5 & F6 & F7).
  change (re_received (taken p size now_us received e)) with
    (sq_update kAckWindowSize (pk_sequence p) (fun _ => mkReceivedPacket now_us size) received) in F4.
  change (re_highest_received (taken p size now_us received e)) with (fst (advance_highest (pk_sequence p) e)) in F6.
  change (re_has_received (taken p size now_us received e)) with true in F7.
  change (re_sequence (taken p size now_us received e)) with (re_sequence e) in F1.
  change (re_next_message_id (taken p size now_us received e)) with (re_next_message_id e) in F2.
  revert Hos F1 F2 F4 F6 F7. clear Hres F3 F5. generalize (process_acks (pk_ack p) (pk_ack_bits p) now_us (taken p size now_us received e)).
  intros e2 Hos F1 F2 F4 F6 F7. rewrite Hhi in F6. rewrite <- F4 in HM.
  match goal with |- direction ?x _ /\ _ => assert (Har : after_receive x expected out reorder e2) by (constructor; reflexivity) end.
  split.
  - apply (receive_out _ _ _ _ _ Har Hos F1 F2). rewrite F6. apply wrap_range. lia.
  - apply (receive_in _ _ _ _ _ _ Har eq_refl G1 G2 G3 G4 G5 G6 F7 F6). exists M. split; [exact HM|exact Hall].
Qed.
End Receive.

(** *** Every reachable pair *)
Lemma update_fields now_us e e' : re_update now_us e = Some e' ->
  re_sequence e' = re_sequence e /\ re_next_message_id e' = re_next_message_id e /\
  re_expected_message_id e' = re_expected_message_id e /\ re_sent e' = re_sent e /\ re_received e' = re_received e /\
  re_unacked e' = re_unacked e /\ re_reorder_buffer e' = re_reorder_buffer e /\
  re_highest_received e' = re_highest_received e /\ re_has_received e' = re_has_received e.
Proof.
  unfold re_update. generalize (start_window now_us (re_meters e)). intros m.
  destruct (loss_loop _ _ _ _ _) as [[cursor lost]|]; [|done]. cbn [mbind option_bind mret option_ret].
  generalize (if u64 (now_us - mt_rate_window_start_us (count_lost lost m)) <? kRateWindowUs then count_lost lost m
    else close_window now_us (count_lost lost m)).
  intros m' [= <-]. repeat split.
Qed.

Lemma node_new_direction : direction node_new node_new.
Proof.
  constructor.
  - constructor; try done; split; cbn; lia.
  - constructor; done.
  - intros k st H. cbn in H. by rewrite lookup_nil in H.
  - exists []. split; [constructor|]. split; [constructor|]. split; [intros m Hm; by apply elem_of_nil in Hm|].
    intros m Hm. unfold queued_count in Hm. cbn in Hm. lia.
Qed.

Lemma direction_update a b e now_us : direction a b -> direction b a -> re_update now_us (nd_endpoint a) = Some e ->
  let a' := mkNode e (nd_queued a) (nd_delivered a) (nd_sent a) (nd_highest a) in direction a' b /\ direction b a'.
Proof.
  intros Hab Hba (E1 & E2 & E3 & E4 & E5 & E6 & E7 & E8 & E9)%update_fields a'. split.
  - apply (direction_out a); [exact Hab| |].
    + constructor; cbn [a' nd_endpoint nd_queued nd_sent]; try assumption; try reflexivity.
      rewrite E8. apply (ob_highest a), Hab.
    + destruct (direction_state a b Hab) as [S1 S2].
      constructor; cbn [a' nd_endpoint]; [rewrite E4|rewrite E6]; assumption.
  - apply (direction_in b a); [exact Hba| |done|].
    + constructor; cbn [a' nd_endpoint nd_delivered nd_highest]; try assumption; reflexivity.
    + pose proof (dr_acks b a Hba) as Ha. intros k st Hk. specialize (Ha k st Hk).
      destruct (st_ack st) as [h|]; [|exact Ha]. destruct Ha as (? & (Hs & st' & ? & Hh) & Hb). split; [assumption|].
      assert (Hm : forall m, has a m -> has a' m).
      { intros m. unfold has, delivered_count. cbn [a' nd_delivered nd_endpoint]. rewrite E7. auto. }
      assert (Ht : forall s, took b a s -> took b a' s) by (intros s; apply took_mono; [reflexivity|exact Hm]).
      split; [apply Ht; split; [exact Hs|exists st'; auto]|]. auto.
Qed.

Lemma direction_queue_other a b channel data : direction b a -> direction b (node_queue channel data a).
Proof.
  intros H. pose proof (dr_acks b a H) as Ha. unfold node_queue, queue_reliable. destruct (_ || _); [by destruct a|].
  apply (direction_in b a); [exact H|by constructor|done|]. intros k st Hk. exact (Ha k st Hk).
Qed.

Lemma acts_directions a b a' : acts b a a' -> direction a b -> direction b a -> direction a' b /\ direction b a'.
Proof.
  intros Hact Hab Hba. destruct Hact as [channel data a Hc Hd Hu|out capacity unreliable now_us a Hb Hu Hl|
    k st bytes now_us a Hst Hby Ht|now_us a e He].
  - split; [by apply direction_queue|by apply direction_queue_other].
  - split; [by apply direction_send|by apply direction_acks].
  - by apply (direction_receive a b Hab Hba k st).
  - by apply direction_update with (now_us := now_us).
Qed.

Lemma reachable_directions a b : reachable a b -> direction a b /\ direction b a.
Proof.
  induction 1 as [|a b a' H [IH1 IH2] Hact|a b b' H [IH1 IH2] Hact].
  - split; apply node_new_direction.
  - by apply (acts_directions a b a').
  - destruct (acts_directions b a b' Hact IH2 IH1). by split.
Qed.

(** *** A packet that cannot be built *)
(** The position after a field depends on its width only. *)
Lemma flush_loop_position fuel w : bw_bit_pos (flush_loop fuel w) = bw_bit_pos w /\
  bw_capacity_bits (flush_loop fuel w) = bw_capacity_bits w.
Proof. revert w. induction fuel as [|fuel IH]; intros w; [done|]. cbn. case_match; [done|]. by destruct (IH (flush_byte w)) as [-> ->]. Qed.

Definition same_position (w w' : BitWriter) : Prop :=
  bw_bit_pos w = bw_bit_pos w' /\ bw_capacity_bits w = bw_capacity_bits w'.

Lemma write_bits_position v v' n w w' : same_position w w' -> same_position (write_bits v n w) (write_bits v' n w').
Proof.
  intros [E1 E2]. unfold write_bits. rewrite E1, E2. case_match; [done|]. case_match; [done|].
  unfold same_position. destruct (flush_loop_position flush_fuel (accumulate (if n <? 32 then Z.land v (u32 (Z.shiftl 1 n - 1)) else v) n w)) as [-> ->].
  destruct (flush_loop_position flush_fuel (accumulate (if n <? 32 then Z.land v' (u32 (Z.shiftl 1 n - 1)) else v') n w')) as [-> ->].
  cbn. by rewrite E1, E2.
Qed.

Lemma header_room s a b s' a' b' out capacity :
  bits_remaining (write_packet_header s a b (BitWriter_new out capacity)) =
  bits_remaining (write_packet_header s' a' b' (BitWriter_new out capacity)).
Proof.
  assert (H : same_position (write_packet_header s a b (BitWriter_new out capacity)) (write_packet_header s' a' b' (BitWriter_new out capacity)))
    by (do 3 apply write_bits_position; done).
  unfold bits_remaining. destruct H as [-> ->]. done.
Qed.

Definition payload_sizes (unacked : list ReliableMessage) : list nat := (fun m => length (rm_payload m)) <$> unacked.

Lemma include_count_sizes fuel remaining size l l' : payload_sizes l = payload_sizes l' ->
  include_count fuel remaining size l = include_count fuel remaining size l'.
Proof.
  revert l l'. induction fuel as [|fuel IH]; intros [|m l] [|m' l']; try done. cbn. intros [= -> E].
  case_match; [done|]. f_equal. by apply IH.
Qed.

Lemma message_bits_sizes l l' : payload_sizes l = payload_sizes l' -> length (messages_bits l) = length (messages_bits l').
Proof.
  revert l'. induction l as [|m l IH]; intros [|m' l']; try done. cbn. intros [= Em El].
  unfold messages_bits in *. cbn. rewrite !length_app, (IH l' El). unfold message_bits.
  rewrite !length_app, !length_zbits, !length_bits_of_bytes, Em. done.
Qed.

(** How many bits the next packet takes. *)
Definition packet_bits_needed (out : list Z) (capacity : Z) (unreliable : list Z) (e : ReliableEndpoint) : Z :=
  Z.of_nat (length (content_bits (packet_of out capacity unreliable e))).

Lemma packet_bits_needed_sizes out capacity unreliable e e' :
  payload_sizes (re_unacked e) = payload_sizes (re_unacked e') ->
  packet_bits_needed out capacity unreliable e = packet_bits_needed out capacity unreliable e'.
Proof.
  intros E. unfold packet_bits_needed, packet_of. cbv zeta.
  rewrite (include_count_sizes _ _ _ _ _ E), (header_room _ _ _ (re_sequence e') (if re_has_received e' then re_highest_received e' else 0) (ack_bits_of e')).
  set (n := include_count _ _ _ _). clearbody n. f_equal. unfold content_bits, header_bits.
  cbn [pk_sequence pk_ack pk_ack_bits pk_messages pk_unreliable]. rewrite !length_app, !length_zbits.
  rewrite (message_bits_sizes (take n (re_unacked e)) (take n (re_unacked e'))); [done|].
  unfold payload_sizes in *. by rewrite !fmap_take, E.
Qed.

Lemma write_packet_sizes out capacity unreliable now_us e :
  payload_sizes (re_unacked (write_packet out capacity unreliable now_us e).2) = payload_sizes (re_unacked e).
Proof.
  assert (Hafter : forall sent, payload_sizes (re_unacked (after_build (packet_of out capacity unreliable e) now_us sent e)) = payload_sizes (re_unacked e)).
  { intros sent. assert (Hp : exists n, pk_messages (packet_of out capacity unreliable e) = take n (re_unacked e)) by (by eexists).
    revert Hp. generalize (packet_of out capacity unreliable e). intros p [n Hn]. unfold after_build.
    cbn [re_unacked set_meters set_unacked set_sent set_sequence]. rewrite Hn. unfold payload_sizes.
    transitivity ((fun m => length (rm_payload m)) <$> (take n (re_unacked e) ++ drop n (re_unacked e))); [|by rewrite take_drop].
    rewrite !fmap_app. f_equal; [by rewrite <- list_fmap_compose|]. f_equal.
    rewrite length_take. destruct (Nat.le_gt_cases n (length (re_unacked e))); [by rewrite Nat.min_l by lia|].
    by rewrite Nat.min_r, !drop_ge by lia. }
  unfold write_packet. destruct (sq_insert _ _ _ _) as [sent|]; [|reflexivity].
  destruct (finish _) as [bytes|]; [|apply Hafter]. exact (Hafter sent).
Qed.

(** [n] calls in a row with nothing in between. *)
Fixpoint write_attempts (n : nat) (out : list Z) (capacity : Z) (unreliable : list Z) (now_us : Z) (e : ReliableEndpoint) :
    list (option (list Z)) :=
  match n with
  | O => []
  | S n => let '(result, e) := write_packet out capacity unreliable now_us e in
           result :: write_attempts n out capacity unreliable now_us e
  end.

Lemma write_packet_endpoint_ok out capacity unreliable now_us e : endpoint_ok e ->
  endpoint_ok (write_packet out capacity unreliable now_us e).2.
Proof.
  intros (Hs & Hh & Hu).
  assert (Hseq : fits 16 (u16 (re_sequence e + 1))) by (apply wrap_range; lia).
  assert (Hafter : forall sent, endpoint_ok (after_build (packet_of out capacity unreliable e) now_us sent e)).
  { intros sent. assert (Hp : exists n, pk_messages (packet_of out capacity unreliable e) = take n (re_unacked e)) by (by eexists).
    assert (Hq : pk_sequence (packet_of out capacity unreliable e) = re_sequence e) by reflexivity.
    revert Hp Hq. generalize (packet_of out capacity unreliable e). intros p [n Hn] Hq.
    split; [|split]; cbn [re_sequence re_highest_received re_unacked after_build set_meters set_unacked set_sent set_sequence];
      [by rewrite Hq|exact Hh|].
    apply Forall_app. split; [|by apply Forall_drop]. rewrite Hn, Forall_fmap. eapply Forall_impl; [by apply Forall_take|].
    intros m Hm. exact Hm. }
  unfold write_packet. destruct (sq_insert _ _ _ _) as [sent|]; [|by split; [|split]].
  destruct (finish _) as [bytes|]; exact (Hafter sent).
Qed.

Lemma write_packet_too_big out capacity unreliable now_us e : endpoint_ok e -> buffer_ok out capacity ->
  Forall (fits 8) unreliable -> Z.of_nat (length unreliable) < 2 ^ 16 ->
  capacity * 8 < packet_bits_needed out capacity unreliable e -> (write_packet out capacity unreliable now_us e).1 = None.
Proof.
  intros He (Hb & Hc & Hl) Hu Hul Hbig. pose proof (packet_of_ok out capacity unreliable e He Hu Hul) as Hp.
  pose proof (packet_fits _ _ (write_content_writes _ Hp) _ _ Hb Hc Hl) as Hfit. unfold packet_bits_needed in Hbig.
  unfold write_packet. destruct (sq_insert _ _ _ _) as [sent|]; [|done].
  destruct (finish _) as [bytes|]; [|done]. exfalso. destruct Hfit as [Hfit _]. specialize (Hfit ltac:(done)). lia.
Qed.

(** A small pair for the witnesses: [left] queued a message, sent it, and
    [right] received the packet and answered. *)
Definition buffer : list Z := replicate 64 0.
Definition left_sent : Node := node_send buffer 64 [] 1000 (node_queue 3 [7; 8] node_new).
Definition first_bytes : list Z := default [] (nd_sent left_sent !! 0%nat ≫= st_bytes).
Definition right_took : Node := node_receive 0 first_bytes 2000 node_new.

Lemma left_sent_reachable : reachable left_sent node_new.
Proof.
  apply reach_left with (a := node_queue 3 [7; 8] node_new).
  - apply reach_left with (a := node_new); [constructor|]. apply act_queue; [split; lia|repeat (constructor; [split; lia|]); constructor|].
    intros m Hm. by apply elem_of_nil in Hm.
  - apply act_send; [|constructor|done]. split; [|done]. by apply Forall_replicate; split.
Qed.

Lemma right_took_reachable : reachable left_sent right_took.
Proof.
  apply reach_right with (b := node_new); [apply left_sent_reachable|].
  apply (act_receive left_sent 0%nat (default (mkSent (mkPacket 0 0 0 [] []) None None []) (nd_sent left_sent !! 0%nat)));
    [vm_compute; reflexivity..|].
  split.
  - intros L H. discriminate H.
  - intros m Hm. vm_compute in Hm. apply list_elem_of_singleton in Hm as ->. vm_compute. by split.
  - intros h H. vm_compute in H. discriminate H.
  - intros s st' H. discriminate H.
  - done.
Qed.

(** ** Properties *)
(** C4. Reliable delivery over any network.  Whatever packets are lost,
    duplicated, delayed (by less than half the sequence space: [timely]) or reordered, each side has been given exactly the first
    messages the other side queued, in order and once each.  A message that is queued and
    not yet given to the application is still pending at its sender, or waits in the
    receiver's reorder buffer, or was in the sender's packet 0 while the receiver
    wrote a packet before it had received any: those are the only messages that can
    be lost ([blind_ack_loses] loses one).  So when packet 0 carried no
    message, or the receiver wrote nothing before its first packet arrived, the next
    message in order is pending and will be sent again. *)
Theorem reliable_delivery a b : reachable a b ->
  nd_delivered b `prefix_of` nd_queued a /\ nd_delivered a `prefix_of` nd_queued b /\
  (forall m, delivered_count b <= m < queued_count a ->
     (exists message, message ∈ re_unacked (nd_endpoint a) /\ carries (nd_queued a) m message) \/
     is_Some (re_reorder_buffer (nd_endpoint b) !! u16 m) \/ blindly_acked a b m) /\
  (delivered_count b < queued_count a -> ~ blindly_acked a b (delivered_count b) ->
     exists message, message ∈ re_unacked (nd_endpoint a) /\ carries (nd_queued a) (delivered_count b) message).
Proof.
  intros [[_ [_ I2 _ Id _] _ (U & P1 & _ & _ & P4)] [_ [_ J2 _ _ _] _ _]]%reachable_directions.
  assert (Hall : forall m, delivered_count b <= m < queued_count a ->
     (exists message, message ∈ re_unacked (nd_endpoint a) /\ carries (nd_queued a) m message) \/
     is_Some (re_reorder_buffer (nd_endpoint b) !! u16 m) \/ blindly_acked a b m).
  { intros m Hm. destruct (P4 m) as [Hin|[[Hl|[_ Hr]]|?]]; [unfold delivered_count in Hm; lia| |lia|by right; left|by right; right].
    left. by apply (carries_in _ _ _ m P1). }
  split; [done|]. split; [done|]. split; [done|]. intros Hlt Hblind.
  destruct (Hall (delivered_count b) ltac:(lia)) as [?|[Hs|?]]; [done| |done]. rewrite Id in Hs. by destruct Hs.
Qed.

Lemma reliable_delivery_witness :
  nd_delivered right_took = [(3, [7; 8])] /\ nd_delivered right_took `prefix_of` nd_queued left_sent.
Proof.
  split; [vm_compute; reflexivity|]. destruct (reliable_delivery left_sent right_took) as (H & _); [|exact H].
  apply right_took_reachable.
Defined.

(** C20. Progress: when a packet that carries the next message in order is
    accepted, that message (and any that waited for it) is delivered. *)
Theorem delivery_progress a b k st bytes now_us : reachable a b ->
  nd_sent a !! k = Some st -> st_bytes st = Some bytes -> timely b (Z.of_nat k) st ->
  delivered_count b ∈ st_ids st -> fst (read_packet bytes now_us (nd_endpoint b)) <> None ->
  delivered_count b < delivered_count (node_receive (Z.of_nat k) bytes now_us b).
Proof.
  intros [Hab Hba]%reachable_directions Hst Hbytes Htime Hnext Hacc.
  pose proof (recv_eq b a Hab k st bytes now_us Hst Hbytes) as Hrd.
  pose proof (recv_messages b a Hab k st Hst Htime) as Hmsg.
  unfold node_receive. rewrite Hrd in *.
  destruct (receive_packet_cases (st_packet st) (Z.of_nat (length bytes)) now_us (nd_endpoint b)) as [E|(received & _ & _ & Hres)];
    [by rewrite E in Hacc|].
  destruct (deliver_loop _ _ _) as [[out expected] reorder]. rewrite Hres. destruct Hmsg as (_ & _ & _ & G4 & _ & G6).
  unfold delivered_count at 2. cbn [nd_delivered]. rewrite length_app, length_fmap, Nat2Z.inj_add. fold (delivered_count b).
  destruct out as [|m out]; [|cbn; lia]. exfalso. cbn [length] in *. rewrite Z.add_0_r in *.
  destruct (G6 _ Hnext) as [?|[_ Hs]]; [lia|]. rewrite G4 in Hs. by destruct Hs.
Qed.

Lemma delivery_progress_witness : delivered_count node_new < delivered_count right_took.
Proof.
  apply (delivery_progress left_sent node_new 0%nat
    (default (mkSent (mkPacket 0 0 0 [] []) None None []) (nd_sent left_sent !! 0%nat)) first_bytes 2000).
  - apply left_sent_reachable.
  - vm_compute; reflexivity.
  - vm_compute; reflexivity.
  - split.
    + intros L H. discriminate H.
    + intros m Hm. vm_compute in Hm. apply list_elem_of_singleton in Hm as ->. vm_compute. by split.
    + intros h H. vm_compute in H. discriminate H.
    + intros s st' H. discriminate H.
    + done.
  - vm_compute. left.
  - vm_compute. discriminate.
Defined.

(** What a packet carries arrives: a packet whose content fits is built, and
    [read_packet] on its bytes does exactly what [receive_packet] does with that
    content (or refuses a sequence it has seen or that left the window); when it
    accepts, the unreliable payload comes out as it went in.  A packet that does
    not fit is not built. *)
Theorem datagram_roundtrip out capacity unreliable now_us e sent receiver arrival_us :
  endpoint_ok e -> buffer_ok out capacity -> Forall (fits 8) unreliable -> Z.of_nat (length unreliable) < 2 ^ 16 ->
  sq_insert SentPacket_blank kAckWindowSize (re_sequence e) (re_sent e) = Some sent ->
  if packet_bits_needed out capacity unreliable e <=? capacity * 8 then
    exists bytes, (write_packet out capacity unreliable now_us e).1 = Some bytes /\ Z.of_nat (length bytes) <= capacity /\
      read_packet bytes arrival_us receiver =
        receive_packet (packet_of out capacity unreliable e) (Z.of_nat (length bytes)) arrival_us receiver /\
      forall payload messages receiver', read_packet bytes arrival_us receiver = (Some (payload, messages), receiver') ->
        payload = unreliable
  else (write_packet out capacity unreliable now_us e).1 = None.
Proof.
  intros He Hbuf Hu Hul Hins. destruct (Z.leb_spec (packet_bits_needed out capacity unreliable e) (capacity * 8)) as [Hfit|Hbig];
    [|by apply write_packet_too_big].
  pose proof (write_packet_spec out capacity unreliable now_us e sent He Hbuf Hu Hul Hins) as Hspec. cbv zeta in Hspec.
  pose proof (packet_of_ok out capacity unreliable e He Hu Hul) as Hp. unfold packet_bits_needed in Hfit.
  assert (Hun : pk_unreliable (packet_of out capacity unreliable e) = unreliable) by reflexivity.
  destruct (write_packet _ _ _ _ _) as [result e']. cbn [fst].
  set (p := packet_of out capacity unreliable e) in *. clearbody p.
  destruct Hspec as (_ & _ & _ & _ & _ & _ & _ & _ & _ & Hres & Hbytes).
  destruct result as [bytes|]; [|by destruct (proj2 Hres Hfit)]. exists bytes.
  destruct (Hbytes bytes eq_refl) as (Hbits & Hfits & Hlen). split; [done|]. split; [done|].
  assert (Hrd : read_packet bytes arrival_us receiver = receive_packet p (Z.of_nat (length bytes)) arrival_us receiver).
  { apply read_packet_content; [done|done| |done]. destruct Hbuf as (_ & Hc & Hl). lia. }
  split; [exact Hrd|]. intros payload messages receiver'. rewrite Hrd.
  destruct (receive_packet_cases p (Z.of_nat (length bytes)) arrival_us receiver) as [->|(received & _ & _ & Hres')]; [by intros ?|].
  destruct (deliver_loop _ _ _) as [[o x] r]. rewrite Hres', Hun. by intros [= <- _ _].
Qed.

Lemma datagram_roundtrip_witness :
  packet_bits_needed buffer 64 [42; 43] ReliableEndpoint_new <= 64 * 8 /\
  exists bytes, (write_packet buffer 64 [42; 43] 1000 ReliableEndpoint_new).1 = Some bytes /\ Z.of_nat (length bytes) <= 64 /\
    read_packet bytes 2000 ReliableEndpoint_new =
      receive_packet (packet_of buffer 64 [42; 43] ReliableEndpoint_new) (Z.of_nat (length bytes)) 2000 ReliableEndpoint_new /\
    forall payload messages receiver', read_packet bytes 2000 ReliableEndpoint_new = (Some (payload, messages), receiver') ->
      payload = [42; 43].
Proof.
  split; [vm_compute; discriminate|].
  apply (datagram_roundtrip buffer 64 [42; 43] 1000 ReliableEndpoint_new
    (default (sq_new SentPacket_blank kAckWindowSize)
      (sq_insert SentPacket_blank kAckWindowSize 0 (sq_new SentPacket_blank kAckWindowSize))) ReliableEndpoint_new 2000).
  - split; [split; cbn; lia|]. split; [split; cbn; lia|constructor].
  - split; [|done]. by apply Forall_replicate; split.
  - repeat (constructor; [split; lia|]). constructor.
  - done.
  - vm_compute; reflexivity.
Defined.

Lemma sequence_greater_distance a b : sequence_greater16 a b = true -> fits 16 a -> fits 16 b ->
  0 < u16 (a - b) <= 2 ^ 15 /\ u16 (a - u16 (b + 1)) = u16 (a - b) - 1.
Proof.
  intros H [A1 A2] [B1 B2]. assert (Hp : 0 < u16 (a - b) <= 2 ^ 15).
  { unfold sequence_greater16 in H. unfold wrap. apply orb_prop in H as [H|H]; apply andb_prop in H as [H1 H2].
    - apply Z.ltb_lt in H1. apply Z.leb_le in H2. rewrite Z.mod_small; lia.
    - apply Z.ltb_lt in H1, H2. rewrite <- (Z.mod_unique (a - b) (2 ^ 16) (-1) (a - b + 2 ^ 16)); lia. }
  split; [done|]. unfold wrap in *. rewrite Zminus_mod_idemp_r. replace (a - (b + 1)) with ((a - b) - 1) by lia.
  rewrite <- Zminus_mod_idemp_l. rewrite Z.mod_small; lia.
Qed.

Lemma loss_loop_total fuel horizon_end cursor sent lost : fits 16 horizon_end -> fits 16 cursor ->
  u16 (horizon_end - cursor) <= Z.of_nat fuel ->
  exists cursor' lost', loss_loop fuel horizon_end cursor sent lost = Some (cursor', lost') /\
    fits 16 cursor' /\ sequence_greater16 horizon_end cursor' = false /\
    lost <= lost' <= lost + Z.of_nat fuel.
Proof.
  intros Hh. revert cursor lost. induction fuel as [|fuel IH]; intros cursor lost Hc Hf; cbn [loss_loop].
  - destruct (sequence_greater16 _ _) eqn:E; [|exists cursor, lost; split; [done|]; split; [done|]; split; [done|lia]].
    destruct (sequence_greater_distance _ _ E Hh Hc). lia.
  - destruct (sequence_greater16 _ _) eqn:E; [|exists cursor, lost; split; [done|]; split; [done|]; split; [done|lia]].
    destruct (sequence_greater_distance _ _ E Hh Hc) as [Hp Hs].
    set (judged := match sq_find _ _ _ with Some _ => _ | None => _ end).
    assert (Hj : 0 <= judged <= 1) by (subst judged; destruct (sq_find _ _ _) as [r|]; [destruct (sp_acked r)|]; lia).
    destruct (IH (u16 (cursor + 1)) (lost + judged)) as (c & l & E' & ? & ? & ?); [apply wrap_range; lia|lia|].
    exists c, l. split; [done|]. split; [done|]. split; [done|lia].
Qed.

(** [update] ends: the loop that judges old packets runs at most once per
    sequence between the cursor and the horizon, leaves the cursor where no
    packet beyond the horizon is unjudged, and changes nothing the delivery of
    messages depends on. *)
Theorem update_terminates now_us e : fits 16 (re_loss_cursor e) ->
  exists e', re_update now_us e = Some e' /\ re_has_loss_cursor e' = true /\ fits 16 (re_loss_cursor e') /\
    sequence_greater16 (u16 (re_sequence e - kLossHorizon)) (re_loss_cursor e') = false /\
    re_unacked e' = re_unacked e /\ re_sent e' = re_sent e /\ re_received e' = re_received e /\
    re_reorder_buffer e' = re_reorder_buffer e.
Proof.
  intros Hc. assert (H : exists e', re_update now_us e = Some e' /\ re_has_loss_cursor e' = true /\ fits 16 (re_loss_cursor e') /\
    sequence_greater16 (u16 (re_sequence e - kLossHorizon)) (re_loss_cursor e') = false).
  { unfold re_update. set (horizon_end := u16 (re_sequence e - kLossHorizon)).
    assert (Hh : fits 16 horizon_end) by (apply wrap_range; lia).
    set (cursor := if re_has_loss_cursor e then re_loss_cursor e else horizon_end).
    assert (Hcur : fits 16 cursor) by (subst cursor; by destruct (re_has_loss_cursor e)).
    destruct (loss_loop_total (loss_fuel horizon_end cursor) horizon_end cursor (re_sent e) 0 Hh Hcur)
      as (c & l & E & Hfc & Hg & _); [unfold loss_fuel; rewrite Z2Nat.id; [lia|apply wrap_range; lia]|].
    rewrite E. cbn [mbind option_bind mret option_ret]. eexists. split; [reflexivity|]. by split; [|split]. }
  destruct H as (e' & He & ? & ? & ?). exists e'. split; [done|]. split; [done|]. split; [done|]. split; [done|].
  by destruct (update_fields now_us e e' He) as (_ & _ & _ & ? & ? & ? & ? & _).
Qed.

Lemma update_terminates_witness : re_loss_cursor ReliableEndpoint_new = 0 /\
  exists e', re_update 1000000 ReliableEndpoint_new = Some e' /\ re_has_loss_cursor e' = true /\ fits 16 (re_loss_cursor e') /\
    sequence_greater16 (u16 (re_sequence ReliableEndpoint_new - kLossHorizon)) (re_loss_cursor e') = false /\
    re_unacked e' = re_unacked ReliableEndpoint_new /\ re_sent e' = re_sent ReliableEndpoint_new /\
    re_received e' = re_received ReliableEndpoint_new /\ re_reorder_buffer e' = re_reorder_buffer ReliableEndpoint_new.
Proof. split; [reflexivity|]. apply (update_terminates 1000000 ReliableEndpoint_new). split; cbn; lia. Defined.

(** The counting loop compares every message with the same free space, so it
    can let in more messages than fit together: then no call builds a packet,
    however often it is repeated, and neither those messages nor anything else
    is sent until an acknowledgement or a reset empties the list. *)
Theorem overflow_stalls n out capacity unreliable now_us e :
  endpoint_ok e -> buffer_ok out capacity -> Forall (fits 8) unreliable -> Z.of_nat (length unreliable) < 2 ^ 16 ->
  capacity * 8 < packet_bits_needed out capacity unreliable e ->
  write_attempts n out capacity unreliable now_us e = replicate n None.
Proof.
  intros He Hbuf Hu Hul. revert e He. induction n as [|n IH]; intros e He Hbig; [done|]. cbn [write_attempts replicate].
  pose proof (write_packet_too_big out capacity unreliable now_us e He Hbuf Hu Hul Hbig) as Hnone.
  pose proof (write_packet_endpoint_ok out capacity unreliable now_us e He) as He'.
  pose proof (write_packet_sizes out capacity unreliable now_us e) as Hsz.
  destruct (write_packet _ _ _ _ _) as [result e']. cbn [fst snd] in *. rewrite Hnone. f_equal. apply IH; [done|].
  by rewrite (packet_bits_needed_sizes out capacity unreliable e' e Hsz).
Qed.

(** Three messages of 500 bytes, each of which fits in a datagram. *)
Definition crowded : ReliableEndpoint :=
  Nat.iter 3 (queue_reliable 1 (replicate 500 0)) ReliableEndpoint_new.

Lemma overflow_stalls_witness : Forall (fun m => Z.of_nat (length (rm_payload m)) = 500) (re_unacked crowded) /\
  write_attempts 5 (replicate 1200 0) 1200 [] 0 crowded = replicate 5 None.
Proof.
  split; [repeat constructor|]. apply (overflow_stalls 5 (replicate 1200 0) 1200 [] 0 crowded).
  - assert (Hm : Forall (fits 8) (replicate 500 0)) by (by apply Forall_replicate; split).
    split; [split; vm_compute; [discriminate|reflexivity]|]. split; [split; vm_compute; [discriminate|reflexivity]|].
    assert (Hok : forall id, fits 16 id -> message_ok (mkReliableMessage id 1 0 (replicate 500 0))).
    { intros id Hid. split; [exact Hid|]. split; [split; cbn; lia|]. split; [exact Hm|]. cbn [rm_payload]. rewrite length_replicate.
      unfold kMaxReliableMessageSize. lia. }
    unfold crowded. cbn [Nat.iter].
    repeat (constructor; [apply Hok; split; vm_compute; [discriminate|reflexivity]|]). constructor.
  - split; [by apply Forall_replicate; split|]. rewrite length_replicate. split; [split|]; vm_compute; try done; discriminate.
  - constructor.
  - done.
  - vm_compute. reflexivity.
Defined.

(** The other side's first packet, written before it received anything. *)
Definition right_idle : Node := node_send buffer 64 [] 1500 node_new.
Definition idle_bytes : list Z := default [] (nd_sent right_idle !! 0%nat ≫= st_bytes).
Definition left_fooled : Node := node_receive 0 idle_bytes 2000 left_sent.

(** Both are states of the two endpoints that the delivery theorem speaks of. *)
Lemma left_fooled_reachable : reachable left_fooled right_idle.
Proof.
  apply reach_left with (a := left_sent).
  - apply reach_right with (b := node_new); [apply left_sent_reachable|]. apply act_send; [|constructor|done].
    split; [|done]. by apply Forall_replicate; split.
  - set (st := default (mkSent (mkPacket 0 0 0 [] []) None None []) (nd_sent right_idle !! 0%nat)).
    apply (act_receive right_idle 0%nat st); [vm_compute; reflexivity..|].
    assert (Ei : st_ids st = []) by (vm_compute; reflexivity).
    assert (Es : st_ids <$> nd_sent left_sent = [[0]]) by (vm_compute; reflexivity).
    assert (Ea : st_ack st = None) by (vm_compute; reflexivity).
    assert (Eh : nd_highest left_sent = None) by (vm_compute; reflexivity).
    clearbody st. assert (Ec : sent_count left_sent = 1 /\ queued_count left_sent = 1) by (vm_compute; by split).
    destruct Ec as [Ec Eq]. constructor.
    { intros L H. rewrite Eh in H. discriminate H. }
    { intros m Hm. rewrite Ei in Hm. destruct (proj1 (elem_of_nil m) Hm). }
    { intros h H. rewrite Ea in H. discriminate H. }
    2:{ intros _. rewrite Ec. lia. }
    intros s st' Hs _ m Hm. rewrite Eq. apply (f_equal (fmap st_ids)) in Hs. rewrite <- list_lookup_fmap, Es in Hs.
    destruct (Z.to_nat s); [|discriminate Hs]. injection Hs as Hs. rewrite <- Hs in Hm. apply list_elem_of_singleton in Hm as ->. lia.
Qed.

(** The one loss the delivery theorem leaves open ([blindly_acked]): a packet written before
    its sender has received anything acknowledges packet 0 all the same.  If packet 0
    was lost, the message it carried leaves the pending list undelivered, and no
    later packet carries it. *)
Theorem blind_ack_loses :
  re_has_received (nd_endpoint right_idle) = false /\
  re_unacked (nd_endpoint left_sent) = [mkReliableMessage 0 3 1 [7; 8]] /\
  fst (read_packet idle_bytes 2000 (nd_endpoint left_sent)) = Some ([], []) /\
  re_unacked (nd_endpoint left_fooled) = [] /\
  nd_delivered right_idle = [] /\ delivered_count right_idle < queued_count left_fooled /\
  pk_messages (packet_of buffer 64 [] (nd_endpoint left_fooled)) = [].
Proof. vm_compute. repeat split. Qed.
