(* ===== verification/Connection.v ===== *)
(** * Connection: the UDP handshake and the connections it makes
    ([src/src/net/connection.h], [connection.cpp], [src/src/net/address.h])

    [ConnectionServer] and [ClientConnection] as state machines over datagrams.
    The socket is what was handed to it ([sv_sent], [cc_sent]) and what it
    delivers (an argument of [receive] and [update]); the random generator
    behind the salts is a parameter, and so are the callbacks of the owner. *)

From S2P Require Import Prelude Bitstream F32 Messages SequenceBuffer Reliability.
From Stdlib Require Import ZArith Lia Bool String.
From stdpp Require Import base tactics numbers list option gmap countable.
#[local] Open Scope Z_scope.

(** ** Addresses, packet types *)
Record Address := mkAddress { ad_ip : Z; ad_port : Z }.

#[export] Instance Address_eq_dec : EqDecision Address.
Proof. solve_decision. Defined.

#[export] Instance Address_countable : Countable Address :=
  inj_countable' (fun a => (ad_ip a, ad_port a)) (fun p => mkAddress p.1 p.2) (fun '(mkAddress ip port) => eq_refl).

Inductive PacketType :=
  | kConnectionRequest | kChallenge | kChallengeResponse | kConnectionAccepted | kConnectionDenied | kPayload | kDisconnect.

Definition type_code (t : PacketType) : Z :=
  match t with
  | kConnectionRequest => 1 | kChallenge => 2 | kChallengeResponse => 3 | kConnectionAccepted => 4
  | kConnectionDenied => 5 | kPayload => 6 | kDisconnect => 7
  end.

(** [static_cast<PacketType>] of a byte that passed the range test. *)
Definition type_of_code (c : Z) : PacketType :=
  if c =? 1 then kConnectionRequest else if c =? 2 then kChallenge else if c =? 3 then kChallengeResponse
  else if c =? 4 then kConnectionAccepted else if c =? 5 then kConnectionDenied else if c =? 6 then kPayload
  else kDisconnect.

Inductive DenyReason := kServerFull | kBadToken | kWrongRegion | kShardDraining.

Definition deny_code (r : DenyReason) : Z :=
  match r with kServerFull => 1 | kBadToken => 2 | kWrongRegion => 3 | kShardDraining => 4 end.

Definition kInvalidEntity : Z := 0.
Definition kHeaderBytes : Z := 5.
Definition kHandshakeTimeoutUs : Z := 5000000.
Definition kConnectionRequestPadding : Z := 1000.
Definition kMaxDatagramSize : Z := 1200.

Abbreviation Datagram := (Address * list Z)%type.

(** ** Datagrams *)
(** The array a packet is built in; its first contents are never sent. *)
Definition packet_buffer (capacity : Z) : list Z := replicate (Z.to_nat capacity) 0.

Definition write_header (capacity : Z) (type : PacketType) : list Z :=
  output (write_u8 (type_code type) (write_u32 kProtocolId (BitWriter_new (packet_buffer capacity) capacity))).

(** A header and, from [buffer + offset], the fields of the packet. *)
Definition build_packet (capacity : Z) (type : PacketType) (fields : BitWriter -> BitWriter) : list Z :=
  let header := write_header capacity type in
  let room := capacity - Z.of_nat (length header) in
  header ++ output (fields (BitWriter_new (packet_buffer room) room)).

Definition read_header (data : list Z) : option PacketType :=
  if Z.of_nat (length data) <? kHeaderBytes then None else
  let r := BitReader_new data (Z.of_nat (length data)) in
  let '(protocol, r) := read_u32 r in
  if negb (protocol =? kProtocolId) then None else
  let '(type, r) := read_u8 r in
  if (type <? 1) || (7 <? type) then None else Some (type_of_code type).

Definition body_of (data : list Z) : list Z := drop (Z.to_nat kHeaderBytes) data.

Definition challenge_packet (client_salt server_salt : Z) : list Z :=
  build_packet 64 kChallenge (fun w => write_u64 server_salt (write_u64 client_salt w)).
Definition denied_packet (reason : DenyReason) : list Z := build_packet 32 kConnectionDenied (write_u8 (deny_code reason)).
Definition accepted_packet (salt client_id entity : Z) : list Z :=
  build_packet 64 kConnectionAccepted (fun w => write_u32 entity (write_u32 client_id (write_u64 salt w))).
Definition disconnect_packet (capacity salt : Z) : list Z := build_packet capacity kDisconnect (write_u64 salt).
Definition request_packet (client_salt : Z) (token : list Z) : list Z :=
  build_packet kMaxDatagramSize kConnectionRequest
    (fun w => write_each (replicate (Z.to_nat kConnectionRequestPadding) 0) (write_bytes token (write_u64 client_salt w))).
Definition response_packet (xor_salt : Z) : list Z := build_packet 64 kChallengeResponse (write_u64 xor_salt).

(** Reading a body: the fields and whether the reader overflowed. *)
Definition read_body {A} (m : Rd A) (body : list Z) : A * bool :=
  let '(a, r) := m (BitReader_new body (Z.of_nat (length body))) in (a, br_overflow r).

(** ** Server state *)
Record Connection := mkConnection {
  cn_client_id : Z;
  cn_address : Address;
  cn_salt : Z;
  cn_token : list Z;
  cn_entity : Z;
  cn_last_receive_us : Z;
  cn_last_send_us : Z;
  cn_connected_at_us : Z;
  cn_disconnecting : bool;
  cn_reliability : ReliableEndpoint
}.

Definition set_reliability (e : ReliableEndpoint) (c : Connection) : Connection :=
  mkConnection (cn_client_id c) (cn_address c) (cn_salt c) (cn_token c) (cn_entity c) (cn_last_receive_us c)
    (cn_last_send_us c) (cn_connected_at_us c) (cn_disconnecting c) e.
Definition set_last_receive (now_us : Z) (c : Connection) : Connection :=
  mkConnection (cn_client_id c) (cn_address c) (cn_salt c) (cn_token c) (cn_entity c) now_us
    (cn_last_send_us c) (cn_connected_at_us c) (cn_disconnecting c) (cn_reliability c).
Definition set_last_send (now_us : Z) (c : Connection) : Connection :=
  mkConnection (cn_client_id c) (cn_address c) (cn_salt c) (cn_token c) (cn_entity c) (cn_last_receive_us c)
    now_us (cn_connected_at_us c) (cn_disconnecting c) (cn_reliability c).
Definition set_entity (entity : Z) (c : Connection) : Connection :=
  mkConnection (cn_client_id c) (cn_address c) (cn_salt c) (cn_token c) entity (cn_last_receive_us c)
    (cn_last_send_us c) (cn_connected_at_us c) (cn_disconnecting c) (cn_reliability c).

Record ServerConfig := mkServerConfig {
  sc_bind : Address;
  sc_max_connections : Z;
  sc_timeout_us : Z;
  sc_keepalive_us : Z
}.

Definition ServerConfig_default : ServerConfig := mkServerConfig (mkAddress 0 0) 4096 5000000 100000.

Record AdmitDecision := mkAdmitDecision { de_admit : bool; de_reason : DenyReason; de_client_id : Z }.

Record PendingHandshake := mkPendingHandshake {
  ph_client_salt : Z;
  ph_server_salt : Z;
  ph_token : list Z;
  ph_started_us : Z
}.

(** The value [pending_[from]] creates. *)
Definition PendingHandshake_blank : PendingHandshake := mkPendingHandshake 0 0 (replicate 32 0) 0.

(** [by_client_] holds pointers into [connections_]; a pointer is the address the
    connection is stored under.  [sv_next_client] is the counter behind
    [next_client_id], [sv_random] how many numbers the generator has produced,
    [sv_sent] everything handed to the socket, [sv_app] the owner's state. *)
Record ConnectionServer (App : Type) := mkServer {
  sv_config : ServerConfig;
  sv_connections : gmap Address Connection;
  sv_pending : gmap Address PendingHandshake;
  sv_by_client : gmap Z Address;
  sv_handshakes_completed : Z;
  sv_handshakes_denied : Z;
  sv_invalid_packets : Z;
  sv_next_client : Z;
  sv_random : nat;
  sv_sent : list Datagram;
  sv_app : App
}.
Arguments mkServer {App}.
Arguments sv_config {App}.
Arguments sv_connections {App}.
Arguments sv_pending {App}.
Arguments sv_by_client {App}.
Arguments sv_handshakes_completed {App}.
Arguments sv_handshakes_denied {App}.
Arguments sv_invalid_packets {App}.
Arguments sv_next_client {App}.
Arguments sv_random {App}.
Arguments sv_sent {App}.
Arguments sv_app {App}.

(** The callbacks the owner installs.  [on_connect_] may use the whole server
    (the world server drops a stale session there); the others only the owner's
    own state.  [None] stands for undefined behaviour in the callback.  [on_admit_] may
    be missing. *)
Record Handlers (App : Type) := mkHandlers {
  on_admit : option (Address -> list Z -> App -> AdmitDecision * App);
  on_connect : Address -> ConnectionServer App -> option (ConnectionServer App);
  on_disconnect : Connection -> string -> App -> App;
  on_payload : Connection -> list Z -> App -> App;
  on_message : Connection -> ReliableMessage -> App -> App
}.
Arguments mkHandlers {App}.
Arguments on_admit {App}.
Arguments on_connect {App}.
Arguments on_disconnect {App}.
Arguments on_payload {App}.
Arguments on_message {App}.

(** ** The server *)
Section Server.
Context {App : Type} (handlers : Handlers App).
(** The output of [std::mt19937_64]. *)
Context (random : nat -> Z).
Abbreviation Server := (ConnectionServer App).

Definition generate_salt (i : nat) : Z := let salt := random i in if salt =? 0 then 1 else salt.

Definition server_new (app : App) : Server :=
  mkServer ServerConfig_default ∅ ∅ ∅ 0 0 0 1 0 [] app.

(** *** Field updates *)
Definition send_to (to : Address) (bytes : list Z) (s : Server) : Server :=
  mkServer (sv_config s) (sv_connections s) (sv_pending s) (sv_by_client s) (sv_handshakes_completed s)
    (sv_handshakes_denied s) (sv_invalid_packets s) (sv_next_client s) (sv_random s) (sv_sent s ++ [(to, bytes)]) (sv_app s).
Definition count_invalid (s : Server) : Server :=
  mkServer (sv_config s) (sv_connections s) (sv_pending s) (sv_by_client s) (sv_handshakes_completed s)
    (sv_handshakes_denied s) (u64 (sv_invalid_packets s + 1)) (sv_next_client s) (sv_random s) (sv_sent s) (sv_app s).
Definition count_denied (s : Server) : Server :=
  mkServer (sv_config s) (sv_connections s) (sv_pending s) (sv_by_client s) (sv_handshakes_completed s)
    (u64 (sv_handshakes_denied s + 1)) (sv_invalid_packets s) (sv_next_client s) (sv_random s) (sv_sent s) (sv_app s).
Definition set_pending (pending : gmap Address PendingHandshake) (s : Server) : Server :=
  mkServer (sv_config s) (sv_connections s) pending (sv_by_client s) (sv_handshakes_completed s)
    (sv_handshakes_denied s) (sv_invalid_packets s) (sv_next_client s) (sv_random s) (sv_sent s) (sv_app s).
Definition set_connections (connections : gmap Address Connection) (s : Server) : Server :=
  mkServer (sv_config s) connections (sv_pending s) (sv_by_client s) (sv_handshakes_completed s)
    (sv_handshakes_denied s) (sv_invalid_packets s) (sv_next_client s) (sv_random s) (sv_sent s) (sv_app s).
Definition set_by_client (by_client : gmap Z Address) (s : Server) : Server :=
  mkServer (sv_config s) (sv_connections s) (sv_pending s) by_client (sv_handshakes_completed s)
    (sv_handshakes_denied s) (sv_invalid_packets s) (sv_next_client s) (sv_random s) (sv_sent s) (sv_app s).
Definition set_app (app : App) (s : Server) : Server :=
  mkServer (sv_config s) (sv_connections s) (sv_pending s) (sv_by_client s) (sv_handshakes_completed s)
    (sv_handshakes_denied s) (sv_invalid_packets s) (sv_next_client s) (sv_random s) (sv_sent s) app.
Definition count_completed (s : Server) : Server :=
  mkServer (sv_config s) (sv_connections s) (sv_pending s) (sv_by_client s) (u64 (sv_handshakes_completed s + 1))
    (sv_handshakes_denied s) (sv_invalid_packets s) (sv_next_client s) (sv_random s) (sv_sent s) (sv_app s).
Definition draw (s : Server) : Z * Server :=
  (generate_salt (sv_random s),
   mkServer (sv_config s) (sv_connections s) (sv_pending s) (sv_by_client s) (sv_handshakes_completed s)
     (sv_handshakes_denied s) (sv_invalid_packets s) (sv_next_client s) (S (sv_random s)) (sv_sent s) (sv_app s)).
(** [counter.fetch_add(1)] on the 32-bit counter. *)
Definition next_client_id (s : Server) : Z * Server :=
  (sv_next_client s,
   mkServer (sv_config s) (sv_connections s) (sv_pending s) (sv_by_client s) (sv_handshakes_completed s)
     (sv_handshakes_denied s) (sv_invalid_packets s) (u32 (sv_next_client s + 1)) (sv_random s) (sv_sent s) (sv_app s)).
Definition start (config : ServerConfig) (s : Server) : Server :=
  mkServer config (sv_connections s) (sv_pending s) (sv_by_client s) (sv_handshakes_completed s)
    (sv_handshakes_denied s) (sv_invalid_packets s) (sv_next_client s) (sv_random s) (sv_sent s) (sv_app s).

Definition set_connection (a : Address) (c : Connection) (s : Server) : Server :=
  set_connections (<[a := c]> (sv_connections s)) s.

(** *** Replies *)
Definition send_challenge (to : Address) (client_salt server_salt : Z) : Server -> Server :=
  send_to to (challenge_packet client_salt server_salt).
Definition send_denied (to : Address) (reason : DenyReason) : Server -> Server := send_to to (denied_packet reason).
Definition send_accepted (c : Connection) : Server -> Server :=
  send_to (cn_address c) (accepted_packet (cn_salt c) (cn_client_id c) (cn_entity c)).

Definition remove_connection (address : Address) (reason : string) (s : Server) : Server :=
  match sv_connections s !! address with
  | None => s
  | Some connection =>
      let s := set_app (on_disconnect handlers connection reason (sv_app s)) s in
      let s := set_by_client (delete (cn_client_id connection) (sv_by_client s)) s in
      set_connections (delete address (sv_connections s)) s
  end.

Definition find (client_id : Z) (s : Server) : option Connection :=
  sv_by_client s !! client_id ≫= fun a => sv_connections s !! a.

Definition disconnect (c : Connection) (reason : string) (s : Server) : Server :=
  let packet := disconnect_packet 32 (cn_salt c) in
  let s := Nat.iter 3 (send_to (cn_address c) packet) s in
  remove_connection (cn_address c) reason s.

(** *** Incoming datagrams *)
Definition handle_connection_request (from : Address) (data : list Z) (now_us : Z) (s : Server) : Server :=
  if Z.of_nat (length data) <? u32 (8 + kConnectTokenBytes + kConnectionRequestPadding) then count_invalid s else
  let '((client_salt, token), overflow) :=
    read_body (client_salt ← read_u64; token ← read_bytes (replicate 32 0); mret (client_salt, token)) data in
  if overflow || (client_salt =? 0) then count_invalid s else
  match sv_connections s !! from with
  | Some existing => send_accepted existing s
  | None =>
      if sc_max_connections (sv_config s) <=? Z.of_nat (size (sv_connections s))
      then count_denied (send_denied from kServerFull s)
      else
        let pending := default PendingHandshake_blank (sv_pending s !! from) in
        let '(pending, s) :=
          if negb (ph_client_salt pending =? client_salt)
          then let '(salt, s) := draw s in (mkPendingHandshake client_salt salt (ph_token pending) now_us, s)
          else (pending, s) in
        let pending := mkPendingHandshake (ph_client_salt pending) (ph_server_salt pending) token (ph_started_us pending) in
        let s := set_pending (<[from := pending]> (sv_pending s)) s in
        send_challenge from (ph_client_salt pending) (ph_server_salt pending) s
  end.

(** The decision of the owner, or to let it in under a fresh id. *)
Definition decide_admission (from : Address) (token : list Z) (s : Server) : AdmitDecision * Server :=
  let '(client_id, s) := next_client_id s in
  match on_admit handlers with
  | Some admission => let '(decision, app) := admission from token (sv_app s) in (decision, set_app app s)
  | None => (mkAdmitDecision true kBadToken client_id, s)
  end.

(** The connection a completed handshake makes, entered in both tables. *)
Definition add_connection (from : Address) (client_id xor_salt : Z) (token : list Z) (now_us : Z) (s : Server) : Server :=
  let connection := mkConnection client_id from xor_salt token kInvalidEntity now_us now_us now_us false ReliableEndpoint_new in
  let s := set_pending (delete from (sv_pending s)) s in
  let s := set_connections (<[from := connection]> (sv_connections s)) s in
  count_completed (set_by_client (<[client_id := from]> (sv_by_client s)) s).

(** [None]: [on_connect_] failed, or it removed the connection that is then used to
    answer, which the code reads after it was freed. *)
Definition handle_challenge_response (from : Address) (data : list Z) (now_us : Z) (s : Server) : option Server :=
  let '(xor_salt, overflow) := read_body read_u64 data in
  if overflow : bool then Some (count_invalid s) else
  match sv_connections s !! from with
  | Some existing => Some (if cn_salt existing =? xor_salt then send_accepted existing s else s)
  | None =>
      match sv_pending s !! from with
      | None => Some (count_invalid s)
      | Some pending =>
          if negb (Z.lxor (ph_client_salt pending) (ph_server_salt pending) =? xor_salt) then Some (count_invalid s) else
          let '(decision, s) := decide_admission from (ph_token pending) s in
          if negb (de_admit decision) then
            Some (count_denied (set_pending (delete from (sv_pending s)) (send_denied from (de_reason decision) s)))
          else
            let '(client_id, s) :=
              if negb (de_client_id decision =? 0) then (de_client_id decision, s) else next_client_id s in
            let s := add_connection from client_id xor_salt (ph_token pending) now_us s in
            s ← on_connect handlers from s;
            connection ← sv_connections s !! from;
            Some (send_accepted connection s)
      end
  end.

Definition deliver (connection : Connection) (payload : list Z) (messages : list ReliableMessage) (app : App) : App :=
  let app := if 0 <? Z.of_nat (length payload) then on_payload handlers connection payload app else app in
  foldl (fun app message => on_message handlers connection message app) app messages.

Definition handle_payload (from : Address) (data : list Z) (now_us : Z) (s : Server) : Server :=
  match sv_connections s !! from with
  | None => count_invalid s
  | Some connection =>
      let '(salt, overflow) := read_body read_u64 data in
      if overflow || negb (salt =? cn_salt connection) then count_invalid s else
      let '(result, endpoint) := read_packet (drop 8 data) now_us (cn_reliability connection) in
      let connection := set_reliability endpoint connection in
      match result with
      | None => set_connection from connection s
      | Some (payload, messages) =>
          let connection := set_last_receive now_us connection in
          let s := set_connection from connection s in
          set_app (deliver connection payload messages (sv_app s)) s
      end
  end.

Definition handle_disconnect (from : Address) (data : list Z) (s : Server) : Server :=
  let '(salt, _) := read_body read_u64 data in
  match sv_connections s !! from with
  | Some connection => if cn_salt connection =? salt then remove_connection from "peer disconnected" s else s
  | None => s
  end.

Definition handle_datagram (from : Address) (data : list Z) (now_us : Z) (s : Server) : option Server :=
  match read_header data with
  | None => Some (count_invalid s)
  | Some kConnectionRequest => Some (handle_connection_request from (body_of data) now_us s)
  | Some kChallengeResponse => handle_challenge_response from (body_of data) now_us s
  | Some kPayload => Some (handle_payload from (body_of data) now_us s)
  | Some kDisconnect => Some (handle_disconnect from (body_of data) s)
  | Some _ => Some (count_invalid s)
  end.

(** The socket loop: the datagrams that are waiting, cut to the buffer; an empty
    one reads as "nothing pending" and ends the loop. *)
Fixpoint receive_loop (waiting : list Datagram) (now_us : Z) (s : Server) : option (Z * Server) :=
  match waiting with
  | [] => Some (0, s)
  | (from, data) :: waiting =>
      let data := take (Z.to_nat kMaxDatagramSize) data in
      if Z.of_nat (length data) <=? 0 then Some (0, s) else
      s ← handle_datagram from data now_us s;
      '(processed, s) ← receive_loop waiting now_us s;
      Some (u32 (processed + 1), s)
  end.

Definition expire_pending (now_us : Z) (s : Server) : Server :=
  set_pending (filter (fun p => ~ kHandshakeTimeoutUs < u64 (now_us - ph_started_us p.2)) (sv_pending s)) s.

Definition receive (waiting : list Datagram) (now_us : Z) (s : Server) : option (Z * Server) :=
  '(processed, s) ← receive_loop waiting now_us s;
  Some (processed, expire_pending now_us s).

(** *** Outgoing *)
(** The datagram of a payload, and the connection after it; [None] when the
    packet could not be built. *)
Definition payload_packet (salt : Z) (data : list Z) (now_us : Z) (e : ReliableEndpoint) : option (list Z) * ReliableEndpoint :=
  let head := build_packet kMaxDatagramSize kPayload (write_u64 salt) in
  let room := kMaxDatagramSize - Z.of_nat (length head) in
  let '(body, e) := write_packet (packet_buffer room) room data now_us e in
  (app head <$> body, e).

Definition send_payload (a : Address) (data : list Z) (now_us : Z) (s : Server) : Server :=
  match sv_connections s !! a with
  | None => s
  | Some connection =>
      let '(packet, endpoint) := payload_packet (cn_salt connection) data now_us (cn_reliability connection) in
      let connection := set_reliability endpoint connection in
      match packet with
      | None => set_connection a connection s
      | Some bytes => send_to (cn_address connection) bytes (set_connection a (set_last_send now_us connection) s)
      end
  end.

(** [update] always returns (theorem [Reliability.update_terminates]). *)
Definition endpoint_update (now_us : Z) (e : ReliableEndpoint) : ReliableEndpoint := default e (re_update now_us e).

Definition flush_connection (now_us : Z) (s : Server) (a : Address) : Server :=
  match sv_connections s !! a with
  | None => s
  | Some connection =>
      let connection := set_reliability (endpoint_update now_us (cn_reliability connection)) connection in
      let s := set_connection a connection s in
      let needs_keepalive := sc_keepalive_us (sv_config s) <=? u64 (now_us - cn_last_send_us connection) in
      if needs_keepalive || has_pending_reliable (cn_reliability connection) then send_payload a [] now_us s else s
  end.

(** The hash map gives its entries in an order of its own; here [map_to_list]'s. *)
Definition addresses (s : Server) : list Address := (map_to_list (sv_connections s)).*1.

Definition flush (now_us : Z) (s : Server) : Server := foldl (flush_connection now_us) s (addresses s).

Definition silent (now_us : Z) (s : Server) (a : Address) : bool :=
  match sv_connections s !! a with
  | Some c => sc_timeout_us (sv_config s) <? u64 (now_us - cn_last_receive_us c)
  | None => false
  end.

Definition timeout_connections (now_us : Z) (s : Server) : Server :=
  let expired := filter (fun a => silent now_us s a) (addresses s) in
  foldl (fun s a => remove_connection a "timed out" s) s expired.

Definition stop (s : Server) : Server :=
  let s := foldl (fun s a => match sv_connections s !! a with
                             | Some c => send_to a (disconnect_packet 64 (cn_salt c)) s
                             | None => s
                             end) s (addresses s) in
  set_pending ∅ (set_by_client ∅ (set_connections ∅ s)).

Definition connection_count (s : Server) : Z := u32 (Z.of_nat (size (sv_by_client s))).
End Server.

(** ** Client *)
Inductive ClientState := kDisconnected | kSendingRequest | kSendingResponse | kConnected | kDenied | kTimedOut.

#[export] Instance ClientState_eq_dec : EqDecision ClientState.
Proof. solve_decision. Defined.

Record ClientConfig := mkClientConfig {
  ccf_server : Address;
  ccf_token : list Z;
  ccf_timeout_us : Z;
  ccf_retry_interval_us : Z;
  ccf_keepalive_us : Z
}.

Record ClientConnection (App : Type) := mkClient {
  cc_config : ClientConfig;
  cc_state : ClientState;
  cc_deny_reason : Z;
  cc_client_salt : Z;
  cc_server_salt : Z;
  cc_last_send_us : Z;
  cc_last_receive_us : Z;
  cc_connect_started_us : Z;
  cc_client_id : Z;
  cc_entity : Z;
  cc_reliability : ReliableEndpoint;
  cc_random : nat;
  cc_sent : list Datagram;
  cc_app : App
}.
Arguments mkClient {App}.
Arguments cc_config {App}.
Arguments cc_state {App}.
Arguments cc_deny_reason {App}.
Arguments cc_client_salt {App}.
Arguments cc_server_salt {App}.
Arguments cc_last_send_us {App}.
Arguments cc_last_receive_us {App}.
Arguments cc_connect_started_us {App}.
Arguments cc_client_id {App}.
Arguments cc_entity {App}.
Arguments cc_reliability {App}.
Arguments cc_random {App}.
Arguments cc_sent {App}.
Arguments cc_app {App}.

Section Client.
Context {App : Type}.
Context (client_on_payload : list Z -> App -> App) (client_on_message : ReliableMessage -> App -> App).
Context (random : nat -> Z).
Abbreviation Client := (ClientConnection App).

Definition xor_salt (c : Client) : Z := Z.lxor (cc_client_salt c) (cc_server_salt c).

Definition set_client_state (st : ClientState) (c : Client) : Client :=
  mkClient (cc_config c) st (cc_deny_reason c) (cc_client_salt c) (cc_server_salt c) (cc_last_send_us c)
    (cc_last_receive_us c) (cc_connect_started_us c) (cc_client_id c) (cc_entity c) (cc_reliability c) (cc_random c)
    (cc_sent c) (cc_app c).
Definition set_endpoint (e : ReliableEndpoint) (c : Client) : Client :=
  mkClient (cc_config c) (cc_state c) (cc_deny_reason c) (cc_client_salt c) (cc_server_salt c) (cc_last_send_us c)
    (cc_last_receive_us c) (cc_connect_started_us c) (cc_client_id c) (cc_entity c) e (cc_random c)
    (cc_sent c) (cc_app c).
Definition client_send (bytes : list Z) (c : Client) : Client :=
  mkClient (cc_config c) (cc_state c) (cc_deny_reason c) (cc_client_salt c) (cc_server_salt c) (cc_last_send_us c)
    (cc_last_receive_us c) (cc_connect_started_us c) (cc_client_id c) (cc_entity c) (cc_reliability c) (cc_random c)
    (cc_sent c ++ [(ccf_server (cc_config c), bytes)]) (cc_app c).
Definition set_sent_time (now : Z) (c : Client) : Client :=
  mkClient (cc_config c) (cc_state c) (cc_deny_reason c) (cc_client_salt c) (cc_server_salt c) now
    (cc_last_receive_us c) (cc_connect_started_us c) (cc_client_id c) (cc_entity c) (cc_reliability c) (cc_random c)
    (cc_sent c) (cc_app c).
Definition set_received_time (now : Z) (c : Client) : Client :=
  mkClient (cc_config c) (cc_state c) (cc_deny_reason c) (cc_client_salt c) (cc_server_salt c) (cc_last_send_us c)
    now (cc_connect_started_us c) (cc_client_id c) (cc_entity c) (cc_reliability c) (cc_random c)
    (cc_sent c) (cc_app c).

(** The state both [start] and [redirect] begin from. *)
Definition begin_handshake (config : ClientConfig) (now : Z) (c : Client) : Client :=
  mkClient config kSendingRequest (cc_deny_reason c) (generate_salt random (cc_random c)) 0 0 now now
    (cc_client_id c) (cc_entity c) (re_reset (cc_reliability c)) (S (cc_random c)) (cc_sent c) (cc_app c).

(** [start]: [opened] is the outcome of opening the socket, [now] the clock. *)
Definition client_start (config : ClientConfig) (opened : bool) (now : Z) (c : Client) : bool * Client :=
  if negb opened
  then (false, mkClient config (cc_state c) (cc_deny_reason c) (cc_client_salt c) (cc_server_salt c) (cc_last_send_us c)
          (cc_last_receive_us c) (cc_connect_started_us c) (cc_client_id c) (cc_entity c) (cc_reliability c) (cc_random c)
          (cc_sent c) (cc_app c))
  else (true, begin_handshake config now c).

Definition redirect (server : Address) (token : list Z) (now : Z) (c : Client) : Client :=
  let config := mkClientConfig server token (ccf_timeout_us (cc_config c)) (ccf_retry_interval_us (cc_config c))
                  (ccf_keepalive_us (cc_config c)) in
  begin_handshake config now c.

Definition send_connection_request (now : Z) (c : Client) : Client :=
  set_sent_time now (client_send (request_packet (cc_client_salt c) (ccf_token (cc_config c))) c).

Definition send_challenge_response (now : Z) (c : Client) : Client :=
  set_sent_time now (client_send (response_packet (xor_salt c)) c).

Definition client_send_payload (data : list Z) (now : Z) (c : Client) : bool * Client :=
  if negb (bool_decide (cc_state c = kConnected)) then (false, c) else
  let '(packet, endpoint) := payload_packet (xor_salt c) data now (cc_reliability c) in
  let c := set_endpoint endpoint c in
  match packet with
  | None => (false, c)
  | Some bytes => (true, client_send bytes (set_sent_time now c))
  end.

Definition client_queue_reliable (channel : Z) (data : list Z) (c : Client) : Client :=
  set_endpoint (queue_reliable channel data (cc_reliability c)) c.

Definition client_deliver (payload : list Z) (messages : list ReliableMessage) (c : Client) : Client :=
  let app := if 0 <? Z.of_nat (length payload) then client_on_payload payload (cc_app c) else cc_app c in
  let app := foldl (fun app message => client_on_message message app) app messages in
  mkClient (cc_config c) (cc_state c) (cc_deny_reason c) (cc_client_salt c) (cc_server_salt c) (cc_last_send_us c)
    (cc_last_receive_us c) (cc_connect_started_us c) (cc_client_id c) (cc_entity c) (cc_reliability c) (cc_random c)
    (cc_sent c) app.

Definition process_challenge (body : list Z) (now : Z) (c : Client) : Client :=
  let '((echoed_client_salt, server_salt), overflow) :=
    read_body (a ← read_u64; b ← read_u64; mret (a, b)) body in
  if overflow || negb (echoed_client_salt =? cc_client_salt c) then c else
  if negb (bool_decide (cc_state c = kSendingRequest)) then c else
  send_challenge_response now
    (mkClient (cc_config c) kSendingResponse (cc_deny_reason c) (cc_client_salt c) server_salt (cc_last_send_us c)
      now (cc_connect_started_us c) (cc_client_id c) (cc_entity c) (cc_reliability c) (cc_random c) (cc_sent c) (cc_app c)).

Definition process_accepted (body : list Z) (now : Z) (c : Client) : Client :=
  let '((salt, (client_id, entity)), overflow) :=
    read_body (a ← read_u64; b ← read_u32; d ← read_u32; mret (a, (b, d))) body in
  if overflow || negb (salt =? xor_salt c) then c else
  mkClient (cc_config c) (if bool_decide (cc_state c = kSendingResponse) then kConnected else cc_state c) (cc_deny_reason c)
    (cc_client_salt c) (cc_server_salt c) (cc_last_send_us c) now (cc_connect_started_us c) client_id entity
    (cc_reliability c) (cc_random c) (cc_sent c) (cc_app c).

Definition process_denied (body : list Z) (c : Client) : Client :=
  let '(reason, overflow) := read_body read_u8 body in
  if overflow : bool then c else
  mkClient (cc_config c) kDenied reason (cc_client_salt c) (cc_server_salt c) (cc_last_send_us c)
    (cc_last_receive_us c) (cc_connect_started_us c) (cc_client_id c) (cc_entity c) (cc_reliability c) (cc_random c)
    (cc_sent c) (cc_app c).

Definition process_disconnect (body : list Z) (c : Client) : Client :=
  let '(salt, overflow) := read_body read_u64 body in
  if negb overflow && (salt =? xor_salt c) then set_client_state kDisconnected c else c.

Definition process_payload (body : list Z) (now : Z) (c : Client) : Client :=
  let '(salt, overflow) := read_body read_u64 body in
  if overflow || negb (salt =? xor_salt c) then c else
  if negb (bool_decide (cc_state c = kConnected)) then c else
  let '(result, endpoint) := read_packet (drop 8 body) now (cc_reliability c) in
  let c := set_endpoint endpoint c in
  match result with
  | None => c
  | Some (payload, messages) => client_deliver payload messages (set_received_time now c)
  end.

Definition process_datagram (data : list Z) (now : Z) (c : Client) : Client :=
  match read_header data with
  | Some kChallenge => process_challenge (body_of data) now c
  | Some kConnectionAccepted => process_accepted (body_of data) now c
  | Some kConnectionDenied => process_denied (body_of data) c
  | Some kDisconnect => process_disconnect (body_of data) c
  | Some kPayload => process_payload (body_of data) now c
  | _ => c
  end.

(** The socket loop of [update]; an empty datagram ends it. *)
Fixpoint drain (waiting : list Datagram) (now : Z) (c : Client) : Client :=
  match waiting with
  | [] => c
  | (from, data) :: waiting =>
      let data := take (Z.to_nat kMaxDatagramSize) data in
      if Z.of_nat (length data) <=? 0 then c
      else drain waiting now
             (if bool_decide (from = ccf_server (cc_config c)) then process_datagram data now c else c)
  end.

Definition active (st : ClientState) : bool :=
  negb (bool_decide (st = kDisconnected) || bool_decide (st = kDenied) || bool_decide (st = kTimedOut)).

(** What [update] sends in each state. *)
Definition client_tick (now : Z) (c : Client) : Client :=
  let due interval := interval <=? u64 (now - cc_last_send_us c) in
  match cc_state c with
  | kSendingRequest => if due (ccf_retry_interval_us (cc_config c)) then send_connection_request now c else c
  | kSendingResponse => if due (ccf_retry_interval_us (cc_config c)) then send_challenge_response now c else c
  | kConnected =>
      if due (ccf_keepalive_us (cc_config c)) || has_pending_reliable (cc_reliability c)
      then snd (client_send_payload [] now c) else c
  | _ => c
  end.

Definition client_update (waiting : list Datagram) (now : Z) (c : Client) : Client :=
  if negb (active (cc_state c)) then c else
  let c := drain waiting now c in
  let c := set_endpoint (endpoint_update now (cc_reliability c)) c in
  let c := client_tick now c in
  if ccf_timeout_us (cc_config c) <? u64 (now - cc_last_receive_us c) then set_client_state kTimedOut c else c.

Definition client_disconnect (c : Client) : Client :=
  if negb (bool_decide (cc_state c = kConnected)) then c else
  set_client_state kDisconnected (Nat.iter 3 (client_send (disconnect_packet 32 (xor_salt c))) c).

Definition client_stop (c : Client) : Client := set_client_state kDisconnected (client_disconnect c).
End Client.

(** ** What the packets say *)
Lemma fresh_bits capacity fields bits k : writes fields bits -> length bits = (8 * k)%nat ->
  Z.of_nat k <= capacity <= 2000 ->
  let out := output (fields (BitWriter_new (packet_buffer capacity) capacity)) in
  bits_of_bytes out = bits /\ Forall (fits 8) out /\ length out = k.
Proof.
  intros Hw Hb Hk. set (buffer := packet_buffer capacity).
  assert (Hl : Z.of_nat (length buffer) = capacity) by (subst buffer; unfold packet_buffer; rewrite length_replicate; lia).
  assert (Hby : Forall (fits 8) buffer) by (by apply Forall_replicate; split).
  pose proof (packet_fits fields bits Hw buffer capacity Hby ltac:(lia) ltac:(lia)) as Hfit.
  destruct (finish (fields (BitWriter_new buffer capacity))) as [bytes|] eqn:Ef.
  - destruct (packet_bits fields bits Hw buffer capacity Hby ltac:(lia) ltac:(lia) _ Ef) as ((pad & E & Hpad) & Hf & _).
    unfold finish in Ef. destruct (bw_overflow _); [done|]. injection Ef as ->. cbv zeta.
    pose proof (f_equal length E) as El. rewrite length_bits_of_bytes, length_app, repeat_length, Hb in El.
    replace pad with 0%nat in E by lia. cbn in E. rewrite app_nil_r in E. split; [done|]. split; [done|]. lia.
  - destruct Hfit as [_ H]. destruct H; [lia|done].
Qed.

Lemma type_code_fits t : fits 8 (type_code t).
Proof. destruct t; split; cbn; lia. Qed.

Definition header_prefix (t : PacketType) : list bool := zbits 32 kProtocolId ++ zbits 8 (type_code t).

Lemma write_header_spec capacity t : 5 <= capacity <= 2000 ->
  bits_of_bytes (write_header capacity t) = header_prefix t /\ Forall (fits 8) (write_header capacity t) /\
  length (write_header capacity t) = 5%nat.
Proof.
  intros Hc. refine (fresh_bits capacity (fun w => write_u8 (type_code t) (write_u32 kProtocolId w)) (header_prefix t) 5 _ _ ltac:(lia)).
  - apply (writes_comp (write_u32 kProtocolId) _ (write_u8 (type_code t))); [apply writes_u32; split; [discriminate|reflexivity]|apply writes_u8, type_code_fits].
  - unfold header_prefix. rewrite length_app, !length_zbits. lia.
Qed.

Lemma build_packet_spec capacity t fields bits k : writes fields bits -> length bits = (8 * k)%nat ->
  5 + Z.of_nat k <= capacity <= 2000 ->
  let p := build_packet capacity t fields in
  bits_of_bytes p = header_prefix t ++ bits /\ Forall (fits 8) p /\ length p = (5 + k)%nat.
Proof.
  intros Hw Hb Hk. cbv zeta. destruct (write_header_spec capacity t ltac:(lia)) as (E & F & L).
  unfold build_packet. rewrite L. destruct (fresh_bits (capacity - Z.of_nat 5) fields bits k Hw Hb ltac:(lia)) as (E2 & F2 & L2).
  cbv zeta in *. rewrite bits_of_bytes_app, E, E2, length_app, L, L2. split; [done|]. split; [by apply Forall_app|done].
Qed.

Lemma type_of_type_code t : type_of_code (type_code t) = t.
Proof. by destruct t. Qed.

Lemma read_header_spec data t tl : Forall (fits 8) data -> Z.of_nat (length data) <= 2000 ->
  bits_of_bytes data = header_prefix t ++ tl ->
  read_header data = Some t /\ bits_of_bytes (body_of data) = tl /\ Forall (fits 8) (body_of data) /\
  Z.of_nat (length (body_of data)) = Z.of_nat (length data) - 5.
Proof.
  intros Hf Hl E. assert (Hlen : (5 <= length data)%nat).
  { apply (f_equal length) in E. unfold header_prefix in E. rewrite length_bits_of_bytes, !length_app, !length_zbits in E. lia. }
  split; [|split; [|split; [by apply Forall_drop|unfold body_of; rewrite length_drop; unfold kHeaderBytes; lia]]].
  - unfold read_header. rewrite (proj2 (Z.ltb_ge _ _)) by (unfold kHeaderBytes; lia).
    destruct (reader_wf_new data Hf ltac:(lia)) as [Hr Hrest]. rewrite E in Hrest. unfold header_prefix in Hrest.
    rewrite <- !app_assoc in Hrest.
    assert (Ho : br_overflow (BitReader_new data (Z.of_nat (length data))) = false) by done.
    set (r0 := BitReader_new data (Z.of_nat (length data))) in *. clearbody r0.
    next_field r1 P1 (fun r tl => reads_step read_u32 _ _ r tl (reads_u32 kProtocolId ltac:(split; [discriminate|reflexivity]))).
    rewrite Z.eqb_refl. cbn [negb].
    next_field r2 P2 (fun r tl => reads_step read_u8 _ _ r tl (reads_u8 _ (type_code_fits t))).
    rewrite (type_of_type_code t). by destruct t.
  - unfold body_of. change (Z.to_nat kHeaderBytes) with 5%nat. rewrite <- drop_bits_of_bytes, E. apply drop_app_length'.
    unfold header_prefix. rewrite length_app, !length_zbits. lia.
Qed.

Lemma read_body_spec {A} (m : Rd A) bits a body tl : reads m bits a -> Forall (fits 8) body ->
  Z.of_nat (length body) <= 2000 -> bits_of_bytes body = bits ++ tl -> read_body m body = (a, false).
Proof.
  intros Hm Hf Hl E. destruct (reader_wf_new body Hf ltac:(lia)) as [Hr Hrest]. rewrite E in Hrest.
  unfold read_body. by rewrite (Hm _ _ Hr Hrest).
Qed.

(** A built packet is read back: its type, and its fields with any reader for them. *)
Lemma packet_seen {A} capacity t fields bits k (m : Rd A) (a : A) :
  writes fields bits -> length bits = (8 * k)%nat -> 5 + Z.of_nat k <= capacity <= 2000 -> reads m bits a ->
  let p := build_packet capacity t fields in
  read_header p = Some t /\ read_body m (body_of p) = (a, false) /\ length p = (5 + k)%nat.
Proof.
  intros Hw Hb Hk Hm p. destruct (build_packet_spec capacity t fields bits k Hw Hb Hk) as (E & F & L). fold p in E, F, L.
  destruct (read_header_spec p t bits F ltac:(lia) E) as (H1 & H2 & H3 & H4).
  split; [done|]. split; [|done]. apply (read_body_spec m bits a _ []); [done|done|lia|by rewrite app_nil_r].
Qed.

Ltac sizes := rewrite ?length_app, ?length_zbits, ?length_bits_of_bytes; lia.

Lemma challenge_seen cs ss : fits 64 cs -> fits 64 ss ->
  read_header (challenge_packet cs ss) = Some kChallenge /\
  read_body (a ← read_u64; b ← read_u64; mret (a, b)) (body_of (challenge_packet cs ss)) = ((cs, ss), false) /\
  length (challenge_packet cs ss) = 21%nat.
Proof.
  intros H1 H2. apply (packet_seen 64 kChallenge _ (zbits 64 cs ++ zbits 64 ss) 16); [|sizes|lia|].
  - apply (writes_comp (write_u64 cs) _ (write_u64 ss)); by apply writes_u64.
  - apply reads_bind with (a := cs); [by apply reads_u64|]. apply (reads_bind_ret _ (fun b => (cs, b))). by apply reads_u64.
Qed.

Lemma accepted_seen salt id entity : fits 64 salt -> fits 32 id -> fits 32 entity ->
  read_header (accepted_packet salt id entity) = Some kConnectionAccepted /\
  read_body (a ← read_u64; b ← read_u32; d ← read_u32; mret (a, (b, d))) (body_of (accepted_packet salt id entity)) =
    ((salt, (id, entity)), false) /\ length (accepted_packet salt id entity) = 21%nat.
Proof.
  intros H1 H2 H3. apply (packet_seen 64 kConnectionAccepted _ (zbits 64 salt ++ zbits 32 id ++ zbits 32 entity) 16); [|sizes|lia|].
  - apply (writes_comp (write_u64 salt) _ (fun w => write_u32 entity (write_u32 id w))); [by apply writes_u64|].
    apply (writes_comp (write_u32 id) _ (write_u32 entity)); by apply writes_u32.
  - apply reads_bind with (a := salt); [by apply reads_u64|]. apply reads_bind with (a := id); [by apply reads_u32|].
    apply (reads_bind_ret _ (fun d => (salt, (id, d)))). by apply reads_u32.
Qed.

Lemma response_seen x : fits 64 x ->
  read_header (response_packet x) = Some kChallengeResponse /\
  read_body read_u64 (body_of (response_packet x)) = (x, false) /\ length (response_packet x) = 13%nat.
Proof. intros H. apply (packet_seen 64 kChallengeResponse _ (zbits 64 x) 8); [by apply writes_u64|sizes|lia|by apply reads_u64]. Qed.

Lemma denied_length r : length (denied_packet r) = 6%nat.
Proof.
  apply (packet_seen 32 kConnectionDenied _ (zbits 8 (deny_code r)) 1 read_u8 (deny_code r)); [|sizes|lia|].
  - apply writes_u8. destruct r; split; cbn; lia.
  - apply reads_u8. destruct r; split; cbn; lia.
Qed.

Lemma request_seen cs token : fits 64 cs -> Forall (fits 8) token -> length token = 32%nat ->
  read_header (request_packet cs token) = Some kConnectionRequest /\
  read_body (client_salt ← read_u64; token ← read_bytes (replicate 32 0); mret (client_salt, token))
    (body_of (request_packet cs token)) = ((cs, token), false) /\ length (request_packet cs token) = 1045%nat /\
  Forall (fits 8) (request_packet cs token).
Proof.
  intros H1 H2 H3. set (padding := replicate (Z.to_nat kConnectionRequestPadding) 0).
  assert (Hp : length padding = 1000%nat) by (unfold padding; by rewrite length_replicate).
  assert (Hpf : Forall (fits 8) padding) by (by apply Forall_replicate; split).
  destruct (build_packet_spec kMaxDatagramSize kConnectionRequest
    (fun w => write_each padding (write_bytes token (write_u64 cs w)))
    ((zbits 64 cs ++ bits_of_bytes token) ++ bits_of_bytes padding) 1040) as (E & F & L).
  - apply (writes_comp (fun w => write_bytes token (write_u64 cs w)) _ (write_each padding)); [|by apply writes_each].
    apply (writes_comp (write_u64 cs) _ (write_bytes token)); [by apply writes_u64|apply writes_bytes; [done|lia]].
  - rewrite !length_app, length_zbits, !length_bits_of_bytes, Hp, H3. lia.
  - unfold kMaxDatagramSize. lia.
  - unfold request_packet. fold padding. set (p := build_packet _ _ _) in *. cbv zeta in *. clearbody p.
    destruct (read_header_spec _ _ _ F ltac:(rewrite L; lia) E) as (G1 & G2 & G3 & G4).
    split; [done|]. split; [|by split]. eapply read_body_spec; [|done|lia|exact G2].
    apply reads_bind with (a := cs); [by apply reads_u64|]. apply (reads_bind_ret _ (fun t => (cs, t))).
    apply reads_bytes; [done|by rewrite length_replicate|lia].
Qed.

(** ** What the owner's callbacks must respect

    Connections keep their identity while [on_connect_] runs: the callback may write
    their entities, queue messages on them and disconnect any of them, but not change
    the tables otherwise ([tame]).  One that moreover keeps the connection it was called
    for is [calm]. *)
Definition same_peer (c c' : Connection) : Prop :=
  cn_client_id c' = cn_client_id c /\ cn_address c' = cn_address c /\ cn_salt c' = cn_salt c.

Record connection_ok (a : Address) (c : Connection) : Prop := {
  co_address : cn_address c = a;
  co_salt : fits 64 (cn_salt c);
  co_client : fits 32 (cn_client_id c);
  co_entity : fits 32 (cn_entity c)
}.

(** No pointer of [by_client_] dangles, and each leads to its own client. *)
Definition tables_ok {App} (s : ConnectionServer App) : Prop :=
  map_Forall connection_ok (sv_connections s) /\
  map_Forall (fun id a => exists c, sv_connections s !! a = Some c /\ cn_client_id c = id) (sv_by_client s).

Record tame {App} (s s' : ConnectionServer App) : Prop := {
  cm_config : sv_config s' = sv_config s;
  cm_others a c' : sv_connections s' !! a = Some c' -> exists c, sv_connections s !! a = Some c /\ same_peer c c';
  cm_pending : sv_pending s' = sv_pending s;
  cm_client : sv_next_client s' = sv_next_client s;
  cm_sent : sv_sent s `prefix_of` sv_sent s';
  cm_tables : tables_ok s -> tables_ok s'
}.

Record calm {App} (from : Address) (s s' : ConnectionServer App) : Prop := {
  cm_tame : tame s s';
  cm_own c : sv_connections s !! from = Some c -> exists c', sv_connections s' !! from = Some c' /\ same_peer c c'
}.

Class Tame {App} (handlers : Handlers App) : Prop := {
  ta_connect from s s' : on_connect handlers from s = Some s' -> tame s s';
  ta_admit admission from token app : on_admit handlers = Some admission -> fits 32 (de_client_id (fst (admission from token app)))
}.

Class WellBehaved {App} (handlers : Handlers App) : Prop := {
  wb_connect from s : exists s', on_connect handlers from s = Some s' /\ calm from s s';
  wb_admit admission from token app : on_admit handlers = Some admission -> fits 32 (de_client_id (fst (admission from token app)))
}.

#[export] Instance well_behaved_tame {App} (handlers : Handlers App) `{!WellBehaved handlers} : Tame handlers.
Proof.
  split; [|apply wb_admit]. intros from s s' E. destruct (wb_connect from s) as (s1 & E1 & Hc). rewrite E in E1. injection E1 as <-.
  apply (cm_tame _ _ _ Hc).
Qed.

#[export] Instance tame_reflexive {App} : Reflexive (@tame App).
Proof. intros s. split; try done. intros a c Hc. by exists c. Qed.

#[export] Instance tame_transitive {App} : Transitive (@tame App).
Proof.
  intros s1 s2 s3 [A1 A2 A3 A4 A5 A6] [B1 B2 B3 B4 B5 B6]. split; [congruence| |congruence|congruence|by etransitivity|auto].
  intros a c3 H3. destruct (B2 a c3 H3) as (c2 & H2 & E1 & E2 & E3). destruct (A2 a c2 H2) as (c1 & H1 & F1 & F2 & F3).
  exists c1. split; [done|]. split_and!; congruence.
Qed.

(** A callback that only names the entity of the new connection. *)
Definition assign_entity {App} (entity_of : Address -> Z) (from : Address) (s : ConnectionServer App) : ConnectionServer App :=
  match sv_connections s !! from with
  | Some c => set_connection from (set_entity (entity_of from) c) s
  | None => s
  end.

(** Replacing a connection by one of the same peer. *)
Lemma tables_update {App} a c c' (s : ConnectionServer App) : tables_ok s -> sv_connections s !! a = Some c ->
  same_peer c c' -> fits 32 (cn_entity c') -> tables_ok (set_connection a c' s).
Proof.
  intros [H1 H2] Hc (E1 & E2 & E3) He. split.
  - apply map_Forall_insert_2; [|exact H1]. destruct (H1 a c Hc) as [A1 A2 A3 A4]. split; congruence.
  - intros id a' Ha'. destruct (H2 id a' Ha') as (x & Hx & Ex).
    cbn [set_connection set_connections sv_connections]. destruct (decide (a' = a)) as [->|Hne].
    + exists c'. rewrite lookup_insert_eq. split; [done|]. congruence.
    + exists x. by rewrite lookup_insert_ne.
Qed.

Lemma set_connection_tame {App} a c c' (s : ConnectionServer App) : sv_connections s !! a = Some c -> same_peer c c' ->
  (fits 32 (cn_entity c) -> fits 32 (cn_entity c')) -> tame s (set_connection a c' s).
Proof.
  intros Hc Hs He. split; cbn [set_connection set_connections sv_config sv_connections sv_pending sv_next_client sv_sent]; try done.
  - intros b x. destruct (decide (b = a)) as [->|Hne]; [|rewrite lookup_insert_ne by done; by exists x].
    rewrite lookup_insert_eq. intros [= <-]. by exists c.
  - intros Ht. apply (tables_update a c); [done|done|done|]. apply He, (proj1 Ht a c Hc).
Qed.

Lemma set_app_tame {App} app (s : ConnectionServer App) : tame s (set_app app s).
Proof. split; try done. intros a c Hc. by exists c. Qed.

Lemma assign_entity_calm {App} entity_of from (s : ConnectionServer App) : (forall a, fits 32 (entity_of a)) ->
  calm from s (assign_entity entity_of from s).
Proof.
  intros He. unfold assign_entity. destruct (sv_connections s !! from) as [c|] eqn:Ec.
  - split; [by apply (set_connection_tame from c); [..|intros _; apply He]|].
    intros c0 [= <-]%(eq_trans (eq_sym Ec)). exists (set_entity (entity_of from) c). cbn. by rewrite lookup_insert_eq.
  - split; [done|]. by intros c H; rewrite Ec in H.
Qed.

(** Dropping a connection keeps the tables in step. *)
Lemma remove_connection_tables {App} (handlers : Handlers App) a reason s : tables_ok s -> tables_ok (remove_connection handlers a reason s).
Proof.
  intros [H1 H2]. unfold remove_connection. destruct (sv_connections s !! a) as [c|] eqn:Ec; [|done]. split.
  - cbn [sv_connections set_connections set_by_client set_app]. by apply map_Forall_delete.
  - cbn [sv_connections sv_by_client set_connections set_by_client set_app]. intros id a' [Hne Ha']%lookup_delete_Some.
    destruct (H2 id a' Ha') as (x & Hx & <-). exists x. split; [|done]. rewrite lookup_delete_ne; [done|].
    intros <-. rewrite Ec in Hx. by injection Hx as <-.
Qed.

(** A disconnect from the callback is tame, and calm when it is of another address. *)
Lemma disconnect_tame {App} (handlers : Handlers App) c reason s : tame s (disconnect handlers c reason s).
Proof.
  unfold disconnect. set (s1 := Nat.iter 3 _ s).
  assert (E : sv_connections s1 = sv_connections s /\ sv_by_client s1 = sv_by_client s /\ sv_pending s1 = sv_pending s /\
    sv_config s1 = sv_config s /\ sv_next_client s1 = sv_next_client s /\ sv_sent s `prefix_of` sv_sent s1).
  { subst s1. cbn [Nat.iter send_to sv_connections sv_by_client sv_pending sv_config sv_next_client sv_sent].
    do 5 (split; [done|]). do 2 (etransitivity; [|by apply prefix_app_r]). by apply prefix_app_r. }
  destruct E as (E1 & E2 & E3 & E4 & E5 & E6). clearbody s1.
  pose proof (remove_connection_tables handlers (cn_address c) reason s1) as Htab. unfold remove_connection in *.
  assert (Ht : tables_ok s -> tables_ok s1) by (unfold tables_ok; by rewrite E1, E2).
  destruct (sv_connections s1 !! cn_address c) as [x|] eqn:Ex.
  - split; cbn [sv_config sv_connections sv_pending sv_next_client sv_sent set_connections set_by_client set_app]; auto.
    intros a c' [_ Hc']%lookup_delete_Some. rewrite E1 in Hc'. by exists c'.
  - split; auto. intros a c' Hc'. rewrite E1 in Hc'. by exists c'.
Qed.

Lemma disconnect_calm {App} (handlers : Handlers App) from c reason s : cn_address c <> from -> calm from s (disconnect handlers c reason s).
Proof.
  intros Hne. split; [apply disconnect_tame|]. intros x Hx. exists x. split; [|done]. unfold disconnect, remove_connection.
  set (s1 := Nat.iter 3 _ s). assert (E : sv_connections s1 = sv_connections s) by done. clearbody s1. rewrite E.
  destruct (sv_connections s !! cn_address c); [|by rewrite E]. cbn [sv_connections set_connections set_by_client set_app].
  by rewrite E, lookup_delete_ne.
Qed.

(** ** The server's invariant *)
(** A salt that this address can only know from a challenge sent to it. *)
Definition challenged {App} (s : ConnectionServer App) (a : Address) (client_salt server_salt : Z) : Prop :=
  client_salt <> 0 /\ fits 64 client_salt /\ fits 64 server_salt /\ (a, challenge_packet client_salt server_salt) ∈ sv_sent s.

Record server_ok {App} (s : ConnectionServer App) : Prop := {
  so_tables : tables_ok s;
  so_pending : map_Forall (fun a p => challenged s a (ph_client_salt p) (ph_server_salt p)) (sv_pending s);
  so_connections : map_Forall (fun a c => exists client_salt server_salt, challenged s a client_salt server_salt /\
    cn_salt c = Z.lxor client_salt server_salt) (sv_connections s);
  so_client : fits 32 (sv_next_client s)
}.

(** The owner fails, or drops the very connection it is told of. *)
Definition owner_drops {App} (handlers : Handlers App) (from : Address) (s : ConnectionServer App) : Prop :=
  is_Some (sv_connections s !! from) /\
  match on_connect handlers from s with Some s' => sv_connections s' !! from = None | None => True end.

Section Invariant.
Context {App : Type} (handlers : Handlers App) `{!Tame handlers} (random : nat -> Z).
Context (Hrandom : forall i, fits 64 (random i)).
Abbreviation Server := (ConnectionServer App).

Lemma challenged_mono (s s' : Server) a cs ss : sv_sent s `prefix_of` sv_sent s' -> challenged s a cs ss -> challenged s' a cs ss.
Proof. intros [l E] (? & ? & ? & ?). split; [done|]. split; [done|]. split; [done|]. rewrite E. apply elem_of_app. by left. Qed.

Lemma salt_ok i : fits 64 (generate_salt random i) /\ generate_salt random i <> 0.
Proof. unfold generate_salt. destruct (Z.eqb_spec (random i) 0); [|by split]. split; [split; lia|done]. Qed.

(** Sending and counting leave the invariant alone. *)
Lemma server_ok_sent (s s' : Server) : server_ok s -> sv_connections s' = sv_connections s -> sv_pending s' = sv_pending s ->
  sv_by_client s' = sv_by_client s -> sv_sent s `prefix_of` sv_sent s' -> fits 32 (sv_next_client s') -> server_ok s'.
Proof.
  intros [H1 H2 H3 H4] E1 E2 E3 E4 E5. split; [unfold tables_ok in *; by rewrite E1, E3|rewrite E2|rewrite E1|done].
  - intros a p Hp. eapply challenged_mono; [exact E4|]. by apply (H2 a p).
  - intros a c Hc. destruct (H3 a c Hc) as (cs & ss & ? & ?). exists cs, ss. split; [|done]. by eapply challenged_mono.
Qed.

Lemma send_to_ok to bytes (s : Server) : server_ok s -> server_ok (send_to to bytes s).
Proof. intros H. apply (server_ok_sent s); try done; [by apply prefix_app_r|apply H]. Qed.

Lemma count_invalid_ok (s : Server) : server_ok s -> server_ok (count_invalid s).
Proof. intros H. apply (server_ok_sent s); try done. apply H. Qed.

Lemma count_denied_ok (s : Server) : server_ok s -> server_ok (count_denied s).
Proof. intros H. apply (server_ok_sent s); try done. apply H. Qed.

Lemma set_app_ok app (s : Server) : server_ok s -> server_ok (set_app app s).
Proof. intros H. apply (server_ok_sent s); try done. apply H. Qed.

Lemma next_client_id_ok (s : Server) : server_ok s -> fits 32 (fst (next_client_id s)) /\ server_ok (snd (next_client_id s)).
Proof. intros H. split; [apply H|]. apply (server_ok_sent s); try done. apply wrap_range. lia. Qed.

Lemma delete_pending_ok a (s : Server) : server_ok s -> server_ok (set_pending (delete a (sv_pending s)) s).
Proof. intros [H1 H2 H3 H4]. split; try done. by apply map_Forall_delete. Qed.

Lemma update_peer_ok a c c' (s : Server) : server_ok s -> sv_connections s !! a = Some c -> same_peer c c' ->
  fits 32 (cn_entity c') -> server_ok (set_connection a c' s).
Proof.
  intros [H1 H2 H3 H4] Hc Hs He. split; [by apply (tables_update a c)|exact H2| |exact H4].
  apply map_Forall_insert_2; [|exact H3]. destruct (H3 a c Hc) as (cs & ss & ? & Es). exists cs, ss. split; [done|].
  destruct Hs as (_ & _ & ->). done.
Qed.

Lemma remove_ok a reason (s : Server) : server_ok s -> server_ok (remove_connection handlers a reason s).
Proof.
  intros [H1 H2 H3 H4]. pose proof (remove_connection_tables handlers a reason s H1) as Ht. unfold remove_connection in *.
  destruct (sv_connections s !! a) as [c|]; [|by split]. split; try done.
  cbn [sv_connections set_connections]. by apply map_Forall_delete.
Qed.

Lemma tame_ok (s s' : Server) : tame s s' -> server_ok s -> server_ok s'.
Proof.
  intros Hc [H1 H2 H3 H4]. split.
  - by apply (cm_tables _ _ Hc).
  - rewrite (cm_pending _ _ Hc). intros a p Hp. eapply challenged_mono; [by apply Hc|]. by apply (H2 a p).
  - intros a c' Hc'. destruct (cm_others _ _ Hc a c' Hc') as (c & Hcc & (_ & _ & ->)).
    destruct (H3 a c Hcc) as (cs & ss & ? & ?). exists cs, ss. split; [|done]. eapply challenged_mono; [by apply Hc|done].
  - by rewrite (cm_client _ _ Hc).
Qed.

(** What the reader of a body returns. *)
Lemma read_body_yields {A} (m : Rd A) P body : yields m P -> Forall (fits 8) body -> Z.of_nat (length body) <= 2000 ->
  P (fst (read_body m body)).
Proof.
  intros Hm Hf Hl. destruct (reader_wf_new body Hf ltac:(lia)) as [Hr _]. unfold read_body.
  destruct (Hm _ Hr) as [HP _]. by destruct (m _) as [a r].
Qed.

Lemma request_salt data : Forall (fits 8) data -> Z.of_nat (length data) <= 2000 ->
  fits 64 (fst (fst (read_body (client_salt ← read_u64; token ← read_bytes (replicate 32 0); mret (client_salt, token)) data))).
Proof.
  intros Hf Hl. destruct (reader_wf_new data Hf ltac:(lia)) as [Hr _]. unfold read_body, mbind, Rd_bind, mret, Rd_ret.
  destruct (yields_u64 _ Hr) as [Hy _]. destruct (read_u64 _) as [salt r]. by destruct (read_bytes _ r) as [t r'].
Qed.

Lemma handle_connection_request_ok from data now_us (s : Server) : server_ok s -> Forall (fits 8) data -> Z.of_nat (length data) <= 2000 ->
  server_ok (handle_connection_request random from data now_us s).
Proof.
  intros Hs Hf Hl. unfold handle_connection_request. case_match; [by apply count_invalid_ok|].
  pose proof (request_salt data Hf Hl) as Hy.
  destruct (read_body _ data) as [[client_salt token] overflow]. cbn [fst] in Hy.
  destruct (overflow || (client_salt =? 0)) eqn:Eo; [by apply count_invalid_ok|]. apply orb_false_iff in Eo as [_ Ez].
  apply Z.eqb_neq in Ez.
  destruct (sv_connections s !! from) as [existing|]; [by apply send_to_ok|].
  case_match; [by apply count_denied_ok, send_to_ok|].
  (* the pending handshake is the old one, or a new salt *)
  set (pending := default PendingHandshake_blank (sv_pending s !! from)).
  assert (Hstep : forall p (s1 : Server), ph_client_salt p <> 0 -> fits 64 (ph_client_salt p) -> fits 64 (ph_server_salt p) ->
    server_ok s1 -> server_ok (send_challenge from (ph_client_salt p) (ph_server_salt p)
      (set_pending (<[from := p]> (sv_pending s1)) s1))).
  { intros p s1 Hp1 Hp2 Hp3 [H1 H2 H3 H4].
    assert (Hpre : forall a cs ss, challenged s1 a cs ss -> challenged (send_challenge from (ph_client_salt p) (ph_server_salt p)
      (set_pending (<[from := p]> (sv_pending s1)) s1)) a cs ss) by (intros a cs ss; apply challenged_mono; by apply prefix_app_r).
    split; [exact H1| | |exact H4].
    - cbn [sv_pending send_challenge send_to set_pending]. apply map_Forall_insert_2.
      + split; [done|]. split; [done|]. split; [done|]. cbn. apply elem_of_app. right. by left.
      + intros a q Hq. apply Hpre. by apply (H2 a q).
    - intros a c Hc. destruct (H3 a c Hc) as (cs & ss & ? & ?). exists cs, ss. split; [by apply Hpre|done]. }
  destruct (Z.eqb_spec (ph_client_salt pending) client_salt) as [E|Hne]; cbn [negb].
  - assert (Hp : exists p, sv_pending s !! from = Some p /\ pending = p).
    { subst pending. destruct (sv_pending s !! from) as [p|]; [by exists p|]. cbn in E. congruence. }
    destruct Hp as (p & Hp & Ep). destruct (so_pending _ Hs from p Hp) as (C1 & C2 & C3 & _).
    apply (Hstep (mkPendingHandshake (ph_client_salt pending) (ph_server_salt pending) token (ph_started_us pending)));
      cbn [ph_client_salt ph_server_salt]; rewrite ?Ep; done.
  - unfold draw. destruct (salt_ok (sv_random s)) as [S1 S2].
    match goal with |- server_ok (send_challenge _ _ _ (set_pending _ ?s1)) =>
      apply (Hstep (mkPendingHandshake client_salt (generate_salt random (sv_random s)) token now_us) s1);
        cbn [ph_client_salt ph_server_salt]; try done end.
    apply (server_ok_sent s); try done. apply Hs.
Qed.

Lemma decide_admission_ok from token (s : Server) : server_ok s ->
  let '(decision, s1) := decide_admission handlers from token s in
  server_ok (s1 : Server) /\ fits 32 (de_client_id decision) /\ sv_connections s1 = sv_connections s /\ sv_pending s1 = sv_pending s /\
  sv_sent s1 = sv_sent s.
Proof.
  intros Hs. pose proof (next_client_id_ok s Hs) as [N1 N2]. unfold decide_admission, next_client_id in *. cbn [fst snd] in *.
  destruct (on_admit handlers) as [admission|] eqn:Ea; [|done].
  pose proof (ta_admit admission from token (sv_app s) Ea) as Hw. cbn [sv_app] in *.
  destruct (admission from token (sv_app s)) as [decision app]. split; [by apply set_app_ok|done].
Qed.

Lemma add_connection_ok from client_id x token now_us (s : Server) cs ss : server_ok s -> challenged s from cs ss -> x = Z.lxor cs ss ->
  fits 32 client_id -> sv_connections s !! from = None -> server_ok (add_connection from client_id x token now_us s).
Proof.
  intros [[T1 T2] H2 H3 H4] Hch -> Hid Hnew. destruct Hch as (? & ? & ? & ?). unfold add_connection.
  set (c := mkConnection _ _ _ _ _ _ _ _ _ _). split; cbn [sv_pending sv_next_client count_completed set_by_client set_connections set_pending]; [| | |done].
  - split; cbn [sv_connections sv_by_client count_completed set_by_client set_connections set_pending].
    + apply map_Forall_insert_2; [|done]. split; cbn; [done|apply fits_lxor; [lia|done|done]|done|split; unfold kInvalidEntity; lia].
    + apply map_Forall_insert_2.
      * exists c. by rewrite lookup_insert_eq.
      * intros id a Ha. destruct (T2 id a Ha) as (x & Hx & Ex). exists x. split; [|done].
        rewrite lookup_insert_ne; [done|]. intros <-. by rewrite Hnew in Hx.
  - by apply map_Forall_delete.
  - cbn [sv_connections]. apply map_Forall_insert_2; [|done]. by exists cs, ss.
Qed.

(** What becomes of a datagram: the invariant, or a failure of the owner's. *)
Definition served (result : option Server) : Prop :=
  match result with Some s' => server_ok s' | None => exists from s1, server_ok s1 /\ owner_drops handlers from s1 end.

Lemma handle_challenge_response_ok from data now_us (s : Server) : server_ok s -> Forall (fits 8) data -> Z.of_nat (length data) <= 2000 ->
  served (handle_challenge_response handlers from data now_us s).
Proof.
  intros Hs Hf Hl. unfold handle_challenge_response. destruct (read_body read_u64 data) as [x overflow].
  destruct overflow; [by apply count_invalid_ok|].
  destruct (sv_connections s !! from) as [existing|] eqn:Ec.
  { cbn. destruct (_ =? _); [by apply send_to_ok|done]. }
  destruct (sv_pending s !! from) as [pending|] eqn:Ep; [|by apply count_invalid_ok].
  destruct (Z.eqb_spec (Z.lxor (ph_client_salt pending) (ph_server_salt pending)) x) as [E|]; cbn [negb];
    [|by apply count_invalid_ok].
  pose proof (decide_admission_ok from (ph_token pending) s Hs) as Hd.
  destruct (decide_admission handlers from (ph_token pending) s) as [decision s1]. destruct Hd as (D1 & D2 & D3 & D4 & D5).
  destruct (de_admit decision); cbn [negb].
  2: { apply count_denied_ok. exact (delete_pending_ok from _ (send_to_ok from (denied_packet (de_reason decision)) s1 D1)). }
  assert (Hnext : let '(client_id, s2) := (if negb (de_client_id decision =? 0) then (de_client_id decision, s1) else next_client_id s1) in
    server_ok s2 /\ fits 32 client_id /\ sv_connections s2 = sv_connections s /\ sv_sent s2 = sv_sent s).
  { destruct (negb _); [done|]. pose proof (next_client_id_ok s1 D1) as [N1 N2]. by unfold next_client_id in *. }
  destruct (if negb (de_client_id decision =? 0) then _ else _) as [client_id s2]. destruct Hnext as (N1 & N2 & N3 & N4).
  destruct (so_pending _ Hs from pending Ep) as (C1 & C2 & C3 & C4).
  pose proof (add_connection_ok from client_id x (ph_token pending) now_us s2 _ _ N1 ltac:(split; [exact C1|]; split; [exact C2|];
    split; [exact C3|]; rewrite N4; exact C4) (eq_sym E) N2 ltac:(by rewrite N3)) as Hadd.
  set (s3 := add_connection _ _ _ _ _ _) in *.
  assert (Hc3 : is_Some (sv_connections s3 !! from)).
  { subst s3. unfold add_connection. cbn [sv_connections count_completed set_by_client set_connections]. rewrite lookup_insert_eq. by eexists. }
  clearbody s3. destruct (on_connect handlers from s3) as [s4|] eqn:Eoc; cbn [mbind option_bind].
  2:{ exists from, s3. split; [done|]. split; [done|]. by rewrite Eoc. }
  destruct (sv_connections s4 !! from) as [c|] eqn:Ec4; cbn [mbind option_bind].
  - apply send_to_ok. apply (tame_ok s3); [by apply (ta_connect from)|done].
  - exists from, s3. split; [done|]. split; [done|]. by rewrite Eoc.
Qed.

Lemma handle_payload_ok from data now_us (s : Server) : server_ok s -> server_ok (handle_payload handlers from data now_us s).
Proof.
  intros Hs. unfold handle_payload. destruct (sv_connections s !! from) as [c|] eqn:Ec; [|by apply count_invalid_ok].
  destruct (read_body read_u64 data) as [salt overflow]. case_match; [by apply count_invalid_ok|].
  destruct (so_tables _ Hs) as [T _]. destruct (T from c Ec) as [? ? ? He].
  destruct (read_packet _ _ _) as [[[payload messages]|] endpoint]; [apply set_app_ok|]; by apply (update_peer_ok from c).
Qed.

Lemma handle_disconnect_ok from data (s : Server) : server_ok s -> server_ok (handle_disconnect handlers from data s).
Proof.
  intros Hs. unfold handle_disconnect. destruct (read_body read_u64 data) as [salt overflow].
  destruct (sv_connections s !! from); [|done]. case_match; [by apply remove_ok|done].
Qed.

Lemma handle_datagram_ok from data now_us (s : Server) : server_ok s -> Forall (fits 8) data -> Z.of_nat (length data) <= 2000 ->
  served (handle_datagram handlers random from data now_us s).
Proof.
  intros Hs Hf Hl. assert (Hb : Forall (fits 8) (body_of data)) by (by apply Forall_drop).
  assert (Hbl : Z.of_nat (length (body_of data)) <= 2000) by (unfold body_of; rewrite length_drop; lia).
  unfold handle_datagram. destruct (read_header data) as [t|]; [|by apply count_invalid_ok].
  destruct t; try (by apply count_invalid_ok).
  - by apply handle_connection_request_ok.
  - by apply handle_challenge_response_ok.
  - by apply handle_payload_ok.
  - by apply handle_disconnect_ok.
Qed.

Lemma receive_loop_ok waiting now_us (s : Server) : server_ok s -> Forall (fun d => Forall (fits 8) d.2) waiting ->
  served (snd <$> receive_loop handlers random waiting now_us s).
Proof.
  revert s. induction waiting as [|[from data] waiting IH]; intros s Hs Hw; [done|].
  apply Forall_cons_1 in Hw as [Hd Hw]. cbn [receive_loop snd] in *. case_match; [done|].
  pose proof (handle_datagram_ok from (take (Z.to_nat kMaxDatagramSize) data) now_us s Hs ltac:(by apply Forall_take)
    ltac:(rewrite length_take; unfold kMaxDatagramSize; lia)) as Hd1.
  destruct (handle_datagram _ _ _ _ _ _) as [s1|]; [|exact Hd1]. cbn [mbind option_bind]. specialize (IH s1 Hd1 Hw).
  by destruct (receive_loop handlers random waiting now_us s1) as [[n s2]|].
Qed.

Lemma receive_ok waiting now_us (s : Server) : server_ok s -> Forall (fun d => Forall (fits 8) d.2) waiting ->
  served (snd <$> receive handlers random waiting now_us s).
Proof.
  intros Hs Hw. pose proof (receive_loop_ok waiting now_us s Hs Hw) as H. unfold receive.
  destruct (receive_loop handlers random waiting now_us s) as [[n s']|]; [|exact H]. cbn in H |- *. destruct H as [H1 H2 H3 H4]. split; try done.
  intros a p [Hp _]%map_lookup_filter_Some. by apply (H2 a p).
Qed.

Lemma send_payload_ok a data now_us (s : Server) : server_ok s -> server_ok (send_payload a data now_us s).
Proof.
  intros Hs. unfold send_payload. destruct (sv_connections s !! a) as [c|] eqn:Ec; [|done].
  destruct (so_tables _ Hs) as [T _]. destruct (T a c Ec) as [? ? ? He].
  destruct (payload_packet _ _ _ _) as [[bytes|] endpoint]; [apply send_to_ok|]; by apply (update_peer_ok a c).
Qed.

Lemma flush_ok now_us (s : Server) : server_ok s -> server_ok (flush now_us s).
Proof.
  unfold flush. generalize (addresses s). intros l. revert s. induction l as [|a l IH]; intros s Hs; [done|]. cbn [foldl]. apply IH.
  unfold flush_connection. destruct (sv_connections s !! a) as [c|] eqn:Ec; [|done].
  destruct (so_tables _ Hs) as [T _]. destruct (T a c Ec) as [? ? ? He].
  match goal with |- server_ok (if _ then send_payload _ _ _ ?s1 else _) => assert (H1 : server_ok s1) by (by apply (update_peer_ok a c)) end.
  case_match; [by apply send_payload_ok|exact H1].
Qed.

Lemma timeout_ok now_us (s : Server) : server_ok s -> server_ok (timeout_connections handlers now_us s).
Proof.
  unfold timeout_connections. generalize (filter (fun a => silent now_us s a) (addresses s)). intros l.
  revert s. induction l as [|a l IH]; intros s Hs; [done|]. cbn [foldl]. by apply IH, remove_ok.
Qed.

Lemma disconnect_ok c reason (s : Server) : server_ok s -> server_ok (disconnect handlers c reason s).
Proof. intros Hs. unfold disconnect. apply remove_ok. cbn [Nat.iter]. by do 3 apply send_to_ok. Qed.

Lemma stop_ok (s : Server) : server_ok s -> server_ok (stop s).
Proof.
  intros Hs. unfold stop.
  assert (H : server_ok (foldl (fun s a => match sv_connections s !! a with
    | Some c => send_to a (disconnect_packet 64 (cn_salt c)) s | None => s end) s (addresses s))).
  { generalize (addresses s). intros l. revert s Hs. induction l as [|a l IH]; intros s Hs; [done|]. cbn [foldl]. apply IH.
    destruct (sv_connections s !! a); [by apply send_to_ok|done]. }
  destruct H as [_ _ _ H4]. split; [|done|done|done]. split; done.
Qed.

(** *** Every call of the owner, and every datagram of the network *)
Inductive serves : Server -> Server -> Prop :=
  | serve_start config s : serves s (start config s)
  | serve_receive waiting now_us n s s' : Forall (fun d => Forall (fits 8) d.2) waiting ->
      receive handlers random waiting now_us s = Some (n, s') -> serves s s'
  | serve_flush now_us s : serves s (flush now_us s)
  | serve_payload a data now_us s : serves s (send_payload a data now_us s)
  | serve_timeout now_us s : serves s (timeout_connections handlers now_us s)
  | serve_disconnect c reason s : serves s (disconnect handlers c reason s)
  | serve_stop s : serves s (stop s).

Lemma server_new_ok (app : App) : server_ok (server_new app).
Proof. split; [split|..|split; cbn; lia]; done. Qed.

Lemma serves_ok (s s' : Server) : serves s s' -> server_ok s -> server_ok s'.
Proof.
  intros Hst Hs. destruct Hst as [config s|waiting now_us n s s' Hw E|now_us s|a data now_us s|now_us s|c reason s|s].
  - apply (server_ok_sent s); try done. apply Hs.
  - pose proof (receive_ok waiting now_us s Hs Hw) as H. by rewrite E in H.
  - by apply flush_ok.
  - by apply send_payload_ok.
  - by apply timeout_ok.
  - by apply disconnect_ok.
  - by apply stop_ok.
Qed.
End Invariant.

(** ** The handshake, step by step *)
Section Handshake.
Context {App : Type} (handlers : Handlers App) `{!WellBehaved handlers} (random : nat -> Z).
Context (Hrandom : forall i, fits 64 (random i)).
Context {ClientApp : Type} (client_on_payload : list Z -> ClientApp -> ClientApp)
  (client_on_message : ReliableMessage -> ClientApp -> ClientApp).
Abbreviation Server := (ConnectionServer App).
Abbreviation Client := (ClientConnection ClientApp).
Abbreviation update := (client_update client_on_payload client_on_message).

(** The part of a client the handshake is about. *)
Definition client_view (c : Client) : ClientConfig * ClientState * Z * Z * Z * Z :=
  (cc_config c, cc_state c, cc_client_salt c, cc_server_salt c, cc_client_id c, cc_entity c).

Lemma view_fields (c : Client) config st cs ss id entity : client_view c = (config, st, cs, ss, id, entity) ->
  cc_config c = config /\ cc_state c = st /\ cc_client_salt c = cs /\ cc_server_salt c = ss /\ cc_client_id c = id /\ cc_entity c = entity.
Proof. unfold client_view. by intros [= -> -> -> -> -> ->]. Qed.

Lemma receive_one from data now_us (s s' : Server) : (0 < length data)%nat -> Z.of_nat (length data) <= kMaxDatagramSize ->
  handle_datagram handlers random from data now_us s = Some s' ->
  receive handlers random [(from, data)] now_us s = Some (1, expire_pending now_us s').
Proof.
  intros H0 Hl E. unfold receive. cbn [receive_loop]. rewrite take_ge by (unfold kMaxDatagramSize in *; lia).
  rewrite (proj2 (Z.leb_gt _ _)) by lia. rewrite E. reflexivity.
Qed.

(** The server answers a request with a challenge. *)
Lemma request_challenged from cs token now_us (s : Server) : server_ok s -> fits 64 cs -> cs <> 0 -> Forall (fits 8) token ->
  length token = 32%nat -> sv_connections s !! from = None ->
  Z.of_nat (size (sv_connections s)) < sc_max_connections (sv_config s) ->
  (forall p, sv_pending s !! from = Some p -> ph_client_salt p = cs -> ph_started_us p = now_us) ->
  exists ss s1, fits 64 ss /\ receive handlers random [(from, request_packet cs token)] now_us s = Some (1, s1) /\
    sv_pending s1 !! from = Some (mkPendingHandshake cs ss token now_us) /\
    sv_connections s1 = sv_connections s /\ sv_sent s1 = sv_sent s ++ [(from, challenge_packet cs ss)] /\ sv_app s1 = sv_app s.
Proof.
  intros Hs Hcs Hnz Htok Hlen Hnew Hroom Hold. destruct (request_seen cs token Hcs Htok Hlen) as (R1 & R2 & R3 & _).
  assert (Hbody : Z.of_nat (length (body_of (request_packet cs token))) = 1040).
  { unfold body_of. rewrite length_drop, R3. done. }
  assert (Hreq : (1040 <? u32 (8 + kConnectTokenBytes + kConnectionRequestPadding)) = false) by reflexivity.
  set (req := request_packet cs token) in *. clearbody req.
  set (pending := default PendingHandshake_blank (sv_pending s !! from)).
  assert (H : exists ss s1, fits 64 ss /\ handle_connection_request random from (body_of req) now_us s = s1 /\
    sv_pending s1 !! from = Some (mkPendingHandshake cs ss token now_us) /\
    sv_connections s1 = sv_connections s /\ sv_sent s1 = sv_sent s ++ [(from, challenge_packet cs ss)] /\ sv_app s1 = sv_app s).
  { unfold handle_connection_request. rewrite Hbody, Hreq, R2. cbn [orb].
    rewrite (proj2 (Z.eqb_neq cs 0)) by done. rewrite Hnew, (proj2 (Z.leb_gt _ _)) by lia. fold pending.
    destruct (Z.eqb_spec (ph_client_salt pending) cs) as [E|Hne]; cbn [negb].
    - assert (Hp : sv_pending s !! from = Some pending).
      { subst pending. destruct (sv_pending s !! from) as [p|]; [done|]. cbn in E. congruence. }
      exists (ph_server_salt pending). eexists. split; [apply (so_pending _ Hs from pending Hp)|]. split; [reflexivity|].
      cbn [sv_pending sv_connections sv_sent sv_app send_challenge send_to set_pending]. rewrite lookup_insert_eq, E.
      rewrite (Hold pending Hp E). done.
    - exists (generate_salt random (sv_random s)). eexists. split; [apply (salt_ok random Hrandom)|]. split; [reflexivity|].
      cbn [draw sv_pending sv_connections sv_sent sv_app send_challenge send_to set_pending ph_client_salt ph_server_salt ph_started_us].
      by rewrite lookup_insert_eq. }
  destruct H as (ss & s1 & Hss & E & E1 & E2 & E3 & E4). exists ss, (expire_pending now_us s1). split; [done|]. split.
  { apply receive_one; [lia|unfold kMaxDatagramSize; lia|]. unfold handle_datagram. by rewrite R1, E. }
  unfold expire_pending. cbn [sv_pending set_pending sv_connections sv_sent sv_app]. split; [|done].
  apply map_lookup_filter_Some. split; [done|]. cbn. rewrite Z.sub_diag. unfold kHandshakeTimeoutUs. change (u64 0) with 0. lia.
Qed.

(** The response makes the connection, whatever [max_connections] says. *)
Lemma response_accepted from cs ss token started now_us (s : Server) : server_ok s ->
  sv_connections s !! from = None -> sv_pending s !! from = Some (mkPendingHandshake cs ss token started) ->
  de_admit (fst (decide_admission handlers from token s)) = true ->
  exists c s1, receive handlers random [(from, response_packet (Z.lxor cs ss))] now_us s = Some (1, s1) /\
    sv_connections s1 !! from = Some c /\ cn_salt c = Z.lxor cs ss /\ connection_ok from c /\
    (from, accepted_packet (cn_salt c) (cn_client_id c) (cn_entity c)) ∈ sv_sent s1 /\
    exists c0 s3 s4, sv_connections s3 = <[from := c0]> (sv_connections s) /\ on_connect handlers from s3 = Some s4 /\
      sv_connections s1 = sv_connections s4.
Proof.
  intros Hs Hnew Hp Hadm. destruct (so_pending _ Hs from _ Hp) as (C1 & C2 & C3 & C4). cbn [ph_client_salt ph_server_salt] in *.
  assert (Hx : fits 64 (Z.lxor cs ss)) by (by apply fits_lxor).
  destruct (response_seen (Z.lxor cs ss) Hx) as (R1 & R2 & R3).
  set (res := response_packet (Z.lxor cs ss)) in *. clearbody res.
  assert (Hh : exists c s1, handle_challenge_response handlers from (body_of res) now_us s = Some s1 /\
    sv_connections s1 !! from = Some c /\ cn_salt c = Z.lxor cs ss /\ connection_ok from c /\
    (from, accepted_packet (cn_salt c) (cn_client_id c) (cn_entity c)) ∈ sv_sent s1 /\
    exists c0 s3 s4, sv_connections s3 = <[from := c0]> (sv_connections s) /\ on_connect handlers from s3 = Some s4 /\
      sv_connections s1 = sv_connections s4).
  { unfold handle_challenge_response. rewrite R2, Hnew, Hp. cbn [ph_client_salt ph_server_salt ph_token]. rewrite Z.eqb_refl. cbn [negb].
    pose proof (decide_admission_ok handlers from token s Hs) as Hd.
    destruct (decide_admission handlers from token s) as [decision s1]. destruct Hd as (D1 & D2 & D3 & D4 & D5). cbn [fst] in Hadm.
    rewrite Hadm. cbn [negb].
    assert (Hnext : let '(client_id, s2) := (if negb (de_client_id decision =? 0) then (de_client_id decision, s1) else next_client_id s1) in
      server_ok s2 /\ fits 32 client_id /\ sv_connections s2 = sv_connections s /\ sv_sent s2 = sv_sent s).
    { destruct (negb _); [done|]. pose proof (next_client_id_ok s1 D1) as [N1 N2]. by unfold next_client_id in *. }
    destruct (if negb (de_client_id decision =? 0) then _ else _) as [client_id s2]. destruct Hnext as (N1 & N2 & N3 & N4).
    pose proof (add_connection_ok from client_id _ token now_us s2 cs ss N1 ltac:(split; [exact C1|]; split; [exact C2|];
      split; [exact C3|]; rewrite N4; exact C4) eq_refl N2 ltac:(by rewrite N3)) as Hadd.
    destruct (wb_connect from (add_connection from client_id (Z.lxor cs ss) token now_us s2)) as (s4 & Eoc & Hcalm).
    assert (Hc3 : exists c, sv_connections (add_connection from client_id (Z.lxor cs ss) token now_us s2) = <[from := c]> (sv_connections s) /\
      cn_salt c = Z.lxor cs ss).
    { unfold add_connection. cbn [sv_connections count_completed set_by_client set_connections set_pending]. rewrite N3. by eexists. }
    set (s3 := add_connection _ _ _ _ _ _) in *. clearbody s3.
    destruct Hc3 as (c & Hins & Hsalt). assert (Hc : sv_connections s3 !! from = Some c) by (by rewrite Hins, lookup_insert_eq). destruct (cm_own _ _ _ Hcalm c Hc) as (c' & Hc' & (_ & _ & Es)). rewrite Eoc. cbn [mbind option_bind]. rewrite Hc'. cbn [mbind option_bind].
    pose proof (tame_ok s3 _ (cm_tame _ _ _ Hcalm) Hadd) as Hok. destruct (so_tables _ Hok) as [T _]. pose proof (T from c' Hc') as Hco.
    exists c'. eexists. split; [reflexivity|]. split; [exact Hc'|]. split; [congruence|]. split; [exact Hco|].
    split; [|exists c, s3, s4; by split].
    cbn [sv_sent send_accepted send_to]. apply elem_of_app. right. rewrite (co_address _ _ Hco). by left. }
  destruct Hh as (c & s1 & E & E1 & E2 & E3 & E4 & E5). exists c, (expire_pending now_us s1). split; [|done].
  apply receive_one; [lia|unfold kMaxDatagramSize; lia|]. unfold handle_datagram. by rewrite R1, E.
Qed.

Lemma payload_view data now (c : Client) : client_view (snd (client_send_payload data now c)) = client_view c /\
  cc_last_receive_us (snd (client_send_payload data now c)) = cc_last_receive_us c /\
  cc_sent c `prefix_of` cc_sent (snd (client_send_payload data now c)).
Proof.
  unfold client_send_payload. destruct (negb _); [done|]. destruct (payload_packet _ _ _ _) as [[bytes|] e]; [|done].
  split; [done|]. split; [done|]. by apply prefix_app_r.
Qed.

Lemma tick_view now (c : Client) : client_view (client_tick now c) = client_view c /\
  cc_last_receive_us (client_tick now c) = cc_last_receive_us c /\ cc_sent c `prefix_of` cc_sent (client_tick now c).
Proof.
  unfold client_tick. destruct (cc_state c); try done; case_match; try done.
  - split; [done|]. split; [done|]. by apply prefix_app_r.
  - split; [done|]. split; [done|]. by apply prefix_app_r.
  - apply payload_view.
Qed.

(** [update] with one datagram from the server, in time. *)
Lemma update_one data now (c : Client) : active (cc_state c) = true -> (0 < length data)%nat ->
  Z.of_nat (length data) <= kMaxDatagramSize ->
  u64 (now - cc_last_receive_us (process_datagram client_on_payload client_on_message data now c)) <= ccf_timeout_us (cc_config c) ->
  cc_config (process_datagram client_on_payload client_on_message data now c) = cc_config c ->
  let c1 := process_datagram client_on_payload client_on_message data now c in
  let c2 := update [(ccf_server (cc_config c), data)] now c in
  client_view c2 = client_view c1 /\ cc_last_receive_us c2 = cc_last_receive_us c1 /\ cc_sent c1 `prefix_of` cc_sent c2.
Proof.
  intros Hact H0 Hl Htime Hconf. cbv zeta. unfold client_update. rewrite Hact. cbn [negb drain].
  rewrite take_ge by (unfold kMaxDatagramSize in *; lia). rewrite (proj2 (Z.leb_gt _ _)) by lia.
  rewrite bool_decide_true by done. set (c1 := process_datagram _ _ _ _ _) in *. clearbody c1.
  set (c1' := set_endpoint _ c1). destruct (tick_view now c1') as (V1 & V2 & V3). set (c2 := client_tick now c1') in *. clearbody c2.
  assert (Hc : (ccf_timeout_us (cc_config c2) <? u64 (now - cc_last_receive_us c2)) = false).
  { apply Z.ltb_ge. rewrite V2. change (cc_last_receive_us c1') with (cc_last_receive_us c1).
    assert (E : cc_config c2 = cc_config c1) by (apply (f_equal (fun v => v.1.1.1.1.1)) in V1; exact V1). by rewrite E, Hconf. }
  rewrite Hc. split; [exact V1|]. split; [exact V2|exact V3].
Qed.

(** The first [update] after [start] sends the request. *)
Lemma request_sent now (c : Client) : cc_state c = kSendingRequest -> cc_last_send_us c = 0 -> fits 64 now ->
  ccf_retry_interval_us (cc_config c) <= now -> u64 (now - cc_last_receive_us c) <= ccf_timeout_us (cc_config c) ->
  let c1 := update [] now c in
  client_view c1 = client_view c /\ cc_last_receive_us c1 = cc_last_receive_us c /\
  (ccf_server (cc_config c), request_packet (cc_client_salt c) (ccf_token (cc_config c))) ∈ cc_sent c1.
Proof.
  intros Hst Hls Hnow Hdue Htime. cbv zeta. unfold client_update, active. rewrite Hst. cbn [negb drain].
  rewrite !bool_decide_false by done. cbn [orb negb]. unfold client_tick. cbn [cc_state set_endpoint]. rewrite Hst.
  cbn [cc_last_send_us cc_config set_endpoint]. rewrite Hls, Z.sub_0_r, wrap_small by done. rewrite (proj2 (Z.leb_le _ _)) by done.
  cbn [cc_config cc_last_receive_us send_connection_request set_sent_time client_send set_endpoint].
  rewrite (proj2 (Z.ltb_ge _ _)) by done. split; [|split; [done|]].
  - unfold client_view. cbn. by rewrite Hst.
  - apply elem_of_app. right. by left.
Qed.

Lemma challenge_answered ss now (c : Client) : cc_state c = kSendingRequest -> fits 64 (cc_client_salt c) -> fits 64 ss ->
  let c1 := process_datagram client_on_payload client_on_message (challenge_packet (cc_client_salt c) ss) now c in
  client_view c1 = (cc_config c, kSendingResponse, cc_client_salt c, ss, cc_client_id c, cc_entity c) /\
  cc_last_receive_us c1 = now /\ (ccf_server (cc_config c), response_packet (Z.lxor (cc_client_salt c) ss)) ∈ cc_sent c1.
Proof.
  intros Hst Hcs Hss. destruct (challenge_seen (cc_client_salt c) ss Hcs Hss) as (R1 & R2 & _).
  set (p := challenge_packet _ _) in *. clearbody p. cbv zeta. unfold process_datagram. rewrite R1. unfold process_challenge. rewrite R2.
  rewrite Z.eqb_refl. cbn [orb negb]. rewrite bool_decide_true by done. cbn [negb].
  split; [done|]. split; [done|]. apply elem_of_app. right. by left.
Qed.

Lemma acceptance_connects salt id entity now (c : Client) : cc_state c = kSendingResponse -> xor_salt c = salt ->
  fits 64 salt -> fits 32 id -> fits 32 entity ->
  let c1 := process_datagram client_on_payload client_on_message (accepted_packet salt id entity) now c in
  client_view c1 = (cc_config c, kConnected, cc_client_salt c, cc_server_salt c, id, entity) /\ cc_last_receive_us c1 = now.
Proof.
  intros Hst Hx Hs Hid Hent. destruct (accepted_seen salt id entity Hs Hid Hent) as (R1 & R2 & _).
  set (p := accepted_packet _ _ _) in *. clearbody p. cbv zeta. unfold process_datagram. rewrite R1. unfold process_accepted. rewrite R2.
  rewrite Hx, Z.eqb_refl. cbn [orb negb]. rewrite bool_decide_true by done. done.
Qed.
End Handshake.

(** ** Properties *)
(** C13. The handshake completes.  A client that starts while the server has room
    and no connection or older handshake for its address, whose token the owner
    admits, whose connection the owner's callback keeps ([WellBehaved]), and whose four
    datagrams arrive within the timeout, ends connected;
    the server then has a connection for that address, and both sides agree on
    the salt, the client id and the entity. *)
Theorem handshake_completes {App ClientApp} (handlers : Handlers App) `{!WellBehaved handlers} (random client_random : nat -> Z)
    (on_data : list Z -> ClientApp -> ClientApp) (on_event : ReliableMessage -> ClientApp -> ClientApp)
    (s : ConnectionServer App) (c : ClientConnection ClientApp) (config : ClientConfig) (from : Address) (t0 t1 t2 t3 n1 n2 : Z) :
  (forall i, fits 64 (random i)) -> (forall i, fits 64 (client_random i)) -> server_ok s ->
  Forall (fits 8) (ccf_token config) -> length (ccf_token config) = 32%nat ->
  sv_connections s !! from = None -> sv_pending s !! from = None ->
  Z.of_nat (size (sv_connections s)) < sc_max_connections (sv_config s) ->
  (forall s1, sv_app s1 = sv_app s -> de_admit (fst (decide_admission handlers from (ccf_token config) s1)) = true) ->
  0 <= t0 <= t1 -> t1 <= t2 <= t3 -> t3 < 2 ^ 64 -> t3 - t0 <= ccf_timeout_us config -> ccf_retry_interval_us config <= t1 ->
  let srv := ccf_server config in
  let c1 := client_update on_data on_event [] t1 (snd (client_start client_random config true t0 c)) in
  exists cs ss s1 s2 connection,
    (srv, request_packet cs (ccf_token config)) ∈ cc_sent c1 /\
    receive handlers random [(from, request_packet cs (ccf_token config))] n1 s = Some (1, s1) /\
    (from, challenge_packet cs ss) ∈ sv_sent s1 /\
    let c2 := client_update on_data on_event [(srv, challenge_packet cs ss)] t2 c1 in
    (srv, response_packet (Z.lxor cs ss)) ∈ cc_sent c2 /\
    receive handlers random [(from, response_packet (Z.lxor cs ss))] n2 s1 = Some (1, s2) /\
    sv_connections s2 !! from = Some connection /\
    (from, accepted_packet (cn_salt connection) (cn_client_id connection) (cn_entity connection)) ∈ sv_sent s2 /\
    let c3 := client_update on_data on_event
                [(srv, accepted_packet (cn_salt connection) (cn_client_id connection) (cn_entity connection))] t3 c2 in
    cc_state c3 = kConnected /\ xor_salt c3 = cn_salt connection /\ cc_client_id c3 = cn_client_id connection /\
    cc_entity c3 = cn_entity connection.
Proof.
  intros Hr Hcr Hs Htok Hlen Hnew Hnop Hroom Hadm H0 H12 H3 Htime Hretry srv.
  destruct (salt_ok client_random Hcr (cc_random c)) as [Hcs Hcz]. set (cs := generate_salt client_random (cc_random c)) in *.
  assert (Hdelta : forall a b, t0 <= a <= b -> b <= t3 -> u64 (b - a) <= ccf_timeout_us config).
  { intros a b Ha Hb. rewrite wrap_small by (split; lia). lia. }
  set (c0 := snd (client_start client_random config true t0 c)).
  destruct (request_sent on_data on_event t1 c0) as (V1 & L1 & S1); [done|done|split; lia|done|apply Hdelta; cbn; lia|].
  set (c1 := client_update on_data on_event [] t1 c0) in *. clearbody c1. cbv zeta.
  assert (E1 : cc_config c1 = config /\ cc_state c1 = kSendingRequest /\ cc_client_salt c1 = cs /\ cc_last_receive_us c1 = t0).
  { destruct (view_fields _ _ _ _ _ _ _ V1) as (A1 & A2 & A3 & _).
    split; [exact A1|]. split; [exact A2|]. split; [exact A3|exact L1]. }
  destruct E1 as (C1 & T1 & X1 & R1).
  destruct (request_challenged handlers random Hr from cs (ccf_token config) n1 s Hs Hcs Hcz Htok Hlen Hnew Hroom
    ltac:(intros p Hp; by rewrite Hnop in Hp)) as (ss & s1 & Hss & Er & Ep & Ec & Es & Ea).
  assert (Hs1 : server_ok s1).
  { pose proof (receive_ok handlers random Hr [(from, request_packet cs (ccf_token config))] n1 s Hs) as Hrec. rewrite Er in Hrec. apply Hrec.
    apply List.Forall_cons; [|constructor]. apply (request_seen cs _ Hcs Htok Hlen). }
  destruct (challenge_answered on_data on_event ss t2 c1 T1 ltac:(by rewrite X1) Hss) as (V2 & L2 & S2). rewrite X1, C1 in *.
  destruct (challenge_seen cs ss Hcs Hss) as (_ & _ & Hchl).
  destruct (update_one on_data on_event (challenge_packet cs ss) t2 c1) as (V3 & L3 & P3).
  { unfold active. by rewrite T1. } { lia. } { unfold kMaxDatagramSize. lia. }
  { rewrite L2, C1. apply Hdelta; lia. } { rewrite C1. exact (proj1 (view_fields _ _ _ _ _ _ _ V2)). }
  rewrite C1 in *. fold srv in V3, L3, P3. set (c2 := client_update on_data on_event [(srv, challenge_packet cs ss)] t2 c1) in *.
  rewrite V2 in V3. rewrite L2 in L3.
  assert (Dc2 : client_update on_data on_event [(srv, challenge_packet cs ss)] t2 c1 = c2) by reflexivity. clearbody c2.
  assert (E2 : cc_config c2 = config /\ cc_state c2 = kSendingResponse /\ cc_client_salt c2 = cs /\ cc_server_salt c2 = ss).
  { destruct (view_fields _ _ _ _ _ _ _ V3) as (A1 & A2 & A3 & A4 & _).
    split; [exact A1|]. split; [exact A2|]. split; [exact A3|exact A4]. }
  destruct E2 as (C2 & T2 & X2 & Y2).
  destruct (response_accepted handlers random from cs ss (ccf_token config) n1 n2 s1 Hs1) as (conn & s2 & Er2 & Ec2 & Esalt & Hok & Hacc & _);
    [by rewrite Ec|done|by apply Hadm|].
  destruct Hok as [_ O2 O3 O4].
  destruct (acceptance_connects on_data on_event (cn_salt conn) (cn_client_id conn) (cn_entity conn) t3 c2 T2) as (V4 & L4);
    [by unfold xor_salt; rewrite X2, Y2|done..|].
  destruct (accepted_seen (cn_salt conn) (cn_client_id conn) (cn_entity conn) O2 O3 O4) as (_ & _ & Hal).
  destruct (update_one on_data on_event (accepted_packet (cn_salt conn) (cn_client_id conn) (cn_entity conn)) t3 c2) as (V5 & _ & _).
  { unfold active. by rewrite T2. } { lia. } { unfold kMaxDatagramSize. lia. }
  { rewrite L4, C2. apply Hdelta; lia. } { exact (proj1 (view_fields _ _ _ _ _ _ _ V4)). }
  rewrite C2 in V5. fold srv in V5. rewrite V4 in V5.
  exists cs, ss, s1, s2, conn. split; [exact S1|]. split; [exact Er|]. split; [rewrite Es; apply elem_of_app; right; by left|].
  cbv zeta. rewrite Dc2. split; [destruct P3 as [l El]; rewrite El; apply elem_of_app; left; exact S2|]. split; [exact Er2|]. split; [exact Ec2|]. split; [exact Hacc|].
  clear Er Er2. set (c3 := client_update _ _ _ t3 c2) in *. clearbody c3.
  destruct (view_fields _ _ _ _ _ _ _ V5) as (_ & E0 & E1 & E2 & E3 & E4).
  split; [exact E0|]. split; [|split; [exact E3|exact E4]]. unfold xor_salt. by rewrite E1, E2, X2, Y2.
Qed.

(** Owner and randomness for the witnesses: every token is admitted under a fresh
    id, and the entity of a connection is its port. *)
Definition plain_handlers : Handlers unit :=
  mkHandlers None (fun from s => Some (assign_entity (fun a => u32 (ad_port a)) from s)) (fun _ _ app => app) (fun _ _ app => app) (fun _ _ app => app).

#[export] Instance plain_well_behaved : WellBehaved plain_handlers.
Proof. split; [intros from s; eexists; split; [done|]; apply assign_entity_calm; intros a; apply wrap_range; lia|done]. Qed.

Definition counting (i : nat) : Z := u64 (Z.of_nat i).

Lemma counting_fits i : fits 64 (counting i).
Proof. apply wrap_range. lia. Qed.

Definition idle_client : ClientConnection unit :=
  mkClient (mkClientConfig (mkAddress 0 0) [] 0 0 0) kDisconnected 2 0 0 0 0 0 0 0 ReliableEndpoint_new 0 [] tt.
Definition demo_config : ClientConfig := mkClientConfig (mkAddress 1 4000) (replicate 32 7) 5000000 100000 100000.

Lemma handshake_completes_witness : ccf_server demo_config = mkAddress 1 4000 /\
  let c1 := client_update (fun _ a => a) (fun _ a => a) [] 200000 (snd (client_start counting demo_config true 100000 idle_client)) in
  exists cs ss s1 s2 connection,
    (ccf_server demo_config, request_packet cs (ccf_token demo_config)) ∈ cc_sent c1 /\
    receive plain_handlers counting [(mkAddress 2 5000, request_packet cs (ccf_token demo_config))] 1 (server_new tt) = Some (1, s1) /\
    (mkAddress 2 5000, challenge_packet cs ss) ∈ sv_sent s1 /\
    let c2 := client_update (fun _ a => a) (fun _ a => a) [(ccf_server demo_config, challenge_packet cs ss)] 300000 c1 in
    (ccf_server demo_config, response_packet (Z.lxor cs ss)) ∈ cc_sent c2 /\
    receive plain_handlers counting [(mkAddress 2 5000, response_packet (Z.lxor cs ss))] 2 s1 = Some (1, s2) /\
    sv_connections s2 !! mkAddress 2 5000 = Some connection /\
    (mkAddress 2 5000, accepted_packet (cn_salt connection) (cn_client_id connection) (cn_entity connection)) ∈ sv_sent s2 /\
    let c3 := client_update (fun _ a => a) (fun _ a => a)
                [(ccf_server demo_config, accepted_packet (cn_salt connection) (cn_client_id connection) (cn_entity connection))] 400000 c2 in
    cc_state c3 = kConnected /\ xor_salt c3 = cn_salt connection /\ cc_client_id c3 = cn_client_id connection /\
    cc_entity c3 = cn_entity connection.
Proof.
  split; [reflexivity|].
  apply (handshake_completes plain_handlers counting counting (fun _ a => a) (fun _ a => a) (server_new tt) idle_client demo_config
    (mkAddress 2 5000) 100000 200000 300000 400000 1 2).
  - exact counting_fits.
  - exact counting_fits.
  - apply server_new_ok.
  - by apply Forall_replicate; split.
  - reflexivity.
  - reflexivity.
  - reflexivity.
  - reflexivity.
  - reflexivity.
  - lia.
  - lia.
  - lia.
  - cbn. lia.
  - cbn. lia.
Defined.

Lemma request_replies {App} random from body now_us (s : ConnectionServer App) : (forall i, fits 64 (random i)) -> server_ok s ->
  Forall (fits 8) body -> Z.of_nat (length body) <= 2000 ->
  let s' := handle_connection_request random from body now_us s in
  exists replies, sv_sent s' = sv_sent s ++ replies /\
    (replies = [] \/ exists reply, replies = [(from, reply)] /\ (length reply <= 21)%nat /\ (1040 <= length body)%nat).
Proof.
  intros Hr Hs Hf Hl. cbv zeta. pose proof (handle_connection_request_ok random Hr from body now_us s Hs Hf Hl) as Hok.
  pose proof (request_salt body Hf Hl) as Hy.
  assert (Hnone : exists replies, sv_sent (count_invalid s) = sv_sent s ++ replies /\
    (replies = [] \/ exists reply, replies = [(from, reply)] /\ (length reply <= 21)%nat /\ (1040 <= length body)%nat)).
  { exists []. rewrite app_nil_r. split; [done|by left]. }
  unfold handle_connection_request in *. change (u32 (8 + kConnectTokenBytes + kConnectionRequestPadding)) with 1040 in *.
  destruct (Z.ltb_spec (Z.of_nat (length body)) 1040); [exact Hnone|].
  destruct (read_body _ body) as [[client_salt token] overflow]. cbn [fst] in Hy.
  destruct (overflow || _); [exact Hnone|].
  destruct (sv_connections s !! from) as [existing|] eqn:Ec.
  { eexists. split; [reflexivity|]. right. eexists. split; [|split; [|lia]].
    - destruct (so_tables _ Hs) as [T _]. by rewrite (co_address _ _ (T from existing Ec)).
    - destruct (so_tables _ Hs) as [T _]. destruct (T from existing Ec) as [_ O1 O2 O3].
      destruct (accepted_seen _ _ _ O1 O2 O3) as (_ & _ & ->). lia. }
  destruct (_ <=? _).
  { eexists. split; [reflexivity|]. right. eexists. split; [reflexivity|]. rewrite denied_length. lia. }
  set (pending := default _ _) in *. 
  assert (Hone : forall p s1, server_ok (send_challenge from (ph_client_salt p) (ph_server_salt p) (set_pending (<[from := p]> (sv_pending s1)) s1) : ConnectionServer App) ->
    sv_sent s1 = sv_sent s -> exists replies, sv_sent (send_challenge from (ph_client_salt p) (ph_server_salt p)
      (set_pending (<[from := p]> (sv_pending s1)) s1)) = sv_sent s ++ replies /\
    (replies = [] \/ exists reply, replies = [(from, reply)] /\ (length reply <= 21)%nat /\ (1040 <= length body)%nat)).
  { intros p s1 [_ H2 _ _] E. eexists. cbn [sv_sent send_challenge send_to set_pending]. rewrite E. split; [reflexivity|]. right.
    eexists. split; [reflexivity|]. destruct (H2 from p) as (_ & F1 & F2 & _); [cbn; by rewrite lookup_insert_eq|].
    destruct (challenge_seen _ _ F1 F2) as (_ & _ & ->). lia. }
  destruct (negb _); cbn [draw] in Hok |- *;
    match goal with |- context [set_pending (<[from := ?p]> _) ?s1] => apply (Hone p s1); [exact Hok|reflexivity] end.
Qed.


(** *** Witness: an owner that keeps one connection at a time *)
(** It drops the connection of client 1 whenever another one is made, and disconnects
    client 3 at once. *)
Definition jealous_handlers : Handlers unit :=
  mkHandlers None (fun from s =>
    let s := match find 1 s with
      | Some c => if bool_decide (cn_address c = from) then s else disconnect plain_handlers c "one at a time" s
      | None => s
      end in
    match find 3 s with Some c => Some (disconnect plain_handlers c "not you" s) | None => Some s end)
    (fun _ _ app => app) (fun _ _ app => app) (fun _ _ app => app).

#[export] Instance jealous_tame : Tame jealous_handlers.
Proof.
  split; [|done]. intros from s s'. cbn [on_connect jealous_handlers]. set (s1 := match find 1 s with Some _ => _ | None => _ end).
  assert (H1 : tame s s1) by (subst s1; destruct (find 1 s); [case_bool_decide; [done|apply disconnect_tame]|done]).
  clearbody s1. destruct (find 3 s1) as [c|]; intros [= <-]; [etransitivity; [exact H1|apply disconnect_tame]|exact H1].
Qed.

Definition handshake_from (from : Address) (client_salt server_salt : Z) : list Datagram :=
  [(from, request_packet client_salt (replicate 32 7)); (from, response_packet (Z.lxor client_salt server_salt))].

Lemma datagrams_bytes (waiting : list Datagram) : forallb (fun d => forallb (fun b => (0 <=? b) && (b <? 256)) d.2) waiting = true ->
  Forall (fun d => Forall (fits 8) d.2) waiting.
Proof.
  intros Hb. apply List.Forall_forall. intros d Hd. rewrite forallb_forall in Hb. specialize (Hb d Hd).
  apply List.Forall_forall. intros b Hbd. rewrite forallb_forall in Hb. specialize (Hb b Hbd). unfold fits. lia.
Qed.

(** Client 1 arrives, then client 2; later client 3. *)
Definition arrivals : list Datagram := handshake_from (mkAddress 2 5000) 5 1 ++ handshake_from (mkAddress 3 5000) 6 1.
Definition last_arrival : list Datagram := handshake_from (mkAddress 4 5000) 7 2.

Lemma arrivals_bytes : Forall (fun d => Forall (fits 8) d.2) arrivals /\ Forall (fun d => Forall (fits 8) d.2) last_arrival.
Proof. split; apply datagrams_bytes; vm_compute; reflexivity. Qed.

Definition jealous_check (result : option (Z * ConnectionServer unit)) : bool :=
  match result with
  | Some (n, s) => (n =? 4) && bool_decide (cn_client_id <$> sv_connections s = {[mkAddress 3 5000 := 2]}) &&
      match receive jealous_handlers counting last_arrival 7 s with None => true | Some _ => false end
  | None => false
  end.

Lemma jealous_checked : jealous_check (receive jealous_handlers counting arrivals 5 (server_new tt)) = true.
Proof. vm_compute. reflexivity. Qed.

Lemma jealous_reached : exists n s, receive jealous_handlers counting arrivals 5 (server_new tt) = Some (n, s) /\
  cn_client_id <$> sv_connections s = {[mkAddress 3 5000 := 2]} /\ receive jealous_handlers counting last_arrival 7 s = None.
Proof.
  pose proof jealous_checked as H. destruct (receive jealous_handlers counting arrivals 5 (server_new tt)) as [[n s]|]; [|discriminate H].
  exists n, s. split; [done|]. cbn [jealous_check] in H. apply andb_prop in H as [[_ H1%bool_decide_eq_true]%andb_prop H2].
  split; [exact H1|]. by destruct (receive jealous_handlers counting last_arrival 7 s).
Qed.


(** [max_connections] is only tested when a handshake begins: a response that
    completes a pending handshake is accepted when the server is full, and then
    there are more connections than allowed (unless the owner drops one). *)
Theorem capacity_not_enforced {App} (handlers : Handlers App) `{!WellBehaved handlers} (random : nat -> Z)
    (s : ConnectionServer App) (from : Address) (client_salt server_salt : Z) (token : list Z) (started now_us : Z) :
  server_ok s -> sv_connections s !! from = None ->
  sv_pending s !! from = Some (mkPendingHandshake client_salt server_salt token started) ->
  de_admit (fst (decide_admission handlers from token s)) = true ->
  (forall s1 s2, on_connect handlers from s1 = Some s2 -> dom (sv_connections s2) = dom (sv_connections s1)) ->
  sc_max_connections (sv_config s) <= Z.of_nat (size (sv_connections s)) ->
  exists s', receive handlers random [(from, response_packet (Z.lxor client_salt server_salt))] now_us s = Some (1, s') /\
    sc_max_connections (sv_config s) < Z.of_nat (size (sv_connections s')).
Proof.
  intros Hs Hnew Hp Hadm Hkeep Hfull.
  destruct (response_accepted handlers random from client_salt server_salt token started now_us s Hs Hnew Hp Hadm)
    as (c & s' & E1 & _ & _ & _ & _ & c0 & s3 & s4 & E3 & Eoc & E4).
  exists s'. split; [exact E1|]. rewrite <- size_dom, E4, (Hkeep _ _ Eoc), size_dom, E3, map_size_insert_None by done. lia.
Qed.

(** A server that allows no connection at all, with one handshake begun before. *)
Definition full_server : ConnectionServer unit :=
  start (mkServerConfig (mkAddress 0 0) 0 5000000 100000)
    (handle_connection_request counting (mkAddress 2 5000) (body_of (request_packet 5 (replicate 32 7))) 0 (server_new tt)).

Lemma capacity_not_enforced_witness : sc_max_connections (sv_config full_server) = 0 /\
  exists s', receive plain_handlers counting [(mkAddress 2 5000, response_packet (Z.lxor 5 1))] 9 full_server = Some (1, s') /\
    sc_max_connections (sv_config full_server) < Z.of_nat (size (sv_connections s')).
Proof.
  split; [reflexivity|].
  assert (Htok : Forall (fits 8) (replicate 32 7)) by (by apply Forall_replicate; split).
  destruct (request_seen 5 (replicate 32 7) ltac:(split; lia) Htok eq_refl) as (_ & _ & Hl & Hf).
  apply (capacity_not_enforced plain_handlers counting full_server (mkAddress 2 5000) 5 1 (replicate 32 7) 0 9).
  - apply (serves_ok plain_handlers counting counting_fits _ full_server (serve_start plain_handlers counting _ _)).
    apply handle_connection_request_ok; [exact counting_fits|apply server_new_ok|by apply Forall_drop|].
    unfold body_of. rewrite length_drop, Hl. cbn. lia.
  - vm_compute. reflexivity.
  - vm_compute. reflexivity.
  - reflexivity.
  - intros s1 s2 [= <-]. unfold assign_entity.
    destruct (sv_connections s1 !! mkAddress 2 5000) as [c|] eqn:Ec; [|done].
    cbn [set_connection set_connections sv_connections]. by apply dom_insert_lookup_L.
  - vm_compute. discriminate.
Defined.
