(* ===== verification/ClientView.v ===== *)
(** * ClientView: prediction, reconciliation and interpolation on the client
    ([src/src/sim/client_view.h], [client_view.cpp])

    The client's mirror of the world: it predicts the local player with the
    server's integrator, replays unacknowledged inputs when a snapshot arrives,
    keeps the frames later deltas start from, and interpolates the others. *)

From S2P Require Import Prelude Bitstream F32 Quantizer Movement Morton Grid EntityStore World Snapshot.
From Stdlib Require Import ZArith Lia Bool Floats.SpecFloat.
From stdpp Require Import base tactics numbers list option gmap sorting relations.
#[local] Open Scope Z_scope.

(** ** Data *)
Record ClientViewConfig := mkClientViewConfig {
  vc_interpolation_delay_ticks : f32;
  vc_correction_smoothing : f32;
  vc_correction_snap_distance : f32;
  vc_input_history : nat;
  vc_snapshot_history : nat
}.

Definition ClientViewConfig_default : ClientViewConfig := mkClientViewConfig (f32_of_Z 2) (f32_lit 1 4) (f32_of_Z 120) 128 32.

Record RenderEntity := mkRenderEntity {
  re_id : Z;
  re_position : Vec2;
  re_velocity : Vec2;
  re_kind : Z;
  re_is_local : bool
}.

Record ClientViewStats := mkClientViewStats {
  cs_snapshots_applied : Z;
  cs_snapshots_rejected : Z;
  cs_reconciliations : Z;
  cs_replayed_inputs : Z;
  cs_hard_snaps : Z;
  cs_last_prediction_error : f32;
  cs_peak_prediction_error : f32;
  cs_mean_prediction_error : f32;
  cs_known_entities : Z;
  cs_pending_inputs : Z
}.

Definition ClientViewStats_zero : ClientViewStats := mkClientViewStats 0 0 0 0 0 f0 f0 f0 0 0.

Record InterpolationFrame := mkInterpolationFrame { if_tick : Z; if_states : list EntityWireState }.

Definition MoveState_zero : MoveState := mkMoveState (mkVec2 f0 f0) (mkVec2 f0 f0).
Definition vzero : Vec2 := mkVec2 f0 f0.

(** Prediction, and the inputs the server has not acknowledged. *)
Record Prediction := mkPrediction {
  pr_predicted : MoveState;
  pr_authoritative : MoveState;
  pr_correction_offset : Vec2;
  pr_input_history : list MoveInput;
  pr_next_input_sequence : Z;
  pr_last_acknowledged_input : Z;
  pr_error_sum : f64;
  pr_error_samples : Z
}.

Record ClientView := mkClientView {
  cv_params : WorldParams;
  cv_config : ClientViewConfig;
  cv_quantizers : ReplicationQuantizers;
  cv_local_entity : Z;
  cv_prediction : Prediction;
  cv_baselines : SnapshotHistory;
  cv_frames : list InterpolationFrame;
  cv_latest_tick : Z;
  cv_has_snapshot : bool;
  cv_render_tick : f32;
  cv_render_clock_started : bool;
  cv_render : list RenderEntity;
  cv_stats : ClientViewStats
}.

Definition kRenderClockSnapTicks : f32 := f32_of_Z 10.
Definition kRenderClockCatchupRate : f32 := f32_lit 8 100.

(** [find_state] of [client_view.cpp]: binary search by id. *)
Definition view_find_state (states : list EntityWireState) (id : Z) : option EntityWireState :=
  match states !! lower_bound states id with
  | Some s => if negb (ws_id s =? id) then None else Some s
  | None => None
  end.

(** ** Field updates *)
Definition set_prediction (p : Prediction) (v : ClientView) : ClientView :=
  mkClientView (cv_params v) (cv_config v) (cv_quantizers v) (cv_local_entity v) p (cv_baselines v) (cv_frames v)
    (cv_latest_tick v) (cv_has_snapshot v) (cv_render_tick v) (cv_render_clock_started v) (cv_render v) (cv_stats v).
Definition set_view_stats (st : ClientViewStats) (v : ClientView) : ClientView :=
  mkClientView (cv_params v) (cv_config v) (cv_quantizers v) (cv_local_entity v) (cv_prediction v) (cv_baselines v) (cv_frames v)
    (cv_latest_tick v) (cv_has_snapshot v) (cv_render_tick v) (cv_render_clock_started v) (cv_render v) st.
Definition set_render (l : list RenderEntity) (v : ClientView) : ClientView :=
  mkClientView (cv_params v) (cv_config v) (cv_quantizers v) (cv_local_entity v) (cv_prediction v) (cv_baselines v) (cv_frames v)
    (cv_latest_tick v) (cv_has_snapshot v) (cv_render_tick v) (cv_render_clock_started v) l (cv_stats v).
Definition set_render_clock (t : f32) (started : bool) (v : ClientView) : ClientView :=
  mkClientView (cv_params v) (cv_config v) (cv_quantizers v) (cv_local_entity v) (cv_prediction v) (cv_baselines v) (cv_frames v)
    (cv_latest_tick v) (cv_has_snapshot v) t started (cv_render v) (cv_stats v).
Definition set_pending_inputs (n : Z) (st : ClientViewStats) : ClientViewStats :=
  mkClientViewStats (cs_snapshots_applied st) (cs_snapshots_rejected st) (cs_reconciliations st) (cs_replayed_inputs st)
    (cs_hard_snaps st) (cs_last_prediction_error st) (cs_peak_prediction_error st) (cs_mean_prediction_error st)
    (cs_known_entities st) n.
Definition count_rejected (st : ClientViewStats) : ClientViewStats :=
  mkClientViewStats (cs_snapshots_applied st) (u32 (cs_snapshots_rejected st + 1)) (cs_reconciliations st) (cs_replayed_inputs st)
    (cs_hard_snaps st) (cs_last_prediction_error st) (cs_peak_prediction_error st) (cs_mean_prediction_error st)
    (cs_known_entities st) (cs_pending_inputs st).
Definition note_applied (known : Z) (st : ClientViewStats) : ClientViewStats :=
  mkClientViewStats (u32 (cs_snapshots_applied st + 1)) (cs_snapshots_rejected st) (cs_reconciliations st) (cs_replayed_inputs st)
    (cs_hard_snaps st) (cs_last_prediction_error st) (cs_peak_prediction_error st) (cs_mean_prediction_error st)
    known (cs_pending_inputs st).

(** ** Lifecycle *)
Definition view_reset (v : ClientView) : ClientView :=
  mkClientView (cv_params v) (cv_config v) (cv_quantizers v) (cv_local_entity v)
    (mkPrediction MoveState_zero MoveState_zero vzero [] 1 0 (S754_zero false) 0)
    (history_reset (cv_baselines v)) [] 0 false f0 false [] ClientViewStats_zero.

Definition view_configure (params : WorldParams) (config : ClientViewConfig) (v : ClientView) : ClientView :=
  view_reset
    (mkClientView params config (ReplicationQuantizers_from params) (cv_local_entity v) (cv_prediction v)
      (history_configure (vc_snapshot_history config)) (cv_frames v) (cv_latest_tick v) (cv_has_snapshot v)
      (cv_render_tick v) (cv_render_clock_started v) (cv_render v) (cv_stats v)).

Definition set_local_entity (entity : Z) (v : ClientView) : ClientView :=
  mkClientView (cv_params v) (cv_config v) (cv_quantizers v) entity (cv_prediction v) (cv_baselines v) (cv_frames v)
    (cv_latest_tick v) (cv_has_snapshot v) (cv_render_tick v) (cv_render_clock_started v) (cv_render v) (cv_stats v).

Definition adopt_migrated_state (entity : Z) (position velocity : Vec2) (v : ClientView) : ClientView :=
  let p := cv_prediction v in
  let state := mkMoveState position velocity in
  mkClientView (cv_params v) (cv_config v) (cv_quantizers v) entity
    (mkPrediction state state vzero [] (pr_next_input_sequence p) (pr_last_acknowledged_input p) (pr_error_sum p) (pr_error_samples p))
    (history_reset (cv_baselines v)) [] (cv_latest_tick v) false (cv_render_tick v) false (cv_render v) (cv_stats v).

Section View.
Context `{Platform}.

(** The integrator, as both prediction and replay call it. *)
Definition step_view (params : WorldParams) (state : MoveState) (input : MoveInput) : MoveState :=
  step_movement state input params (tick_dt params).

(** [while (input_history_.size() > config_.input_history) input_history_.pop_front();] *)
Definition trim {T} (limit : nat) (l : list T) : list T := drop (length l - limit) l.

Definition push_input (move_axis : Vec2) (sprint : bool) (client_tick : Z) (v : ClientView) : MoveInput * ClientView :=
  let p := cv_prediction v in
  let input := quantize_input (mkMoveInput (pr_next_input_sequence p) client_tick (vec_x move_axis) (vec_y move_axis) sprint) in
  let history := trim (vc_input_history (cv_config v)) (pr_input_history p ++ [input]) in
  let p := mkPrediction (step_view (cv_params v) (pr_predicted p) input) (pr_authoritative p) (pr_correction_offset p) history
             (u32 (pr_next_input_sequence p + 1)) (pr_last_acknowledged_input p) (pr_error_sum p) (pr_error_samples p) in
  (input, set_view_stats (set_pending_inputs (u32 (Z.of_nat (length history))) (cv_stats v)) (set_prediction p v)).

(** ** Reconciliation *)
(** [while (!empty() && front().sequence <= acknowledged) pop_front();] *)
Fixpoint drop_acknowledged (acknowledged : Z) (history : list MoveInput) : list MoveInput :=
  match history with
  | [] => []
  | input :: history' => if mi_sequence input <=? acknowledged then drop_acknowledged acknowledged history' else history
  end.

Definition decoded_state (q : ReplicationQuantizers) (s : EntityWireState) : MoveState :=
  mkMoveState (mkVec2 (q_decode (rq_position q) (ws_px s)) (q_decode (rq_position q) (ws_py s)))
    (mkVec2 (q_decode (rq_velocity q) (ws_vx s)) (q_decode (rq_velocity q) (ws_vy s))).

Definition mine (entity : Z) (states : list EntityWireState) : option EntityWireState :=
  List.find (fun s => ws_id s =? entity) states.

Definition reconcile (snapshot : DecodedSnapshot) (v : ClientView) : ClientView :=
  match mine (cv_local_entity v) (ds_states snapshot) with
  | None => v
  | Some state =>
      let p := cv_prediction v in
      if ds_last_input_sequence snapshot <? pr_last_acknowledged_input p then v else
      let authoritative := decoded_state (cv_quantizers v) state in
      let history := drop_acknowledged (ds_last_input_sequence snapshot) (pr_input_history p) in
      let previous_prediction := ms_position (pr_predicted p) in
      let replayed := foldl (step_view (cv_params v)) authoritative history in
      let error := vlength (vsub (ms_position replayed) previous_prediction) in
      let error_sum := f64_add (pr_error_sum p) (f64_of_f32 error) in
      let error_samples := u32 (pr_error_samples p + 1) in
      let snap := fgtb error (vc_correction_snap_distance (cv_config v)) in
      let offset := if snap then vzero
                    else vadd (vsub previous_prediction (ms_position replayed)) (pr_correction_offset p) in
      let st := cv_stats v in
      let st := mkClientViewStats (cs_snapshots_applied st) (cs_snapshots_rejected st)
        (if fgtb error f0 then u32 (cs_reconciliations st + 1) else cs_reconciliations st)
        (u32 (cs_replayed_inputs st + Z.of_nat (length history)))
        (if snap then u32 (cs_hard_snaps st + 1) else cs_hard_snaps st)
        error (if fgtb error (cs_peak_prediction_error st) then error else cs_peak_prediction_error st)
        (f32_of_f64 (f64_div error_sum (f64_of_Z error_samples)))
        (cs_known_entities st) (u32 (Z.of_nat (length history))) in
      set_view_stats st
        (set_prediction (mkPrediction replayed authoritative offset history (pr_next_input_sequence p)
                           (ds_last_input_sequence snapshot) error_sum error_samples) v)
  end.

(** ** Snapshots *)
(** [std::lower_bound] on the frames, then replace or insert. *)
Fixpoint place_frame (frame : InterpolationFrame) (frames : list InterpolationFrame) : list InterpolationFrame :=
  match frames with
  | [] => [frame]
  | f :: frames' =>
      if if_tick f <? if_tick frame then f :: place_frame frame frames'
      else if if_tick f =? if_tick frame then frame :: frames'
      else frame :: frames
  end.

Definition accept_snapshot (snapshot : DecodedSnapshot) (v : ClientView) : ClientView :=
  let frame := mkSnapshotFrame (ds_tick snapshot) true (ds_states snapshot) in
  let frames := trim (vc_snapshot_history (cv_config v))
                  (place_frame (mkInterpolationFrame (ds_tick snapshot) (ds_states snapshot)) (cv_frames v)) in
  mkClientView (cv_params v) (cv_config v) (cv_quantizers v)
    (if negb (ds_viewer snapshot =? 0) then ds_viewer snapshot else cv_local_entity v) (cv_prediction v)
    (history_put (cv_baselines v) (ds_tick snapshot) frame) frames
    (if negb (cv_has_snapshot v) || sequence_greater32 (ds_tick snapshot) (cv_latest_tick v) then ds_tick snapshot else cv_latest_tick v)
    true (cv_render_tick v) (cv_render_clock_started v) (cv_render v)
    (note_applied (u32 (Z.of_nat (length (ds_states snapshot)))) (cv_stats v)).

Definition apply_snapshot (data : list Z) (v : ClientView) : bool * ClientView :=
  let rejected := (false, set_view_stats (count_rejected (cv_stats v)) v) in
  let r := BitReader_new data (Z.of_nat (length data)) in
  match fst (peek_snapshot_header r) with
  | None => rejected
  | Some (_, baseline_tick, full) =>
      let baseline := if full : bool then None else history_get (cv_baselines v) baseline_tick in
      if negb full && bool_decide (baseline = None) then rejected else
      match fst (decode_snapshot baseline r) with
      | None => rejected
      | Some snapshot => (true, reconcile snapshot (accept_snapshot snapshot v))
      end
  end.
End View.

(** ** Rendering *)
Section Render.
Context `{Platform}.

Definition render_position (v : ClientView) : Vec2 :=
  vadd (ms_position (pr_predicted (cv_prediction v))) (pr_correction_offset (cv_prediction v)).

(** The last frame of the leading run that is not past [tick]. *)
Fixpoint frame_at_or_before (tick : f32) (frames : list InterpolationFrame) : option InterpolationFrame :=
  match frames with
  | [] => None
  | f :: frames =>
      if fleb (f32_of_Z (if_tick f)) tick
      then Some (default f (frame_at_or_before tick frames))
      else None
  end.

Definition frame_after (tick : f32) (frames : list InterpolationFrame) : option InterpolationFrame :=
  List.find (fun f => fgtb (f32_of_Z (if_tick f)) tick) frames.

Definition local_render (v : ClientView) : RenderEntity :=
  mkRenderEntity (cv_local_entity v) (render_position v) (ms_velocity (pr_predicted (cv_prediction v))) 0 true.

(** One entity of the older frame, moved towards the newer one. *)
Definition render_one (v : ClientView) (newer : InterpolationFrame) (alpha : f32) (state : EntityWireState) : RenderEntity :=
  let from := decoded_state (cv_quantizers v) state in
  let is_local := ws_id state =? cv_local_entity v in
  let shown :=
    match view_find_state (if_states newer) (ws_id state) with
    | Some future =>
        let to := decoded_state (cv_quantizers v) future in
        mkMoveState (vlerp (ms_position from) (ms_position to) alpha) (vlerp (ms_velocity from) (ms_velocity to) alpha)
    | None => from
    end in
  mkRenderEntity (ws_id state) (if is_local then render_position v else ms_position shown)
    (if is_local then ms_velocity (pr_predicted (cv_prediction v)) else ms_velocity shown) (ws_kind state) is_local.

Definition blend_factor (render_tick : f32) (older newer : InterpolationFrame) : f32 :=
  let span := fsub (f32_of_Z (if_tick newer)) (f32_of_Z (if_tick older)) in
  if fgtb span f0 then clampf (fdiv (fsub render_tick (f32_of_Z (if_tick older))) span) f0 f1 else f0.

Definition render_list (v : ClientView) : list RenderEntity :=
  let older := frame_at_or_before (cv_render_tick v) (cv_frames v) in
  let newer := frame_after (cv_render_tick v) (cv_frames v) in
  let others :=
    match older, newer with
    | None, None => []
    | Some older, None => render_one v older (blend_factor (cv_render_tick v) older older) <$> if_states older
    | None, Some newer => render_one v newer (blend_factor (cv_render_tick v) newer newer) <$> if_states newer
    | Some older, Some newer => render_one v newer (blend_factor (cv_render_tick v) older newer) <$> if_states older
    end in
  if existsb re_is_local others || (cv_local_entity v =? 0) then others else others ++ [local_render v].

Definition rebuild_render_list (v : ClientView) : ClientView := set_render (render_list v) v.

Definition decay_correction (v : ClientView) : ClientView :=
  let p := cv_prediction v in
  let offset := vscale (pr_correction_offset p) (fsub f1 (clampf (vc_correction_smoothing (cv_config v)) f0 f1)) in
  let offset := if fltb (length_sq offset) (f32_lit 1 10000) then vzero else offset in
  set_prediction (mkPrediction (pr_predicted p) (pr_authoritative p) offset (pr_input_history p) (pr_next_input_sequence p)
    (pr_last_acknowledged_input p) (pr_error_sum p) (pr_error_samples p)) v.

Definition next_render_tick (dt_seconds : f32) (v : ClientView) : f32 :=
  let target := fsub (f32_of_Z (cv_latest_tick v)) (vc_interpolation_delay_ticks (cv_config v)) in
  if negb (cv_render_clock_started v) then target else
  let t := fadd (cv_render_tick v) (fmul dt_seconds (f32_of_Z (wp_tick_rate (cv_params v)))) in
  let drift := fsub target t in
  if fgtb (fabs drift) kRenderClockSnapTicks then target else fadd t (fmul drift kRenderClockCatchupRate).

Definition advance_view (dt_seconds : f32) (v : ClientView) : ClientView :=
  let v := decay_correction v in
  if negb (cv_has_snapshot v) then rebuild_render_list v
  else rebuild_render_list (set_render_clock (next_render_tick dt_seconds v) true v).
End Render.

(** ** Prediction is replay *)
Section Replay.
Context `{Platform}.

(** What the client shows of itself: the last authoritative state with the inputs [l]
    applied, in order. *)
Definition replays (l : list MoveInput) (v : ClientView) : Prop :=
  pr_predicted (cv_prediction v) = foldl (step_view (cv_params v)) (pr_authoritative (cv_prediction v)) l.

(** The last numbers issued, in order; the counter has 32 bits. *)
Definition numbered (next : Z) (l : list MoveInput) : Prop :=
  forall k i, l !! k = Some i -> mi_sequence i = u32 (next - Z.of_nat (length l) + Z.of_nat k).

(** [pushed] are the inputs pushed so far, in order; [lost]: those of them that are part of
    the prediction although a full history has let go of them.  The history holds the
    newest ones, and loses none while it has room. *)
Record prediction_ok (pushed lost : list MoveInput) (v : ClientView) : Prop := {
  po_pushed : (lost ++ pr_input_history (cv_prediction v)) `suffix_of` pushed;
  po_replays : replays (lost ++ pr_input_history (cv_prediction v)) v;
  po_numbered : numbered (pr_next_input_sequence (cv_prediction v)) (lost ++ pr_input_history (cv_prediction v));
  po_next : fits 32 (pr_next_input_sequence (cv_prediction v));
  po_room : (length (pr_input_history (cv_prediction v)) <= vc_input_history (cv_config v))%nat;
  po_full : lost <> [] -> length (pr_input_history (cv_prediction v)) = vc_input_history (cv_config v)
}.

(** The calls of the game loop, with any arguments, and a log of the inputs pushed. *)
Inductive view_step : list MoveInput * ClientView -> list MoveInput * ClientView -> Prop :=
  | step_push move_axis sprint client_tick pushed v :
      view_step (pushed, v) (pushed ++ [fst (push_input move_axis sprint client_tick v)], snd (push_input move_axis sprint client_tick v))
  | step_snapshot data pushed v : view_step (pushed, v) (pushed, snd (apply_snapshot data v))
  | step_advance dt pushed v : view_step (pushed, v) (pushed, advance_view dt v)
  | step_migrate entity position velocity pushed v : view_step (pushed, v) (pushed, adopt_migrated_state entity position velocity v)
  | step_local entity pushed v : view_step (pushed, v) (pushed, set_local_entity entity v)
  | step_reset pushed v : view_step (pushed, v) (pushed, view_reset v).

(** What a snapshot does to the prediction: nothing, or the inputs up to the first that is
    newer than the acknowledged one are gone, and it is the replay of the others. *)
Definition settled (v v' : ClientView) : Prop :=
  cv_prediction v' = cv_prediction v \/
  replays (pr_input_history (cv_prediction v')) v' /\
  exists gone, pr_input_history (cv_prediction v) = gone ++ pr_input_history (cv_prediction v') /\
    Forall (fun i => mi_sequence i <= pr_last_acknowledged_input (cv_prediction v')) gone /\
    forall i rest, pr_input_history (cv_prediction v') = i :: rest -> pr_last_acknowledged_input (cv_prediction v') < mi_sequence i.

Lemma drop_acknowledged_spec acknowledged l : exists gone, l = gone ++ drop_acknowledged acknowledged l /\
  Forall (fun i => mi_sequence i <= acknowledged) gone /\
  forall i rest, drop_acknowledged acknowledged l = i :: rest -> acknowledged < mi_sequence i.
Proof.
  induction l as [|i l (gone & E & Hg & Hh)]; [by exists []|]. cbn [drop_acknowledged].
  destruct (Z.leb_spec (mi_sequence i) acknowledged).
  - exists (i :: gone). cbn. rewrite <- E. split; [done|]. split; [by constructor|exact Hh].
  - exists []. split; [done|]. split; [done|]. by intros ? ? [= <- _].
Qed.

Lemma numbered_suffix next gone l : numbered next (gone ++ l) -> numbered next l.
Proof.
  intros Hn k i Hk. rewrite (Hn (length gone + k)%nat i) by (rewrite lookup_app_r by lia; by replace (length gone + k - length gone)%nat with k by lia).
  rewrite length_app. f_equal. lia.
Qed.

Lemma numbered_snoc next l input : numbered next l -> fits 32 next -> mi_sequence input = next -> numbered (u32 (next + 1)) (l ++ [input]).
Proof.
  intros Hn Hf Hi k i Hk. rewrite length_app. cbn [length].
  replace (u32 (u32 (next + 1) - Z.of_nat (length l + 1) + Z.of_nat k)) with (u32 (next - Z.of_nat (length l) + Z.of_nat k)).
  - apply lookup_app_Some in Hk as [Hk|[Hge Hk]]; [by apply Hn|]. apply list_lookup_singleton_Some in Hk as [Hk <-].
    rewrite Hi. replace (next - Z.of_nat (length l) + Z.of_nat k) with next by lia. by rewrite (wrap_small 32 next Hf).
  - unfold wrap. replace (next - Z.of_nat (length l) + Z.of_nat k) with (next + 1 + (Z.of_nat k - Z.of_nat (length l + 1))) by lia.
    replace ((next + 1) mod 2 ^ 32 - Z.of_nat (length l + 1) + Z.of_nat k) with ((next + 1) mod 2 ^ 32 + (Z.of_nat k - Z.of_nat (length l + 1))) by lia.
    by rewrite Zplus_mod_idemp_l.
Qed.

(** [trim] lets go of the oldest. *)
Lemma trim_spec {T} limit (l : list T) : exists gone, l = gone ++ trim limit l /\ (length (trim limit l) <= limit)%nat /\
  (gone <> [] -> length (trim limit l) = limit).
Proof.
  exists (take (length l - limit) l). unfold trim. rewrite take_drop, length_drop. split; [done|]. split; [lia|].
  intros Hne. assert (length l - limit <> 0)%nat by (intros E; by rewrite E in Hne). lia.
Qed.

Lemma push_prediction axis sprint tick pushed lost v : prediction_ok pushed lost v ->
  exists lost', prediction_ok (pushed ++ [fst (push_input axis sprint tick v)]) lost' (snd (push_input axis sprint tick v)).
Proof.
  intros [[before Hp] Hr Hn Hf _ Hfull]. cbn [push_input fst snd].
  set (input := quantize_input _). assert (Ei : mi_sequence input = pr_next_input_sequence (cv_prediction v)) by reflexivity. clearbody input.
  destruct (trim_spec (vc_input_history (cv_config v)) (pr_input_history (cv_prediction v) ++ [input])) as (gone & E & Hl & Hg).
  exists (lost ++ gone). split; unfold replays in *; cbn [cv_prediction set_view_stats set_prediction cv_params cv_config
    pr_predicted pr_authoritative pr_input_history pr_next_input_sequence].
  - exists before. by rewrite <- (app_assoc lost), <- E, Hp, !app_assoc.
  - by rewrite <- app_assoc, <- E, app_assoc, foldl_snoc, Hr.
  - rewrite <- app_assoc, <- E, app_assoc. by apply numbered_snoc.
  - apply wrap_range. lia.
  - exact Hl.
  - intros Hne. destruct gone as [|g gone]; [|by apply Hg]. rewrite app_nil_r in Hne. cbn [app] in E. rewrite <- E, length_app in Hl |- *.
    cbn [length] in *. rewrite Hfull in Hl by exact Hne. lia.
Qed.

Lemma reconcile_settled snapshot v : settled v (reconcile snapshot (accept_snapshot snapshot v)).
Proof.
  change (settled v) with (settled (accept_snapshot snapshot v)).
  generalize (accept_snapshot snapshot v). clear v. intros v. unfold reconcile. destruct (mine _ _) as [state|]; [|by left].
  destruct (_ <? _); [by left|]. right. split; [done|].
  destruct (drop_acknowledged_spec (ds_last_input_sequence snapshot) (pr_input_history (cv_prediction v))) as (gone & E & Hg & Hh).
  by exists gone.
Qed.

Lemma apply_settled data v : settled v (snd (apply_snapshot data v)).
Proof.
  unfold apply_snapshot. destruct (fst (peek_snapshot_header _)) as [[[tick base] full]|]; [|by left].
  destruct (negb full && _); [by left|]. destruct (fst (decode_snapshot _ _)) as [snapshot|]; [|by left].
  exact (reconcile_settled snapshot v).
Qed.

Lemma apply_keeps data v : let v' := snd (apply_snapshot data v) in
  cv_config v' = cv_config v /\ pr_next_input_sequence (cv_prediction v') = pr_next_input_sequence (cv_prediction v) /\ cv_params v' = cv_params v.
Proof.
  cbv zeta. unfold apply_snapshot. destruct (fst (peek_snapshot_header _)) as [[[tick base] full]|]; [|done].
  destruct (negb full && _); [done|]. destruct (fst (decode_snapshot _ _)) as [snapshot|]; [|done].
  cbn [snd]. unfold reconcile. destruct (mine _ _); [|done]. by destruct (_ <? _).
Qed.

Lemma apply_prediction data pushed lost v : prediction_ok pushed lost v -> exists lost', prediction_ok pushed lost' (snd (apply_snapshot data v)).
Proof.
  intros [Hp Hr Hn Hf Hl Hfull]. destruct (apply_keeps data v) as (Ec & En & Ep). destruct (apply_settled data v) as [E|(Hr' & gone & E & _)].
  - exists lost. split; unfold replays in *; rewrite ?E, ?Ec, ?Ep; done.
  - exists []. split; rewrite ?En, ?Ec; [|exact Hr'| |exact Hf| |done].
    + etransitivity; [|exact Hp]. rewrite E. exists (lost ++ gone). by rewrite app_assoc.
    + rewrite E, app_assoc in Hn. by eapply numbered_suffix.
    + rewrite E, length_app in Hl. lia.
Qed.

Lemma step_prediction x y : view_step x y -> (exists lost, prediction_ok (fst x) lost (snd x)) -> exists lost, prediction_ok (fst y) lost (snd y).
Proof.
  intros Hst [lost Hok]. destruct Hst as [axis sprint tick pushed v|data pushed v|dt pushed v|entity pos vel pushed v|entity pushed v|pushed v];
    cbn [fst snd] in *.
  - by eapply push_prediction.
  - by eapply apply_prediction.
  - exists lost. unfold advance_view. destruct Hok. destruct (negb _); by split.
  - exists []. destruct Hok. split; try done; [apply suffix_nil|cbn; lia].
  - exists lost. destruct Hok. by split.
  - exists []. split; try done; [apply suffix_nil|cbn; lia].
Qed.
End Replay.

(** ** The client's frames are the server's frames *)
(** [log] is what was sent under each tick. *)
Definition agrees (h : SnapshotHistory) (log : Z -> option SnapshotFrame) : Prop :=
  forall t f, history_get h t = Some f -> log t = Some f.

Definition log_insert (tick : Z) (frame : SnapshotFrame) (log : Z -> option SnapshotFrame) : Z -> option SnapshotFrame :=
  fun t => if t =? tick then Some frame else log t.

Lemma agrees_put h log tick frame : agrees h log -> log tick = None -> sf_valid frame = true -> sf_tick frame = tick ->
  agrees (history_put h tick frame) (log_insert tick frame log).
Proof.
  intros Ha Hnew Hv Ht t f. unfold log_insert. destruct (Nat.eqb_spec (length h) 0) as [E|Hn].
  - unfold history_put, history_get. rewrite E. change (0 =? 0)%nat with true. cbv iota. by rewrite E.
  - rewrite history_get_put by (auto; lia). case_bool_decide; [by destruct (t =? tick)|].
    intros Hf. pose proof (Ha t f Hf) as Hl. destruct (Z.eqb_spec t tick) as [->|]; [congruence|done].
Qed.

Lemma agrees_mono h log tick frame : agrees h log -> log tick = None -> agrees h (log_insert tick frame log).
Proof.
  intros Ha Hnew t f Hf. pose proof (Ha t f Hf). unfold log_insert. destruct (Z.eqb_spec t tick); [congruence|done].
Qed.

Lemma reconcile_baselines snapshot v : cv_baselines (reconcile snapshot v) = cv_baselines v /\
  cv_local_entity (reconcile snapshot v) = cv_local_entity v.
Proof. unfold reconcile. destruct (mine _ _); [|done]. by destruct (_ <? _). Qed.

(** What the client knows of itself after a snapshot it could decode. *)
Definition reconciled (snapshot : DecodedSnapshot) (v v' : ClientView) : Prop :=
  forall s, mine (cv_local_entity v') (ds_states snapshot) = Some s ->
    pr_last_acknowledged_input (cv_prediction v) <= ds_last_input_sequence snapshot ->
    pr_authoritative (cv_prediction v') = decoded_state (cv_quantizers v) s /\
    pr_input_history (cv_prediction v') = drop_acknowledged (ds_last_input_sequence snapshot) (pr_input_history (cv_prediction v)).

Lemma reconcile_reconciled snapshot v : reconciled snapshot v (reconcile snapshot (accept_snapshot snapshot v)).
Proof.
  intros s Hs Hle. rewrite (proj2 (reconcile_baselines snapshot _)) in Hs. unfold reconcile. rewrite Hs.
  cbn [cv_prediction accept_snapshot]. by rewrite (proj2 (Z.ltb_ge _ _)).
Qed.

Lemma usable_baseline_get rs tick b : usable_baseline rs tick = Some b ->
  history_get (rs_history rs) (sf_tick b) = Some b.
Proof.
  unfold usable_baseline, rs_baseline. destruct (rs_has_acked rs); [|done].
  destruct (history_get (rs_history rs) (rs_last_acked_tick rs)) as [b'|] eqn:E; [|done].
  destruct (_ =? _)%nat; [done|]. intros [= <-]. destruct (history_get_in _ _ _ E) as (_ & _ & ->). exact E.
Qed.

(** ** Properties *)
(** C15. Prediction is replay.  After any run of inputs, snapshots (any bytes at all),
    frames, migrations and resets: what the client predicts of itself is the last
    authoritative state with the newest of the inputs pushed ([pushed], a suffix of them,
    without a gap) applied in order, by the integrator the server runs.  The history
    holds the newest of these, at most its capacity, and all of them unless it is full,
    when it lets go of the oldest (they stay part of the prediction until the next
    snapshot); their numbers are the last ones issued, modulo 2^32.  And whatever
    snapshot comes next, it leaves the prediction as it was, or it removes from the
    history the inputs in front that it acknowledges, up to the first that is newer,
    and the prediction becomes the replay of exactly those that are left. *)
Theorem prediction_is_replay `{Platform} (params : WorldParams) (config : ClientViewConfig) (v0 v : ClientView) (pushed : list MoveInput) :
  rtc view_step ([], view_configure params config v0) (pushed, v) ->
  (exists lost, prediction_ok pushed lost v) /\ forall data, settled v (snd (apply_snapshot data v)).
Proof.
  intros Hrun. split; [|intros; apply apply_settled]. remember ([], view_configure params config v0) as x eqn:Ex. remember (pushed, v) as y eqn:Ey.
  assert (Hx : exists lost, prediction_ok (fst x) lost (snd x)).
  { subst x. exists []. split; try done. cbn. lia. }
  assert (Hy : exists lost, prediction_ok (fst y) lost (snd y)).
  { clear Ex Ey. induction Hrun as [x|x x2 x3 Hstep Hrun IH]; [done|]. apply IH. by eapply step_prediction. }
  by subst y.
Qed.

(** C7. Server and client in step.  Take any log of frames by tick with which the
    server's history and the client's baselines both agree.  When the server
    encodes a snapshot of a new tick, its history agrees with the log extended by
    the frame it sent, and so do the client's baselines after the packet, whether
    it was accepted or not.  It is accepted exactly when it is full or the client
    still has the baseline it was made against; then the client holds the sent
    frame itself, its own entity's authoritative state is the decoded state in
    that frame, and the inputs up to the acknowledged one are gone. *)
Theorem view_follows_server `{Platform} nth_element (kinds : Z -> Z) (world : World) (rs : ReplicationState)
    (viewer last_input : Z) (index : nat) (out : list Z) (capacity : Z) (bytes : list Z) (rs' : ReplicationState)
    (log : Z -> option SnapshotFrame) (v : ClientView) :
  nth_element_ok nth_element -> encode_ready kinds world rs viewer last_input out capacity ->
  store_find viewer (w_entities world) = Some index ->
  rs_encode nth_element world viewer last_input out capacity rs = (Some bytes, rs') ->
  agrees (rs_history rs) log -> agrees (cv_baselines v) log -> log (w_tick world) = None -> (0 < length (cv_baselines v))%nat ->
  let base := usable_baseline rs (w_tick world) in
  let '(ok, v') := apply_snapshot bytes v in
  exists frame, let log' := log_insert (w_tick world) frame log in
    agrees (rs_history rs') log' /\ agrees (cv_baselines v') log' /\
    (ok = true <-> forall b, base = Some b -> is_Some (history_get (cv_baselines v) (sf_tick b))) /\
    (ok = true -> history_get (cv_baselines v') (w_tick world) = Some frame /\
       exists snapshot, ds_states snapshot = sf_states frame /\ ds_last_input_sequence snapshot = last_input /\
         ds_viewer snapshot = viewer /\ reconciled snapshot v v').
Proof.
  intros Hne Hr Hi Henc Hs Hc Hnew Hlen base. pose proof (encode_cases _ Hne _ _ _ _ _ _ _ _ Hr Hi) as Hcases.
  rewrite Henc in Hcases. destruct Hcases as [_ Hcases]. destruct (Hcases bytes eq_refl) as [Hf ->].
  pose proof (fun client H => ctx_decode _ Hne _ _ _ _ _ _ _ _ Hr client bytes H Hf) as Hdec. cbv zeta in Hdec.
  set (frame := ctx_frame _ _ _ _ _ _ _) in *.
  assert (Hframe : sf_valid frame = true /\ sf_tick frame = w_tick world) by done. destruct Hframe as [Hv Ht]. clearbody frame.
  destruct (Hdec (ctx_base world rs) ltac:(done)) as (_ & Hpeek & _). change (ctx_base world rs) with base in *.
  unfold apply_snapshot. rewrite Hpeek. cbn [rs_history].
  set (full := match base with None => true | Some _ => false end) in *.
  set (client := if full then None else history_get (cv_baselines v) (default 0 (sf_tick <$> base))).
  assert (Hsome : forall b, base = Some b -> full = false /\ client = history_get (cv_baselines v) (sf_tick b)).
  { intros b Eb. subst client full. rewrite Eb. by split. }
  assert (Hnone : base = None -> full = true /\ client = None) by (intros Eb; subst client full; by rewrite Eb).
  assert (Hclient : client = None \/ client = base).
  { destruct base as [b|] eqn:Eb; [|by left; apply Hnone]. destruct (Hsome b eq_refl) as [_ ->].
    destruct (history_get (cv_baselines v) (sf_tick b)) as [f|] eqn:Ef; [right|by left].
    pose proof (Hc _ _ Ef) as L1. pose proof (Hs _ _ (usable_baseline_get _ _ _ Eb)) as L2. by rewrite L1 in L2. }
  clear Hcases Henc. clearbody full client.
  destruct (negb full && bool_decide (client = None)) eqn:Erej.
  - (* refused: the baseline is gone *)
    apply andb_true_iff in Erej as [Enf Ecn%bool_decide_eq_true]. exists frame. cbv zeta.
    split; [by apply agrees_put|]. split; [by apply agrees_mono|]. split; [|done]. split; [done|]. intros Hall. exfalso.
    destruct base as [b|]; [|by destruct (Hnone eq_refl) as [-> _]]. destruct (Hall b eq_refl) as [f Hf'].
    destruct (Hsome b eq_refl) as [_ E]. congruence.
  - assert (Hok : base <> None -> client = base).
    { intros Hb. destruct Hclient as [E|E]; [|done]. apply andb_false_iff in Erej as [Enf|Ec].
      - destruct base as [b|]; [|done]. destruct (Hsome b eq_refl) as [-> _]. done.
      - apply bool_decide_eq_false in Ec. congruence. }
    destruct (Hdec client Hok) as (-> & _). set (snapshot := mkDecodedSnapshot _ _ _ _ _ _ _).
    destruct (reconcile_baselines snapshot (accept_snapshot snapshot v)) as [Eb _]. exists frame. cbv zeta.
    assert (Efr : mkSnapshotFrame (w_tick world) true (sf_states frame) = frame) by (rewrite <- Hv, <- Ht; by destruct frame).
    assert (Ebase : cv_baselines (reconcile snapshot (accept_snapshot snapshot v)) = history_put (cv_baselines v) (w_tick world) frame).
    { rewrite Eb. change (history_put (cv_baselines v) (w_tick world) (mkSnapshotFrame (w_tick world) true (sf_states frame)) =
        history_put (cv_baselines v) (w_tick world) frame). by rewrite Efr. }
    split; [by apply agrees_put|]. rewrite Ebase. split; [by apply agrees_put|]. split; [split; [|done]|].
    + intros _ b Hb. destruct (Hsome b Hb) as [_ <-]. rewrite Hok by congruence. rewrite Hb. by eexists.
    + intros _. split; [rewrite history_get_put by done; by rewrite bool_decide_true, Z.eqb_refl|].
      exists snapshot. split; [done|]. split; [done|]. split; [done|]. apply reconcile_reconciled.
Qed.

(** ** Witnesses *)
Definition blank_view : ClientView :=
  mkClientView WorldParams_default ClientViewConfig_default (ReplicationQuantizers_from WorldParams_default) 0
    (mkPrediction MoveState_zero MoveState_zero vzero [] 0 0 (S754_zero false) 0) [] [] 0 false f0 false [] ClientViewStats_zero.

(** A client that keeps two inputs and pushes three; then a full snapshot of tick 6 arrives,
    which acknowledges the second. *)
Definition small_history : ClientViewConfig := mkClientViewConfig (f32_of_Z 2) (f32_lit 1 4) (f32_of_Z 120) 2 32.
Definition sample_packet : list Z := [6; 0; 0; 0; 5; 0; 0; 0; 2; 0; 2; 0; 2; 226; 46; 224; 46; 0; 32; 0; 2].
Definition after_pushes (n : nat) : ClientView :=
  Nat.iter n (fun v => snd (@push_input plain_platform (mkVec2 f1 f0) true 7 v)) (view_configure WorldParams_default small_history blank_view).
Fixpoint inputs_pushed (n : nat) : list MoveInput :=
  match n with O => [] | S n => inputs_pushed n ++ [fst (@push_input plain_platform (mkVec2 f1 f0) true 7 (after_pushes n))] end.
Definition pushed_thrice : ClientView := after_pushes 3.
Definition settled_view : ClientView := snd (apply_snapshot sample_packet pushed_thrice).

Lemma pushes_run n : rtc (@view_step plain_platform) ([], view_configure WorldParams_default small_history blank_view) (inputs_pushed n, after_pushes n).
Proof. induction n as [|n IH]; [apply rtc_refl|]. eapply rtc_r; [exact IH|]. exact (@step_push plain_platform (mkVec2 f1 f0) true 7 (inputs_pushed n) (after_pushes n)). Qed.

Lemma prediction_is_replay_witness :
  (mi_sequence <$> pr_input_history (cv_prediction pushed_thrice) = [2; 3] /\ mi_sequence <$> pr_input_history (cv_prediction settled_view) = [3]) /\
  (exists lost, prediction_ok (inputs_pushed 3) lost settled_view) /\
  forall data, settled settled_view (snd (apply_snapshot data settled_view)).
Proof.
  split; [split; reflexivity|].
  apply (@prediction_is_replay plain_platform WorldParams_default small_history blank_view).
  eapply rtc_r; [exact (pushes_run 3)|exact (@step_snapshot plain_platform sample_packet (inputs_pushed 3) pushed_thrice)].
Defined.

(** A client that has the frame of tick 5. *)
Definition synced_view : ClientView :=
  let v := view_configure WorldParams_default ClientViewConfig_default blank_view in
  mkClientView (cv_params v) (cv_config v) (cv_quantizers v) 1 (cv_prediction v)
    (history_put (cv_baselines v) 5 sample_frame) [] 5 true f0 false [] ClientViewStats_zero.

Definition sent_before : Z -> option SnapshotFrame := log_insert 5 sample_frame (fun _ => None).

Lemma agrees_fresh n : agrees (history_configure n) (fun _ => None).
Proof.
  intros t f Hf. destruct (history_get_in _ _ _ Hf) as (Hin & Hv & _). unfold history_configure in Hin.
  apply elem_of_replicate_inv in Hin as ->. done.
Qed.

Lemma view_follows_server_witness :
  exists bytes rs', @rs_encode plain_platform best_first sample_seen 1 17 (repeat 0 64) 64 sample_replication = (Some bytes, rs') /\
  let base := usable_baseline sample_replication (w_tick sample_seen) in
  let '(ok, v') := apply_snapshot bytes synced_view in
  exists frame, let log' := log_insert (w_tick sample_seen) frame sent_before in
    agrees (rs_history rs') log' /\ agrees (cv_baselines v') log' /\
    (ok = true <-> forall b, base = Some b -> is_Some (history_get (cv_baselines synced_view) (sf_tick b))) /\
    (ok = true -> history_get (cv_baselines v') (w_tick sample_seen) = Some frame /\
       exists snapshot, ds_states snapshot = sf_states frame /\ ds_last_input_sequence snapshot = 17 /\
         ds_viewer snapshot = 1 /\ reconciled snapshot synced_view v').
Proof.
  pose proof (@encode_cases plain_platform best_first best_first_ok sample_kinds sample_seen sample_replication 1 17 0
    (repeat 0 64) 64 sample_ready ltac:(vm_compute; reflexivity)) as Hc.
  destruct (rs_encode _ _ _ _ _ _ _) as [[bytes|] rs'] eqn:Henc.
  - exists bytes, rs'. split; [reflexivity|]. clear Hc.
    apply (@view_follows_server plain_platform best_first sample_kinds sample_seen sample_replication 1 17 0 (repeat 0 64) 64
      bytes rs' sent_before synced_view).
    + exact best_first_ok.
    + exact sample_ready.
    + vm_compute; reflexivity.
    + exact Henc.
    + apply agrees_put; [exact (agrees_fresh 32)|reflexivity|reflexivity|reflexivity].
    + apply agrees_put; [exact (agrees_fresh 32)|reflexivity|reflexivity|reflexivity].
    + reflexivity.
    + vm_compute. lia.
  - destruct Hc as [Hc _]. pose proof (proj1 Hc eq_refl) as Hlt. pose proof sample_header as Hh.
    unfold ctx_header_bits, ctx_base in Hlt.
    change (ctx_budget sample_replication 64) with 64 in Hlt. lia.
Defined.
