(* ===== verification/Replication.v ===== *)
(** * Replication: one player's snapshots over a lossy network

    The server's side of [Snapshot] and the client's side of [ClientView] with the network
    between them: snapshots and acknowledgements are lost, repeated, delayed and overtaken.
    What each of them remembers of the other is enough to decode every snapshot that is
    still news.  The invariant names the ticks the client has taken: the server acknowledges
    only those, and in either ring a slot holds the newest of its ticks, so the baseline
    of a packet is replaced only by something newer than the packet. *)

From S2P Require Import Prelude Bitstream F32 Quantizer Movement Messages Morton Grid EntityStore World Snapshot ClientView.
From Stdlib Require Import ZArith Lia Bool.
From stdpp Require Import base tactics numbers list option relations.
#[local] Open Scope Z_scope.

(** ** The session *)
(** A snapshot in flight; [sn_frame] is the frame the server recorded for it, and [sn_exact]
    what is in the viewer's area of interest when no entity was deferred. *)
Record Sent := mkSent {
  sn_tick : Z;
  sn_bytes : list Z;
  sn_frame : option SnapshotFrame;
  sn_exact : option (list EntityWireState)
}.

(** [rp_clock]: the last tick the server encoded a snapshot in. *)
Record Replication := mkReplication {
  rp_server : ReplicationState;
  rp_client : ClientView;
  rp_sent : list Sent;
  rp_reports : list Z;
  rp_clock : Z
}.

(** A fresh pair. *)
Definition replication_start (interest : InterestConfig) (params : WorldParams) (config : ClientViewConfig) (rs : ReplicationState) (v : ClientView) : Replication :=
  mkReplication (rs_reset (rs_configure interest params rs)) (view_configure params config v) [] [] (-1).

Section Steps.
Context `{Platform} (nth_element : nat -> list Candidate -> list Candidate) (kinds : Z -> Z).

(** What [Snapshot.encode_ready] asks of the world and of the buffer. *)
Record world_ready (world : World) (viewer last_input : Z) (out : list Z) (capacity : Z) : Prop := {
  wr_world : world_ok world;
  wr_grid : grid_current world;
  wr_numeric i : (i < es_size (w_entities world))%nat ->
    entity_numeric world i /\ es_kind (w_entities world) !!! i = kinds (es_id (w_entities world) !!! i);
  wr_size : Z.of_nat (es_size (w_entities world)) < 2 ^ 32;
  wr_input : fits 32 last_input;
  wr_viewer : fits 32 viewer;
  wr_buffer : buffer_ok out capacity
}.

(** The snapshot as it goes out. *)
Definition sent_snapshot (world : World) (index : nat) (rs rs' : ReplicationState) (bytes : list Z) : Sent :=
  mkSent (w_tick world) bytes (history_get (rs_history rs') (w_tick world))
    (if rt_entities_deferred (rs_stats rs') =? 0
     then Some (current_states world (rs_quantizers rs) (es_position (w_entities world) !!! index) (ic_aoi_radius (rs_config rs))) else None).

(** The server encodes, at most once a tick; a snapshot arrives, any number of times, in any
    order, unless it is a whole ring of baselines late; the client reports the newest tick
    it has; a report arrives, likewise; the client does what leaves its baselines alone. *)
Inductive replication_step (s : Replication) : Replication -> Prop :=
  | step_encode world viewer last_input index out capacity result rs' :
      world_ready world viewer last_input out capacity -> store_find viewer (w_entities world) = Some index ->
      rp_clock s < w_tick world < 2 ^ 31 ->
      rs_encode nth_element world viewer last_input out capacity (rp_server s) = (result, rs') ->
      replication_step s (mkReplication rs' (rp_client s)
        (match result with Some bytes => rp_sent s ++ [sent_snapshot world index (rp_server s) rs' bytes] | None => rp_sent s end) (rp_reports s) (w_tick world))
  | step_deliver p :
      p ∈ rp_sent s ->
      (cv_has_snapshot (rp_client s) = true -> cv_latest_tick (rp_client s) < sn_tick p + Z.of_nat (length (cv_baselines (rp_client s)))) ->
      replication_step s (mkReplication (rp_server s) (snd (apply_snapshot (sn_bytes p) (rp_client s))) (rp_sent s) (rp_reports s) (rp_clock s))
  | step_report :
      cv_has_snapshot (rp_client s) = true ->
      replication_step s (mkReplication (rp_server s) (rp_client s) (rp_sent s) (rp_reports s ++ [cv_latest_tick (rp_client s)]) (rp_clock s))
  | step_acknowledge tick :
      tick ∈ rp_reports s ->
      replication_step s (mkReplication (acknowledge tick (rp_server s)) (rp_client s) (rp_sent s) (rp_reports s) (rp_clock s))
  | step_local v :
      cv_baselines v = cv_baselines (rp_client s) -> cv_latest_tick v = cv_latest_tick (rp_client s) -> cv_has_snapshot v = cv_has_snapshot (rp_client s) ->
      replication_step s (mkReplication (rp_server s) v (rp_sent s) (rp_reports s) (rp_clock s)).

End Steps.

(** ** The rings *)
Lemma slot_lt (h : SnapshotHistory) t : (0 < length h)%nat -> (slot_of h t < length h)%nat.
Proof. intros Hn. unfold slot_of. pose proof (Z.mod_pos_bound t (Z.of_nat (length h)) ltac:(lia)). lia. Qed.

Lemma slot_same (h : SnapshotHistory) t t' : (0 < length h)%nat ->
  slot_of h t = slot_of h t' <-> t mod Z.of_nat (length h) = t' mod Z.of_nat (length h).
Proof.
  intros Hn. unfold slot_of. pose proof (Z.mod_pos_bound t (Z.of_nat (length h)) ltac:(lia)).
  pose proof (Z.mod_pos_bound t' (Z.of_nat (length h)) ltac:(lia)). rewrite Z2Nat.inj_iff by lia. done.
Qed.

(** Different ticks in one slot are a ring apart. *)
Lemma slot_apart n t t' : 0 < n -> t mod n = t' mod n -> t < t' -> t + n <= t'.
Proof.
  intros Hn E Hlt. pose proof (Z.div_mod t n ltac:(lia)). pose proof (Z.div_mod t' n ltac:(lia)).
  assert (t / n < t' / n) by nia. nia.
Qed.

Lemma history_put_length (h : SnapshotHistory) t f : length (history_put h t f) = length h.
Proof. unfold history_put. destruct (_ =? _)%nat; [done|]. apply length_insert. Qed.

(** The slot of [t] holds a valid frame that is not older, of a tick in [P]. *)
Definition holds (h : SnapshotHistory) (t : Z) (P : Z -> Prop) : Prop :=
  exists f, history_get h (sf_tick f) = Some f /\ slot_of h (sf_tick f) = slot_of h t /\ t <= sf_tick f /\ P (sf_tick f).

Lemma slot_of_put (h : SnapshotHistory) t tick f : slot_of (history_put h tick f) t = slot_of h t.
Proof. unfold slot_of. by rewrite history_put_length. Qed.

Lemma holds_put (h : SnapshotHistory) t tick frame (P Q : Z -> Prop) :
  (0 < length h)%nat -> sf_valid frame = true -> sf_tick frame = tick -> (forall x, P x -> Q x) -> Q tick ->
  holds h t P \/ tick = t -> (slot_of h t = slot_of h tick -> t <= tick) -> holds (history_put h tick frame) t Q.
Proof.
  intros Hn Hv Ht HPQ HQ Hold Hle. unfold holds. setoid_rewrite slot_of_put.
  destruct (decide (slot_of h t = slot_of h tick)) as [E|E].
  - exists frame. rewrite history_get_put, Ht, bool_decide_true, Z.eqb_refl by done. auto.
  - destruct Hold as [(f & Hf & Hs & Hle' & HP)|<-]; [|done]. exists f.
    rewrite history_get_put, bool_decide_false by (congruence || done). auto.
Qed.

Lemma holds_mono h t (P Q : Z -> Prop) : (forall x, P x -> Q x) -> holds h t P -> holds h t Q.
Proof. intros HPQ (f & ? & ? & ? & ?). exists f. auto. Qed.

(** Two frames in one slot are one. *)
Lemma history_get_slot (h : SnapshotHistory) t t' f f' : history_get h t = Some f -> history_get h t' = Some f' ->
  slot_of h t = slot_of h t' -> f = f'.
Proof.
  unfold history_get. destruct (_ =? _)%nat; [done|]. intros Hf Hf' E. rewrite E in Hf.
  repeat (case_match; simplify_eq). done.
Qed.

Lemma holds_get (h : SnapshotHistory) t f (P : Z -> Prop) : history_get h t = Some f -> forall q, slot_of h q = slot_of h t -> holds h q P -> q <= t /\ P t.
Proof.
  intros Hg q E (f' & Hf' & Hs & Hle & HP). destruct (history_get_in _ _ _ Hg) as (_ & _ & Ht).
  assert (f' = f) as -> by (eapply history_get_slot; [exact Hf'|exact Hg|congruence]). by rewrite Ht in *.
Qed.

Lemma log_insert_old tick frame log t f : log tick = None -> log t = Some f -> log_insert tick frame log t = Some f.
Proof. intros Hnew Hf. unfold log_insert. destruct (Z.eqb_spec t tick); [congruence|done]. Qed.

Lemma agrees_put_same h log tick frame : agrees h log -> log tick = Some frame -> sf_valid frame = true -> sf_tick frame = tick ->
  agrees (history_put h tick frame) log.
Proof.
  intros Ha Hl Hv Ht t f Hf. destruct (Nat.eqb_spec (length h) 0) as [E|Hn].
  - unfold history_put in Hf. rewrite E in Hf. by apply Ha.
  - rewrite history_get_put in Hf by (auto; lia). case_bool_decide; [|by apply Ha]. destruct (Z.eqb_spec t tick); [congruence|done].
Qed.

(** ** Packets *)
Definition reader (p : Sent) : BitReader := BitReader_new (sn_bytes p) (Z.of_nat (length (sn_bytes p))).

(** A packet that brings a client holding [base] to [frame]. *)
Record packet_ok (p : Sent) (frame : SnapshotFrame) (base : option SnapshotFrame) : Prop := {
  pk_frame : sn_frame p = Some frame;
  pk_valid : sf_valid frame = true;
  pk_tick : sf_tick frame = sn_tick p;
  pk_peek : fst (peek_snapshot_header (reader p)) =
    Some (sn_tick p, default 0 (sf_tick <$> base), match base with None => true | Some _ => false end);
  pk_decode client : (base <> None -> client = base) -> exists d,
    fst (decode_snapshot client (reader p)) = Some d /\ ds_tick d = sn_tick p /\ ds_states d = sf_states frame;
  pk_exact l : sn_exact p = Some l -> sf_states frame = l
}.

Lemma reconcile_keeps `{Platform} snapshot v : cv_baselines (reconcile snapshot v) = cv_baselines v /\
  cv_latest_tick (reconcile snapshot v) = cv_latest_tick v /\ cv_has_snapshot (reconcile snapshot v) = cv_has_snapshot v.
Proof. unfold reconcile. destruct (mine _ _); [|done]. by destruct (_ <? _). Qed.

(** What such a packet does to a client whose baselines are true. *)
Lemma apply_packet `{Platform} p frame base v : packet_ok p frame base ->
  (forall b f, base = Some b -> history_get (cv_baselines v) (sf_tick b) = Some f -> f = b) ->
  let '(ok, v') := apply_snapshot (sn_bytes p) v in
  if ok then cv_baselines v' = history_put (cv_baselines v) (sn_tick p) frame /\ cv_has_snapshot v' = true /\
    cv_latest_tick v' = (if negb (cv_has_snapshot v) || sequence_greater32 (sn_tick p) (cv_latest_tick v) then sn_tick p else cv_latest_tick v)
  else (exists b, base = Some b /\ history_get (cv_baselines v) (sf_tick b) = None) /\
    cv_baselines v' = cv_baselines v /\ cv_has_snapshot v' = cv_has_snapshot v /\ cv_latest_tick v' = cv_latest_tick v.
Proof.
  intros Hp Htrue. unfold apply_snapshot. fold (reader p). rewrite (pk_peek _ _ _ Hp).
  set (client := if match base with None => true | Some _ => false end then None else _).
  destruct (negb _ && bool_decide (client = None)) eqn:Erej.
  - apply andb_true_iff in Erej as [Ef Ec%bool_decide_eq_true]. destruct base as [b|]; [|done]. by eauto 10.
  - assert (Hc : base <> None -> client = base).
    { intros Hb. destruct base as [b|]; [|done]. subst client. cbn in Erej |- *.
      destruct (history_get _ _) as [f|] eqn:E; [|done]. by rewrite (Htrue b f). }
    destruct (pk_decode _ _ _ Hp client Hc) as (d & -> & Hd & Hs).
    destruct (reconcile_keeps d (accept_snapshot d v)) as (-> & -> & ->). cbn. rewrite Hd, Hs. split_and!; [|done..].
    f_equal. rewrite <- (pk_tick _ _ _ Hp), <- (pk_valid _ _ _ Hp). by destruct frame.
Qed.

(** ** Encoding *)
Lemma encode_ready_of `{Platform} kinds world rs viewer last_input out capacity :
  world_ready kinds world viewer last_input out capacity -> fits 32 (w_tick world) -> rs_ok kinds rs -> 0 <= ic_max_snapshot_bytes (rs_config rs) ->
  encode_ready kinds world rs viewer last_input out capacity.
Proof. intros [] ? ? ?. by constructor. Qed.

(** The parts of the state an encode leaves alone. *)
Lemma encode_keeps `{Platform} nth_element world viewer last_input out capacity rs :
  let '(result, rs') := rs_encode nth_element world viewer last_input out capacity rs in
  rs_config rs' = rs_config rs /\ rs_last_acked_tick rs' = rs_last_acked_tick rs /\ rs_has_acked rs' = rs_has_acked rs /\
  (result = None -> rs_history rs' = rs_history rs).
Proof.
  destruct (rs_encode _ _ _ _ _ _ _) as [result rs'] eqn:E. unfold rs_encode in E. by repeat (case_match; simplify_eq; try done).
Qed.

Lemma sent_packet_ok `{Platform} nth_element kinds world rs viewer last_input index out capacity bytes rs' :
  nth_element_ok nth_element -> encode_ready kinds world rs viewer last_input out capacity ->
  store_find viewer (w_entities world) = Some index -> (0 < length (rs_history rs))%nat ->
  rs_encode nth_element world viewer last_input out capacity rs = (Some bytes, rs') ->
  exists frame, packet_ok (sent_snapshot world index rs rs' bytes) frame (usable_baseline rs (w_tick world)) /\
    rs_history rs' = history_put (rs_history rs) (w_tick world) frame.
Proof.
  intros Hne Hr Hi Hn E. pose proof (encode_cases _ Hne _ _ _ _ _ _ _ _ Hr Hi) as Hc. rewrite E in Hc.
  destruct Hc as [_ Hc]. destruct (Hc bytes eq_refl) as [Hf ->]. set (frame := ctx_frame _ _ _ _ _ _ _).
  assert (Hg : history_get (history_put (rs_history rs) (w_tick world) frame) (w_tick world) = Some frame)
    by (rewrite history_get_put by done; by rewrite bool_decide_true, Z.eqb_refl).
  pose proof (fun client H => ctx_decode _ Hne _ _ _ _ _ _ _ _ Hr client bytes H Hf) as Hd. cbv zeta in Hd.
  exists frame. split; [|done]. split; cbn [sn_frame sn_tick sn_bytes sn_exact sent_snapshot rs_history]; try done.
  - by destruct (Hd (usable_baseline rs (w_tick world)) ltac:(done)) as (_ & ? & _).
  - intros client Hcl. destruct (Hd client Hcl) as (Hd' & _). eexists. by split; [exact Hd'|].
  - cbn [rs_stats rt_entities_deferred]. intros l. destruct (_ =? 0) eqn:Edef; intros [= <-]. apply Z.eqb_eq in Edef.
    eapply ctx_complete; [done|]. by eapply ctx_none_deferred.
Qed.

(** ** The invariant *)
Section Invariant.
Context `{Platform} (nth_element : nat -> list Candidate -> list Candidate) (Hne : nth_element_ok nth_element) (kinds : Z -> Z).
Context (n : nat) (Hn : (0 < n)%nat).

(** Two ticks share a slot. *)
Definition same_slot (t t' : Z) : Prop := t mod Z.of_nat n = t' mod Z.of_nat n.

(** The frame, and the baseline: one the client has had, and the newest of its slot. *)
Definition sent_ok (log : Z -> option SnapshotFrame) (accepted : Z -> Prop) (sent : list Sent) (clock : Z) (p : Sent) : Prop :=
  exists frame base, packet_ok p frame base /\ log (sn_tick p) = Some frame /\ 0 <= sn_tick p <= clock /\
    forall b, base = Some b -> accepted (sf_tick b) /\ log (sf_tick b) = Some b /\
      forall q, q ∈ sent -> same_slot (sn_tick q) (sf_tick b) -> sf_tick b < sn_tick q -> sn_tick p <= sn_tick q.

(** [log]: the frame sent under each tick; [accepted]: the ticks of the packets the client took. *)
Record replication_ok (log : Z -> option SnapshotFrame) (accepted : Z -> Prop) (s : Replication) : Prop := {
  rp_lengths : length (rs_history (rp_server s)) = n /\ length (cv_baselines (rp_client s)) = n;
  rp_state : rs_ok kinds (rp_server s) /\ 0 <= ic_max_snapshot_bytes (rs_config (rp_server s));
  rp_agree : agrees (rs_history (rp_server s)) log /\ agrees (cv_baselines (rp_client s)) log;
  rp_time : -1 <= rp_clock s < 2 ^ 31 /\ forall t f, log t = Some f -> t <= rp_clock s;
  rp_packets p : p ∈ rp_sent s -> sent_ok log accepted (rp_sent s) (rp_clock s) p;
  rp_server_ring p : p ∈ rp_sent s -> holds (rs_history (rp_server s)) (sn_tick p) (fun _ => True);
  rp_client_ring t : accepted t -> holds (cv_baselines (rp_client s)) t accepted;
  rp_accepted t : accepted t -> exists p, p ∈ rp_sent s /\ sn_tick p = t;
  rp_latest t : accepted t -> cv_has_snapshot (rp_client s) = true /\ t <= cv_latest_tick (rp_client s);
  rp_newest : cv_has_snapshot (rp_client s) = true -> accepted (cv_latest_tick (rp_client s));
  rp_reported t : t ∈ rp_reports s -> accepted t;
  rp_acked : rs_has_acked (rp_server s) = true -> accepted (rs_last_acked_tick (rp_server s))
}.

Lemma slots (h : SnapshotHistory) t t' : length h = n -> slot_of h t = slot_of h t' <-> same_slot t t'.
Proof. intros Hl. unfold same_slot. rewrite <- Hl. apply slot_same. lia. Qed.

Lemma sent_range log accepted s p : replication_ok log accepted s -> p ∈ rp_sent s -> 0 <= sn_tick p <= rp_clock s.
Proof. intros Hs Hp. by destruct (rp_packets _ _ _ Hs p Hp) as (? & ? & _ & _ & ? & _). Qed.

Lemma accepted_range log accepted s t : replication_ok log accepted s -> accepted t -> 0 <= t <= rp_clock s.
Proof. intros Hs Ht. destruct (rp_accepted _ _ _ Hs t Ht) as (p & Hp & <-). by eapply sent_range. Qed.

(** The baseline of a new packet. *)
Lemma baseline_ok log accepted s tick b : replication_ok log accepted s -> usable_baseline (rp_server s) tick = Some b ->
  accepted (sf_tick b) /\ log (sf_tick b) = Some b /\ ~ same_slot tick (sf_tick b) /\
  forall q, q ∈ rp_sent s -> same_slot (sn_tick q) (sf_tick b) -> sn_tick q <= sf_tick b.
Proof.
  intros Hs Hb. pose proof (usable_baseline_get _ _ _ Hb) as Hg. destruct (history_get_in _ _ _ Hg) as (_ & _ & _).
  destruct (rp_lengths _ _ _ Hs) as [Hl _].
  assert (E : rs_has_acked (rp_server s) = true /\ sf_tick b = rs_last_acked_tick (rp_server s) /\
    slot_of (rs_history (rp_server s)) (rs_last_acked_tick (rp_server s)) <> slot_of (rs_history (rp_server s)) tick).
  { unfold usable_baseline, rs_baseline in Hb. destruct (rs_has_acked _); [|done].
    destruct (history_get _ _) as [b'|] eqn:Eg; [|done]. destruct (Nat.eqb_spec (slot_of (rs_history (rp_server s)) (rs_last_acked_tick (rp_server s)))
      (slot_of (rs_history (rp_server s)) tick)); [done|]. injection Hb as ->. by destruct (history_get_in _ _ _ Eg) as (_ & _ & ->). }
  destruct E as (Ha & Et & Eslot). rewrite <- Et in Eslot.
  split; [rewrite Et; by apply (rp_acked _ _ _ Hs)|]. split; [by apply (proj1 (rp_agree _ _ _ Hs))|]. split.
  - intros E. apply Eslot, slots; [done|]. by symmetry.
  - intros q Hq E. eapply (holds_get _ _ _ (fun _ => True)); [exact Hg| |by apply (rp_server_ring _ _ _ Hs)]. by apply slots.
Qed.

(** A snapshot goes out, or does not fit and nothing happens. *)
Lemma encode_step_ok log accepted s world viewer last_input index out capacity result rs' :
  replication_ok log accepted s -> world_ready kinds world viewer last_input out capacity ->
  store_find viewer (w_entities world) = Some index -> rp_clock s < w_tick world < 2 ^ 31 ->
  rs_encode nth_element world viewer last_input out capacity (rp_server s) = (result, rs') ->
  exists log', replication_ok log' accepted (mkReplication rs' (rp_client s)
    (match result with Some bytes => rp_sent s ++ [sent_snapshot world index (rp_server s) rs' bytes] | None => rp_sent s end)
    (rp_reports s) (w_tick world)).
Proof.
  intros Hs Hw Hi Ht E. destruct (rp_lengths _ _ _ Hs) as [Hls Hlc], (rp_state _ _ _ Hs) as [Hrs Hmax], (rp_agree _ _ _ Hs) as [Has Hac],
    (rp_time _ _ _ Hs) as [Hclock Hlog].
  assert (Hr : encode_ready kinds world (rp_server s) viewer last_input out capacity) by (apply encode_ready_of; auto; split; lia).
  pose proof (encode_state_ok _ Hne _ _ _ _ _ _ _ _ Hr Hi) as Hok. pose proof (encode_keeps nth_element world viewer last_input out capacity (rp_server s)) as Hk.
  rewrite E in Hok, Hk. cbn [snd] in Hok. destruct Hk as (Hcfg & Hlast & Hhas & Hnone).
  assert (Hold : forall p, p ∈ rp_sent s -> sn_tick p < w_tick world) by (intros p Hp; pose proof (sent_range _ _ _ _ Hs Hp); lia).
  destruct result as [bytes|].
  - destruct (sent_packet_ok _ _ _ _ _ _ _ _ _ _ _ Hne Hr Hi ltac:(lia) E) as (frame & Hp & Hput).
    assert (Hnew : log (w_tick world) = None) by (destruct (log (w_tick world)) eqn:El; [apply Hlog in El; lia|done]).
    pose proof (pk_valid _ _ _ Hp) as Hv. pose proof (pk_tick _ _ _ Hp : sf_tick frame = w_tick world) as Hft.
    exists (log_insert (w_tick world) frame log). split; cbn [rp_server rp_client rp_sent rp_reports rp_clock]; try apply Hs.
    + by rewrite Hput, history_put_length.
    + by rewrite Hcfg.
    + rewrite Hput. split; [by apply agrees_put|by apply agrees_mono].
    + split; [lia|]. intros t f. unfold log_insert. destruct (Z.eqb_spec t (w_tick world)) as [->|]; [lia|]. intros Hf%Hlog. lia.
    + intros p [Hin| ->%list_elem_of_singleton]%elem_of_app.
      * destruct (rp_packets _ _ _ Hs p Hin) as (f & base & Hpk & Hl & Hrange & Hbase). exists f, base.
        split; [done|]. split; [by apply log_insert_old|]. split; [lia|]. intros b Hb. destruct (Hbase b Hb) as (Hacc & Hlb & Hq).
        split; [done|]. split; [by apply log_insert_old|]. intros q [Hqin| ->%list_elem_of_singleton]%elem_of_app; [by apply Hq|].
        intros _ _. cbn. specialize (Hold p Hin). lia.
      * exists frame, (usable_baseline (rp_server s) (w_tick world)). split; [done|]. cbn [sn_tick sent_snapshot].
        split; [unfold log_insert; by rewrite Z.eqb_refl|]. split; [lia|]. intros b Hb.
        destruct (baseline_ok _ _ _ _ _ Hs Hb) as (Hacc & Hlb & Hslot & Hq). split; [done|]. split; [by apply log_insert_old|].
        intros q [Hqin| ->%list_elem_of_singleton]%elem_of_app Hsame Hlt; [|done]. specialize (Hq q Hqin Hsame). lia.
    + intros p Hin. rewrite Hput. apply holds_put with (P := fun _ => True); try done; [lia| |].
      * apply elem_of_app in Hin as [Hin| ->%list_elem_of_singleton]; [left; by apply (rp_server_ring _ _ _ Hs)|by right].
      * intros _. apply elem_of_app in Hin as [Hin| ->%list_elem_of_singleton]; [specialize (Hold p Hin)|cbn]; lia.
    + intros t Ha. destruct (rp_accepted _ _ _ Hs t Ha) as (p & Hp' & <-). exists p. split; [apply elem_of_app; by left|done].
    + rewrite Hhas, Hlast. apply (rp_acked _ _ _ Hs).
  - exists log. split; cbn [rp_server rp_client rp_sent rp_reports rp_clock]; rewrite ?Hcfg, ?Hnone, ?Hhas, ?Hlast by done; try apply Hs; try done.
    + split; [lia|]. intros t f Hf%Hlog. lia.
    + intros p Hin. destruct (rp_packets _ _ _ Hs p Hin) as (f & base & Hpk & Hl & Hrange & Hbase). exists f, base. split_and!; try done; lia.
Qed.

Lemma sequence_greater32_small a b : 0 <= a < 2 ^ 31 -> 0 <= b < 2 ^ 31 -> sequence_greater32 a b = (b <? a).
Proof. intros Ha Hb. rewrite <- (sequence_greater32_window a b 0) by lia. by rewrite !wrap_small by (split; lia). Qed.

(** A snapshot arrives and is taken: its frame is the new baseline of its slot. *)
Lemma taken_ok log accepted s p frame base v' : replication_ok log accepted s -> p ∈ rp_sent s ->
  packet_ok p frame base -> log (sn_tick p) = Some frame ->
  (cv_has_snapshot (rp_client s) = true -> cv_latest_tick (rp_client s) < sn_tick p + Z.of_nat n) ->
  cv_baselines v' = history_put (cv_baselines (rp_client s)) (sn_tick p) frame -> cv_has_snapshot v' = true ->
  cv_latest_tick v' = (if negb (cv_has_snapshot (rp_client s)) || sequence_greater32 (sn_tick p) (cv_latest_tick (rp_client s))
                       then sn_tick p else cv_latest_tick (rp_client s)) ->
  replication_ok log (fun t => accepted t \/ t = sn_tick p) (mkReplication (rp_server s) v' (rp_sent s) (rp_reports s) (rp_clock s)).
Proof.
  intros Hs Hp Hpk Hlog Hlate Eb Eh El. destruct (rp_lengths _ _ _ Hs) as [Hls Hlc], (rp_agree _ _ _ Hs) as [Has Hac], (rp_time _ _ _ Hs) as [Hclock _].
  pose proof (sent_range _ _ _ _ Hs Hp) as Hrange. set (v := rp_client s) in *.
  assert (Hnewest : cv_latest_tick v' = sn_tick p /\ (forall t, accepted t -> t <= sn_tick p) \/
    cv_latest_tick v' = cv_latest_tick v /\ sn_tick p <= cv_latest_tick v /\ cv_has_snapshot v = true).
  { rewrite El. destruct (cv_has_snapshot v) eqn:Ehas; cbn [negb orb].
    - pose proof (accepted_range _ _ _ _ Hs (rp_newest _ _ _ Hs Ehas)) as Hl. fold v in Hl.
      rewrite sequence_greater32_small by lia. destruct (Z.ltb_spec (cv_latest_tick v) (sn_tick p)); [left|right; split_and!; done || lia].
      split; [done|]. intros t Ht. destruct (rp_latest _ _ _ Hs t Ht) as [_ Hle]. fold v in Hle. lia.
    - left. split; [done|]. intros t Ht. destruct (rp_latest _ _ _ Hs t Ht) as [Hf _]. fold v in Hf. congruence. }
  split; cbn [rp_server rp_client rp_sent rp_reports rp_clock]; try apply Hs.
  - by rewrite Eb, history_put_length.
  - split; [done|]. rewrite Eb. apply agrees_put_same; [done|done|apply Hpk|apply Hpk].
  - intros q Hq. destruct (rp_packets _ _ _ Hs q Hq) as (f & b & Hpk' & Hl & Hr & Hb). exists f, b. split_and!; try done; try lia.
    intros b' Eb'. destruct (Hb b' Eb') as (? & ? & ?). auto.
  - intros t Ht. rewrite Eb. apply holds_put with (P := accepted); [lia|apply Hpk|apply Hpk|by left|by right| |].
    + destruct Ht as [Ht| ->]; [left; by apply (rp_client_ring _ _ _ Hs)|by right].
    + intros E%slots; [|done]. destruct Ht as [Ht| ->]; [|lia]. destruct (rp_latest _ _ _ Hs t Ht) as [Hh Hle].
      destruct (Z.le_gt_cases t (sn_tick p)) as [|Hgt]; [done|]. specialize (Hlate Hh). fold v in Hle.
      pose proof (slot_apart (Z.of_nat n) (sn_tick p) t ltac:(lia) (eq_sym E) ltac:(lia)). lia.
  - intros t [Ht| ->]; [by apply (rp_accepted _ _ _ Hs)|by exists p].
  - intros t Ht. split; [done|]. destruct Hnewest as [[-> Hle]|(-> & Hle & Hh)]; destruct Ht as [Ht| ->]; try lia; [by apply Hle|].
    by apply (rp_latest _ _ _ Hs).
  - intros _. destruct Hnewest as [[-> _]|(-> & _ & Hh)]; [by right|left; by apply (rp_newest _ _ _ Hs)].
  - intros t Ht. left. by apply (rp_reported _ _ _ Hs).
  - intros Ha. left. by apply (rp_acked _ _ _ Hs).
Qed.

(** The ring, the newest tick and the flag are all the invariant asks of the client. *)
Lemma same_view_ok log accepted s v : replication_ok log accepted s -> cv_baselines v = cv_baselines (rp_client s) ->
  cv_latest_tick v = cv_latest_tick (rp_client s) -> cv_has_snapshot v = cv_has_snapshot (rp_client s) ->
  replication_ok log accepted (mkReplication (rp_server s) v (rp_sent s) (rp_reports s) (rp_clock s)).
Proof. intros Hs Eb El Eh. destruct Hs. split; cbn [rp_server rp_client rp_sent rp_reports rp_clock]; rewrite ?Eb, ?El, ?Eh; done. Qed.

(** The packet's baseline, wherever the client still has it. *)
Lemma true_baseline log accepted s base : replication_ok log accepted s ->
  (forall b, base = Some b -> log (sf_tick b) = Some b) ->
  forall b f, base = Some b -> history_get (cv_baselines (rp_client s)) (sf_tick b) = Some f -> f = b.
Proof. intros Hs Hb b f E Hf. apply (proj2 (rp_agree _ _ _ Hs)) in Hf. rewrite (Hb b E) in Hf. by injection Hf. Qed.

Lemma deliver_step_ok log accepted s p : replication_ok log accepted s -> p ∈ rp_sent s ->
  (cv_has_snapshot (rp_client s) = true -> cv_latest_tick (rp_client s) < sn_tick p + Z.of_nat (length (cv_baselines (rp_client s)))) ->
  exists accepted', replication_ok log accepted' (mkReplication (rp_server s) (snd (apply_snapshot (sn_bytes p) (rp_client s))) (rp_sent s) (rp_reports s) (rp_clock s)).
Proof.
  intros Hs Hp Hlate. rewrite (proj2 (rp_lengths _ _ _ Hs)) in Hlate. destruct (rp_packets _ _ _ Hs p Hp) as (frame & base & Hpk & Hl & _ & Hb).
  pose proof (apply_packet _ _ _ (rp_client s) Hpk (true_baseline _ _ _ _ Hs (fun b E => proj1 (proj2 (Hb b E))))) as Ha.
  destruct (apply_snapshot (sn_bytes p) (rp_client s)) as [[] v']; cbn [snd].
  - destruct Ha as (? & ? & ?). eexists. by eapply taken_ok.
  - destruct Ha as (_ & ? & ? & ?). exists accepted. by apply same_view_ok.
Qed.

Lemma acknowledge_step_ok log accepted s tick : replication_ok log accepted s -> tick ∈ rp_reports s ->
  replication_ok log accepted (mkReplication (acknowledge tick (rp_server s)) (rp_client s) (rp_sent s) (rp_reports s) (rp_clock s)).
Proof.
  intros Hs Ht. pose proof (rp_reported _ _ _ Hs tick Ht) as Ha. unfold acknowledge. destruct (_ && _).
  - destruct Hs. by split.
  - destruct Hs. split; try done. cbn. destruct rp_state0 as [[] ?]. by split.
Qed.

Lemma step_ok log accepted s s' : replication_ok log accepted s -> replication_step nth_element kinds s s' ->
  exists log' accepted', replication_ok log' accepted' s'.
Proof.
  intros Hs Hstep. destruct Hstep.
  - edestruct encode_step_ok as [log' Hok]; [exact Hs|eassumption..|]. by eexists _, _.
  - edestruct deliver_step_ok as [acc' Hok]; [exact Hs|eassumption..|]. by eexists _, _.
  - exists log, accepted. pose proof (rp_newest _ _ _ Hs ltac:(done)). destruct Hs. split; try done.
    cbn. intros t [Ht| ->%list_elem_of_singleton]%elem_of_app; auto.
  - exists log, accepted. by apply acknowledge_step_ok.
  - exists log, accepted. by apply same_view_ok.
Qed.

(** A packet newer than all the client has finds its baseline. *)
Lemma news_accepted log accepted s p (base : option SnapshotFrame) : replication_ok log accepted s -> p ∈ rp_sent s ->
  (cv_has_snapshot (rp_client s) = true -> cv_latest_tick (rp_client s) < sn_tick p) ->
  (forall b, base = Some b -> accepted (sf_tick b) /\ log (sf_tick b) = Some b /\
     forall q, q ∈ rp_sent s -> same_slot (sn_tick q) (sf_tick b) -> sf_tick b < sn_tick q -> sn_tick p <= sn_tick q) ->
  forall b, base = Some b -> history_get (cv_baselines (rp_client s)) (sf_tick b) <> None.
Proof.
  intros Hs Hp Hnews Hb b E. destruct (Hb b E) as (Ha & _ & Hq). destruct (rp_client_ring _ _ _ Hs _ Ha) as (f & Hf & Hslot & Hle & Hacc).
  destruct (Z.eq_dec (sf_tick f) (sf_tick b)) as [Et|Hne']; [by rewrite <- Et, Hf|]. exfalso.
  destruct (rp_accepted _ _ _ Hs _ Hacc) as (q & Hqin & Eq). destruct (rp_latest _ _ _ Hs _ Hacc) as [Hh Hlat]. specialize (Hnews Hh).
  apply slots in Hslot; [|apply (rp_lengths _ _ _ Hs)]. rewrite <- Eq in *. specialize (Hq q Hqin Hslot ltac:(lia)). lia.
Qed.

Lemma news_applied log accepted s p : replication_ok log accepted s -> p ∈ rp_sent s ->
  (cv_has_snapshot (rp_client s) = true -> cv_latest_tick (rp_client s) < sn_tick p) ->
  exists frame v', apply_snapshot (sn_bytes p) (rp_client s) = (true, v') /\ sn_frame p = Some frame /\
    history_get (cv_baselines v') (sn_tick p) = Some frame /\ cv_latest_tick v' = sn_tick p /\ cv_has_snapshot v' = true /\
    forall l, sn_exact p = Some l -> sf_states frame = l.
Proof.
  intros Hs Hp Hnews. destruct (rp_packets _ _ _ Hs p Hp) as (frame & base & Hpk & Hl & Hr & Hb). pose proof (rp_time _ _ _ Hs) as [Hc _].
  pose proof (apply_packet _ _ _ (rp_client s) Hpk (true_baseline _ _ _ _ Hs (fun b E => proj1 (proj2 (Hb b E))))) as Ha.
  pose proof (news_accepted _ _ _ _ _ Hs Hp Hnews Hb) as Hhave. exists frame.
  destruct (apply_snapshot (sn_bytes p) (rp_client s)) as [[] v']; [|by destruct Ha as ((b & E & Hgone) & _); destruct (Hhave b E)].
  exists v'. destruct Ha as (-> & -> & ->). split; [done|]. split; [apply Hpk|]. split; [|split; [|split; [done|apply Hpk]]].
  - rewrite history_get_put by (apply Hpk || (rewrite (proj2 (rp_lengths _ _ _ Hs)); exact Hn)). by rewrite bool_decide_true, Z.eqb_refl.
  - destruct (cv_has_snapshot (rp_client s)) eqn:Eh; [|done]. cbn [negb orb]. specialize (Hnews eq_refl).
    pose proof (accepted_range _ _ _ _ Hs (rp_newest _ _ _ Hs Eh)). rewrite sequence_greater32_small by lia. by rewrite (proj2 (Z.ltb_lt _ _)).
Qed.
End Invariant.

(** ** From a fresh pair *)
(** What the two configurations must agree on: rings of one size, a packet the count fields
    can describe, and quantizers with a range. *)
Record pair_ok (interest : InterestConfig) (params : WorldParams) (config : ClientViewConfig) : Prop := {
  po_rings : ic_baseline_history interest = vc_snapshot_history config /\ (0 < vc_snapshot_history config)%nat;
  po_budget : 0 <= ic_max_snapshot_bytes interest <= 65535;
  po_position : quantizer_ok (rq_position (ReplicationQuantizers_from params));
  po_velocity : quantizer_ok (rq_velocity (ReplicationQuantizers_from params))
}.

Lemma history_reset_fresh k : history_reset (history_configure k) = history_configure k.
Proof. unfold history_reset, history_configure. by rewrite fmap_replicate. Qed.

Lemma replication_start_ok `{Platform} kinds interest params config rs v : pair_ok interest params config ->
  replication_ok kinds (vc_snapshot_history config) (fun _ => None) (fun _ => False) (replication_start interest params config rs v).
Proof.
  intros [[Hring Hn] Hb Hqp Hqv]. split; cbn -[history_reset history_configure]; rewrite ?history_reset_fresh, ?Hring; try done.
  - unfold history_configure. by rewrite !length_replicate.
  - split; [|lia]. split; cbn -[history_reset history_configure]; rewrite ?history_reset_fresh; try done; [|lia].
    intros frame Hin Hv. unfold history_configure in Hin. by apply elem_of_replicate_inv in Hin as ->.
  - split; apply agrees_fresh.
  - intros p Hp. by apply elem_of_nil in Hp.
  - intros p Hp. by apply elem_of_nil in Hp.
  - intros t Ht. by apply elem_of_nil in Ht.
Qed.

Lemma run_ok `{Platform} nth_element kinds n s s' : nth_element_ok nth_element -> (0 < n)%nat ->
  rtc (replication_step nth_element kinds) s s' -> (exists log accepted, replication_ok kinds n log accepted s) ->
  exists log accepted, replication_ok kinds n log accepted s'.
Proof.
  intros Hne Hn. induction 1 as [|s s1 s2 Hstep _ IH]; [done|]. intros (log & accepted & Hs). apply IH.
  by eapply step_ok.
Qed.

(** ** Property *)
(** C6. Replication is never stuck.  Start from a freshly configured server and client
    whose rings have one size.  Let the server encode whatever worlds it likes at growing
    ticks, and let the network lose, repeat, delay and reorder snapshots and
    acknowledgements as it likes, short of delivering a snapshot a whole ring late.  At any
    moment, any snapshot ever sent that is newer than what the client has would be accepted
    if it arrived: the delta's baseline is still in the client's ring.  The client then holds exactly
    the frame the server recorded for that tick, it becomes the newest, and when
    the server deferred no entity it is the viewer's whole area of interest. *)
Theorem replication_never_stuck `{Platform} nth_element (kinds : Z -> Z) interest params config rs v s p :
  nth_element_ok nth_element -> pair_ok interest params config ->
  rtc (replication_step nth_element kinds) (replication_start interest params config rs v) s -> p ∈ rp_sent s ->
  (cv_has_snapshot (rp_client s) = true -> cv_latest_tick (rp_client s) < sn_tick p) ->
  exists frame v', apply_snapshot (sn_bytes p) (rp_client s) = (true, v') /\ sn_frame p = Some frame /\
    history_get (cv_baselines v') (sn_tick p) = Some frame /\ cv_latest_tick v' = sn_tick p /\ cv_has_snapshot v' = true /\
    forall l, sn_exact p = Some l -> sf_states frame = l.
Proof.
  intros Hne Hpair Hrun Hp Hnews. destruct (po_rings _ _ _ Hpair) as [_ Hn].
  destruct (run_ok _ _ (vc_snapshot_history config) _ _ Hne Hn Hrun) as (log & accepted & Hs); [by eexists _, _; apply replication_start_ok|].
  by eapply news_applied.
Qed.

(** ** Witness *)
#[local] Existing Instance plain_platform.

Definition at_tick (tick : Z) (w : World) : World :=
  mkWorld (w_params w) (w_entities w) (w_grid w) (w_players w) (w_stats w) tick (w_next_entity w).

Lemma at_tick_ready tick : @world_ready plain_platform sample_kinds (at_tick tick sample_seen) 1 17 (repeat 0 64) 64.
Proof. destruct sample_ready as [[] ? ? ? ? ? ? ? ? ?]. by split. Qed.

Lemma sample_current_small tick rs : (length (@ctx_current plain_platform (at_tick tick sample_seen) rs 0) <= 2)%nat.
Proof.
  unfold ctx_current, current_states. rewrite length_fmap.
  destruct (@gather_keys plain_platform (at_tick tick sample_seen) (wr_grid _ _ _ _ _ _ (at_tick_ready tick))
    (es_position (w_entities (at_tick tick sample_seen)) !!! 0%nat) (ic_aoi_radius (rs_config rs))) as (l & -> & Hnd & Hlt & _).
  rewrite length_fmap. apply (submseteq_length l (seq 0 2)), NoDup_submseteq; [done|]. intros i Hi%Hlt.
  change (es_size (w_entities (at_tick tick sample_seen))) with 2%nat in Hi. apply elem_of_seq. lia.
Qed.

(** The server's state when it has recorded at most a frame of these two entities. *)
Lemma sample_sends tick rs : 0 <= tick < 2 ^ 31 -> rs_ok sample_kinds rs -> rs_config rs = InterestConfig_default ->
  (forall b, usable_baseline rs tick = Some b -> (length (sf_states b) <= 2)%nat) ->
  exists bytes rs' frame, @rs_encode plain_platform best_first (at_tick tick sample_seen) 1 17 (repeat 0 64) 64 rs = (Some bytes, rs') /\
    rs_history rs' = history_put (rs_history rs) tick frame /\ sf_valid frame = true /\ sf_tick frame = tick /\
    (length (sf_states frame) <= 2)%nat.
Proof.
  intros Ht Hrs Hcfg Hbase.
  assert (Hr : @encode_ready plain_platform sample_kinds (at_tick tick sample_seen) rs 1 17 (repeat 0 64) 64).
  { apply encode_ready_of; [apply at_tick_ready|split; cbn; lia|done|rewrite Hcfg; cbn; lia]. }
  assert (Hi : store_find 1 (w_entities (at_tick tick sample_seen)) = Some 0%nat) by (vm_compute; reflexivity).
  pose proof (@encode_cases plain_platform best_first best_first_ok _ _ _ _ _ _ _ _ Hr Hi) as Hc.
  destruct (rs_encode _ _ _ _ _ _ _) as [[bytes|] rs'].
  - destruct Hc as [_ Hc]. destruct (Hc bytes eq_refl) as [_ ->]. eexists bytes, _, _. split; [done|]. split; [done|].
    split; [done|]. split; [done|]. cbn [ctx_frame sf_states]. etrans; [apply length_stored|].
    rewrite (@ctx_entries_length plain_platform). apply sample_current_small.
  - destruct Hc as [Hc _]. exfalso. pose proof (proj1 Hc eq_refl) as Hlt. unfold ctx_header_bits, ctx_budget in Hlt. rewrite Hcfg in Hlt.
    change (Z.min 64 (ic_max_snapshot_bytes InterestConfig_default)) with 64 in Hlt.
    pose proof (length_header_bits (w_tick (at_tick tick sample_seen)) (sf_tick <$> @ctx_base (at_tick tick sample_seen) rs) 17 1
      (@ctx_removed plain_platform (at_tick tick sample_seen) rs 0)) as Hh.
    assert (Hb : (length (@ctx_base_states (at_tick tick sample_seen) rs) <= 2)%nat).
    { unfold ctx_base_states, ctx_base. destruct (usable_baseline _ _) as [b|] eqn:E; [by apply Hbase|cbn; lia]. }
    pose proof (@ctx_removed_length plain_platform (at_tick tick sample_seen) rs 0). lia.
Qed.

Lemma sample_pair : pair_ok InterestConfig_default WorldParams_default ClientViewConfig_default.
Proof. destruct sample_replication_ok as [_ [Hp _] [Hv _] _]. split; [cbn; lia|cbn; lia|exact Hp|exact Hv]. Qed.

Definition sample_start : Replication :=
  replication_start InterestConfig_default WorldParams_default ClientViewConfig_default ReplicationState_new blank_view.
Definition sample_step : Replication -> Replication -> Prop := @replication_step plain_platform best_first sample_kinds.

Lemma sample_run s : rtc sample_step sample_start s -> exists log accepted, replication_ok sample_kinds 32 log accepted s.
Proof.
  intros Hrun. apply (@run_ok plain_platform _ _ _ _ _ best_first_ok) with (2 := Hrun); [lia|]. eexists _, _. exact (@replication_start_ok plain_platform sample_kinds _ _ _ ReplicationState_new blank_view sample_pair).
Qed.

(** The first snapshot is taken, reported and acknowledged, so the second is a delta. *)
Lemma sample_session : exists s p, rtc sample_step sample_start s /\ p ∈ rp_sent s /\
  cv_has_snapshot (rp_client s) = true /\ cv_latest_tick (rp_client s) = 0 /\ sn_tick p = 1.
Proof.
  assert (Hi : forall tick, store_find 1 (w_entities (at_tick tick sample_seen)) = Some 0%nat) by (intros; vm_compute; reflexivity).
  destruct (sample_run sample_start (rtc_refl _ _)) as (log0 & acc0 & H0).
  destruct (sample_sends 0 (rp_server sample_start)) as (bytes1 & rs1 & frame1 & E1 & Hh1 & Hv1 & _ & Hl1);
    [lia|apply (rp_state _ _ _ _ _ H0)|done|done|].
  set (s1 := mkReplication rs1 (rp_client sample_start) [sent_snapshot (at_tick 0 sample_seen) 0 (rp_server sample_start) rs1 bytes1] [] 0).
  assert (R1 : rtc sample_step sample_start s1).
  { apply rtc_once. apply (step_encode _ _ sample_start _ 1 17 0 (repeat 0 64) 64 (Some bytes1) rs1 (at_tick_ready 0) (Hi 0)); [cbn; lia|exact E1]. }
  destruct (sample_run _ R1) as (log1 & acc1 & H1).
  destruct (@news_applied plain_platform _ 32 ltac:(lia) _ _ s1 _ H1 (list_elem_of_here _ _)) as (f1 & v1 & Ea & _ & _ & Elat & Ehas & _); [done|].
  change (cv_latest_tick v1 = 0) in Elat.
  set (s2 := mkReplication rs1 v1 (rp_sent s1) [] 0).
  assert (R2 : rtc sample_step sample_start s2).
  { eapply rtc_r; [exact R1|]. pose proof (step_deliver best_first sample_kinds s1 _ (list_elem_of_here _ _)) as Hd.
    rewrite Ea in Hd. by apply Hd. }
  set (s3 := mkReplication rs1 v1 (rp_sent s1) [cv_latest_tick v1] 0).
  assert (R3 : rtc sample_step sample_start s3) by (eapply rtc_r; [exact R2|]; by apply (step_report _ _ s2)).
  set (s4 := mkReplication (acknowledge 0 rs1) v1 (rp_sent s1) [cv_latest_tick v1] 0).
  assert (R4 : rtc sample_step sample_start s4).
  { eapply rtc_r; [exact R3|]. apply (step_acknowledge _ _ s3). rewrite <- Elat. apply list_elem_of_here. }
  destruct (sample_run _ R4) as (log4 & acc4 & H4).
  destruct (sample_sends 1 (acknowledge 0 rs1)) as (bytes2 & rs2 & frame2 & E2 & _ & _ & Ht2 & _); [lia|apply (rp_state _ _ _ _ _ H4)| | |].
  - pose proof (encode_keeps best_first (at_tick 0 sample_seen) 1 17 (repeat 0 64) 64 (rp_server sample_start)) as Hk.
    rewrite E1 in Hk. destruct Hk as [Hk _]. unfold acknowledge. by destruct (_ && _).
  - intros b Hb%usable_baseline_get%history_get_in. destruct Hb as (Hin & Hv & _).
    replace (rs_history (acknowledge 0 rs1)) with (rs_history rs1) in Hin by (unfold acknowledge; by destruct (_ && _)).
    rewrite Hh1 in Hin. apply history_put_in in Hin as [->|Hin]; [done|].
    change (b ∈ history_reset (history_configure 32)) in Hin. rewrite history_reset_fresh in Hin. by apply elem_of_replicate_inv in Hin as ->.
  - set (p := sent_snapshot (at_tick 1 sample_seen) 0 (acknowledge 0 rs1) rs2 bytes2).
    exists (mkReplication rs2 v1 (rp_sent s1 ++ [p]) [cv_latest_tick v1] 1), p. split; [|split; [|exact (conj Ehas (conj Elat eq_refl))]].
    + eapply rtc_r; [exact R4|].
      apply (step_encode _ _ s4 _ 1 17 0 (repeat 0 64) 64 (Some bytes2) rs2 (at_tick_ready 1) (Hi 1)); [cbn; lia|exact E2].
    + apply elem_of_app. right. apply list_elem_of_here.
Qed.

Lemma replication_never_stuck_witness : exists s p frame v',
  rtc sample_step sample_start s /\ cv_has_snapshot (rp_client s) = true /\ sn_tick p = 1 /\
  apply_snapshot (sn_bytes p) (rp_client s) = (true, v') /\ sn_frame p = Some frame /\
  history_get (cv_baselines v') (sn_tick p) = Some frame /\ cv_latest_tick v' = sn_tick p /\ cv_has_snapshot v' = true /\
  forall l, sn_exact p = Some l -> sf_states frame = l.
Proof.
  destruct sample_session as (s & p & Hrun & Hp & Hhas & Hlatest & Htick).
  edestruct (@replication_never_stuck plain_platform best_first sample_kinds InterestConfig_default WorldParams_default
    ClientViewConfig_default ReplicationState_new blank_view s p) as (frame & v' & Hrest);
    [exact best_first_ok|exact sample_pair|exact Hrun|exact Hp|intros _; rewrite Hlatest, Htick; lia|].
  exists s, p, frame, v'. split; [exact Hrun|]. split; [exact Hhas|]. split; [exact Htick|exact Hrest].
Defined.
