(* ===== verification/Region.v ===== *)
(** * Region: authority regions and their shards ([src/src/sim/region.h])

    The uniform grid of regions, the hysteresis that decides when a player is
    handed over, and the assignment of regions to a sorted list of shards. *)

From S2P Require Import Prelude F32 Quantizer.
From Stdlib Require Import ZArith Lia Bool String Floats.SpecFloat.
From stdpp Require Import base tactics numbers list option sorting strings.
#[local] Open Scope Z_scope.

Definition kInvalidRegion : Z := 0xffffffff.

Record RegionMap := mkRegionMap {
  rm_world_size : f32;
  rm_regions_per_axis : Z;
  rm_margin : f32
}.

Definition RegionMap_default : RegionMap := mkRegionMap (f32_of_Z 2048) 2 (f32_of_Z 48).

Definition region_count (m : RegionMap) : Z := u32 (rm_regions_per_axis m * rm_regions_per_axis m).
Definition region_size (m : RegionMap) : f32 := fdiv (rm_world_size m) (f32_of_Z (rm_regions_per_axis m)).

Section Regions.
Context `{Platform}.

Definition axis_index (m : RegionMap) (value : f32) : Z :=
  let index := f32_to_i32 (fdiv value (region_size m)) in
  let index := if index <? 0 then 0 else index in
  let index := if i32 (rm_regions_per_axis m) <=? index then i32 (i32 (rm_regions_per_axis m) - 1) else index in
  u32 index.

Definition region_of (m : RegionMap) (x y : f32) : Z :=
  u32 (axis_index m y * rm_regions_per_axis m + axis_index m x).

(** [bounds_of]: the lower corner and the upper corner; [None] is the division by zero
    of a map without regions ([region_of] divides by it in floating point only). *)
Definition bounds_of (m : RegionMap) (region : Z) : option (Vec2 * Vec2) :=
  if rm_regions_per_axis m =? 0 then None else
  let size := region_size m in
  let cx := region mod rm_regions_per_axis m in
  let cy := region / rm_regions_per_axis m in
  let low := mkVec2 (fmul (f32_of_Z cx) size) (fmul (f32_of_Z cy) size) in
  Some (low, mkVec2 (fadd (vec_x low) size) (fadd (vec_y low) size)).

(** More than [margin] outside [low, high]. *)
Definition past (m : RegionMap) (low high v : f32) : bool :=
  fltb v (fsub low (rm_margin m)) || fgtb v (fadd high (rm_margin m)).

Definition handoff_target (m : RegionMap) (current_region : Z) (x y : f32) : option Z :=
  let raw := region_of m x y in
  if raw =? current_region then Some kInvalidRegion else
  '(low, high) ← bounds_of m current_region;
  Some (if past m (vec_x low) (vec_x high) x || past m (vec_y low) (vec_y high) y then raw else kInvalidRegion).

Definition center_of (m : RegionMap) (region : Z) : option Vec2 :=
  '(low, high) ← bounds_of m region;
  Some (mkVec2 (fmul (fadd (vec_x low) (vec_x high)) fhalf) (fmul (fadd (vec_y low) (vec_y high)) fhalf)).

(** A map with at least one region per axis divides by no zero. *)
Lemma bounds_of_some m region : rm_regions_per_axis m <> 0 -> is_Some (bounds_of m region).
Proof. intros Hm. unfold bounds_of. by rewrite (proj2 (Z.eqb_neq _ _) Hm). Qed.

Lemma handoff_target_some m current x y : rm_regions_per_axis m <> 0 -> is_Some (handoff_target m current x y).
Proof.
  intros Hm. unfold handoff_target. destruct (_ =? _); [done|]. by destruct (bounds_of_some m current Hm) as [[low high] ->].
Qed.

Lemma center_of_some m region : rm_regions_per_axis m <> 0 -> is_Some (center_of m region).
Proof. intros Hm. unfold center_of. by destruct (bounds_of_some m region Hm) as [[low high] ->]. Qed.
End Regions.

(** [assign_regions]: round robin over the sorted ids; nobody owns anything when
    there is no shard. *)
Definition assign_regions (sorted_shard_ids : list string) (count : nat) : list string :=
  match sorted_shard_ids with
  | [] => replicate count EmptyString
  | _ => (fun region => default EmptyString (sorted_shard_ids !! (region mod length sorted_shard_ids)%nat)) <$> seq 0 count
  end.

(** [std::sort] on strings: by byte, the prefix first. *)
Definition string_le (a b : string) : Prop := String.leb a b = true.

#[export] Instance string_le_dec : RelDecision string_le.
Proof. intros a b. unfold string_le. apply _. Defined.

Definition sort_ids (ids : list string) : list string := merge_sort string_le ids.

(** ** Sorting ids *)
Lemma string_compare_cons a b s t : String.compare (String a s) (String b t) =
  match Ascii.compare a b with Eq => String.compare s t | c => c end.
Proof. reflexivity. Qed.

Lemma ascii_compare_N a b : Ascii.compare a b = N.compare (Ascii.N_of_ascii a) (Ascii.N_of_ascii b).
Proof. reflexivity. Qed.

Lemma string_compare_trans s : forall t u, String.compare s t <> Gt -> String.compare t u <> Gt -> String.compare s u <> Gt.
Proof.
  induction s as [|a s IH]; intros [|b t] [|c u]; try (cbn; done).
  rewrite !string_compare_cons, !ascii_compare_N.
  destruct (N.compare_spec (Ascii.N_of_ascii a) (Ascii.N_of_ascii b)) as [E1|L1|G1]; [|..]; try done;
  destruct (N.compare_spec (Ascii.N_of_ascii b) (Ascii.N_of_ascii c)) as [E2|L2|G2]; try done;
  destruct (N.compare_spec (Ascii.N_of_ascii a) (Ascii.N_of_ascii c)) as [E3|L3|G3]; try done; try lia.
  by apply IH.
Qed.

Lemma string_le_compare a b : string_le a b <-> String.compare a b <> Gt.
Proof. unfold string_le, String.leb. destruct (String.compare a b); done. Qed.

#[export] Instance string_le_trans : Transitive string_le.
Proof. intros a b c. rewrite !string_le_compare. apply string_compare_trans. Qed.

#[export] Instance string_le_total : Total string_le.
Proof. intros a b. apply String.leb_total. Qed.

#[export] Instance string_le_antisymm : AntiSymm (=) string_le.
Proof. intros a b. apply String.leb_antisym. Qed.

Lemma sort_ids_permutation ids : sort_ids ids ≡ₚ ids.
Proof. apply merge_sort_Permutation. Qed.

(** Every permutation of the ids sorts to the same list. *)
Lemma sort_ids_agree ids ids' : ids ≡ₚ ids' -> sort_ids ids = sort_ids ids'.
Proof.
  intros Hp. apply (Sorted_unique string_le); [apply Sorted_merge_sort; apply _..|].
  by rewrite !sort_ids_permutation.
Qed.

(** ** The grid *)
Definition regions_ok (m : RegionMap) : Prop := 0 < rm_regions_per_axis m < 2 ^ 15.

Section Grid.
Context `{Platform} (m : RegionMap) (Hm : regions_ok m).

Lemma axis_index_range v : 0 <= axis_index m v < rm_regions_per_axis m.
Proof.
  unfold regions_ok in Hm. unfold axis_index. rewrite (i32_small (rm_regions_per_axis m)) by lia.
  set (i := if f32_to_i32 _ <? 0 then 0 else _).
  assert (Hi : 0 <= i) by (subst i; destruct (Z.ltb_spec (f32_to_i32 (fdiv v (region_size m))) 0); lia). clearbody i.
  destruct (Z.leb_spec (rm_regions_per_axis m) i).
  - rewrite i32_small, wrap_small by (try split; lia). lia.
  - rewrite wrap_small by (split; lia). lia.
Qed.

Lemma region_of_value x y : region_of m x y = axis_index m y * rm_regions_per_axis m + axis_index m x.
Proof.
  unfold region_of. unfold regions_ok in Hm. pose proof (axis_index_range x). pose proof (axis_index_range y).
  apply wrap_small. split; [nia|]. nia.
Qed.

Lemma region_count_value : region_count m = rm_regions_per_axis m * rm_regions_per_axis m.
Proof. unfold region_count. unfold regions_ok in Hm. apply wrap_small. split; nia. Qed.

Lemma region_of_range x y : 0 <= region_of m x y < region_count m.
Proof.
  rewrite region_of_value, region_count_value. unfold regions_ok in Hm.
  pose proof (axis_index_range x). pose proof (axis_index_range y). nia.
Qed.

Lemma region_count_valid : region_count m < kInvalidRegion.
Proof. rewrite region_count_value. unfold regions_ok, kInvalidRegion in *. nia. Qed.
End Grid.

(** ** Round robin *)
Lemma assign_regions_length ids count : length (assign_regions ids count) = count.
Proof. destruct ids; cbn [assign_regions]; [apply length_replicate|]. by rewrite length_fmap, length_seq. Qed.

Lemma assign_regions_lookup ids count region : ids <> [] -> (region < count)%nat ->
  assign_regions ids count !! region = ids !! (region mod length ids)%nat.
Proof.
  intros Hne Hr. destruct ids as [|id ids]; [done|]. unfold assign_regions. set (l := id :: ids).
  rewrite list_lookup_fmap, lookup_seq_lt by done. cbn [fmap option_fmap option_map]. rewrite Nat.add_0_l.
  destruct (lookup_lt_is_Some_2 l (region mod length l)) as [x Hx]; [apply Nat.mod_upper_bound; by subst l|].
  by rewrite Hx.
Qed.

Lemma assign_regions_owner ids count owner region : assign_regions ids count !! region = Some owner -> owner <> EmptyString ->
  owner ∈ ids.
Proof.
  intros Hl Hne. destruct ids as [|id ids].
  - cbn in Hl. by apply lookup_replicate in Hl as [-> _].
  - assert (Hr : (region < count)%nat) by (apply lookup_lt_Some in Hl; by rewrite assign_regions_length in Hl).
    rewrite assign_regions_lookup in Hl by done. by eapply list_elem_of_lookup_2.
Qed.

(** With at least as many regions as shards, every shard owns one. *)
Lemma assign_regions_cover ids count id : id ∈ ids -> (length ids <= count)%nat ->
  exists region, (region < count)%nat /\ assign_regions ids count !! region = Some id.
Proof.
  intros (i & Hi)%list_elem_of_lookup Hle. pose proof (lookup_lt_Some _ _ _ Hi) as Hlt. exists i. split; [lia|].
  rewrite assign_regions_lookup; [|by destruct ids|lia].
  by rewrite Nat.mod_small.
Qed.

(** ** Properties *)
(** Handoff with hysteresis.  A player is handed over only to the valid region
    it stands in, which differs from its current one, and only when it is past the
    current region's border by more than the margin on some axis; anyone within
    the margin stays put; and at the position where it was handed over the
    receiving region keeps it, so a crossing never bounces back at once. *)
Theorem handoff_hysteresis `{Platform} (m : RegionMap) (current : Z) (x y : f32) : regions_ok m ->
  exists low high target, bounds_of m current = Some (low, high) /\ handoff_target m current x y = Some target /\
  let outside := past m (vec_x low) (vec_x high) x || past m (vec_y low) (vec_y high) y in
  (target <> kInvalidRegion <-> region_of m x y <> current /\ outside = true) /\
  (target <> kInvalidRegion -> target = region_of m x y /\ 0 <= target < region_count m /\
     handoff_target m target x y = Some kInvalidRegion).
Proof.
  intros Hm. pose proof (region_of_range m Hm x y) as Hr. pose proof (region_count_valid m Hm) as Hv.
  assert (Hback : handoff_target m (region_of m x y) x y = Some kInvalidRegion) by (unfold handoff_target; by rewrite Z.eqb_refl).
  destruct (bounds_of_some m current) as [[low high] Eb]; [unfold regions_ok in Hm; lia|]. exists low, high.
  unfold handoff_target at 1. rewrite Eb. cbn [mbind option_bind].
  destruct (Z.eqb_spec (region_of m x y) current) as [E|Hne]; [eexists; do 2 (split; [done|]); split; [split; [done|by intros []]|done]|].
  eexists. do 2 (split; [done|]). destruct (past m (vec_x low) (vec_x high) x || past m (vec_y low) (vec_y high) y).
  - split; [split; [done|]|]; [intros _; lia|]. intros _. split; [done|]. split; [done|exact Hback].
  - split; [split; [done|by intros []]|done].
Qed.

Lemma handoff_hysteresis_witness :
  @handoff_target plain_platform RegionMap_default 0 (f32_of_Z 1100) (f32_of_Z 10) = Some 1 /\
  exists low high target, bounds_of RegionMap_default 0 = Some (low, high) /\
  @handoff_target plain_platform RegionMap_default 0 (f32_of_Z 1100) (f32_of_Z 10) = Some target /\
  let outside := past RegionMap_default (vec_x low) (vec_x high) (f32_of_Z 1100) ||
                 past RegionMap_default (vec_y low) (vec_y high) (f32_of_Z 10) in
  (target <> kInvalidRegion <-> @region_of plain_platform RegionMap_default (f32_of_Z 1100) (f32_of_Z 10) <> 0 /\ outside = true) /\
  (target <> kInvalidRegion -> target = @region_of plain_platform RegionMap_default (f32_of_Z 1100) (f32_of_Z 10) /\
     0 <= target < region_count RegionMap_default /\
     @handoff_target plain_platform RegionMap_default target (f32_of_Z 1100) (f32_of_Z 10) = Some kInvalidRegion).
Proof.
  split; [vm_compute; reflexivity|].
  apply (@handoff_hysteresis plain_platform RegionMap_default 0 (f32_of_Z 1100) (f32_of_Z 10)).
  split; cbn; lia.
Defined.
