(* ===== verification/Text.v ===== *)
(** * Text: the string functions of the C++ library the sources use

    Decimal printing ([std::to_string]) and parsing ([strtoull], [strtoll],
    [strtol]), and searching and slicing of [std::string].  A [std::string] is a
    [string] of bytes. *)

From S2P Require Import Prelude.
From Stdlib Require Import ZArith Lia Bool Ascii String.
From stdpp Require Import base tactics numbers list option strings.
#[local] Open Scope Z_scope.

(** ** Decimal numbers *)
Definition digit_char (d : Z) : ascii := ascii_of_nat (Z.to_nat (48 + d)).

Definition digit_value (c : ascii) : option Z :=
  let n := Z.of_nat (nat_of_ascii c) in if (48 <=? n) && (n <=? 57) then Some (n - 48) else None.

Fixpoint print_digits (fuel : nat) (n : Z) (acc : string) : string :=
  match fuel with
  | O => acc
  | S fuel =>
      let acc := String (digit_char (n mod 10)) acc in
      if n / 10 =? 0 then acc else print_digits fuel (n / 10) acc
  end.

(** [std::to_string] of an unsigned value below [2^64 < 10^20]. *)
Definition to_string (n : Z) : string := print_digits 20 n EmptyString.

(** The same for an [i64]. *)
Definition to_string_signed (n : Z) : string :=
  if n <? 0 then String "-" (to_string (- n)) else to_string n.

Fixpoint parse_digits (value : Z) (s : string) : Z * string :=
  match s with
  | EmptyString => (value, s)
  | String c rest =>
      match digit_value c with
      | Some d => parse_digits (10 * value + d) rest
      | None => (value, s)
      end
  end.

(** [isspace] in the C locale. *)
Definition is_space (c : ascii) : bool :=
  let n := Z.of_nat (nat_of_ascii c) in ((9 <=? n) && (n <=? 13)) || (n =? 32).

Fixpoint skip_space (s : string) : string :=
  match s with
  | String c rest => if is_space c then skip_space rest else s
  | EmptyString => s
  end.

Definition split_sign (s : string) : bool * string :=
  match s with
  | String "-" rest => (true, rest)
  | String "+" rest => (false, rest)
  | _ => (false, s)
  end.

Definition starts_with_digit (s : string) : bool :=
  match s with
  | String c _ => match digit_value c with Some _ => true | None => false end
  | EmptyString => false
  end.

(** The number at the front of [s] with its sign, and the text after it; no
    conversion leaves the whole text. *)
Definition scan_number (s : string) : option (bool * Z * string) :=
  let '(negative, body) := split_sign (skip_space s) in
  if starts_with_digit body then
    let '(value, rest) := parse_digits 0 body in Some (negative, value, rest)
  else None.

Definition strtoull (s : string) : Z :=
  match scan_number s with
  | None => 0
  | Some (negative, value, _) =>
      if 2 ^ 64 <=? value then 2 ^ 64 - 1 else if negative then u64 (- value) else value
  end.

(** [strtol] and [strtoll]: both 64 bits wide here. *)
Definition clamp_i64 (z : Z) : Z := Z.max (- 2 ^ 63) (Z.min (2 ^ 63 - 1) z).

Definition strtol (s : string) : Z * string :=
  match scan_number s with
  | None => (0, s)
  | Some (negative, value, rest) => (clamp_i64 (if negative then - value else value), rest)
  end.

Definition strtoll (s : string) : Z := fst (strtol s).

(** ** Searching and slicing *)
Fixpoint str_drop (n : nat) (s : string) : string :=
  match n, s with
  | S n, String _ rest => str_drop n rest
  | _, _ => s
  end.

Fixpoint str_take (n : nat) (s : string) : string :=
  match n, s with
  | S n, String c rest => String c (str_take n rest)
  | _, _ => EmptyString
  end.

(** [text.find(needle)] and [text.find(needle, from)]. *)
Fixpoint str_find (needle s : string) : option nat :=
  if String.prefix needle s then Some O else
  match s with
  | EmptyString => None
  | String _ rest => S <$> str_find needle rest
  end.

Definition str_find_from (needle s : string) (from : nat) : option nat :=
  if (String.length s <? from)%nat then None else Nat.add from <$> str_find needle (str_drop from s).

(** [text.substr(from, count)] for [from <= text.size()]. *)
Definition substr (s : string) (from count : nat) : string := str_take count (str_drop from s).

Definition CRLF : string := String "013" (String "010" EmptyString).

(** ** Strings *)
Lemma str_app_nil s : (s +:+ EmptyString) = s.
Proof. induction s as [|c s IH]; [done|]. change (String c (s +:+ EmptyString) = String c s). by rewrite IH. Qed.

Lemma str_app_assoc s t u : ((s +:+ t) +:+ u) = (s +:+ (t +:+ u)).
Proof. induction s as [|c s IH]; [done|]. change (String c ((s +:+ t) +:+ u) = String c (s +:+ (t +:+ u))). by rewrite IH. Qed.

Lemma str_app_cons c s t : (String c s +:+ t) = String c (s +:+ t).
Proof. done. Qed.

Lemma str_length_app s t : String.length (s +:+ t) = (String.length s + String.length t)%nat.
Proof. induction s as [|c s IH]; [done|]. rewrite str_app_cons. cbn. by rewrite IH. Qed.

Lemma str_drop_app s t : str_drop (String.length s) (s +:+ t) = t.
Proof. induction s as [|c s IH]; [by destruct t|]. by rewrite str_app_cons. Qed.

Lemma str_take_app s t : str_take (String.length s) (s +:+ t) = s.
Proof. induction s as [|c s IH]; [by destruct t|]. rewrite str_app_cons. cbn. by rewrite IH. Qed.

Lemma str_drop_drop n m s : str_drop m (str_drop n s) = str_drop (n + m) s.
Proof.
  revert s. induction n as [|n IH]; intros s; [by destruct s|].
  destruct s as [|c s]; [by destruct m|]. apply IH.
Qed.

Lemma str_drop_app_le n s t : (n <= String.length s)%nat -> str_drop n (s +:+ t) = (str_drop n s +:+ t).
Proof.
  revert s. induction n as [|n IH]; intros s Hn; [done|].
  destruct s as [|c s]; [cbn in Hn; lia|]. rewrite str_app_cons. apply IH. cbn in Hn. lia.
Qed.

Lemma str_length_drop n s : String.length (str_drop n s) = (String.length s - n)%nat.
Proof.
  revert s. induction n as [|n IH]; intros s; [destruct s; cbn; lia|]. destruct s as [|c s]; [done|]. apply IH.
Qed.

Lemma str_app_inj s t u : (s +:+ t) = (s +:+ u) -> t = u.
Proof. intros H. rewrite <- (str_drop_app s t), <- (str_drop_app s u). by rewrite H. Qed.

(** ** Numbers *)
Lemma digit_value_char d : 0 <= d < 10 -> digit_value (digit_char d) = Some d.
Proof.
  intros Hd. assert (Hc : d = 0 \/ d = 1 \/ d = 2 \/ d = 3 \/ d = 4 \/ d = 5 \/ d = 6 \/ d = 7 \/ d = 8 \/ d = 9) by lia.
  repeat (destruct Hc as [->|Hc]; [reflexivity|]). by subst.
Qed.

Lemma print_digits_head fuel : forall n acc, (0 < fuel)%nat -> 0 <= n ->
  exists d rest, 0 <= d < 10 /\ print_digits fuel n acc = String (digit_char d) rest.
Proof.
  induction fuel as [|fuel IH]; intros n acc Hf Hn; [lia|]. cbn [print_digits].
  pose proof (Z.mod_pos_bound n 10). destruct (n / 10 =? 0); [eexists _, _; split; [|reflexivity]; lia|].
  destruct fuel as [|fuel]; [cbn; eexists _, _; split; [|reflexivity]; lia|].
  apply IH; [lia|]. by apply Z.div_pos.
Qed.

Lemma parse_print_digits fuel : forall n acc value, 0 <= n < 10 ^ Z.of_nat fuel -> (0 < fuel)%nat ->
  exists scale, parse_digits value (print_digits fuel n acc) = parse_digits (value * scale + n) acc.
Proof.
  induction fuel as [|fuel IH]; intros n acc value Hn Hf; [lia|]. cbn [print_digits].
  pose proof (Z.mod_pos_bound n 10 ltac:(lia)) as Hm. pose proof (Z.div_mod n 10 ltac:(lia)) as Hd.
  destruct (Z.eqb_spec (n / 10) 0) as [E|E].
  - exists 10. cbn [parse_digits]. rewrite digit_value_char by done. f_equal. lia.
  - rewrite Nat2Z.inj_succ, Z.pow_succ_r in Hn by lia.
    assert (Hn' : 0 <= n / 10 < 10 ^ Z.of_nat fuel) by (split; [apply Z.div_pos; lia|apply Z.div_lt_upper_bound; lia]).
    destruct fuel as [|fuel]; [cbn in Hn'; lia|].
    destruct (IH (n / 10) (String (digit_char (n mod 10)) acc) value Hn' ltac:(lia)) as [scale ->].
    exists (10 * scale). cbn [parse_digits]. rewrite digit_value_char by done. f_equal. lia.
Qed.

Lemma digit_value_range c d : digit_value c = Some d -> 0 <= d < 10.
Proof. unfold digit_value. destruct (Z.leb_spec 48 (Z.of_nat (nat_of_ascii c))), (Z.leb_spec (Z.of_nat (nat_of_ascii c)) 57); cbn; intros [=]; lia. Qed.

Lemma digit_char_class d : 0 <= d < 10 -> is_space (digit_char d) = false /\ digit_char d <> "-"%char /\ digit_char d <> "+"%char.
Proof.
  intros Hd. assert (Hc : d = 0 \/ d = 1 \/ d = 2 \/ d = 3 \/ d = 4 \/ d = 5 \/ d = 6 \/ d = 7 \/ d = 8 \/ d = 9) by lia.
  repeat (destruct Hc as [->|Hc]; [by repeat split|]). subst. by repeat split.
Qed.

Lemma print_digits_app fuel : forall n acc rest, (print_digits fuel n acc +:+ rest) = print_digits fuel n (acc +:+ rest).
Proof.
  induction fuel as [|fuel IH]; intros n acc rest; [done|]. cbn [print_digits].
  destruct (n / 10 =? 0); [done|]. apply IH.
Qed.

Lemma split_sign_digit d rest : 0 <= d < 10 ->
  split_sign (skip_space (String (digit_char d) rest)) = (false, String (digit_char d) rest).
Proof.
  intros Hd. assert (Hc : d = 0 \/ d = 1 \/ d = 2 \/ d = 3 \/ d = 4 \/ d = 5 \/ d = 6 \/ d = 7 \/ d = 8 \/ d = 9) by lia.
  repeat (destruct Hc as [->|Hc]; [reflexivity|]). by subst.
Qed.

Lemma parse_digits_stop value rest : starts_with_digit rest = false -> parse_digits value rest = (value, rest).
Proof. destruct rest as [|c rest]; [done|]. cbn. by destruct (digit_value c). Qed.

Lemma parse_digits_nonneg s : forall value, 0 <= value -> 0 <= fst (parse_digits value s).
Proof.
  induction s as [|c s IH]; intros value Hv; [done|]. cbn [parse_digits]. destruct (digit_value c) as [d|] eqn:E; [|done].
  apply IH. apply digit_value_range in E. lia.
Qed.

(** A printed number is read back, whatever follows it that is not a digit. *)
Lemma scan_to_string n rest : 0 <= n < 2 ^ 64 -> starts_with_digit rest = false ->
  scan_number (to_string n +:+ rest) = Some (false, n, rest).
Proof.
  intros Hn Hr. unfold scan_number, to_string. rewrite print_digits_app.
  destruct (print_digits_head 20 n (EmptyString +:+ rest) ltac:(lia) ltac:(lia)) as (d & tail & Hd & E).
  destruct (parse_print_digits 20 n (EmptyString +:+ rest) 0 ltac:(split; [|cbn]; lia) ltac:(lia)) as [scale Ep].
  rewrite E in *. rewrite split_sign_digit by done. unfold starts_with_digit. rewrite digit_value_char by done.
  rewrite Ep, Z.mul_0_l, Z.add_0_l. change (EmptyString +:+ rest) with rest. by rewrite parse_digits_stop.
Qed.

Lemma strtoull_to_string n rest : 0 <= n < 2 ^ 64 -> starts_with_digit rest = false ->
  strtoull (to_string n +:+ rest) = n.
Proof.
  intros Hn Hr. unfold strtoull. rewrite scan_to_string by done. destruct (Z.leb_spec (2 ^ 64) n); [lia|done].
Qed.

Lemma strtoull_print n : 0 <= n < 2 ^ 64 -> strtoull (to_string n) = n.
Proof. intros Hn. rewrite <- (str_app_nil (to_string n)). by apply strtoull_to_string. Qed.

Lemma strtoull_range s : fits 64 (strtoull s).
Proof.
  unfold strtoull. destruct (scan_number s) as [[[neg v] rest]|] eqn:E; [|split; lia].
  destruct (Z.leb_spec (2 ^ 64) v); [split; lia|]. destruct neg; [apply wrap_range; lia|].
  split; [|lia]. unfold scan_number in E. destruct (split_sign (skip_space s)) as [n body]. destruct (starts_with_digit body); [|done].
  pose proof (parse_digits_nonneg body 0) as Hp. destruct (parse_digits 0 body) as [v' r]. injection E as _ -> _. cbn in Hp. lia.
Qed.

Lemma to_string_inj n m : 0 <= n < 2 ^ 64 -> 0 <= m < 2 ^ 64 -> to_string n = to_string m -> n = m.
Proof. intros Hn Hm E. by rewrite <- (strtoull_print n Hn), <- (strtoull_print m Hm), E. Qed.

Lemma to_string_nonempty n : 0 <= n -> to_string n <> EmptyString.
Proof.
  intros Hn E. destruct (print_digits_head 20 n EmptyString ltac:(lia) Hn) as (d & tail & _ & E').
  unfold to_string in E. by rewrite E' in E.
Qed.

Lemma strtol_to_string n rest : 0 <= n < 2 ^ 63 -> starts_with_digit rest = false ->
  strtol (to_string n +:+ rest) = (n, rest).
Proof.
  intros Hn Hr. unfold strtol. rewrite scan_to_string by (try done; lia). f_equal. unfold clamp_i64. lia.
Qed.

Lemma strtoll_signed n : - 2 ^ 63 <= n < 2 ^ 63 -> strtoll (to_string_signed n) = n.
Proof.
  intros Hn. unfold strtoll, to_string_signed. destruct (Z.ltb_spec n 0) as [Hneg|Hpos].
  - assert (Hm : 0 <= - n < 2 ^ 64) by lia. unfold strtol, scan_number.
    pose proof (scan_to_string (- n) EmptyString Hm eq_refl) as Hs. rewrite str_app_nil in Hs. unfold scan_number in Hs.
    destruct (print_digits_head 20 (- n) EmptyString ltac:(lia) ltac:(lia)) as (d & tail & Hd & E).
    unfold to_string in *. rewrite E in *. rewrite split_sign_digit in Hs by done.
    cbn [skip_space is_space split_sign]. change (is_space "-") with false. cbv iota. cbn [split_sign].
    destruct (starts_with_digit (String (digit_char d) tail)); [|done].
    destruct (parse_digits 0 (String (digit_char d) tail)) as [v r]. injection Hs as -> ->. cbn. unfold clamp_i64. lia.
  - pose proof (strtol_to_string n EmptyString ltac:(lia) eq_refl) as Hs. rewrite str_app_nil in Hs. by rewrite Hs.
Qed.

Lemma str_find_bound needle s i : str_find needle s = Some i -> (i + String.length needle <= String.length s)%nat.
Proof.
  revert i. induction s as [|c s IH]; intros i; cbn [str_find].
  - destruct (String.prefix needle EmptyString) eqn:E; [|done]. intros [= <-]. destruct needle; [cbn; lia|done].
  - destruct (String.prefix needle (String c s)) eqn:E.
    + intros [= <-]. clear IH. revert E. generalize (String c s). clear. induction needle as [|a needle IH]; intros t; [cbn; lia|].
      destruct t as [|b t]; [done|]. cbn. destruct (ascii_dec a b); [|done]. intros H%IH. cbn in H. lia.
    + destruct (str_find needle s) as [j|] eqn:Ef; [|done]. intros [= <-]. specialize (IH j eq_refl). cbn. lia.
Qed.

(** ** Finding line ends *)
Fixpoint no_cr (s : string) : bool :=
  match s with
  | EmptyString => true
  | String c rest => negb (Ascii.eqb c "013") && no_cr rest
  end.

Lemma no_cr_app s t : no_cr (s +:+ t) = no_cr s && no_cr t.
Proof. induction s as [|c s IH]; [done|]. rewrite str_app_cons. cbn [no_cr]. by rewrite IH, andb_assoc. Qed.

Lemma find_crlf line rest : no_cr line = true -> str_find CRLF (line +:+ CRLF +:+ rest) = Some (String.length line).
Proof.
  induction line as [|c line IH]; intros Hn; [by destruct rest|]. cbn [no_cr] in Hn. apply andb_true_iff in Hn as [Hc Hn].
  rewrite str_app_cons. cbn [str_find]. destruct (String.prefix CRLF _) eqn:E; [|by rewrite IH].
  cbn [String.prefix CRLF] in E. destruct (ascii_dec "013" c) as [<-|]; done.
Qed.

Lemma find_crlf_short line s rest : no_cr line = true -> (String.length s < String.length line + 2)%nat ->
  (exists tail, (s +:+ tail) = (line +:+ CRLF +:+ rest)) -> str_find CRLF s = None.
Proof.
  revert line. induction s as [|c s IH]; intros line Hn Hl [tail E]; [done|].
  destruct line as [|a line].
  - rewrite str_app_cons in E. injection E as -> E. destruct s as [|b s]; [done|]. cbn in Hl. lia.
  - rewrite !str_app_cons in E. injection E as -> E. cbn [no_cr] in Hn. apply andb_true_iff in Hn as [Hc Hn].
    cbn [str_find]. destruct (String.prefix CRLF _) eqn:E'.
    + cbn [String.prefix CRLF] in E'. destruct (ascii_dec "013" a) as [<-|]; done.
    + rewrite (IH line); [done..| |by exists tail]. cbn in Hl. lia.
Qed.

(** Two ways to cut the same text. *)
Lemma str_app_split a b c d : (a +:+ b) = (c +:+ d) ->
  (exists m, a = (c +:+ m) /\ d = (m +:+ b)) \/ (String.length a < String.length c)%nat.
Proof.
  revert c. induction a as [|x a IH]; intros c E.
  - destruct c as [|y c]; [left; by exists EmptyString|]. right. cbn. lia.
  - destruct c as [|y c]; [left; by exists (String x a)|]. rewrite !str_app_cons in E. injection E as -> E.
    destruct (IH _ E) as [(m & -> & ->)|H]; [left; by exists m|]. right. cbn. lia.
Qed.

Lemma no_cr_print fuel : forall n acc, no_cr acc = true -> no_cr (print_digits fuel n acc) = true.
Proof.
  induction fuel as [|fuel IH]; intros n acc Ha; [done|]. cbn [print_digits].
  assert (Hd : no_cr (String (digit_char (n mod 10)) acc) = true).
  { cbn [no_cr]. rewrite Ha, andb_true_r. pose proof (Z.mod_pos_bound n 10 ltac:(lia)) as Hm. revert Hm. generalize (n mod 10). clear.
    intros d Hm. pose proof (digit_value_char d Hm) as Hv. destruct (Ascii.eqb_spec (digit_char d) "013") as [E|]; [|done]. by rewrite E in Hv. }
  destruct (n / 10 =? 0); [done|]. by apply IH.
Qed.

Lemma no_cr_to_string n : no_cr (to_string n) = true.
Proof. by apply no_cr_print. Qed.

Lemma no_cr_signed n : no_cr (to_string_signed n) = true.
Proof. unfold to_string_signed. destruct (n <? 0); [cbn|]; apply no_cr_to_string. Qed.

(** ** Searching *)
Lemma prefix_app needle rest : String.prefix needle (needle +:+ rest) = true.
Proof. induction needle as [|c needle IH]; [by destruct rest|]. rewrite str_app_cons. cbn. by destruct (ascii_dec c c). Qed.

Lemma prefix_inv needle s : String.prefix needle s = true -> exists rest, s = (needle +:+ rest).
Proof.
  revert s. induction needle as [|c needle IH]; intros s E; [by exists s|]. destruct s as [|d s]; [done|]. cbn in E.
  destruct (ascii_dec c d) as [<-|]; [|done]. destruct (IH s E) as [rest ->]. by exists rest.
Qed.

Lemma prefix_extend needle s t : String.prefix needle s = true -> String.prefix needle (s +:+ t) = true.
Proof. intros [rest ->]%prefix_inv. rewrite str_app_assoc. apply prefix_app. Qed.

(** The first occurrence stays the first when text is added behind it. *)
Lemma str_find_extend needle s t i : str_find needle s = Some i -> str_find needle (s +:+ t) = Some i.
Proof.
  revert i. induction s as [|c s IH]; intros i; cbn [str_find].
  - destruct (String.prefix needle EmptyString) eqn:E; [|done]. intros [= <-]. destruct needle; [by destruct t|done].
  - rewrite str_app_cons. cbn [str_find]. destruct (String.prefix needle (String c s)) eqn:E.
    + intros [= <-]. pose proof (prefix_extend needle (String c s) t E) as Hp. rewrite str_app_cons in Hp. by rewrite Hp.
    + destruct (str_find needle s) as [j|] eqn:Ej; [|done]. intros [= <-].
      destruct (String.prefix needle (String c (s +:+ t))) eqn:E'; [|by rewrite (IH j)].
      exfalso. apply prefix_inv in E' as [rest E'].
      pose proof (str_find_bound _ _ _ Ej) as Hb. destruct (str_app_split (String c s) t needle rest) as [(m & Em & _)|Hlt].
      * by rewrite str_app_cons.
      * rewrite Em, prefix_app in E. done.
      * cbn in Hlt. lia.
Qed.

(** No [c] in the text. *)
Fixpoint free_of (c : ascii) (s : string) : bool :=
  match s with EmptyString => true | String d s => negb (Ascii.eqb d c) && free_of c s end.

Lemma free_of_app c s t : free_of c (s +:+ t) = free_of c s && free_of c t.
Proof. induction s as [|d s IH]; [done|]. rewrite str_app_cons. cbn [free_of]. by rewrite IH, andb_assoc. Qed.

Lemma prefix_other c d needle s : Ascii.eqb d c = false -> String.prefix (String c needle) (String d s) = false.
Proof. intros E. cbn. destruct (ascii_dec c d) as [<-|]; [by rewrite Ascii.eqb_refl in E|done]. Qed.

(** A text without the needle's first character is skipped. *)
Lemma str_find_skip c needle s t : free_of c s = true ->
  str_find (String c needle) (s +:+ t) = Nat.add (String.length s) <$> str_find (String c needle) t.
Proof.
  induction s as [|d s IH]; intros Hf.
  { change (EmptyString +:+ t) with t. by destruct (str_find (String c needle) t). }
  cbn [free_of] in Hf. apply andb_true_iff in Hf as [Hd Hf].
  apply negb_true_iff in Hd. rewrite str_app_cons. cbn [str_find]. rewrite prefix_other by done. rewrite IH by done.
  by destruct (str_find _ t).
Qed.

Lemma str_find_none c needle s : free_of c s = true -> str_find (String c needle) s = None.
Proof.
  intros Hf. rewrite <- (str_app_nil s), str_find_skip by done. done.
Qed.

Lemma str_find_here needle t : str_find needle (needle +:+ t) = Some 0%nat.
Proof.
  pose proof (prefix_app needle t) as E. destruct (needle +:+ t) as [|c s]; cbn [str_find]; by rewrite E.
Qed.

(** A needle that does not overlap itself, behind a text without it. *)
Lemma str_find_first c needle h t : free_of c needle = true -> str_find (String c needle) h = None ->
  str_find (String c needle) (h +:+ String c needle +:+ t) = Some (String.length h).
Proof.
  intros Hfree. induction h as [|d h IH]; intros Hn.
  - change (EmptyString +:+ String c needle +:+ t) with (String c needle +:+ t). apply str_find_here.
  - cbn [str_find] in Hn. destruct (String.prefix (String c needle) (String d h)) eqn:E; [done|].
    destruct (str_find (String c needle) h) eqn:Eh; [done|]. rewrite str_app_cons. cbn [str_find]. rewrite IH by done.
    destruct (String.prefix (String c needle) (String d (h +:+ String c needle +:+ t))) eqn:E'; [|done]. exfalso.
    apply prefix_inv in E' as [rest E']. rewrite str_app_cons in E'. injection E' as Hd E'. subst d.
    destruct (str_app_split h (String c needle +:+ t) needle rest E') as [(m & -> & _)|Hlt].
    + by rewrite <- str_app_cons, prefix_app in E.
    + destruct (str_app_split needle rest h (String c needle +:+ t) (eq_sym E')) as [(m & -> & Em)|Hlt']; [|lia].
      rewrite free_of_app in Hfree. apply andb_true_iff in Hfree as [_ Hm].
      destruct m as [|x m]; [rewrite str_app_nil in Hlt; lia|]. rewrite !str_app_cons in Em. injection Em as -> _.
      cbn [free_of] in Hm. by rewrite Ascii.eqb_refl in Hm.
Qed.

(** Blank lines: the end of a block of header lines. *)
Lemma find_blank_here line rest : no_cr line = true -> str_find (CRLF +:+ CRLF) (line +:+ CRLF +:+ CRLF +:+ rest) = Some (String.length line).
Proof.
  intros Hn. change (CRLF +:+ CRLF) with (String "013" (String "010" CRLF)). rewrite str_find_skip.
  - change (CRLF +:+ CRLF +:+ rest) with (String "013" (String "010" CRLF) +:+ rest). rewrite str_find_here. cbn. f_equal. lia.
  - revert Hn. induction line as [|c line IH]; [done|]. cbn. intros [H1 H2]%andb_true_iff. by rewrite H1, IH.
Qed.

Lemma find_blank_skip line rest : no_cr line = true -> String.prefix CRLF rest = false ->
  str_find (CRLF +:+ CRLF) (line +:+ CRLF +:+ rest) = Nat.add (String.length line + 2) <$> str_find (CRLF +:+ CRLF) rest.
Proof.
  intros Hn Hp. change (CRLF +:+ CRLF) with (String "013" (String "010" CRLF)). rewrite str_find_skip.
  2:{ revert Hn. clear. induction line as [|c line IH]; [done|]. cbn. intros [H1 H2]%andb_true_iff. by rewrite H1, IH. }
  change (CRLF +:+ rest) with (String "013" (String "010" rest)). cbn [str_find].
  assert (E1 : String.prefix (String "013" (String "010" CRLF)) (String "013" (String "010" rest)) = String.prefix CRLF rest) by done.
  assert (E2 : String.prefix (String "013" (String "010" CRLF)) (String "010" rest) = false) by done.
  rewrite E1, Hp, E2. destruct (str_find _ rest) as [i|]; [|done]. cbn. f_equal. lia.
Qed.

(** *** Numbers and cuts *)
Lemma to_string_free c n : digit_value c = None -> free_of c (to_string n) = true.
Proof.
  intros Hc. unfold to_string. assert (Hgen : forall fuel n acc, free_of c acc = true -> free_of c (print_digits fuel n acc) = true).
  { induction fuel as [|fuel IH]; intros n0 acc Ha; [done|]. cbn [print_digits].
    assert (Hd : free_of c (String (digit_char (n0 mod 10)) acc) = true).
    { cbn [free_of]. rewrite Ha, andb_true_r. pose proof (Z.mod_pos_bound n0 10 ltac:(lia)) as Hm.
      destruct (Ascii.eqb_spec (digit_char (n0 mod 10)) c) as [<-|]; [|done]. by rewrite digit_value_char in Hc by done. }
    destruct (n0 / 10 =? 0); [done|]. by apply IH. }
  by apply Hgen.
Qed.

Lemma str_take_all n s : (String.length s <= n)%nat -> str_take n s = s.
Proof. revert s. induction n as [|n IH]; intros [|c s] Hl; cbn in *; try done; [lia|]. by rewrite IH by lia. Qed.
