(* ===== verification/Redis.v ===== *)
(** * Redis: the RESP client ([src/src/cluster/redis.h], [redis.cpp])

    Commands are queued as RESP arrays of bulk strings and flushed in one write;
    replies are read back from a byte stream that arrives in arbitrary chunks.

    The socket is a script of system call results ([Wire]): what each [connect],
    [send] and [recv] will return, in order, with the bytes the kernel accepted
    logged in [sent_log].  A script that has run out behaves like a closed
    connection.  [errno] texts are part of the script.  Running out of memory
    (the [resize] of a huge array reply) is not modelled. *)

From S2P Require Import Prelude Text.
From Stdlib Require Import ZArith Lia Bool Ascii String.
From stdpp Require Import base tactics numbers list option strings.
#[local] Open Scope Z_scope.

(** ** Replies *)
Inductive RedisType := kNil | kStatus | kError | kString | kInteger | kArray.

#[export] Instance RedisType_eq_dec : EqDecision RedisType.
Proof. solve_decision. Defined.

Inductive RedisReply := mkRedisReply {
  rr_type : RedisType;
  rr_str : string;
  rr_integer : Z;
  rr_elements : list RedisReply
}.

Definition RedisReply_default : RedisReply := mkRedisReply kNil EmptyString 0 [].

Definition is_nil (r : RedisReply) : bool := bool_decide (rr_type r = kNil).
Definition is_error (r : RedisReply) : bool := bool_decide (rr_type r = kError).
Definition reply_ok (r : RedisReply) : bool := bool_decide (rr_type r = kStatus) && bool_decide (rr_str r = "OK"%string).
Definition error_reply (message : string) : RedisReply := mkRedisReply kError message 0 [].

Definition status_reply (s : string) : RedisReply := mkRedisReply kStatus s 0 [].
Definition integer_reply (n : Z) : RedisReply := mkRedisReply kInteger EmptyString n [].
Definition bulk_reply (s : string) : RedisReply := mkRedisReply kString s 0 [].
Definition array_reply (l : list RedisReply) : RedisReply := mkRedisReply kArray EmptyString 0 l.

(** ** The socket *)
Inductive OpenResult := Opened | OpenFailed (errno : string).
Inductive SendResult := Sent (wrote : nat) | SendInterrupted | SendFailed (errno : string).
Inductive RecvResult := Received (chunk : string) | RecvInterrupted | RecvFailed (errno : string).

Record Wire := mkWire {
  opens : list OpenResult;
  sends : list SendResult;
  recvs : list RecvResult;
  sent_log : string
}.

Definition connection_closed : string := "connection closed".

(** ** The client *)
Definition kMaxBulkSize : Z := 64 * 1024 * 1024.
Definition kCompactThreshold : Z := Z.shiftl 1 16.

Definition encode_arg (arg : string) : string :=
  "$" +:+ to_string (Z.of_nat (String.length arg)) +:+ CRLF +:+ arg +:+ CRLF.

Definition encode_resp_command (args : list string) : string :=
  "*" +:+ to_string (Z.of_nat (length args)) +:+ CRLF +:+ foldr (fun arg out => encode_arg arg +:+ out) EmptyString args.

Record RedisClient := mkRedisClient {
  fd_open : bool;
  pipeline_ : string;
  queued_count_ : nat;
  buffer_ : string;
  cursor_ : nat;
  commands_sent_ : Z;
  reconnects_ : Z;
  last_error_ : string;
  wire : Wire
}.

Definition set_fd (c : RedisClient) (b : bool) : RedisClient :=
  mkRedisClient b (pipeline_ c) (queued_count_ c) (buffer_ c) (cursor_ c) (commands_sent_ c) (reconnects_ c) (last_error_ c) (wire c).
Definition set_queue (c : RedisClient) (p : string) (n : nat) : RedisClient :=
  mkRedisClient (fd_open c) p n (buffer_ c) (cursor_ c) (commands_sent_ c) (reconnects_ c) (last_error_ c) (wire c).
Definition set_input (c : RedisClient) (b : string) (k : nat) : RedisClient :=
  mkRedisClient (fd_open c) (pipeline_ c) (queued_count_ c) b k (commands_sent_ c) (reconnects_ c) (last_error_ c) (wire c).
Definition set_error (c : RedisClient) (e : string) : RedisClient :=
  mkRedisClient (fd_open c) (pipeline_ c) (queued_count_ c) (buffer_ c) (cursor_ c) (commands_sent_ c) (reconnects_ c) e (wire c).
Definition set_wire (c : RedisClient) (w : Wire) : RedisClient :=
  mkRedisClient (fd_open c) (pipeline_ c) (queued_count_ c) (buffer_ c) (cursor_ c) (commands_sent_ c) (reconnects_ c) (last_error_ c) w.
Definition count_commands (c : RedisClient) (n : nat) : RedisClient :=
  mkRedisClient (fd_open c) (pipeline_ c) (queued_count_ c) (buffer_ c) (cursor_ c) (u64 (commands_sent_ c + Z.of_nat n)) (reconnects_ c) (last_error_ c) (wire c).
Definition count_reconnect (c : RedisClient) : RedisClient :=
  mkRedisClient (fd_open c) (pipeline_ c) (queued_count_ c) (buffer_ c) (cursor_ c) (commands_sent_ c) (u64 (reconnects_ c + 1)) (last_error_ c) (wire c).

(** A client that was never connected. *)
Definition client_new (w : Wire) : RedisClient := mkRedisClient false EmptyString 0 EmptyString 0 0 0 EmptyString w.

Definition open_socket (c : RedisClient) : RedisClient * bool :=
  let w := wire c in
  let rest l := mkWire l (sends w) (recvs w) (sent_log w) in
  match opens w with
  | Opened :: l => (set_input (set_fd (set_wire c (rest l)) true) EmptyString 0, true)
  | OpenFailed e :: l => (set_fd (set_error (set_wire c (rest l)) e) false, false)
  | [] => (set_fd (set_error c connection_closed) false, false)
  end.

Definition disconnect (c : RedisClient) : RedisClient :=
  set_queue (set_input (set_fd c false) EmptyString 0) EmptyString 0.

Definition connect (c : RedisClient) : RedisClient * bool := open_socket (disconnect c).

(** [send_all]: the script left, the bytes accepted, and the error if any. *)
Fixpoint send_loop (results : list SendResult) (data log : string) : list SendResult * string * option string :=
  match data with
  | EmptyString => (results, log, None)
  | String _ _ =>
      match results with
      | [] => ([], log, Some connection_closed)
      | SendInterrupted :: rest => send_loop rest data log
      | SendFailed e :: rest => (rest, log, Some e)
      | Sent O :: rest => (rest, log, Some connection_closed)
      | Sent n :: rest => send_loop rest (str_drop n data) (log +:+ str_take n data)
      end
  end.

Definition send_all (c : RedisClient) (data : string) : RedisClient * bool :=
  let w := wire c in
  let '(rest, log, failure) := send_loop (sends w) data (sent_log w) in
  let c := set_wire c (mkWire (opens w) rest (recvs w) log) in
  match failure with
  | None => (c, true)
  | Some e => (set_error c e, false)
  end.

(** One [fill_buffer]: the retries after [EINTR] included. *)
Fixpoint recv_loop (results : list RecvResult) : list RecvResult * (string + string) :=
  match results with
  | [] => ([], inr connection_closed)
  | RecvInterrupted :: rest => recv_loop rest
  | RecvFailed e :: rest => (rest, inr e)
  | Received EmptyString :: rest => (rest, inr connection_closed)
  | Received chunk :: rest => (rest, inl chunk)
  end.

Definition fill_buffer (c : RedisClient) : RedisClient * bool :=
  let w := wire c in
  let '(rest, got) := recv_loop (recvs w) in
  let c := set_wire c (mkWire (opens w) (sends w) rest (sent_log w)) in
  match got with
  | inr e => (set_error c e, false)
  | inl chunk =>
      let c := if kCompactThreshold <? Z.of_nat (cursor_ c) then set_input c (str_drop (cursor_ c) (buffer_ c)) 0 else c in
      (set_input c (buffer_ c +:+ chunk) (cursor_ c), true)
  end.

Fixpoint read_line_loop (fuel : nat) (c : RedisClient) : RedisClient * option string :=
  match fuel with
  | O => (c, None)
  | S fuel =>
      match str_find_from CRLF (buffer_ c) (cursor_ c) with
      | Some stop =>
          (set_input c (buffer_ c) (stop + 2), Some (substr (buffer_ c) (cursor_ c) (stop - cursor_ c)))
      | None => let '(c, ok) := fill_buffer c in if ok then read_line_loop fuel c else (c, None)
      end
  end.

(** Every round takes one result at least from the script. *)
Definition read_line (c : RedisClient) : RedisClient * option string := read_line_loop (S (length (recvs (wire c)))) c.

Fixpoint read_exact_loop (fuel : nat) (count : Z) (c : RedisClient) : RedisClient * option string :=
  match fuel with
  | O => (c, None)
  | S fuel =>
      if Z.of_nat (String.length (buffer_ c) - cursor_ c) <? count then
        let '(c, ok) := fill_buffer c in if ok then read_exact_loop fuel count c else (c, None)
      else
        let n := Z.to_nat count in
        (set_input c (buffer_ c) (cursor_ c + n), Some (substr (buffer_ c) (cursor_ c) n))
  end.

Definition read_exact (count : Z) (c : RedisClient) : RedisClient * option string :=
  read_exact_loop (S (length (recvs (wire c)))) count c.

Fixpoint read_reply (fuel : nat) (c : RedisClient) : RedisClient * option RedisReply :=
  match fuel with
  | O => (c, None)
  | S fuel =>
      match read_line c with
      | (c, None) => (c, None)
      | (c, Some EmptyString) => (set_error c "empty reply line", None)
      | (c, Some (String tag rest)) =>
          match tag with
          | "+"%char => (c, Some (status_reply rest))
          | "-"%char => (c, Some (error_reply rest))
          | ":"%char => (c, Some (integer_reply (strtoll rest)))
          | "$"%char =>
              let length := strtoll rest in
              if length <? 0 then (c, Some RedisReply_default) else
              if kMaxBulkSize <? length then (set_error c "bulk reply exceeds cap", None) else
              match read_exact (length + 2) c with
              | (c, None) => (c, None)
              | (c, Some payload) => (c, Some (bulk_reply (substr payload 0 (Z.to_nat length))))
              end
          | "*"%char =>
              let count := strtoll rest in
              if count <? 0 then (c, Some RedisReply_default) else
              match read_elements fuel count c [] with
              | (c, None) => (c, None)
              | (c, Some elements) => (c, Some (array_reply elements))
              end
          | _ => (set_error c ("unknown reply tag '" +:+ String tag "'"), None)
          end
      end
  end
with read_elements (fuel : nat) (count : Z) (c : RedisClient) (acc : list RedisReply) : RedisClient * option (list RedisReply) :=
  match fuel with
  | O => (c, None)
  | S fuel =>
      if count <=? 0 then (c, Some acc) else
      match read_reply fuel c with
      | (c, None) => (c, None)
      | (c, Some r) => read_elements fuel (count - 1) c (acc ++ [r])
      end
  end.

(** Bytes not read yet: in the buffer and in the script. *)
Definition chunk_bytes (r : RecvResult) : nat := match r with Received chunk => String.length chunk | _ => O end.
Definition bytes_left (c : RedisClient) : nat :=
  (String.length (buffer_ c) - cursor_ c + sum_list (chunk_bytes <$> recvs (wire c)))%nat.

(** Each nested call has read a line first. *)
Definition reply_fuel (c : RedisClient) : nat := S (bytes_left c).

Fixpoint read_replies (expected : nat) (c : RedisClient) (acc : list RedisReply) : RedisClient * option (list RedisReply) :=
  match expected with
  | O => (c, Some acc)
  | S expected =>
      match read_reply (reply_fuel c) c with
      | (c, None) => (c, None)
      | (c, Some r) => read_replies expected c (acc ++ [r])
      end
  end.

Definition queue (c : RedisClient) (args : list string) : RedisClient :=
  set_queue c (pipeline_ c +:+ encode_resp_command args) (S (queued_count_ c)).

(** One round of the loop of [flush] on an open socket. *)
Definition attempt (c : RedisClient) (payload : string) (expected : nat) : RedisClient * option (list RedisReply) :=
  let '(c, sent) := send_all c payload in
  let '(c, got) := if sent then read_replies expected c [] else (c, None) in
  match got with
  | Some replies => (count_commands c expected, Some replies)
  | None => (set_input (set_fd c false) EmptyString 0, None)
  end.

Fixpoint flush_attempts (attempts : nat) (c : RedisClient) (payload : string) (expected : nat) : RedisClient * option (list RedisReply) :=
  match attempts with
  | O => (c, None)
  | S attempts =>
      let '(c, ready) :=
        if fd_open c then (c, true) else
        let '(c, opened) := open_socket c in (if opened then count_reconnect c else c, opened) in
      if ready then
        match attempt c payload expected with
        | (c, Some replies) => (c, Some replies)
        | (c, None) => flush_attempts attempts c payload expected
        end
      else (c, None)
  end.

Definition transport_error (c : RedisClient) : RedisReply := error_reply ("transport: " +:+ last_error_ c).

(** The client after, the result and what [out] holds. *)
Definition flush (c : RedisClient) : RedisClient * bool * list RedisReply :=
  if (queued_count_ c =? 0)%nat then (c, true, []) else
  let payload := pipeline_ c in
  let expected := queued_count_ c in
  match flush_attempts 2 (set_queue c EmptyString 0) payload expected with
  | (c, Some replies) => (c, true, replies)
  | (c, None) => (c, false, replicate expected (transport_error c))
  end.

Definition command (c : RedisClient) (args : list string) : RedisClient * RedisReply :=
  let '(c, done, replies) := flush (queue c args) in
  match done, replies with
  | true, r :: _ => (c, r)
  | _, _ => (c, transport_error c)
  end.

(** ** The byte stream *)

(** What the socket will still deliver before it fails. *)
Fixpoint incoming (l : list RecvResult) : string :=
  match l with
  | [] => EmptyString
  | RecvInterrupted :: rest => incoming rest
  | RecvFailed _ :: _ => EmptyString
  | Received EmptyString :: _ => EmptyString
  | Received chunk :: rest => chunk +:+ incoming rest
  end.

Definition unread (c : RedisClient) : string := str_drop (cursor_ c) (buffer_ c).
Definition stream (c : RedisClient) : string := unread c +:+ incoming (recvs (wire c)).

Definition cursor_ok (c : RedisClient) : Prop := (cursor_ c <= String.length (buffer_ c))%nat.

(** Reading touches only the input side of the client. *)
Definition outward (c : RedisClient) :=
  (fd_open c, pipeline_ c, queued_count_ c, commands_sent_ c, reconnects_ c, opens (wire c), sends (wire c), sent_log (wire c)).

Definition reads_on (c c' : RedisClient) : Prop :=
  outward c' = outward c /\ cursor_ok c' /\ (bytes_left c' <= bytes_left c)%nat.

#[export] Instance reads_on_trans : Transitive reads_on.
Proof. intros a b c (H1 & H2 & H3) (H4 & H5 & H6). split; [congruence|]. split; [done|lia]. Qed.

Lemma reads_on_refl c : cursor_ok c -> reads_on c c.
Proof. by split. Qed.

Lemma reads_on_error c e : cursor_ok c -> reads_on c (set_error c e).
Proof. intros H. by split; [|split]. Qed.

Lemma unread_length c : String.length (unread c) = (String.length (buffer_ c) - cursor_ c)%nat.
Proof. apply str_length_drop. Qed.

Lemma incoming_length l : (String.length (incoming l) <= sum_list (chunk_bytes <$> l))%nat.
Proof.
  induction l as [|[chunk| |e] l IH]; cbn; [lia| |exact IH|lia].
  destruct chunk as [|a chunk]; cbn; [lia|]. rewrite str_length_app. cbn. lia.
Qed.

Lemma stream_length c : (String.length (stream c) <= bytes_left c)%nat.
Proof.
  unfold stream, bytes_left. rewrite str_length_app, unread_length. pose proof (incoming_length (recvs (wire c))). lia.
Qed.

Lemma recv_loop_spec l : match recv_loop l with
  | (rest, inl chunk) => incoming l = chunk +:+ incoming rest /\ (length rest < length l)%nat /\
      sum_list (chunk_bytes <$> l) = (String.length chunk + sum_list (chunk_bytes <$> rest))%nat
  | (rest, inr _) => incoming l = EmptyString /\ (sum_list (chunk_bytes <$> rest) <= sum_list (chunk_bytes <$> l))%nat
  end.
Proof.
  induction l as [|[chunk| |e] l IH]; cbn -[sum_list]; [done| | |cbn; split; [done|lia]].
  - destruct chunk as [|a chunk]; cbn; [split; [done|lia]|]. split; [done|]. split; [lia|done].
  - destruct (recv_loop l) as [rest [chunk|e]]; cbn; [|done]. destruct IH as (-> & Hl & Hs).
    split; [done|]. split; [lia|exact Hs].
Qed.

Lemma fill_buffer_spec c : cursor_ok c -> match fill_buffer c with
  | (c', true) => reads_on c c' /\ stream c' = stream c /\ bytes_left c' = bytes_left c /\
      (length (recvs (wire c')) < length (recvs (wire c)))%nat
  | (c', false) => reads_on c c' /\ stream c = unread c
  end.
Proof.
  intros Hc. unfold fill_buffer. pose proof (recv_loop_spec (recvs (wire c))) as Hs.
  destruct (recv_loop (recvs (wire c))) as [rest [chunk|e]]; destruct Hs as (Hi & Hs).
  - destruct Hs as [Hl Hs]. set (w := mkWire _ _ _ _). unfold reads_on, stream, unread, bytes_left, cursor_ok in *.
    rewrite Hi, Hs. cbn [wire set_wire set_input recvs cursor_ buffer_ w].
    destruct (kCompactThreshold <? Z.of_nat (cursor_ c)); cbn [wire set_wire set_input recvs cursor_ buffer_ w].
    + change (str_drop 0 (str_drop (cursor_ c) (buffer_ c) +:+ chunk)) with (str_drop (cursor_ c) (buffer_ c) +:+ chunk).
      rewrite str_length_app, str_length_drop, str_app_assoc. repeat split; try done; lia.
    + rewrite str_length_app, str_drop_app_le, str_app_assoc by done. repeat split; try done; lia.
  - split; [|unfold stream; by rewrite Hi, str_app_nil].
    split; [done|]. split; [done|]. unfold bytes_left. cbn. lia.
Qed.

Lemma find_from_unread c : cursor_ok c -> str_find_from CRLF (buffer_ c) (cursor_ c) = Nat.add (cursor_ c) <$> str_find CRLF (unread c).
Proof. intros Hc. unfold str_find_from. destruct (Nat.ltb_spec (String.length (buffer_ c)) (cursor_ c)); [unfold cursor_ok in Hc; lia|done]. Qed.

Lemma read_line_stream fuel : forall c line rest, cursor_ok c -> no_cr line = true -> stream c = (line +:+ CRLF +:+ rest) ->
  (length (recvs (wire c)) < fuel)%nat ->
  exists c', read_line_loop fuel c = (c', Some line) /\ outward c' = outward c /\ cursor_ok c' /\ stream c' = rest.
Proof.
  induction fuel as [|fuel IH]; intros c line rest Hc Hn Hs Hf; [lia|]. cbn [read_line_loop].
  rewrite find_from_unread by done.
  destruct (str_app_split (unread c) (incoming (recvs (wire c))) (line +:+ CRLF) rest) as [(m & Hu & Hr)|Hshort].
  - by rewrite str_app_assoc.
  - rewrite Hu, str_app_assoc, find_crlf by done. cbn [fmap option_fmap option_map].
    eexists. split; [unfold substr; fold (unread c); rewrite Hu, str_app_assoc; replace (_ - _)%nat with (String.length line) by lia; by rewrite str_take_app|].
    split; [done|]. pose proof (unread_length c) as Hlen. rewrite Hu, !str_length_app in Hlen. cbn in Hlen.
    unfold cursor_ok, stream, unread in *. cbn [set_input cursor_ buffer_ wire]. split; [lia|].
    rewrite <- Nat.add_assoc, <- str_drop_drop, Hu, Hr. f_equal.
    replace (String.length line + 2)%nat with (String.length (line +:+ CRLF)) by (by rewrite str_length_app). apply str_drop_app.
  - rewrite str_length_app in Hshort. cbn in Hshort. pose proof (fill_buffer_spec c Hc) as Hfill.
    rewrite (find_crlf_short line (unread c) rest); [|done|lia|by eexists]. cbn [fmap option_fmap option_map].
    destruct (fill_buffer c) as [c1 []].
    + destruct Hfill as ((Ho & Hc1 & _) & Hs1 & _ & Hl). destruct (IH c1 line rest Hc1 Hn) as (c' & E & Ho' & Hc' & Hs'); [congruence|lia|].
      exists c'. rewrite Ho' . done.
    + destruct Hfill as [_ Hs1]. rewrite Hs1 in Hs. rewrite Hs, !str_length_app in Hshort. cbn in Hshort. lia.
Qed.

Lemma read_exact_stream fuel : forall c payload rest, cursor_ok c -> stream c = (payload +:+ rest) ->
  (length (recvs (wire c)) < fuel)%nat ->
  exists c', read_exact_loop fuel (Z.of_nat (String.length payload)) c = (c', Some payload) /\ outward c' = outward c /\
    cursor_ok c' /\ stream c' = rest.
Proof.
  induction fuel as [|fuel IH]; intros c payload rest Hc Hs Hf; [lia|]. cbn [read_exact_loop].
  rewrite <- unread_length.
  destruct (Z.ltb_spec (Z.of_nat (String.length (unread c))) (Z.of_nat (String.length payload))) as [Hlt|Hge].
  - pose proof (fill_buffer_spec c Hc) as Hfill. destruct (fill_buffer c) as [c1 []].
    + destruct Hfill as ((Ho & Hc1 & _) & Hs1 & _ & Hl). destruct (IH c1 payload rest Hc1) as (c' & E & Ho' & Hc' & Hs'); [congruence|lia|].
      exists c'. rewrite Ho'. done.
    + destruct Hfill as [_ Hs1]. rewrite Hs1 in Hs. rewrite Hs, str_length_app in Hlt. lia.
  - destruct (str_app_split (unread c) (incoming (recvs (wire c))) payload rest) as [(m & Hu & Hr)|Hshort]; [done| |lia].
    rewrite Nat2Z.id. eexists. split; [unfold substr; fold (unread c); by rewrite Hu, str_take_app|]. split; [done|].
    pose proof (unread_length c) as Hlen. rewrite Hu, !str_length_app in Hlen.
    unfold cursor_ok, stream, unread in *. cbn [set_input cursor_ buffer_ wire]. split; [lia|].
    by rewrite <- str_drop_drop, Hu, str_drop_app, Hr.
Qed.

(** ** Any outcome of a read *)

(** A read either fails or has consumed [used] bytes at least. *)
Definition consumes {A} (c : RedisClient) (result : RedisClient * option A) (used : nat) : Prop :=
  let '(c', got) := result in
  reads_on c c' /\ match got with Some _ => (bytes_left c' + used <= bytes_left c)%nat | None => True end.

Lemma read_line_consumes fuel : forall c, cursor_ok c -> consumes c (read_line_loop fuel c) 2.
Proof.
  induction fuel as [|fuel IH]; intros c Hc; [split; [by apply reads_on_refl|done]|]. cbn [read_line_loop].
  rewrite find_from_unread by done. destruct (str_find CRLF (unread c)) as [i|] eqn:E; cbn [fmap option_fmap option_map].
  - apply str_find_bound in E. rewrite unread_length in E. change (String.length CRLF) with 2%nat in E.
    unfold consumes, reads_on, bytes_left, cursor_ok in *. cbn [set_input cursor_ buffer_ wire recvs].
    repeat split; try done; lia.
  - pose proof (fill_buffer_spec c Hc) as Hfill. destruct (fill_buffer c) as [c1 []]; [|by destruct Hfill].
    destruct Hfill as (Hr & _ & Hb & _). specialize (IH c1 (proj1 (proj2 Hr))).
    destruct (read_line_loop fuel c1) as [c2 got]. destruct IH as [Hr2 Hb2]. split; [by etransitivity|].
    destruct got; [lia|done].
Qed.

Lemma read_exact_consumes fuel : forall count c, cursor_ok c -> consumes c (read_exact_loop fuel count c) 0.
Proof.
  induction fuel as [|fuel IH]; intros count c Hc; [split; [by apply reads_on_refl|done]|]. cbn [read_exact_loop].
  destruct (Z.ltb_spec (Z.of_nat (String.length (buffer_ c) - cursor_ c)) count).
  - pose proof (fill_buffer_spec c Hc) as Hfill. destruct (fill_buffer c) as [c1 []]; [|by destruct Hfill].
    destruct Hfill as (Hr & _ & Hb & _). specialize (IH count c1 (proj1 (proj2 Hr))).
    destruct (read_exact_loop fuel count c1) as [c2 got]. destruct IH as [Hr2 Hb2]. split; [by etransitivity|].
    destruct got; [lia|done].
  - unfold consumes, reads_on, bytes_left, cursor_ok in *. cbn [set_input cursor_ buffer_ wire recvs].
    repeat split; try done; lia.
Qed.

Lemma consumes_error {A} c c1 e : reads_on c c1 -> consumes (A:=A) c (set_error c1 e, None) 2.
Proof. intros H. split; [|done]. etransitivity; [exact H|]. apply reads_on_error, H. Qed.

Lemma consumes_later {A} c c1 (r : RedisClient * option A) used used' : reads_on c c1 -> (bytes_left c1 + used <= bytes_left c)%nat ->
  consumes c1 r used' -> consumes c r (used + used').
Proof. intros Hr Hb. destruct r as [c2 got]. intros [Hr2 Hb2]. split; [by etransitivity|]. destruct got; [lia|done]. Qed.

Lemma consumes_less {A} c (r : RedisClient * option A) used used' : (used' <= used)%nat -> consumes c r used -> consumes c r used'.
Proof. intros Hle. destruct r as [c' got]. intros [Hr Hb]. split; [done|]. destruct got; [lia|done]. Qed.

Lemma read_reply_consumes fuel :
  (forall c, cursor_ok c -> consumes c (read_reply fuel c) 2) /\
  (forall count c acc, cursor_ok c -> consumes c (read_elements fuel count c acc) 0).
Proof.
  induction fuel as [|fuel [IHr IHe]]; [split; intros; (split; [by apply reads_on_refl|done])|].
  split.
  - intros c Hc. cbn [read_reply]. pose proof (read_line_consumes (S (length (recvs (wire c)))) c Hc) as Hl.
    unfold read_line. destruct (read_line_loop _ c) as [c1 [line|]]; [|done]. destruct Hl as [Hr Hb].
    assert (Hok : cursor_ok c1) by apply Hr.
    destruct line as [|tag rest]; [exact (consumes_error c c1 _ Hr)|].
    assert (Hret : forall r : RedisReply, consumes c (c1, Some r) 2) by (intros r; by split).
    destruct tag as [[] [] [] [] [] [] [] []]; try first [exact (Hret _)|exact (consumes_error c c1 _ Hr)].
    + destruct (strtoll rest <? 0); [exact (Hret _)|]. specialize (IHe (strtoll rest) c1 [] Hok).
      destruct (read_elements fuel _ c1 []) as [c2 [l|]]; apply (consumes_later c c1 _ 2 0 Hr Hb); by destruct IHe.
    + destruct (strtoll rest <? 0); [exact (Hret _)|]. destruct (kMaxBulkSize <? strtoll rest); [exact (consumes_error c c1 _ Hr)|].
      unfold read_exact. pose proof (read_exact_consumes (S (length (recvs (wire c1)))) (strtoll rest + 2) c1 Hok) as He.
      destruct (read_exact_loop _ _ c1) as [c2 [payload|]]; apply (consumes_later c c1 _ 2 0 Hr Hb); by destruct He.
  - intros count c acc Hc. cbn [read_elements]. destruct (count <=? 0); [split; [by apply reads_on_refl|lia]|].
    specialize (IHr c Hc). destruct (read_reply fuel c) as [c1 [r|]]; [|by destruct IHr]. destruct IHr as [Hr Hb].
    eapply consumes_less; [|apply (consumes_later c c1 _ 2 0 Hr Hb), IHe, Hr]. lia.
Qed.

(** More fuel than bytes left changes nothing: [read_reply] terminates. *)
Lemma read_reply_fuel_S fuel :
  (forall c, cursor_ok c -> (bytes_left c < fuel)%nat -> read_reply (S fuel) c = read_reply fuel c) /\
  (forall count c acc, cursor_ok c -> (S (bytes_left c) < fuel)%nat -> read_elements (S fuel) count c acc = read_elements fuel count c acc).
Proof.
  induction fuel as [|fuel [IHr IHe]]; [split; intros; lia|]. split.
  - intros c Hc Hf. remember (S fuel) as fuel' eqn:Ef. cbn [read_reply]. subst fuel'. cbn [read_reply].
    pose proof (read_line_consumes (S (length (recvs (wire c)))) c Hc) as Hl.
    unfold read_line. destruct (read_line_loop _ c) as [c1 [line|]]; [|done]. destruct Hl as [Hr Hb].
    destruct line as [|tag rest]; [done|]. destruct tag as [[] [] [] [] [] [] [] []]; try done.
    destruct (strtoll rest <? 0); [done|]. rewrite IHe; [done|apply Hr|lia].
  - intros count c acc Hc Hf. remember (S fuel) as fuel' eqn:Ef. cbn [read_elements]. subst fuel'. cbn [read_elements].
    destruct (count <=? 0); [done|]. rewrite IHr by (try done; lia).
    pose proof (proj1 (read_reply_consumes fuel) c Hc) as Hl. destruct (read_reply fuel c) as [c1 [r|]]; [|done].
    destruct Hl as [Hr Hb]. apply IHe; [apply Hr|]. lia.
Qed.

Lemma read_reply_enough fuel c : cursor_ok c -> (bytes_left c < fuel)%nat -> read_reply fuel c = read_reply (reply_fuel c) c.
Proof.
  intros Hc. unfold reply_fuel. induction fuel as [|fuel IH]; intros Hf; [lia|].
  destruct (decide (fuel = bytes_left c)) as [->|Hne]; [done|].
  rewrite (proj1 (read_reply_fuel_S fuel)) by (try done; lia). apply IH. lia.
Qed.

(** ** RESP replies as a server prints them *)
Fixpoint print_reply (r : RedisReply) : string :=
  let '(mkRedisReply type str integer elements) := r in
  match type with
  | kNil => "$-1" +:+ CRLF
  | kStatus => "+" +:+ str +:+ CRLF
  | kError => "-" +:+ str +:+ CRLF
  | kInteger => ":" +:+ to_string_signed integer +:+ CRLF
  | kString => encode_arg str
  | kArray => "*" +:+ to_string (Z.of_nat (length elements)) +:+ CRLF +:+ foldr (fun e out => print_reply e +:+ out) EmptyString elements
  end.

Definition print_replies (l : list RedisReply) : string := foldr (fun e out => print_reply e +:+ out) EmptyString l.

(** The replies RESP can carry: one-line texts, 64-bit integers, bulk strings
    within the client's cap. *)
Inductive wire_reply : RedisReply -> Prop :=
  | wire_nil : wire_reply RedisReply_default
  | wire_status s : no_cr s = true -> wire_reply (status_reply s)
  | wire_error s : no_cr s = true -> wire_reply (error_reply s)
  | wire_integer n : - 2 ^ 63 <= n < 2 ^ 63 -> wire_reply (integer_reply n)
  | wire_bulk s : Z.of_nat (String.length s) <= kMaxBulkSize -> wire_reply (bulk_reply s)
  | wire_array l : Forall wire_reply l -> Z.of_nat (length l) < 2 ^ 63 -> wire_reply (array_reply l).

Definition command_reply (args : list string) : RedisReply := array_reply (bulk_reply <$> args).

Lemma encode_command_print args : encode_resp_command args = print_reply (command_reply args).
Proof.
  unfold encode_resp_command, command_reply. cbn [print_reply array_reply]. rewrite length_fmap. do 3 f_equal.
  induction args as [|arg args IH]; [done|]. cbn [foldr fmap list_fmap]. rewrite IH. done.
Qed.

Lemma strtoll_to_string n : 0 <= n < 2 ^ 63 -> strtoll (to_string n) = n.
Proof. intros Hn. pose proof (strtoll_signed n ltac:(lia)) as H. unfold to_string_signed in H. by destruct (Z.ltb_spec n 0); [lia|]. Qed.

Lemma substr_prefix s t : substr (s +:+ t) 0 (String.length s) = s.
Proof. apply str_take_app. Qed.

Definition reads_printed (read : RedisClient -> RedisClient * option RedisReply) (bound : nat) : Prop :=
  forall c r rest, cursor_ok c -> wire_reply r -> stream c = (print_reply r +:+ rest) -> (String.length (stream c) < bound)%nat ->
    exists c', read c = (c', Some r) /\ outward c' = outward c /\ cursor_ok c' /\ stream c' = rest.

(** The header line of a reply. *)
Lemma read_header c tag text rest : cursor_ok c -> no_cr text = true -> Ascii.eqb tag "013" = false ->
  stream c = (String tag EmptyString +:+ text +:+ CRLF +:+ rest) ->
  exists c', read_line c = (c', Some (String tag text)) /\ outward c' = outward c /\ cursor_ok c' /\ stream c' = rest.
Proof.
  intros Hc Hn Ht Hs. apply read_line_stream; [done| |by rewrite Hs|lia]. cbn [no_cr]. by rewrite Ht.
Qed.

Lemma read_elements_printed fuel : (forall fuel', (fuel' < fuel)%nat -> reads_printed (read_reply fuel') fuel') ->
  forall l c acc rest, cursor_ok c -> Forall wire_reply l -> stream c = (print_replies l +:+ rest) ->
    (S (String.length (stream c)) < fuel)%nat ->
    exists c', read_elements fuel (Z.of_nat (length l)) c acc = (c', Some (acc ++ l)) /\ outward c' = outward c /\ cursor_ok c' /\ stream c' = rest.
Proof.
  induction fuel as [|fuel IH]; intros Hread l c acc rest Hc Hl Hs Hf; [lia|]. cbn [read_elements].
  destruct l as [|r l]; [exists c; by rewrite app_nil_r|].
  apply list.Forall_cons in Hl as [Hr Hl]. cbn [print_replies foldr] in Hs. fold (print_replies l) in Hs. rewrite str_app_assoc in Hs.
  destruct (Z.leb_spec (Z.of_nat (length (r :: l))) 0) as [H0|_]; [cbn in H0; lia|].
  destruct (Hread fuel ltac:(lia) c r (print_replies l +:+ rest) Hc Hr Hs ltac:(lia)) as (c1 & -> & Ho & Hc1 & Hs1).
  assert (Hlen : (String.length (stream c1) + 2 <= String.length (stream c))%nat).
  { rewrite Hs1, Hs, !str_length_app. enough (2 <= String.length (print_reply r))%nat by lia. clear. destruct r as [[] s n l]; cbn [print_reply];
      unfold encode_arg; rewrite !str_length_app; cbn; lia. }
  replace (Z.of_nat (length (r :: l)) - 1) with (Z.of_nat (length l)) by (cbn; lia).
  destruct (IH (fun f Hf' => Hread f ltac:(lia)) l c1 (acc ++ [r]) rest Hc1 Hl Hs1 ltac:(lia)) as (c' & -> & Ho' & Hc' & Hs').
  exists c'. rewrite <- app_assoc, Ho', Ho. done.
Qed.

Lemma read_reply_printed fuel : reads_printed (read_reply fuel) fuel.
Proof.
  induction fuel as [fuel IH] using lt_wf_ind. intros c r rest Hc Hr Hs Hf. destruct fuel as [|fuel]; [lia|]. cbn [read_reply].
  assert (Hhead : forall tag text tail, no_cr text = true -> Ascii.eqb tag "013" = false ->
    stream c = (String tag EmptyString +:+ text +:+ CRLF +:+ tail) ->
    exists c', read_line c = (c', Some (String tag text)) /\ outward c' = outward c /\ cursor_ok c' /\ stream c' = tail)
    by (intros; by apply read_header).
  inversion Hr as [E|s Hs' E|s Hs' E|n Hn E|s Hn E|l Hl Hn E]; subst r; cbn [print_reply RedisReply_default status_reply error_reply integer_reply bulk_reply array_reply] in Hs.
  - destruct (Hhead "$"%char "-1"%string rest) as (c1 & -> & Ho & Hc1 & Hs1); [done..|]. by exists c1.
  - rewrite str_app_assoc in Hs. destruct (Hhead "+"%char s rest Hs' eq_refl) as (c1 & -> & Ho & Hc1 & Hs1); [by rewrite Hs, !str_app_assoc|]. by exists c1.
  - rewrite str_app_assoc in Hs. destruct (Hhead "-"%char s rest Hs' eq_refl) as (c1 & -> & Ho & Hc1 & Hs1); [by rewrite Hs, !str_app_assoc|]. by exists c1.
  - rewrite str_app_assoc in Hs. destruct (Hhead ":"%char _ rest (no_cr_signed n) eq_refl) as (c1 & -> & Ho & Hc1 & Hs1); [by rewrite Hs, !str_app_assoc|].
    exists c1. by rewrite strtoll_signed.
  - unfold encode_arg in Hs. rewrite !str_app_assoc in Hs.
    destruct (Hhead "$"%char _ (s +:+ CRLF +:+ rest) (no_cr_to_string (Z.of_nat (String.length s))) eq_refl) as (c1 & -> & Ho & Hc1 & Hs1); [done|].
    unfold kMaxBulkSize in *. rewrite strtoll_to_string by lia.
    destruct (Z.ltb_spec (Z.of_nat (String.length s)) 0); [lia|]. destruct (Z.ltb_spec (64 * 1024 * 1024) (Z.of_nat (String.length s))); [lia|].
    destruct (read_exact_stream (S (length (recvs (wire c1)))) c1 (s +:+ CRLF) rest Hc1) as (c2 & E & Ho2 & Hc2 & Hs2); [by rewrite str_app_assoc|lia|].
    rewrite str_length_app, Nat2Z.inj_add in E. change (Z.of_nat (String.length CRLF)) with 2 in E. unfold read_exact. rewrite E, Nat2Z.id, substr_prefix. exists c2. rewrite Ho2, Ho. done.
  - fold (print_replies l) in Hs. rewrite !str_app_assoc in Hs.
    destruct (Hhead "*"%char _ (print_replies l +:+ rest) (no_cr_to_string (Z.of_nat (length l))) eq_refl) as (c1 & -> & Ho & Hc1 & Hs1); [done|].
    rewrite strtoll_to_string by lia. destruct (Z.ltb_spec (Z.of_nat (length l)) 0); [lia|].
    assert (Hlen : (String.length (stream c1) + 3 <= String.length (stream c))%nat).
    { rewrite Hs1, Hs, !str_length_app. cbn. lia. }
    destruct (read_elements_printed fuel (fun f Hf' => IH f ltac:(lia)) l c1 [] rest Hc1 Hl Hs1 ltac:(lia)) as (c2 & -> & Ho2 & Hc2 & Hs2).
    exists c2. rewrite Ho2, Ho. done.
Qed.

Lemma read_replies_printed l : forall c acc rest, cursor_ok c -> Forall wire_reply l -> stream c = (print_replies l +:+ rest) ->
  exists c', read_replies (length l) c acc = (c', Some (acc ++ l)) /\ outward c' = outward c /\ cursor_ok c' /\ stream c' = rest.
Proof.
  induction l as [|r l IH]; intros c acc rest Hc Hl Hs; [exists c; by rewrite app_nil_r|].
  apply list.Forall_cons in Hl as [Hr Hl]. cbn [print_replies foldr] in Hs. fold (print_replies l) in Hs. rewrite str_app_assoc in Hs.
  cbn [length read_replies]. pose proof (stream_length c) as Hlen.
  destruct (read_reply_printed (reply_fuel c) c r _ Hc Hr Hs ltac:(unfold reply_fuel; lia)) as (c1 & -> & Ho & Hc1 & Hs1).
  destruct (IH c1 (acc ++ [r]) rest Hc1 Hl Hs1) as (c' & -> & Ho' & Hc' & Hs'). exists c'. rewrite <- app_assoc, Ho', Ho. done.
Qed.

(** ** Flushing *)
Lemma send_loop_log l : forall data log, match send_loop l data log with
  | (_, log', None) => log' = (log +:+ data)
  | (_, log', Some _) => exists k, log' = (log +:+ str_take k data)
  end.
Proof.
  induction l as [|[wrote| |e] l IH]; intros data log; destruct data as [|a data]; cbn [send_loop];
    try (by rewrite str_app_nil); try (exists O; by rewrite str_app_nil); try apply IH.
  destruct wrote as [|n]; [exists O; by rewrite str_app_nil|]. set (data' := String a data).
  specialize (IH (str_drop (S n) data') (log +:+ str_take (S n) data')).
  assert (Hcut : forall k s, (str_take k s +:+ str_drop k s) = s).
  { clear. induction k as [|k IH]; intros s; [done|]. destruct s as [|c s]; [done|]. cbn [str_take str_drop]. by rewrite str_app_cons, IH. }
  assert (Htake : forall j k s, (str_take j s +:+ str_take k (str_drop j s)) = str_take (j + k) s).
  { clear. induction j as [|j IH]; intros k s; [done|]. destruct s as [|c s]; [by destruct k|]. cbn [str_take str_drop Nat.add]. by rewrite str_app_cons, IH. }
  destruct (send_loop l _ _) as [[rest log'] [e|]].
  - destruct IH as [k ->]. exists (S n + k)%nat. by rewrite str_app_assoc, Htake.
  - by rewrite IH, str_app_assoc, Hcut.
Qed.

Lemma send_all_spec c data : match send_all c data with
  | (c', sent) => fd_open c' = fd_open c /\ pipeline_ c' = pipeline_ c /\ queued_count_ c' = queued_count_ c /\
      commands_sent_ c' = commands_sent_ c /\ buffer_ c' = buffer_ c /\ cursor_ c' = cursor_ c /\ recvs (wire c') = recvs (wire c) /\
      if sent then sent_log (wire c') = (sent_log (wire c) +:+ data)
      else exists k, sent_log (wire c') = (sent_log (wire c) +:+ str_take k data)
  end.
Proof.
  unfold send_all. pose proof (send_loop_log (sends (wire c)) data (sent_log (wire c))) as Hl.
  destruct (send_loop _ _ _) as [[rest log] [e|]]; by repeat split.
Qed.

Lemma read_replies_any expected : forall c acc, cursor_ok c -> match read_replies expected c acc with
  | (c', Some l) => reads_on c c' /\ length l = (length acc + expected)%nat
  | (c', None) => reads_on c c'
  end.
Proof.
  induction expected as [|n IH]; intros c acc Hc; cbn [read_replies]; [split; [by apply reads_on_refl|lia]|].
  pose proof (proj1 (read_reply_consumes (reply_fuel c)) c Hc) as Hr. destruct (read_reply _ c) as [c1 [r|]]; [|by destruct Hr].
  destruct Hr as [Hr _]. specialize (IH c1 (acc ++ [r]) (proj1 (proj2 Hr))). destruct (read_replies n c1 _) as [c2 [l|]].
  - destruct IH as [Hr2 Hl]. split; [by etransitivity|]. rewrite Hl, length_app. cbn. lia.
  - by etransitivity.
Qed.

Definition log_of (c : RedisClient) : string := sent_log (wire c).

Lemma attempt_spec c payload expected : cursor_ok c -> fd_open c = true -> match attempt c payload expected with
  | (c', got) => cursor_ok c' /\ pipeline_ c' = pipeline_ c /\ queued_count_ c' = queued_count_ c /\
      match got with
      | Some l => fd_open c' = true /\ length l = expected /\ log_of c' = (log_of c +:+ payload)
      | None => fd_open c' = false /\ exists k, log_of c' = (log_of c +:+ str_take k payload)
      end
  end.
Proof.
  intros Hc Hfd. unfold attempt, log_of. pose proof (send_all_spec c payload) as Hs. destruct (send_all c payload) as [c1 sent].
  destruct Hs as (Hf & Hp & Hq & _ & Hb & Hk & _ & Hlog).
  destruct sent.
  - assert (Hc1 : cursor_ok c1) by (unfold cursor_ok in *; congruence).
    pose proof (read_replies_any expected c1 [] Hc1) as Hr. destruct (read_replies expected c1 []) as [c2 [l|]].
    + destruct Hr as ((Ho & Hc2 & _) & Hl). unfold outward in Ho. injection Ho as Hof Hop Hoq _ _ _ _ Hol.
      repeat split; try done; cbn; congruence.
    + destruct Hr as (Ho & Hc2 & _). unfold outward in Ho. injection Ho as Hof Hop Hoq _ _ _ _ Hol.
      split; [unfold cursor_ok; cbn; lia|]. split; [cbn; congruence|]. split; [cbn; congruence|]. split; [done|].
      exists (String.length payload). cbn. rewrite Hol, Hlog. f_equal. pose proof (str_take_app payload EmptyString) as Ht. by rewrite str_app_nil in Ht.
  - split; [unfold cursor_ok; cbn; lia|]. by split; [|split; [|split]].
Qed.

Lemma open_socket_spec c : match open_socket c with
  | (c', opened) => fd_open c' = opened /\ pipeline_ c' = pipeline_ c /\ queued_count_ c' = queued_count_ c /\ log_of c' = log_of c /\
      (cursor_ok c -> cursor_ok c')
  end.
Proof. unfold open_socket. destruct (opens (wire c)) as [|[|e] l]; repeat split; try done; unfold cursor_ok; cbn; lia. Qed.

(** What a sequence of attempts has put on the wire. *)
Inductive flushed (payload : string) : nat -> string -> bool -> Prop :=
  | flushed_gave_up n : flushed payload n EmptyString false
  | flushed_done n : flushed payload (S n) payload true
  | flushed_again n k log ok : flushed payload n log ok -> flushed payload (S n) (str_take k payload +:+ log) ok.

Lemma flush_attempts_spec attempts : forall c payload expected, cursor_ok c -> (attempts = O -> fd_open c = false) ->
  match flush_attempts attempts c payload expected with
  | (c', got) => cursor_ok c' /\ pipeline_ c' = pipeline_ c /\ queued_count_ c' = queued_count_ c /\
      fd_open c' = (match got with Some _ => true | None => false end) /\
      (exists log, log_of c' = (log_of c +:+ log) /\ flushed payload attempts log (match got with Some _ => true | None => false end)) /\
      match got with Some l => length l = expected | None => True end
  end.
Proof.
  induction attempts as [|attempts IH]; intros c payload expected Hc Hz; cbn [flush_attempts].
  { do 3 (split; [done|]). split; [by apply Hz|]. split; [|done]. exists EmptyString. rewrite str_app_nil. split; [done|constructor]. }
  set (ready := if fd_open c then (c, true) else _).
  assert (Hready : match ready with
    | (c1, r) => fd_open c1 = r /\ pipeline_ c1 = pipeline_ c /\ queued_count_ c1 = queued_count_ c /\ log_of c1 = log_of c /\ cursor_ok c1 end).
  { subst ready. destruct (fd_open c) eqn:Efd; [by rewrite Efd|]. pose proof (open_socket_spec c) as Ho.
    destruct (open_socket c) as [c1 []]; destruct Ho as (?&?&?&?&?); repeat split; auto. }
  destruct ready as [c1 []]; destruct Hready as (Hf & Hp & Hq & Hlog & Hc1).
  - pose proof (attempt_spec c1 payload expected Hc1 Hf) as Ha. destruct (attempt c1 payload expected) as [c2 [l|]];
      destruct Ha as (Hc2 & Hp2 & Hq2 & Ha).
    + destruct Ha as (Hf2 & Hl & Hlog2). split; [done|]. split; [congruence|]. split; [congruence|]. split; [done|].
      split; [|done]. exists payload. split; [by rewrite Hlog2, Hlog|constructor].
    + destruct Ha as (Hf2 & k & Hlog2). specialize (IH c2 payload expected Hc2 (fun _ => Hf2)).
      destruct (flush_attempts attempts c2 payload expected) as [c3 got]. destruct IH as (Hc3 & Hp3 & Hq3 & Hf3 & (log & Hlog3 & Hfl) & Hl).
      split; [done|]. split; [congruence|]. split; [congruence|]. split; [done|]. split; [|done].
      exists (str_take k payload +:+ log). split; [by rewrite Hlog3, Hlog2, Hlog, str_app_assoc|by constructor].
  - split; [done|]. split; [congruence|]. split; [congruence|]. split; [done|]. split; [|done].
    exists EmptyString. rewrite str_app_nil. split; [done|constructor].
Qed.

(** A client with nothing queued has an empty pipeline. *)
Definition queue_ok (c : RedisClient) : Prop := queued_count_ c = O -> pipeline_ c = EmptyString.

Definition commands_text (cmds : list (list string)) : string := print_replies (command_reply <$> cmds).

Lemma queue_all cmds : forall c, foldl queue c cmds =
  set_queue c (pipeline_ c +:+ commands_text cmds) (queued_count_ c + length cmds).
Proof.
  induction cmds as [|args cmds IH]; intros c; cbn [foldl].
  - cbn. rewrite str_app_nil, Nat.add_0_r. by destruct c.
  - rewrite IH. unfold queue, set_queue. cbn [fd_open pipeline_ queued_count_ buffer_ cursor_ commands_sent_ reconnects_ last_error_ wire].
    unfold commands_text. cbn [fmap list_fmap print_replies foldr length]. rewrite encode_command_print, str_app_assoc. f_equal. lia.
Qed.

Lemma short_args cmds : Forall (fun args => Z.of_nat (length args) < 2 ^ 63 /\ Forall (fun a => Z.of_nat (String.length a) <= kMaxBulkSize) args) cmds ->
  Forall wire_reply (command_reply <$> cmds).
Proof.
  intros H. apply list.Forall_fmap. eapply List.Forall_impl; [|exact H]. intros args [Hn Ha]. apply wire_array; [|by rewrite length_fmap].
  apply list.Forall_fmap. eapply List.Forall_impl; [|exact Ha]. intros a. apply wire_bulk.
Qed.

(** ** Properties *)
(** C38. Pipelining is exact.  On an open connection whose stream holds a server's
    replies to the queued commands, [flush] puts exactly the queued commands on
    the wire and returns exactly those replies in order, leaves the rest of the
    stream unread and the queue empty - however the kernel splits the sends, cuts
    the stream into chunks or interrupts the calls.  The text on the wire is
    itself RESP: reading it back yields the argument lists of the commands. *)
Theorem flush_exact (c : RedisClient) (cmds : list (list string)) (replies : list RedisReply) (rest : string) :
  fd_open c = true -> cursor_ok c -> pipeline_ c = EmptyString -> queued_count_ c = O ->
  Forall wire_reply replies -> length replies = length cmds -> stream c = (print_replies replies +:+ rest) ->
  snd (send_loop (sends (wire c)) (commands_text cmds) (log_of c)) = None ->
  (let '(c', done, out) := flush (foldl queue c cmds) in
   done = true /\ out = replies /\ log_of c' = (log_of c +:+ commands_text cmds) /\ stream c' = rest /\
   pipeline_ c' = EmptyString /\ queued_count_ c' = O /\ fd_open c' = true) /\
  (forall (d : RedisClient) (tail : string), cursor_ok d -> stream d = (commands_text cmds +:+ tail) ->
   Forall (fun args => Z.of_nat (length args) < 2 ^ 63 /\ Forall (fun a => Z.of_nat (String.length a) <= kMaxBulkSize) args) cmds ->
   exists d', read_replies (length cmds) d [] = (d', Some (command_reply <$> cmds)) /\ stream d' = tail).
Proof.
  intros Hf Hc Hp Hq Hw Hlen Hs Hsend. split.
  2:{ intros d tail Hd Hsd Hshort. destruct (read_replies_printed (command_reply <$> cmds) d [] tail Hd (short_args _ Hshort) Hsd) as (d' & E & _ & _ & Ht).
      rewrite length_fmap in E. by exists d'. }
  rewrite queue_all, Hp, Hq. unfold flush. cbn [queued_count_ set_queue pipeline_]. rewrite Nat.add_0_l.
  destruct (Nat.eqb_spec (length cmds) 0) as [E0|E0].
  { destruct cmds; [|done]. destruct replies; [|done]. cbn in Hs. repeat split; try done. symmetry. apply str_app_nil. }
  set (c0 := set_queue _ _ _). cbn [flush_attempts]. change (fd_open c0) with (fd_open c). rewrite Hf.
  unfold attempt, send_all. change (sends (wire c0)) with (sends (wire c)). change (sent_log (wire c0)) with (log_of c).
  pose proof (send_loop_log (sends (wire c)) (commands_text cmds) (log_of c)) as Hlog.
  change (EmptyString +:+ commands_text cmds) with (commands_text cmds).
  destruct (send_loop _ _ _) as [[left log] failure]. cbn in Hsend. subst failure.
  set (c1 := set_wire _ _). destruct (read_replies_printed replies c1 [] rest) as (c2 & E & Ho & _ & Hr); [done|done|exact Hs|].
  rewrite <- Hlen, E. unfold outward in Ho. injection Ho as Hof Hop Hoq _ _ _ _ Hol.
  repeat split; try done; unfold log_of in *; cbn in *; congruence.
Qed.

(** Every flush ends, and how.  For every client and every behaviour of the
    socket the queue is empty afterwards and one reply per command is handed out.
    On success the socket is open and the wire saw the whole batch last, after at
    most one partial attempt; on failure the socket is closed, every reply is a
    transport error, and at most two partial attempts were made.  Reading a reply
    never needs more fuel than there are bytes left.  (A retried batch may so
    reach the server twice.) *)
Theorem flush_outcomes (c : RedisClient) : cursor_ok c -> queue_ok c ->
  (forall fuel, (bytes_left c < fuel)%nat -> read_reply fuel c = read_reply (reply_fuel c) c) /\
  let '(c', done, out) := flush c in
  queued_count_ c' = O /\ pipeline_ c' = EmptyString /\ length out = queued_count_ c /\ cursor_ok c' /\
  if done then
    (queued_count_ c = O /\ c' = c) \/
    fd_open c' = true /\ exists before, log_of c' = (log_of c +:+ before +:+ pipeline_ c) /\
      (before = EmptyString \/ exists k, before = str_take k (pipeline_ c))
  else
    fd_open c' = false /\ Forall (fun r => r = transport_error c') out /\
    exists j k, log_of c' = (log_of c +:+ str_take j (pipeline_ c) +:+ str_take k (pipeline_ c)).
Proof.
  intros Hc Hq. split; [intros fuel; by apply read_reply_enough|]. unfold flush.
  destruct (Nat.eqb_spec (queued_count_ c) 0) as [E0|E0].
  { split; [done|]. split; [by apply Hq|]. split; [done|]. split; [done|]. by left. }
  pose proof (flush_attempts_spec 2 (set_queue c EmptyString 0) (pipeline_ c) (queued_count_ c) Hc ltac:(done)) as H.
  destruct (flush_attempts 2 _ _ _) as [c' [l|]]; destruct H as (Hc' & Hp & Hqc & Hf & (log & Hlog & Hfl) & Hl);
    change (log_of (set_queue c EmptyString 0)) with (log_of c) in Hlog; rewrite Hlog.
  - do 4 (split; [done|]). right. split; [done|]. inversion Hfl as [|n E|n k log' ok Hfl' E]; subst.
    + exists EmptyString. split; [done|by left].
    + inversion Hfl' as [|n' E|n' k' log2 ok' Hfl2 E]; subst; [exists (str_take k (pipeline_ c)); split; [done|right; by exists k]|].
      inversion Hfl2.
  - split; [done|]. split; [done|]. split; [apply length_replicate|]. split; [done|]. split; [done|].
    split; [by apply Forall_replicate|]. inversion Hfl as [n E|n E|n k log' ok Hfl' E]; subst.
    + exists O, O. done.
    + inversion Hfl' as [n' E|n' E|n' k' log2 ok' Hfl2 E]; subst; [exists k, O; done|].
      inversion Hfl2; subst. exists k, k'. by rewrite str_app_nil.
Qed.

(** ** Witnesses *)
Definition sample_commands : list (list string) := [["SET"; "k"; "v"]; ["GET"; "k"]]%string.
Definition sample_replies : list RedisReply := [status_reply "OK"; bulk_reply "v"].

(** A server that answers in fragments over an interrupted socket. *)
Definition sample_client : RedisClient :=
  mkRedisClient true EmptyString 0 EmptyString 0 0 0 EmptyString
    (mkWire [] [Sent 3; SendInterrupted; Sent 1000]
       [Received "+O"; RecvInterrupted; Received ("K" +:+ CRLF +:+ "$1" +:+ CRLF +:+ "v" +:+ String "013" EmptyString);
        Received (String "010" EmptyString)] EmptyString).

Lemma flush_exact_witness :
  stream sample_client = (print_replies sample_replies +:+ EmptyString) /\
  ((let '(c', done, out) := flush (foldl queue sample_client sample_commands) in
   done = true /\ out = sample_replies /\ log_of c' = (log_of sample_client +:+ commands_text sample_commands) /\ stream c' = EmptyString /\
   pipeline_ c' = EmptyString /\ queued_count_ c' = O /\ fd_open c' = true) /\
  (forall (d : RedisClient) (tail : string), cursor_ok d -> stream d = (commands_text sample_commands +:+ tail) ->
   Forall (fun args => Z.of_nat (length args) < 2 ^ 63 /\ Forall (fun a => Z.of_nat (String.length a) <= kMaxBulkSize) args) sample_commands ->
   exists d', read_replies (length sample_commands) d [] = (d', Some (command_reply <$> sample_commands)) /\ stream d' = tail)).
Proof.
  split; [reflexivity|].
  apply (flush_exact sample_client sample_commands sample_replies EmptyString); try reflexivity.
  - unfold cursor_ok. cbn. lia.
  - repeat constructor. unfold kMaxBulkSize. cbn. lia.
Defined.

(** The reply to a [GETDEL] is lost: the command is sent again. *)
Definition sample_lost : RedisClient :=
  queue (mkRedisClient true EmptyString 0 EmptyString 0 0 0 EmptyString
    (mkWire [Opened] [Sent 100; Sent 100] [RecvFailed "timed out"; Received ("$-1" +:+ CRLF)] EmptyString)) ["GETDEL"; "k"]%string.

Lemma flush_outcomes_witness :
  (snd (fst (flush sample_lost)) = true /\ snd (flush sample_lost) = [RedisReply_default] /\
   log_of (fst (fst (flush sample_lost))) = (pipeline_ sample_lost +:+ pipeline_ sample_lost)) /\
  ((forall fuel, (bytes_left sample_lost < fuel)%nat -> read_reply fuel sample_lost = read_reply (reply_fuel sample_lost) sample_lost) /\
  let '(c', done, out) := flush sample_lost in
  queued_count_ c' = O /\ pipeline_ c' = EmptyString /\ length out = queued_count_ sample_lost /\ cursor_ok c' /\
  if done then
    (queued_count_ sample_lost = O /\ c' = sample_lost) \/
    fd_open c' = true /\ exists before, log_of c' = (log_of sample_lost +:+ before +:+ pipeline_ sample_lost) /\
      (before = EmptyString \/ exists k, before = str_take k (pipeline_ sample_lost))
  else
    fd_open c' = false /\ Forall (fun r => r = transport_error c') out /\
    exists j k, log_of c' = (log_of sample_lost +:+ str_take j (pipeline_ sample_lost) +:+ str_take k (pipeline_ sample_lost))).
Proof.
  split; [vm_compute; by repeat split|].
  apply (flush_outcomes sample_lost).
  - unfold cursor_ok. cbn. lia.
  - intros H. discriminate H.
Defined.
