(* ===== verification/Store.v ===== *)
(** * Store: the Redis server as the cluster code sees it

    The server is third-party code: [Redis] is the interface the cluster
    components are written against (a keyspace, one command at a time, and what
    the transport does to a pipeline) and [RedisLaws] states the documented
    effect of the commands they issue.  The two Lua scripts are the sources' own
    ([cluster/presence.cpp]) and are translated here, since [EVAL] runs them on
    the server.  [MiniRedis] is an executable server that satisfies the laws. *)

From S2P Require Import Prelude Text Redis.
From Stdlib Require Import ZArith Lia Bool Ascii String.
From stdpp Require Import base tactics numbers list option gmap sets fin_maps strings.
#[local] Open Scope Z_scope.

Inductive RedisValue :=
  | VString (text : string)
  | VHash (fields : gmap string string)
  | VSet (members : gset string).

(** One try of [RedisClient::flush]: the whole batch answered, or broken off
    after the server executed [executed] of its commands. *)
Inductive Attempt := Completed | Broken (executed : nat).

Class Redis (R : Type) := {
  keyspace : R -> gmap string RedisValue;
  call : R -> list string -> R * RedisReply;
  attempts : R -> R * list Attempt;
  failure : R -> string
}.

(** ** The Lua scripts *)
Section Scripts.
Context {R : Type} (call : R -> list string -> R * RedisReply).

(** [redis.call]: an error reply aborts the script. *)
Definition redis_call (s : R) (args : list string) (k : R -> RedisReply -> R * RedisReply) : R * RedisReply :=
  let '(s, r) := call s args in if is_error r then (s, r) else k s r.

(** A Lua value of a reply: nil is false. *)
Definition lua_string (r : RedisReply) : option string := if is_nil r then None else Some (rr_str r).

Definition arg (l : list string) (i : nat) : string := match l !! (i - 1)%nat with Some x => x | None => EmptyString end.

Definition transfer_move (s : R) (KEYS ARGV : list string) : R * RedisReply :=
  redis_call s ["HSET"; arg KEYS 1; "shard"; arg ARGV 2; "region"; arg ARGV 3; "updated"; arg ARGV 4]%string (fun s _ =>
  redis_call s ["PEXPIRE"; arg KEYS 1; arg ARGV 5]%string (fun s _ =>
  redis_call s ["SREM"; arg KEYS 2; arg ARGV 6]%string (fun s _ =>
  redis_call s ["SADD"; arg KEYS 3; arg ARGV 6]%string (fun s _ =>
  redis_call s ["PEXPIRE"; arg KEYS 3; arg ARGV 5]%string (fun s _ => (s, integer_reply 1)))))).

Definition transfer_script (s : R) (KEYS ARGV : list string) : R * RedisReply :=
  redis_call s ["HGET"; arg KEYS 1; "shard"]%string (fun s reply =>
    match lua_string reply with
    | Some current => if negb (current =? arg ARGV 1)%string then (s, integer_reply 0) else transfer_move s KEYS ARGV
    | None => transfer_move s KEYS ARGV
    end).

Definition claim_take (s : R) (KEYS ARGV : list string) : R * RedisReply :=
  redis_call s ["HSET"; arg KEYS 1; "shard"; arg ARGV 1; "region"; arg ARGV 2; "session"; arg ARGV 3; "updated"; arg ARGV 4]%string (fun s _ =>
  redis_call s ["PEXPIRE"; arg KEYS 1; arg ARGV 5]%string (fun s _ =>
  redis_call s ["SADD"; arg KEYS 2; arg ARGV 6]%string (fun s _ =>
  redis_call s ["PEXPIRE"; arg KEYS 2; arg ARGV 5]%string (fun s _ => (s, integer_reply 1))))).

Definition claim_script (s : R) (KEYS ARGV : list string) : R * RedisReply :=
  redis_call s ["HGET"; arg KEYS 1; "shard"]%string (fun s reply =>
    match lua_string reply with
    | Some current => if negb (current =? arg ARGV 1)%string then (s, bulk_reply current) else claim_take s KEYS ARGV
    | None => claim_take s KEYS ARGV
    end).
End Scripts.

Definition kTransferScript : string := "
local current = redis.call('HGET', KEYS[1], 'shard')
if current and current ~= ARGV[1] then return 0 end
redis.call('HSET', KEYS[1], 'shard', ARGV[2], 'region', ARGV[3], 'updated', ARGV[4])
redis.call('PEXPIRE', KEYS[1], ARGV[5])
redis.call('SREM', KEYS[2], ARGV[6])
redis.call('SADD', KEYS[3], ARGV[6])
redis.call('PEXPIRE', KEYS[3], ARGV[5])
return 1
".

Definition kClaimScript : string := "
local current = redis.call('HGET', KEYS[1], 'shard')
if current and current ~= ARGV[1] then return current end
redis.call('HSET', KEYS[1], 'shard', ARGV[1], 'region', ARGV[2], 'session', ARGV[3], 'updated', ARGV[4])
redis.call('PEXPIRE', KEYS[1], ARGV[5])
redis.call('SADD', KEYS[2], ARGV[6])
redis.call('PEXPIRE', KEYS[2], ARGV[5])
return 1
".

(** ** The documented commands *)
Fixpoint pairs_of (l : list string) : list (string * string) :=
  match l with
  | f :: v :: l => (f, v) :: pairs_of l
  | _ => []
  end.

Definition set_fields (fields : gmap string string) (l : list (string * string)) : gmap string string :=
  foldl (fun m fv => <[fst fv := snd fv]> m) fields l.

Definition flatten_fields (l : list (string * string)) : list string := l ≫= (fun fv => [fst fv; snd fv]).

(** A duration Redis accepts: the decimal text of a positive number. *)
Definition duration (text : string) : Prop := exists n, 0 < n < 2 ^ 63 /\ text = to_string n.

(** A set without members is no key. *)
Definition put_set (k : string) (members : gset string) (m : gmap string RedisValue) : gmap string RedisValue :=
  if decide (members = ∅) then delete k m else <[k := VSet members]> m.

Definition executes `{Redis R} (s : R) (args : list string) (m : gmap string RedisValue) (r : RedisReply -> Prop) : Prop :=
  let '(s', reply) := call s args in keyspace s' = m /\ r reply.

Class RedisLaws (R : Type) `{Redis R} := {
  attempts_keyspace : forall s, keyspace (fst (attempts s)) = keyspace s;
  call_del : forall s k, executes s ["DEL"; k]%string (delete k (keyspace s)) (fun r => r = integer_reply (match keyspace s !! k with Some _ => 1 | None => 0 end));
  call_getdel : forall s k,
    match keyspace s !! k with
    | Some (VString v) => executes s ["GETDEL"; k]%string (delete k (keyspace s)) (fun r => r = bulk_reply v)
    | Some _ => executes s ["GETDEL"; k]%string (keyspace s) (fun r => is_error r = true)
    | None => executes s ["GETDEL"; k]%string (keyspace s) (fun r => r = RedisReply_default)
    end;
  call_set_nx : forall s k v ttl, duration ttl ->
    match keyspace s !! k with
    | Some _ => executes s ["SET"; k; v; "PX"; ttl; "NX"]%string (keyspace s) (fun r => r = RedisReply_default)
    | None => executes s ["SET"; k; v; "PX"; ttl; "NX"]%string (<[k := VString v]> (keyspace s)) (fun r => r = status_reply "OK")
    end;
  call_hset : forall s k l, l <> [] ->
    match default (VHash ∅) (keyspace s !! k) with
    | VHash fields => executes s ("HSET" :: k :: flatten_fields l)%string (<[k := VHash (set_fields fields l)]> (keyspace s)) (fun r => is_error r = false)
    | _ => executes s ("HSET" :: k :: flatten_fields l)%string (keyspace s) (fun r => is_error r = true)
    end;
  call_hget : forall s k f,
    match default (VHash ∅) (keyspace s !! k) with
    | VHash fields => executes s ["HGET"; k; f]%string (keyspace s) (fun r => r = match fields !! f with Some v => bulk_reply v | None => RedisReply_default end)
    | _ => executes s ["HGET"; k; f]%string (keyspace s) (fun r => is_error r = true)
    end;
  call_hgetall : forall s k,
    match default (VHash ∅) (keyspace s !! k) with
    | VHash fields => executes s ["HGETALL"; k]%string (keyspace s) (fun r => exists l, l ≡ₚ map_to_list fields /\ r = array_reply (bulk_reply <$> flatten_fields l))
    | _ => executes s ["HGETALL"; k]%string (keyspace s) (fun r => is_error r = true)
    end;
  call_pexpire : forall s k ttl, duration ttl -> executes s ["PEXPIRE"; k; ttl]%string (keyspace s) (fun r => is_error r = false);
  call_sadd : forall s k x,
    match default (VSet ∅) (keyspace s !! k) with
    | VSet members => executes s ["SADD"; k; x]%string (<[k := VSet ({[x]} ∪ members)]> (keyspace s)) (fun r => is_error r = false)
    | _ => executes s ["SADD"; k; x]%string (keyspace s) (fun r => is_error r = true)
    end;
  call_srem : forall s k x,
    match default (VSet ∅) (keyspace s !! k) with
    | VSet members => executes s ["SREM"; k; x]%string (put_set k (members ∖ {[x]}) (keyspace s)) (fun r => is_error r = false)
    | _ => executes s ["SREM"; k; x]%string (keyspace s) (fun r => is_error r = true)
    end;
  call_smembers : forall s k,
    match default (VSet ∅) (keyspace s !! k) with
    | VSet members => executes s ["SMEMBERS"; k]%string (keyspace s) (fun r => exists l, l ≡ₚ elements members /\ r = array_reply (bulk_reply <$> l))
    | _ => executes s ["SMEMBERS"; k]%string (keyspace s) (fun r => is_error r = true)
    end;
  call_eval_transfer : forall s k1 k2 k3 argv,
    call s ("EVAL" :: kTransferScript :: "3" :: k1 :: k2 :: k3 :: argv)%string = transfer_script call s [k1; k2; k3] argv;
  call_eval_claim : forall s k1 k2 argv,
    call s ("EVAL" :: kClaimScript :: "2" :: k1 :: k2 :: argv)%string = claim_script call s [k1; k2] argv
}.

(** ** Pipelines *)
Section Pipeline.
Context `{Redis R}.

Fixpoint run_commands (s : R) (cmds : list (list string)) : R * list RedisReply :=
  match cmds with
  | [] => (s, [])
  | c :: cmds => let '(s, r) := call s c in let '(s, rs) := run_commands s cmds in (s, r :: rs)
  end.

(** [RedisClient::flush] as the server sees it: at most two tries. *)
Fixpoint try_deliver (tries : nat) (plan : list Attempt) (s : R) (cmds : list (list string)) : R * option (list RedisReply) :=
  match tries, plan with
  | S tries, Completed :: _ => let '(s, rs) := run_commands s cmds in (s, Some rs)
  | S tries, Broken executed :: plan => try_deliver tries plan (fst (run_commands s (take executed cmds))) cmds
  | _, _ => (s, None)
  end.

Definition flush_commands (s : R) (cmds : list (list string)) : R * option (list RedisReply) :=
  match cmds with
  | [] => (s, Some [])
  | _ => let '(s, plan) := attempts s in try_deliver 2 plan s cmds
  end.
End Pipeline.

(** ** Effects: commands as functions of the keyspace *)
Abbreviation keyspace_map := (gmap string RedisValue).
Definition effect : Type := keyspace_map -> keyspace_map * RedisReply.

Fixpoint run_effects (m : keyspace_map) (es : list effect) : keyspace_map * list RedisReply :=
  match es with
  | [] => (m, [])
  | e :: es => let '(m, r) := e m in let '(m, rs) := run_effects m es in (m, r :: rs)
  end.

Fixpoint deliver_effects (tries : nat) (plan : list Attempt) (m : keyspace_map) (es : list effect) : keyspace_map * option (list RedisReply) :=
  match tries, plan with
  | S tries, Completed :: _ => let '(m, rs) := run_effects m es in (m, Some rs)
  | S tries, Broken executed :: plan => deliver_effects tries plan (fst (run_effects m (take executed es))) es
  | _, _ => (m, None)
  end.

Section Effects.
Context `{RedisLaws R} (Inv : keyspace_map -> Prop).

(** A command has an effect on the keyspaces that satisfy [Inv], which it keeps. *)
Definition has_effect (cmd : list string) (e : effect) : Prop :=
  forall s : R, Inv (keyspace s) -> (let '(s', r) := call s cmd in (keyspace s', r) = e (keyspace s)) /\ Inv (fst (e (keyspace s))).

Lemma run_commands_effects cmds es : Forall2 has_effect cmds es -> forall s : R, Inv (keyspace s) ->
  (let '(s', rs) := run_commands s cmds in (keyspace s', rs) = run_effects (keyspace s) es) /\ Inv (fst (run_effects (keyspace s) es)).
Proof.
  induction 1 as [|cmd e cmds es He _ IH]; intros s Hs; [done|]. cbn [run_commands run_effects].
  destruct (He s Hs) as [E Hi]. destruct (call s cmd) as [s1 r]. rewrite <- E in *. cbn [fst] in Hi.
  destruct (IH s1 Hi) as [E1 Hi1]. destruct (run_commands s1 cmds) as [s2 rs]. destruct (run_effects (keyspace s1) es) as [m2 rs2].
  injection E1 as -> ->. done.
Qed.

Lemma deliver_refines cmds es : Forall2 has_effect cmds es -> forall tries plan (s : R), Inv (keyspace s) ->
  (let '(s', out) := try_deliver tries plan s cmds in (keyspace s', out) = deliver_effects tries plan (keyspace s) es) /\
  Inv (fst (deliver_effects tries plan (keyspace s) es)).
Proof.
  intros Hes. induction tries as [|tries IH]; intros plan s Hs; [done|]. destruct plan as [|[|executed] plan]; [done| |]; cbn [try_deliver deliver_effects].
  - pose proof (run_commands_effects cmds es Hes s Hs) as [E Hi]. destruct (run_commands s cmds) as [s1 rs].
    destruct (run_effects (keyspace s) es) as [m1 rs1]. injection E as -> ->. done.
  - pose proof (run_commands_effects _ _ (Forall2_take _ _ _ executed Hes) s Hs) as [E Hi]. destruct (run_commands s (take executed cmds)) as [s1 rs].
    destruct (run_effects (keyspace s) (take executed es)) as [m1 rs1]. injection E as <- <-. by apply IH.
Qed.

Lemma flush_refines (s : R) cmds es : cmds <> [] -> Forall2 has_effect cmds es -> Inv (keyspace s) ->
  (let '(s', out) := flush_commands s cmds in (keyspace s', out) = deliver_effects 2 (snd (attempts s)) (keyspace s) es) /\
  Inv (fst (deliver_effects 2 (snd (attempts s)) (keyspace s) es)).
Proof.
  intros Hne Hes Hs. unfold flush_commands. destruct cmds as [|cmd cmds]; [done|].
  pose proof (attempts_keyspace s) as Ha. destruct (attempts s) as [s1 plan]. cbn [fst snd] in *. rewrite <- Ha in *.
  by apply deliver_refines.
Qed.
End Effects.

(** The outcomes of a flush of one command that a second execution does not take
    further: it has run, or the transport failed. *)
Lemma deliver_one plan m (e : effect) : (forall m, fst (e (fst (e m))) = fst (e m)) ->
  let '(m', out) := deliver_effects 2 plan m [e] in
  match out with
  | Some rs => exists r, rs = [r] /\ m' = fst (e m) /\ (r = snd (e m) \/ r = snd (e (fst (e m))) /\ head plan <> Some Completed)
  | None => (m' = m \/ m' = fst (e m)) /\ head plan <> Some Completed
  end.
Proof.
  intros Htwice.
  assert (Hrun : forall m, run_effects m [e] = (fst (e m), [snd (e m)])) by (intros m1; cbn; by destruct (e m1)).
  assert (Hcut : forall k m, fst (run_effects m (take k [e])) = m \/ fst (run_effects m (take k [e])) = fst (e m)).
  { intros [|[|k]] m1; [by left|right; by rewrite Hrun..]. }
  destruct plan as [|[|k] plan]; [split; [by left|done]| |]; cbn [deliver_effects head].
  - rewrite Hrun. eexists. by split; [|split; [|left]].
  - destruct plan as [|[|k2] plan]; cbn [deliver_effects].
    + split; [apply Hcut|done].
    + rewrite Hrun. eexists. split; [done|]. destruct (Hcut k m) as [->| ->]; [by split; [|left]|]. split; [apply Htwice|by right].
    + split; [|done]. destruct (Hcut k m) as [E1|E1], (Hcut k2 (fst (run_effects m (take k [e])))) as [E2|E2]; rewrite E2, E1; rewrite ?Htwice; auto.
Qed.

(** ** Invariants of the keyspace *)
Section Stable.
Context `{RedisLaws R} (Q : keyspace_map -> Prop).

(** A command that keeps [Q]. *)
Definition stable (cmd : list string) : Prop := forall s : R, Q (keyspace s) -> Q (keyspace (fst (call s cmd))).

Lemma run_commands_stable cmds : Forall stable cmds -> forall s : R, Q (keyspace s) -> Q (keyspace (fst (run_commands s cmds))).
Proof.
  induction 1 as [|cmd cmds Hc _ IH]; intros s Hs; [done|]. cbn [run_commands]. specialize (Hc s Hs). destruct (call s cmd) as [s1 r].
  specialize (IH s1 Hc). by destruct (run_commands s1 cmds).
Qed.

Lemma try_deliver_stable cmds : Forall stable cmds -> forall tries plan (s : R), Q (keyspace s) -> Q (keyspace (fst (try_deliver tries plan s cmds))).
Proof.
  intros Hc. induction tries as [|tries IH]; intros plan s Hs; [done|]. destruct plan as [|[|executed] plan]; [done| |]; cbn [try_deliver].
  - pose proof (run_commands_stable cmds Hc s Hs). by destruct (run_commands s cmds).
  - apply IH, run_commands_stable; [by apply Forall_take|done].
Qed.

Lemma flush_stable cmds (s : R) : Forall stable cmds -> Q (keyspace s) -> Q (keyspace (fst (flush_commands s cmds))).
Proof.
  intros Hc Hs. unfold flush_commands. destruct cmds as [|cmd cmds]; [done|]. pose proof (attempts_keyspace s) as Ha.
  destruct (attempts s) as [s1 plan]. cbn [fst] in Ha. rewrite <- Ha in Hs. by apply try_deliver_stable.
Qed.

(** The replies of one command, on every state it may meet. *)
Lemma try_deliver_reply cmd (P : RedisReply -> Prop) : stable cmd -> (forall s : R, Q (keyspace s) -> P (snd (call s cmd))) ->
  forall tries plan (s : R) rs, Q (keyspace s) -> snd (try_deliver tries plan s [cmd]) = Some rs -> exists r, rs = [r] /\ P r.
Proof.
  intros Hc Hp. induction tries as [|tries IH]; intros plan s rs Hs; [done|]. destruct plan as [|[|executed] plan]; [done| |]; cbn [try_deliver run_commands].
  - specialize (Hp s Hs). destruct (call s cmd) as [s1 r]. cbn [snd] in *. intros [= <-]. by exists r.
  - apply IH. apply run_commands_stable; [apply Forall_take; by repeat constructor|done].
Qed.

Lemma flush_reply cmd (P : RedisReply -> Prop) (s : R) rs : stable cmd -> (forall s : R, Q (keyspace s) -> P (snd (call s cmd))) ->
  Q (keyspace s) -> snd (flush_commands s [cmd]) = Some rs -> exists r, rs = [r] /\ P r.
Proof.
  intros Hc Hp Hs. unfold flush_commands. pose proof (attempts_keyspace s) as Ha. destruct (attempts s) as [s1 plan]. cbn [fst] in Ha.
  rewrite <- Ha in Hs. by apply try_deliver_reply.
Qed.
End Stable.

Section Reads.
Context `{RedisLaws R}.

Lemma hgetall_keeps (s : R) k : keyspace (fst (call s ["HGETALL"; k]%string)) = keyspace s.
Proof. pose proof (call_hgetall s k) as Hl. unfold executes in Hl. destruct (call s _), (default _ _); by destruct Hl. Qed.

Lemma smembers_keeps (s : R) k : keyspace (fst (call s ["SMEMBERS"; k]%string)) = keyspace s.
Proof. pose proof (call_smembers s k) as Hl. unfold executes in Hl. destruct (call s _), (default _ _); by destruct Hl. Qed.

Lemma pexpire_keeps (s : R) k ttl : 0 < ttl < 2 ^ 63 -> keyspace (fst (call s ["PEXPIRE"; k; to_string ttl]%string)) = keyspace s.
Proof.
  intros Ht. pose proof (call_pexpire s k (to_string ttl) (ex_intro _ ttl (conj Ht eq_refl))) as Hl. unfold executes in Hl. destruct (call s _). by destruct Hl.
Qed.

Lemma read_stable Q cmd : (forall s : R, keyspace (fst (call s cmd)) = keyspace s) -> stable (R:=R) Q cmd.
Proof. intros E s Hs. by rewrite E. Qed.
End Reads.

(** ** An executable server *)
Record MiniRedis := mkMiniRedis { db : gmap string RedisValue; plans : list (list Attempt) }.

Definition wrong_type : RedisReply := error_reply "WRONGTYPE Operation against a key holding the wrong kind of value".

Definition with_hash (m : gmap string RedisValue) (k : string) (f : gmap string string -> gmap string RedisValue * RedisReply) : gmap string RedisValue * RedisReply :=
  match default (VHash ∅) (m !! k) with VHash fields => f fields | _ => (m, wrong_type) end.

Definition with_set (m : gmap string RedisValue) (k : string) (f : gset string -> gmap string RedisValue * RedisReply) : gmap string RedisValue * RedisReply :=
  match default (VSet ∅) (m !! k) with VSet members => f members | _ => (m, wrong_type) end.

Definition mini_command (m : gmap string RedisValue) (cmd k : string) (rest : list string) : gmap string RedisValue * RedisReply :=
  if (cmd =? "DEL")%string then (delete k m, integer_reply (match m !! k with Some _ => 1 | None => 0 end))
  else if (cmd =? "GETDEL")%string then
    match m !! k with
    | Some (VString v) => (delete k m, bulk_reply v)
    | Some _ => (m, wrong_type)
    | None => (m, RedisReply_default)
    end
  else if (cmd =? "SET")%string then
    match m !! k with Some _ => (m, RedisReply_default) | None => (<[k := VString (default EmptyString (head rest))]> m, status_reply "OK") end
  else if (cmd =? "HSET")%string then
    with_hash m k (fun fields => (<[k := VHash (set_fields fields (pairs_of rest))]> m, integer_reply (Z.of_nat (length (pairs_of rest)))))
  else if (cmd =? "HGET")%string then
    with_hash m k (fun fields => (m, match fields !! default EmptyString (head rest) with Some v => bulk_reply v | None => RedisReply_default end))
  else if (cmd =? "HGETALL")%string then
    with_hash m k (fun fields => (m, array_reply (bulk_reply <$> flatten_fields (map_to_list fields))))
  else if (cmd =? "PEXPIRE")%string then (m, integer_reply (match m !! k with Some _ => 1 | None => 0 end))
  else if (cmd =? "SADD")%string then
    with_set m k (fun members => (<[k := VSet ({[default EmptyString (head rest)]} ∪ members)]> m, integer_reply 1))
  else if (cmd =? "SREM")%string then
    with_set m k (fun members => (put_set k (members ∖ {[default EmptyString (head rest)]}) m, integer_reply 1))
  else if (cmd =? "SMEMBERS")%string then
    with_set m k (fun members => (m, array_reply (bulk_reply <$> elements members)))
  else (m, error_reply "ERR unknown command").

Definition mini_plain (s : MiniRedis) (args : list string) : MiniRedis * RedisReply :=
  match args with
  | cmd :: k :: rest => let '(m, r) := mini_command (db s) cmd k rest in (mkMiniRedis m (plans s), r)
  | _ => (s, error_reply "ERR wrong number of arguments")
  end.

Definition mini_call (s : MiniRedis) (args : list string) : MiniRedis * RedisReply :=
  match args with
  | cmd :: script :: _ :: keys =>
      if (cmd =? "EVAL")%string then
        if (script =? kTransferScript)%string then transfer_script mini_plain s (take 3 keys) (drop 3 keys)
        else if (script =? kClaimScript)%string then claim_script mini_plain s (take 2 keys) (drop 2 keys)
        else (s, error_reply "ERR unknown script")
      else mini_plain s args
  | _ => mini_plain s args
  end.

#[export] Instance mini_redis : Redis MiniRedis := {
  keyspace := db;
  call := mini_call;
  attempts s := (mkMiniRedis (db s) (tail (plans s)), default [Completed] (head (plans s)));
  failure _ := connection_closed
}.

Lemma pairs_of_flatten l : pairs_of (flatten_fields l) = l.
Proof.
  induction l as [|[f v] l IH]; [done|]. change (flatten_fields ((f, v) :: l)) with (f :: v :: flatten_fields l).
  cbn [pairs_of]. by rewrite IH.
Qed.

Lemma mini_call_plain s cmd k rest : (cmd =? "EVAL")%string = false ->
  mini_call s (cmd :: k :: rest) = let '(m, r) := mini_command (db s) cmd k rest in (mkMiniRedis m (plans s), r).
Proof. intros E. destruct rest as [|x rest]; [done|]. cbn [mini_call]. by rewrite E. Qed.

(** A command other than [EVAL] does what [mini_command] says. *)
Lemma mini_executes (s : MiniRedis) cmd k rest m r : (cmd =? "EVAL")%string = false ->
  fst (mini_command (db s) cmd k rest) = m -> r (snd (mini_command (db s) cmd k rest)) -> executes s (cmd :: k :: rest) m r.
Proof. intros E Em Er. unfold executes. cbn [call mini_redis]. rewrite mini_call_plain by done. by destruct (mini_command _ _ _ _). Qed.

#[local] Ltac mini := apply mini_executes; [reflexivity|..]; cbn [mini_command String.eqb Ascii.eqb Bool.eqb]; unfold with_hash, with_set.

Lemma mini_script_call s cmd k rest f : (cmd =? "EVAL")%string = false ->
  redis_call mini_plain s (cmd :: k :: rest) f = redis_call mini_call s (cmd :: k :: rest) f.
Proof. intros E. unfold redis_call. rewrite mini_call_plain by done. done. Qed.

Lemma redis_call_ext {R} (call : R -> list string -> R * RedisReply) s args f g : (forall s r, f s r = g s r) ->
  redis_call call s args f = redis_call call s args g.
Proof. intros E. unfold redis_call. destruct (call s args) as [s' r]. by rewrite E. Qed.

#[local] Ltac same_script := repeat (rewrite mini_script_call by reflexivity; apply redis_call_ext; intros ? ?); try reflexivity.

#[export] Instance mini_redis_laws : RedisLaws MiniRedis.
Proof.
  split.
  - done.
  - intros s k. mini; done.
  - intros s k. cbn [keyspace mini_redis]. destruct (db s !! k) as [[| |]|] eqn:E; mini; rewrite E; done.
  - intros s k v ttl _. cbn [keyspace mini_redis]. destruct (db s !! k) as [[| |]|] eqn:E; mini; rewrite E; done.
  - intros s k l _. cbn [keyspace mini_redis]. destruct (default (VHash ∅) (db s !! k)) eqn:E; mini; rewrite E; rewrite ?pairs_of_flatten; done.
  - intros s k f. cbn [keyspace mini_redis]. destruct (default (VHash ∅) (db s !! k)) eqn:E; mini; rewrite E; done.
  - intros s k. cbn [keyspace mini_redis]. destruct (default (VHash ∅) (db s !! k)) as [|fields|] eqn:E; mini; rewrite E; try done. by eexists.
  - intros s k ttl _. mini; done.
  - intros s k x. cbn [keyspace mini_redis]. destruct (default (VSet ∅) (db s !! k)) eqn:E; mini; rewrite E; done.
  - intros s k x. cbn [keyspace mini_redis]. destruct (default (VSet ∅) (db s !! k)) eqn:E; mini; rewrite E; done.
  - intros s k. cbn [keyspace mini_redis]. destruct (default (VSet ∅) (db s !! k)) as [| |members] eqn:E; mini; rewrite E; try done. by eexists.
  - intros s k1 k2 k3 argv. change (transfer_script mini_plain s [k1; k2; k3] argv = transfer_script mini_call s [k1; k2; k3] argv).
    unfold transfer_script, transfer_move. rewrite mini_script_call by reflexivity. apply redis_call_ext. intros s1 r.
    destruct (lua_string r) as [current|]; [destruct (negb _); [done|]|]; same_script.
  - intros s k1 k2 argv. change (claim_script mini_plain s [k1; k2] argv = claim_script mini_call s [k1; k2] argv).
    unfold claim_script, claim_take. rewrite mini_script_call by reflexivity. apply redis_call_ext. intros s1 r.
    destruct (lua_string r) as [current|]; [destruct (negb _); [done|]|]; same_script.
Qed.
