(* ===== verification/Presence.v ===== *)
(** * Presence: the shard registry and the player directory
    ([src/src/cluster/presence.h], [presence.cpp])

    Every operation of [ClusterRegistry] as the commands it queues, the flush
    that sends them and what it makes of the replies, over the interface
    [Store.Redis].  A flush is one step: commands of other processes come before
    or after it.  Times ([wall_ms]) are arguments. *)

From S2P Require Import Prelude F32 Text Redis Store.
From Stdlib Require Import ZArith Lia Bool Ascii String.
From stdpp Require Import base tactics numbers list option gmap sets fin_maps strings.
#[local] Open Scope Z_scope.

(** ** Data *)
Record ShardInfo := mkShardInfo {
  si_id : string;
  si_udp_endpoint : string;
  si_http_endpoint : string;
  si_player_count : Z;
  si_capacity : Z;
  si_tick_p99_ms : f64;
  si_heartbeat_ms : Z;
  si_draining : bool
}.

Definition f64_zero : f64 := f64_of_Z 0.
Definition f64_one : f64 := f64_of_Z 1.

Definition load_factor (s : ShardInfo) : f64 :=
  if si_capacity s =? 0 then f64_one else f64_div (f64_of_Z (si_player_count s)) (f64_of_Z (si_capacity s)).

Definition accepting (s : ShardInfo) : bool := negb (si_draining s) && (si_player_count s <? si_capacity s).

Record PresenceRecord := mkPresenceRecord {
  pr_player_id : string;
  pr_shard_id : string;
  pr_region : Z;
  pr_session_token : Z;
  pr_updated_ms : Z
}.

Definition PresenceRecord_default : PresenceRecord := mkPresenceRecord EmptyString EmptyString 0 0 0.

(** The C library's conversion of doubles to and from text ([%f], [strtod]),
    used for one advisory statistic. *)
Class FloatText := { print_f64 : f64 -> string; parse_f64 : string -> f64 }.

Fixpoint field (elements : list RedisReply) (name : string) : string :=
  match elements with
  | f :: v :: rest => if (rr_str f =? name)%string then rr_str v else field rest name
  | _ => EmptyString
  end.

Definition field_u64 (elements : list RedisReply) (name : string) : Z :=
  let value := field elements name in if (value =? "")%string then 0 else strtoull value.

Definition field_f64 `{FloatText} (elements : list RedisReply) (name : string) : f64 :=
  let value := field elements name in if (value =? "")%string then f64_zero else parse_f64 value.

Definition parse_shard `{FloatText} (id : string) (elements : list RedisReply) : ShardInfo :=
  mkShardInfo id (field elements "udp") (field elements "http") (u32 (field_u64 elements "players"))
    (u32 (field_u64 elements "capacity")) (field_f64 elements "tick_p99_ms") (field_u64 elements "heartbeat")
    (field elements "draining" =? "1")%string.

(** ** Keys *)
Section Keys.
Context (prefix : string).
Definition shard_key (id : string) : string := prefix +:+ ":shard:" +:+ id.
Definition presence_key (id : string) : string := prefix +:+ ":presence:" +:+ id.
Definition members_key : string := prefix +:+ ":shards".
Definition roster_key (id : string) : string := prefix +:+ ":roster:" +:+ id.
Definition ticket_key (token : Z) : string := prefix +:+ ":ticket:" +:+ to_string token.
End Keys.

(** ** The registry *)
Record ClusterRegistry (R : Type) := mkClusterRegistry {
  redis_ : R;
  prefix_ : string;
  queued_ : list (list string)
}.
Arguments mkClusterRegistry {R} redis_ prefix_ queued_.
Arguments redis_ {R} c.
Arguments prefix_ {R} c.
Arguments queued_ {R} c.

Section Registry.
Context `{Redis R}.

Definition registry_connect (server : R) (key_prefix : string) : ClusterRegistry R := mkClusterRegistry server key_prefix [].

Definition registry_queue (g : ClusterRegistry R) (args : list string) : ClusterRegistry R :=
  mkClusterRegistry (redis_ g) (prefix_ g) (queued_ g ++ [args]).

Definition registry_flush (g : ClusterRegistry R) : ClusterRegistry R * option (list RedisReply) :=
  let '(s, out) := flush_commands (redis_ g) (queued_ g) in (mkClusterRegistry s (prefix_ g) [], out).

Definition registry_command (g : ClusterRegistry R) (args : list string) : ClusterRegistry R * RedisReply :=
  match registry_flush (registry_queue g args) with
  | (g, Some (r :: _)) => (g, r)
  | (g, _) => (g, error_reply ("transport: " +:+ failure (redis_ g)))
  end.

Definition all_ok (out : option (list RedisReply)) : bool :=
  match out with Some replies => forallb (fun r => negb (is_error r)) replies | None => false end.

Definition flushed_ok (out : option (list RedisReply)) : bool := match out with Some _ => true | None => false end.

Definition bool_text (b : bool) : string := if b then "1" else "0".

Definition heartbeat_shard `{FloatText} (g : ClusterRegistry R) (shard : ShardInfo) (ttl_ms now : Z) : ClusterRegistry R * bool :=
  if (si_id shard =? "")%string then (g, false) else
  let key := shard_key (prefix_ g) (si_id shard) in
  let g := registry_queue g ["HSET"; key; "udp"; si_udp_endpoint shard; "http"; si_http_endpoint shard;
    "players"; to_string (si_player_count shard); "capacity"; to_string (si_capacity shard);
    "tick_p99_ms"; print_f64 (si_tick_p99_ms shard); "heartbeat"; to_string now;
    "draining"; bool_text (si_draining shard)]%string in
  let g := registry_queue g ["PEXPIRE"; key; to_string ttl_ms]%string in
  let g := registry_queue g ["SADD"; members_key (prefix_ g); si_id shard]%string in
  let '(g, out) := registry_flush g in (g, all_ok out).

Definition remove_shard (g : ClusterRegistry R) (shard_id : string) : ClusterRegistry R * bool :=
  let g := registry_queue g ["DEL"; shard_key (prefix_ g) shard_id]%string in
  let g := registry_queue g ["SREM"; members_key (prefix_ g); shard_id]%string in
  let g := registry_queue g ["DEL"; roster_key (prefix_ g) shard_id]%string in
  let '(g, out) := registry_flush g in (g, flushed_ok out).

Definition is_filled_array (r : RedisReply) : bool :=
  bool_decide (rr_type r = kArray) && negb (bool_decide (length (rr_elements r) = O)).

(** The hashes sorted into live shards and dead ids. *)
Definition live_of `{FloatText} (ids : list string) (hashes : list RedisReply) : list ShardInfo :=
  omap (fun ih => if is_filled_array (snd ih) then Some (parse_shard (fst ih) (rr_elements (snd ih))) else None) (zip ids hashes).
Definition dead_of (ids : list string) (hashes : list RedisReply) : list string :=
  omap (fun ih => if is_filled_array (snd ih) then None else Some (fst ih)) (zip ids hashes).

Definition prune (g : ClusterRegistry R) (dead : list string) : ClusterRegistry R :=
  match dead with
  | [] => g
  | _ =>
      let g := foldl (fun g id => registry_queue (registry_queue g ["SREM"; members_key (prefix_ g); id]%string)
                                    ["DEL"; roster_key (prefix_ g) id]%string) g dead in
      fst (registry_flush g)
  end.

(** The live shards and how many registrations were pruned. *)
Definition live_shards `{FloatText} (g : ClusterRegistry R) : ClusterRegistry R * list ShardInfo * Z :=
  let '(g, members) := registry_command g ["SMEMBERS"; members_key (prefix_ g)]%string in
  if negb (is_filled_array members) then (g, [], 0) else
  let ids := rr_str <$> rr_elements members in
  let g := foldl (fun g id => registry_queue g ["HGETALL"; shard_key (prefix_ g) id]%string) g ids in
  let '(g, out) := registry_flush g in
  match out with
  | None => (g, [], 0)
  | Some hashes =>
      if negb (length hashes =? length ids)%nat then (g, [], 0) else
      let dead := dead_of ids hashes in
      (prune g dead, live_of ids hashes, u32 (Z.of_nat (length dead)))
  end.

Definition get_shard `{FloatText} (g : ClusterRegistry R) (shard_id : string) : ClusterRegistry R * option ShardInfo :=
  let '(g, hash) := registry_command g ["HGETALL"; shard_key (prefix_ g) shard_id]%string in
  (g, if is_filled_array hash then Some (parse_shard shard_id (rr_elements hash)) else None).

Definition queue_set_presence (g : ClusterRegistry R) (record : PresenceRecord) (ttl_ms now : Z) : ClusterRegistry R :=
  let key := presence_key (prefix_ g) (pr_player_id record) in
  let roster := roster_key (prefix_ g) (pr_shard_id record) in
  let g := registry_queue g ["HSET"; key; "shard"; pr_shard_id record; "region"; to_string (pr_region record);
    "session"; to_string (pr_session_token record); "updated"; to_string now]%string in
  let g := registry_queue g ["PEXPIRE"; key; to_string ttl_ms]%string in
  let g := registry_queue g ["SADD"; roster; pr_player_id record]%string in
  registry_queue g ["PEXPIRE"; roster; to_string ttl_ms]%string.

Definition set_presence (g : ClusterRegistry R) (record : PresenceRecord) (ttl_ms now : Z) : ClusterRegistry R * bool :=
  let '(g, out) := registry_flush (queue_set_presence g record ttl_ms now) in (g, all_ok out).

Definition parse_presence (player_id : string) (elements : list RedisReply) : PresenceRecord :=
  mkPresenceRecord player_id (field elements "shard") (u32 (field_u64 elements "region"))
    (field_u64 elements "session") (field_u64 elements "updated").

Definition get_presence (g : ClusterRegistry R) (player_id : string) : ClusterRegistry R * option PresenceRecord :=
  let '(g, hash) := registry_command g ["HGETALL"; presence_key (prefix_ g) player_id]%string in
  (g, if is_filled_array hash then Some (parse_presence player_id (rr_elements hash)) else None).

Definition clear_presence (g : ClusterRegistry R) (player_id : string) : ClusterRegistry R * bool :=
  let '(g, record) := get_presence g player_id in
  let g := match record with
    | Some record =>
        if (pr_shard_id record =? "")%string then g
        else registry_queue g ["SREM"; roster_key (prefix_ g) (pr_shard_id record); player_id]%string
    | None => g
    end in
  let g := registry_queue g ["DEL"; presence_key (prefix_ g) player_id]%string in
  let '(g, out) := registry_flush g in (g, flushed_ok out).

Definition queue_transfer_presence (g : ClusterRegistry R) (player_id from_shard to_shard : string) (region ttl_ms now : Z) : ClusterRegistry R :=
  registry_queue g ["EVAL"; kTransferScript; "3"; presence_key (prefix_ g) player_id; roster_key (prefix_ g) from_shard;
    roster_key (prefix_ g) to_shard; from_shard; to_shard; to_string region; to_string now; to_string ttl_ms; player_id]%string.

Definition is_one (r : RedisReply) : bool := bool_decide (rr_type r = kInteger) && (rr_integer r =? 1).

Definition transfer_presence (g : ClusterRegistry R) (player_id from_shard to_shard : string) (region ttl_ms now : Z) : ClusterRegistry R * bool :=
  let '(g, out) := registry_flush (queue_transfer_presence g player_id from_shard to_shard region ttl_ms now) in
  match out with
  | Some (reply :: _) => (g, is_one reply)
  | _ => (g, false)
  end.

(** The result and what [*current_owner] is set to, if anything. *)
Definition claim_presence (g : ClusterRegistry R) (record : PresenceRecord) (ttl_ms now : Z) : ClusterRegistry R * bool * option string :=
  let '(g, reply) := registry_command g ["EVAL"; kClaimScript; "2"; presence_key (prefix_ g) (pr_player_id record);
    roster_key (prefix_ g) (pr_shard_id record); pr_shard_id record; to_string (pr_region record);
    to_string (pr_session_token record); to_string now; to_string ttl_ms; pr_player_id record]%string in
  if is_error reply then (g, false, None) else
  if is_one reply then (g, true, None) else (g, false, Some (rr_str reply)).

Definition players_on_shard (g : ClusterRegistry R) (shard_id : string) : ClusterRegistry R * list string :=
  let '(g, members) := registry_command g ["SMEMBERS"; roster_key (prefix_ g) shard_id]%string in
  (g, if bool_decide (rr_type members = kArray) then rr_str <$> rr_elements members else []).
End Registry.

(** ** The directory as a map *)

(** What the keys of a prefix may hold. *)
Definition holds_hash (v : option RedisValue) : Prop := match v with Some (VHash _) | None => True | _ => False end.
Definition holds_set (v : option RedisValue) : Prop := match v with Some (VSet _) | None => True | _ => False end.
Definition holds_string (v : option RedisValue) : Prop := match v with Some (VString _) | None => True | _ => False end.

Record keys_ok (prefix : string) (m : gmap string RedisValue) : Prop := {
  ko_presence : forall id, holds_hash (m !! presence_key prefix id);
  ko_roster : forall id, holds_set (m !! roster_key prefix id);
  ko_ticket : forall token, holds_string (m !! ticket_key prefix token)
}.

Definition hash_at (m : gmap string RedisValue) (k : string) : gmap string string :=
  match m !! k with Some (VHash fields) => fields | _ => ∅ end.
Definition set_at (m : gmap string RedisValue) (k : string) : gset string :=
  match m !! k with Some (VSet members) => members | _ => ∅ end.

(** The shard a player is present on. *)
Definition owner_of (prefix : string) (m : gmap string RedisValue) (player : string) : option string :=
  hash_at m (presence_key prefix player) !! "shard"%string.

(** A shard may take a player nobody owns and one it owns already. *)
Definition may_take (prefix : string) (m : gmap string RedisValue) (player shard : string) : bool :=
  match owner_of prefix m player with Some current => (current =? shard)%string | None => true end.

(** The abstract effect of a claim and of a transfer that take place. *)
Definition claimed (prefix : string) (record : PresenceRecord) (now : Z) (m : gmap string RedisValue) : gmap string RedisValue :=
  let key := presence_key prefix (pr_player_id record) in
  let roster := roster_key prefix (pr_shard_id record) in
  <[roster := VSet ({[pr_player_id record]} ∪ set_at m roster)]>
    (<[key := VHash (set_fields (hash_at m key) [("shard", pr_shard_id record); ("region", to_string (pr_region record));
        ("session", to_string (pr_session_token record)); ("updated", to_string now)]%string)]> m).

Definition transferred (prefix player from_shard to_shard : string) (region now : Z) (m : gmap string RedisValue) : gmap string RedisValue :=
  let key := presence_key prefix player in
  let m := <[key := VHash (set_fields (hash_at m key) [("shard", to_shard); ("region", to_string region); ("updated", to_string now)]%string)]> m in
  let from := roster_key prefix from_shard in
  let m := put_set from (set_at m from ∖ {[player]}) m in
  let to := roster_key prefix to_shard in
  <[to := VSet ({[player]} ∪ set_at m to)]> m.

Lemma presence_not_roster prefix a b : presence_key prefix a <> roster_key prefix b.
Proof. unfold presence_key, roster_key. intros E%str_app_inj. discriminate E. Qed.

Lemma presence_not_ticket prefix a b : presence_key prefix a <> ticket_key prefix b.
Proof. unfold presence_key, ticket_key. intros E%str_app_inj. discriminate E. Qed.

Lemma roster_not_ticket prefix a b : roster_key prefix a <> ticket_key prefix b.
Proof. unfold roster_key, ticket_key. intros E%str_app_inj. discriminate E. Qed.

Lemma presence_key_inj prefix a b : presence_key prefix a = presence_key prefix b -> a = b.
Proof. unfold presence_key. intros E%str_app_inj. by apply (str_app_inj ":presence:") in E. Qed.

Lemma ticket_key_inj prefix a b : 0 <= a < 2 ^ 64 -> 0 <= b < 2 ^ 64 -> ticket_key prefix a = ticket_key prefix b -> a = b.
Proof. unfold ticket_key. intros Ha Hb E%str_app_inj. apply (str_app_inj ":ticket:") in E. by apply to_string_inj. Qed.

Lemma hash_value m k : holds_hash (m !! k) -> default (VHash ∅) (m !! k) = VHash (hash_at m k).
Proof. unfold hash_at. by destruct (m !! k) as [[| |]|]. Qed.

Lemma set_value m k : holds_set (m !! k) -> default (VSet ∅) (m !! k) = VSet (set_at m k).
Proof. unfold set_at. by destruct (m !! k) as [[| |]|]. Qed.

Lemma put_set_lookup_ne k x m k' : k <> k' -> put_set k x m !! k' = m !! k'.
Proof. intros Hne. unfold put_set. destruct (decide (x = ∅)); [by rewrite lookup_delete_ne|by rewrite lookup_insert_ne]. Qed.

Lemma put_set_holds k x m k' : holds_set (m !! k') -> holds_set (put_set k x m !! k').
Proof.
  intros Hh. unfold put_set. destruct (decide (k = k')) as [<-|Hne].
  - destruct (decide (x = ∅)); [by rewrite lookup_delete_eq|by rewrite lookup_insert_eq].
  - destruct (decide (x = ∅)); [by rewrite lookup_delete_ne|by rewrite lookup_insert_ne].
Qed.

Section Updates.
Context (prefix : string) (m : gmap string RedisValue).

Lemma keys_ok_hash (player : string) (fields : gmap string string) : keys_ok prefix m -> keys_ok prefix (<[presence_key prefix player := VHash fields]> m).
Proof.
  intros [Hp Hr Ht]. split.
  - intros id. destruct (decide (presence_key prefix player = presence_key prefix id)) as [<-|Hne]; [by rewrite lookup_insert_eq|by rewrite lookup_insert_ne].
  - intros id. rewrite lookup_insert_ne by apply presence_not_roster. apply Hr.
  - intros id. rewrite lookup_insert_ne by apply presence_not_ticket. apply Ht.
Qed.

Lemma keys_ok_put_set (shard : string) (members : gset string) : keys_ok prefix m -> keys_ok prefix (put_set (roster_key prefix shard) members m).
Proof.
  intros [Hp Hr Ht]. split.
  - intros id. rewrite put_set_lookup_ne by (intros E; by apply (presence_not_roster prefix id shard)). apply Hp.
  - intros id. apply put_set_holds, Hr.
  - intros id. rewrite put_set_lookup_ne by apply roster_not_ticket. apply Ht.
Qed.

Lemma keys_ok_set (shard : string) (members : gset string) : keys_ok prefix m -> keys_ok prefix (<[roster_key prefix shard := VSet members]> m).
Proof.
  intros [Hp Hr Ht]. split.
  - intros id. rewrite lookup_insert_ne by (intros E; by apply (presence_not_roster prefix id shard)). apply Hp.
  - intros id. destruct (decide (roster_key prefix shard = roster_key prefix id)) as [<-|Hne]; [by rewrite lookup_insert_eq|by rewrite lookup_insert_ne].
  - intros id. rewrite lookup_insert_ne by apply roster_not_ticket. apply Ht.
Qed.

Lemma keys_ok_delete k : keys_ok prefix m -> keys_ok prefix (delete k m).
Proof.
  intros [Hp Hr Ht].
  split; intros id; [specialize (Hp id)|specialize (Hr id)|specialize (Ht id)];
    (match goal with |- _ (delete k m !! ?k') => destruct (decide (k = k')) as [<-|Hne]; [by rewrite lookup_delete_eq|by rewrite lookup_delete_ne] end).
Qed.
End Updates.

Create HintDb presence.
#[export] Hint Resolve keys_ok_hash keys_ok_put_set keys_ok_set keys_ok_delete : presence.

Lemma keys_ok_claimed prefix record now m : keys_ok prefix m -> keys_ok prefix (claimed prefix record now m).
Proof. intros Hk. unfold claimed. auto with presence. Qed.

Lemma keys_ok_transferred prefix player from_shard to_shard region now m : keys_ok prefix m ->
  keys_ok prefix (transferred prefix player from_shard to_shard region now m).
Proof. intros Hk. unfold transferred. auto with presence. Qed.

Lemma hash_at_insert m k fields : hash_at (<[k := VHash fields]> m) k = fields.
Proof. unfold hash_at. by rewrite lookup_insert_eq. Qed.

Lemma hash_at_other m k k' v : k <> k' -> hash_at (<[k' := v]> m) k = hash_at m k.
Proof. intros Hne. unfold hash_at. by rewrite lookup_insert_ne. Qed.

Lemma hash_at_put_set m k k' x : k <> k' -> hash_at (put_set k' x m) k = hash_at m k.
Proof. intros Hne. unfold hash_at. by rewrite put_set_lookup_ne. Qed.

Lemma set_at_other m k k' v : k <> k' -> set_at (<[k' := v]> m) k = set_at m k.
Proof. intros Hne. unfold set_at. by rewrite lookup_insert_ne. Qed.

Lemma set_at_insert m k members : set_at (<[k := VSet members]> m) k = members.
Proof. unfold set_at. by rewrite lookup_insert_eq. Qed.

Lemma owner_of_claimed prefix record now m : owner_of prefix (claimed prefix record now m) (pr_player_id record) = Some (pr_shard_id record).
Proof.
  unfold claimed, owner_of. rewrite hash_at_other, hash_at_insert by apply presence_not_roster.
  cbv [set_fields foldl fst snd]. rewrite !lookup_insert_ne by done. apply lookup_insert_eq.
Qed.

Lemma owner_of_transferred prefix player from_shard to_shard region now m :
  owner_of prefix (transferred prefix player from_shard to_shard region now m) player = Some to_shard.
Proof.
  unfold transferred, owner_of. rewrite hash_at_other, hash_at_put_set, hash_at_insert by apply presence_not_roster.
  cbv [set_fields foldl fst snd]. rewrite !lookup_insert_ne by done. apply lookup_insert_eq.
Qed.

(** ** The scripts against the server's laws *)
Section Server.
Context `{RedisLaws R}.

(** A command whose effect the laws give, inside a script. *)
Lemma redis_call_law (s : R) args m P (k : R -> RedisReply -> R * RedisReply) m' r' : executes s args m P ->
  (forall s' r, keyspace s' = m -> P r -> is_error r = false) ->
  (forall s' r, keyspace s' = m -> P r -> keyspace (fst (k s' r)) = m' /\ snd (k s' r) = r') ->
  keyspace (fst (redis_call call s args k)) = m' /\ snd (redis_call call s args k) = r'.
Proof.
  unfold executes, redis_call. destruct (call s args) as [s' r]. intros [Hm Hp] Hok Hk. rewrite (Hok s' r Hm Hp). by apply Hk.
Qed.

Lemma hget_law (s : R) prefix player : keys_ok prefix (keyspace s) ->
  executes s ["HGET"; presence_key prefix player; "shard"]%string (keyspace s)
    (fun r => r = match owner_of prefix (keyspace s) player with Some v => bulk_reply v | None => RedisReply_default end).
Proof.
  intros Hk. pose proof (call_hget s (presence_key prefix player) "shard") as Hl.
  rewrite hash_value in Hl by apply Hk. exact Hl.
Qed.

Lemma hset_law (s : R) prefix player l : keys_ok prefix (keyspace s) -> l <> [] ->
  executes s ("HSET" :: presence_key prefix player :: flatten_fields l)%string
    (<[presence_key prefix player := VHash (set_fields (hash_at (keyspace s) (presence_key prefix player)) l)]> (keyspace s))
    (fun r => is_error r = false).
Proof.
  intros Hk Hl. pose proof (call_hset s (presence_key prefix player) l Hl) as Hlaw.
  rewrite hash_value in Hlaw by apply Hk. exact Hlaw.
Qed.

Lemma sadd_law (s : R) prefix shard x : keys_ok prefix (keyspace s) ->
  executes s ["SADD"; roster_key prefix shard; x]%string
    (<[roster_key prefix shard := VSet ({[x]} ∪ set_at (keyspace s) (roster_key prefix shard))]> (keyspace s)) (fun r => is_error r = false).
Proof.
  intros Hk. pose proof (call_sadd s (roster_key prefix shard) x) as Hlaw. rewrite set_value in Hlaw by apply Hk. exact Hlaw.
Qed.

Lemma srem_law (s : R) prefix shard x : keys_ok prefix (keyspace s) ->
  executes s ["SREM"; roster_key prefix shard; x]%string
    (put_set (roster_key prefix shard) (set_at (keyspace s) (roster_key prefix shard) ∖ {[x]}) (keyspace s)) (fun r => is_error r = false).
Proof.
  intros Hk. pose proof (call_srem s (roster_key prefix shard) x) as Hlaw. rewrite set_value in Hlaw by apply Hk. exact Hlaw.
Qed.

Lemma lua_owner (o : option string) : lua_string (match o with Some v => bulk_reply v | None => RedisReply_default end) = o.
Proof. by destruct o. Qed.

Lemma owner_reply_ok (o : option string) : is_error (match o with Some v => bulk_reply v | None => RedisReply_default end) = false.
Proof. by destruct o. Qed.

#[local] Ltac step law := eapply redis_call_law; [law|by intros ? ? _ ?|]; intros ? ? ?Hm _.

Lemma claim_take_spec (s : R) prefix record ttl now : keys_ok prefix (keyspace s) -> 0 < ttl < 2 ^ 63 ->
  let run := claim_take call s [presence_key prefix (pr_player_id record); roster_key prefix (pr_shard_id record)]
    [pr_shard_id record; to_string (pr_region record); to_string (pr_session_token record); to_string now; to_string ttl; pr_player_id record] in
  keyspace (fst run) = claimed prefix record now (keyspace s) /\ snd run = integer_reply 1.
Proof.
  intros Hk Ht. cbv zeta. unfold claim_take. cbn [arg Nat.sub lookup list_lookup].
  assert (Hd : duration (to_string ttl)) by (by exists ttl).
  step ltac:(apply (hset_law s prefix _ [("shard", pr_shard_id record); ("region", to_string (pr_region record));
    ("session", to_string (pr_session_token record)); ("updated", to_string now)]%string Hk); discriminate).
  step ltac:(by apply call_pexpire). step ltac:(apply (sadd_law _ prefix); rewrite Hm0, Hm; auto with presence).
  step ltac:(by apply call_pexpire). split; [|done]. cbn [fst]. rewrite Hm2, Hm1, Hm0, Hm. unfold claimed.
  rewrite set_at_other; [done|]. intros E. by apply (presence_not_roster prefix (pr_player_id record) (pr_shard_id record)).
Qed.

Lemma transfer_move_spec (s : R) prefix player from_shard to_shard region ttl now : keys_ok prefix (keyspace s) -> 0 < ttl < 2 ^ 63 ->
  let run := transfer_move call s [presence_key prefix player; roster_key prefix from_shard; roster_key prefix to_shard]
    [from_shard; to_shard; to_string region; to_string now; to_string ttl; player] in
  keyspace (fst run) = transferred prefix player from_shard to_shard region now (keyspace s) /\ snd run = integer_reply 1.
Proof.
  intros Hk Ht. cbv zeta. unfold transfer_move. cbn [arg Nat.sub lookup list_lookup].
  assert (Hd : duration (to_string ttl)) by (by exists ttl).
  step ltac:(apply (hset_law s prefix _ [("shard", to_shard); ("region", to_string region); ("updated", to_string now)]%string Hk); discriminate).
  step ltac:(by apply call_pexpire). step ltac:(apply (srem_law _ prefix); rewrite Hm0, Hm; auto with presence).
  step ltac:(apply (sadd_law _ prefix); rewrite Hm1, Hm0, Hm; auto with presence).
  step ltac:(by apply call_pexpire). split; [|done]. cbn [fst]. by rewrite Hm3, Hm2, Hm1, Hm0, Hm.
Qed.

(** What a script does to the keyspace and replies. *)
Definition claim_outcome prefix record now (m : keyspace_map) : keyspace_map * RedisReply :=
  if may_take prefix m (pr_player_id record) (pr_shard_id record) then (claimed prefix record now m, integer_reply 1)
  else (m, bulk_reply (match owner_of prefix m (pr_player_id record) with Some o => o | None => EmptyString end)).

Definition transfer_outcome prefix player from_shard to_shard region now (m : keyspace_map) : keyspace_map * RedisReply :=
  if may_take prefix m player from_shard then (transferred prefix player from_shard to_shard region now m, integer_reply 1)
  else (m, integer_reply 0).

Lemma claim_call (s : R) prefix record ttl now : keys_ok prefix (keyspace s) -> 0 < ttl < 2 ^ 63 ->
  let '(s', r) := call s ["EVAL"; kClaimScript; "2"; presence_key prefix (pr_player_id record); roster_key prefix (pr_shard_id record);
    pr_shard_id record; to_string (pr_region record); to_string (pr_session_token record); to_string now; to_string ttl; pr_player_id record]%string in
  (keyspace s', r) = claim_outcome prefix record now (keyspace s).
Proof.
  intros Hk Ht. rewrite call_eval_claim. unfold claim_script, claim_outcome, may_take. cbn [arg Nat.sub lookup list_lookup].
  pose proof (hget_law s prefix (pr_player_id record) Hk) as Hg. unfold executes, redis_call in *. destruct (call s _) as [s1 r]. destruct Hg as [Hm ->].
  rewrite owner_reply_ok, lua_owner. rewrite <- Hm in Hk |- *. pose proof (claim_take_spec s1 prefix record ttl now Hk Ht) as Ht'. cbv zeta in Ht'.
  destruct (claim_take call s1 _ _) as [s2 r2]. cbn [fst snd] in Ht'. destruct Ht' as [Hm2 ->].
  destruct (owner_of prefix (keyspace s1) (pr_player_id record)) as [current|]; [|by rewrite Hm2].
  destruct (current =? pr_shard_id record)%string; cbn [negb]; [by rewrite Hm2|done].
Qed.

Lemma transfer_call (s : R) prefix player from_shard to_shard region ttl now : keys_ok prefix (keyspace s) -> 0 < ttl < 2 ^ 63 ->
  let '(s', r) := call s ["EVAL"; kTransferScript; "3"; presence_key prefix player; roster_key prefix from_shard; roster_key prefix to_shard;
    from_shard; to_shard; to_string region; to_string now; to_string ttl; player]%string in
  (keyspace s', r) = transfer_outcome prefix player from_shard to_shard region now (keyspace s).
Proof.
  intros Hk Ht. rewrite call_eval_transfer. unfold transfer_script, transfer_outcome, may_take. cbn [arg Nat.sub lookup list_lookup].
  pose proof (hget_law s prefix player Hk) as Hg. unfold executes, redis_call in *. destruct (call s _) as [s1 r]. destruct Hg as [Hm ->].
  rewrite owner_reply_ok, lua_owner. rewrite <- Hm in Hk |- *.
  pose proof (transfer_move_spec s1 prefix player from_shard to_shard region ttl now Hk Ht) as Ht'. cbv zeta in Ht'.
  destruct (transfer_move call s1 _ _) as [s2 r2]. cbn [fst snd] in Ht'. destruct Ht' as [Hm2 ->].
  destruct (owner_of prefix (keyspace s1) player) as [current|]; [|by rewrite Hm2].
  destruct (current =? from_shard)%string; cbn [negb]; [by rewrite Hm2|done].
Qed.
End Server.

(** ** Repeated claims and transfers *)
Fixpoint last_value (k : string) (l : list (string * string)) : option string :=
  match l with
  | [] => None
  | (f, v) :: l => match last_value k l with Some x => Some x | None => if decide (f = k) then Some v else None end
  end.

Lemma set_fields_lookup l : forall fields k, set_fields fields l !! k = match last_value k l with Some v => Some v | None => fields !! k end.
Proof.
  induction l as [|[f v] l IH]; intros fields k; [done|]. change (set_fields fields ((f, v) :: l)) with (set_fields (<[f := v]> fields) l).
  rewrite IH. cbn [last_value]. destruct (last_value k l); [done|].
  destruct (decide (f = k)) as [->|Hne]; [apply lookup_insert_eq|by apply lookup_insert_ne].
Qed.

Lemma set_fields_twice fields l : set_fields (set_fields fields l) l = set_fields fields l.
Proof. apply map_eq. intros k. rewrite !set_fields_lookup. by destruct (last_value k l). Qed.

Lemma claimed_twice prefix record now m : claimed prefix record now (claimed prefix record now m) = claimed prefix record now m.
Proof.
  unfold claimed. set (key := presence_key prefix _). set (roster := roster_key prefix _). set (l := [_; _; _; _]).
  assert (Hne : key <> roster) by apply presence_not_roster.
  rewrite set_at_insert, (hash_at_other _ key roster) by done. rewrite hash_at_insert, set_fields_twice.
  set (fields := VHash (set_fields _ l)). set (members := {[_]} ∪ set_at m roster).
  assert (Hmem : {[pr_player_id record]} ∪ members = members) by (subst members; rewrite (assoc_L (∪)), (idemp_L (∪)); reflexivity). rewrite Hmem.
  rewrite (insert_insert_ne _ roster key), insert_insert_eq by done.
  rewrite (insert_insert_ne _ key roster) by done. by rewrite insert_insert_eq.
Qed.

Lemma owner_of_other prefix record now m player : player <> pr_player_id record ->
  owner_of prefix (claimed prefix record now m) player = owner_of prefix m player.
Proof.
  intros Hne. unfold claimed, owner_of. rewrite hash_at_other by apply presence_not_roster.
  rewrite hash_at_other; [done|]. by intros E%presence_key_inj.
Qed.

Lemma owner_of_untransferred prefix player from_shard to_shard region now m other : other <> player ->
  owner_of prefix (transferred prefix player from_shard to_shard region now m) other = owner_of prefix m other.
Proof.
  intros Hne. unfold transferred, owner_of. rewrite hash_at_other, hash_at_put_set by apply presence_not_roster.
  rewrite hash_at_other; [done|]. by intros E%presence_key_inj.
Qed.

(** ** Claims and transfers over the transport *)
Section Directory.
Context `{RedisLaws R} (prefix : string).

Lemma claim_effect record ttl now : 0 < ttl < 2 ^ 63 ->
  has_effect (R:=R) (keys_ok prefix) ["EVAL"; kClaimScript; "2"; presence_key prefix (pr_player_id record); roster_key prefix (pr_shard_id record);
    pr_shard_id record; to_string (pr_region record); to_string (pr_session_token record); to_string now; to_string ttl; pr_player_id record]%string
    (claim_outcome prefix record now).
Proof.
  intros Ht s Hk. split; [exact (claim_call s prefix record ttl now Hk Ht)|]. unfold claim_outcome.
  destruct (may_take _ _ _ _); cbn [fst]; [by apply keys_ok_claimed|done].
Qed.

Lemma transfer_effect player from_shard to_shard region ttl now : 0 < ttl < 2 ^ 63 ->
  has_effect (R:=R) (keys_ok prefix) ["EVAL"; kTransferScript; "3"; presence_key prefix player; roster_key prefix from_shard; roster_key prefix to_shard;
    from_shard; to_shard; to_string region; to_string now; to_string ttl; player]%string
    (transfer_outcome prefix player from_shard to_shard region now).
Proof.
  intros Ht s Hk. split; [exact (transfer_call s prefix player from_shard to_shard region ttl now Hk Ht)|]. unfold transfer_outcome.
  destruct (may_take _ _ _ _); cbn [fst]; [by apply keys_ok_transferred|done].
Qed.

Lemma may_take_claimed record now m : may_take prefix (claimed prefix record now m) (pr_player_id record) (pr_shard_id record) = true.
Proof. unfold may_take. rewrite owner_of_claimed. apply String.eqb_refl. Qed.

Lemma claim_outcome_twice record now m : fst (claim_outcome prefix record now (fst (claim_outcome prefix record now m))) = fst (claim_outcome prefix record now m).
Proof.
  unfold claim_outcome at 2 3. destruct (may_take _ m _ _) eqn:E; cbn [fst]; unfold claim_outcome.
  - rewrite may_take_claimed. apply claimed_twice.
  - by rewrite E.
Qed.

Lemma transfer_outcome_twice player from_shard to_shard region now m : from_shard <> to_shard ->
  transfer_outcome prefix player from_shard to_shard region now (fst (transfer_outcome prefix player from_shard to_shard region now m)) =
  (fst (transfer_outcome prefix player from_shard to_shard region now m), integer_reply 0).
Proof.
  intros Hne. unfold transfer_outcome at 2 3. destruct (may_take _ m _ _) eqn:E; cbn [fst]; unfold transfer_outcome.
  - unfold may_take. rewrite owner_of_transferred. by destruct (String.eqb_spec to_shard from_shard).
  - by rewrite E.
Qed.

Lemma claim_outcome_case record now m : let e := claim_outcome prefix record now in
  let player := pr_player_id record in let shard := pr_shard_id record in
  (may_take prefix m player shard = true /\ fst (e m) = claimed prefix record now m /\ snd (e m) = integer_reply 1 /\ snd (e (fst (e m))) = integer_reply 1) \/
  (exists o, may_take prefix m player shard = false /\ owner_of prefix m player = Some o /\ o <> shard /\
     fst (e m) = m /\ snd (e m) = bulk_reply o /\ snd (e (fst (e m))) = bulk_reply o).
Proof.
  cbv zeta. unfold claim_outcome. destruct (may_take prefix m _ _) eqn:E; cbn [fst snd].
  - left. rewrite may_take_claimed. done.
  - right. rewrite E. unfold may_take in E. destruct (owner_of prefix m (pr_player_id record)) as [o|]; [|done].
    exists o. split; [done|]. split; [done|]. split; [|done]. by destruct (String.eqb_spec o (pr_shard_id record)).
Qed.

Lemma transfer_outcome_case player from_shard to_shard region now m : from_shard <> to_shard ->
  let e := transfer_outcome prefix player from_shard to_shard region now in
  snd (e (fst (e m))) = integer_reply 0 /\
  ((may_take prefix m player from_shard = true /\ fst (e m) = transferred prefix player from_shard to_shard region now m /\ snd (e m) = integer_reply 1) \/
   (may_take prefix m player from_shard = false /\ fst (e m) = m /\ snd (e m) = integer_reply 0)).
Proof.
  intros Hne. cbv zeta. rewrite transfer_outcome_twice by done. split; [done|]. unfold transfer_outcome.
  destruct (may_take prefix m player from_shard); [by left|by right].
Qed.

(** One command through the client. *)
Lemma registry_flush_one (g : ClusterRegistry R) args (e : effect) : queued_ g = [] ->
  has_effect (R:=R) (keys_ok (prefix_ g)) args e -> keys_ok (prefix_ g) (keyspace (redis_ g)) ->
  (forall m, fst (e (fst (e m))) = fst (e m)) ->
  let m := keyspace (redis_ g) in
  let answered := head (snd (attempts (redis_ g))) = Some Completed in
  let '(g', out) := registry_flush (registry_queue g args) in
  queued_ g' = [] /\ prefix_ g' = prefix_ g /\ keys_ok (prefix_ g) (keyspace (redis_ g')) /\
  match out with
  | Some rs => exists r, rs = [r] /\ keyspace (redis_ g') = fst (e m) /\ (r = snd (e m) \/ r = snd (e (fst (e m))) /\ ~ answered)
  | None => (keyspace (redis_ g') = m \/ keyspace (redis_ g') = fst (e m)) /\ ~ answered
  end.
Proof.
  intros Hq He Hk Htwice. cbv zeta. unfold registry_flush, registry_queue. rewrite Hq. cbn [redis_ prefix_ queued_ app].
  pose proof (flush_refines (keys_ok (prefix_ g)) (redis_ g) [args] [e] ltac:(done) ltac:(by constructor) Hk) as [E Hi].
  pose proof (deliver_one (snd (attempts (redis_ g))) (keyspace (redis_ g)) e Htwice) as Hd.
  destruct (flush_commands (redis_ g) [args]) as [s' out]. rewrite <- E in *. cbn [fst] in Hi. done.
Qed.

Lemma registry_command_one (g : ClusterRegistry R) args (e : effect) : queued_ g = [] ->
  has_effect (R:=R) (keys_ok (prefix_ g)) args e -> keys_ok (prefix_ g) (keyspace (redis_ g)) ->
  (forall m, fst (e (fst (e m))) = fst (e m)) ->
  let m := keyspace (redis_ g) in
  let answered := head (snd (attempts (redis_ g))) = Some Completed in
  let '(g', r) := registry_command g args in
  queued_ g' = [] /\ prefix_ g' = prefix_ g /\ keys_ok (prefix_ g) (keyspace (redis_ g')) /\
  ((keyspace (redis_ g') = fst (e m) /\ (r = snd (e m) \/ r = snd (e (fst (e m))) /\ ~ answered)) \/
   (is_error r = true /\ (keyspace (redis_ g') = m \/ keyspace (redis_ g') = fst (e m)) /\ ~ answered)).
Proof.
  intros Hq He Hk Htwice. cbv zeta. unfold registry_command. pose proof (registry_flush_one g args e Hq He Hk Htwice) as Hf. cbv zeta in Hf.
  destruct (registry_flush _) as [g' [rs|]]; destruct Hf as (Hq' & Hp & Hk' & Hf).
  - destruct Hf as (r & -> & Hm & Hr). by do 3 (split; [done|]); left.
  - do 3 (split; [done|]). by right.
Qed.
End Directory.

#[local] Ltac parts := repeat match goal with
  | |- _ /\ _ => split
  | |- forall _, _ => intro
  | H : Some _ = Some _ |- _ => injection H as <-
  end; auto; try done; try congruence.

(** ** Claims and transfers through the client *)
Section Compare.
Context `{RedisLaws R}.

Lemma claim_presence_spec (g : ClusterRegistry R) (record : PresenceRecord) (ttl now : Z) :
  queued_ g = [] -> keys_ok (prefix_ g) (keyspace (redis_ g)) -> 0 < ttl < 2 ^ 63 ->
  let m := keyspace (redis_ g) in
  let player := pr_player_id record in
  let shard := pr_shard_id record in
  let answered := head (snd (attempts (redis_ g))) = Some Completed in
  (let '(g', ok, other) := claim_presence g record ttl now in
   let m' := keyspace (redis_ g') in
   keys_ok (prefix_ g) m' /\
   (ok = true -> may_take (prefix_ g) m player shard = true /\ m' = claimed (prefix_ g) record now m /\ owner_of (prefix_ g) m' player = Some shard) /\
   (forall o, other = Some o -> ok = false /\ m' = m /\ owner_of (prefix_ g) m player = Some o /\ o <> shard) /\
   (m' = m \/ may_take (prefix_ g) m player shard = true /\ m' = claimed (prefix_ g) record now m) /\
   (forall q, q <> player -> owner_of (prefix_ g) m' q = owner_of (prefix_ g) m q) /\
   (answered -> ok = may_take (prefix_ g) m player shard)).
Proof.
  intros Hq Hk Ht. cbv zeta. set (m := keyspace (redis_ g)). set (p := prefix_ g). set (player := pr_player_id record). set (shard := pr_shard_id record).
  unfold claim_presence.
  pose proof (registry_command_one g _ _ Hq (claim_effect p record ttl now Ht) Hk (claim_outcome_twice p record now)) as Hc. cbv zeta in Hc.
  fold p m player shard in Hc |- *. destruct (registry_command g _) as [g' r]. destruct Hc as (_ & _ & Hk' & Hc).
  pose proof (fun q => owner_of_other p record now m q) as Hother. pose proof (owner_of_claimed p record now m) as Hown.
  pose proof (claim_outcome_case p record now m) as Hcase. cbv zeta in Hcase. fold player shard in Hown, Hcase, Hother.
  destruct Hcase as [(Em & Ef & Es & Ea)|(o & Em & Eo & Hos & Ef & Es & Ea)]; rewrite ?Ea, ?Ef, ?Es in Hc.
  + destruct Hc as [(Hm & Hr)|(He & Hm & Hans)].
    * assert (r = integer_reply 1) as -> by (destruct Hr as [|[]]; done).
      change (is_error (integer_reply 1)) with false. change (is_one (integer_reply 1)) with true. cbv iota. rewrite Hm, Em in *; parts.
    * rewrite He. destruct Hm as [Hm|Hm]; rewrite Hm, Em in *; parts.
  + assert (Hm : keyspace (redis_ g') = m) by (destruct Hc as [[]|(_ & [] & _)]; done).
    destruct Hc as [(_ & Hr)|(He & _ & Hans)].
    * assert (r = bulk_reply o) as -> by (destruct Hr as [|[]]; done).
      change (is_error (bulk_reply o)) with false. change (is_one (bulk_reply o)) with false. cbv iota. rewrite Hm, Em in *; parts.
    * rewrite He, Hm, Em in *; parts.
Qed.

Lemma transfer_presence_spec (g : ClusterRegistry R) (record : PresenceRecord) (from_shard : string) (ttl now : Z) :
  queued_ g = [] -> keys_ok (prefix_ g) (keyspace (redis_ g)) -> 0 < ttl < 2 ^ 63 -> from_shard <> pr_shard_id record ->
  let m := keyspace (redis_ g) in
  let player := pr_player_id record in
  let shard := pr_shard_id record in
  let answered := head (snd (attempts (redis_ g))) = Some Completed in
  (let '(g', ok) := transfer_presence g player from_shard shard (pr_region record) ttl now in
   let m' := keyspace (redis_ g') in
   keys_ok (prefix_ g) m' /\
   (ok = true -> may_take (prefix_ g) m player from_shard = true /\ m' = transferred (prefix_ g) player from_shard shard (pr_region record) now m /\
      owner_of (prefix_ g) m' player = Some shard) /\
   (m' = m \/ may_take (prefix_ g) m player from_shard = true /\ m' = transferred (prefix_ g) player from_shard shard (pr_region record) now m) /\
   (forall q, q <> player -> owner_of (prefix_ g) m' q = owner_of (prefix_ g) m q) /\
   (answered -> ok = may_take (prefix_ g) m player from_shard)).
Proof.
  intros Hq Hk Ht Hne. cbv zeta. set (m := keyspace (redis_ g)). set (p := prefix_ g). set (player := pr_player_id record). set (shard := pr_shard_id record).
  unfold transfer_presence, queue_transfer_presence.
  pose proof (registry_flush_one g _ _ Hq (transfer_effect p player from_shard shard (pr_region record) ttl now Ht) Hk) as Hc. cbv zeta in Hc.
  fold p m in Hc |- *. pose proof (fun q => owner_of_untransferred p player from_shard shard (pr_region record) now m q) as Hother.
  pose proof (owner_of_transferred p player from_shard shard (pr_region record) now m) as Hown.
  destruct (transfer_outcome_case p player from_shard shard (pr_region record) now m Hne) as (Ea & Hcase). rewrite Ea in Hc.
  destruct (registry_flush _) as [g' out].
  destruct Hc as (_ & _ & Hk' & Hc); [intros m1; by rewrite transfer_outcome_twice|].
  destruct Hcase as [(Em & Ef & Es)|(Em & Ef & Es)]; rewrite ?Ef, ?Es in Hc.
  + destruct out as [rs|]; [destruct Hc as (r & -> & Hm & [->|[-> Hans]])|destruct Hc as ([Hm|Hm] & Hans)];
      try change (is_one (integer_reply 1)) with true; try change (is_one (integer_reply 0)) with false; cbv iota; rewrite Hm, Em in *; parts.
  + destruct out as [rs|]; [destruct Hc as (r & -> & Hm & [->|[-> Hans]])|destruct Hc as ([Hm|Hm] & Hans)];
      try change (is_one (integer_reply 1)) with true; try change (is_one (integer_reply 0)) with false; cbv iota; rewrite Hm, Em in *; parts.
Qed.
End Compare.

(** ** Presence records under every operation *)
Section Records.
Context `{FloatText} `{RedisLaws R} (prefix : string).

(** The types of the keys, and something about each player's record. *)
Definition records (f : string -> gmap string string -> Prop) (m : keyspace_map) : Prop :=
  keys_ok prefix m /\ forall player, f player (hash_at m (presence_key prefix player)).

Lemma members_not_presence id : presence_key prefix id <> members_key prefix.
Proof. unfold presence_key, members_key. intros E%str_app_inj. discriminate E. Qed.

Lemma members_not_roster id : roster_key prefix id <> members_key prefix.
Proof. unfold roster_key, members_key. intros E%str_app_inj. discriminate E. Qed.

Lemma members_not_ticket token : ticket_key prefix token <> members_key prefix.
Proof. unfold ticket_key, members_key. intros E%str_app_inj. discriminate E. Qed.

Lemma keys_ok_members (members : gset string) m : keys_ok prefix m -> keys_ok prefix (put_set (members_key prefix) members m).
Proof.
  intros [Hp Hr Ht]. split; intros id; rewrite put_set_lookup_ne; auto; intros E; symmetry in E; revert E.
  - apply members_not_presence.
  - apply members_not_roster.
  - apply members_not_ticket.
Qed.

Lemma records_put_set f k members m : (forall id, presence_key prefix id <> k) -> keys_ok prefix (put_set k members m) -> records f m -> records f (put_set k members m).
Proof. intros Hne Hk [_ Hf]. split; [done|]. intros player. by rewrite hash_at_put_set. Qed.

Lemma srem_stable f k x : (forall m members, keys_ok prefix m -> keys_ok prefix (put_set k members m)) -> (forall id, presence_key prefix id <> k) ->
  stable (R:=R) (records f) ["SREM"; k; x]%string.
Proof.
  intros Hk Hne s Hs. pose proof (call_srem s k x) as Hl. unfold executes in Hl. destruct (call s _) as [s' r].
  destruct (default _ _) as [| |members]; destruct Hl as [Hm _]; cbn [fst]; rewrite Hm; [done|done|].
  apply records_put_set; [done| |done]. apply Hk, Hs.
Qed.

Lemma srem_roster_stable f shard x : stable (R:=R) (records f) ["SREM"; roster_key prefix shard; x]%string.
Proof. apply srem_stable; [intros m members Hk; by apply keys_ok_put_set|intros id; apply presence_not_roster]. Qed.

Lemma srem_members_stable f x : stable (R:=R) (records f) ["SREM"; members_key prefix; x]%string.
Proof. apply srem_stable; [intros m members Hk; by apply keys_ok_members|apply members_not_presence]. Qed.

Lemma sadd_roster_stable f shard x : stable (R:=R) (records f) ["SADD"; roster_key prefix shard; x]%string.
Proof.
  intros s [Hk Hf]. pose proof (sadd_law s prefix shard x Hk) as Hl. unfold executes in Hl. destruct (call s _) as [s' r].
  destruct Hl as [Hm _]. cbn [fst]. rewrite Hm. split; [by apply keys_ok_set|]. intros player. rewrite hash_at_other; [done|]. apply presence_not_roster.
Qed.

Lemma del_roster_stable f shard : stable (R:=R) (records f) ["DEL"; roster_key prefix shard]%string.
Proof.
  intros s [Hk Hf]. pose proof (call_del s (roster_key prefix shard)) as Hl. unfold executes in Hl. destruct (call s _) as [s' r].
  destruct Hl as [Hm _]. cbn [fst]. rewrite Hm. split; [by apply keys_ok_delete|]. intros player. unfold hash_at.
  rewrite lookup_delete_ne; [apply Hf|]. intros E. by apply (presence_not_roster prefix player shard).
Qed.

Lemma del_presence_stable f player : f player ∅ -> stable (R:=R) (records f) ["DEL"; presence_key prefix player]%string.
Proof.
  intros He s [Hk Hf]. pose proof (call_del s (presence_key prefix player)) as Hl. unfold executes in Hl. destruct (call s _) as [s' r].
  destruct Hl as [Hm _]. cbn [fst]. rewrite Hm. split; [by apply keys_ok_delete|]. intros q. unfold hash_at.
  destruct (decide (player = q)) as [<-|Hne]; [by rewrite lookup_delete_eq|].
  rewrite lookup_delete_ne; [apply Hf|]. by intros E%presence_key_inj.
Qed.

Lemma hset_presence_stable f player l : l <> [] -> (forall fields, f player fields -> f player (set_fields fields l)) ->
  stable (R:=R) (records f) ("HSET" :: presence_key prefix player :: flatten_fields l)%string.
Proof.
  intros Hl He s [Hk Hf]. pose proof (hset_law s prefix player l Hk Hl) as Hlaw. unfold executes in Hlaw. destruct (call s _) as [s' r].
  destruct Hlaw as [Hm _]. cbn [fst]. rewrite Hm. split; [by apply keys_ok_hash|]. intros q.
  destruct (decide (player = q)) as [<-|Hne]; [rewrite hash_at_insert; by apply He|].
  rewrite hash_at_other; [apply Hf|]. intros E. apply Hne. symmetry. by apply (presence_key_inj prefix).
Qed.

Lemma registry_flush_stable Q (g : ClusterRegistry R) : Forall (stable (R:=R) Q) (queued_ g) -> Q (keyspace (redis_ g)) ->
  let g' := fst (registry_flush g) in Q (keyspace (redis_ g')) /\ queued_ g' = [] /\ prefix_ g' = prefix_ g.
Proof.
  intros Hc Hs. unfold registry_flush. pose proof (flush_stable Q (queued_ g) (redis_ g) Hc Hs) as Hf.
  by destruct (flush_commands (redis_ g) (queued_ g)).
Qed.

Lemma registry_command_stable Q (g : ClusterRegistry R) args : queued_ g = [] -> stable (R:=R) Q args -> Q (keyspace (redis_ g)) ->
  let g' := fst (registry_command g args) in Q (keyspace (redis_ g')) /\ queued_ g' = [] /\ prefix_ g' = prefix_ g.
Proof.
  intros Hq Hc Hs. unfold registry_command.
  pose proof (registry_flush_stable Q (registry_queue g args)) as Hf. cbv zeta in Hf. destruct Hf as (F1 & F2 & F3).
  - unfold registry_queue. cbn [queued_]. rewrite Hq. by repeat constructor.
  - done.
  - destruct (registry_flush _) as [g' [[|r rs]|]]; done.
Qed.

Lemma registry_queue_all (cmds : string -> string -> list (list string)) ids : forall g : ClusterRegistry R,
  let g' := foldl (fun g id => foldl registry_queue g (cmds (prefix_ g) id)) g ids in
  redis_ g' = redis_ g /\ prefix_ g' = prefix_ g /\ queued_ g' = queued_ g ++ (ids ≫= cmds (prefix_ g)).
Proof.
  assert (Hone : forall l (g : ClusterRegistry R), redis_ (foldl registry_queue g l) = redis_ g /\ prefix_ (foldl registry_queue g l) = prefix_ g /\
    queued_ (foldl registry_queue g l) = queued_ g ++ l).
  { induction l as [|c l IH]; intros g0; [by rewrite app_nil_r|]. cbn [foldl]. destruct (IH (registry_queue g0 c)) as (-> & -> & ->).
    split; [done|]. split; [done|]. cbn [registry_queue queued_]. by rewrite <- app_assoc. }
  induction ids as [|id ids IH]; intros g; [by rewrite app_nil_r|]. cbn [foldl].
  destruct (IH (foldl registry_queue g (cmds (prefix_ g) id))) as (-> & -> & ->). destruct (Hone (cmds (prefix_ g) id) g) as (-> & -> & ->).
  split; [done|]. split; [done|]. by rewrite <- app_assoc.
Qed.

(** Queueing and flushing one batch per id. *)
Lemma flush_all_stable Q (cmds : string -> string -> list (list string)) ids (g : ClusterRegistry R) : queued_ g = [] ->
  (forall id, Forall (stable (R:=R) Q) (cmds (prefix_ g) id)) -> Q (keyspace (redis_ g)) ->
  let g' := fst (registry_flush (foldl (fun g id => foldl registry_queue g (cmds (prefix_ g) id)) g ids)) in
  Q (keyspace (redis_ g')) /\ queued_ g' = [] /\ prefix_ g' = prefix_ g.
Proof.
  intros Hq Hc Hs. destruct (registry_queue_all cmds ids g) as (E1 & E2 & E3). cbv zeta in *. rewrite Hq in E3.
  pose proof (registry_flush_stable Q (foldl (fun g id => foldl registry_queue g (cmds (prefix_ g) id)) g ids)) as Hf. cbv zeta in Hf.
  rewrite E1, E2, E3 in Hf. apply Hf; [|done]. clear -Hc. induction ids as [|id ids IH]; [constructor|]. cbn. by apply Forall_app.
Qed.

Lemma live_shards_records f (g : ClusterRegistry R) : prefix_ g = prefix -> queued_ g = [] -> records f (keyspace (redis_ g)) ->
  let g' := fst (fst (live_shards g)) in records f (keyspace (redis_ g')) /\ queued_ g' = [] /\ prefix_ g' = prefix.
Proof.
  intros Hp Hq Hs. cbv zeta. unfold live_shards.
  pose proof (registry_command_stable (records f) g _ Hq (read_stable (R:=R) _ _ (fun s => smembers_keeps s (members_key (prefix_ g)))) Hs) as Hc. cbv zeta in Hc.
  destruct (registry_command g _) as [g1 r]. cbn [fst] in Hc. destruct Hc as (Hs1 & Hq1 & Hp1).
  destruct (is_filled_array r); cbn [negb]; [|by rewrite <- Hp]. set (ids := rr_str <$> rr_elements r).
  pose proof (flush_all_stable (records f) (fun p id => [["HGETALL"; shard_key p id]%string]) ids g1 Hq1
    ltac:(intros id; apply list.Forall_singleton, read_stable; intros s; apply hgetall_keeps) Hs1) as Hf. cbv zeta in Hf. cbn [foldl] in Hf.
  destruct (registry_flush _) as [g2 out]. cbn [fst] in Hf. destruct Hf as (Hs2 & Hq2 & Hp2).
  assert (Ep : prefix_ g2 = prefix) by (by rewrite Hp2, Hp1). destruct out as [hashes|]; [|done]. destruct (_ =? _)%nat; cbn [negb fst]; [|done].
  unfold prune. destruct (dead_of ids hashes) as [|dead_id dead]; [done|].
  pose proof (flush_all_stable (records f) (fun p id => [["SREM"; members_key p; id]%string; ["DEL"; roster_key p id]%string]) (dead_id :: dead) g2 Hq2) as Hf.
  rewrite <- Ep. apply Hf; [|done]. intros id. rewrite Ep. cbv beta.
  apply Forall_cons_2; [apply srem_members_stable|apply list.Forall_singleton, del_roster_stable].
Qed.

Lemma field_lookup l (fields : gmap string string) name : l ≡ₚ map_to_list fields ->
  field (bulk_reply <$> flatten_fields l) name = default EmptyString (fields !! name).
Proof.
  intros Hl. assert (Hnd : NoDup l.*1) by (rewrite Hl; apply NoDup_fst_map_to_list).
  assert (Hin : forall v, (name, v) ∈ l <-> fields !! name = Some v) by (intros v; by rewrite Hl, elem_of_map_to_list).
  clear Hl. revert fields Hin. induction l as [|[k v] l IH]; intros fields Hin.
  - cbn. destruct (fields !! name) as [v|]; [|done]. by pose proof (proj2 (Hin v) eq_refl) as []%elem_of_nil.
  - rewrite fmap_cons in Hnd. apply NoDup_cons in Hnd as [Hk Hnd]. change (flatten_fields ((k, v) :: l)) with (k :: v :: flatten_fields l).
    rewrite !fmap_cons. cbn [field rr_str bulk_reply]. destruct (String.eqb_spec k name) as [->|Hne].
    + by rewrite (proj1 (Hin v) (list_elem_of_here _ _)).
    + rewrite (IH Hnd (delete k fields)).
      * by rewrite lookup_delete_ne.
      * intros x. rewrite lookup_delete_ne by done. rewrite <- Hin, elem_of_cons. split; [by right|]. by intros [[= ? ?]|].
Qed.

(** Reading a record changes nothing, and an answer is the record itself. *)
Lemma get_presence_reads (g : ClusterRegistry R) player : prefix_ g = prefix -> queued_ g = [] -> keys_ok prefix (keyspace (redis_ g)) ->
  let '(g', out) := get_presence g player in
  let fields := hash_at (keyspace (redis_ g)) (presence_key prefix player) in
  let text name := default EmptyString (fields !! name) in
  keyspace (redis_ g') = keyspace (redis_ g) /\ queued_ g' = [] /\ prefix_ g' = prefix /\
  forall r, out = Some r -> pr_player_id r = player /\ pr_shard_id r = text "shard"%string /\
    pr_region r = u32 (strtoull (text "region"%string)) /\ pr_session_token r = strtoull (text "session"%string).
Proof.
  intros Hp Hq Hk. unfold get_presence. rewrite Hp. set (m := keyspace (redis_ g)). set (fields := hash_at m (presence_key prefix player)).
  pose proof (read_stable (R:=R) (eq m) _ (fun s => hgetall_keeps s (presence_key prefix player))) as Hstable.
  pose proof (registry_command_stable (eq m) g _ Hq Hstable eq_refl) as Hc. cbv zeta in Hc.
  assert (Hr : let r := snd (registry_command g ["HGETALL"; presence_key prefix player]%string) in
    is_error r = true \/ exists l, l ≡ₚ map_to_list fields /\ r = array_reply (bulk_reply <$> flatten_fields l)).
  { unfold registry_command, registry_flush, registry_queue. cbn [queued_ redis_]. rewrite Hq. cbn [app].
    pose proof (flush_reply (eq m) ["HGETALL"; presence_key prefix player]%string
      (fun r => exists l, l ≡ₚ map_to_list fields /\ r = array_reply (bulk_reply <$> flatten_fields l)) (redis_ g)) as Hf.
    destruct (flush_commands (redis_ g) _) as [s' [[|r rs]|]]; cbn [snd] in *; [by left| |by left].
    destruct (Hf (r :: rs) Hstable) as (r' & E & Hr); [|done|done|].
    - intros s Es. pose proof (call_hgetall s (presence_key prefix player)) as Hl. unfold executes in Hl. rewrite <- Es in Hl.
      rewrite hash_value in Hl by apply Hk. fold fields in Hl. destruct (call s _) as [s1 r1]. by destruct Hl.
    - injection E as -> _. by right. }
  destruct (registry_command g _) as [g' r]. cbn [fst snd] in *. destruct Hc as (Hm & Hq' & Hp'). rewrite Hp in Hp'.
  split; [done|]. split; [done|]. split; [done|]. destruct Hr as [He|(l & Hl & ->)].
  - unfold is_filled_array. unfold is_error in He. apply bool_decide_eq_true in He. rewrite He. by rewrite (bool_decide_eq_false_2 (kError = kArray)).
  - destruct (is_filled_array _); [|done]. intros r [= <-]. unfold parse_presence. cbn [pr_player_id pr_shard_id pr_region pr_session_token rr_elements array_reply].
    assert (Hu : forall name, field_u64 (bulk_reply <$> flatten_fields l) name = strtoull (default EmptyString (fields !! name))).
    { intros name. unfold field_u64. rewrite (field_lookup l fields) by done. by destruct (String.eqb_spec (default EmptyString (fields !! name)) "") as [->|]. }
    rewrite !Hu, (field_lookup l fields) by done. done.
Qed.

Lemma clear_presence_records (f f' : string -> gmap string string -> Prop) (g : ClusterRegistry R) player :
  (forall q fields, f q fields -> f' q fields) -> f' player ∅ -> prefix_ g = prefix -> queued_ g = [] -> records f (keyspace (redis_ g)) ->
  let g' := fst (clear_presence g player) in records f' (keyspace (redis_ g')) /\ queued_ g' = [] /\ prefix_ g' = prefix.
Proof.
  intros Hff He Hp Hq [Hk Hf]. cbv zeta. unfold clear_presence. pose proof (get_presence_reads g player Hp Hq Hk) as Hg. cbv zeta in Hg.
  destruct (get_presence g player) as [g1 out]. destruct Hg as (Hm & Hq1 & Hp1 & _).
  assert (Hs : records f' (keyspace (redis_ g1))) by (rewrite Hm; split; [done|]; intros q; by apply Hff).
  set (g2 := match out with Some record => _ | None => g1 end).
  assert (E : redis_ g2 = redis_ g1 /\ prefix_ g2 = prefix /\ Forall (stable (R:=R) (records f')) (queued_ g2)).
  { subst g2. destruct out as [record|]; [|by rewrite Hq1]. destruct (pr_shard_id record =? "")%string; [by rewrite Hq1|].
    cbn [registry_queue redis_ prefix_ queued_]. rewrite Hq1, Hp1. split; [done|]. split; [done|]. apply list.Forall_singleton, srem_roster_stable. }
  destruct E as (E1 & E2 & E3).
  pose proof (registry_flush_stable (records f') (registry_queue g2 ["DEL"; presence_key (prefix_ g2) player]%string)) as Hfl. cbv zeta in Hfl.
  cbn [registry_queue queued_ redis_ prefix_] in Hfl. rewrite E1, E2 in Hfl. rewrite E2.
  destruct (registry_flush _) as [g3 o]. cbn [fst] in *. apply Hfl; [|done]. apply Forall_app. split; [done|]. by apply list.Forall_singleton, del_presence_stable.
Qed.

Lemma set_presence_records f (g : ClusterRegistry R) record ttl now : 0 < ttl < 2 ^ 63 -> prefix_ g = prefix -> queued_ g = [] ->
  (forall fields, f (pr_player_id record) fields -> f (pr_player_id record) (set_fields fields [("shard", pr_shard_id record); ("region", to_string (pr_region record));
     ("session", to_string (pr_session_token record)); ("updated", to_string now)]%string)) ->
  records f (keyspace (redis_ g)) ->
  let g' := fst (set_presence g record ttl now) in records f (keyspace (redis_ g')) /\ queued_ g' = [] /\ prefix_ g' = prefix.
Proof.
  intros Ht Hp Hq Hl Hs. cbv zeta. unfold set_presence.
  pose proof (registry_flush_stable (records f) (queue_set_presence g record ttl now)) as Hfl. cbv zeta in Hfl.
  unfold queue_set_presence, registry_queue in *. cbn [queued_ redis_ prefix_] in *. rewrite Hp, Hq in *. destruct (registry_flush _) as [g' out]. cbn [fst] in *.
  apply Hfl; [|done]. cbn [app]. repeat apply Forall_cons_2; [| | | |constructor].
  - by apply (hset_presence_stable f (pr_player_id record) [("shard", pr_shard_id record); ("region", to_string (pr_region record));
      ("session", to_string (pr_session_token record)); ("updated", to_string now)]%string).
  - apply read_stable. intros s. by apply pexpire_keeps.
  - apply sadd_roster_stable.
  - apply read_stable. intros s. by apply pexpire_keeps.
Qed.
End Records.

(** ** Properties *)
(** C25. Presence is compare-and-set.  For every server that obeys the Redis laws
    and whatever the transport does: a claim succeeds only for a player nobody or
    the claimant itself was present for, and then the directory names the
    claimant; a claim that reports another owner changed nothing and that owner is
    in the directory; a transfer succeeds only from the named shard (or from
    nobody), and then the directory names the receiver.  No claim or transfer
    touches another player.  When the first try is answered the result is exactly
    whether the player could be taken; only a lost reply makes a transfer that
    took place report failure. *)
Theorem presence_compare_and_set `{RedisLaws R} (g : ClusterRegistry R) (record : PresenceRecord) (from_shard : string) (ttl now : Z) :
  queued_ g = [] -> keys_ok (prefix_ g) (keyspace (redis_ g)) -> 0 < ttl < 2 ^ 63 -> from_shard <> pr_shard_id record ->
  let m := keyspace (redis_ g) in
  let player := pr_player_id record in
  let shard := pr_shard_id record in
  let answered := head (snd (attempts (redis_ g))) = Some Completed in
  (let '(g', ok, other) := claim_presence g record ttl now in
   let m' := keyspace (redis_ g') in
   keys_ok (prefix_ g) m' /\
   (ok = true -> may_take (prefix_ g) m player shard = true /\ m' = claimed (prefix_ g) record now m /\ owner_of (prefix_ g) m' player = Some shard) /\
   (forall o, other = Some o -> ok = false /\ m' = m /\ owner_of (prefix_ g) m player = Some o /\ o <> shard) /\
   (m' = m \/ may_take (prefix_ g) m player shard = true /\ m' = claimed (prefix_ g) record now m) /\
   (forall q, q <> player -> owner_of (prefix_ g) m' q = owner_of (prefix_ g) m q) /\
   (answered -> ok = may_take (prefix_ g) m player shard)) /\
  (let '(g', ok) := transfer_presence g player from_shard shard (pr_region record) ttl now in
   let m' := keyspace (redis_ g') in
   keys_ok (prefix_ g) m' /\
   (ok = true -> may_take (prefix_ g) m player from_shard = true /\ m' = transferred (prefix_ g) player from_shard shard (pr_region record) now m /\
      owner_of (prefix_ g) m' player = Some shard) /\
   (m' = m \/ may_take (prefix_ g) m player from_shard = true /\ m' = transferred (prefix_ g) player from_shard shard (pr_region record) now m) /\
   (forall q, q <> player -> owner_of (prefix_ g) m' q = owner_of (prefix_ g) m q) /\
   (answered -> ok = may_take (prefix_ g) m player from_shard)).
Proof.
  intros Hq Hk Ht Hne. split; [by apply claim_presence_spec|by apply transfer_presence_spec].
Qed.

(** ** Witnesses *)
Lemma keys_ok_empty prefix : keys_ok prefix ∅.
Proof. split; intros id; by rewrite lookup_empty. Qed.

Definition sample_record : PresenceRecord := mkPresenceRecord "p1" "b" 3 77 0.

(** A fresh server, and one on which [p1] is on shard [a] and the reply to the
    next command is lost after it was executed. *)
Definition sample_registry : ClusterRegistry MiniRedis := registry_connect (mkMiniRedis ∅ []) "morton".
Definition sample_lossy : ClusterRegistry MiniRedis :=
  let g := fst (fst (claim_presence sample_registry (mkPresenceRecord "p1" "a" 1 77 0) 15000 5)) in
  mkClusterRegistry (mkMiniRedis (db (redis_ g)) [[Broken 1; Completed]]) "morton" [].

Lemma presence_compare_and_set_witness :
  (let '(g', ok) := transfer_presence sample_lossy "p1" "a" "b" 3 15000 6 in
   owner_of "morton" (db (redis_ sample_lossy)) "p1" = Some "a"%string /\ ok = false /\ owner_of "morton" (db (redis_ g')) "p1" = Some "b"%string) /\
  let g := sample_registry in
  let m := keyspace (redis_ g) in
  let player := "p1"%string in
  let shard := "b"%string in
  let answered := head (snd (attempts (redis_ g))) = Some Completed in
  (let '(g', ok, other) := claim_presence g sample_record 15000 7 in
   let m' := keyspace (redis_ g') in
   keys_ok "morton" m' /\
   (ok = true -> may_take "morton" m player shard = true /\ m' = claimed "morton" sample_record 7 m /\ owner_of "morton" m' player = Some shard) /\
   (forall o, other = Some o -> ok = false /\ m' = m /\ owner_of "morton" m player = Some o /\ o <> shard) /\
   (m' = m \/ may_take "morton" m player shard = true /\ m' = claimed "morton" sample_record 7 m) /\
   (forall q, q <> player -> owner_of "morton" m' q = owner_of "morton" m q) /\
   (answered -> ok = may_take "morton" m player shard)) /\
  (let '(g', ok) := transfer_presence g player "a" shard 3 15000 7 in
   let m' := keyspace (redis_ g') in
   keys_ok "morton" m' /\
   (ok = true -> may_take "morton" m player "a" = true /\ m' = transferred "morton" player "a" shard 3 7 m /\
      owner_of "morton" m' player = Some shard) /\
   (m' = m \/ may_take "morton" m player "a" = true /\ m' = transferred "morton" player "a" shard 3 7 m) /\
   (forall q, q <> player -> owner_of "morton" m' q = owner_of "morton" m q) /\
   (answered -> ok = may_take "morton" m player "a")).
Proof.
  split; [vm_compute; by repeat split|].
  apply (presence_compare_and_set sample_registry sample_record "a" 15000 7); [done|apply keys_ok_empty|lia|done].
Defined.
