(* ===== verification/Migration.v ===== *)
(** * Migration: handoff tickets ([src/src/cluster/migration.h], [migration.cpp])

    The ticket codec with its checksum, and the store that publishes, redeems and
    discards tickets on the server.  The encoder's stack buffer starts as zeros
    here; only the written prefix leaves it. *)

From S2P Require Import Prelude Bitstream F32 Quantizer Movement Messages Text Redis Store Presence.
From Stdlib Require Import ZArith Lia Bool Ascii String.
From stdpp Require Import base tactics numbers list option gmap sets fin_maps strings relations.
#[local] Open Scope Z_scope.

(** ** Tickets *)
Definition kMigrationVersion : Z := 1.
Definition kMigrationTicketBytes : Z := 512.

Record MigrationTicket := mkMigrationTicket {
  mt_token : Z;
  mt_player_id : string;
  mt_from_shard : string;
  mt_to_shard : string;
  mt_region : Z;
  mt_tick : Z;
  mt_position : Vec2;
  mt_velocity : Vec2;
  mt_last_input_sequence : Z;
  mt_issued_ms : Z
}.

(** FNV-1a. *)
Definition checksum_step (hash byte : Z) : Z := u32 (Z.lxor hash byte * 16777619).
Definition checksum (data : list Z) : Z := foldl checksum_step 2166136261 data.

Definition write_ticket (t : MigrationTicket) (w : BitWriter) : BitWriter :=
  let w := write_varint kMigrationVersion w in
  let w := write_u64 (mt_token t) w in
  let w := write_string (mt_player_id t) w in
  let w := write_string (mt_from_shard t) w in
  let w := write_string (mt_to_shard t) w in
  let w := write_varint (mt_region t) w in
  let w := write_u32 (mt_tick t) w in
  let w := write_float (vec_x (mt_position t)) w in
  let w := write_float (vec_y (mt_position t)) w in
  let w := write_float (vec_x (mt_velocity t)) w in
  let w := write_float (vec_y (mt_velocity t)) w in
  let w := write_varint (mt_last_input_sequence t) w in
  write_u64 (mt_issued_ms t) w.

Definition encode_migration_ticket (t : MigrationTicket) : string :=
  let w := align (write_ticket t (BitWriter_new (repeat 0 512) kMigrationTicketBytes)) in
  if bw_overflow w then EmptyString else
  let '(body, w) := bytes_written w in
  let sum := checksum (take (Z.to_nat body) (bw_buffer w)) in
  let w := write_u32 sum w in
  if bw_overflow w then EmptyString else
  let '(n, w) := bytes_written w in
  bytes_string (take (Z.to_nat n) (bw_buffer w)).

Definition read_ticket : Rd (option MigrationTicket) :=
  version ← read_varint;
  if negb (version =? kMigrationVersion) then mret None else
  token ← read_u64;
  player_id ← read_string;
  from_shard ← read_string;
  to_shard ← read_string;
  region ← read_varint;
  tick ← read_u32;
  px ← read_float;
  py ← read_float;
  vx ← read_float;
  vy ← read_float;
  last_input_sequence ← read_varint;
  issued_ms ← read_u64;
  unless_overflowed (
    if string_empty player_id then mret None
    else mret (Some (mkMigrationTicket token player_id from_shard to_shard region tick (mkVec2 px py) (mkVec2 vx vy)
                       last_input_sequence issued_ms))).

(** The little-endian word at [at_]. *)
Definition word_at (data : list Z) (at_ : nat) : Z :=
  let byte i := default 0 (data !! (at_ + i)%nat) in
  Z.lor (Z.lor (Z.lor (byte 0%nat) (Z.shiftl (byte 1%nat) 8)) (Z.shiftl (byte 2%nat) 16)) (Z.shiftl (byte 3%nat) 24).

Definition decode_migration_ticket (blob : string) : option MigrationTicket :=
  let data := string_bytes blob in
  let size := Z.of_nat (String.length blob) in
  if (size <? 5) || (kMigrationTicketBytes <? size) then None else
  let body := u32 size - 4 in
  if negb (checksum (take (Z.to_nat body) data) =? word_at data (Z.to_nat body)) then None else
  fst (read_ticket (BitReader_new data body)).

(** ** The store *)
Record MigrationStore := mkMigrationStore { ms_issued : Z; ms_redeemed : Z; ms_rejected : Z }.
Definition MigrationStore_new : MigrationStore := mkMigrationStore 0 0 0.

Definition count_issued (s : MigrationStore) := mkMigrationStore (u64 (ms_issued s + 1)) (ms_redeemed s) (ms_rejected s).
Definition count_redeemed (s : MigrationStore) := mkMigrationStore (ms_issued s) (u64 (ms_redeemed s + 1)) (ms_rejected s).
Definition count_refused (s : MigrationStore) := mkMigrationStore (ms_issued s) (ms_redeemed s) (u64 (ms_rejected s + 1)).

Definition stamp (t : MigrationTicket) (now : Z) : MigrationTicket :=
  if mt_issued_ms t =? 0 then
    mkMigrationTicket (mt_token t) (mt_player_id t) (mt_from_shard t) (mt_to_shard t) (mt_region t) (mt_tick t)
      (mt_position t) (mt_velocity t) (mt_last_input_sequence t) now
  else t.

Section Operations.
Context `{Redis R}.

Definition discard (g : ClusterRegistry R) (token : Z) : ClusterRegistry R * bool :=
  let '(g, reply) := registry_command g ["DEL"; ticket_key (prefix_ g) token]%string in (g, is_one reply).

Definition publish_and_transfer (st : MigrationStore) (g : ClusterRegistry R) (ticket : MigrationTicket) (ttl_ms presence_ttl_ms now : Z) :
    MigrationStore * ClusterRegistry R * bool :=
  let stamped := stamp ticket now in
  let blob := encode_migration_ticket stamped in
  if string_empty blob then (st, g, false) else
  let g := registry_queue g ["SET"; ticket_key (prefix_ g) (mt_token stamped); blob; "PX"; to_string ttl_ms; "NX"]%string in
  let g := queue_transfer_presence g (mt_player_id stamped) (mt_from_shard stamped) (mt_to_shard stamped) (mt_region stamped) presence_ttl_ms now in
  let '(g, out) := registry_flush g in
  match out with
  | Some [set_reply; transfer_reply] =>
      if negb (reply_ok set_reply) then (st, g, false) else
      let st := count_issued st in
      if negb (is_one transfer_reply) then (st, fst (discard g (mt_token stamped)), false) else (st, g, true)
  | _ => (st, g, false)
  end.

Definition redeem (st : MigrationStore) (g : ClusterRegistry R) (token : Z) : MigrationStore * ClusterRegistry R * option MigrationTicket :=
  let '(g, reply) := registry_command g ["GETDEL"; ticket_key (prefix_ g) token]%string in
  if negb (bool_decide (rr_type reply = kString)) then (count_refused st, g, None) else
  match decode_migration_ticket (rr_str reply) with
  | None => (count_refused st, g, None)
  | Some ticket => if negb (mt_token ticket =? token) then (count_refused st, g, None) else (count_redeemed st, g, Some ticket)
  end.
End Operations.

(** ** The checksum *)
Lemma checksum_step_fits h b : fits 32 (checksum_step h b).
Proof. apply wrap_range. lia. Qed.

(** The multiplier is odd, so a step is injective in the hash and in the byte. *)
Lemma checksum_mul_inj x y : fits 32 x -> fits 32 y -> u32 (x * 16777619) = u32 (y * 16777619) -> x = y.
Proof.
  intros Hx Hy E. unfold wrap in E.
  assert (Hinv : forall z, fits 32 z -> (z * 16777619) mod 2 ^ 32 * 899433627 mod 2 ^ 32 = z).
  { intros z Hz. rewrite Z.mul_mod_idemp_l by lia.
    replace (z * 16777619 * 899433627) with (z + z * 3513497 * 2 ^ 32) by lia.
    rewrite Z.mod_add by lia. by apply Z.mod_small. }
  rewrite <- (Hinv x Hx), <- (Hinv y Hy). by rewrite E.
Qed.

Lemma lxor_cancel_l a b c : Z.lxor a b = Z.lxor a c -> b = c.
Proof. intros E. apply (f_equal (Z.lxor a)) in E. by rewrite <- !Z.lxor_assoc, Z.lxor_nilpotent, !Z.lxor_0_l in E. Qed.

Lemma fits_8_32 b : fits 8 b -> fits 32 b.
Proof. unfold fits. lia. Qed.

Lemma checksum_step_inj_byte h a b : fits 32 h -> fits 8 a -> fits 8 b -> checksum_step h a = checksum_step h b -> a = b.
Proof.
  intros Hh Ha Hb E. apply (lxor_cancel_l h). apply checksum_mul_inj; [apply fits_lxor; [lia|done|by apply fits_8_32]..|exact E].
Qed.

Lemma checksum_step_inj_hash h h' b : fits 32 h -> fits 32 h' -> fits 8 b -> checksum_step h b = checksum_step h' b -> h = h'.
Proof.
  intros Hh Hh' Hb E. apply (lxor_cancel_l b). rewrite !(Z.lxor_comm b).
  apply checksum_mul_inj; [apply fits_lxor; [lia|done|by apply fits_8_32]..|exact E].
Qed.

Lemma checksum_from_fits l : forall h, fits 32 h -> fits 32 (foldl checksum_step h l).
Proof. induction l as [|b l IH]; intros h Hh; [done|]. apply IH, checksum_step_fits. Qed.

Lemma checksum_fits l : fits 32 (checksum l).
Proof. apply checksum_from_fits. split; lia. Qed.

Lemma checksum_from_inj l : Forall (fits 8) l -> forall h h', fits 32 h -> fits 32 h' ->
  foldl checksum_step h l = foldl checksum_step h' l -> h = h'.
Proof.
  induction 1 as [|b l Hb _ IH]; intros h h' Hh Hh' E; [done|].
  apply (checksum_step_inj_hash h h' b Hh Hh' Hb), IH; [apply checksum_step_fits..|exact E].
Qed.

(** One changed byte changes the checksum. *)
Lemma checksum_detects l i b : Forall (fits 8) l -> fits 8 b -> (i < length l)%nat ->
  checksum (<[i := b]> l) = checksum l -> <[i := b]> l = l.
Proof.
  intros Hl Hb Hi E. destruct (lookup_lt_is_Some_2 l i Hi) as [a Ha]. pose proof (take_drop_middle l i a Ha) as Hsplit.
  rewrite <- Hsplit in E at 2. rewrite insert_take_drop in E |- * by done. unfold checksum in E. rewrite !foldl_app in E. cbn [foldl] in E.
  pose proof (proj1 (list.Forall_forall _ _) Hl a (list_elem_of_lookup_2 _ _ _ Ha)) as Hfa.
  apply checksum_from_inj in E; [|by apply Forall_drop|apply checksum_step_fits..].
  apply checksum_step_inj_byte in E as ->; [exact Hsplit| |done|done]. apply checksum_from_fits. split; lia.
Qed.

(** ** Ticket bits *)
Definition ticket_ok (t : MigrationTicket) : Prop :=
  fits 64 (mt_token t) /\ string_empty (mt_player_id t) = false /\ short_string (mt_player_id t) /\ short_string (mt_from_shard t) /\
  short_string (mt_to_shard t) /\ fits 32 (mt_region t) /\ fits 32 (mt_tick t) /\
  f32_valid (vec_x (mt_position t)) /\ f32_valid (vec_y (mt_position t)) /\ f32_valid (vec_x (mt_velocity t)) /\ f32_valid (vec_y (mt_velocity t)) /\
  fits 32 (mt_last_input_sequence t) /\ fits 64 (mt_issued_ms t).

Definition ticket_bits (t : MigrationTicket) : list bool :=
  varint_bits kMigrationVersion ++ zbits 64 (mt_token t) ++ string_bits (mt_player_id t) ++ string_bits (mt_from_shard t) ++
  string_bits (mt_to_shard t) ++ varint_bits (mt_region t) ++ zbits 32 (mt_tick t) ++
  float_bits (vec_x (mt_position t)) ++ float_bits (vec_y (mt_position t)) ++ float_bits (vec_x (mt_velocity t)) ++ float_bits (vec_y (mt_velocity t)) ++
  varint_bits (mt_last_input_sequence t) ++ zbits 64 (mt_issued_ms t).

Lemma write_ticket_writes t : ticket_ok t -> writes (write_ticket t) (ticket_bits t).
Proof.
  intros (H1 & _ & H3 & H4 & H5 & H6 & H7 & H8 & H9 & H10 & H11 & H12 & H13). unfold write_ticket, ticket_bits.
  split_writes; [apply writes_varint; unfold kMigrationVersion; split; lia|exact (writes_u64 _ H1)|exact (writes_string _ H3)|exact (writes_string _ H4)
    |exact (writes_string _ H5)|exact (writes_varint _ H6)|exact (writes_u32 _ H7)|exact (writes_float _ H8)|exact (writes_float _ H9)
    |exact (writes_float _ H10)|exact (writes_float _ H11)|exact (writes_varint _ H12)|exact (writes_u64 _ H13)].
Qed.

Lemma read_ticket_parses t : ticket_ok t -> parses read_ticket (ticket_bits t) t.
Proof.
  intros (H1 & H2 & H3 & H4 & H5 & H6 & H7 & H8 & H9 & H10 & H11 & H12 & H13). unfold read_ticket, ticket_bits.
  eapply parses_bind; [apply reads_varint; unfold kMigrationVersion; split; lia|]. cbv beta. rewrite Z.eqb_refl. cbn [negb]. cbv iota.
  parse_field reads_u64. parse_field reads_string. parse_field reads_string. parse_field reads_string. parse_field reads_varint. parse_field reads_u32.
  parse_field reads_float. parse_field reads_float. parse_field reads_float. parse_field reads_float. parse_field reads_varint.
  rewrite <- (app_nil_r (zbits _ _)). parse_field reads_u64. apply parses_check. rewrite H2. destruct t as [? ? ? ? ? ? [] [] ? ?]. apply parses_ret.
Qed.

(** Every field is a whole number of bytes. *)
Definition whole (l : list bool) : Prop := exists n, length l = (8 * n)%nat.

Lemma whole_app a b : whole a -> whole b -> whole (a ++ b).
Proof. intros [n Hn] [k Hk]. exists (n + k)%nat. rewrite length_app. lia. Qed.

Lemma whole_bytes l : whole (bits_of_bytes l).
Proof. exists (length l). apply length_bits_of_bytes. Qed.

Lemma whole_varint v : whole (varint_bits v).
Proof. apply whole_bytes. Qed.

Lemma whole_string s : whole (string_bits s).
Proof. apply whole_app; [apply whole_varint|apply whole_bytes]. Qed.

Lemma whole_zbits k v : whole (zbits (8 * k) v).
Proof. exists k. apply length_zbits. Qed.

Lemma whole_ticket t : whole (ticket_bits t).
Proof.
  unfold ticket_bits, string_bits, varint_bits, float_bits.
  repeat match goal with |- whole (_ ++ _) => apply whole_app end; first [apply whole_bytes|apply (whole_zbits 8)|apply (whole_zbits 4)].
Qed.

(** The writer after whole bytes: nothing pending, and the output is the text. *)
Lemma whole_output w bits : writer_wf w -> written w = bits -> whole bits ->
  align w = w /\ bytes_written w = (Z.of_nat (length (output w)), w) /\ bits_of_bytes (output w) = bits.
Proof.
  intros Hw Hb [n Hn]. pose proof (length_written w Hw) as Hlen. rewrite Hb, Hn in Hlen.
  assert (Hmod : bw_bit_pos w mod 8 = 0) by (rewrite <- Hlen; replace (Z.of_nat (8 * n)) with (Z.of_nat n * 8) by lia; apply Z.mod_mul; lia).
  split; [by apply align_aligned|]. destruct (output_bits w Hw) as (pad & E & Hpad). rewrite Hb in E.
  pose proof (f_equal length E) as El. rewrite length_bits_of_bytes, length_app, repeat_length, Hn in El.
  replace pad with 0%nat in E by lia. cbn in E. rewrite app_nil_r in E. split; [|done].
  assert (Hpend : bw_pending_bits w = 0).
  { destruct Hw as [? ? Hp Hpe ? ? ?]. rewrite Hp in Hmod. rewrite Z.mul_comm, Z.add_comm, Z.mod_add, Z.mod_small in Hmod by lia. lia. }
  assert (Hfl : bw_flushed_bytes w = n) by (destruct Hw; lia).
  assert (Ho : length (output w) = n) by lia.
  unfold bytes_written. rewrite Hpend, Hfl, Ho. cbn [Z.ltb Z.compare]. rewrite wrap_small; [done|]. destruct Hw as [Hc ? ? ? ? ? ?]. split; lia.
Qed.

Lemma output_take w n : bytes_written w = (n, w) -> take (Z.to_nat n) (bw_buffer w) = output w.
Proof. intros E. unfold output. by rewrite E. Qed.

Lemma align_overflow w : writer_wf w -> bw_overflow w = true -> bw_overflow (align w) = true.
Proof.
  intros Hw Ho. unfold align. destruct (Z.land (bw_bit_pos w) 7 =? 0) eqn:E; [done|].
  assert (Hr : 0 <= Z.land (bw_bit_pos w) 7 <= 7).
  { destruct Hw. rewrite land_7 by lia. pose proof (Z.mod_pos_bound (bw_bit_pos w) 8). lia. }
  apply (ext_latch _ _ (proj1 (writes_bits 0 (8 - Z.land (bw_bit_pos w) 7) ltac:(split; lia) ltac:(lia) w Hw)) Ho).
Qed.

Lemma bytes_string_nonempty l : (0 < length l)%nat -> bytes_string l <> EmptyString.
Proof. destruct l as [|b l]; [cbn; lia|]. intros _. discriminate. Qed.

(** The blob of a ticket that fits: its body and the checksum of the body. *)
Lemma encode_ticket_spec t : ticket_ok t ->
  (encode_migration_ticket t <> EmptyString <-> Z.of_nat (length (ticket_bits t)) + 32 <= kMigrationTicketBytes * 8) /\
  (encode_migration_ticket t <> EmptyString -> exists body sum_bytes,
     encode_migration_ticket t = bytes_string (body ++ sum_bytes) /\ Forall (fits 8) (body ++ sum_bytes) /\
     bits_of_bytes body = ticket_bits t /\ bits_of_bytes sum_bytes = zbits 32 (checksum body) /\ length sum_bytes = 4%nat /\
     Z.of_nat (length (body ++ sum_bytes)) <= kMigrationTicketBytes).
Proof.
  intros Ht. pose proof (write_ticket_writes t Ht) as Hwrites. pose proof (whole_ticket t) as Hwhole.
  destruct (writer_wf_new (repeat 0 512) 512 (Forall_zeros 512)) as [Hw0 Hb0]; [rewrite repeat_length; lia|rewrite repeat_length; lia|].
  unfold encode_migration_ticket. change kMigrationTicketBytes with 512.
  destruct (Hwrites _ Hw0) as (E1 & R1 & O1). set (w0 := BitWriter_new _ _) in *. set (w1 := write_ticket t w0) in *.
  assert (Hcap0 : bw_capacity_bits w0 = 4096) by done. assert (Hpos0 : bw_bit_pos w0 = 0) by done.
  unfold room in R1, O1. rewrite Hcap0, Hpos0 in R1, O1. rewrite Hb0 in R1. cbn [app] in R1.
  pose proof (ext_wf _ _ E1) as Hw1.
  destruct (Z.le_gt_cases (0 + Z.of_nat (length (ticket_bits t))) 4096) as [Hfit|Hbig].
  2:{ rewrite (align_overflow w1 Hw1) by (apply O1; lia). split; [split; [done|lia]|done]. }
  destruct (R1 Hfit) as [Hb1 Ho1]. change (bw_overflow w0) with false in Ho1.
  destruct (whole_output w1 _ Hw1 Hb1 Hwhole) as (Ea & Ebw & Eout). rewrite Ea, Ho1, Ebw, (output_take w1 _ Ebw).
  set (sum := checksum (output w1)). pose proof (checksum_fits (output w1) : fits 32 sum) as Hsum.
  destruct (writes_u32 sum Hsum w1 Hw1) as (E2 & R2 & O2). set (w2 := write_u32 sum w1) in *. pose proof (ext_wf _ _ E2) as Hw2.
  unfold room in R2, O2. rewrite length_zbits, (ext_capacity _ _ E1), Hcap0, <- (length_written w1 Hw1), Hb1 in R2, O2.
  destruct (Z.le_gt_cases (Z.of_nat (length (ticket_bits t)) + 32) 4096) as [Hfit2|Hbig2].
  2:{ rewrite O2 by (change (Z.of_nat 32) with 32; lia). split; [split; [done|lia]|done]. }
  destruct R2 as [Hb2 Ho2]; [exact Hfit2|]. rewrite Ho2, Ho1.
  destruct (whole_output w2 _ Hw2 Hb2) as (_ & Ebw2 & Eout2); [apply whole_app; [done|apply (whole_zbits 4)]|].
  rewrite Ebw2, (output_take w2 _ Ebw2).
  pose proof (f_equal length Eout) as Hl1. rewrite length_bits_of_bytes in Hl1.
  pose proof (f_equal length Eout2) as Hl2. rewrite length_bits_of_bytes, length_app, length_zbits, <- Hl1 in Hl2.
  pose proof (Forall_output w1 Hw1) as Hf1. pose proof (Forall_output w2 Hw2) as Hf2.
  assert (Hbody : take (length (output w1)) (output w2) = output w1).
  { apply bits_of_bytes_inj; [by apply Forall_take|done|].
    rewrite <- take_bits_of_bytes, Eout2, Eout, Hl1, take_app_length. done. }
  split; [split; [intros _; lia|intros _ Hnil]|intros _].
  - apply (bytes_string_nonempty (output w2)); [lia|exact Hnil].
  - assert (Hcut : output w1 ++ drop (length (output w1)) (output w2) = output w2) by (rewrite <- Hbody at 1; apply take_drop).
    exists (output w1), (drop (length (output w1)) (output w2)). rewrite Hcut.
    split; [done|]. split; [done|]. split; [done|]. split; [|split; [rewrite length_drop; lia|]].
    + rewrite <- drop_bits_of_bytes, Eout2, Hl1, drop_app_length. done.
    + lia.
Qed.

(** ** Decoding *)
Lemma word_at_bits data at_ v : Forall (fits 8) data -> length (drop at_ data) = 4%nat -> bits_of_bytes (drop at_ data) = zbits 32 v -> fits 32 v ->
  word_at data at_ = v.
Proof.
  intros Hf Hl Hb Hv. assert (Hd : forall i, data !! (at_ + i)%nat = drop at_ data !! i) by (intros i; symmetry; apply lookup_drop).
  unfold word_at. rewrite !Hd. apply Forall_drop with (n := at_) in Hf. revert Hf Hl Hb. generalize (drop at_ data). clear Hd. intros l Hf Hl Hb.
  destruct l as [|b0 [|b1 [|b2 [|b3 [|]]]]]; try done. cbn [lookup list_lookup default].
  apply list.Forall_cons in Hf as [F0 Hf]. apply list.Forall_cons in Hf as [F1 Hf]. apply list.Forall_cons in Hf as [F2 Hf]. apply list.Forall_cons in Hf as [F3 _].
  unfold fits in *. change (id b0) with b0. change (id b1) with b1. change (id b2) with b2. change (id b3) with b3.
  rewrite (lor_shiftl_add b0 b1 8), (lor_shiftl_add (b0 + 2 ^ 8 * b1) b2 16), (lor_shiftl_add (b0 + 2 ^ 8 * b1 + 2 ^ 16 * b2) b3 24) by lia.
  apply (f_equal bval) in Hb. rewrite bval_zbits in Hb. change (2 ^ Z.of_nat 32) with (2 ^ 32) in Hb. rewrite (Z.mod_small v) in Hb by lia.
  rewrite <- Hb, !bits_of_bytes_cons. change (bits_of_bytes []) with (@nil bool).
  rewrite !bval_app, !bval_zbits, !length_zbits. change (2 ^ Z.of_nat 8) with 256. rewrite !Z.mod_small by lia. cbn [bval]. lia.
Qed.

Lemma string_bytes_string l : Forall (fits 8) l -> string_bytes (bytes_string l) = l.
Proof.
  unfold string_bytes, bytes_string. rewrite list_ascii_of_string_of_list_ascii. induction 1 as [|b l Hb _ IH]; [done|].
  cbn [fmap list_fmap] in *. f_equal; [|exact IH]. unfold Bitstream.byte_of_ascii, Bitstream.ascii_of_byte. rewrite wrap_small by done. unfold fits in Hb.
  rewrite N_ascii_embedding by lia. lia.
Qed.

(** What the decoder does with the bytes of a blob. *)
Definition decode_bytes (data : list Z) : option MigrationTicket :=
  let size := Z.of_nat (length data) in
  if (size <? 5) || (kMigrationTicketBytes <? size) then None else
  if negb (checksum (take (Z.to_nat (size - 4)) data) =? word_at data (Z.to_nat (size - 4))) then None else
  fst (read_ticket (BitReader_new data (size - 4))).

Lemma decode_blob data : Forall (fits 8) data -> decode_migration_ticket (bytes_string data) = decode_bytes data.
Proof.
  intros Hf. unfold decode_migration_ticket, decode_bytes.
  assert (Eb : string_bytes (bytes_string data) = data) by (by apply string_bytes_string).
  assert (El : String.length (bytes_string data) = length data) by (rewrite <- length_string_bytes; by rewrite Eb).
  rewrite Eb, El. unfold kMigrationTicketBytes. destruct (Z.ltb_spec (Z.of_nat (length data)) 5); [done|].
  destruct (Z.ltb_spec 512 (Z.of_nat (length data))); [done|]. cbn [orb]. rewrite wrap_small by (split; lia). done.
Qed.

Lemma decode_body body sum_bytes t : Forall (fits 8) (body ++ sum_bytes) -> ticket_ok t -> bits_of_bytes body = ticket_bits t ->
  bits_of_bytes sum_bytes = zbits 32 (checksum body) -> length sum_bytes = 4%nat -> Z.of_nat (length (body ++ sum_bytes)) <= kMigrationTicketBytes ->
  decode_bytes (body ++ sum_bytes) = Some t.
Proof.
  intros Hf Ht Hb Hs Hl Hlen. unfold decode_bytes, kMigrationTicketBytes in *. rewrite length_app, Hl in *.
  pose proof (f_equal length Hb) as Hlb. rewrite length_bits_of_bytes in Hlb.
  assert (Hlong : (64 <= length (ticket_bits t))%nat).
  { unfold ticket_bits. rewrite !length_app, !length_zbits. lia. }
  destruct (Z.ltb_spec (Z.of_nat (length body + 4)) 5); [lia|]. destruct (Z.ltb_spec 512 (Z.of_nat (length body + 4))); [lia|]. cbn [orb].
  replace (Z.of_nat (length body + 4) - 4) with (Z.of_nat (length body)) by lia. rewrite Nat2Z.id, take_app_length.
  rewrite (word_at_bits _ _ (checksum body)); [|done|by rewrite drop_app_length|by rewrite drop_app_length|apply checksum_fits].
  rewrite Z.eqb_refl. cbn [negb].
  assert (Hr : reader_wf (BitReader_new (body ++ sum_bytes) (Z.of_nat (length body))) /\
    rest (BitReader_new (body ++ sum_bytes) (Z.of_nat (length body))) = ticket_bits t ++ []).
  { unfold rest, BitReader_new. rewrite wrap_small by (split; lia). split; [split; cbn; [rewrite length_app; lia|lia|done]|]. cbn [br_bit_pos br_capacity_bits br_buffer].
    change (Z.to_nat 0) with 0%nat. rewrite drop_0, app_nil_r. replace (Z.to_nat _) with (8 * length body)%nat by lia.
    by rewrite take_bits_of_bytes, take_app_length. }
  destruct Hr as [Hr Hrest]. by rewrite (read_ticket_parses t Ht _ [] Hr eq_refl Hrest).
Qed.

(** One changed byte is noticed. *)
Lemma decode_corrupt body sum_bytes i b : Forall (fits 8) (body ++ sum_bytes) -> fits 8 b ->
  bits_of_bytes sum_bytes = zbits 32 (checksum body) -> length sum_bytes = 4%nat ->
  <[i := b]> (body ++ sum_bytes) <> body ++ sum_bytes -> decode_bytes (<[i := b]> (body ++ sum_bytes)) = None.
Proof.
  intros Hf Hb Hs Hl Hne. assert (Hi : (i < length (body ++ sum_bytes))%nat).
  { destruct (Nat.lt_ge_cases i (length (body ++ sum_bytes))); [done|]. exfalso. apply Hne. by apply list_insert_ge. }
  unfold decode_bytes. rewrite length_insert. rewrite length_app in *. destruct (_ || _); [done|].
  replace (Z.of_nat (length body + length sum_bytes) - 4) with (Z.of_nat (length body)) by lia. rewrite Nat2Z.id.
  apply Forall_app in Hf as [Hf1 Hf2].
  destruct (Nat.lt_ge_cases i (length body)) as [Hin|Hout].
  - rewrite insert_app_l in Hne |- * by done. rewrite take_app_length' by (by rewrite length_insert).
    rewrite (word_at_bits _ _ (checksum body)).
    + destruct (Z.eqb_spec (checksum (<[i:=b]> body)) (checksum body)) as [E|]; [|done]. exfalso. apply Hne.
      by rewrite (checksum_detects body i b Hf1 Hb Hin E).
    + apply Forall_app. split; [by apply Forall_insert|done].
    + by rewrite drop_app_length' by (by rewrite length_insert).
    + by rewrite drop_app_length' by (by rewrite length_insert).
    + apply checksum_fits.
  - rewrite insert_app_r_alt in Hne |- * by done. rewrite take_app_length.
    destruct (Z.eqb_spec (checksum body) (word_at (body ++ <[(i - length body)%nat:=b]> sum_bytes) (length body))) as [E|]; [|done].
    exfalso. apply Hne. f_equal.
    assert (Hlen : length (<[(i - length body)%nat:=b]> sum_bytes) = 4%nat) by (by rewrite length_insert).
    apply bits_of_bytes_inj; [by apply Forall_insert|done|].
    set (l := <[(i - length body)%nat:=b]> sum_bytes) in *.
    assert (Hfl : Forall (fits 8) l) by (by apply Forall_insert).
    rewrite Hs, E. rewrite (word_at_bits (body ++ l) (length body) (bval (bits_of_bytes l))).
    + rewrite <- (zbits_bval (bits_of_bytes l)) at 1. by rewrite length_bits_of_bytes, Hlen.
    + by apply Forall_app.
    + by rewrite drop_app_length.
    + rewrite drop_app_length, <- (zbits_bval (bits_of_bytes l)) at 1. by rewrite length_bits_of_bytes, Hlen.
    + pose proof (bval_range (bits_of_bytes l)) as Hr. rewrite length_bits_of_bytes, Hlen in Hr. exact Hr.
Qed.

(** ** The commands on ticket keys *)
Definition set_nx_effect (k v : string) : effect := fun m =>
  match m !! k with Some _ => (m, RedisReply_default) | None => (<[k := VString v]> m, status_reply "OK") end.

Definition getdel_effect (k : string) : effect := fun m =>
  match m !! k with Some (VString v) => (delete k m, bulk_reply v) | _ => (m, RedisReply_default) end.

Definition del_effect (k : string) : effect := fun m =>
  (delete k m, integer_reply (match m !! k with Some _ => 1 | None => 0 end)).

Lemma keys_ok_ticket prefix token v m : keys_ok prefix m -> keys_ok prefix (<[ticket_key prefix token := VString v]> m).
Proof.
  intros [Hp Hr Ht]. split.
  - intros id. rewrite lookup_insert_ne by (intros E; by apply (presence_not_ticket prefix id token)). apply Hp.
  - intros id. rewrite lookup_insert_ne by (intros E; by apply (roster_not_ticket prefix id token)). apply Hr.
  - intros id. destruct (decide (ticket_key prefix token = ticket_key prefix id)) as [<-|Hne]; [by rewrite lookup_insert_eq|by rewrite lookup_insert_ne].
Qed.

Section TicketCommands.
Context `{RedisLaws R} (prefix : string).

Lemma set_nx_has_effect token v ttl : 0 < ttl < 2 ^ 63 ->
  has_effect (R:=R) (keys_ok prefix) ["SET"; ticket_key prefix token; v; "PX"; to_string ttl; "NX"]%string (set_nx_effect (ticket_key prefix token) v).
Proof.
  intros Ht s Hk. pose proof (call_set_nx s (ticket_key prefix token) v (to_string ttl) (ex_intro _ ttl (conj Ht eq_refl))) as Hl.
  unfold set_nx_effect, executes in *. destruct (call s _) as [s' r].
  destruct (keyspace s !! ticket_key prefix token); destruct Hl as [-> ->]; cbn [fst]; [done|]. split; [done|by apply keys_ok_ticket].
Qed.

Lemma getdel_has_effect token : has_effect (R:=R) (keys_ok prefix) ["GETDEL"; ticket_key prefix token]%string (getdel_effect (ticket_key prefix token)).
Proof.
  intros s Hk. pose proof (call_getdel s (ticket_key prefix token)) as Hl. pose proof (ko_ticket _ _ Hk token) as Hs.
  unfold getdel_effect, executes in *. destruct (call s _) as [s' r].
  destruct (keyspace s !! ticket_key prefix token) as [[v| |]|]; try done; destruct Hl as [-> ->]; cbn [fst]; [|done]. split; [done|by apply keys_ok_delete].
Qed.

Lemma del_has_effect token : has_effect (R:=R) (keys_ok prefix) ["DEL"; ticket_key prefix token]%string (del_effect (ticket_key prefix token)).
Proof.
  intros s Hk. pose proof (call_del s (ticket_key prefix token)) as Hl. unfold del_effect, executes in *. destruct (call s _) as [s' r].
  destruct Hl as [-> ->]. split; [done|by apply keys_ok_delete].
Qed.
End TicketCommands.

Lemma getdel_twice k m : getdel_effect k (fst (getdel_effect k m)) = (fst (getdel_effect k m), RedisReply_default).
Proof.
  unfold getdel_effect. destruct (m !! k) as [[v| |]|] eqn:E; cbn [fst]; rewrite ?lookup_delete_eq, ?E; done.
Qed.

Lemma del_twice k m : fst (del_effect k (fst (del_effect k m))) = fst (del_effect k m).
Proof. apply delete_delete_eq. Qed.

(** ** What happens to a ticket *)
Section Tickets.
Context (prefix : string).

Definition ticket_at (m : keyspace_map) (token : Z) : option RedisValue := m !! ticket_key prefix token.

(** Only [token] is touched, and it gets [blob] at most when it was free. *)
Definition may_publish (token : Z) (blob : string) (m m' : keyspace_map) : Prop :=
  (forall k, fits 64 k -> k <> token -> ticket_at m' k = ticket_at m k) /\
  (ticket_at m' token = ticket_at m token \/ ticket_at m token = None /\ ticket_at m' token = Some (VString blob)).

Lemma may_publish_refl token blob m : may_publish token blob m m.
Proof. split; [done|by left]. Qed.

Lemma may_publish_trans token blob m1 m2 m3 : may_publish token blob m1 m2 -> may_publish token blob m2 m3 -> may_publish token blob m1 m3.
Proof.
  intros [H1 H2] [H3 H4]. split; [intros k Hk Hne; by rewrite H3, H1|].
  destruct H4 as [->|[E1 E2]]; [done|]. destruct H2 as [H2|[_ H2]]; [|congruence]. right. split; congruence.
Qed.

Lemma run_effects_rel (P : keyspace_map -> keyspace_map -> Prop) es : (forall m, P m m) -> (forall m1 m2 m3, P m1 m2 -> P m2 m3 -> P m1 m3) ->
  Forall (fun e : effect => forall m, P m (fst (e m))) es -> forall m, P m (fst (run_effects m es)).
Proof.
  intros Hr Ht. induction 1 as [|e es He _ IH]; intros m; [apply Hr|]. cbn [run_effects].
  specialize (He m). destruct (e m) as [m1 r]. specialize (IH m1). destruct (run_effects m1 es) as [m2 rs]. by eapply Ht.
Qed.

Lemma deliver_effects_rel (P : keyspace_map -> keyspace_map -> Prop) es : (forall m, P m m) -> (forall m1 m2 m3, P m1 m2 -> P m2 m3 -> P m1 m3) ->
  Forall (fun e : effect => forall m, P m (fst (e m))) es -> forall tries plan m, P m (fst (deliver_effects tries plan m es)).
Proof.
  intros Hr Ht Hes. induction tries as [|tries IH]; intros plan m; [apply Hr|]. destruct plan as [|[|executed] plan]; cbn [deliver_effects]; [apply Hr| |].
  - pose proof (run_effects_rel P es Hr Ht Hes m). by destruct (run_effects m es).
  - eapply Ht; [|apply IH]. apply run_effects_rel; [done..|]. by apply Forall_take.
Qed.

Lemma set_nx_may_publish token blob m : fits 64 token -> may_publish token blob m (fst (set_nx_effect (ticket_key prefix token) blob m)).
Proof.
  intros Ht. unfold set_nx_effect, may_publish, ticket_at. destruct (m !! ticket_key prefix token) eqn:E; cbn [fst]; [split; [done|by left]|].
  split; [|right; by rewrite lookup_insert_eq]. intros k Hk Hne. rewrite lookup_insert_ne; [done|]. intros E'. apply Hne. symmetry. by apply (ticket_key_inj prefix).
Qed.

Lemma transferred_ticket player from_shard to_shard region now m token :
  transferred prefix player from_shard to_shard region now m !! ticket_key prefix token = m !! ticket_key prefix token.
Proof.
  unfold transferred. rewrite lookup_insert_ne by apply roster_not_ticket. rewrite put_set_lookup_ne by apply roster_not_ticket.
  by rewrite lookup_insert_ne by apply presence_not_ticket.
Qed.

Lemma transfer_keeps_tickets player from_shard to_shard region now m token :
  ticket_at (fst (transfer_outcome prefix player from_shard to_shard region now m)) token = ticket_at m token.
Proof.
  unfold transfer_outcome, ticket_at. destruct (may_take prefix m player from_shard); [apply transferred_ticket|done].
Qed.

Lemma claim_keeps_tickets record now m token : ticket_at (fst (claim_outcome prefix record now m)) token = ticket_at m token.
Proof.
  unfold claim_outcome, ticket_at. destruct (may_take prefix m _ _); [|done]. cbn [fst]. unfold claimed.
  rewrite lookup_insert_ne by apply roster_not_ticket. by rewrite lookup_insert_ne by apply presence_not_ticket.
Qed.
End Tickets.

(** ** All processes of the cluster *)
Inductive TicketEvent :=
  | Published (ticket : MigrationTicket)
  | Redeemed (token : Z) (ticket : MigrationTicket).

Definition published_token (token : Z) (e : TicketEvent) : bool := match e with Published t => mt_token t =? token | Redeemed _ _ => false end.
Definition redeemed_token (token : Z) (e : TicketEvent) : bool := match e with Redeemed k _ => k =? token | Published _ => false end.

Definition count (f : TicketEvent -> bool) (h : list TicketEvent) : nat := length (filter (fun e => f e = true) h).

Section Cluster.
Context `{RedisLaws R} (prefix : string).

(** Any process may publish, redeem or discard a ticket through its own client;
    everything else on the server - presence traffic, expiry - may lose a ticket
    but never writes one ([claim_keeps_tickets], [transfer_keeps_tickets]). *)
Inductive cluster_step : R * list TicketEvent -> R * list TicketEvent -> Prop :=
  | step_publish st st' g g' ticket ttl pttl now ok h : prefix_ g = prefix -> queued_ g = [] -> 0 < ttl < 2 ^ 63 -> 0 < pttl < 2 ^ 63 ->
      ticket_ok (stamp ticket now) -> publish_and_transfer st g ticket ttl pttl now = (st', g', ok) ->
      cluster_step (redis_ g, h) (redis_ g', Published (stamp ticket now) :: h)
  | step_redeem st st' g g' token out h : prefix_ g = prefix -> queued_ g = [] -> fits 64 token ->
      redeem st g token = (st', g', out) ->
      cluster_step (redis_ g, h) (redis_ g', match out with Some t => Redeemed token t :: h | None => h end)
  | step_discard g g' token ok h : prefix_ g = prefix -> queued_ g = [] -> fits 64 token ->
      discard g token = (g', ok) -> cluster_step (redis_ g, h) (redis_ g', h)
  | step_other s s' h : keys_ok prefix (keyspace s') ->
      (forall token, fits 64 token -> ticket_at prefix (keyspace s') token = ticket_at prefix (keyspace s) token \/ ticket_at prefix (keyspace s') token = None) ->
      cluster_step (s, h) (s', h).

(** A key that is present is paid for by a publication that was not redeemed,
    and holds the text of a published ticket. *)
Definition present (v : option RedisValue) : nat := match v with Some _ => 1%nat | None => O end.

Record tickets_ok (m : keyspace_map) (h : list TicketEvent) : Prop := {
  to_keys : keys_ok prefix m;
  to_count : forall token, fits 64 token ->
    (count (redeemed_token token) h + present (ticket_at prefix m token) <= count (published_token token) h)%nat;
  to_value : forall token v, fits 64 token -> ticket_at prefix m token = Some (VString v) ->
    exists t, Published t ∈ h /\ mt_token t = token /\ ticket_ok t /\ v = encode_migration_ticket t /\ v <> EmptyString;
  to_redeemed : forall token t, Redeemed token t ∈ h -> mt_token t = token /\ Published t ∈ h
}.

Lemma tickets_ok_lose m m' h : tickets_ok m h -> keys_ok prefix m' ->
  (forall token, fits 64 token -> ticket_at prefix m' token = ticket_at prefix m token \/ ticket_at prefix m' token = None) -> tickets_ok m' h.
Proof.
  intros [Hk Hc Hv Hr] Hk' Hl. split; [done| | |done].
  - intros token Ht. specialize (Hc token Ht). destruct (Hl token Ht) as [->| ->]; [done|]. cbn. lia.
  - intros token v Ht E. destruct (Hl token Ht) as [E'|E']; rewrite E' in E; [by apply Hv|done].
Qed.

Lemma count_cons f e h : count f (e :: h) = ((if f e then 1 else 0) + count f h)%nat.
Proof. unfold count. rewrite filter_cons. destruct (f e); [by rewrite decide_True|by rewrite decide_False]. Qed.

Lemma tickets_ok_published m m' h t : tickets_ok m h -> keys_ok prefix m' -> ticket_ok t -> encode_migration_ticket t <> EmptyString ->
  (forall k, fits 64 k -> k <> mt_token t -> ticket_at prefix m' k = ticket_at prefix m k) ->
  (ticket_at prefix m' (mt_token t) = ticket_at prefix m (mt_token t) \/ ticket_at prefix m' (mt_token t) = None \/
   ticket_at prefix m (mt_token t) = None /\ ticket_at prefix m' (mt_token t) = Some (VString (encode_migration_ticket t))) ->
  tickets_ok m' (Published t :: h).
Proof.
  intros [Hk Hc Hv Hr] Hk' Ht Hne Hother Hthis. split; [done| | |].
  - intros token Hf. specialize (Hc token Hf). rewrite !count_cons. cbn [redeemed_token published_token].
    destruct (Z.eqb_spec (mt_token t) token) as [<-|Hnt].
    + destruct Hthis as [->|[->|[E ->]]]; [lia|cbn; lia|]. rewrite E in Hc. cbn in *. lia.
    + rewrite Hother by done. lia.
  - intros token v Hf E.
    assert (Hcase : ticket_at prefix m token = Some (VString v) \/ (token = mt_token t /\ v = encode_migration_ticket t)).
    { destruct (decide (token = mt_token t)) as [->|Hnt]; [|left; by rewrite <- Hother].
      destruct Hthis as [E'|[E'|[_ E']]]; rewrite E' in E; [by left|done|right]. split; [done|congruence]. }
    destruct Hcase as [Hold|[-> ->]].
    + destruct (Hv token v Hf Hold) as (t' & Hin & Hrest). exists t'. split; [by right|done].
    + exists t. split; [by left|done].
  - intros token t' Hin. apply elem_of_cons in Hin as [Hin|Hin]; [done|]. destruct (Hr token t' Hin) as [E Hp]. split; [done|by right].
Qed.

Lemma tickets_ok_skip m h t : tickets_ok m h -> tickets_ok m (Published t :: h).
Proof.
  intros [Hk Hc Hv Hr]. split; [done| | |].
  - intros token Hf. specialize (Hc token Hf). rewrite !count_cons. cbn [redeemed_token]. destruct (published_token token _); lia.
  - intros token v Hf E. destruct (Hv token v Hf E) as (t' & Hin & Hrest). exists t'. split; [by right|done].
  - intros token t' Hin. apply elem_of_cons in Hin as [Hin|Hin]; [done|]. destruct (Hr token t' Hin) as [E Hp]. split; [done|by right].
Qed.

Lemma discard_effect (g g' : ClusterRegistry R) token ok : prefix_ g = prefix -> queued_ g = [] -> fits 64 token -> keys_ok prefix (keyspace (redis_ g)) ->
  discard g token = (g', ok) -> keys_ok prefix (keyspace (redis_ g')) /\
  (forall k, fits 64 k -> k <> token -> ticket_at prefix (keyspace (redis_ g')) k = ticket_at prefix (keyspace (redis_ g)) k) /\
  (ticket_at prefix (keyspace (redis_ g')) token = ticket_at prefix (keyspace (redis_ g)) token \/ ticket_at prefix (keyspace (redis_ g')) token = None).
Proof.
  intros Hp Hq Hf Hk E. unfold discard in E. rewrite <- Hp in *.
  pose proof (registry_command_one g _ _ Hq (del_has_effect (prefix_ g) token) Hk (del_twice _)) as Hc. cbv zeta in Hc.
  destruct (registry_command g _) as [g1 r]. injection E as <- _. destruct Hc as (_ & _ & Hk' & Hc). split; [done|].
  assert (Hm : keyspace (redis_ g1) = keyspace (redis_ g) \/ keyspace (redis_ g1) = delete (ticket_key (prefix_ g) token) (keyspace (redis_ g))).
  { destruct Hc as [[Hm _]|(_ & Hm & _)]; [by right|exact Hm]. }
  unfold ticket_at. destruct Hm as [->| ->]; [split; [done|by left]|]. split; [|right; apply lookup_delete_eq].
  intros k Hfk Hne. apply lookup_delete_ne. intros E. apply Hne. symmetry. by apply (ticket_key_inj (prefix_ g)).
Qed.

Lemma publish_effect st st' (g g' : ClusterRegistry R) ticket ttl pttl now ok : prefix_ g = prefix -> queued_ g = [] -> 0 < ttl < 2 ^ 63 -> 0 < pttl < 2 ^ 63 ->
  fits 64 (mt_token (stamp ticket now)) -> keys_ok prefix (keyspace (redis_ g)) ->
  publish_and_transfer st g ticket ttl pttl now = (st', g', ok) ->
  let t := stamp ticket now in let m := keyspace (redis_ g) in let m' := keyspace (redis_ g') in
  keys_ok prefix m' /\
  (m' = m \/ encode_migration_ticket t <> EmptyString /\
   (forall k, fits 64 k -> k <> mt_token t -> ticket_at prefix m' k = ticket_at prefix m k) /\
   (ticket_at prefix m' (mt_token t) = ticket_at prefix m (mt_token t) \/ ticket_at prefix m' (mt_token t) = None \/
    ticket_at prefix m (mt_token t) = None /\ ticket_at prefix m' (mt_token t) = Some (VString (encode_migration_ticket t)))).
Proof.
  intros Hp Hq Ht1 Ht2 Hf Hk E. cbv zeta. unfold publish_and_transfer in E. set (t := stamp ticket now) in *. set (blob := encode_migration_ticket t) in *.
  destruct (string_empty blob) eqn:Eb; [injection E as _ <- _; split; [done|by left]|].
  assert (Hblob : blob <> EmptyString) by (intros Hb; rewrite Hb in Eb; done). clear Eb.
  unfold registry_flush, queue_transfer_presence, registry_queue in E. rewrite Hq, Hp in E. cbn [redis_ prefix_ queued_ app] in E.
  pose proof (flush_refines (keys_ok prefix) (redis_ g) [_; _] [_; _] ltac:(done)
    ltac:(constructor; [exact (set_nx_has_effect prefix (mt_token t) blob ttl Ht1)|constructor; [exact (transfer_effect prefix (mt_player_id t) (mt_from_shard t) (mt_to_shard t) (mt_region t) pttl now Ht2)|constructor]]) Hk) as [Ef Hk1].
  destruct (flush_commands (redis_ g) _) as [s1 out]. rewrite <- Ef in Hk1. cbn [fst] in Hk1.
  assert (Hpub : may_publish prefix (mt_token t) blob (keyspace (redis_ g)) (keyspace s1)).
  { change (keyspace s1) with (fst (keyspace s1, out)). rewrite Ef. exact (deliver_effects_rel (may_publish prefix (mt_token t) blob)
    [set_nx_effect (ticket_key prefix (mt_token t)) blob; transfer_outcome prefix (mt_player_id t) (mt_from_shard t) (mt_to_shard t) (mt_region t) now]
    (may_publish_refl prefix _ _) (may_publish_trans prefix _ _)
    ltac:(constructor; [intros m; by apply set_nx_may_publish|constructor; [|constructor]; intros m; split; [intros k _ _|left]; apply transfer_keeps_tickets])
    2 (snd (attempts (redis_ g))) (keyspace (redis_ g))). }
  clear Ef.
  set (g1 := mkClusterRegistry s1 prefix []) in E. destruct Hpub as [Hpub1 Hpub2].
  assert (Hsame : keyspace (redis_ g') = keyspace s1 -> keys_ok prefix (keyspace (redis_ g')) /\
    (forall k, fits 64 k -> k <> mt_token t -> ticket_at prefix (keyspace (redis_ g')) k = ticket_at prefix (keyspace (redis_ g)) k) /\
    (ticket_at prefix (keyspace (redis_ g')) (mt_token t) = ticket_at prefix (keyspace (redis_ g)) (mt_token t) \/ ticket_at prefix (keyspace (redis_ g')) (mt_token t) = None \/
     ticket_at prefix (keyspace (redis_ g)) (mt_token t) = None /\ ticket_at prefix (keyspace (redis_ g')) (mt_token t) = Some (VString blob))).
  { intros ->. split; [done|]. split; [done|]. destruct Hpub2; auto. }
  assert (Hout : g' = g1 \/ g' = fst (discard g1 (mt_token t))).
  { destruct out as [[|set_reply [|transfer_reply [|]]]|]; try (injection E as _ <- _; by left).
    destruct (negb (reply_ok set_reply)); [injection E as _ <- _; by left|].
    destruct (negb (is_one transfer_reply)); injection E as _ <- _; [by right|by left]. }
  destruct Hout as [->| ->].
  - destruct (Hsame eq_refl) as (A & B & C). split; [done|]. right. done.
  - destruct (discard g1 (mt_token t)) as [g2 ok2] eqn:Ed. cbn [fst] in *.
    destruct (discard_effect g1 g2 (mt_token t) ok2 eq_refl eq_refl Hf Hk1 Ed) as (A & B & C). split; [done|]. right. split; [done|].
    split; [intros k Hfk Hne; rewrite B by done; by apply Hpub1|].
    destruct C as [->| ->]; [|by right; left]. change (redis_ g1) with s1. destruct Hpub2; auto.
Qed.

Lemma redeem_effect st st' (g g' : ClusterRegistry R) token out : prefix_ g = prefix -> queued_ g = [] -> keys_ok prefix (keyspace (redis_ g)) ->
  redeem st g token = (st', g', out) ->
  let m := keyspace (redis_ g) in let m' := keyspace (redis_ g') in
  keys_ok prefix m' /\ (m' = m \/ m' = delete (ticket_key prefix token) m) /\
  forall t, out = Some t -> mt_token t = token /\ m' = delete (ticket_key prefix token) m /\
    exists v, ticket_at prefix m token = Some (VString v) /\ decode_migration_ticket v = Some t.
Proof.
  intros Hp Hq Hk E. cbv zeta. unfold redeem in E. rewrite <- Hp in *.
  assert (Htwice : forall m, fst (getdel_effect (ticket_key (prefix_ g) token) (fst (getdel_effect (ticket_key (prefix_ g) token) m))) = fst (getdel_effect (ticket_key (prefix_ g) token) m))
    by (intros m; by rewrite getdel_twice).
  pose proof (registry_command_one g _ _ Hq (getdel_has_effect (prefix_ g) token) Hk Htwice) as Hc. cbv zeta in Hc. rewrite getdel_twice in Hc.
  destruct (registry_command g _) as [g1 r]. destruct Hc as (_ & _ & Hk1 & Hc).
  assert (Eg : g1 = g') by (destruct (negb (bool_decide (rr_type r = kString))); [congruence|destruct (decode_migration_ticket _) as [t|]; [destruct (negb _)|]; congruence]).
  subst g1. split; [done|]. set (m := keyspace (redis_ g)) in *. set (m' := keyspace (redis_ g')) in *.
  assert (Hget : fst (getdel_effect (ticket_key (prefix_ g) token) m) = m \/ fst (getdel_effect (ticket_key (prefix_ g) token) m) = delete (ticket_key (prefix_ g) token) m).
  { unfold getdel_effect. destruct (m !! ticket_key (prefix_ g) token) as [[v| |]|]; [by right|by left..]. }
  split; [destruct Hc as [[-> _]|(_ & [->| ->] & _)]; [exact Hget|by left|exact Hget]|].
  intros t ->. destruct (bool_decide (rr_type r = kString)) eqn:Et; cbn [negb] in E; [|discriminate E]. apply bool_decide_eq_true in Et.
  destruct (decode_migration_ticket (rr_str r)) as [t'|] eqn:Ed; [|discriminate E].
  destruct (Z.eqb_spec (mt_token t') token) as [Ht|]; cbn [negb] in E; [|discriminate E].
  assert (t' = t) as -> by congruence. split; [done|].
  destruct Hc as [[Hm Hr]|(He & _)]; [|unfold is_error in He; apply bool_decide_eq_true in He; congruence].
  destruct Hr as [->|[-> _]]; [|discriminate Et]. rewrite Hm. unfold getdel_effect, ticket_at in *.
  destruct (m !! ticket_key (prefix_ g) token) as [[v| |]|]; try discriminate Et. split; [done|]. by exists v.
Qed.

Lemma tickets_ok_redeemed m m' h token t : tickets_ok m h -> keys_ok prefix m' -> fits 64 token -> mt_token t = token ->
  m' = delete (ticket_key prefix token) m -> (exists v, ticket_at prefix m token = Some (VString v) /\ decode_migration_ticket v = Some t) ->
  (forall t, ticket_ok t -> encode_migration_ticket t <> EmptyString -> decode_migration_ticket (encode_migration_ticket t) = Some t) ->
  tickets_ok m' (Redeemed token t :: h).
Proof.
  intros Hok Hk' Hf Et -> (v & Ev & Ed) Hrt. pose proof Hok as [Hk Hc Hv Hr].
  destruct (Hv token v Hf Ev) as (t' & Hin & Et' & Hok' & -> & Hne). rewrite Hrt in Ed by done. injection Ed as ->.
  assert (Hdel : forall k, fits 64 k -> ticket_at prefix (delete (ticket_key prefix token) m) k = if decide (k = token) then None else ticket_at prefix m k).
  { intros k Hfk. unfold ticket_at. destruct (decide (k = token)) as [->|Hn]; [apply lookup_delete_eq|]. apply lookup_delete_ne.
    intros E. apply Hn. symmetry. by apply (ticket_key_inj prefix). }
  split; [done| | |].
  - intros k Hfk. specialize (Hc k Hfk). rewrite !count_cons, Hdel by done. cbn [redeemed_token published_token].
    destruct (decide (k = token)) as [->|Hn].
    + rewrite Ev in Hc. rewrite Z.eqb_refl. cbn in *. lia.
    + destruct (Z.eqb_spec token k); [congruence|]. lia.
  - intros k v Hfk E. rewrite Hdel in E by done. destruct (decide (k = token)); [done|]. destruct (Hv k v Hfk E) as (t2 & Hin2 & Hrest).
    exists t2. split; [by right|done].
  - intros k t2 Hin2. apply elem_of_cons in Hin2 as [[= -> ->]|Hin2].
    + split; [done|]. by right.
    + destruct (Hr k t2 Hin2). split; [done|]. by right.
Qed.
End Cluster.

Lemma encode_decode_ticket t : ticket_ok t -> encode_migration_ticket t <> EmptyString -> decode_migration_ticket (encode_migration_ticket t) = Some t.
Proof.
  intros Ht Hne. destruct (proj2 (encode_ticket_spec t Ht) Hne) as (body & sum & -> & Hf & Hb & Hs & Hl & Hlen).
  rewrite decode_blob by done. by apply decode_body.
Qed.

Section ClusterInvariant.
Context `{RedisLaws R} (prefix : string).

Lemma publish_step st (g : ClusterRegistry R) ticket ttl pttl now h : prefix_ g = prefix -> queued_ g = [] -> 0 < ttl < 2 ^ 63 -> 0 < pttl < 2 ^ 63 ->
  ticket_ok (stamp ticket now) ->
  cluster_step prefix (redis_ g, h) (redis_ (snd (fst (publish_and_transfer st g ticket ttl pttl now))), Published (stamp ticket now) :: h).
Proof.
  intros. destruct (publish_and_transfer st g ticket ttl pttl now) as [[st' g'] ok] eqn:E. by apply (step_publish prefix st st' g g' ticket ttl pttl now ok).
Qed.

Lemma redeem_step st (g : ClusterRegistry R) token t h : prefix_ g = prefix -> queued_ g = [] -> fits 64 token ->
  snd (redeem st g token) = Some t ->
  cluster_step prefix (redis_ g, h) (redis_ (snd (fst (redeem st g token))), Redeemed token t :: h).
Proof.
  intros Hp Hq Hf. destruct (redeem st g token) as [[st' g'] out] eqn:E. cbn [fst snd]. intros ->.
  apply (step_redeem prefix st st' g g' token (Some t) h Hp Hq Hf E).
Qed.

Lemma cluster_step_ok (x y : R * list TicketEvent) : cluster_step prefix x y -> tickets_ok prefix (keyspace (fst x)) (snd x) -> tickets_ok prefix (keyspace (fst y)) (snd y).
Proof.
  intros Hstep Hok. pose proof (to_keys _ _ _ Hok) as Hk. destruct Hstep as [st st' g g' ticket ttl pttl now ok h Hp Hq H1 H2 Ht E
    |st st' g g' token out h Hp Hq Hf E|g g' token ok h Hp Hq Hf E|s s' h Hk' Hl]; cbn [fst snd] in *.
  - assert (Hf : fits 64 (mt_token (stamp ticket now))) by apply Ht.
    destruct (publish_effect prefix st st' g g' ticket ttl pttl now ok Hp Hq H1 H2 Hf Hk E) as (Hk' & [->|(Hne & Ho & Hm)]).
    + by apply tickets_ok_skip.
    + by apply (tickets_ok_published prefix (keyspace (redis_ g))).
  - destruct (redeem_effect prefix st st' g g' token out Hp Hq Hk E) as (Hk' & Hm & Hout). destruct out as [t|].
    + destruct (Hout t eq_refl) as (Et & Em & Hv). by apply (tickets_ok_redeemed prefix (keyspace (redis_ g)) _ h token t Hok Hk' Hf Et Em Hv), encode_decode_ticket.
    + apply (tickets_ok_lose prefix (keyspace (redis_ g))); [done..|]. intros k Hfk. destruct Hm as [->| ->]; [by left|]. unfold ticket_at.
      destruct (decide (ticket_key prefix token = ticket_key prefix k)) as [->|Hn]; [right; apply lookup_delete_eq|left; by apply lookup_delete_ne].
  - destruct (discard_effect prefix g g' token ok Hp Hq Hf Hk E) as (Hk' & Ho & Hm). apply (tickets_ok_lose prefix (keyspace (redis_ g))); [done..|].
    intros k Hfk. destruct (decide (k = token)) as [->|Hn]; [done|]. left. by apply Ho.
  - by apply (tickets_ok_lose prefix (keyspace s)).
Qed.
End ClusterInvariant.

(** ** A publication and a redemption that succeed *)
Section Success.
Context `{RedisLaws R} (prefix : string).

(** A [SET NX] answered with OK was the first command of the batch to run: a
    broken try that had executed it would have left the key. *)
Lemma deliver_set_nx k v (e : effect) : (forall m, fst (e m) !! k = m !! k) ->
  forall tries plan m m' r1 r2, deliver_effects tries plan m [set_nx_effect k v; e] = (m', Some [r1; r2]) -> reply_ok r1 = true ->
  m !! k = None /\ m' = fst (e (<[k := VString v]> m)) /\ r2 = snd (e (<[k := VString v]> m)).
Proof.
  intros He. induction tries as [|tries IH]; intros plan m m' r1 r2 E Hok; [discriminate E|].
  destruct plan as [|[|executed] plan]; [discriminate E| |].
  - cbn [deliver_effects run_effects] in E. unfold set_nx_effect in E. destruct (m !! k).
    + destruct (e m) as [m2 rr]. injection E as <- <- <-. discriminate Hok.
    + destruct (e (<[k:=VString v]> m)) as [m2 rr]. injection E as <- <- <-. done.
  - cbn [deliver_effects] in E. destruct executed as [|executed].
    + cbn [take run_effects fst] in E. by apply (IH plan m m' r1 r2).
    + exfalso. assert (Hpresent : fst (run_effects m (take (S executed) [set_nx_effect k v; e])) !! k <> None).
      { assert (Hset : fst (set_nx_effect k v m) !! k <> None) by (unfold set_nx_effect; destruct (m !! k) eqn:Ek; cbn [fst]; [congruence|by rewrite lookup_insert_eq]).
        destruct executed as [|executed]; cbn [take run_effects]; destruct (set_nx_effect k v m) as [m1 rr1]; [exact Hset|].
        replace (take executed (@nil effect)) with (@nil effect) by (by destruct executed). cbn [run_effects].
        specialize (He m1). destruct (e m1) as [m2 rr2]. cbn [fst] in *. by rewrite He. }
      destruct (IH _ _ _ _ _ E Hok) as [Hnone _]. by apply Hpresent.
Qed.

Lemma publish_success st st' (g g' : ClusterRegistry R) ticket ttl pttl now : prefix_ g = prefix -> queued_ g = [] -> 0 < ttl < 2 ^ 63 -> 0 < pttl < 2 ^ 63 ->
  keys_ok prefix (keyspace (redis_ g)) -> publish_and_transfer st g ticket ttl pttl now = (st', g', true) ->
  let t := stamp ticket now in let m := keyspace (redis_ g) in
  let key := ticket_key prefix (mt_token t) in let blob := encode_migration_ticket t in
  blob <> EmptyString /\ m !! key = None /\ may_take prefix m (mt_player_id t) (mt_from_shard t) = true /\
  keyspace (redis_ g') = transferred prefix (mt_player_id t) (mt_from_shard t) (mt_to_shard t) (mt_region t) now (<[key := VString blob]> m) /\
  keys_ok prefix (keyspace (redis_ g')).
Proof.
  intros Hp Hq Ht1 Ht2 Hk E. cbv zeta. unfold publish_and_transfer in E. set (t := stamp ticket now) in *. set (blob := encode_migration_ticket t) in *.
  destruct (string_empty blob) eqn:Eb; [discriminate E|].
  assert (Hblob : blob <> EmptyString) by (intros Hb; rewrite Hb in Eb; done). clear Eb.
  unfold registry_flush, queue_transfer_presence, registry_queue in E. rewrite Hq, Hp in E. cbn [redis_ prefix_ queued_ app] in E.
  pose proof (flush_refines (keys_ok prefix) (redis_ g) [_; _] [_; _] ltac:(done)
    ltac:(constructor; [exact (set_nx_has_effect prefix (mt_token t) blob ttl Ht1)|constructor; [exact (transfer_effect prefix (mt_player_id t) (mt_from_shard t) (mt_to_shard t) (mt_region t) pttl now Ht2)|constructor]]) Hk) as [Ef Hk1].
  destruct (flush_commands (redis_ g) _) as [s1 out]. rewrite <- Ef in Hk1. cbn [fst] in Hk1.
  destruct out as [[|set_reply [|transfer_reply [|]]]|]; try discriminate E.
  destruct (reply_ok set_reply) eqn:Hset; cbn [negb] in E; [|discriminate E].
  destruct (is_one transfer_reply) eqn:Hone; cbn [negb] in E; [|discriminate E]. injection E as _ <-. cbn [redis_].
  symmetry in Ef. destruct (deliver_set_nx (ticket_key prefix (mt_token t)) blob _ (fun m => transfer_keeps_tickets prefix _ _ _ _ _ m (mt_token t)) _ _ _ _ _ _ Ef Hset) as (Hnone & Hm & Hr).
  assert (Hown : forall q shard, may_take prefix (<[ticket_key prefix (mt_token t) := VString blob]> (keyspace (redis_ g))) q shard = may_take prefix (keyspace (redis_ g)) q shard).
  { intros q shard. unfold may_take, owner_of. by rewrite hash_at_other by apply presence_not_ticket. }
  unfold transfer_outcome in Hm, Hr. rewrite Hown in Hm, Hr.
  destruct (may_take prefix (keyspace (redis_ g)) (mt_player_id t) (mt_from_shard t)); [|subst transfer_reply; discriminate Hone].
  split; [done|]. split; [done|]. split; [done|]. by split.
Qed.

(** An answered redemption of a stored ticket returns it and deletes the key. *)
Lemma redeem_answered st (g : ClusterRegistry R) t : prefix_ g = prefix -> queued_ g = [] -> keys_ok prefix (keyspace (redis_ g)) ->
  head (snd (attempts (redis_ g))) = Some Completed -> ticket_ok t -> encode_migration_ticket t <> EmptyString ->
  ticket_at prefix (keyspace (redis_ g)) (mt_token t) = Some (VString (encode_migration_ticket t)) ->
  let '(st', g', out) := redeem st g (mt_token t) in
  out = Some t /\ keyspace (redis_ g') = delete (ticket_key prefix (mt_token t)) (keyspace (redis_ g)) /\
  prefix_ g' = prefix /\ queued_ g' = [] /\ keys_ok prefix (keyspace (redis_ g')).
Proof.
  intros Hp Hq Hk Ha Hok Hne Hat. unfold redeem. rewrite <- Hp in *.
  pose proof (registry_command_one g _ _ Hq (getdel_has_effect (prefix_ g) (mt_token t)) Hk) as Hc. cbv zeta in Hc.
  destruct (registry_command g _) as [g1 r]. destruct Hc as (Hq1 & Hp1 & Hk1 & Hc); [intros m; by rewrite getdel_twice|].
  destruct Hc as [(Hm & [Hr|[_ Hn]])|(_ & _ & Hn)]; [|by contradiction Hn..].
  unfold getdel_effect in Hm, Hr. unfold ticket_at in Hat. rewrite Hat in Hm, Hr. cbn [fst snd] in Hm, Hr. subst r.
  cbn [bulk_reply rr_type rr_str]. rewrite bool_decide_eq_true_2 by done. cbn [negb].
  rewrite encode_decode_ticket by done. rewrite Z.eqb_refl. cbn [negb]. by split_and!.
Qed.

(** A token without a ticket is never redeemed. *)
Lemma redeem_missing st (g : ClusterRegistry R) token : prefix_ g = prefix -> queued_ g = [] -> keys_ok prefix (keyspace (redis_ g)) ->
  ticket_at prefix (keyspace (redis_ g)) token = None -> snd (redeem st g token) = None.
Proof.
  intros Hp Hq Hk Hat. destruct (redeem st g token) as [[st' g'] out] eqn:E. cbn [snd].
  destruct (redeem_effect prefix st st' g g' token out Hp Hq Hk E) as (_ & _ & Ht). destruct out as [t|]; [|done].
  destruct (Ht t eq_refl) as (_ & _ & v & Hv & _). congruence.
Qed.
End Success.


(** ** Properties *)
(** C33. The ticket codec.  A ticket is encoded exactly when it fits in 512 bytes
    with its checksum, and what is encoded decodes to the ticket; and a blob in
    which any one byte was changed is refused. *)
Theorem ticket_roundtrip (t : MigrationTicket) : ticket_ok t ->
  let blob := encode_migration_ticket t in
  (blob <> EmptyString <-> Z.of_nat (length (ticket_bits t)) + 32 <= kMigrationTicketBytes * 8) /\
  (blob <> EmptyString -> decode_migration_ticket blob = Some t /\
   forall i b, fits 8 b -> <[i := b]> (string_bytes blob) <> string_bytes blob ->
     decode_migration_ticket (bytes_string (<[i := b]> (string_bytes blob))) = None).
Proof.
  intros Ht. cbv zeta. destruct (encode_ticket_spec t Ht) as [Hiff Hspec]. split; [exact Hiff|]. intros Hne.
  split; [by apply encode_decode_ticket|]. intros i b Hb Hd.
  destruct (Hspec Hne) as (body & sum & E & Hf & _ & Hs & Hl & _). rewrite E, string_bytes_string in Hd |- * by done.
  rewrite decode_blob by (by apply Forall_insert). by apply decode_corrupt.
Qed.

(** C8. Tickets are redeemed at most once.  However the processes of a cluster
    publish, redeem and discard, and however keys expire and replies get lost,
    no token is redeemed more often than it was published, and what a redemption
    returns is exactly a ticket that was published under that token. *)
Theorem redeem_at_most_once `{RedisLaws R} (prefix : string) (s s' : R) (h : list TicketEvent) :
  keys_ok prefix (keyspace s) -> (forall token, fits 64 token -> ticket_at prefix (keyspace s) token = None) ->
  rtc (cluster_step prefix) (s, []) (s', h) ->
  (forall token, fits 64 token -> (count (redeemed_token token) h <= count (published_token token) h)%nat) /\
  (forall token t, Redeemed token t ∈ h -> mt_token t = token /\ Published t ∈ h).
Proof.
  intros Hk Hnone Hsteps.
  assert (Hinv : tickets_ok prefix (keyspace s') h).
  { apply (rtc_ind_r (fun x => tickets_ok prefix (keyspace (fst x)) (snd x)) (s, [])) in Hsteps; [exact Hsteps| |].
    - split; [done| | |]; cbn; [|intros token v Hf E; by rewrite Hnone in E|by intros ? ? ?%elem_of_nil].
      intros token Hf. rewrite Hnone by done. cbn. lia.
    - intros x y _ Hstep Hok. by apply (cluster_step_ok prefix x y). }
  split; [intros token Hf; pose proof (to_count _ _ _ Hinv token Hf); lia|apply Hinv].
Qed.

(** ** Witnesses *)
Definition sample_ticket : MigrationTicket :=
  mkMigrationTicket 77 "p1" "a" "b" 3 1000 (mkVec2 (f32_of_Z 1100) (f32_of_Z 10)) (mkVec2 (f32_of_Z 5) f0) 41 1700000000000.

Lemma sample_ticket_ok : ticket_ok sample_ticket.
Proof. repeat split; try (vm_compute; discriminate); try reflexivity; vm_compute; lia. Qed.

Lemma ticket_roundtrip_witness :
  encode_migration_ticket sample_ticket <> EmptyString /\
  let blob := encode_migration_ticket sample_ticket in
  (blob <> EmptyString <-> Z.of_nat (length (ticket_bits sample_ticket)) + 32 <= kMigrationTicketBytes * 8) /\
  (blob <> EmptyString -> decode_migration_ticket blob = Some sample_ticket /\
   forall i b, fits 8 b -> <[i := b]> (string_bytes blob) <> string_bytes blob ->
     decode_migration_ticket (bytes_string (<[i := b]> (string_bytes blob))) = None).
Proof. split; [vm_compute; discriminate|]. apply (ticket_roundtrip sample_ticket). apply sample_ticket_ok. Defined.

(** A publication and two redemptions, the second of which finds nothing. *)
Definition sample_published := publish_and_transfer MigrationStore_new sample_registry sample_ticket 10000 15000 5.
Definition sample_redeemed := redeem MigrationStore_new (snd (fst sample_published)) 77.
Definition sample_again := redeem MigrationStore_new (snd (fst sample_redeemed)) 77.
Definition sample_history : list TicketEvent := [Redeemed 77 sample_ticket; Published sample_ticket].

Lemma sample_results : snd sample_published = true /\ snd sample_redeemed = Some sample_ticket /\ snd sample_again = None.
Proof. vm_compute. by repeat split. Qed.

Lemma redeem_at_most_once_witness :
  (snd sample_published = true /\ snd sample_redeemed = Some sample_ticket /\ snd sample_again = None) /\
  (forall token, fits 64 token -> (count (redeemed_token token) sample_history <= count (published_token token) sample_history)%nat) /\
  (forall token t, Redeemed token t ∈ sample_history -> mt_token t = token /\ Published t ∈ sample_history).
Proof.
  split; [apply sample_results|].
  apply (redeem_at_most_once "morton" (redis_ sample_registry) (redis_ (snd (fst sample_redeemed))) sample_history).
  - apply keys_ok_empty.
  - intros token _. apply lookup_empty.
  - eapply rtc_l.
    + apply (publish_step "morton" MigrationStore_new sample_registry sample_ticket 10000 15000 5 []).
      * reflexivity.
      * reflexivity.
      * lia.
      * lia.
      * apply sample_ticket_ok.
    + eapply rtc_l; [|apply rtc_refl]. unfold sample_redeemed, sample_published, sample_history. change (stamp sample_ticket 5) with sample_ticket.
      apply (redeem_step "morton" MigrationStore_new (snd (fst (publish_and_transfer MigrationStore_new sample_registry sample_ticket 10000 15000 5))) 77 sample_ticket).
      * vm_compute; reflexivity.
      * vm_compute; reflexivity.
      * split; lia.
      * vm_compute; reflexivity.
Defined.
