(* ===== verification/Shard.v ===== *)
(** * Shard: region ownership and handoff ([src/src/cluster/shard.h], [shard.cpp])

    The coordinator of one shard: it heartbeats and re-reads the membership,
    derives who owns which region, decides handoffs and publishes and redeems
    their tickets.  Random numbers come from a generator parameter ([Rng], for
    [std::mt19937_64] seeded from the clock); times are arguments. *)

From S2P Require Import Prelude Bitstream F32 Quantizer Movement Messages Region Text Redis Store Presence Migration.
From Stdlib Require Import ZArith Lia Bool Ascii String.
From stdpp Require Import base tactics numbers list option gmap sets fin_maps sorting strings relations.
#[local] Open Scope Z_scope.

Class Rng (G : Type) := { rng_next : G -> Z * G }.

(** ** Data *)
Record ShardConfig := mkShardConfig {
  sc_id : string;
  sc_udp_endpoint : string;
  sc_http_endpoint : string;
  sc_capacity : Z;
  sc_heartbeat_ttl_ms : Z;
  sc_refresh_interval_ms : Z;
  sc_presence_ttl_ms : Z;
  sc_ticket_ttl_ms : Z;
  sc_regions : RegionMap
}.

Definition ShardConfig_default : ShardConfig := mkShardConfig EmptyString EmptyString EmptyString 512 4000 1000 15000 10000 RegionMap_default.

Record HandoffPlan := mkHandoffPlan {
  hp_token : Z;
  hp_target_region : Z;
  hp_target_shard : string;
  hp_target_endpoint : string
}.

Record ShardCoordinator (R G : Type) := mkShardCoordinator {
  co_config : ShardConfig;
  co_registry : ClusterRegistry R;
  co_tickets : MigrationStore;
  co_members : list ShardInfo;
  co_region_owner : list string;
  co_endpoints : gmap string string;
  co_last_refresh_ms : Z;
  co_rng : G;
  co_handoffs_started : Z;
  co_handoffs_accepted : Z;
  co_handoffs_declined : Z;
  co_shards_pruned : Z
}.
Arguments mkShardCoordinator {R G}.
Arguments co_config {R G} s.
Arguments co_registry {R G} s.
Arguments co_tickets {R G} s.
Arguments co_members {R G} s.
Arguments co_region_owner {R G} s.
Arguments co_endpoints {R G} s.
Arguments co_last_refresh_ms {R G} s.
Arguments co_rng {R G} s.
Arguments co_handoffs_started {R G} s.
Arguments co_handoffs_accepted {R G} s.
Arguments co_handoffs_declined {R G} s.
Arguments co_shards_pruned {R G} s.

Section Coordinator.
Context `{Platform} `{FloatText} `{Redis R} `{Rng G}.

Definition set_registry (s : ShardCoordinator R G) (g : ClusterRegistry R) (t : MigrationStore) : ShardCoordinator R G :=
  mkShardCoordinator (co_config s) g t (co_members s) (co_region_owner s) (co_endpoints s) (co_last_refresh_ms s) (co_rng s)
    (co_handoffs_started s) (co_handoffs_accepted s) (co_handoffs_declined s) (co_shards_pruned s).
Definition set_ownership (s : ShardCoordinator R G) (members : list ShardInfo) (owners : list string) (endpoints : gmap string string) : ShardCoordinator R G :=
  mkShardCoordinator (co_config s) (co_registry s) (co_tickets s) members owners endpoints (co_last_refresh_ms s) (co_rng s)
    (co_handoffs_started s) (co_handoffs_accepted s) (co_handoffs_declined s) (co_shards_pruned s).
Definition set_refreshed (s : ShardCoordinator R G) (now_ms : Z) : ShardCoordinator R G :=
  mkShardCoordinator (co_config s) (co_registry s) (co_tickets s) (co_members s) (co_region_owner s) (co_endpoints s) now_ms (co_rng s)
    (co_handoffs_started s) (co_handoffs_accepted s) (co_handoffs_declined s) (co_shards_pruned s).
Definition set_rng (s : ShardCoordinator R G) (rng : G) : ShardCoordinator R G :=
  mkShardCoordinator (co_config s) (co_registry s) (co_tickets s) (co_members s) (co_region_owner s) (co_endpoints s) (co_last_refresh_ms s) rng
    (co_handoffs_started s) (co_handoffs_accepted s) (co_handoffs_declined s) (co_shards_pruned s).
Definition count_started (s : ShardCoordinator R G) : ShardCoordinator R G :=
  mkShardCoordinator (co_config s) (co_registry s) (co_tickets s) (co_members s) (co_region_owner s) (co_endpoints s) (co_last_refresh_ms s) (co_rng s)
    (u64 (co_handoffs_started s + 1)) (co_handoffs_accepted s) (co_handoffs_declined s) (co_shards_pruned s).
Definition count_accepted (s : ShardCoordinator R G) : ShardCoordinator R G :=
  mkShardCoordinator (co_config s) (co_registry s) (co_tickets s) (co_members s) (co_region_owner s) (co_endpoints s) (co_last_refresh_ms s) (co_rng s)
    (co_handoffs_started s) (u64 (co_handoffs_accepted s + 1)) (co_handoffs_declined s) (co_shards_pruned s).
Definition count_declined (s : ShardCoordinator R G) : ShardCoordinator R G :=
  mkShardCoordinator (co_config s) (co_registry s) (co_tickets s) (co_members s) (co_region_owner s) (co_endpoints s) (co_last_refresh_ms s) (co_rng s)
    (co_handoffs_started s) (co_handoffs_accepted s) (u64 (co_handoffs_declined s + 1)) (co_shards_pruned s).
Definition count_pruned (s : ShardCoordinator R G) (n : Z) : ShardCoordinator R G :=
  mkShardCoordinator (co_config s) (co_registry s) (co_tickets s) (co_members s) (co_region_owner s) (co_endpoints s) (co_last_refresh_ms s) (co_rng s)
    (co_handoffs_started s) (co_handoffs_accepted s) (co_handoffs_declined s) (u32 (co_shards_pruned s + n)).

(** The ids that own regions: a draining shard is left out, but by itself. *)
Definition owning_ids (id : string) (members : list ShardInfo) : list string :=
  omap (fun shard => if si_draining shard && negb (si_id shard =? id)%string then None else Some (si_id shard)) members.

Definition member_endpoints (members : list ShardInfo) : gmap string string :=
  foldl (fun m shard => <[si_id shard := si_udp_endpoint shard]> m) ∅ members.

Definition recompute_ownership (s : ShardCoordinator R G) : ShardCoordinator R G :=
  set_ownership s (co_members s)
    (assign_regions (sort_ids (owning_ids (sc_id (co_config s)) (co_members s))) (Z.to_nat (region_count (sc_regions (co_config s)))))
    (member_endpoints (co_members s)).

Definition self_info (config : ShardConfig) (player_count : Z) (tick_p99_ms : f64) : ShardInfo :=
  mkShardInfo (sc_id config) (sc_udp_endpoint config) (sc_http_endpoint config) player_count (sc_capacity config) tick_p99_ms 0 false.

(** [wall] is [wall_ms()] inside the heartbeat. *)
Definition refresh (s : ShardCoordinator R G) (now_ms player_count : Z) (tick_p99_ms : f64) (force : bool) (wall : Z) : ShardCoordinator R G * bool :=
  let config := co_config s in
  if negb force && (u64 (now_ms - co_last_refresh_ms s) <? sc_refresh_interval_ms config) then (s, false) else
  let s := set_refreshed s now_ms in
  let '(g, beat) := heartbeat_shard (co_registry s) (self_info config player_count tick_p99_ms) (sc_heartbeat_ttl_ms config) wall in
  let s := set_registry s g (co_tickets s) in
  if negb beat then (s, false) else
  let '(g, members, pruned) := live_shards g in
  let s := count_pruned (set_registry s g (co_tickets s)) pruned in
  match members with
  | [] => (s, false)
  | _ =>
      let previous := co_region_owner s in
      let s := recompute_ownership (set_ownership s members previous (co_endpoints s)) in
      (s, negb (bool_decide (co_region_owner s = previous)))
  end.

(** [connected]: whether the registry reached the server. *)
Definition start_shard (config : ShardConfig) (server : R) (key_prefix : string) (connected : bool) (rng : G) (now_ms wall : Z) : ShardCoordinator R G * bool :=
  let s := mkShardCoordinator config (registry_connect server key_prefix) MigrationStore_new []
    (replicate (Z.to_nat (region_count (sc_regions config))) EmptyString) ∅ 0 rng 0 0 0 0 in
  if negb connected then (s, false) else refresh s now_ms 0 f64_zero true wall.

Definition stop_shard (s : ShardCoordinator R G) (connected : bool) : ShardCoordinator R G :=
  if negb connected then s else set_registry s (fst (remove_shard (co_registry s) (sc_id (co_config s)))) (co_tickets s).

Definition owner_of_region (s : ShardCoordinator R G) (region : Z) : string :=
  if region <? Z.of_nat (length (co_region_owner s)) then default EmptyString (co_region_owner s !! Z.to_nat region) else EmptyString.

Definition owns_region (s : ShardCoordinator R G) (region : Z) : bool :=
  (region <? Z.of_nat (length (co_region_owner s))) && (default EmptyString (co_region_owner s !! Z.to_nat region) =? sc_id (co_config s))%string.

Definition owned_regions (s : ShardCoordinator R G) : list Z :=
  filter (fun region => owns_region s region = true) (Z.of_nat <$> seq 0 (length (co_region_owner s))).

Definition endpoint_of_shard (s : ShardCoordinator R G) (shard_id : string) : option string :=
  match co_endpoints s !! shard_id with
  | None => None
  | Some endpoint => if (endpoint =? "")%string then None else Some endpoint
  end.

Definition spawn_region (s : ShardCoordinator R G) : Z :=
  match owned_regions s with [] => 0 | region :: _ => region end.

Definition next_token (s : ShardCoordinator R G) : Z * ShardCoordinator R G :=
  let '(token, rng) := rng_next (co_rng s) in (if token =? 0 then 1 else token, set_rng s rng).

(** [None] where the code divides by zero: a map without regions. *)
Definition plan_handoff (s : ShardCoordinator R G) (player_id : string) (current_region : Z) (position velocity : Vec2)
    (tick last_input_sequence wall : Z) : option (ShardCoordinator R G * option HandoffPlan) :=
  let config := co_config s in
  target_region ← handoff_target (sc_regions config) current_region (vec_x position) (vec_y position);
  if target_region =? kInvalidRegion then Some (s, None) else
  let owner := owner_of_region s target_region in
  if (owner =? "")%string || (owner =? sc_id config)%string then Some (s, None) else
  match endpoint_of_shard s owner with
  | None => Some (count_declined s, None)
  | Some endpoint =>
      let '(token, s) := next_token s in
      let ticket := mkMigrationTicket token player_id (sc_id config) owner target_region tick position velocity last_input_sequence 0 in
      let '(t, g, published) := publish_and_transfer (co_tickets s) (co_registry s) ticket (sc_ticket_ttl_ms config) (sc_presence_ttl_ms config) wall in
      let s := set_registry s g t in
      Some (if negb published then (count_declined s, None)
            else (count_started s, Some (mkHandoffPlan token target_region owner endpoint)))
  end.

Definition accept_handoff (s : ShardCoordinator R G) (token : Z) : ShardCoordinator R G * option MigrationTicket :=
  let '(t, g, out) := redeem (co_tickets s) (co_registry s) token in
  let s := set_registry s g t in
  match out with
  | None => (s, None)
  | Some ticket => if negb (mt_to_shard ticket =? sc_id (co_config s))%string then (s, None) else (count_accepted s, Some ticket)
  end.

Definition with_registry {A} (s : ShardCoordinator R G) (f : ClusterRegistry R -> ClusterRegistry R * A) : ShardCoordinator R G * A :=
  let '(g, a) := f (co_registry s) in (set_registry s g (co_tickets s), a).

Definition touch_presence (s : ShardCoordinator R G) (record : PresenceRecord) (wall : Z) : ShardCoordinator R G * bool :=
  with_registry s (fun g => set_presence g record (sc_presence_ttl_ms (co_config s)) wall).

Definition queue_touch_presence (s : ShardCoordinator R G) (record : PresenceRecord) (wall : Z) : ShardCoordinator R G :=
  set_registry s (queue_set_presence (co_registry s) record (sc_presence_ttl_ms (co_config s)) wall) (co_tickets s).

Definition flush_presence (s : ShardCoordinator R G) : ShardCoordinator R G * bool :=
  with_registry s (fun g => let '(g, out) := registry_flush g in (g, all_ok out)).

Definition claim_player (s : ShardCoordinator R G) (record : PresenceRecord) (wall : Z) : ShardCoordinator R G * bool * option string :=
  let '(g, ok, other) := claim_presence (co_registry s) record (sc_presence_ttl_ms (co_config s)) wall in
  (set_registry s g (co_tickets s), ok, other).

Definition release_player (s : ShardCoordinator R G) (player_id : string) : ShardCoordinator R G * bool :=
  with_registry s (fun g => clear_presence g player_id).
End Coordinator.

(** ** The configuration stays *)
Section Configuration.
Context `{Platform} `{FloatText} `{Redis R} `{Rng G}.
Implicit Types s : ShardCoordinator R G.

Lemma with_registry_config {A} s (f : ClusterRegistry R -> ClusterRegistry R * A) : co_config (fst (with_registry s f)) = co_config s.
Proof. unfold with_registry. by destruct (f (co_registry s)). Qed.

Lemma accept_handoff_config s token : co_config (fst (accept_handoff s token)) = co_config s.
Proof. unfold accept_handoff. destruct (redeem _ _ _) as [[t g] [ticket|]]; [|done]. by destruct (negb _). Qed.

Lemma refresh_config s now_ms players p99 force wall : co_config (fst (refresh s now_ms players p99 force wall)) = co_config s.
Proof.
  unfold refresh. destruct (negb force && _); [done|]. destruct (heartbeat_shard _ _ _ _) as [g beat]. destruct (negb beat); [done|].
  destruct (live_shards g) as [[g' members] pruned]. by destruct members.
Qed.

Lemma start_shard_config config server key_prefix connected (rng : G) now_ms wall :
  co_config (fst (start_shard config server key_prefix connected rng now_ms wall)) = config.
Proof. unfold start_shard. destruct (negb connected); [done|]. by rewrite refresh_config. Qed.

(** With at least one region per axis planning divides by no zero. *)
Lemma plan_handoff_some s player_id region position velocity tick sequence wall : rm_regions_per_axis (sc_regions (co_config s)) <> 0 ->
  exists s' out, plan_handoff s player_id region position velocity tick sequence wall = Some (s', out) /\ co_config s' = co_config s.
Proof.
  intros Hr. unfold plan_handoff. destruct (handoff_target_some (sc_regions (co_config s)) region (vec_x position) (vec_y position) Hr) as [target ->].
  cbn [mbind option_bind]. destruct (_ =? _); [by eexists _, _|]. destruct (_ || _); [by eexists _, _|].
  destruct (endpoint_of_shard _ _) as [endpoint|]; [|by eexists _, _]. unfold next_token. destruct (rng_next _) as [raw rng].
  destruct (publish_and_transfer _ _ _ _ _ _) as [[t g] published]. by destruct (negb published); eexists _, _.
Qed.
End Configuration.

(** ** Ownership *)
Section Ownership.
Context {R G : Type}.
Implicit Types s : ShardCoordinator R G.

(** A shard does not see itself as draining. *)
Definition self_active (id : string) (members : list ShardInfo) : Prop :=
  forall shard, shard ∈ members -> si_id shard = id -> si_draining shard = false.

Definition serving (members : list ShardInfo) : list ShardInfo := filter (fun shard => si_draining shard = false) members.

Lemma owning_ids_active id members : self_active id members -> owning_ids id members = si_id <$> serving members.
Proof.
  intros Hs. unfold owning_ids, serving. induction members as [|x members IH]; [done|]. cbn [omap list_omap]. rewrite filter_cons.
  rewrite IH by (intros y Hy; apply Hs; by right).
  destruct (si_draining x) eqn:Ed; cbn [andb].
  - destruct (String.eqb_spec (si_id x) id) as [E|]; cbn [negb]; [|by rewrite decide_False].
    specialize (Hs x (list_elem_of_here _ _) E). congruence.
  - by rewrite decide_True.
Qed.

Lemma active_permutation members members' : members ≡ₚ members' -> serving members ≡ₚ serving members'.
Proof. intros E. unfold serving. by rewrite E. Qed.

Lemma member_endpoints_map members : NoDup (si_id <$> members) ->
  member_endpoints members = list_to_map ((fun shard => (si_id shard, si_udp_endpoint shard)) <$> members).
Proof.
  unfold member_endpoints. intros Hnd.
  assert (Hgen : forall m, (forall id, id ∈ si_id <$> members -> m !! id = None) ->
    foldl (fun (m : gmap string string) shard => <[si_id shard := si_udp_endpoint shard]> m) m members =
    list_to_map ((fun shard => (si_id shard, si_udp_endpoint shard)) <$> members) ∪ m).
  { induction members as [|x members IH]; intros m Hm; [by rewrite fmap_nil, list_to_map_nil, (left_id_L ∅ (∪))|].
    rewrite fmap_cons in Hnd. apply NoDup_cons in Hnd as [Hx Hnd]. cbn [foldl]. rewrite IH; [|done|].
    - rewrite fmap_cons, list_to_map_cons. rewrite <- insert_union_l. symmetry. apply insert_union_r.
      apply not_elem_of_list_to_map_1. rewrite <- list_fmap_compose. exact Hx.
    - intros id Hid. rewrite lookup_insert_ne by (intros <-; done). apply Hm. rewrite fmap_cons. by right. }
  rewrite Hgen by (intros; apply lookup_empty). apply (right_id_L ∅ (∪)).
Qed.

Lemma member_endpoints_lookup members shard : NoDup (si_id <$> members) -> shard ∈ members ->
  member_endpoints members !! si_id shard = Some (si_udp_endpoint shard).
Proof.
  intros Hnd Hin. rewrite member_endpoints_map by done. apply elem_of_list_to_map_1.
  - rewrite <- list_fmap_compose. exact Hnd.
  - apply list_elem_of_fmap. by exists shard.
Qed.

Lemma member_endpoints_permutation members members' : NoDup (si_id <$> members) -> members ≡ₚ members' ->
  member_endpoints members = member_endpoints members'.
Proof.
  intros Hnd E. rewrite !member_endpoints_map; [|by rewrite <- E|done]. apply list_to_map_proper.
  - rewrite <- list_fmap_compose. exact Hnd.
  - by rewrite E.
Qed.

Lemma recomputed_length s : length (co_region_owner (recompute_ownership s)) = Z.to_nat (region_count (sc_regions (co_config s))).
Proof. apply assign_regions_length. Qed.

Lemma owned_regions_spec s region : 0 <= region -> (region ∈ owned_regions s <-> owns_region s region = true).
Proof.
  intros Hr. unfold owned_regions. rewrite list_elem_of_filter, list_elem_of_fmap. split; [by intros []|]. intros Ho. split; [done|].
  exists (Z.to_nat region). split; [lia|]. apply elem_of_seq.
  unfold owns_region in Ho. apply andb_true_iff in Ho as [Hl _]. apply Z.ltb_lt in Hl. lia.
Qed.

Lemma owns_owner s region : owns_region s region = true -> owner_of_region s region = sc_id (co_config s).
Proof.
  unfold owns_region, owner_of_region. intros [Hl Ho]%andb_true_iff. rewrite Hl. by apply String.eqb_eq.
Qed.

Lemma spawn_region_owned s region : 0 <= region -> owns_region s region = true -> owns_region s (spawn_region s) = true.
Proof.
  intros Hr Ho. apply owned_regions_spec in Ho as Hin; [|done]. unfold spawn_region. destruct (owned_regions s) as [|r l] eqn:E; [by apply elem_of_nil in Hin|].
  assert (Hr' : r ∈ owned_regions s) by (rewrite E; left). unfold owned_regions in Hr'. by apply list_elem_of_filter in Hr' as [? _].
Qed.
End Ownership.

(** ** Handoff *)

(** The ticket a planned handoff publishes. *)
Definition planned_ticket {R G} (s : ShardCoordinator R G) (plan : HandoffPlan) (player_id : string) (position velocity : Vec2)
    (tick last_input_sequence wall : Z) : MigrationTicket :=
  mkMigrationTicket (hp_token plan) player_id (sc_id (co_config s)) (hp_target_shard plan) (hp_target_region plan) tick
    position velocity last_input_sequence wall.

(** An idle coordinator whose server is in the state another left it in. *)
Definition follows {R G} (prefix : string) (d e : ShardCoordinator R G) : Prop :=
  prefix_ (co_registry d) = prefix /\ queued_ (co_registry d) = [] /\ redis_ (co_registry d) = redis_ (co_registry e).

Section Handoff.
Context `{Platform} `{RedisLaws R} `{Rng G}.
Implicit Types s d e : ShardCoordinator R G.

(** Where a planned handoff goes, and that its publication succeeded. *)
Lemma plan_handoff_inv s s' player_id current_region position velocity tick last_input_sequence wall plan :
  plan_handoff s player_id current_region position velocity tick last_input_sequence wall = Some (s', Some plan) ->
  let t := planned_ticket s plan player_id position velocity tick last_input_sequence 0 in
  (handoff_target (sc_regions (co_config s)) current_region (vec_x position) (vec_y position) = Some (hp_target_region plan) /\
   hp_target_region plan <> kInvalidRegion /\ hp_target_shard plan = owner_of_region s (hp_target_region plan) /\
   hp_target_shard plan <> sc_id (co_config s) /\ endpoint_of_shard s (hp_target_shard plan) = Some (hp_target_endpoint plan)) /\
  exists st, publish_and_transfer (co_tickets s) (co_registry s) t (sc_ticket_ttl_ms (co_config s)) (sc_presence_ttl_ms (co_config s)) wall =
    (st, co_registry s', true).
Proof.
  unfold plan_handoff. destruct (handoff_target _ _ _ _) as [target|]; [|done]. cbn [mbind option_bind]. intros E.
  destruct (Z.eqb_spec target kInvalidRegion) as [|Hvalid]; [discriminate E|].
  destruct (String.eqb_spec (owner_of_region s target) "") as [|Hne]; [discriminate E|]. cbn [orb] in E.
  destruct (String.eqb_spec (owner_of_region s target) (sc_id (co_config s))) as [|Hother]; [discriminate E|].
  destruct (endpoint_of_shard s (owner_of_region s target)) as [endpoint|] eqn:Hep; [|discriminate E].
  unfold next_token in E. destruct (rng_next (co_rng s)) as [r rng]. cbn [co_tickets co_registry set_rng] in E.
  destruct (publish_and_transfer _ _ _ _ _ _) as [[st g] published] eqn:Hpub.
  destruct published; cbn [negb] in E; [|discriminate E]. injection E as <- <-. cbv zeta. split; [by split_and!|]. by exists st.
Qed.

(** A redeemed token is spent for everybody. *)
Lemma accept_missing prefix d e token : follows prefix e d -> keys_ok prefix (keyspace (redis_ (co_registry d))) ->
  ticket_at prefix (keyspace (redis_ (co_registry d))) token = None -> snd (accept_handoff e token) = None.
Proof.
  intros (Hp & Hq & Hr) Hk Hn. pose proof (redeem_missing prefix (co_tickets e) (co_registry e) token Hp Hq) as Hm.
  rewrite Hr in Hm. specialize (Hm Hk Hn). unfold accept_handoff. destruct (redeem _ _ _) as [[st g] out]. cbn [snd] in Hm. by subst out.
Qed.

(** The first answered redemption of a stored ticket. *)
Lemma accept_stored prefix d t : prefix_ (co_registry d) = prefix -> queued_ (co_registry d) = [] -> keys_ok prefix (keyspace (redis_ (co_registry d))) ->
  head (snd (attempts (redis_ (co_registry d)))) = Some Completed -> ticket_ok t -> encode_migration_ticket t <> EmptyString ->
  ticket_at prefix (keyspace (redis_ (co_registry d))) (mt_token t) = Some (VString (encode_migration_ticket t)) ->
  let '(d', out) := accept_handoff d (mt_token t) in
  out = (if (mt_to_shard t =? sc_id (co_config d))%string then Some t else None) /\
  keys_ok prefix (keyspace (redis_ (co_registry d'))) /\ ticket_at prefix (keyspace (redis_ (co_registry d'))) (mt_token t) = None.
Proof.
  intros Hp Hq Hk Ha Hok Hne Hat. unfold accept_handoff.
  pose proof (redeem_answered prefix (co_tickets d) (co_registry d) t Hp Hq Hk Ha Hok Hne Hat) as Hr.
  destruct (redeem _ _ _) as [[st g] out]. destruct Hr as (-> & Hm & _ & _ & Hk').
  change (co_config (set_registry d g st)) with (co_config d).
  destruct (mt_to_shard t =? sc_id (co_config d))%string; cbn [negb co_registry set_registry count_accepted];
    (split_and!; [done|done|]); unfold ticket_at; rewrite Hm; apply lookup_delete_eq.
Qed.
(** A planned handoff leaves its ticket in the store, under a token that was free,
    and names the receiver in the directory. *)
Lemma handoff_stored s s' player_id current_region position velocity tick last_input_sequence wall plan :
  let prefix := prefix_ (co_registry s) in
  let t := planned_ticket s plan player_id position velocity tick last_input_sequence wall in
  let m := keyspace (redis_ (co_registry s)) in
  let m' := keyspace (redis_ (co_registry s')) in
  queued_ (co_registry s) = [] -> keys_ok prefix m ->
  0 < sc_ticket_ttl_ms (co_config s) < 2 ^ 63 -> 0 < sc_presence_ttl_ms (co_config s) < 2 ^ 63 ->
  plan_handoff s player_id current_region position velocity tick last_input_sequence wall = Some (s', Some plan) ->
  encode_migration_ticket t <> EmptyString /\ ticket_at prefix m (hp_token plan) = None /\
  may_take prefix m player_id (sc_id (co_config s)) = true /\ owner_of prefix m' player_id = Some (hp_target_shard plan) /\
  keys_ok prefix m' /\ ticket_at prefix m' (hp_token plan) = Some (VString (encode_migration_ticket t)).
Proof.
  intros prefix t m m' Hq Hk Ht1 Ht2 E. destruct (plan_handoff_inv _ _ _ _ _ _ _ _ _ _ E) as [_ [st Hpub]]. clear E.
  destruct (publish_success prefix _ _ _ _ _ _ _ _ eq_refl Hq Ht1 Ht2 Hk Hpub) as (Hblob & Hnone & Htake & Hm' & Hk'). clear Hpub.
  change (stamp _ wall) with t in Hblob, Hnone, Htake, Hm'. cbn [t planned_ticket mt_token mt_player_id mt_from_shard mt_to_shard mt_region] in Hnone, Htake, Hm'.
  fold m in Hnone, Htake, Hm'. fold m' in Hm', Hk'. split_and!; [done|done|done| |done|].
  - rewrite Hm'. apply owner_of_transferred.
  - unfold ticket_at. rewrite Hm', transferred_ticket. apply lookup_insert_eq.
Qed.
End Handoff.

(** ** Properties *)
(** C21. Shards agree on who owns the world without talking to each other.  Two
    coordinators that read the same membership, in whatever order the server
    lists it, and do not see themselves draining compute the same owner for every
    region and the same endpoints, so no region has two owners; while some shard
    is not draining every region belongs to one that is not, at the endpoint it
    registered; and with enough regions every such shard owns one and spawns
    players there. *)
Theorem ownership_agreement {R G} (s s' : ShardCoordinator R G) :
  co_members s ≡ₚ co_members s' -> NoDup (si_id <$> co_members s) ->
  self_active (sc_id (co_config s)) (co_members s) -> self_active (sc_id (co_config s')) (co_members s') ->
  region_count (sc_regions (co_config s')) = region_count (sc_regions (co_config s)) ->
  let a := recompute_ownership s in
  let b := recompute_ownership s' in
  let count := region_count (sc_regions (co_config s)) in
  (forall region, owner_of_region a region = owner_of_region b region) /\
  (forall id, endpoint_of_shard a id = endpoint_of_shard b id) /\
  (forall region, owns_region a region = true -> owns_region b region = true -> sc_id (co_config s) = sc_id (co_config s')) /\
  (forall region, 0 <= region < count -> serving (co_members s) <> [] -> exists shard, shard ∈ co_members s /\ si_draining shard = false /\
     owner_of_region a region = si_id shard /\
     endpoint_of_shard a (si_id shard) = if (si_udp_endpoint shard =? "")%string then None else Some (si_udp_endpoint shard)) /\
  (Z.of_nat (length (serving (co_members s))) <= count ->
   (exists shard, shard ∈ co_members s /\ si_id shard = sc_id (co_config s)) ->
   owns_region a (spawn_region a) = true).
Proof.
  intros Hp Hnd Ha Hb Hc. cbv zeta.
  assert (Eo : co_region_owner (recompute_ownership s) = co_region_owner (recompute_ownership s')).
  { unfold recompute_ownership. cbn [co_region_owner set_ownership]. rewrite Hc, !owning_ids_active by done. f_equal.
    apply sort_ids_agree, fmap_Permutation, active_permutation, Hp. }
  assert (Ee : co_endpoints (recompute_ownership s) = co_endpoints (recompute_ownership s')) by (by apply member_endpoints_permutation).
  assert (Hown : forall region, owner_of_region (recompute_ownership s) region = owner_of_region (recompute_ownership s') region)
    by (intros region; unfold owner_of_region; by rewrite Eo).
  split; [done|]. split; [intros id; unfold endpoint_of_shard; by rewrite Ee|]. split.
  { intros region H1%owns_owner H2%owns_owner. rewrite <- Hown in H2. exact (eq_trans (eq_sym H1) H2). }
  pose proof (recomputed_length s) as Hlen. set (ids := sort_ids (si_id <$> serving (co_members s))).
  assert (Er : co_region_owner (recompute_ownership s) = assign_regions ids (Z.to_nat (region_count (sc_regions (co_config s))))).
  { unfold recompute_ownership. cbn [co_region_owner set_ownership]. by rewrite owning_ids_active. }
  assert (Hids : forall id, id ∈ ids <-> exists shard, shard ∈ co_members s /\ si_draining shard = false /\ si_id shard = id).
  { intros id. unfold ids. rewrite sort_ids_permutation, list_elem_of_fmap. unfold serving. setoid_rewrite list_elem_of_filter.
    split; [intros (x & -> & ? & ?)|intros (x & ? & ? & <-)]; by exists x. }
  split.
  - intros region Hr Hne. assert (Hlt : (Z.to_nat region < length (co_region_owner (recompute_ownership s)))%nat) by (rewrite Hlen; lia).
    destruct (lookup_lt_is_Some_2 _ _ Hlt) as [id Hid]. assert (Hin : id ∈ ids).
    { rewrite Er in Hid. destruct ids as [|x l] eqn:E.
      - exfalso. apply Hne. assert (Hnil : si_id <$> serving (co_members s) = []) by (apply Permutation_nil_r; unfold ids in E; by rewrite <- sort_ids_permutation, E).
        by apply fmap_nil_inv in Hnil.
      - rewrite assign_regions_lookup in Hid; [|done|lia]. by eapply list_elem_of_lookup_2. }
    apply Hids in Hin as (shard & Hin & Hd & <-). exists shard. split; [done|]. split; [done|]. split.
    + unfold owner_of_region. rewrite (proj2 (Z.ltb_lt _ _)) by lia. by rewrite Hid.
    + unfold endpoint_of_shard, recompute_ownership. cbn [co_endpoints set_ownership]. by rewrite member_endpoints_lookup.
  - intros Hle (shard & Hin & Hid). destruct (assign_regions_cover ids (Z.to_nat (region_count (sc_regions (co_config s)))) (sc_id (co_config s))) as (region & Hlt & Hl).
    + apply Hids. exists shard. split_and!; [done| |done]. by apply Ha.
    + unfold ids. rewrite sort_ids_permutation, length_fmap. lia.
    + apply (spawn_region_owned _ (Z.of_nat region)); [lia|]. unfold owns_region. rewrite Hlen, Nat2Z.id, Er, Hl.
      rewrite (proj2 (Z.ltb_lt _ _)) by lia. apply String.eqb_refl.
Qed.

(** C14. A handoff moves the player and exactly its state.  A handoff is planned
    only to the live owner, another shard, of the region the player has crossed
    into; when it is, the ticket is stored under a token that was free, the
    directory named the sender (or nobody) and now names the receiver.  Whoever
    redeems the token next, answered by the server: the addressee gets the
    player's position, velocity, tick and last input as they were sent; any other
    shard gets nothing; and after either the token is spent for everybody. *)
Theorem handoff_carries_state `{Platform} `{RedisLaws R} `{Rng G} (s s' : ShardCoordinator R G) (player_id : string) (current_region : Z)
    (position velocity : Vec2) (tick last_input_sequence wall : Z) (plan : HandoffPlan) :
  let prefix := prefix_ (co_registry s) in
  let t := planned_ticket s plan player_id position velocity tick last_input_sequence wall in
  let m := keyspace (redis_ (co_registry s)) in
  let m' := keyspace (redis_ (co_registry s')) in
  queued_ (co_registry s) = [] -> keys_ok prefix m ->
  0 < sc_ticket_ttl_ms (co_config s) < 2 ^ 63 -> 0 < sc_presence_ttl_ms (co_config s) < 2 ^ 63 -> ticket_ok t ->
  plan_handoff s player_id current_region position velocity tick last_input_sequence wall = Some (s', Some plan) ->
  (handoff_target (sc_regions (co_config s)) current_region (vec_x position) (vec_y position) = Some (hp_target_region plan) /\
   hp_target_region plan <> kInvalidRegion /\ hp_target_shard plan = owner_of_region s (hp_target_region plan) /\
   hp_target_shard plan <> sc_id (co_config s) /\ endpoint_of_shard s (hp_target_shard plan) = Some (hp_target_endpoint plan)) /\
  (may_take prefix m player_id (sc_id (co_config s)) = true /\ owner_of prefix m' player_id = Some (hp_target_shard plan) /\
   ticket_at prefix m (hp_token plan) = None /\ ticket_at prefix m' (hp_token plan) = Some (VString (encode_migration_ticket t))) /\
  (forall d, follows prefix d s' -> head (snd (attempts (redis_ (co_registry d)))) = Some Completed ->
   let '(d', out) := accept_handoff d (hp_token plan) in
   out = (if (hp_target_shard plan =? sc_id (co_config d))%string then Some t else None) /\
   forall e, follows prefix e d' -> snd (accept_handoff e (hp_token plan)) = None).
Proof.
  intros prefix t m m' Hq Hk Ht1 Ht2 Hok E. destruct (plan_handoff_inv _ _ _ _ _ _ _ _ _ _ E) as [Hwhere _].
  split; [exact Hwhere|].
  destruct (handoff_stored s s' _ _ _ _ _ _ _ _ Hq Hk Ht1 Ht2 E) as (Hblob & Hnone & Htake & Howner & Hk' & Hat).
  split; [by split_and!|].
  intros d (Hdp & Hdq & Hdr) Hans. pose proof (accept_stored prefix d t Hdp Hdq) as Hacc. rewrite Hdr in Hacc, Hans.
  specialize (Hacc Hk' Hans Hok Hblob Hat). change (mt_token t) with (hp_token plan) in Hacc. destruct (accept_handoff d (hp_token plan)) as [d' out].
  destruct Hacc as (Hout & Hk1 & Hgone). split; [exact Hout|]. intros e He. by apply (accept_missing prefix d').
Qed.

(** ** Witnesses *)
Definition counter_rng : Rng Z := {| rng_next := fun n => (n, n + 1) |}.

(** Two shards of a two by two world, the player [p1] on [a]. *)
Definition sample_info (id endpoint : string) : ShardInfo := mkShardInfo id endpoint "" 0 512 f64_zero 0 false.
Definition sample_members : list ShardInfo := [sample_info "a" "10.0.0.1:7000"; sample_info "b" "10.0.0.2:7000"].
Definition sample_directory : ClusterRegistry MiniRedis :=
  fst (fst (claim_presence sample_registry (mkPresenceRecord "p1" "a" 0 77 0) 15000 5)).
Definition sample_config (id : string) : ShardConfig :=
  mkShardConfig id "" "" 512 4000 1000 15000 10000 (mkRegionMap (f32_of_Z 2048) 2 (f32_of_Z 48)).
Definition sample_coordinator (id : string) (members : list ShardInfo) (g : ClusterRegistry MiniRedis) : ShardCoordinator MiniRedis Z :=
  recompute_ownership (mkShardCoordinator (sample_config id) g MigrationStore_new members [] ∅ 0 41 0 0 0 0).

Lemma sample_active id : self_active id sample_members.
Proof. intros shard [->|[->|[]%elem_of_nil]%elem_of_cons]%elem_of_cons _; reflexivity. Qed.

Lemma ownership_agreement_witness :
  let s := sample_coordinator "a" sample_members sample_directory in
  let s' := sample_coordinator "b" (reverse sample_members) sample_directory in
  (owned_regions (recompute_ownership s) = [0; 2] /\ owned_regions (recompute_ownership s') = [1; 3]) /\
  let a := recompute_ownership s in
  let b := recompute_ownership s' in
  let count := region_count (sc_regions (co_config s)) in
  (forall region, owner_of_region a region = owner_of_region b region) /\
  (forall id, endpoint_of_shard a id = endpoint_of_shard b id) /\
  (forall region, owns_region a region = true -> owns_region b region = true -> sc_id (co_config s) = sc_id (co_config s')) /\
  (forall region, 0 <= region < count -> serving (co_members s) <> [] -> exists shard, shard ∈ co_members s /\ si_draining shard = false /\
     owner_of_region a region = si_id shard /\
     endpoint_of_shard a (si_id shard) = if (si_udp_endpoint shard =? "")%string then None else Some (si_udp_endpoint shard)) /\
  (Z.of_nat (length (serving (co_members s))) <= count ->
   (exists shard, shard ∈ co_members s /\ si_id shard = sc_id (co_config s)) ->
   owns_region a (spawn_region a) = true).
Proof.
  intros s s'. split; [vm_compute; by split|]. apply (ownership_agreement s s').
  - apply Permutation_rev.
  - apply NoDup_cons. split; [by intros [E|[]%elem_of_nil]%elem_of_cons|]. apply NoDup_singleton.
  - apply sample_active.
  - intros shard Hin%elem_of_reverse. by apply sample_active.
  - reflexivity.
Defined.

Definition sample_sender : ShardCoordinator MiniRedis Z := sample_coordinator "a" sample_members sample_directory.
Definition sample_position : Vec2 := mkVec2 (f32_of_Z 1100) (f32_of_Z 10).
Definition sample_velocity : Vec2 := mkVec2 (f32_of_Z 5) f0.
Definition sample_handoff : option (ShardCoordinator MiniRedis Z * option HandoffPlan) :=
  @plan_handoff plain_platform _ _ _ counter_rng sample_sender "p1" 0 sample_position sample_velocity 1000 7 9.
Definition sample_planned : ShardCoordinator MiniRedis Z := default sample_sender (fst <$> sample_handoff).
Definition sample_plan : HandoffPlan := mkHandoffPlan 41 1 "b" "10.0.0.2:7000".
Definition sample_receiver : ShardCoordinator MiniRedis Z := sample_coordinator "b" sample_members (co_registry sample_planned).

Lemma sample_handoff_planned : sample_handoff = Some (sample_planned, Some sample_plan).
Proof. vm_compute. reflexivity. Qed.

Lemma sample_keys : keys_ok "morton" (keyspace (redis_ (co_registry sample_sender))).
Proof.
  unfold sample_sender, sample_coordinator, recompute_ownership, set_ownership. cbn [co_registry]. unfold sample_directory.
  pose proof (registry_command_one (R:=MiniRedis) sample_registry _ _ eq_refl
    (claim_effect "morton" (mkPresenceRecord "p1" "a" 0 77 0) 15000 5 ltac:(lia)) (keys_ok_empty _) (claim_outcome_twice "morton" _ 5)) as Hc.
  cbv zeta in Hc. unfold claim_presence. change (sc_presence_ttl_ms (sample_config "a")) with 15000 in *.
  destruct (registry_command sample_registry _) as [g r]. destruct Hc as (_ & _ & Hk & _).
  destruct (is_error r); [exact Hk|]. by destruct (is_one r).
Qed.

Lemma handoff_carries_state_witness :
  let s := sample_sender in
  let s' := sample_planned in
  let prefix := "morton"%string in
  let t := planned_ticket s sample_plan "p1" sample_position sample_velocity 1000 7 9 in
  let m := keyspace (redis_ (co_registry s)) in
  let m' := keyspace (redis_ (co_registry s')) in
  (follows prefix sample_receiver s' /\ head (snd (attempts (redis_ (co_registry sample_receiver)))) = Some Completed /\
   snd (accept_handoff sample_receiver 41) = Some t) /\
  (@handoff_target plain_platform (sc_regions (co_config s)) 0 (vec_x sample_position) (vec_y sample_position) = Some (hp_target_region sample_plan) /\
   hp_target_region sample_plan <> kInvalidRegion /\ hp_target_shard sample_plan = owner_of_region s (hp_target_region sample_plan) /\
   hp_target_shard sample_plan <> sc_id (co_config s) /\ endpoint_of_shard s (hp_target_shard sample_plan) = Some (hp_target_endpoint sample_plan)) /\
  (may_take prefix m "p1" (sc_id (co_config s)) = true /\ owner_of prefix m' "p1" = Some (hp_target_shard sample_plan) /\
   ticket_at prefix m (hp_token sample_plan) = None /\ ticket_at prefix m' (hp_token sample_plan) = Some (VString (encode_migration_ticket t))) /\
  (forall d, follows prefix d s' -> head (snd (attempts (redis_ (co_registry d)))) = Some Completed ->
   let '(d', out) := accept_handoff d (hp_token sample_plan) in
   out = (if (hp_target_shard sample_plan =? sc_id (co_config d))%string then Some t else None) /\
   forall e, follows prefix e d' -> snd (accept_handoff e (hp_token sample_plan)) = None).
Proof.
  intros s s' prefix t m m'. split; [split; [by vm_compute|]; split; vm_compute; reflexivity|].
  apply (@handoff_carries_state plain_platform _ _ _ _ counter_rng s s' "p1" 0 sample_position sample_velocity 1000 7 9 sample_plan).
  - vm_compute. reflexivity.
  - exact sample_keys.
  - split; reflexivity.
  - split; reflexivity.
  - repeat split; try (vm_compute; discriminate); try reflexivity; vm_compute; lia.
  - exact sample_handoff_planned.
Defined.
