(* ===== verification/Http.v ===== *)
(** * Http: the HTTP/1.1 listener and the one-shot client
    ([src/src/net/http.h], [http.cpp], [http_client.h], [http_client.cpp])

    Percent decoding, JSON escaping, reading a request, dispatching it and
    printing the response, and the matching client.  A socket is the list of what
    its [recv] calls return and the list of what its [send] calls accept. *)

From S2P Require Import Prelude Text.
From Stdlib Require Import ZArith Lia Bool Ascii String.
From stdpp Require Import base tactics numbers list option gmap strings.
#[local] Open Scope Z_scope.

(** ** Characters and words *)
Definition code_of (c : ascii) : Z := Z.of_nat (nat_of_ascii c).
Definition char_of (n : Z) : ascii := ascii_of_nat (Z.to_nat (u8 n)).
Definition quote : ascii := "034"%char.
Definition backslash : ascii := "\"%char.

(** [std::tolower] in the C locale. *)
Definition lower (c : ascii) : ascii := if (65 <=? code_of c) && (code_of c <=? 90) then char_of (code_of c + 32) else c.
Fixpoint lowercase (s : string) : string :=
  match s with EmptyString => EmptyString | String c s => String (lower c) (lowercase s) end.

Definition is_blank (c : ascii) : bool := (code_of c =? 32) || (code_of c =? 9).
(** From the first character that is not a blank on; nothing when there is none. *)
Fixpoint skip_blanks (s : string) : string :=
  match s with String c rest => if is_blank c then skip_blanks rest else s | EmptyString => EmptyString end.

(** [stream >> word]. *)
Fixpoint word_of (s : string) : string * string :=
  match s with
  | String c rest => if is_space c then (EmptyString, s) else let '(w, rest) := word_of rest in (String c w, rest)
  | EmptyString => (EmptyString, EmptyString)
  end.
Definition next_word (s : string) : string * string := word_of (skip_space s).

(** ** Decoding and escaping *)
Definition hex (c : ascii) : option Z :=
  let n := code_of c in
  if (48 <=? n) && (n <=? 57) then Some (n - 48)
  else if (97 <=? n) && (n <=? 102) then Some (n - 97 + 10)
  else if (65 <=? n) && (n <=? 70) then Some (n - 65 + 10)
  else None.

Fixpoint url_decode (text : string) : string :=
  match text with
  | EmptyString => EmptyString
  | String c rest =>
      if (c =? "+")%char then String " " (url_decode rest)
      else if (c =? "%")%char then
        match rest with
        | String h (String l rest2) =>
            match hex h, hex l with
            | Some high, Some low => String (char_of (high * 16 + low)) (url_decode rest2)
            | _, _ => String c (url_decode rest)
            end
        | _ => String c (url_decode rest)
        end
      else String c (url_decode rest)
  end.

Definition hex_digit (d : Z) : ascii := if d <? 10 then char_of (48 + d) else char_of (97 + (d - 10)).

Definition escape_char (c : ascii) : string :=
  if (c =? quote)%char then String backslash (String quote EmptyString)
  else if (c =? backslash)%char then String backslash (String backslash EmptyString)
  else if code_of c =? 10 then String backslash "n"
  else if code_of c =? 13 then String backslash "r"
  else if code_of c =? 9 then String backslash "t"
  else if code_of c <? 32 then
    String backslash (String "u" (String "0" (String "0" (String (hex_digit (code_of c / 16)) (String (hex_digit (code_of c mod 16)) EmptyString)))))
  else String c EmptyString.

Fixpoint json_escape (text : string) : string :=
  match text with EmptyString => EmptyString | String c rest => escape_char c +:+ json_escape rest end.

(** ** Messages *)
Record HttpRequest := mkHttpRequest {
  rq_method : string;
  rq_path : string;
  rq_query : gmap string string;
  rq_headers : gmap string string;
  rq_body : string
}.

Definition query_value (r : HttpRequest) (key fallback : string) : string := default fallback (rq_query r !! key).

(** [headers] in the order of the map. *)
Record HttpResponse := mkHttpResponse {
  rs_status : Z;
  rs_content_type : string;
  rs_body : string;
  rs_headers : list (string * string)
}.

Definition text_response (body : string) : HttpResponse := mkHttpResponse 200 "text/plain; charset=utf-8" body [].
Definition json_response (body : string) : HttpResponse := mkHttpResponse 200 "application/json" body [].
Definition html_response (body : string) : HttpResponse := mkHttpResponse 200 "text/html; charset=utf-8" body [].
Definition not_found : HttpResponse := mkHttpResponse 404 "text/plain; charset=utf-8" "not found" [].
Definition bad_request (reason : string) : HttpResponse := mkHttpResponse 400 "text/plain; charset=utf-8" reason [].

Definition status_text (status : Z) : string :=
  if status =? 200 then "OK" else if status =? 400 then "Bad Request" else if status =? 404 then "Not Found"
  else if status =? 409 then "Conflict" else if status =? 500 then "Internal Server Error"
  else if status =? 503 then "Service Unavailable" else "OK".

Definition kMaxRequestBytes : Z := 256 * 1024.

(** ** Reading a request *)
Definition http_read_line (buffer : string) : option (string * string) :=
  match str_find CRLF buffer with
  | None => None
  | Some end_ => Some (str_take end_ buffer, str_drop (end_ + 2) buffer)
  end.

Definition content_length (buffer : string) (header_end : nat) : Z :=
  let marker := match str_find "Content-Length:" buffer with Some m => Some m | None => str_find "content-length:" buffer end in
  match marker with
  | Some m => if (m <? header_end)%nat then strtoull (str_drop (m + 15) buffer) else 0
  | None => 0
  end.

(** [recv] returning nothing, failing or timing out is the empty chunk. *)
Fixpoint receive_request (chunks : list string) (buffer : string) (header_end : option nat) : option (string * option nat) :=
  if Z.of_nat (String.length buffer) <? kMaxRequestBytes then
    match chunks with
    | [] | EmptyString :: _ => None
    | chunk :: chunks =>
        let buffer := buffer +:+ chunk in
        match str_find (CRLF +:+ CRLF) buffer with
        | None => receive_request chunks buffer None
        | Some e =>
            if u64 (Z.of_nat e + 4 + content_length buffer e) <=? Z.of_nat (String.length buffer)
            then Some (buffer, Some e) else receive_request chunks buffer (Some e)
        end
    end
  else Some (buffer, header_end).

Definition add_pair (pair : string) (query : gmap string string) : gmap string string :=
  if (pair =? "")%string then query else
  match str_find "=" pair with
  | None => <[url_decode pair := EmptyString]> query
  | Some equals => <[url_decode (str_take equals pair) := url_decode (str_drop (equals + 1) pair)]> query
  end.

(** The loop over the pairs of a query; [fuel] bounds the text left. *)
Fixpoint parse_query (fuel : nat) (rest : string) (query : gmap string string) : gmap string string :=
  match fuel with
  | O => query
  | S fuel =>
      match str_find "&" rest with
      | None => add_pair rest query
      | Some amp => parse_query fuel (str_drop (amp + 1) rest) (add_pair (str_take amp rest) query)
      end
  end.

Definition parse_target (target : string) : string * gmap string string :=
  match str_find "?" target with
  | None => (url_decode target, ∅)
  | Some question =>
      let query := str_drop (question + 1) target in
      (url_decode (str_take question target), parse_query (S (String.length query)) query ∅)
  end.

(** The header lines up to an empty one; [fuel] bounds the text left. *)
Fixpoint parse_headers (fuel : nat) (buffer : string) (headers : gmap string string) : gmap string string :=
  match fuel with
  | O => headers
  | S fuel =>
      match http_read_line buffer with
      | None => headers
      | Some (line, buffer) =>
          if (line =? "")%string then headers else
          match str_find ":" line with
          | None => parse_headers fuel buffer headers
          | Some colon =>
              parse_headers fuel buffer (<[lowercase (str_take colon line) := skip_blanks (str_drop (colon + 1) line)]> headers)
          end
      end
  end.

Definition parse_request (buffer : string) (header_end : nat) : option HttpRequest :=
  match http_read_line buffer with
  | None => None
  | Some (line, rest) =>
      let '(method, line) := next_word line in
      let '(target, _) := next_word line in
      let '(path, query) := parse_target target in
      let headers := parse_headers (S (String.length rest)) rest ∅ in
      Some (mkHttpRequest method path query headers (str_drop (header_end + 4) buffer))
  end.

Definition print_headers (headers : list (string * string)) : string :=
  foldr (fun kv out => fst kv +:+ ": " +:+ snd kv +:+ CRLF +:+ out) EmptyString headers.

Definition print_response (r : HttpResponse) : string :=
  "HTTP/1.1 " +:+ to_string (rs_status r) +:+ " " +:+ status_text (rs_status r) +:+ CRLF +:+
  "Content-Type: " +:+ rs_content_type r +:+ CRLF +:+
  "Content-Length: " +:+ to_string (Z.of_nat (String.length (rs_body r))) +:+ CRLF +:+
  "Connection: close" +:+ CRLF +:+
  print_headers (rs_headers r) +:+
  CRLF +:+ rs_body r.

(** What reaches the peer: each [send] takes so many bytes or fails. *)
Fixpoint http_send (writes : list Z) (payload : string) : string * bool :=
  match payload, writes with
  | EmptyString, _ => (EmptyString, true)
  | _, [] => (EmptyString, false)
  | _, wrote :: writes =>
      if wrote <=? 0 then (EmptyString, false) else
      let n := Z.to_nat wrote in
      let '(out, ok) := http_send writes (str_drop n payload) in (str_take n payload +:+ out, ok)
  end.

(** ** The server *)
(** A handler works on the state of the program behind the routes. *)
Definition Handler (App : Type) : Type := HttpRequest -> App -> HttpResponse * App.

Record HttpServer (App : Type) := mkHttpServer {
  hs_routes : gmap string (Handler App);
  hs_fallback : option (Handler App);
  hs_requests_served : Z
}.
Arguments mkHttpServer {App}.
Arguments hs_routes {App}.
Arguments hs_fallback {App}.
Arguments hs_requests_served {App}.

Section Server.
Context {App : Type}.

Definition HttpServer_new : HttpServer App := mkHttpServer ∅ None 0.

Definition route (method path : string) (handler : Handler App) (s : HttpServer App) : HttpServer App :=
  mkHttpServer (<[method +:+ " " +:+ path := handler]> (hs_routes s)) (hs_fallback s) (hs_requests_served s).

Definition set_fallback (handler : Handler App) (s : HttpServer App) : HttpServer App :=
  mkHttpServer (hs_routes s) (Some handler) (hs_requests_served s).

Definition dispatch (s : HttpServer App) (request : HttpRequest) (app : App) : HttpResponse * App :=
  match hs_routes s !! (rq_method request +:+ " " +:+ rq_path request) with
  | Some handler => handler request app
  | None => match hs_fallback s with Some handler => handler request app | None => (not_found, app) end
  end.

(** One connection; the result is what was sent back, if anything. *)
Definition handle_client (s : HttpServer App) (chunks : list string) (writes : list Z) (app : App) : HttpServer App * App * option string :=
  match receive_request chunks EmptyString None with
  | Some (buffer, Some header_end) =>
      match parse_request buffer header_end with
      | None => (s, app, None)
      | Some request =>
          let '(response, app) := dispatch s request app in
          (mkHttpServer (hs_routes s) (hs_fallback s) (u64 (hs_requests_served s + 1)), app,
           Some (fst (http_send writes (print_response response))))
      end
  | _ => (s, app, None)
  end.
End Server.

(** ** The client *)
Record HttpFetch := mkHttpFetch { hf_ok : bool; hf_status : Z; hf_body : string; hf_error : string }.

Definition fetch_failed (error : string) : HttpFetch := mkHttpFetch false 0 EmptyString error.

Definition print_request (host method target body : string) : string :=
  method +:+ " " +:+ target +:+ " HTTP/1.1" +:+ CRLF +:+
  "Host: " +:+ host +:+ CRLF +:+
  "Connection: close" +:+ CRLF +:+
  "Content-Length: " +:+ to_string (Z.of_nat (String.length body)) +:+ CRLF +:+ CRLF +:+
  body.

Fixpoint receive_response (chunks : list string) (response : string) : string :=
  if Z.of_nat (String.length response) <? 1024 * 1024 then
    match chunks with
    | [] | EmptyString :: _ => response
    | chunk :: chunks => receive_response chunks (response +:+ chunk)
    end
  else response.

Definition read_response (response : string) : HttpFetch :=
  match str_find (CRLF +:+ CRLF) response with
  | Some header_end =>
      if (String.length response <? 12)%nat then fetch_failed "malformed response" else
      let status := i32 (fst (strtol (str_drop 9 response))) in
      mkHttpFetch ((200 <=? status) && (status <? 300)) status (str_drop (header_end + 4) response) EmptyString
  | None => fetch_failed "malformed response"
  end.

(** [opened]: the error of [socket] or [connect], if they fail. *)
Definition http_fetch (opened : option string) (host method target body : string) (writes : list Z) (chunks : list string) : HttpFetch :=
  match opened with
  | Some error => fetch_failed error
  | None =>
      let '(_, sent) := http_send writes (print_request host method target body) in
      if negb sent then fetch_failed "send failed" else read_response (receive_response chunks EmptyString)
  end.

(** [find_first_of(",}")]. *)
Fixpoint find_value_end (s : string) : nat :=
  match s with
  | EmptyString => O
  | String c rest => if (c =? ",")%char || (c =? "}")%char then O else S (find_value_end rest)
  end.

Definition json_lookup (json key : string) : string :=
  let needle := String quote (key +:+ String quote ":") in
  match str_find needle json with
  | None => EmptyString
  | Some start =>
      match str_drop (start + String.length needle) json with
      | EmptyString => EmptyString
      | String c rest =>
          if (c =? quote)%char then
            match str_find (String quote EmptyString) rest with None => EmptyString | Some e => str_take e rest end
          else let value := String c rest in str_take (find_value_end value) value
      end
  end.

(** ** Escaped text *)
Definition unescape (e : ascii) : option ascii :=
  if (e =? quote)%char then Some quote else if (e =? backslash)%char then Some backslash
  else if (e =? "n")%char then Some "010"%char else if (e =? "r")%char then Some "013"%char
  else if (e =? "t")%char then Some "009"%char else None.

Definition add_char (c : ascii) (r : option (string * string)) : option (string * string) :=
  '(s, rest) ← r; Some (String c s, rest).

(** The characters of a JSON string up to its closing quote, and the text after
    it: what a JSON reader makes of the bytes.  [\u] is followed by four hex
    digits; only codes below 256 stand for one byte. *)
Fixpoint json_string (s : string) : option (string * string) :=
  match s with
  | EmptyString => None
  | String c rest =>
      if (c =? quote)%char then Some (EmptyString, rest)
      else if (c =? backslash)%char then
        match rest with
        | String "u" (String "0" (String "0" (String a (String b rest)))) =>
            high ← hex a; low ← hex b; add_char (char_of (high * 16 + low)) (json_string rest)
        | String e rest => c ← unescape e; add_char c (json_string rest)
        | EmptyString => None
        end
      else if code_of c <? 32 then None
      else add_char c (json_string rest)
  end.

Lemma json_escape_char c t : json_string (escape_char c +:+ t) = add_char c (json_string t).
Proof. destruct c as [[] [] [] [] [] [] [] []]; reflexivity. Qed.

(** ** Percent encoding *)
Definition url_safe (c : ascii) : bool :=
  ((48 <=? code_of c) && (code_of c <=? 57)) || ((65 <=? code_of c) && (code_of c <=? 90)) || ((97 <=? code_of c) && (code_of c <=? 122)).

(** Percent encoding of everything but letters and digits: what a client sends. *)
Definition url_encode_char (c : ascii) : string :=
  if url_safe c then String c EmptyString
  else String "%" (String (hex_digit (code_of c / 16)) (String (hex_digit (code_of c mod 16)) EmptyString)).

Fixpoint url_encode (s : string) : string :=
  match s with EmptyString => EmptyString | String c rest => url_encode_char c +:+ url_encode rest end.

Lemma url_decode_char c t : url_decode (url_encode_char c +:+ t) = String c (url_decode t).
Proof. destruct c as [[] [] [] [] [] [] [] []]; reflexivity. Qed.

Lemma url_decode_encode s : url_decode (url_encode s) = s.
Proof. induction s as [|c s IH]; [done|]. cbn [url_encode]. by rewrite url_decode_char, IH. Qed.

Lemma url_encode_char_free c d : In d ["?"; "&"; "="]%char -> free_of d (url_encode_char c) = true.
Proof. intros [<-|[<-|[<-|[]]]]; destruct c as [[] [] [] [] [] [] [] []]; reflexivity. Qed.

Lemma url_encode_free s d : In d ["?"; "&"; "="]%char -> free_of d (url_encode s) = true.
Proof.
  intros Hd. induction s as [|c s IH]; [done|]. cbn [url_encode]. by rewrite free_of_app, url_encode_char_free, IH.
Qed.

Lemma url_encode_nonempty s : s <> EmptyString -> url_encode s <> EmptyString.
Proof. destruct s as [|c s]; [done|]. intros _. cbn [url_encode]. unfold url_encode_char. by destruct (url_safe c). Qed.

(** A target as a client prints it. *)
Definition print_pair (kv : string * string) : string := url_encode (fst kv) +:+ "=" +:+ url_encode (snd kv).
Fixpoint print_query (pairs : list (string * string)) : string :=
  match pairs with
  | [] => EmptyString
  | [kv] => print_pair kv
  | kv :: pairs => print_pair kv +:+ "&" +:+ print_query pairs
  end.
Definition print_target (path : string) (pairs : list (string * string)) : string :=
  match pairs with [] => url_encode path | _ => url_encode path +:+ "?" +:+ print_query pairs end.

Lemma print_pair_free kv : free_of "&" (print_pair kv) = true.
Proof. unfold print_pair. rewrite !free_of_app, !url_encode_free by (cbn; auto). done. Qed.

Lemma add_pair_print kv query : add_pair (print_pair kv) query = <[fst kv := snd kv]> query.
Proof.
  unfold add_pair, print_pair. destruct (String.eqb_spec (url_encode (fst kv) +:+ "=" +:+ url_encode (snd kv)) "") as [E|_].
  { apply (f_equal String.length) in E. rewrite !str_length_app in E. cbn in E. lia. }
  rewrite str_find_skip by (apply url_encode_free; cbn; auto). rewrite str_find_here. cbn [fmap option_fmap option_map].
  rewrite Nat.add_0_r, str_take_app. rewrite <- str_app_assoc.
  replace (String.length (url_encode (fst kv)) + 1)%nat with (String.length (url_encode (fst kv) +:+ "=")) by (rewrite str_length_app; done).
  by rewrite str_drop_app, !url_decode_encode.
Qed.

Lemma str_find_absent c s : free_of c s = true -> str_find (String c EmptyString) s = None.
Proof. apply str_find_none. Qed.

(** Any fuel above the length of the text parses the pairs in order. *)
Lemma parse_print_query pairs : pairs <> [] -> forall fuel query, (String.length (print_query pairs) < fuel)%nat ->
  parse_query fuel (print_query pairs) query = foldl (fun m kv => <[fst kv := snd kv]> m) query pairs.
Proof.
  induction pairs as [|kv pairs IH]; [done|]. intros _ [|fuel] query Hf; [lia|]. cbn [parse_query].
  destruct pairs as [|kv2 pairs].
  - cbn [print_query foldl]. rewrite str_find_absent by apply print_pair_free. apply add_pair_print.
  - remember (kv2 :: pairs) as l eqn:El. assert (Hp : print_query (kv :: l) = print_pair kv +:+ "&" +:+ print_query l) by (by rewrite El).
    rewrite Hp in Hf |- *. rewrite str_find_skip by apply print_pair_free. rewrite str_find_here. cbn [fmap option_fmap option_map].
    rewrite Nat.add_0_r, str_take_app, add_pair_print. rewrite <- str_app_assoc.
    replace (String.length (print_pair kv) + 1)%nat with (String.length (print_pair kv +:+ "&")) by (rewrite str_length_app; done).
    rewrite str_drop_app. cbn [foldl]. apply IH; [by rewrite El|]. rewrite !str_length_app in Hf. cbn in Hf. lia.
Qed.

(** ** One exchange *)
(** A word of a request line: no white space, not empty. *)
Fixpoint unspaced (s : string) : bool :=
  match s with EmptyString => true | String c s => negb (is_space c) && unspaced s end.

Lemma unspaced_no_cr s : unspaced s = true -> no_cr s = true.
Proof.
  induction s as [|c s IH]; [done|]. cbn. intros [Hc Hs]%andb_true_iff. rewrite IH by done. rewrite andb_true_r.
  destruct (Ascii.eqb_spec c "013") as [->|]; done.
Qed.

Lemma word_of_spec w c rest : unspaced w = true -> is_space c = true -> word_of (w +:+ String c rest) = (w, String c rest).
Proof.
  intros Hw Hc. induction w as [|d w IH]; cbn in Hw.
  - change (EmptyString +:+ String c rest) with (String c rest). cbn [word_of]. by rewrite Hc.
  - apply andb_true_iff in Hw as [Hd Hw]. apply negb_true_iff in Hd. rewrite str_app_cons. cbn [word_of]. rewrite Hd, IH; done.
Qed.

Lemma skip_space_word w rest : unspaced w = true -> w <> EmptyString -> skip_space (w +:+ rest) = (w +:+ rest).
Proof.
  destruct w as [|c w]; [done|]. cbn. intros [Hc _]%andb_true_iff _. apply negb_true_iff in Hc. rewrite str_app_cons. cbn. by rewrite Hc.
Qed.

Lemma read_line_crlf line rest : no_cr line = true -> http_read_line (line +:+ CRLF +:+ rest) = Some (line, rest).
Proof.
  intros Hn. unfold http_read_line. rewrite find_crlf by done. rewrite str_take_app, <- str_app_assoc.
  replace (String.length line + 2)%nat with (String.length (line +:+ CRLF)) by (rewrite str_length_app; done). by rewrite str_drop_app.
Qed.

(** The parts of a request and what they must be for its text to be unambiguous:
    a method and a target of one word, and a host on one line. *)
Record request_ok (host method target body : string) : Prop := {
  ro_method : unspaced method = true /\ method <> EmptyString;
  ro_target : unspaced target = true /\ target <> EmptyString;
  ro_host : no_cr host = true /\ skip_blanks host = host;
  ro_body : Z.of_nat (String.length body) < 2 ^ 63;
  ro_marker : str_find "Content-Length:" (method +:+ " " +:+ target +:+ " HTTP/1.1" +:+ CRLF +:+ "Host: " +:+ host +:+ CRLF +:+ "Connection: close" +:+ CRLF) = None
}.

Section Request.
Context (host method target body : string) (Hok : request_ok host method target body).

Definition request_line : string := method +:+ " " +:+ target +:+ " HTTP/1.1".
Definition length_text : string := to_string (Z.of_nat (String.length body)).
(** The text up to the blank line, and with it. *)
Definition head_text : string :=
  request_line +:+ CRLF +:+ ("Host: " +:+ host) +:+ CRLF +:+ "Connection: close" +:+ CRLF +:+ ("Content-Length: " +:+ length_text).
Definition head_block : string := head_text +:+ CRLF +:+ CRLF.

Lemma print_request_head : print_request host method target body = (head_block +:+ body).
Proof. unfold print_request, head_block, head_text, request_line, length_text. by rewrite !str_app_assoc. Qed.

Lemma request_line_no_cr : no_cr request_line = true.
Proof. destruct Hok as [[Hm _] [Ht _] _ _ _]. unfold request_line. by rewrite !no_cr_app, (unspaced_no_cr method Hm), (unspaced_no_cr target Ht). Qed.

Lemma host_line_no_cr : no_cr ("Host: " +:+ host) = true.
Proof. destruct Hok as [_ _ [Hh _] _ _]. by rewrite no_cr_app, Hh. Qed.

Lemma length_line_no_cr : no_cr ("Content-Length: " +:+ length_text) = true.
Proof. rewrite no_cr_app. unfold length_text. by rewrite no_cr_to_string. Qed.

Lemma head_end rest : str_find (CRLF +:+ CRLF) (head_block +:+ rest) = Some (String.length head_text).
Proof.
  unfold head_block, head_text. rewrite !str_app_assoc.
  rewrite find_blank_skip; [|apply request_line_no_cr|done].
  rewrite <- (str_app_assoc "Host: " host). rewrite find_blank_skip; [|apply host_line_no_cr|done].
  rewrite find_blank_skip; [|done|done].
  rewrite <- (str_app_assoc "Content-Length: " length_text). rewrite find_blank_here by apply length_line_no_cr.
  cbn [fmap option_fmap option_map]. f_equal. rewrite !str_length_app. cbn. lia.
Qed.

Lemma head_length : String.length head_block = (String.length head_text + 4)%nat.
Proof. unfold head_block. rewrite !str_length_app. done. Qed.

(** The length is read the same however much of the body has arrived. *)
Lemma head_content_length rest : content_length (head_block +:+ rest) (String.length head_text) = Z.of_nat (String.length body).
Proof.
  set (h := method +:+ " " +:+ target +:+ " HTTP/1.1" +:+ CRLF +:+ "Host: " +:+ host +:+ CRLF +:+ "Connection: close" +:+ CRLF).
  assert (E : head_block +:+ rest = h +:+ "Content-Length:" +:+ " " +:+ length_text +:+ CRLF +:+ CRLF +:+ rest).
  { unfold head_block, head_text, request_line, h. by rewrite !str_app_assoc. }
  assert (El : String.length head_text = (String.length h + 16 + String.length length_text)%nat).
  { unfold head_text, request_line, h. rewrite !str_length_app. cbn. lia. }
  unfold content_length. rewrite E. rewrite str_find_first by (try done; apply Hok).
  rewrite (proj2 (Nat.ltb_lt _ _)) by lia. rewrite <- str_app_assoc.
  replace (String.length h + 15)%nat with (String.length (h +:+ "Content-Length:")) by (rewrite str_length_app; done). rewrite str_drop_app.
  destruct Hok as [_ _ _ Hb _].
  assert (Hs : forall t, strtoull (" " +:+ t) = strtoull t) by done. rewrite Hs. unfold length_text. apply strtoull_to_string; [lia|done].
Qed.

(** The buffer grows to the whole request whatever the chunks. *)
Lemma receive_request_exact chunks : forall buffer header_end,
  Forall (fun c => c <> EmptyString) chunks -> (buffer +:+ foldr String.append EmptyString chunks) = print_request host method target body ->
  (String.length buffer < String.length (print_request host method target body))%nat ->
  Z.of_nat (String.length (print_request host method target body)) <= kMaxRequestBytes ->
  receive_request chunks buffer header_end = Some (print_request host method target body, Some (String.length head_text)).
Proof.
  set (full := print_request host method target body).
  assert (Hlen : String.length full = (String.length head_text + 4 + String.length body)%nat).
  { unfold full. rewrite print_request_head, str_length_app, head_length. lia. }
  induction chunks as [|chunk chunks IH]; intros buffer header_end Hne E Hlt Hmax.
  - cbn in E. rewrite str_app_nil in E. subst buffer. lia.
  - inversion Hne as [|? ? Hc Hne']; subst. cbn [foldr] in E. rewrite <- str_app_assoc in E. cbn [receive_request].
    rewrite (proj2 (Z.ltb_lt _ _)) by lia. destruct chunk as [|c0 chunk0]; [done|]. set (chunk := String c0 chunk0) in *.
    destruct (str_app_split (buffer +:+ chunk) (foldr String.append EmptyString chunks) head_block body) as [(m & Em & Eb)|Hshort].
    + by rewrite E, <- print_request_head.
    + rewrite Em, head_end, head_content_length. rewrite <- Em.
      assert (Hbl : String.length (buffer +:+ chunk) = (String.length head_text + 4 + String.length m)%nat) by (by rewrite Em, str_length_app, head_length).
      assert (Hm : String.length body = (String.length m + String.length (foldr String.append EmptyString chunks))%nat) by (by rewrite Eb, str_length_app).
      rewrite wrap_small by (unfold kMaxRequestBytes in *; split; lia).
      destruct (Z.leb_spec (Z.of_nat (String.length head_text) + 4 + Z.of_nat (String.length body)) (Z.of_nat (String.length (buffer +:+ chunk)))) as [Hle|Hgt].
      * assert (Hnil : foldr String.append EmptyString chunks = EmptyString) by (destruct (foldr String.append EmptyString chunks); [done|cbn in Hm; lia]).
        rewrite Hnil, str_app_nil in E. by rewrite E.
      * apply IH; [done|done|lia|done].
    + destruct (str_find (CRLF +:+ CRLF) (buffer +:+ chunk)) as [e|] eqn:Ef.
      * exfalso. pose proof (str_find_bound _ _ _ Ef) as Hb. apply (str_find_extend _ _ (foldr String.append EmptyString chunks)) in Ef.
        rewrite E in Ef. unfold full in Ef. rewrite print_request_head, head_end in Ef. injection Ef as <-.
        rewrite head_length in Hshort. change (String.length (CRLF +:+ CRLF)) with 4%nat in Hb. lia.
      * apply IH; [done|done| |done]. rewrite head_length in Hshort. lia.
Qed.

(** The header fields of the client's request. *)
Definition request_headers : gmap string string :=
  <["content-length"%string := length_text]> (<["connection"%string := "close"%string]> (<["host"%string := host]> ∅)).

Lemma parse_header_line fuel name value rest headers : no_cr (name +:+ ": " +:+ value) = true -> free_of ":" name = true -> skip_blanks value = value ->
  parse_headers (S fuel) ((name +:+ ": " +:+ value) +:+ CRLF +:+ rest) headers = parse_headers fuel rest (<[lowercase name := value]> headers).
Proof.
  intros Hn Hc Hv. cbn [parse_headers]. rewrite read_line_crlf by done.
  destruct (String.eqb_spec (name +:+ ": " +:+ value) "") as [E|_].
  { apply (f_equal String.length) in E. rewrite !str_length_app in E. cbn in E. lia. }
  change (": " +:+ value) with (":" +:+ " " +:+ value). rewrite str_find_skip by done. rewrite str_find_here. cbn [fmap option_fmap option_map].
  rewrite Nat.add_0_r, str_take_app. rewrite <- (str_app_assoc name ":").
  replace (String.length name + 1)%nat with (String.length (name +:+ ":")) by (rewrite str_length_app; done). rewrite str_drop_app.
  change (skip_blanks (" " +:+ value)) with (skip_blanks value). by rewrite Hv.
Qed.

Lemma skip_blanks_number n : 0 <= n -> skip_blanks (to_string n) = to_string n.
Proof.
  intros Hn. destruct (print_digits_head 20 n EmptyString ltac:(lia) Hn) as (d & rest & Hd & E). unfold to_string. rewrite E. cbn [skip_blanks].
  assert (Hb : is_blank (digit_char d) = false).
  { pose proof (digit_char_class d Hd) as [Hs _]. unfold is_space, is_blank, code_of in *. lia. }
  by rewrite Hb.
Qed.

Lemma head_headers fuel rest : (4 <= fuel)%nat ->
  parse_headers fuel (("Host: " +:+ host) +:+ CRLF +:+ "Connection: close" +:+ CRLF +:+ ("Content-Length: " +:+ length_text) +:+ CRLF +:+ CRLF +:+ rest) ∅ = request_headers.
Proof.
  intros Hf. destruct fuel as [|[|[|[|fuel]]]]; [lia..|]. pose proof Hok as [_ _ [Hh Hs] _ _].
  change ("Host: " +:+ host) with ("Host" +:+ ": " +:+ host). rewrite parse_header_line by (try done; apply host_line_no_cr).
  change "Connection: close"%string with ("Connection" +:+ ": " +:+ "close"). rewrite parse_header_line by done.
  change ("Content-Length: " +:+ length_text) with ("Content-Length" +:+ ": " +:+ length_text).
  rewrite parse_header_line; [|apply length_line_no_cr|done|apply skip_blanks_number; lia].
  cbn [parse_headers]. change (CRLF +:+ rest) with (EmptyString +:+ CRLF +:+ rest). by rewrite read_line_crlf.
Qed.

Lemma parse_printed : parse_request (print_request host method target body) (String.length head_text) =
  Some (mkHttpRequest method (fst (parse_target target)) (snd (parse_target target)) request_headers body).
Proof.
  unfold parse_request. rewrite print_request_head.
  assert (E : head_block +:+ body = request_line +:+ CRLF +:+ (("Host: " +:+ host) +:+ CRLF +:+ "Connection: close" +:+ CRLF +:+
    ("Content-Length: " +:+ length_text) +:+ CRLF +:+ CRLF +:+ body)) by (unfold head_block, head_text; by rewrite !str_app_assoc).
  assert (Ed : str_drop (String.length head_text + 4) (head_block +:+ body) = body) by (rewrite <- head_length; apply str_drop_app).
  rewrite Ed, E. clear E Ed. rewrite read_line_crlf by apply request_line_no_cr.
  pose proof Hok as [[Hm Hm'] [Ht Ht'] _ _ _]. unfold request_line, next_word.
  rewrite skip_space_word by done. change (" " +:+ target +:+ " HTTP/1.1") with (String " " (target +:+ " HTTP/1.1")).
  rewrite (word_of_spec method " " (target +:+ " HTTP/1.1")) by done.
  change (skip_space (String " " (target +:+ " HTTP/1.1"))) with (skip_space (target +:+ " HTTP/1.1")).
  rewrite skip_space_word by done. rewrite (word_of_spec target " " "HTTP/1.1") by done.
  destruct (parse_target target) as [path query]. cbn [fst snd]. rewrite head_headers; [done|].
  rewrite !str_length_app. cbn. lia.
Qed.
End Request.

(** A response whose header fields stay on their lines. *)
Record response_ok (r : HttpResponse) : Prop := {
  po_status : 0 <= rs_status r < 2 ^ 31;
  po_type : no_cr (rs_content_type r) = true;
  po_headers : Forall (fun kv => no_cr (fst kv) = true /\ no_cr (snd kv) = true) (rs_headers r)
}.

Lemma status_text_no_cr n : no_cr (status_text n) = true.
Proof. unfold status_text. by repeat destruct (_ =? _). Qed.

Lemma find_blank_headers headers body line : Forall (fun kv => no_cr (fst kv) = true /\ no_cr (snd kv) = true) headers -> no_cr line = true ->
  str_find (CRLF +:+ CRLF) (line +:+ CRLF +:+ print_headers headers +:+ CRLF +:+ body) = Some (String.length line + String.length (print_headers headers))%nat.
Proof.
  intros Hh. revert line. induction Hh as [|[k v] headers [Hk Hv] _ IH]; intros line Hl; cbn [print_headers foldr fst snd] in *.
  - change (EmptyString +:+ CRLF +:+ body) with (CRLF +:+ body). rewrite find_blank_here by done. cbn. f_equal. lia.
  - rewrite find_blank_skip.
    + fold (print_headers headers). rewrite !str_app_assoc. rewrite <- (str_app_assoc ": " v), <- (str_app_assoc k).
      rewrite IH by (by rewrite !no_cr_app, Hk, Hv). cbn [fmap option_fmap option_map]. f_equal. rewrite !str_length_app. cbn. lia.
    + done.
    + rewrite !str_app_assoc. destruct k as [|c k]; [done|]. cbn in Hk. apply andb_true_iff in Hk as [Hc _]. rewrite str_app_cons.
      apply negb_true_iff in Hc. by apply prefix_other.
Qed.

Lemma print_headers_end headers : (exists lines, print_headers headers = (lines +:+ CRLF)) \/ print_headers headers = EmptyString.
Proof.
  induction headers as [|[k v] headers IH]; [by right|]. left. cbn [print_headers foldr fst snd]. fold (print_headers headers).
  destruct IH as [(lines & ->)| ->].
  - exists (k +:+ ": " +:+ v +:+ CRLF +:+ lines). by rewrite !str_app_assoc.
  - exists (k +:+ ": " +:+ v). by rewrite !str_app_assoc, str_app_nil.
Qed.

Lemma response_split r : response_ok r ->
  exists head, print_response r = (head +:+ CRLF +:+ CRLF +:+ rs_body r) /\ str_find (CRLF +:+ CRLF) (print_response r) = Some (String.length head).
Proof.
  intros [Hs Ht Hh].
  set (l1 := "HTTP/1.1 " +:+ to_string (rs_status r) +:+ " " +:+ status_text (rs_status r)).
  set (l2 := "Content-Type: " +:+ rs_content_type r). set (l3 := "Content-Length: " +:+ to_string (Z.of_nat (String.length (rs_body r)))).
  assert (E : print_response r = l1 +:+ CRLF +:+ l2 +:+ CRLF +:+ l3 +:+ CRLF +:+ "Connection: close" +:+ CRLF +:+ print_headers (rs_headers r) +:+ CRLF +:+ rs_body r)
    by (unfold print_response, l1, l2, l3; by rewrite !str_app_assoc).
  assert (N1 : no_cr l1 = true) by (unfold l1; by rewrite !no_cr_app, no_cr_to_string, status_text_no_cr).
  assert (N2 : no_cr l2 = true) by (unfold l2; by rewrite no_cr_app, Ht).
  assert (N3 : no_cr l3 = true) by (unfold l3; by rewrite no_cr_app, no_cr_to_string).
  assert (Hend : exists lines, (l1 +:+ CRLF +:+ l2 +:+ CRLF +:+ l3 +:+ CRLF +:+ "Connection: close" +:+ CRLF +:+ print_headers (rs_headers r)) = (lines +:+ CRLF)).
  { destruct (print_headers_end (rs_headers r)) as [(lines & ->)| ->].
    - exists (l1 +:+ CRLF +:+ l2 +:+ CRLF +:+ l3 +:+ CRLF +:+ "Connection: close" +:+ CRLF +:+ lines). by rewrite !str_app_assoc.
    - exists (l1 +:+ CRLF +:+ l2 +:+ CRLF +:+ l3 +:+ CRLF +:+ "Connection: close"). by rewrite !str_app_assoc, str_app_nil. }
  destruct Hend as [head Ehead]. exists head.
  assert (E2 : print_response r = head +:+ CRLF +:+ CRLF +:+ rs_body r).
  { rewrite E, <- (str_app_assoc head), <- Ehead. by rewrite !str_app_assoc. }
  split; [done|]. rewrite E. rewrite find_blank_skip by done. rewrite find_blank_skip by done. rewrite find_blank_skip by done.
  rewrite find_blank_headers by done. cbn [fmap option_fmap option_map]. f_equal.
  apply (f_equal String.length) in Ehead. rewrite !str_length_app in Ehead. cbn in Ehead |- *. lia.
Qed.

Lemma read_printed_response r : response_ok r ->
  read_response (print_response r) = mkHttpFetch ((200 <=? rs_status r) && (rs_status r <? 300)) (rs_status r) (rs_body r) EmptyString.
Proof.
  intros Hr. destruct (response_split r Hr) as (head & E & Ef). pose proof Hr as [Hs _ _]. unfold read_response. rewrite Ef.
  assert (Hd : str_drop (String.length head + 4) (print_response r) = rs_body r).
  { rewrite E, <- (str_app_assoc CRLF), <- str_app_assoc.
    replace (String.length head + 4)%nat with (String.length (head +:+ (CRLF +:+ CRLF))) by (rewrite str_length_app; done). apply str_drop_app. }
  rewrite Hd. clear E Ef Hd head.
  assert (Hlen : (12 <= String.length (print_response r))%nat) by (unfold print_response; rewrite !str_length_app; cbn; lia).
  rewrite (proj2 (Nat.ltb_ge _ _)) by done. cbv zeta.
  assert (Ed : exists rest, str_drop 9 (print_response r) = (to_string (rs_status r) +:+ " " +:+ rest)) by (eexists; reflexivity).
  destruct Ed as [rest ->]. rewrite strtol_to_string by (try done; lia). cbn [fst]. by rewrite i32_small by lia.
Qed.

Lemma receive_response_exact chunks : forall response, Forall (fun c => c <> EmptyString) chunks ->
  Z.of_nat (String.length (response +:+ foldr String.append EmptyString chunks)) <= 1024 * 1024 ->
  receive_response chunks response = (response +:+ foldr String.append EmptyString chunks).
Proof.
  induction chunks as [|chunk chunks IH]; intros response Hne Hl; cbn [receive_response foldr].
  - rewrite str_app_nil. by destruct (_ <? _).
  - inversion Hne as [|? ? Hc Hne']; subst. cbn [foldr] in Hl. rewrite !str_length_app in Hl.
    destruct chunk as [|c chunk]; [done|]. cbn [String.length] in Hl. rewrite (proj2 (Z.ltb_lt _ _)) by lia.
    rewrite IH; [by rewrite str_app_assoc|done|]. rewrite !str_length_app. cbn [String.length]. lia.
Qed.

Lemma str_take_drop n s : (str_take n s +:+ str_drop n s) = s.
Proof.
  revert s. induction n as [|n IH]; intros s; [by destruct s|]. destruct s as [|c s]; [done|]. cbn [str_take str_drop]. by rewrite str_app_cons, IH.
Qed.

Lemma http_send_all writes : forall payload, snd (http_send writes payload) = true -> fst (http_send writes payload) = payload.
Proof.
  induction writes as [|wrote writes IH]; intros [|c payload]; cbn [http_send]; try done. destruct (wrote <=? 0); [done|].
  specialize (IH (str_drop (Z.to_nat wrote) (String c payload))). destruct (http_send writes _) as [out ok]. cbn [fst snd] in *.
  intros E. rewrite (IH E). apply str_take_drop.
Qed.

Lemma parse_print_target path pairs : parse_target (print_target path pairs) = (path, foldl (fun m kv => <[fst kv := snd kv]> m) ∅ pairs).
Proof.
  unfold parse_target, print_target. destruct pairs as [|kv pairs].
  - rewrite str_find_none by (apply url_encode_free; cbn; auto). by rewrite url_decode_encode.
  - rewrite str_find_skip by (apply url_encode_free; cbn; auto). rewrite str_find_here. cbn [fmap option_fmap option_map].
    rewrite Nat.add_0_r, str_take_app, url_decode_encode. rewrite <- str_app_assoc.
    replace (String.length (url_encode path) + 1)%nat with (String.length (url_encode path +:+ "?")) by (rewrite str_length_app; done).
    rewrite str_drop_app, parse_print_query by (try done; lia). done.
Qed.

(** ** Looking up the keys of a flat object *)
(** A text cut at its quotes. *)
Fixpoint joined (pieces : list string) : string :=
  match pieces with
  | [] => EmptyString
  | [p] => p
  | p :: pieces => p +:+ String quote (joined pieces)
  end.

(** What follows the first quoted [key] that has a colon behind it. *)
Fixpoint after_key (key : string) (pieces : list string) : option string :=
  match pieces with
  | p :: rest =>
      match rest with
      | v :: String c w :: more => if (c =? ":")%char && (v =? key)%string then Some (joined (w :: more)) else after_key key rest
      | _ => after_key key rest
      end
  | [] => None
  end.

Definition value_at (text : string) : string :=
  match text with
  | EmptyString => EmptyString
  | String c rest =>
      if (c =? quote)%char then
        match str_find (String quote EmptyString) rest with None => EmptyString | Some e => str_take e rest end
      else str_take (find_value_end text) text
  end.

Lemma prefix_quoted k : forall v t, free_of quote k = true -> free_of quote v = true ->
  String.prefix (k +:+ String quote ":") (v +:+ String quote t) = (k =? v)%string && String.prefix ":" t.
Proof.
  induction k as [|c k IH]; intros v t Hk Hv.
  - destruct v as [|d v]; [done|]. cbn [free_of] in Hv. apply andb_true_iff in Hv as [Hd _]. apply negb_true_iff in Hd.
    change (EmptyString +:+ String quote ":") with (String quote ":"). rewrite str_app_cons. by apply prefix_other.
  - cbn [free_of] in Hk. apply andb_true_iff in Hk as [Hc Hk]. destruct v as [|d v].
    + apply negb_true_iff in Hc. rewrite str_app_cons. change (EmptyString +:+ String quote t) with (String quote t).
      cbn [String.prefix]. destruct (ascii_dec c quote) as [->|]; [by rewrite Ascii.eqb_refl in Hc|done].
    + cbn [free_of] in Hv. apply andb_true_iff in Hv as [_ Hv]. rewrite !str_app_cons. cbn [String.prefix String.eqb].
      destruct (ascii_dec c d) as [->|Hne]; [by rewrite Ascii.eqb_refl, IH|]. destruct (Ascii.eqb_spec c d); done.
Qed.

Lemma joined_cons p q rest : joined (p :: q :: rest) = (p +:+ String quote (joined (q :: rest))).
Proof. done. Qed.

Lemma find_key key pieces : free_of quote key = true -> Forall (fun p => free_of quote p = true) pieces ->
  let needle := String quote (key +:+ String quote ":") in
  match str_find needle (joined pieces) with
  | Some i => after_key key pieces = Some (str_drop (i + String.length needle) (joined pieces))
  | None => after_key key pieces = None
  end.
Proof.
  intros Hk. cbv zeta. induction 1 as [|p rest Hp Hrest IH]; [done|].
  destruct rest as [|v rest].
  - change (joined [p]) with p. by rewrite str_find_none.
  - rewrite joined_cons, str_find_skip by done. cbn [str_find].
    assert (Hprefix : String.prefix (String quote (key +:+ String quote ":")) (String quote (joined (v :: rest))) =
      String.prefix (key +:+ String quote ":") (joined (v :: rest))) by done.
    rewrite Hprefix. clear Hprefix. apply list.Forall_cons in Hrest as Hv. destruct Hv as [Hv Hrest'].
    assert (Hstep : forall hit, String.prefix (key +:+ String quote ":") (joined (v :: rest)) = hit ->
      after_key key (p :: v :: rest) = if hit then Some (str_drop (String.length p + String.length (String quote (key +:+ String quote ":"))) (p +:+ String quote (joined (v :: rest))))
                                       else after_key key (v :: rest)).
    { intros hit Hhit. destruct rest as [|w rest].
      - change (joined [v]) with v in Hhit. destruct hit; [|done]. exfalso. apply prefix_inv in Hhit as [t E].
        rewrite E, !free_of_app in Hv. cbn in Hv. by rewrite andb_false_r in Hv.
      - rewrite joined_cons, prefix_quoted in Hhit by done.
        destruct w as [|c w].
        + replace (String.prefix ":" (joined (EmptyString :: rest))) with false in Hhit by (destruct rest; done). rewrite andb_false_r in Hhit. by subst hit.
        + assert (Hc : String.prefix ":" (joined (String c w :: rest)) = (c =? ":")%char).
          { assert (Hfirst : forall t, String.prefix ":" (String c t) = (c =? ":")%char).
            { intros t. cbn [String.prefix]. destruct (ascii_dec ":" c) as [<-|Hn]; [by destruct t|]. destruct (Ascii.eqb_spec c ":") as [->|]; done. }
            destruct rest as [|x rest]; [apply Hfirst|]. rewrite joined_cons, str_app_cons. apply Hfirst. }
          rewrite Hc in Hhit. cbn [after_key]. rewrite andb_comm, String.eqb_sym, Hhit. destruct hit; [|done]. f_equal.
          apply andb_true_iff in Hhit as [<-%String.eqb_eq ->%Ascii.eqb_eq].
          rewrite <- str_drop_drop, str_drop_app, (joined_cons key). change (String.length (String quote (key +:+ String quote ":"))) with (S (String.length (key +:+ String quote ":"))).
          cbn [str_drop].
          assert (E : (key +:+ String quote (joined (String ":" w :: rest))) = ((key +:+ String quote ":") +:+ joined (w :: rest))).
          { rewrite str_app_assoc. f_equal. rewrite str_app_cons. f_equal. by destruct rest. }
          by rewrite E, str_drop_app. }
    destruct (String.prefix (key +:+ String quote ":") (joined (v :: rest))) eqn:Eh.
    + cbn [fmap option_fmap option_map]. rewrite Nat.add_0_r. exact (Hstep true eq_refl).
    + rewrite (Hstep false eq_refl). destruct (str_find _ (joined (v :: rest))) as [i|]; [|done]. cbn [fmap option_fmap option_map]. rewrite IH. f_equal.
      replace (String.length p + S i + String.length (String quote (key +:+ String quote ":")))%nat
        with (String.length p + S (i + String.length (String quote (key +:+ String quote ":"))))%nat by lia.
      by rewrite <- (str_drop_drop (String.length p)), str_drop_app.
Qed.

Lemma json_lookup_joined key pieces : free_of quote key = true -> Forall (fun p => free_of quote p = true) pieces ->
  json_lookup (joined pieces) key = match after_key key pieces with Some text => value_at text | None => EmptyString end.
Proof.
  intros Hk Hp. pose proof (find_key key pieces Hk Hp) as Hf. cbv zeta in Hf. unfold json_lookup.
  destruct (str_find _ (joined pieces)) as [i|]; rewrite Hf; [|done]. by destruct (str_drop _ _).
Qed.

Lemma after_key_hit key p w more : after_key key (p :: key :: String ":" w :: more) = Some (joined (w :: more)).
Proof. cbn [after_key]. by rewrite !String.eqb_refl. Qed.

Lemma after_key_skip key p v rest : (v =? key)%string = false -> after_key key (p :: v :: rest) = after_key key (v :: rest).
Proof. intros E. cbn [after_key]. destruct rest as [|[|c w] rest]; [done|done|]. by rewrite E, andb_false_r. Qed.

Lemma after_key_next key p v c w rest : (c =? ":")%char = false -> after_key key (p :: v :: String c w :: rest) = after_key key (v :: String c w :: rest).
Proof. intros E. cbn [after_key]. by rewrite E. Qed.

Lemma value_quoted v t : free_of quote v = true -> value_at (String quote (v +:+ String quote t)) = v.
Proof.
  intros Hv. unfold value_at. rewrite Ascii.eqb_refl. rewrite str_find_skip by done. change (String quote t) with (String quote EmptyString +:+ t).
  rewrite str_find_here. cbn [fmap option_fmap option_map]. by rewrite Nat.add_0_r, str_take_app.
Qed.

Lemma value_number n t : 0 <= n -> value_at (to_string n +:+ String "," t) = to_string n.
Proof.
  intros Hn. destruct (print_digits_head 20 n EmptyString ltac:(lia) Hn) as (d & rest & Hd & E).
  assert (Hq : free_of quote (to_string n) = true) by (by apply to_string_free).
  assert (Hend : forall s, free_of "," s = true -> free_of "}" s = true -> find_value_end (s +:+ String "," t) = String.length s).
  { induction s as [|c s IH]; [done|]. cbn [free_of]. intros [H1 H2]%andb_true_iff [H3 H4]%andb_true_iff. rewrite str_app_cons. cbn [find_value_end String.length].
    apply negb_true_iff in H1, H3. rewrite H1, H3. cbn [orb]. by rewrite IH. }
  specialize (Hend (to_string n) ltac:(by apply to_string_free) ltac:(by apply to_string_free)).
  unfold value_at. destruct (to_string n +:+ String "," t) as [|c s] eqn:Ec; [unfold to_string in Ec; by rewrite E in Ec|].
  assert (Hc : (c =? quote)%char = false).
  { unfold to_string in Ec, Hq. rewrite E in Ec, Hq. rewrite str_app_cons in Ec. injection Ec as <- _. cbn [free_of] in Hq. apply andb_true_iff in Hq as [Hq _]. by apply negb_true_iff. }
  rewrite Hc, Hend, <- Ec. apply str_take_app.
Qed.

(** Texts that need no escaping. *)
Lemma json_escape_length s : (String.length s <= String.length (json_escape s))%nat.
Proof.
  induction s as [|c s IH]; [done|]. cbn [json_escape String.length]. rewrite str_length_app.
  assert (Hc : (1 <= String.length (escape_char c))%nat) by (unfold escape_char; repeat case_match; cbn; lia). lia.
Qed.

Lemma json_plain_free s : json_escape s = s -> free_of quote s = true.
Proof.
  induction s as [|c s IH]; [done|]. cbn [json_escape free_of]. intros E. pose proof (json_escape_length s) as Hl.
  pose proof (f_equal String.length E) as El. rewrite str_length_app in El. cbn [String.length] in El.
  destruct (Ascii.eqb_spec c quote) as [->|Hne]; [cbn in El; lia|]. cbn [negb andb]. apply IH.
  assert (H1 : String.length (escape_char c) = 1%nat) by (revert El; unfold escape_char; repeat case_match; cbn; lia).
  destruct (escape_char c) as [|x [|]]; [done| |done]. by injection E.
Qed.

(** ** Properties *)
(** Request targets.  Whatever path and query parameters a client prints,
    percent-encoded, the listener reads back exactly: the same path, and for every
    key the value it was given last; and every escaped text is read back by a JSON
    reader, which stops at the closing quote the service wrote. *)
Theorem texts_roundtrip (path : string) (pairs : list (string * string)) (text rest : string) :
  parse_target (print_target path pairs) = (path, foldl (fun m kv => <[fst kv := snd kv]> m) ∅ pairs) /\
  json_string (json_escape text +:+ String quote rest) = Some (text, rest).
Proof.
  split; [apply parse_print_target|]. induction text as [|c text IH]; [done|]. cbn [json_escape].
  by rewrite str_app_assoc, json_escape_char, IH.
Qed.

(** C34. One exchange.  A request the client prints, arriving in any pieces, reaches
    the handler registered for it with the method, path, query, header fields and
    body it was sent with; and the response, arriving in any pieces, gives the
    client the handler's status and body. *)
Theorem http_exchange {App} (s : HttpServer App) (app : App) (host method target body : string) (pieces answer : list string) (sends replies : list Z) :
  let request := mkHttpRequest method (fst (parse_target target)) (snd (parse_target target)) (request_headers host body) body in
  let response := fst (dispatch s request app) in
  request_ok host method target body -> Z.of_nat (String.length (print_request host method target body)) <= kMaxRequestBytes ->
  Forall (fun c => c <> EmptyString) pieces -> foldr String.append EmptyString pieces = print_request host method target body ->
  response_ok response -> Z.of_nat (String.length (print_response response)) <= 1024 * 1024 ->
  Forall (fun c => c <> EmptyString) answer -> foldr String.append EmptyString answer = print_response response ->
  snd (http_send sends (print_request host method target body)) = true -> snd (http_send replies (print_response response)) = true ->
  handle_client s pieces replies app =
    (mkHttpServer (hs_routes s) (hs_fallback s) (u64 (hs_requests_served s + 1)), snd (dispatch s request app), Some (print_response response)) /\
  http_fetch None host method target body sends answer =
    mkHttpFetch ((200 <=? rs_status response) && (rs_status response <? 300)) (rs_status response) (rs_body response) EmptyString.
Proof.
  intros request response Hok Hmax Hp Ep Hr Hrmax Ha Ea Hsend Hreply. split.
  - unfold handle_client. rewrite (receive_request_exact host method target body Hok) by
      (try done; rewrite print_request_head, str_length_app, head_length by done; cbn; lia).
    rewrite parse_printed by done. fold request. subst response. destruct (dispatch s request app) as [response app']. cbn [fst snd] in *.
    by rewrite http_send_all.
  - unfold http_fetch. destruct (http_send sends _) as [out ok]. cbn [snd] in Hsend. subst ok. cbn [negb].
    rewrite receive_response_exact; [|done|by rewrite Ea]. change (EmptyString +:+ ?x) with x. rewrite Ea. by apply read_printed_response.
Qed.

(** ** Witnesses *)
(** A handler that answers with the query's player and counts its calls. *)
Definition sample_handler : Handler Z := fun request calls => (json_response (json_escape (query_value request "player" "")), calls + 1).
Definition sample_server : HttpServer Z := route "POST" "/session" sample_handler HttpServer_new.
Definition sample_request : string := print_request "10.0.0.1:80" "POST" "/session?player=p+1%26x&region=3" "{}".
Definition sample_reply : string := print_response (json_response "p 1&x").

Lemma http_exchange_witness :
  let target := "/session?player=p+1%26x&region=3"%string in
  let request := mkHttpRequest "POST" (fst (parse_target target)) (snd (parse_target target)) (request_headers "10.0.0.1:80" "{}") "{}" in
  let response := fst (dispatch sample_server request 7) in
  rs_body response = "p 1&x"%string /\
  handle_client sample_server [str_take 50 sample_request; str_drop 50 sample_request] [10; 1000] 7 =
    (mkHttpServer (hs_routes sample_server) (hs_fallback sample_server) (u64 (hs_requests_served sample_server + 1)),
     snd (dispatch sample_server request 7), Some (print_response response)) /\
  http_fetch None "10.0.0.1:80" "POST" target "{}" [300] [str_take 20 sample_reply; str_drop 20 sample_reply] =
    mkHttpFetch ((200 <=? rs_status response) && (rs_status response <? 300)) (rs_status response) (rs_body response) EmptyString.
Proof.
  intros target request response. split; [vm_compute; reflexivity|].
  apply (http_exchange sample_server 7 "10.0.0.1:80" "POST" target "{}").
  - split; vm_compute; by repeat split.
  - vm_compute. discriminate.
  - repeat constructor; vm_compute; discriminate.
  - vm_compute. reflexivity.
  - split; [vm_compute; by split|vm_compute; reflexivity|vm_compute; constructor].
  - vm_compute. discriminate.
  - repeat constructor; vm_compute; discriminate.
  - vm_compute. reflexivity.
  - vm_compute. reflexivity.
  - vm_compute. reflexivity.
Defined.
