(* ===== verification/Listener.v ===== *)
(** * Listener: the HTTP server's thread ([src/src/net/http.cpp])

    [HttpServer::start], [stop] and the loop of [serve], as the steps of two threads: the
    one that serves and the one that owns the server.  Between two steps of one of them
    the other may take any number of its own.  What the operating system answers is part
    of the step; one client's exchange is [Http.handle_client].

    A call that can block is a point where the thread stands until the step that returns
    from it, and a step that the system may answer with is not one it must: [must_return]
    says which calls come back whatever the peers do, because they have a timeout
    ([poll]), because the socket they were made on has been shut down ([accept]), or
    because they do not wait.  [accept] on a listening socket need not return (the
    connection [poll] saw may be gone), [send] has no timeout and returns only while its
    peer reads, and [accept] on a number that was closed under it may find another file
    behind it. *)

From S2P Require Import Prelude Text Connection Http.
From Stdlib Require Import ZArith Lia Bool Ascii String.
From stdpp Require Import base tactics numbers list option gmap strings.
#[local] Open Scope Z_scope.

(** ** Data *)
(** The timeouts of the two [poll]s in milliseconds; a negative one would be none. *)
Definition kServePollMs : Z := 200.
Definition kClientTimeoutMs : Z := 5000.

(** What [socket], [bind], [listen] and [getsockname] answer. *)
Record ListenCalls := mkListenCalls { ln_socket : bool; ln_bind : bool; ln_listen : bool; ln_name : option Address }.

(** What a client sends, in the pieces it arrives in, and what each write to it takes; a
    write past the end of the list never returns. *)
Record Visitor := mkVisitor { ct_chunks : list string; ct_writes : list Z }.

(** What [listen_fd_] is: -1, the listening socket, or the number of the socket that was
    closed and that any other thread may have been given since. *)
Inductive ListenFd := NoFd | OpenFd | StaleFd.

(** Where the serving thread is: before the loop's test, in [poll], with a listening
    socket that is ready, before [accept] reads [listen_fd_], in [accept] on what it has
    read, with a client, in the last [send] to it ([returns]: the client takes all of the
    answer or fails), with a client that has been served, and past the loop. *)
Inductive ServePoint :=
  | NoThread
  | AtTest
  | InPoll
  | PollReady
  | AtAccept
  | InAccept (on : ListenFd)
  | WithClient (client : Visitor)
  | InSend (returns : bool)
  | ClientServed
  | Ended.

(** Where the owner is: outside of [stop], before it shuts the socket down, before it
    closes it, before it forgets its number, before it joins the thread. *)
Inductive OwnerPoint := Outside | Shutting | Closing | Forgetting | Joining.

(** [li_shut]: the listening socket has been shut down.  [li_open] counts the clients'
    sockets that are open; it and the log of clients and answers are not in the code. *)
Record Listener (App : Type) := mkListener {
  li_server : HttpServer App;
  li_app : App;
  li_fd : ListenFd;
  li_shut : bool;
  li_local : Address;
  li_running : bool;
  li_serving : ServePoint;
  li_owner : OwnerPoint;
  li_open : nat;
  li_handled : list Visitor;
  li_replies : list (option string)
}.
Arguments mkListener {App}.
Arguments li_server {App}.
Arguments li_app {App}.
Arguments li_fd {App}.
Arguments li_shut {App}.
Arguments li_local {App}.
Arguments li_running {App}.
Arguments li_serving {App}.
Arguments li_owner {App}.
Arguments li_open {App}.
Arguments li_handled {App}.
Arguments li_replies {App}.

(** [start] before it makes the thread: whether it succeeds, and [local_]. *)
Definition open_listener (bind : Address) (calls : ListenCalls) (local : Address) : bool * Address :=
  if negb (ln_socket calls) then (false, local) else
  if negb (ln_bind calls) then (false, local) else
  if negb (ln_listen calls) then (false, local) else
  (true, default bind (ln_name calls)).

(** The steps of the serving thread with what the system answers, and the owner's. *)
Inductive ServeStep :=
  | TestRunning
  | PollReturns (ready : Z)
  | TestAgain
  | CallAccept
  | AcceptReturns (client : option Visitor)
  | HandleClient
  | SendReturns
  | CloseClient.

Inductive OwnerStep :=
  | Start (bind : Address) (calls : ListenCalls)
  | ClearRunning
  | ShutSocket
  | CloseSocket
  | ForgetSocket
  | JoinThread.

Inductive Step := Serve (s : ServeStep) | Owner (o : OwnerStep).

(** The loop of [send]s comes to an end: the payload is out or a call has failed before
    the peer stops taking anything. *)
Fixpoint send_returns (writes : list Z) (payload : string) : bool :=
  match payload, writes with
  | EmptyString, _ => true
  | _, [] => false
  | _, wrote :: writes => (wrote <=? 0) || send_returns writes (str_drop (Z.to_nat wrote) payload)
  end.

(** ** Operations *)
Section Listener.
Context {App : Type}.
#[local] Abbreviation Server := (Listener App).

Definition Listener_new (server : HttpServer App) (app : App) : Server :=
  mkListener server app NoFd false (mkAddress 0 0) false NoThread Outside 0 [] [].

Definition set_serving (p : ServePoint) (l : Server) : Server :=
  mkListener (li_server l) (li_app l) (li_fd l) (li_shut l) (li_local l) (li_running l) p (li_owner l) (li_open l) (li_handled l) (li_replies l).
Definition set_open (n : nat) (l : Server) : Server :=
  mkListener (li_server l) (li_app l) (li_fd l) (li_shut l) (li_local l) (li_running l) (li_serving l) (li_owner l) n (li_handled l) (li_replies l).
Definition set_owner (running : bool) (o : OwnerPoint) (l : Server) : Server :=
  mkListener (li_server l) (li_app l) (li_fd l) (li_shut l) (li_local l) running (li_serving l) o (li_open l) (li_handled l) (li_replies l).
Definition set_socket (fd : ListenFd) (shut : bool) (local : Address) (l : Server) : Server :=
  mkListener (li_server l) (li_app l) fd shut local (li_running l) (li_serving l) (li_owner l) (li_open l) (li_handled l) (li_replies l).

(** The answer the client the thread is with gets, if it gets one. *)
Definition answer_for (server : HttpServer App) (app : App) (chunks : list string) : option HttpResponse :=
  match receive_request chunks EmptyString None with
  | Some (buffer, Some header_end) =>
      match parse_request buffer header_end with
      | Some request => Some (fst (dispatch server request app))
      | None => None
      end
  | _ => None
  end.

Definition answer_returns (client : Visitor) (l : Server) : bool :=
  match answer_for (li_server l) (li_app l) (ct_chunks client) with
  | Some response => send_returns (ct_writes client) (print_response response)
  | None => true
  end.

(** [handle_client] up to its last [send]; the log has what reaches the client. *)
Definition serve_client (client : Visitor) (l : Server) : Server :=
  let '(server, app, reply) := handle_client (li_server l) (ct_chunks client) (ct_writes client) (li_app l) in
  mkListener server app (li_fd l) (li_shut l) (li_local l) (li_running l) (InSend (answer_returns client l)) (li_owner l) (li_open l)
    (li_handled l ++ [client]) (li_replies l ++ [reply]).

(** [serve]; [None] where the step is not the thread's next one.  A client comes from the
    socket while it is not shut down, or from whatever a stale number stands for; a [send]
    that does not return has no step. *)
Definition serve_step (s : ServeStep) (l : Server) : option Server :=
  match li_serving l, s with
  | AtTest, TestRunning => Some (set_serving (if li_running l then InPoll else Ended) l)
  | InPoll, PollReturns ready => Some (set_serving (if ready <=? 0 then AtTest else PollReady) l)
  | PollReady, TestAgain => Some (set_serving (if li_running l then AtAccept else Ended) l)
  | AtAccept, CallAccept => Some (set_serving (InAccept (li_fd l)) l)
  | InAccept _, AcceptReturns None => Some (set_serving AtTest l)
  | InAccept on, AcceptReturns (Some client) =>
      if match on with NoFd => false | OpenFd => negb (li_shut l) | StaleFd => true end
      then Some (set_open (S (li_open l)) (set_serving (WithClient client) l)) else None
  | WithClient client, HandleClient => Some (serve_client client l)
  | InSend true, SendReturns => Some (set_serving ClientServed l)
  | ClientServed, CloseClient => Some (set_open (pred (li_open l)) (set_serving AtTest l))
  | _, _ => None
  end.

(** [start] and [stop]; a second [start] would replace a running thread and abort. *)
Definition owner_step (o : OwnerStep) (l : Server) : option Server :=
  match li_owner l, o with
  | Outside, Start bind calls =>
      match li_serving l with
      | NoThread =>
          let '(ok, local) := open_listener bind calls (li_local l) in
          Some (if ok then set_owner true Outside (set_serving AtTest (set_socket OpenFd false local l)) else set_socket NoFd false local l)
      | _ => None
      end
  | Outside, ClearRunning =>
      Some (set_owner false (if li_running l then match li_fd l with NoFd => Joining | _ => Shutting end else Joining) l)
  | Shutting, ShutSocket => Some (set_owner (li_running l) Closing (set_socket (li_fd l) true (li_local l) l))
  | Closing, CloseSocket => Some (set_owner (li_running l) Forgetting (set_socket StaleFd (li_shut l) (li_local l) l))
  | Forgetting, ForgetSocket => Some (set_owner (li_running l) Joining (set_socket NoFd (li_shut l) (li_local l) l))
  | Joining, JoinThread =>
      match li_serving l with
      | Ended | NoThread => Some (set_owner (li_running l) Outside (set_serving NoThread l))
      | _ => None
      end
  | _, _ => None
  end.

Definition listener_step (l : Server) (s : Step) : option Server :=
  match s with Serve s => serve_step s l | Owner o => owner_step o l end.

Fixpoint run_listener (steps : list Step) (l : Server) : option Server :=
  match steps with
  | [] => Some l
  | s :: steps => l ← listener_step l s; run_listener steps l
  end.

(** The specification of [serve]: the clients one after the other, each one served by the
    program the ones before it have left. *)
Definition serve_all (server : HttpServer App) (app : App) (clients : list Visitor) : HttpServer App * App * list (option string) :=
  foldl (fun '(server, app, replies) client =>
           let '(server, app, reply) := handle_client server (ct_chunks client) (ct_writes client) app in (server, app, replies ++ [reply]))
        (server, app, []) clients.

(** ** What cannot block *)
(** The call the thread is in comes back, or it is in none, whatever its peers do.  A [poll]
    ends by its timeout, also the one before each [recv] from a client; [accept] fails at
    once on -1, and fails on a socket that has been shut down, even when it was waiting. *)
Definition must_return (l : Server) : bool :=
  match li_serving l with
  | AtTest | PollReady | AtAccept | ClientServed => true
  | InPoll => 0 <=? kServePollMs
  | InAccept NoFd => true
  | InAccept OpenFd => li_shut l
  | InAccept StaleFd => false
  | WithClient _ => 0 <=? kClientTimeoutMs
  | InSend returns => returns
  | NoThread | Ended => false
  end.

(** The two ways to hang: a client that takes no more of its answer, and an [accept] on a
    number that was closed between the thread's test of [running_] and the call. *)
Definition waits_for_ever (l : Server) : Prop := li_serving l = InSend false \/ li_serving l = InAccept StaleFd.

(** ** The invariant *)
Definition with_client (p : ServePoint) : nat := match p with WithClient _ | InSend _ | ClientServed => 1 | _ => 0 end.

(** How many of its steps the thread can take once [running_] is cleared. *)
Definition steps_left (p : ServePoint) : nat :=
  match p with
  | NoThread | Ended => 0 | AtTest | PollReady => 1 | InPoll | ClientServed => 2 | InSend _ => 3 | WithClient _ => 4 | InAccept _ => 5 | AtAccept => 6
  end.

(** The socket at each point of the owner. *)
Definition socket_ok (l : Server) : Prop :=
  match li_owner l with
  | Outside => if li_running l then li_fd l = OpenFd /\ li_shut l = false /\ li_serving l <> NoThread /\ li_serving l <> Ended
               else li_fd l = NoFd /\ li_serving l = NoThread
  | Shutting => li_running l = false /\ li_fd l = OpenFd
  | Closing => li_running l = false /\ li_fd l = OpenFd /\ li_shut l = true
  | Forgetting => li_running l = false /\ li_fd l = StaleFd /\ li_shut l = true
  | Joining => li_running l = false /\ li_fd l = NoFd /\ (li_serving l = InAccept OpenFd -> li_shut l = true)
  end.

Record listener_ok (server : HttpServer App) (app : App) (l : Server) : Prop := {
  lo_served : (li_server l, li_app l, li_replies l) = serve_all server app (li_handled l);
  lo_open : li_open l = with_client (li_serving l);
  lo_socket : socket_ok l
}.

Lemma serve_all_snoc server app clients client : serve_all server app (clients ++ [client]) =
  let '(server, app, replies) := serve_all server app clients in
  let '(server, app, reply) := handle_client server (ct_chunks client) (ct_writes client) app in (server, app, replies ++ [reply]).
Proof. unfold serve_all. rewrite foldl_app. cbn [foldl]. by destruct (foldl _ _ _) as [[s a] r]. Qed.

(** What the log has of a client is its answer, as far as the [send]s took it. *)
Lemma handle_client_answer (server : HttpServer App) app chunks writes :
  snd (handle_client server chunks writes app) = (fun response => fst (http_send writes (print_response response))) <$> answer_for server app chunks.
Proof.
  unfold handle_client, answer_for. destruct (receive_request _ _ _) as [[buffer [header_end|]]|]; try done.
  destruct (parse_request _ _) as [request|]; [|done]. by destruct (dispatch _ _ _).
Qed.

Lemma listener_new_ok server app : listener_ok server app (Listener_new server app).
Proof. by split. Qed.

Lemma serve_step_socket s l l' : serve_step s l = Some l' -> li_running l' = li_running l /\ li_owner l' = li_owner l /\ li_fd l' = li_fd l /\ li_shut l' = li_shut l.
Proof.
  intros E. unfold serve_step in E. repeat case_match; try discriminate E; injection E as <-; try done.
  all: unfold serve_client; by destruct (handle_client _ _ _ _) as [[? ?] ?].
Qed.

Lemma serve_step_point s l l' : serve_step s l = Some l' -> li_serving l <> NoThread /\ li_serving l <> Ended /\ li_serving l' <> NoThread /\
  (li_serving l' = Ended -> li_running l = false) /\ (li_serving l' = InAccept OpenFd -> li_serving l = AtAccept /\ li_fd l = OpenFd).
Proof.
  intros E. unfold serve_step in E. repeat case_match; try discriminate E; injection E as <-; cbn; try by split_and!.
  all: try (split_and!; try done; by injection 1).
  all: unfold serve_client; destruct (handle_client _ _ _ _) as [[? ?] ?]; by split_and!.
Qed.

Lemma serve_step_ok server app s l l' : listener_ok server app l -> serve_step s l = Some l' -> listener_ok server app l'.
Proof.
  intros [Hs Ho Hk] E. split.
  - unfold serve_step in E. repeat case_match; try discriminate E; injection E as <-; try exact Hs.
    unfold serve_client. destruct (handle_client _ _ _ _) as [[server' app'] reply] eqn:Eh. cbn -[serve_all]. by rewrite serve_all_snoc, <- Hs, Eh.
  - unfold serve_step in E. repeat case_match; try discriminate E; injection E as <-; cbn; try (rewrite Ho; by cbn); try done.
    unfold serve_client. destruct (handle_client _ _ _ _) as [[server' app'] reply]. cbn. by rewrite Ho; cbn.
  - destruct (serve_step_socket s l l' E) as (Er & Ew & Ef & Esh). destruct (serve_step_point s l l' E) as (N1 & N2 & N3 & N4 & N5).
    unfold socket_ok in *. rewrite Er, Ew, Ef, Esh. destruct (li_owner l); [|done..|].
    + destruct (li_running l); [|by destruct Hk as [_ ?]]. destruct Hk as (Hf & Hsh & _). split_and!; try done. by intros H%N4.
    + destruct Hk as (Hr & Hf & _). split_and!; try done. intros [_ H]%N5. by rewrite Hf in H.
Qed.

Lemma owner_step_socket o l l' : socket_ok l -> owner_step o l = Some l' -> socket_ok l'.
Proof.
  intros Hk E. unfold owner_step, socket_ok in *. destruct (li_owner l) eqn:Ew; destruct o; try discriminate E.
  - destruct (li_serving l) eqn:Ep; try discriminate E. destruct (open_listener _ _ _) as [[] local]; injection E as <-; cbn; [done|].
    rewrite Ew. destruct (li_running l); [by destruct Hk as (_ & _ & ? & _)|by rewrite Ep].
  - injection E as <-. cbn. destruct (li_running l); [destruct Hk as (Hf & _); by rewrite Hf|]. destruct Hk as [Hf Hn]. by rewrite Hn.
  - injection E as <-. cbn. by destruct Hk.
  - injection E as <-. cbn. by destruct Hk as (? & ? & ?).
  - injection E as <-. cbn. by destruct Hk as (? & ? & ?).
  - destruct Hk as (Hr & Hf & _). destruct (li_serving l); try discriminate E; injection E as <-; cbn; by rewrite Hr.
Qed.

Lemma owner_step_ok server app o l l' : listener_ok server app l -> owner_step o l = Some l' -> listener_ok server app l'.
Proof.
  intros [Hs Ho Hk] E. pose proof (owner_step_socket o l l' Hk E) as Hk'. unfold owner_step in E.
  assert (Hlog : li_server l' = li_server l /\ li_app l' = li_app l /\ li_replies l' = li_replies l /\ li_handled l' = li_handled l /\
    li_open l' = li_open l /\ with_client (li_serving l') = with_client (li_serving l)).
  { destruct (li_owner l), o; try discriminate E.
    - destruct (li_serving l) eqn:Ep; try discriminate E. destruct (open_listener _ _ _) as [[] local]; injection E as <-; cbn; by rewrite ?Ep.
    - by injection E as <-.
    - by injection E as <-.
    - by injection E as <-.
    - by injection E as <-.
    - destruct (li_serving l) eqn:Ep; try discriminate E; by injection E as <-. }
  destruct Hlog as (E1 & E2 & E3 & E4 & E5 & E6). split; [by rewrite E1, E2, E3, E4|by rewrite E5, E6|exact Hk'].
Qed.

Lemma run_listener_ok server app steps : forall l l', listener_ok server app l -> run_listener steps l = Some l' -> listener_ok server app l'.
Proof.
  induction steps as [|s steps IH]; intros l l' Hl E; cbn [run_listener] in E; [by injection E as <-|].
  destruct (listener_step l s) as [l1|] eqn:Es; [|discriminate]. apply (IH l1); [|done].
  destruct s; [by eapply serve_step_ok|by eapply owner_step_ok].
Qed.

Lemma serve_step_left s l l' : li_running l = false -> serve_step s l = Some l' ->
  li_running l' = false /\ (steps_left (li_serving l') < steps_left (li_serving l))%nat.
Proof.
  intros Hr E. unfold serve_step in E. repeat case_match; try discriminate E; injection E as <-; cbn; try (split; [done|lia]); try congruence.
  unfold serve_client. destruct (handle_client _ _ _ _) as [[? ?] ?]. cbn. split; [done|lia].
Qed.

Lemma serve_run_left steps : forall l l', li_running l = false -> run_listener (Serve <$> steps) l = Some l' ->
  (length steps + steps_left (li_serving l') <= steps_left (li_serving l))%nat.
Proof.
  induction steps as [|s steps IH]; intros l l' Hr E; cbn in E; [injection E as <-; cbn; lia|].
  destruct (serve_step s l) as [l1|] eqn:Es; [|discriminate]. destruct (serve_step_left s l l1 Hr Es) as [Hr1 Hlt].
  specialize (IH l1 l' Hr1 E). cbn [length]. lia.
Qed.

Lemma must_return_step l : must_return l = true -> exists s, is_Some (serve_step s l).
Proof.
  unfold must_return, serve_step. destruct (li_serving l) as [| | | | |on| |[]| |]; try discriminate; intros _.
  - by exists TestRunning.
  - by exists (PollReturns 0).
  - by exists TestAgain.
  - by exists CallAccept.
  - exists (AcceptReturns None). by destruct on.
  - by exists HandleClient.
  - by exists SendReturns.
  - by exists CloseClient.
Qed.

(** Once the owner only has to join, every call of the thread comes back but the two. *)
Lemma joining_moves l : socket_ok l -> li_owner l = Joining ->
  is_Some (owner_step JoinThread l) \/ must_return l = true \/ waits_for_ever l.
Proof.
  unfold socket_ok, owner_step, must_return, waits_for_ever. intros Hk Ew. rewrite Ew in Hk |- *. destruct Hk as (_ & _ & Hk).
  destruct (li_serving l) as [| | | | |[]| |[]| |]; naive_solver.
Qed.

(** What the owner does before it joins never waits. *)
Lemma owner_moves l : li_owner l <> Outside -> li_owner l <> Joining -> exists o, is_Some (owner_step o l).
Proof.
  unfold owner_step. destruct (li_owner l); [done|exists ShutSocket|exists CloseSocket|exists ForgetSocket|done]; by eexists.
Qed.
(** Every piece read has a byte, and the reading ends at the size cap: no more than
    [kMaxRequestBytes] pieces are waited for. *)
Lemma receive_request_bounded n : forall chunks buffer header_end, kMaxRequestBytes <= Z.of_nat n + Z.of_nat (String.length buffer) ->
  receive_request (take n chunks) buffer header_end = receive_request chunks buffer header_end.
Proof.
  induction n as [|n IH]; intros chunks buffer header_end Hn.
  - unfold receive_request. destruct chunks as [|chunk chunks]; cbn [take]; rewrite (proj2 (Z.ltb_ge _ _)) by lia; done.
  - destruct chunks as [|chunk chunks]; [done|]. cbn [take receive_request]. destruct (_ <? kMaxRequestBytes); [|done].
    destruct chunk as [|c chunk]; [done|].
    assert (Hl : kMaxRequestBytes <= Z.of_nat n + Z.of_nat (String.length (buffer +:+ String c chunk))).
    { rewrite str_length_app. cbn [String.length]. lia. }
    destruct (str_find _ _); [|by apply IH]. destruct (_ <=? _); [done|by apply IH].
Qed.

Lemma handle_client_bounded n chunks writes (server : HttpServer App) (app : App) : kMaxRequestBytes <= Z.of_nat n ->
  handle_client server (take n chunks) writes app = handle_client server chunks writes app.
Proof. intros Hn. unfold handle_client. rewrite receive_request_bounded; [done|]. cbn [String.length]. lia. Qed.
End Listener.

(** ** The property *)
(** C24. The listener serves in order, and what can keep it from stopping.  However the
    steps of the serving thread and of its owner interleave, and whatever the system
    answers: the program, the counters and the answers are those of the clients served
    one after the other, in the order they were accepted, each with its own socket, which
    is closed again.  After [stop] has cleared the flag the thread takes at most six more
    steps; the owner never waits before the join, and at the join either the thread has
    ended and [stop] returns, or the thread is in a call that must come back
    ([must_return]: by its timeout, or because the socket was shut down), or it is in one
    of the two that may not: a client has stopped reading its answer, or [accept] was
    called on a number closed under it.  (The wait for a client's request is bounded too,
    if only by [kMaxRequestBytes] reads of up to [kClientTimeoutMs] each.)  In the first
    of these nothing can happen any more: [stop] hangs.  Once [stop] has returned the listening socket is closed, no
    client's socket is open, and the thread takes no step. *)
Theorem listener_stops {App} (server : HttpServer App) (app : App) (steps : list Step) (l : Listener App) :
  run_listener steps (Listener_new server app) = Some l ->
  (li_server l, li_app l, li_replies l) = serve_all server app (li_handled l) /\
  (li_open l <= 1)%nat /\
  (li_running l = false -> forall more l', run_listener (Serve <$> more) l = Some l' -> (length more <= 6)%nat) /\
  (li_owner l <> Outside -> li_owner l <> Joining -> exists o, is_Some (owner_step o l)) /\
  (li_owner l = Joining ->
     is_Some (owner_step JoinThread l) \/
     (must_return l = true /\ exists s, is_Some (serve_step s l)) \/
     waits_for_ever l) /\
  (forall n client, kMaxRequestBytes <= Z.of_nat n ->
     handle_client (li_server l) (take n (ct_chunks client)) (ct_writes client) (li_app l) =
     handle_client (li_server l) (ct_chunks client) (ct_writes client) (li_app l)) /\
  (li_owner l = Joining -> li_serving l = InSend false -> forall s, listener_step l s = None) /\
  (li_running l = false -> li_owner l = Outside -> li_fd l = NoFd /\ li_open l = 0%nat /\ forall s, serve_step s l = None).
Proof.
  intros E. destruct (run_listener_ok server app steps _ _ (listener_new_ok server app) E) as [Hs Ho Hk].
  split_and!; [done|rewrite Ho; by destruct (li_serving l); cbn; lia| |apply owner_moves| |intros; by apply handle_client_bounded| |].
  - intros Hf more l' Em. pose proof (serve_run_left more l l' Hf Em) as Hl. destruct (li_serving l); cbn in Hl; lia.
  - intros Ew. destruct (joining_moves l Hk Ew) as [|[Hm|]]; [by left|right; left|by do 2 right]. split; [done|by apply must_return_step].
  - intros Ew Ep [s|o]; cbn [listener_step]; unfold serve_step, owner_step; rewrite ?Ew, ?Ep; [done|by destruct o].
  - intros Hf Hw. unfold socket_ok in Hk. rewrite Hw, Hf in Hk. destruct Hk as [Hfd Hn]. split_and!; [done|by rewrite Ho, Hn|].
    intros s. unfold serve_step. rewrite Hn. by destruct s.
Qed.

(** ** Witness: a client served, a stop while the thread is in [accept], and a client that does not read *)
Definition sample_client : Visitor := mkVisitor [str_take 50 sample_request; str_drop 50 sample_request] [10; 1000].
Definition silent_client : Visitor := mkVisitor [sample_request] [10].

Definition sample_start : list Step := [Owner (Start (mkAddress 0 8080) (mkListenCalls true true true None))].
Definition accepting_steps : list Step := [Serve TestRunning; Serve (PollReturns 1); Serve TestAgain; Serve CallAccept].
Definition visit_steps (client : Visitor) : list Step := [Serve (AcceptReturns (Some client)); Serve HandleClient].
Definition stop_steps : list Step := [Owner ClearRunning; Owner ShutSocket; Owner CloseSocket; Owner ForgetSocket].

(** Served, closed, and waiting in [accept] when [stop] shuts the socket down. *)
Definition sample_steps : list Step :=
  sample_start ++ accepting_steps ++ visit_steps sample_client ++ [Serve SendReturns; Serve CloseClient] ++ accepting_steps ++ stop_steps.

Definition stopping_well (l : Listener Z) : bool :=
  negb (li_running l) && (match li_owner l with Joining => true | _ => false end) && (li_app l =? 8) && (length (li_handled l) =? 1)%nat &&
  must_return l && (match run_listener [Serve (AcceptReturns None); Serve TestRunning; Owner JoinThread] l with Some _ => true | None => false end).

Lemma sample_stopped : match run_listener sample_steps (Listener_new sample_server 7) with Some l => stopping_well l | None => false end = true.
Proof. vm_compute. reflexivity. Qed.

Lemma sample_stopped_some : exists l, run_listener sample_steps (Listener_new sample_server 7) = Some l /\ stopping_well l = true.
Proof.
  pose proof sample_stopped as H. destruct (run_listener sample_steps (Listener_new sample_server 7)) as [l|]; [by exists l|discriminate].
Qed.

Lemma listener_stops_witness : exists l : Listener Z, stopping_well l = true /\
  (li_server l, li_app l, li_replies l) = serve_all sample_server 7 (li_handled l) /\
  (li_open l <= 1)%nat /\
  (li_running l = false -> forall more l', run_listener (Serve <$> more) l = Some l' -> (length more <= 6)%nat) /\
  (li_owner l <> Outside -> li_owner l <> Joining -> exists o, is_Some (owner_step o l)) /\
  (li_owner l = Joining ->
     is_Some (owner_step JoinThread l) \/
     (must_return l = true /\ exists s, is_Some (serve_step s l)) \/
     waits_for_ever l) /\
  (forall n client, kMaxRequestBytes <= Z.of_nat n ->
     handle_client (li_server l) (take n (ct_chunks client)) (ct_writes client) (li_app l) =
     handle_client (li_server l) (ct_chunks client) (ct_writes client) (li_app l)) /\
  (li_owner l = Joining -> li_serving l = InSend false -> forall s, listener_step l s = None) /\
  (li_running l = false -> li_owner l = Outside -> li_fd l = NoFd /\ li_open l = 0%nat /\ forall s, serve_step s l = None).
Proof.
  destruct sample_stopped_some as (l & E & Hl). exists l. split; [exact Hl|].
  apply (listener_stops sample_server 7 sample_steps l). exact E.
Defined.

(** A client that takes ten bytes of its answer and no more keeps [stop] from returning:
    the owner is at the join, the thread in [send], and neither has a step. *)
Example silent_client_hangs_stop :
  match run_listener (sample_start ++ accepting_steps ++ visit_steps silent_client ++ stop_steps) (Listener_new sample_server 7) with
  | Some l => match li_owner l, li_serving l with Joining, InSend false => true | _, _ => false end
  | None => false
  end = true.
Proof. vm_compute. reflexivity. Qed.

(** A stop that runs between the thread's second test of the flag and its [accept] is not
    noticed by either: the call is made on a number that is closed. *)
Example accept_on_stale_number :
  match run_listener (sample_start ++ [Serve TestRunning; Serve (PollReturns 1); Serve TestAgain; Owner ClearRunning; Owner ShutSocket;
                        Owner CloseSocket; Serve CallAccept; Owner ForgetSocket]) (Listener_new sample_server 7) with
  | Some l => match li_owner l, li_serving l with Joining, InAccept StaleFd => true | _, _ => false end
  | None => false
  end = true.
Proof. vm_compute. reflexivity. Qed.
