(* ===== verification/Matchmaker.v ===== *)
(** * Matchmaker: session grants ([src/src/cluster/matchmaker.h], [matchmaker.cpp])

    The stateless front door: every decision is derived from the registry.  A
    player the directory already places on a live shard is steered back there;
    anyone else gets the least loaded shard that accepts players, claimed in the
    directory.  The grant travels as JSON. *)

From S2P Require Import Prelude F32 Region Text Redis Store Presence Shard Http.
From Stdlib Require Import ZArith Lia Bool Ascii String.
From stdpp Require Import base tactics numbers list option gmap sets fin_maps sorting strings.
#[local] Open Scope Z_scope.

(** ** Data *)
Record MatchmakerConfig := mkMatchmakerConfig {
  mc_key_prefix : string;
  mc_session_ttl_ms : Z;
  mc_regions : RegionMap
}.

Definition MatchmakerConfig_default : MatchmakerConfig := mkMatchmakerConfig "morton" 15000 RegionMap_default.

Record SessionGrant := mkSessionGrant {
  gr_ok : bool;
  gr_reconnect : bool;
  gr_player_id : string;
  gr_shard_id : string;
  gr_udp_endpoint : string;
  gr_region : Z;
  gr_session_token : Z;
  gr_reason : string
}.

Definition refused (player_id reason : string) : SessionGrant := mkSessionGrant false false player_id EmptyString EmptyString 0 0 reason.

Definition session_grant_json (grant : SessionGrant) : string :=
  let q := String quote EmptyString in
  if negb (gr_ok grant) then
    "{" +:+ q +:+ "ok" +:+ q +:+ ":false," +:+ q +:+ "reason" +:+ q +:+ ":" +:+ q +:+ json_escape (gr_reason grant) +:+ q +:+ "}"
  else
    "{" +:+ q +:+ "ok" +:+ q +:+ ":true," +:+ q +:+ "reconnect" +:+ q +:+ ":" +:+ (if gr_reconnect grant then "true" else "false") +:+
    "," +:+ q +:+ "player" +:+ q +:+ ":" +:+ q +:+ json_escape (gr_player_id grant) +:+ q +:+
    "," +:+ q +:+ "shard" +:+ q +:+ ":" +:+ q +:+ json_escape (gr_shard_id grant) +:+ q +:+
    "," +:+ q +:+ "endpoint" +:+ q +:+ ":" +:+ q +:+ json_escape (gr_udp_endpoint grant) +:+ q +:+
    "," +:+ q +:+ "region" +:+ q +:+ ":" +:+ to_string (gr_region grant) +:+
    "," +:+ q +:+ "token" +:+ q +:+ ":" +:+ q +:+ to_string (gr_session_token grant) +:+ q +:+ "}".

Record Matchmaker (R G : Type) := mkMatchmaker {
  mm_config : MatchmakerConfig;
  mm_registry : ClusterRegistry R;
  mm_rng : G;
  mm_grants : Z;
  mm_reconnects : Z;
  mm_rejections : Z
}.
Arguments mkMatchmaker {R G}.
Arguments mm_config {R G}.
Arguments mm_registry {R G}.
Arguments mm_rng {R G}.
Arguments mm_grants {R G}.
Arguments mm_reconnects {R G}.
Arguments mm_rejections {R G}.

(** ** Choosing a shard *)
Definition load_margin : f64 := f64_div (f64_of_Z 1) (f64_of_Z 10000).
Definition load_margin_below : f64 := f64_div (f64_of_Z (-1)) (f64_of_Z 10000).

Definition preferred (shard best : ShardInfo) : bool :=
  let delta := f64_sub (load_factor shard) (load_factor best) in
  f64_ltb delta load_margin_below || (f64_leb delta load_margin && (si_id shard <? si_id best)%string).

Definition pick_shard (live : list ShardInfo) : option ShardInfo :=
  foldl (fun best shard =>
    if negb (accepting shard) then best else
    match best with
    | None => Some shard
    | Some b => if preferred shard b then Some shard else best
    end) None live.

Definition live_shard (live : list ShardInfo) (id : string) : option ShardInfo :=
  snd <$> list_find (fun shard => si_id shard = id) live.

(** The first region of a shard in the assignment every shard computes. *)
Definition first_region (owners : list string) (id : string) : Z :=
  match list_find (fun owner => owner = id) owners with Some (region, _) => Z.of_nat region | None => 0 end.

Definition home_region (regions : RegionMap) (live : list ShardInfo) (id : string) : Z :=
  let ids := sort_ids (omap (fun shard => if si_draining shard then None else Some (si_id shard)) live) in
  first_region (assign_regions ids (Z.to_nat (region_count regions))) id.

Section Operations.
Context `{FloatText} `{Redis R} `{Rng G}.
Abbreviation MM := (Matchmaker R G).

Definition set_mm_registry (m : MM) (g : ClusterRegistry R) : MM :=
  mkMatchmaker (mm_config m) g (mm_rng m) (mm_grants m) (mm_reconnects m) (mm_rejections m).
Definition set_mm_rng (m : MM) (rng : G) : MM :=
  mkMatchmaker (mm_config m) (mm_registry m) rng (mm_grants m) (mm_reconnects m) (mm_rejections m).
Definition count_grant (m : MM) : MM :=
  mkMatchmaker (mm_config m) (mm_registry m) (mm_rng m) (u64 (mm_grants m + 1)) (mm_reconnects m) (mm_rejections m).
Definition count_reconnect (m : MM) : MM :=
  mkMatchmaker (mm_config m) (mm_registry m) (mm_rng m) (mm_grants m) (u64 (mm_reconnects m + 1)) (mm_rejections m).
Definition count_rejection (m : MM) : MM :=
  mkMatchmaker (mm_config m) (mm_registry m) (mm_rng m) (mm_grants m) (mm_reconnects m) (u64 (mm_rejections m + 1)).

(** [connected]: whether the registry reached the server; [http_started]: whether the
    listener could be started ([Listener.open_listener]). *)
Definition start_matchmaker (config : MatchmakerConfig) (server : R) (connected http_started : bool) (rng : G) : option MM :=
  if negb connected then None else
  if negb http_started then None
  else Some (mkMatchmaker config (registry_connect server (mc_key_prefix config)) rng 0 0 0).

Definition shards (m : MM) : MM * list ShardInfo :=
  let '(g, live, _) := live_shards (mm_registry m) in (set_mm_registry m g, live).

(** What [assign] reads before it decides. *)
Definition assign_read (m : MM) (player_id : string) : MM * list ShardInfo * option PresenceRecord :=
  let '(m, live) := shards m in
  match live with
  | [] => (m, [], None)
  | _ => let '(g, existing) := get_presence (mm_registry m) player_id in (set_mm_registry m g, live, existing)
  end.

Definition fresh_token (m : MM) : Z * MM :=
  let '(token, rng) := rng_next (mm_rng m) in (if token =? 0 then 1 else token, set_mm_rng m rng).

(** Placing a player the directory does not hold. *)
Definition assign_new (m : MM) (live : list ShardInfo) (player_id : string) (wall : Z) : MM * SessionGrant :=
  match pick_shard live with
  | None => (count_rejection m, refused player_id "all shards full or draining")
  | Some chosen =>
      let '(token, m) := fresh_token m in
      let region := home_region (mc_regions (mm_config m)) live (si_id chosen) in
      let record := mkPresenceRecord player_id (si_id chosen) region token 0 in
      let '(g, claimed, current_owner) := claim_presence (mm_registry m) record (mc_session_ttl_ms (mm_config m)) wall in
      let m := set_mm_registry m g in
      if negb claimed then
        match live_shard live (default EmptyString current_owner) with
        | None => (count_rejection m, refused player_id "presence claim lost")
        | Some winner =>
            let '(g, owned) := get_presence (mm_registry m) player_id in
            let owned := default PresenceRecord_default owned in
            (count_reconnect (set_mm_registry m g),
             mkSessionGrant true true player_id (si_id winner) (si_udp_endpoint winner) (pr_region owned) (pr_session_token owned) EmptyString)
        end
      else (count_grant m, mkSessionGrant true false player_id (si_id chosen) (si_udp_endpoint chosen) region token EmptyString)
  end.

(** What it does with what it has read. *)
Definition assign_settle (m : MM) (live : list ShardInfo) (existing : option PresenceRecord) (player_id : string) (wall : Z) : MM * SessionGrant :=
  match live with
  | [] => (count_rejection m, refused player_id "no live shards")
  | _ =>
      match existing with
      | Some record =>
          if (pr_shard_id record =? "")%string then assign_new m live player_id wall else
          match live_shard live (pr_shard_id record) with
          | Some owner =>
              if negb (si_draining owner) then
                let '(g, _) := set_presence (mm_registry m) record (mc_session_ttl_ms (mm_config m)) wall in
                (count_reconnect (set_mm_registry m g),
                 mkSessionGrant true true player_id (si_id owner) (si_udp_endpoint owner) (pr_region record) (pr_session_token record) EmptyString)
              else assign_new (set_mm_registry m (fst (clear_presence (mm_registry m) player_id))) live player_id wall
          | None => assign_new (set_mm_registry m (fst (clear_presence (mm_registry m) player_id))) live player_id wall
          end
      | None => assign_new m live player_id wall
      end
  end.

Definition assign (m : MM) (player_id : string) (wall : Z) : MM * SessionGrant :=
  let '(m, live, existing) := assign_read m player_id in assign_settle m live existing player_id wall.

Definition release (m : MM) (player_id : string) : MM * bool :=
  let '(g, ok) := clear_presence (mm_registry m) player_id in (set_mm_registry m g, ok).

(** ** The service *)
(** [number] is [%.3f], [expose] the metrics page, [connected] asks the client;
    [wall] is the clock. *)
Context (number : f64 -> string) (expose : MM -> string) (connected : MM -> bool) (wall : Z).

Definition shard_json (shard : ShardInfo) : string :=
  let q := String quote EmptyString in
  "{" +:+ q +:+ "id" +:+ q +:+ ":" +:+ q +:+ json_escape (si_id shard) +:+ q +:+ "," +:+ q +:+ "udp" +:+ q +:+ ":" +:+ q +:+
  json_escape (si_udp_endpoint shard) +:+ q +:+ "," +:+ q +:+ "http" +:+ q +:+ ":" +:+ q +:+ json_escape (si_http_endpoint shard) +:+ q +:+
  "," +:+ q +:+ "players" +:+ q +:+ ":" +:+ to_string (si_player_count shard) +:+ "," +:+ q +:+ "capacity" +:+ q +:+ ":" +:+
  to_string (si_capacity shard) +:+ "," +:+ q +:+ "load" +:+ q +:+ ":" +:+ number (load_factor shard) +:+ "," +:+ q +:+ "tick_p99_ms" +:+ q +:+
  ":" +:+ number (si_tick_p99_ms shard) +:+ "," +:+ q +:+ "draining" +:+ q +:+ ":" +:+ (if si_draining shard then "true" else "false") +:+ "}".

Fixpoint comma_separated (l : list string) : string :=
  match l with [] => EmptyString | [x] => x | x :: l => x +:+ "," +:+ comma_separated l end.

Definition shards_json (live : list ShardInfo) : string :=
  let q := String quote EmptyString in
  "{" +:+ q +:+ "shards" +:+ q +:+ ":[" +:+ comma_separated (shard_json <$> live) +:+ "]," +:+ q +:+ "count" +:+ q +:+ ":" +:+
  to_string (Z.of_nat (length live)) +:+ "}".

Definition session_handler : Handler MM := fun request m =>
  let player := query_value request "player" "" in
  if (player =? "")%string || (64 <? String.length player)%nat then (bad_request "player id must be 1-64 characters", m) else
  let '(m, grant) := assign m player wall in
  let body := session_grant_json grant in
  (if negb (gr_ok grant) then mkHttpResponse 503 "application/json" body [] else json_response body, m).

Definition release_handler : Handler MM := fun request m =>
  let player := query_value request "player" "" in
  if (player =? "")%string then (bad_request "player id required", m) else
  (json_response ("{" +:+ String quote "ok" +:+ String quote ":true}"), fst (release m player)).

Definition matchmaker_routes : HttpServer MM :=
  let q := String quote EmptyString in
  let s := HttpServer_new in
  let s := route "GET" "/health" (fun _ m => (json_response ("{" +:+ q +:+ "ok" +:+ q +:+ ":" +:+ (if connected m then "true" else "false") +:+ "}"), m)) s in
  let s := route "GET" "/shards" (fun _ m => let '(m, live) := shards m in (json_response (shards_json live), m)) s in
  let s := route "GET" "/metrics" (fun _ m => (text_response (expose m), m)) s in
  let s := route "POST" "/session" session_handler s in
  let s := route "GET" "/session" session_handler s in
  route "DELETE" "/session" release_handler s.
End Operations.

(** ** What the directory says of a player *)
Definition field_of (fields : gmap string string) (name : string) : string := default EmptyString (fields !! name).

(** The region and the session token of a record. *)
Definition session_of (fields : gmap string string) : Z * Z := (u32 (strtoull (field_of fields "region")), strtoull (field_of fields "session")).

Definition record_at (prefix : string) (k : keyspace_map) (player : string) : gmap string string := hash_at k (presence_key prefix player).

Definition touched (record : PresenceRecord) (now : Z) (fields : gmap string string) : gmap string string :=
  set_fields fields [("shard", pr_shard_id record); ("region", to_string (pr_region record));
    ("session", to_string (pr_session_token record)); ("updated", to_string now)]%string.

Lemma touched_shard record now fields : touched record now fields !! "shard"%string = Some (pr_shard_id record).
Proof. unfold touched. cbv [set_fields foldl fst snd]. rewrite !lookup_insert_ne by done. apply lookup_insert_eq. Qed.

Lemma touched_session record now fields : fits 32 (pr_region record) -> fits 64 (pr_session_token record) ->
  session_of (touched record now fields) = (pr_region record, pr_session_token record).
Proof.
  intros Hr Hs. unfold session_of, field_of, touched. cbv [set_fields foldl fst snd].
  rewrite (lookup_insert_ne _ "updated" "region"), (lookup_insert_ne _ "session" "region"), lookup_insert_eq by done.
  rewrite (lookup_insert_ne _ "updated" "session"), lookup_insert_eq by done. cbn [default id from_option].
  rewrite !strtoull_print by (unfold fits in *; lia). by rewrite wrap_small.
Qed.

Lemma claimed_record prefix record now k q : record_at prefix (claimed prefix record now k) q =
  if decide (q = pr_player_id record) then touched record now (record_at prefix k q) else record_at prefix k q.
Proof.
  unfold record_at, claimed. rewrite hash_at_other by apply presence_not_roster.
  destruct (decide (q = pr_player_id record)) as [->|Hne]; [by rewrite hash_at_insert|].
  rewrite hash_at_other; [done|]. by intros E%presence_key_inj.
Qed.

Lemma first_region_range owners id : 0 <= first_region owners id <= Z.of_nat (length owners).
Proof.
  unfold first_region. destruct (list_find _ owners) as [[i x]|] eqn:E; [|lia].
  apply list_find_Some in E as (Hi & _). apply lookup_lt_Some in Hi. lia.
Qed.

Lemma home_region_fits regions live id : fits 32 (home_region regions live id).
Proof.
  unfold home_region, first_region. set (owners := assign_regions _ _).
  assert (Hlen : Z.of_nat (length owners) < 2 ^ 32).
  { unfold owners. rewrite assign_regions_length. unfold region_count. pose proof (wrap_range 32 (rm_regions_per_axis regions * rm_regions_per_axis regions)) as Hw.
    unfold fits in Hw. lia. }
  destruct (list_find _ owners) as [[i x]|] eqn:E; [|split; lia]. apply list_find_Some in E as (Hi & _). apply lookup_lt_Some in Hi. split; lia.
Qed.

Lemma pick_shard_accepting live shard : pick_shard live = Some shard -> shard ∈ live /\ accepting shard = true.
Proof.
  unfold pick_shard. assert (Hgen : forall best, (forall b, best = Some b -> b ∈ live /\ accepting b = true) -> forall rest, (forall x, x ∈ rest -> x ∈ live) ->
    foldl (fun best shard => if negb (accepting shard) then best else match best with None => Some shard | Some b => if preferred shard b then Some shard else best end) best rest = Some shard ->
    shard ∈ live /\ accepting shard = true).
  { intros best Hb rest. revert best Hb. induction rest as [|x rest IH]; intros best Hb Hr; cbn [foldl]; [apply Hb|].
    apply IH; [|by intros y Hy; apply Hr; right]. intros b E.
    destruct (accepting x) eqn:Ex; cbn [negb] in E; [|by apply Hb].
    assert (Hx : x ∈ live) by (apply Hr; left).
    destruct best as [b0|]; [destruct (preferred x b0)|]; simplify_eq; auto. }
  by apply Hgen.
Qed.

Lemma pick_shard_none live : pick_shard live = None <-> Forall (fun shard => accepting shard = false) live.
Proof.
  unfold pick_shard. set (step := fun best shard => _).
  assert (Hsome : forall rest b, foldl step (Some b) rest <> None).
  { induction rest as [|x rest IH]; intros b; [done|]. cbn [foldl]. subst step. cbn beta. destruct (accepting x); cbn [negb]; [destruct (preferred x b)|]; apply IH. }
  induction live as [|x live IH]; [by split; [constructor|]|]. cbn [foldl]. rewrite list.Forall_cons.
  change (step None x) with (if negb (accepting x) then None else Some x). destruct (accepting x); cbn [negb].
  - split; [by intros E%Hsome|by intros [? _]].
  - rewrite IH. split; [by split|by intros []].
Qed.

Lemma live_shard_in live id shard : live_shard live id = Some shard -> shard ∈ live /\ si_id shard = id.
Proof.
  unfold live_shard. destruct (list_find _ live) as [[i x]|] eqn:E; [|done]. cbn. intros [= <-].
  apply list_find_Some in E as (Hi & Hid & _). split; [by eapply list_elem_of_lookup_2|done].
Qed.

(** ** Assigning a player *)
Section Grants.
Context `{FloatText} `{RedisLaws R} `{Rng G} (prefix : string) (player : string) (wall : Z).
Context (Htoken : forall rng : G, fits 64 (fst (rng_next rng))).
(** The records before the request. *)
Context (before : string -> gmap string string).
Abbreviation MM := (Matchmaker R G).

Record idle (m : MM) : Prop := {
  id_prefix : prefix_ (mm_registry m) = prefix;
  id_queued : queued_ (mm_registry m) = [];
  id_ttl : 0 < mc_session_ttl_ms (mm_config m) < 2 ^ 63
}.

Definition unchanged (q : string) (fields : gmap string string) : Prop := fields = before q.
Definition cleared (q : string) (fields : gmap string string) : Prop := fields = before q \/ (q = player /\ fields = ∅).
Definition resumed (q : string) (fields : gmap string string) : Prop :=
  if decide (q = player) then fields !! "shard"%string = before player !! "shard"%string /\ session_of fields = session_of (before player)
  else fields = before q.

(** The path on which a returning player's session is not read: the claim of a
    record for the player is lost to another owner, and the read of that owner's
    record, the last thing asked of the registry, fails.  [assign] ignores the
    failure and grants region 0 and token 0. *)
Definition read_lost (m' : MM) (grant : SessionGrant) : Prop :=
  (gr_region grant, gr_session_token grant) = (0, 0) /\
  exists g record ttl g_claimed owner, pr_player_id record = player /\
    claim_presence g record ttl wall = (g_claimed, false, Some owner) /\ owner = gr_shard_id grant /\
    get_presence g_claimed player = (mm_registry m', None).

(** A grant to one of [live] that matches the records it leaves behind. *)
Definition grant_matches (live : list ShardInfo) (m' : MM) (grant : SessionGrant) : Prop :=
  exists shard, shard ∈ live /\ gr_shard_id grant = si_id shard /\ gr_udp_endpoint grant = si_udp_endpoint shard /\
    record_at prefix (keyspace (redis_ (mm_registry m'))) player !! "shard"%string = Some (gr_shard_id grant) /\
    (gr_reconnect grant = false -> accepting shard = true /\ gr_session_token grant <> 0 /\
       (gr_region grant, gr_session_token grant) = session_of (record_at prefix (keyspace (redis_ (mm_registry m'))) player)) /\
    (gr_reconnect grant = true -> before player !! "shard"%string = Some (gr_shard_id grant) /\
       session_of (record_at prefix (keyspace (redis_ (mm_registry m'))) player) = session_of (before player) /\
       ((gr_region grant, gr_session_token grant) = session_of (before player) \/ read_lost m' grant)).

Definition outcome_ok (live : list ShardInfo) (m m' : MM) (grant : SessionGrant) : Prop :=
  let k' := keyspace (redis_ (mm_registry m')) in
  keys_ok prefix k' /\ gr_player_id grant = player /\ (forall q, q <> player -> record_at prefix k' q = before q) /\
  (if gr_ok grant then grant_matches live m' grant else gr_reason grant <> EmptyString) /\
  (mm_grants m', mm_reconnects m', mm_rejections m') =
    (if gr_ok grant then if gr_reconnect grant then (mm_grants m, u64 (mm_reconnects m + 1), mm_rejections m)
                         else (u64 (mm_grants m + 1), mm_reconnects m, mm_rejections m)
     else (mm_grants m, mm_reconnects m, u64 (mm_rejections m + 1))).

Lemma registry_command_idle (g : ClusterRegistry R) args : queued_ (fst (registry_command g args)) = [] /\ prefix_ (fst (registry_command g args)) = prefix_ g.
Proof.
  unfold registry_command, registry_flush, registry_queue. cbn [redis_ prefix_ queued_]. destruct (flush_commands _ _) as [s [[|r rs]|]]; done.
Qed.

Lemma claim_idle (g : ClusterRegistry R) record ttl now :
  queued_ (fst (fst (claim_presence g record ttl now))) = [] /\ prefix_ (fst (fst (claim_presence g record ttl now))) = prefix_ g.
Proof.
  unfold claim_presence. set (args := ["EVAL"%string; _; _; _; _; _; _; _; _; _; _]). pose proof (registry_command_idle g args) as Hi.
  destruct (registry_command g args) as [g' r]. cbn [fst] in Hi. destruct (is_error r); [done|]. by destruct (is_one r).
Qed.

Lemma assign_new_ok (m : MM) live : idle m -> records prefix cleared (keyspace (redis_ (mm_registry m))) -> Forall (fun shard => si_id shard <> EmptyString) live ->
  let '(m', grant) := assign_new m live player wall in outcome_ok live m m' grant.
Proof.
  intros [Hp Hq Ht] [Hk Hf] Hnamed. unfold assign_new.
  assert (Hothers : forall q, q <> player -> record_at prefix (keyspace (redis_ (mm_registry m))) q = before q)
    by (intros q Hne; by destruct (Hf q) as [|[]]).
  destruct (pick_shard live) as [chosen|] eqn:Epick.
  2:{ split; [done|]. by split_and!. }
  destruct (pick_shard_accepting live chosen Epick) as [Hin Hacc]. unfold fresh_token.
  pose proof (Htoken (mm_rng m)) as Hfit. destruct (rng_next (mm_rng m)) as [raw rng]. cbn [fst] in Hfit.
  set (token := if raw =? 0 then 1 else raw). assert (Ht0 : token <> 0) by (unfold token; destruct (Z.eqb_spec raw 0); lia).
  assert (Htf : fits 64 token) by (unfold token; destruct (raw =? 0); [split; lia|done]). clearbody token.
  cbn [mm_registry mm_config set_mm_rng]. set (region := home_region _ live (si_id chosen)).
  assert (Hrf : fits 32 region) by apply home_region_fits. clearbody region.
  set (record := mkPresenceRecord player (si_id chosen) region token 0).
  pose proof (claim_presence_spec (mm_registry m) record (mc_session_ttl_ms (mm_config m)) wall Hq) as Hc. rewrite Hp in Hc. cbv zeta in Hc.
  specialize (Hc Hk Ht). pose proof (claim_idle (mm_registry m) record (mc_session_ttl_ms (mm_config m)) wall) as Hi. rewrite Hp in Hi.
  destruct (claim_presence _ _ _ _) as [[g ok] other] eqn:Eclaim. cbn [fst] in Hi. destruct Hi as [Hq1 Hp1].
  destruct Hc as (Hk1 & Hok & Hother & Hm & _ & _). set (k := keyspace (redis_ (mm_registry m))) in *.
  assert (Hothers1 : forall q, q <> player -> record_at prefix (keyspace (redis_ g)) q = before q).
  { intros q Hne. destruct Hm as [->|[_ ->]]; [by apply Hothers|]. rewrite claimed_record, decide_False by done. by apply Hothers. }
  destruct ok; cbn [negb].
  - destruct (Hok eq_refl) as (_ & Ek & _).
    assert (Erec : record_at prefix (keyspace (redis_ g)) player = touched record wall (record_at prefix k player)) by (by rewrite Ek, claimed_record, decide_True).
    split; [done|]. split; [done|]. split; [done|]. split; [|done]. exists chosen. cbn [gr_shard_id gr_udp_endpoint gr_reconnect gr_region gr_session_token].
    split; [done|]. split; [done|]. split; [done|].
    change (mm_registry (count_grant (set_mm_registry (set_mm_rng m rng) g))) with g. rewrite Erec. split; [apply touched_shard|].
    split; [|done]. intros _. split; [done|]. split; [done|]. by rewrite touched_session.
  - destruct (live_shard live (default EmptyString other)) as [winner|] eqn:Ew; [|by split_and!].
    cbn [mm_registry set_mm_registry]. pose proof (get_presence_reads prefix g player Hp1 Hq1 Hk1) as Hg. cbv zeta in Hg.
    destruct (get_presence g player) as [g2 owned] eqn:Eread. destruct Hg as (Hm2 & Hq2 & Hp2 & Hread).
    apply live_shard_in in Ew as [Hwin Hwid].
    assert (Hcase : exists o, other = Some o \/ other = None) by (destruct other as [o|]; [exists o; by left|exists EmptyString; by right]).
    destruct Hcase as [o [->| ->]].
    + destruct (Hother o eq_refl) as (_ & Ek & Eo & _). cbn [default id from_option] in Hwid. subst o.
      assert (Erec : record_at prefix (keyspace (redis_ g)) player = before player).
      { rewrite Ek. destruct (Hf player) as [E|[_ E]]; [exact E|]. change (hash_at k (presence_key prefix player) !! "shard"%string = Some (si_id winner)) in Eo. by rewrite E, lookup_empty in Eo. }
      assert (Eown : before player !! "shard"%string = Some (si_id winner)) by (rewrite <- Erec, Ek; exact Eo).
      unfold outcome_ok. cbn [mm_registry set_mm_registry count_reconnect]. rewrite Hm2. split; [done|]. split; [done|]. split; [done|]. split; [|done].
      exists winner. cbn [gr_shard_id gr_udp_endpoint gr_reconnect gr_region gr_session_token]. split; [done|]. split; [done|]. split; [done|].
      change (mm_registry (count_reconnect (set_mm_registry _ g2))) with g2. rewrite Hm2.
      split; [by rewrite Erec|]. split; [done|]. intros _. split; [done|]. split; [by rewrite Erec|].
      destruct owned as [r|].
      2:{ right. split; [done|]. by exists (mm_registry m), record, (mc_session_ttl_ms (mm_config m)), g, (si_id winner). }
      left. destruct (Hread r eq_refl) as (_ & _ & Ereg & Etok).
      change (default PresenceRecord_default (Some r)) with r. rewrite Ereg, Etok. unfold record_at in Erec. by rewrite Erec.
    + by rewrite list.Forall_forall in Hnamed; apply Hnamed in Hwin.
Qed.

Lemma assign_settle_ok (m : MM) live existing : idle m -> records prefix unchanged (keyspace (redis_ (mm_registry m))) -> Forall (fun shard => si_id shard <> EmptyString) live ->
  (forall r, existing = Some r -> pr_player_id r = player /\ pr_shard_id r = field_of (before player) "shard" /\
     (pr_region r, pr_session_token r) = session_of (before player)) ->
  let '(m', grant) := assign_settle m live existing player wall in outcome_ok live m m' grant.
Proof.
  intros Hm Hs Hnamed Hread. pose proof Hm as [Hp Hq Ht].
  assert (Hweak : records prefix cleared (keyspace (redis_ (mm_registry m)))) by (destruct Hs as [Hk Hf]; split; [done|]; intros q; left; apply Hf).
  unfold assign_settle. destruct live as [|shard0 live0] eqn:El.
  { destruct Hs as [Hk Hf]. split; [done|]. split; [done|]. split; [intros q _; apply Hf|]. by split. }
  rewrite <- El in *. clear El. destruct existing as [record|]; [|by apply assign_new_ok].
  destruct (Hread record eq_refl) as (Er & Es & Et). destruct (String.eqb_spec (pr_shard_id record) "") as [|Hne]; [by apply assign_new_ok|].
  assert (Hcleared : let m' := set_mm_registry m (fst (clear_presence (mm_registry m) player)) in
    let '(m'', grant) := assign_new m' live player wall in outcome_ok live m m'' grant).
  { cbv zeta. pose proof (clear_presence_records prefix unchanged cleared (mm_registry m) player) as Hc. cbv zeta in Hc.
    destruct Hc as (Hs' & Hq' & Hp'); [by left|by right|done|done|done|].
    exact (assign_new_ok (set_mm_registry m (fst (clear_presence (mm_registry m) player))) live ltac:(by split) Hs' Hnamed). }
  destruct (live_shard live (pr_shard_id record)) as [owner|] eqn:Eo; [|exact Hcleared].
  destruct (si_draining owner); cbn [negb]; [exact Hcleared|]. clear Hcleared. apply live_shard_in in Eo as [Hin Hid].
  assert (Eshard : before player !! "shard"%string = Some (pr_shard_id record)).
  { rewrite Es in Hne |- *. unfold field_of in *. by destruct (before player !! "shard"%string). }
  injection Et as Ereg Etok.
  pose proof (set_presence_records prefix resumed (mm_registry m) record (mc_session_ttl_ms (mm_config m)) wall Ht Hp Hq) as Hset. cbv zeta in Hset.
  destruct Hset as (Hs' & _ & _).
  - intros fields _. unfold resumed. rewrite Er, decide_True by done. change (set_fields fields _) with (touched record wall fields).
    rewrite touched_shard, touched_session; [split; [done|]| |].
    + unfold session_of. by rewrite Ereg, Etok.
    + rewrite Ereg. apply wrap_range. lia.
    + rewrite Etok. apply strtoull_range.
  - destruct Hs as [Hk Hf]. split; [done|]. intros q. unfold resumed. rewrite (Hf q). by destruct (decide (q = player)) as [->|].
  - destruct (set_presence _ _ _ _) as [g ok]. cbn [fst] in Hs'. destruct Hs' as [Hk' Hf']. split; [done|]. split; [done|].
    pose proof (Hf' player) as Hp'. unfold resumed in Hp'. rewrite decide_True in Hp' by done. destruct Hp' as [Hsh Hse].
    split; [intros q Hq'; specialize (Hf' q); unfold resumed in Hf'; by rewrite decide_False in Hf'|]. split; [|done].
    exists owner. cbn [gr_shard_id gr_udp_endpoint gr_reconnect gr_region gr_session_token mm_registry set_mm_registry count_reconnect].
    split; [done|]. split; [done|]. split; [done|]. split; [by rewrite Hid, <- Eshard|]. split; [done|]. intros _.
    split; [by rewrite Hid|]. split; [done|]. left. unfold session_of. by rewrite Ereg, Etok.
Qed.
End Grants.

(** ** Grants on the wire *)
#[local] Ltac walk_pieces := repeat first
  [ rewrite after_key_hit
  | rewrite after_key_skip by reflexivity
  | rewrite after_key_next by reflexivity ].

Definition grant_pieces (grant : SessionGrant) : list string :=
  if gr_ok grant then
    ["{"; "ok"; ":true,"; "reconnect"; String ":" ((if gr_reconnect grant then "true" else "false") +:+ ",");
     "player"; ":"; gr_player_id grant; ","; "shard"; ":"; gr_shard_id grant; ","; "endpoint"; ":"; gr_udp_endpoint grant; ",";
     "region"; String ":" (to_string (gr_region grant) +:+ ","); "token"; ":"; to_string (gr_session_token grant); "}"]%string
  else ["{"; "ok"; ":false,"; "reason"; ":"; gr_reason grant; "}"]%string.

(** Texts that appear in a grant need no escaping. *)
Record plain_grant (grant : SessionGrant) : Prop := {
  pg_player : json_escape (gr_player_id grant) = gr_player_id grant;
  pg_shard : json_escape (gr_shard_id grant) = gr_shard_id grant;
  pg_endpoint : json_escape (gr_udp_endpoint grant) = gr_udp_endpoint grant;
  pg_reason : json_escape (gr_reason grant) = gr_reason grant
}.

Lemma grant_joined grant : plain_grant grant -> session_grant_json grant = joined (grant_pieces grant).
Proof.
  intros [E1 E2 E3 E4]. unfold session_grant_json, grant_pieces. destruct (gr_ok grant); cbn [negb]; rewrite ?E1, ?E2, ?E3, ?E4.
  - cbn [joined]. destruct (gr_reconnect grant); by rewrite ?str_app_cons, ?str_app_assoc.
  - cbn [joined]. by rewrite ?str_app_cons, ?str_app_assoc.
Qed.

Lemma grant_pieces_free grant : plain_grant grant -> Forall (fun p => free_of quote p = true) (grant_pieces grant).
Proof.
  intros [E1%json_plain_free E2%json_plain_free E3%json_plain_free E4%json_plain_free]. unfold grant_pieces. destruct (gr_ok grant).
  - repeat constructor; try done; [by destruct (gr_reconnect grant)| |by apply to_string_free].
    cbn [free_of]. rewrite free_of_app, to_string_free; done.
  - by repeat constructor.
Qed.

(** ** Properties *)
(** C28. A grant is what the directory says.  Whatever the transport does, every
    request is counted once, leaves the other players' records alone and ends in a
    refusal with a reason or in a grant to a live shard, at the endpoint that
    shard registered, which the directory now names as the player's owner.  A
    fresh grant goes to a shard that accepts players, and its region and nonzero
    token are those on record, so the shard will admit it.  A returning player is
    steered to the shard the directory already held, with the region and token it
    held, except on one path ([read_lost]): when the claim is lost to that owner
    and the read of its record then fails, the answer to the read is ignored and
    the grant, still marked ok, carries region 0 and token 0. *)
Theorem grant_matches_directory `{FloatText} `{RedisLaws R} `{Rng G} (m : Matchmaker R G) (player : string) (wall : Z) :
  let prefix := prefix_ (mm_registry m) in
  let k := keyspace (redis_ (mm_registry m)) in
  let live := snd (shards m) in
  queued_ (mm_registry m) = [] -> keys_ok prefix k -> 0 < mc_session_ttl_ms (mm_config m) < 2 ^ 63 ->
  (forall rng : G, fits 64 (fst (rng_next rng))) -> Forall (fun shard => si_id shard <> EmptyString) live ->
  let '(m', grant) := assign m player wall in
  outcome_ok prefix player wall (record_at prefix k) live m m' grant.
Proof.
  intros prefix k live Hq Hk Ht Htoken Hnamed. unfold assign, assign_read, shards in *.
  pose proof (live_shards_records prefix (unchanged (record_at prefix k)) (mm_registry m) eq_refl Hq ltac:(split; [exact Hk|done])) as Hl. cbv zeta in Hl.
  destruct (live_shards (mm_registry m)) as [[g members] pruned]. cbn [fst snd] in *. destruct Hl as (Hs & Hq1 & Hp1).
  set (m1 := set_mm_registry m g). assert (Hidle : idle prefix m1) by (by split).
  subst live. destruct members as [|shard0 live0].
  - exact (assign_settle_ok prefix player wall Htoken (record_at prefix k) m1 [] None Hidle Hs Hnamed ltac:(done)).
  - cbn [mm_registry m1 set_mm_registry].
    pose proof (get_presence_reads prefix g player Hp1 Hq1 (proj1 Hs)) as Hg. cbv zeta in Hg.
    destruct (get_presence g player) as [g2 existing]. destruct Hg as (Hm2 & Hq2 & Hp2 & Hread).
    refine (assign_settle_ok prefix player wall Htoken (record_at prefix k) (set_mm_registry m1 g2) (shard0 :: live0) existing ltac:(by split) _ Hnamed _).
    + cbn [mm_registry set_mm_registry]. by rewrite Hm2.
    + intros r Er. destruct (Hread r Er) as (-> & -> & Ereg & Etok). rewrite (proj2 Hs player) in Ereg, Etok |- *.
      split; [done|]. split; [done|]. by rewrite Ereg, Etok.
Qed.

(** The client reads the grant it was sent.  Looking up the fields of a grant's
    JSON gives back the outcome, the player, the shard, the endpoint and the
    numbers of the grant, and a refusal has no endpoint and no token in it. *)
Theorem grant_read_back (grant : SessionGrant) : plain_grant grant -> fits 32 (gr_region grant) -> fits 64 (gr_session_token grant) ->
  let get := json_lookup (session_grant_json grant) in
  get "ok"%string = (if gr_ok grant then "true" else "false")%string /\
  (if gr_ok grant then
     get "reconnect"%string = (if gr_reconnect grant then "true" else "false")%string /\ get "player"%string = gr_player_id grant /\
     get "shard"%string = gr_shard_id grant /\ get "endpoint"%string = gr_udp_endpoint grant /\
     strtoull (get "region"%string) = gr_region grant /\ strtoull (get "token"%string) = gr_session_token grant
   else get "reason"%string = gr_reason grant /\ get "endpoint"%string = EmptyString /\ get "token"%string = EmptyString).
Proof.
  intros Hg Hr Ht get. pose proof Hg as [E1%json_plain_free E2%json_plain_free E3%json_plain_free E4%json_plain_free].
  assert (Hget : forall key, free_of quote key = true -> get key = match after_key key (grant_pieces grant) with Some text => value_at text | None => EmptyString end).
  { intros key Hk. unfold get. rewrite grant_joined by done. apply json_lookup_joined; [done|by apply grant_pieces_free]. }
  assert (Hnum : forall n t, 0 <= n < 2 ^ 64 -> strtoull (value_at (to_string n +:+ String "," t)) = n) by (intros n t Hn; rewrite value_number by lia; by apply strtoull_print).
  assert (Hquoted : forall v x more, free_of quote v = true -> value_at (joined (EmptyString :: v :: x :: more)) = v) by (intros v x more Hv; by apply value_quoted).
  unfold grant_pieces in Hget. unfold fits in *. destruct (gr_ok grant).
  - split_and!; rewrite Hget by reflexivity; walk_pieces.
    + reflexivity.
    + by destruct (gr_reconnect grant).
    + by apply Hquoted.
    + by apply Hquoted.
    + by apply Hquoted.
    + rewrite joined_cons, str_app_assoc. apply Hnum. lia.
    + rewrite Hquoted by (by apply to_string_free). by apply strtoull_print.
  - split_and!; rewrite Hget by reflexivity; walk_pieces; [reflexivity|by apply Hquoted|reflexivity|reflexivity].
Qed.

(** ** Witnesses *)
Definition plain_float_text : FloatText := {| print_f64 := fun _ => "0.000000"%string; parse_f64 := fun _ => f64_zero |}.

(** A directory with two live shards, [a] half full. *)
Definition sample_shard (udp players : string) : RedisValue :=
  VHash (set_fields ∅ [("udp", udp); ("http", ""); ("players", players); ("capacity", "10"); ("draining", "0")]%string).
Definition sample_shards : keyspace_map :=
  <[shard_key "morton" "a" := sample_shard "10.0.0.1:7000" "5"]> (<[shard_key "morton" "b" := sample_shard "10.0.0.2:7000" "1"]>
    (<[members_key "morton" := VSet {["a"%string; "b"%string]}]> ∅)).
Definition sample_matchmaker : Matchmaker MiniRedis Z :=
  mkMatchmaker (mkMatchmakerConfig "morton" 15000 (mkRegionMap (f32_of_Z 2048) 2 (f32_of_Z 48)))
    (registry_connect (mkMiniRedis sample_shards []) "morton") 41 0 0 0.
Definition small_rng : Rng Z := {| rng_next := fun n => (u64 n, n + 1) |}.

Lemma keys_ok_other prefix k v m : (forall id, presence_key prefix id <> k) -> (forall id, roster_key prefix id <> k) -> (forall t, ticket_key prefix t <> k) ->
  keys_ok prefix m -> keys_ok prefix (<[k := v]> m).
Proof.
  intros H1 H2 H3 [Hp Hr Ht]. split; intros id.
  - rewrite lookup_insert_ne; [apply Hp|exact (not_eq_sym (H1 id))].
  - rewrite lookup_insert_ne; [apply Hr|exact (not_eq_sym (H2 id))].
  - rewrite lookup_insert_ne; [apply Ht|exact (not_eq_sym (H3 id))].
Qed.

Lemma sample_shards_ok : keys_ok "morton" sample_shards.
Proof.
  assert (Hshard : forall id v m, keys_ok "morton" m -> keys_ok "morton" (<[shard_key "morton" id := v]> m)).
  { intros id v m. apply keys_ok_other; intros x E; unfold presence_key, roster_key, ticket_key, shard_key in E;
      apply str_app_inj in E; discriminate E. }
  apply Hshard, Hshard, keys_ok_other; [apply members_not_presence|apply members_not_roster|apply members_not_ticket|apply keys_ok_empty].
Qed.

Definition sample_assign : Matchmaker MiniRedis Z * SessionGrant := @assign plain_float_text _ _ _ small_rng sample_matchmaker "p1" 5.

(** The least loaded shard is granted; asked again, the matchmaker gives the same
    session back. *)
Lemma grant_matches_directory_witness :
  let again := @assign plain_float_text _ _ _ small_rng (fst sample_assign) "p1" 6 in
  (snd sample_assign = mkSessionGrant true false "p1" "b" "10.0.0.2:7000" 1 41 "" /\
   snd again = mkSessionGrant true true "p1" "b" "10.0.0.2:7000" 1 41 "") /\
  let '(m', grant) := sample_assign in
  outcome_ok "morton" "p1" 5 (record_at "morton" (keyspace (redis_ (mm_registry sample_matchmaker)))) (snd (@shards plain_float_text _ _ _ sample_matchmaker))
    sample_matchmaker m' grant.
Proof.
  split; [vm_compute; by split|].
  apply (@grant_matches_directory plain_float_text _ _ _ _ small_rng sample_matchmaker "p1" 5).
  - reflexivity.
  - exact sample_shards_ok.
  - split; reflexivity.
  - intros rng. apply wrap_range. lia.
  - vm_compute. repeat constructor; discriminate.
Defined.

Lemma grant_read_back_witness :
  let grant := mkSessionGrant true false "p1" "b" "10.0.0.2:7000" 1 41 "" in
  let get := json_lookup (session_grant_json grant) in
  get "ok"%string = (if gr_ok grant then "true" else "false")%string /\
  (if gr_ok grant then
     get "reconnect"%string = (if gr_reconnect grant then "true" else "false")%string /\ get "player"%string = gr_player_id grant /\
     get "shard"%string = gr_shard_id grant /\ get "endpoint"%string = gr_udp_endpoint grant /\
     strtoull (get "region"%string) = gr_region grant /\ strtoull (get "token"%string) = gr_session_token grant
   else get "reason"%string = gr_reason grant /\ get "endpoint"%string = EmptyString /\ get "token"%string = EmptyString).
Proof.
  intros grant. apply (grant_read_back grant).
  - split; reflexivity.
  - split; reflexivity || (vm_compute; discriminate).
  - split; reflexivity || (vm_compute; discriminate).
Defined.

(** Two requests for a player whose shard has died: the second one reads the stale
    record before the first is answered, clears the record the first has just
    written and claims the player for another shard. *)
Definition stale_directory : keyspace_map := <[presence_key "morton" "p1" := VHash (set_fields ∅ [("shard", "dead"); ("region", "0"); ("session", "9")]%string)]> sample_shards.
Definition first_matchmaker : Matchmaker MiniRedis Z := set_mm_registry sample_matchmaker (registry_connect (mkMiniRedis stale_directory []) "morton").

Example stale_clear_race :
  let '(second, live, existing) := @assign_read plain_float_text _ _ _ first_matchmaker "p1" in
  let '(first, grant) := @assign plain_float_text _ _ _ small_rng first_matchmaker "p1" 5 in
  let second := set_mm_rng (set_mm_registry second (mm_registry first)) 77 in
  let live := (fun s => if (si_id s =? "b")%string then mkShardInfo "b" (si_udp_endpoint s) "" 10 10 f64_zero 0 false else s) <$> live in
  let '(_, other) := @assign_settle _ _ _ small_rng second live existing "p1" 6 in
  (gr_ok grant, gr_reconnect grant, gr_shard_id grant) = (true, false, "b"%string) /\
  (gr_ok other, gr_reconnect other, gr_shard_id other) = (true, false, "a"%string).
Proof. vm_compute. by split. Qed.

(** The read that is ignored.  Two matchmakers both read that the player is nowhere;
    the first is granted a session on b, the second, to which b reads as full, loses
    the claim for a and its read of the record fails: it answers ok with region 0 and token 0, which no shard holds. *)
Example unread_session :
  let '(second, live, existing) := @assign_read plain_float_text _ _ _ sample_matchmaker "p1" in
  let '(first, grant) := sample_assign in
  let failing := mkMiniRedis (keyspace (redis_ (mm_registry first))) [[Completed]; []] in
  let second := set_mm_registry second (registry_connect failing "morton") in
  let live := (fun s => if (si_id s =? "b")%string then mkShardInfo "b" (si_udp_endpoint s) "" 10 10 f64_zero 0 false else s) <$> live in
  let '(_, other) := @assign_settle _ _ _ small_rng second live existing "p1" 6 in
  (grant, other) = (mkSessionGrant true false "p1" "b" "10.0.0.2:7000" 1 41 "", mkSessionGrant true true "p1" "b" "10.0.0.2:7000" 0 0 "").
Proof. vm_compute. reflexivity. Qed.
