(* ===== verification/Digest.v ===== *)
(** * Digests: SHA-1 and base64 of the web socket handshake ([src/src/net/websocket.cpp])

    The hash and the text encoding the upgrade reply is made of, on byte lists, and
    their reference definitions: SHA-1 as the standard states it (its padding, its
    round functions and its sixteen-word circular schedule) and a base64 reader. *)

From S2P Require Import Prelude Bitstream Text.
From Stdlib Require Import ZArith Lia ZifyNat Bool Ascii String.
From stdpp Require Import base tactics numbers list option sets strings.
#[local] Open Scope Z_scope.

(** ** SHA-1 *)
Definition rotate_left (value bits : Z) : Z := Z.lor (u32 (Z.shiftl value bits)) (Z.shiftr value (32 - bits)).

(** [while (message.size() % 64 != 56) message.push_back(0)]. *)
Fixpoint pad_zeros (fuel : nat) (message : list Z) : list Z :=
  match fuel with
  | O => message
  | S fuel => if (length message mod 64 =? 56)%nat then message else pad_zeros fuel (message ++ [0])
  end.
(** A block has 64 bytes; [pad_zeros_padded] shows that the loop ends by then. *)
Definition pad_fuel : nat := 64.

Definition big_endian64 (n : Z) : list Z := (fun i => Z.land (Z.shiftr n (i * 8)) 0xff) <$> [7; 6; 5; 4; 3; 2; 1; 0].

Definition sha1_message (data : list Z) : list Z :=
  pad_zeros pad_fuel (data ++ [0x80]) ++ big_endian64 (u64 (Z.of_nat (length data) * 8)).

Definition load_word (message : list Z) (at_ : nat) : Z :=
  Z.lor (Z.lor (Z.lor (u32 (Z.shiftl (message !!! at_) 24)) (u32 (Z.shiftl (message !!! (at_ + 1)%nat) 16)))
    (u32 (Z.shiftl (message !!! (at_ + 2)%nat) 8))) (message !!! (at_ + 3)%nat).

(** The array [w], built from the front. *)
Definition schedule_step (w : list Z) (i : nat) : list Z :=
  w ++ [rotate_left (Z.lxor (Z.lxor (Z.lxor (w !!! (i - 3)%nat) (w !!! (i - 8)%nat)) (w !!! (i - 14)%nat)) (w !!! (i - 16)%nat)) 1].
Definition block_words (message : list Z) (offset : nat) : list Z := (fun i => load_word message (offset + i * 4)%nat) <$> seq 0 16.
Definition schedule (message : list Z) (offset : nat) : list Z := foldl schedule_step (block_words message offset) (seq 16 64).

Record Words := mkWords { wa : Z; wb : Z; wc : Z; wd : Z; we : Z }.

Definition sha1_start : Words := mkWords 0x67452301 0xefcdab89 0x98badcfe 0x10325476 0xc3d2e1f0.

Definition not32 (x : Z) : Z := Z.lxor x (2 ^ 32 - 1).

(** [f] and [k] of round [i]. *)
Definition round_mix (i : nat) (b c d : Z) : Z * Z :=
  if (i <? 20)%nat then (Z.lor (Z.land b c) (Z.land (not32 b) d), 0x5a827999)
  else if (i <? 40)%nat then (Z.lxor (Z.lxor b c) d, 0x6ed9eba1)
  else if (i <? 60)%nat then (Z.lor (Z.lor (Z.land b c) (Z.land b d)) (Z.land c d), 0x8f1bbcdc)
  else (Z.lxor (Z.lxor b c) d, 0xca62c1d6).

Definition sha1_round (w : list Z) (v : Words) (i : nat) : Words :=
  let '(f, k) := round_mix i (wb v) (wc v) (wd v) in
  let temp := u32 (rotate_left (wa v) 5 + f + we v + k + w !!! i) in
  mkWords temp (wa v) (rotate_left (wb v) 30) (wc v) (wd v).

Definition add_words (h v : Words) : Words :=
  mkWords (u32 (wa h + wa v)) (u32 (wb h + wb v)) (u32 (wc h + wc v)) (u32 (wd h + wd v)) (u32 (we h + we v)).

Definition sha1_block (message : list Z) (h : Words) (offset : nat) : Words :=
  add_words h (foldl (sha1_round (schedule message offset)) h (seq 0 80)).

Definition word_bytes (h : Z) : list Z := [u8 (Z.shiftr h 24); u8 (Z.shiftr h 16); u8 (Z.shiftr h 8); u8 h].

Definition sha1_words (data : list Z) : Words :=
  let message := sha1_message data in
  foldl (sha1_block message) sha1_start ((fun i => (i * 64)%nat) <$> seq 0 ((length message + 63) / 64)).

Definition sha1 (data : list Z) : list Z :=
  let h := sha1_words data in
  word_bytes (wa h) ++ word_bytes (wb h) ++ word_bytes (wc h) ++ word_bytes (wd h) ++ word_bytes (we h).

(** ** base64 *)
Definition kAlphabet : string := "ABCDEFGHIJKLMNOPQRSTUVWXYZabcdefghijklmnopqrstuvwxyz0123456789+/".

Definition sextet (v : Z) : ascii := default "="%char (String.get (Z.to_nat (Z.land v 0x3f)) kAlphabet).

(** One round of the loop on the one to three bytes that are left. *)
Fixpoint base64_encode (data : list Z) : string :=
  match data with
  | [] => EmptyString
  | [a] =>
      let chunk := Z.shiftl a 16 in
      String (sextet (Z.shiftr chunk 18)) (String (sextet (Z.shiftr chunk 12)) "==")
  | [a; b] =>
      let chunk := Z.lor (Z.shiftl a 16) (Z.shiftl b 8) in
      String (sextet (Z.shiftr chunk 18)) (String (sextet (Z.shiftr chunk 12)) (String (sextet (Z.shiftr chunk 6)) "="))
  | a :: b :: c :: rest =>
      let chunk := Z.lor (Z.lor (Z.shiftl a 16) (Z.shiftl b 8)) c in
      String (sextet (Z.shiftr chunk 18)) (String (sextet (Z.shiftr chunk 12))
        (String (sextet (Z.shiftr chunk 6)) (String (sextet chunk) (base64_encode rest))))
  end.

(** ** The handshake's key *)
Definition kMagicGuid : string := "258EAFA5-E914-47DA-95CA-C5AB0DC85B11".

Definition websocket_accept_key (client_key : string) : string := base64_encode (sha1 (string_bytes (client_key +:+ kMagicGuid))).

(** The example of RFC 6455, section 1.3. *)
Example accept_key_rfc6455 : websocket_accept_key "dGhlIHNhbXBsZSBub25jZQ==" = "s3pPLMBiTxaQ9kYGzzhZRbK+xOo="%string.
Proof. vm_compute. reflexivity. Qed.

(** ** The standard's definitions *)
(** FIPS 180-4: the circular shift, the functions of the rounds and their constants. *)
Definition ROTL (n x : Z) : Z := (x * 2 ^ n) mod 2 ^ 32 + x / 2 ^ (32 - n).
Definition Ch (x y z : Z) : Z := Z.lxor (Z.land x y) (Z.land (2 ^ 32 - 1 - x) z).
Definition Parity (x y z : Z) : Z := Z.lxor x (Z.lxor y z).
Definition Maj (x y z : Z) : Z := Z.lxor (Z.lxor (Z.land x y) (Z.land x z)) (Z.land y z).

Definition fips_f (t : nat) : Z -> Z -> Z -> Z := match (t / 20)%nat with O => Ch | 2%nat => Maj | _ => Parity end.
Definition fips_k (t : nat) : Z := match (t / 20)%nat with O => 0x5a827999 | 1%nat => 0x6ed9eba1 | 2%nat => 0x8f1bbcdc | _ => 0xca62c1d6 end.

(** The message, a one bit, [k] zero bits for the least [k] that fills a block
    but for the length, and the length in bits. *)
Definition fips_padded (data : list Z) : list Z :=
  let l := 8 * Z.of_nat (length data) in
  let k := (448 - (l + 1)) mod 512 in
  data ++ [128] ++ replicate (Z.to_nat ((k - 7) / 8)) 0 ++ ((fun i => l / 256 ^ i mod 256) <$> [7; 6; 5; 4; 3; 2; 1; 0]).

Fixpoint words_of (bytes : list Z) : list Z :=
  match bytes with a :: b :: c :: d :: rest => (((a * 256 + b) * 256 + c) * 256 + d) :: words_of rest | _ => [] end.

(** The schedule in a window of sixteen words. *)
Fixpoint fips_expand (n : nat) (window : list Z) : list Z :=
  match n, window with
  | S n, x :: rest => x :: fips_expand n (rest ++ [ROTL 1 (Z.lxor (Z.lxor (Z.lxor (window !!! 13%nat) (window !!! 8%nat)) (window !!! 2%nat)) (window !!! 0%nat))])
  | _, _ => []
  end.

Definition fips_round (v : Words) (tw : nat * Z) : Words :=
  let T := (ROTL 5 (wa v) + fips_f (fst tw) (wb v) (wc v) (wd v) + we v + fips_k (fst tw) + snd tw) mod 2 ^ 32 in
  mkWords T (wa v) (ROTL 30 (wb v)) (wc v) (wd v).

Definition fips_block (block : list Z) (h : Words) : Words :=
  let v := foldl fips_round h (zip (seq 0 80) (fips_expand 80 (words_of block))) in
  mkWords ((wa h + wa v) mod 2 ^ 32) ((wb h + wb v) mod 2 ^ 32) ((wc h + wc v) mod 2 ^ 32) ((wd h + wd v) mod 2 ^ 32) ((we h + we v) mod 2 ^ 32).

Fixpoint fips_blocks (blocks : nat) (message : list Z) (h : Words) : Words :=
  match blocks with O => h | S blocks => fips_blocks blocks (drop 64 message) (fips_block (take 64 message) h) end.

Definition fips_sha1 (data : list Z) : list Z :=
  let message := fips_padded data in
  let h := fips_blocks (length message / 64) message (mkWords 0x67452301 0xefcdab89 0x98badcfe 0x10325476 0xc3d2e1f0) in
  [wa h; wb h; wc h; wd h; we h] ≫= fun x => [x / 2 ^ 24; x / 2 ^ 16 mod 256; x / 2 ^ 8 mod 256; x mod 256].

Fixpoint base64_value (c : ascii) (s : string) : option Z :=
  match s with
  | EmptyString => None
  | String x s => if Ascii.eqb x c then Some 0 else Z.succ <$> base64_value c s
  end.

Fixpoint base64_decode (s : string) : option (list Z) :=
  match s with
  | EmptyString => Some []
  | String w (String x (String y (String z rest))) =>
      w ← base64_value w kAlphabet; x ← base64_value x kAlphabet;
      match base64_value y kAlphabet, base64_value z kAlphabet with
      | Some y, Some z =>
          let v := ((w * 64 + x) * 64 + y) * 64 + z in
          rest ← base64_decode rest; Some (v / 65536 :: v / 256 mod 256 :: v mod 256 :: rest)
      | Some y, None => let v := (w * 64 + x) * 64 + y in Some [v / 1024; v / 4 mod 256]
      | None, _ => Some [(w * 64 + x) / 16]
      end
  | _ => None
  end.

(** ** Proofs: the word operations *)
Lemma rotate_left_ROTL n x : 0 < n < 32 -> fits 32 x -> rotate_left x n = ROTL n x.
Proof.
  intros Hn Hx. unfold rotate_left, ROTL. rewrite Z.shiftr_div_pow2 by lia.
  assert (E : u32 (Z.shiftl x n) = Z.shiftl (x mod 2 ^ (32 - n)) n).
  { unfold wrap. rewrite !Z.shiftl_mul_pow2 by lia. replace (2 ^ 32) with (2 ^ (32 - n) * 2 ^ n) by (rewrite <- Z.pow_add_r by lia; f_equal; lia).
    rewrite Z.mul_mod_distr_r by lia. done. }
  assert (Hq : 0 <= x / 2 ^ (32 - n) < 2 ^ n).
  { unfold fits in Hx. split; [apply Z.div_pos; lia|]. apply Z.div_lt_upper_bound; [lia|]. rewrite <- Z.pow_add_r by lia. replace (32 - n + n) with 32 by lia. lia. }
  rewrite E, Z.lor_comm, lor_shiftl_add by lia. rewrite Z.shiftl_mul_pow2 in E by lia. unfold wrap in E.
  rewrite E, Z.shiftl_mul_pow2 by lia. ring.
Qed.

Lemma ROTL_fits n x : 0 < n < 32 -> fits 32 x -> fits 32 (ROTL n x).
Proof.
  intros Hn Hx. rewrite <- rotate_left_ROTL by done. unfold rotate_left. apply fits_lor; [lia|apply wrap_range; lia|].
  rewrite Z.shiftr_div_pow2 by lia. unfold fits in *. split; [apply Z.div_pos; lia|]. apply Z.div_lt_upper_bound; [lia|]. nia.
Qed.

Ltac lia_mod := Zify.zify; Z.to_euclidean_division_equations; lia.
Ltac bitwise := apply Z.bits_inj'; intros i Hi; rewrite ?Z.lxor_spec, ?Z.lor_spec, ?Z.land_spec, ?Z.lxor_spec, ?Z.land_spec.

Lemma not32_sub x : fits 32 x -> not32 x = 2 ^ 32 - 1 - x.
Proof.
  intros Hx. unfold not32. change (2 ^ 32 - 1) with (Z.ones 32).
  enough (E : x + Z.lxor x (Z.ones 32) = Z.ones 32) by lia. rewrite Z.add_nocarry_lxor.
  - by rewrite <- Z.lxor_assoc, Z.lxor_nilpotent, Z.lxor_0_l.
  - bitwise. unfold fits in Hx. rewrite Z.bits_0, Z.testbit_ones_nonneg by lia. destruct (Z.ltb_spec i 32); [by destruct (Z.testbit x i)|].
    rewrite <- (Z.mod_small x (2 ^ 32)) by lia. by rewrite Z.mod_pow2_bits_high by lia.
Qed.

Lemma mix_Ch b c d : fits 32 b -> Z.lor (Z.land b c) (Z.land (not32 b) d) = Ch b c d.
Proof.
  intros Hb. unfold Ch. rewrite <- not32_sub by done. unfold not32. bitwise. change (2 ^ 32 - 1) with (Z.ones 32).
  rewrite Z.testbit_ones_nonneg by lia. destruct (Z.ltb_spec i 32); [by destruct (Z.testbit b i), (Z.testbit c i), (Z.testbit d i)|].
  unfold fits in Hb. rewrite <- (Z.mod_small b (2 ^ 32)) by lia. rewrite Z.mod_pow2_bits_high by lia. by destruct (Z.testbit d i).
Qed.

Lemma mix_Maj b c d : Z.lor (Z.lor (Z.land b c) (Z.land b d)) (Z.land c d) = Maj b c d.
Proof. unfold Maj. bitwise. by destruct (Z.testbit b i), (Z.testbit c i), (Z.testbit d i). Qed.

Lemma round_mix_fips t b c d : (t < 80)%nat -> fits 32 b -> round_mix t b c d = (fips_f t b c d, fips_k t).
Proof.
  intros Ht Hb. unfold round_mix, fips_f, fips_k.
  destruct (Nat.ltb_spec t 20); [rewrite Nat.div_small by done; by rewrite mix_Ch|].
  assert (Hq : forall q, (q * 20 <= t < q * 20 + 20)%nat -> (t / 20)%nat = q) by (intros q Hq; symmetry; apply Nat.div_unique with (t - q * 20)%nat; lia).
  destruct (Nat.ltb_spec t 40); [rewrite (Hq 1%nat) by lia; unfold Parity; by rewrite Z.lxor_assoc|].
  destruct (Nat.ltb_spec t 60); [rewrite (Hq 2%nat) by lia; by rewrite mix_Maj|].
  rewrite (Hq 3%nat) by lia. unfold Parity. by rewrite Z.lxor_assoc.
Qed.

(** *** Padding *)
Lemma pad_zeros_steps fuel message : (forall k, (k < fuel)%nat -> ((length message + k) mod 64)%nat <> 56%nat) ->
  forall more, (((length message + fuel) mod 64)%nat = 56%nat) -> pad_zeros (fuel + more) message = message ++ replicate fuel 0.
Proof.
  revert message. induction fuel as [|fuel IH]; intros message Hk more Hend.
  - cbn [Nat.add replicate]. rewrite Nat.add_0_r in Hend. destruct more; cbn [pad_zeros]; rewrite ?Hend, app_nil_r; done.
  - cbn [Nat.add pad_zeros]. destruct (Nat.eqb_spec (length message mod 64) 56) as [E|_]; [exfalso; apply (Hk 0%nat); [lia|by rewrite Nat.add_0_r]|].
    rewrite IH.
    + by rewrite <- app_assoc.
    + intros k Hk'. rewrite length_app. cbn [length]. replace (length message + 1 + k)%nat with (length message + S k)%nat by lia. apply Hk. lia.
    + rewrite length_app. cbn [length]. by replace (length message + 1 + fuel)%nat with (length message + S fuel)%nat by lia.
Qed.

(** The zero bytes that fill a block. *)
Definition zero_bytes (n : nat) : nat := ((119 - n mod 64) mod 64)%nat.

Lemma pad_zeros_padded data : pad_zeros pad_fuel (data ++ [0x80]) = data ++ [0x80] ++ replicate (zero_bytes (length data)) 0.
Proof.
  unfold zero_bytes, pad_fuel. pose proof (Nat.mod_upper_bound (length data) 64 ltac:(lia)). set (z := ((119 - length data mod 64) mod 64)%nat).
  assert (Hz : (z < 64)%nat) by (apply Nat.mod_upper_bound; lia). replace 64%nat with (z + (64 - z))%nat by lia.
  rewrite pad_zeros_steps; [by rewrite <- app_assoc|..]; rewrite length_app; cbn [length]; subst z.
  - intros k Hk. lia_mod.
  - lia_mod.
Qed.

Lemma sha1_message_fips data : Z.of_nat (length data) * 8 < 2 ^ 64 -> sha1_message data = fips_padded data.
Proof.
  intros Hl. unfold sha1_message, fips_padded. rewrite pad_zeros_padded, <- !app_assoc.
  do 2 f_equal. f_equal.
  - f_equal. unfold zero_bytes. lia_mod.
  - unfold big_endian64, wrap. rewrite (Z.mod_small _ (2 ^ 64)) by lia. replace (8 * Z.of_nat (length data)) with (Z.of_nat (length data) * 8) by lia.
    apply list_fmap_ext. intros k i Hi. assert (0 <= i) by (apply list_elem_of_lookup_2 in Hi; set_unfold in Hi; lia).
    rewrite Z.shiftr_div_pow2 by lia. change 0xff with (Z.ones 8). rewrite Z.land_ones by lia.
    change 256 with (2 ^ 8). rewrite <- Z.pow_mul_r by lia. by rewrite (Z.mul_comm i).
Qed.

(** *** The schedule *)
Lemma fips_expand_cons n x rest : fips_expand (S n) (x :: rest) =
  x :: fips_expand n (rest ++ [ROTL 1 (Z.lxor (Z.lxor (Z.lxor ((x :: rest) !!! 13%nat) ((x :: rest) !!! 8%nat)) ((x :: rest) !!! 2%nat)) ((x :: rest) !!! 0%nat))]).
Proof. done. Qed.

Lemma fips_expand_window n window : (n <= length window)%nat -> fips_expand n window = take n window.
Proof.
  revert window. induction n as [|n IH]; intros window Hl; [done|]. destruct window as [|x rest]; [cbn in Hl; lia|].
  cbn [length] in Hl. cbn [fips_expand take]. rewrite IH by (rewrite length_app; lia). f_equal. by rewrite take_app_le by lia.
Qed.

Lemma lookup_total_fits w (l : list Z) i : 0 < w -> Forall (fits w) l -> fits w (l !!! i).
Proof.
  intros Hw Hl. rewrite list_lookup_total_alt. destruct (l !! i) as [x|] eqn:E; cbn; [by eapply Forall_lookup_1|].
  unfold fits. change (@inhabitant Z _) with 1. split; [lia|]. by apply Z.pow_gt_1; lia.
Qed.

Lemma schedule_expand n : forall w, (16 <= length w)%nat -> Forall (fits 32) w ->
  let s := foldl schedule_step w (seq (length w) n) in
  s = take (length w - 16) w ++ fips_expand (16 + n) (drop (length w - 16) w) /\ Forall (fits 32) s /\ length s = (length w + n)%nat.
Proof.
  induction n as [|n IH]; intros w Hl Hw; cbv zeta.
  - cbn [seq foldl]. rewrite fips_expand_window by (rewrite length_drop; lia). rewrite (take_ge (drop _ _)) by (rewrite length_drop; lia).
    by rewrite take_drop, Nat.add_0_r.
  - cbn [seq foldl]. unfold schedule_step at 2 4 6.
    set (mix := Z.lxor (Z.lxor (Z.lxor _ _) _) _).
    assert (Hmix : fits 32 mix) by (subst mix; repeat apply fits_lxor; try lia; apply lookup_total_fits; done || lia).
    specialize (IH (w ++ [rotate_left mix 1])). cbv zeta in IH. rewrite length_app, Nat.add_1_r in IH.
    destruct IH as (E & Hf & Hlen); [lia| |].
    { apply Forall_app. split; [done|]. apply list.Forall_singleton. rewrite rotate_left_ROTL by (done || lia). apply ROTL_fits; [lia|done]. }
    split; [|split; [done|lia]]. rewrite E. clear E Hf Hlen.
    destruct (drop (length w - 16) w) as [|x rest] eqn:Ed; [apply (f_equal length) in Ed; rewrite length_drop in Ed; cbn in Ed; lia|].
    pose proof (drop_S w x (length w - 16)) as Hx.
    assert (Hlook : w !! (length w - 16)%nat = Some x) by (rewrite <- (Nat.add_0_r (length w - 16)), <- lookup_drop, Ed; done).
    specialize (Hx Hlook). rewrite Ed in Hx. injection Hx as Hrest.
    replace (S (length w) - 16)%nat with (S (length w - 16)) by lia.
    rewrite take_app_le, drop_app_le by lia. rewrite (take_S_r w _ x) by done. rewrite <- Hrest, <- app_assoc.
    rewrite Nat.add_succ_r, fips_expand_cons. change ([x] ++ ?l) with (x :: l).
    enough (E : mix = Z.lxor (Z.lxor (Z.lxor ((x :: rest) !!! 13%nat) ((x :: rest) !!! 8%nat)) ((x :: rest) !!! 2%nat)) ((x :: rest) !!! 0%nat))
      by (rewrite <- E; by rewrite rotate_left_ROTL by (done || lia)).
    subst mix.
    assert (Hat : forall k, (k < 16)%nat -> w !!! (length w - (16 - k))%nat = (x :: rest) !!! k).
    { intros k Hk. rewrite !list_lookup_total_alt, <- Ed, lookup_drop. do 2 f_equal. lia. }
    rewrite <- !Hat by lia. by replace (length w - (16 - 13))%nat with (length w - 3)%nat by lia.
Qed.

(** *** Words of a block *)
Lemma word_value a b c d : fits 8 a -> fits 8 b -> fits 8 c -> fits 8 d ->
  Z.lor (Z.lor (Z.lor (u32 (Z.shiftl a 24)) (u32 (Z.shiftl b 16))) (u32 (Z.shiftl c 8))) d = ((a * 256 + b) * 256 + c) * 256 + d /\
  fits 32 (((a * 256 + b) * 256 + c) * 256 + d).
Proof.
  intros Ha Hb Hc Hd. unfold fits in *. split; [|lia]. unfold wrap.
  rewrite !(Z.mod_small (Z.shiftl _ _)) by (rewrite Z.shiftl_mul_pow2 by lia; lia).
  rewrite (Z.lor_comm (Z.shiftl a 24)), (lor_shiftl_add _ a 24) by (rewrite ?Z.shiftl_mul_pow2 by lia; lia).
  replace (Z.shiftl b 16 + 2 ^ 24 * a) with (Z.shiftl (b + 256 * a) 16) by (rewrite !Z.shiftl_mul_pow2 by lia; lia).
  rewrite (Z.lor_comm (Z.shiftl _ 16)), (lor_shiftl_add (Z.shiftl c 8)) by (rewrite ?Z.shiftl_mul_pow2 by lia; lia).
  replace (Z.shiftl c 8 + 2 ^ 16 * (b + 256 * a)) with (Z.shiftl (c + 256 * (b + 256 * a)) 8) by (rewrite !Z.shiftl_mul_pow2 by lia; lia).
  rewrite Z.lor_comm, lor_shiftl_add by lia. lia.
Qed.

Lemma words_of_load n : forall bytes, length bytes = (4 * n)%nat -> Forall (fits 8) bytes ->
  (fun i => load_word bytes (i * 4)) <$> seq 0 n = words_of bytes /\ Forall (fits 32) (words_of bytes) /\ length (words_of bytes) = n.
Proof.
  induction n as [|n IH]; intros bytes Hl Hb; [by destruct bytes|].
  destruct bytes as [|a [|b [|c [|d rest]]]]; cbn [length] in Hl; try lia.
  rewrite !list.Forall_cons in Hb. destruct Hb as (Ha & Hb & Hc & Hd & Hrest).
  destruct (IH rest ltac:(lia) Hrest) as (E & Hf & Hlen). destruct (word_value a b c d Ha Hb Hc Hd) as [Ev Hv].
  cbn [words_of]. split; [|split; [by constructor|by cbn [length]; rewrite Hlen]].
  cbn [seq fmap list_fmap]. f_equal; [exact Ev|]. rewrite <- E, <- fmap_S_seq, <- list_fmap_compose. done.
Qed.

Lemma block_words_of message offset : (offset + 64 <= length message)%nat -> Forall (fits 8) message ->
  let block := take 64 (drop offset message) in
  block_words message offset = words_of block /\ Forall (fits 32) (words_of block) /\ length (words_of block) = 16%nat.
Proof.
  intros Hl Hm block. destruct (words_of_load 16 block) as (E & Hf & Hlen).
  { subst block. rewrite length_take, length_drop. lia. }
  { subst block. by apply Forall_take, Forall_drop. }
  split; [|done]. rewrite <- E. unfold block_words. apply list_fmap_ext. intros k i [-> Hi]%lookup_seq. unfold load_word. subst block.
  assert (Hat : forall j, (j < 64)%nat -> take 64 (drop offset message) !!! j = message !!! (offset + j)%nat).
  { intros j Hj. by rewrite !list_lookup_total_alt, lookup_take_lt, lookup_drop by lia. }
  rewrite !Hat by lia. by rewrite !Nat.add_assoc.
Qed.

(** *** Rounds *)
Record words_ok (v : Words) : Prop := {
  wo_a : fits 32 (wa v); wo_b : fits 32 (wb v); wo_c : fits 32 (wc v); wo_d : fits 32 (wd v); wo_e : fits 32 (we v)
}.

Lemma sha1_round_fips w v t : (t < 80)%nat -> words_ok v -> sha1_round w v t = fips_round v (t, w !!! t) /\ words_ok (sha1_round w v t).
Proof.
  intros Ht [Ha Hb Hc Hd He]. unfold sha1_round, fips_round. cbn [fst snd]. rewrite round_mix_fips by done.
  rewrite !rotate_left_ROTL by (done || lia). split; [done|].
  split; cbn [wa wb wc wd we]; try done; [apply wrap_range; lia|apply ROTL_fits; [lia|done]].
Qed.

Lemma rounds_fips w n : forall t v, (t + n <= 80)%nat -> length w = 80%nat -> words_ok v ->
  foldl (sha1_round w) v (seq t n) = foldl fips_round v (zip (seq t n) (take n (drop t w))) /\ words_ok (foldl (sha1_round w) v (seq t n)).
Proof.
  induction n as [|n IH]; intros t v Ht Hw Hv; [done|]. cbn [seq foldl].
  destruct (lookup_lt_is_Some_2 w t ltac:(lia)) as [x Hx]. rewrite (drop_S w x t) by done. cbn [take zip zip_with foldl].
  destruct (sha1_round_fips w v t ltac:(lia) Hv) as [E Hv']. rewrite <- (list_lookup_total_correct w t x Hx), <- E.
  apply IH; [lia|done|done].
Qed.

Lemma schedule_fips message offset : (offset + 64 <= length message)%nat -> Forall (fits 8) message ->
  schedule message offset = fips_expand 80 (words_of (take 64 (drop offset message))) /\ length (schedule message offset) = 80%nat.
Proof.
  intros Hl Hm. destruct (block_words_of message offset Hl Hm) as (E & Hf & Hlen). unfold schedule. rewrite E.
  destruct (schedule_expand 64 (words_of (take 64 (drop offset message)))) as (Es & _ & Hls); [by rewrite Hlen|done|].
  rewrite Hlen in Es, Hls. split; [|exact Hls]. rewrite Nat.sub_diag, take_0, drop_0, app_nil_l in Es. replace (16 + 64)%nat with 80%nat in Es by done. exact Es.
Qed.

Lemma sha1_block_fips message h offset : (offset + 64 <= length message)%nat -> Forall (fits 8) message -> words_ok h ->
  sha1_block message h offset = fips_block (take 64 (drop offset message)) h /\ words_ok (sha1_block message h offset).
Proof.
  intros Hl Hm Hh. destruct (schedule_fips message offset Hl Hm) as [E Hlen]. unfold sha1_block, fips_block. rewrite <- E.
  destruct (rounds_fips (schedule message offset) 80 0 h (le_n 80) Hlen Hh) as [Er _].
  rewrite drop_0, take_ge in Er by (by rewrite Hlen). rewrite <- Er. split; [done|]. split; apply wrap_range; lia.
Qed.

Lemma blocks_fips message h0 : Forall (fits 8) message -> words_ok h0 -> forall n k, (64 * (k + n) <= length message)%nat ->
  forall h, words_ok h -> foldl (sha1_block message) h ((fun i => (i * 64)%nat) <$> seq k n) = fips_blocks n (drop (k * 64) message) h.
Proof.
  intros Hm _. induction n as [|n IH]; intros k Hl h Hh; [done|]. cbn [seq fmap list_fmap foldl fips_blocks].
  destruct (sha1_block_fips message h (k * 64) ltac:(lia) Hm Hh) as [E Hok]. rewrite IH by (done || lia). rewrite E. f_equal.
  rewrite drop_drop. f_equal. lia.
Qed.

(** *** The whole digest *)
Lemma fips_padded_blocks data : (length (fips_padded data) mod 64)%nat = 0%nat.
Proof.
  unfold fips_padded. rewrite !length_app, length_replicate, length_fmap. cbn [length].
  pose proof (Z.mod_pos_bound (448 - (8 * Z.of_nat (length data) + 1)) 512). lia_mod.
Qed.

Lemma fips_padded_bytes data : Forall (fits 8) data -> Forall (fits 8) (fips_padded data).
Proof.
  intros Hd. unfold fips_padded. rewrite !Forall_app. split; [done|]. split; [by apply list.Forall_singleton|]. split.
  - apply Forall_replicate. by split.
  - apply Forall_fmap, Forall_forall. intros i _. unfold compose, fits. apply Z.mod_pos_bound. lia.
Qed.

Lemma foldl_words_ok message offsets h : words_ok h -> words_ok (foldl (sha1_block message) h offsets).
Proof.
  revert h. induction offsets as [|o offsets IH]; intros h Hh; [done|]. cbn [foldl]. apply IH. split; apply wrap_range; lia.
Qed.

Lemma word_bytes_fips x : fits 32 x -> word_bytes x = [x / 2 ^ 24; x / 2 ^ 16 mod 256; x / 2 ^ 8 mod 256; x mod 256].
Proof.
  intros Hx. unfold word_bytes, wrap. unfold fits in Hx. rewrite !Z.shiftr_div_pow2 by lia.
  rewrite (Z.mod_small (x / 2 ^ 24)) by lia_mod. done.
Qed.

Lemma length_sha1 data : length (sha1 data) = 20%nat.
Proof. done. Qed.

Lemma sha1_bytes data : Forall (fits 8) (sha1 data).
Proof. unfold sha1, word_bytes. cbn [app]. repeat (apply Forall_cons_2; [apply wrap_range; lia|]). apply Forall_nil_2. Qed.

(** C39. The digest is the SHA-1 of the standard: for any message shorter than 2^61
    bytes, the padding loop, the eighty-word schedule, the round functions and the
    byte order of the result agree with FIPS 180-4. *)
Theorem sha1_standard (data : list Z) : Forall (fits 8) data -> Z.of_nat (length data) * 8 < 2 ^ 64 -> sha1 data = fips_sha1 data.
Proof.
  intros Hd Hl. unfold sha1, fips_sha1, sha1_words. rewrite sha1_message_fips by done.
  pose proof (fips_padded_blocks data) as Hb. pose proof (fips_padded_bytes data Hd) as Hm. set (message := fips_padded data) in *.
  assert (En : ((length message + 63) / 64)%nat = (length message / 64)%nat) by lia_mod.
  assert (Hstart : words_ok sha1_start) by (split; vm_compute; by split).
  pose proof (blocks_fips message sha1_start Hm Hstart (length message / 64) 0 ltac:(lia_mod) sha1_start Hstart) as Eh.
  rewrite Nat.mul_0_l, drop_0 in Eh. rewrite En. change (mkWords 1732584193 4023233417 2562383102 271733878 3285377520) with sha1_start. rewrite <- Eh.
  pose proof (foldl_words_ok message ((fun i => (i * 64)%nat) <$> seq 0 (length message / 64)) sha1_start Hstart) as [Ha Hb' Hc Hd' He].
  cbn [mbind list_bind]. rewrite !word_bytes_fips by done. by rewrite app_nil_r.
Qed.

Lemma sha1_standard_witness : sha1 (string_bytes "abc") = fips_sha1 (string_bytes "abc") /\
  sha1 (string_bytes "abc") = [0xa9; 0x99; 0x3e; 0x36; 0x47; 0x06; 0x81; 0x6a; 0xba; 0x3e; 0x25; 0x71; 0x78; 0x50; 0xc2; 0x6c; 0x9c; 0xd0; 0xd8; 0x9d].
Proof.
  split; [|vm_compute; reflexivity]. apply sha1_standard; [|vm_compute; reflexivity].
  apply Forall_forall. intros x Hx. unfold string_bytes in Hx. apply list_elem_of_fmap in Hx as (c & -> & _).
  apply byte_of_ascii_fits.
Defined.

(** *** base64 *)
Lemma sextet_value v : 0 <= v -> base64_value (sextet v) kAlphabet = Some (v mod 64).
Proof.
  intros Hv. unfold sextet. change 0x3f with (Z.ones 6). rewrite Z.land_ones by lia. change (2 ^ 6) with 64.
  pose proof (Z.mod_pos_bound v 64 ltac:(lia)) as Hr. set (r := v mod 64) in *.
  assert (Hall : forallb (fun n => bool_decide (base64_value (default "="%char (String.get n kAlphabet)) kAlphabet = Some (Z.of_nat n))) (seq 0 64) = true)
    by (vm_compute; reflexivity).
  rewrite forallb_forall in Hall. specialize (Hall (Z.to_nat r)). rewrite Z2Nat.id in Hall by lia.
  eapply bool_decide_eq_true_1, Hall, (proj2 (in_seq 64 0 (Z.to_nat r))). lia.
Qed.

Lemma pad_value : base64_value "=" kAlphabet = None.
Proof. reflexivity. Qed.

Lemma b64_chunk_value a b c : fits 8 a -> fits 8 b -> fits 8 c -> Z.lor (Z.lor (Z.shiftl a 16) (Z.shiftl b 8)) c = a * 65536 + b * 256 + c.
Proof.
  unfold fits. intros Ha Hb Hc. rewrite (Z.lor_comm (Z.shiftl a 16)), (lor_shiftl_add (Z.shiftl b 8)) by (rewrite ?Z.shiftl_mul_pow2 by lia; lia).
  replace (Z.shiftl b 8 + 2 ^ 16 * a) with (Z.shiftl (b + 256 * a) 8) by (rewrite !Z.shiftl_mul_pow2 by lia; lia).
  rewrite Z.lor_comm, lor_shiftl_add by lia. lia.
Qed.

Lemma b64_chunk_value_two a b : fits 8 a -> fits 8 b -> Z.lor (Z.shiftl a 16) (Z.shiftl b 8) = a * 65536 + b * 256.
Proof. intros Ha Hb. pose proof (b64_chunk_value a b 0 Ha Hb ltac:(split; lia)) as E. rewrite Z.lor_0_r in E. lia. Qed.

Lemma decode_quad w x y z rest : 0 <= w -> 0 <= x -> 0 <= y -> 0 <= z ->
  base64_decode (String (sextet w) (String (sextet x) (String (sextet y) (String (sextet z) rest)))) =
  (let v := ((w mod 64 * 64 + x mod 64) * 64 + y mod 64) * 64 + z mod 64 in
   rest ← base64_decode rest; Some (v / 65536 :: v / 256 mod 256 :: v mod 256 :: rest)).
Proof. intros Hw Hx Hy Hz. cbn [base64_decode]. by rewrite !sextet_value. Qed.

Lemma decode_triple w x y : 0 <= w -> 0 <= x -> 0 <= y ->
  base64_decode (String (sextet w) (String (sextet x) (String (sextet y) "="))) =
  (let v := (w mod 64 * 64 + x mod 64) * 64 + y mod 64 in Some [v / 1024; v / 4 mod 256]).
Proof. intros Hw Hx Hy. cbn [base64_decode]. by rewrite !sextet_value, pad_value. Qed.

Lemma decode_pair w x : 0 <= w -> 0 <= x ->
  base64_decode (String (sextet w) (String (sextet x) "==")) = Some [(w mod 64 * 64 + x mod 64) / 16].
Proof. intros Hw Hx. cbn [base64_decode]. by rewrite !sextet_value, pad_value. Qed.

(** The text of any bytes reads back as those bytes, and has four characters
    for every three bytes begun. *)
Theorem base64_roundtrip (data : list Z) : Forall (fits 8) data ->
  base64_decode (base64_encode data) = Some data /\ Z.of_nat (String.length (base64_encode data)) = (Z.of_nat (length data) + 2) / 3 * 4.
Proof.
  revert data. fix IH 1. intros [|a [|b [|c rest]]]; rewrite ?list.Forall_cons; [done|intros [Ha _]|intros (Ha & Hb & _)|intros (Ha & Hb & Hc & Hr)].
  - cbn [base64_encode]. rewrite !Z.shiftr_div_pow2, Z.shiftl_mul_pow2 by lia. unfold fits in Ha.
    rewrite decode_pair by lia_mod. split; [do 2 f_equal; lia_mod|done].
  - cbn [base64_encode]. rewrite b64_chunk_value_two, !Z.shiftr_div_pow2 by done || lia. unfold fits in *.
    rewrite decode_triple by lia_mod. split; [repeat f_equal; lia_mod|done].
  - destruct (IH rest Hr) as [E El]. cbn [base64_encode]. rewrite b64_chunk_value, !Z.shiftr_div_pow2 by done || lia. unfold fits in *.
    rewrite decode_quad by lia_mod. rewrite E. split; [cbn; repeat f_equal; lia_mod|]. cbn [String.length length].
    rewrite !Nat2Z.inj_succ, El. lia_mod.
Qed.

Lemma base64_roundtrip_witness : base64_decode (base64_encode [77; 97]) = Some [77; 97] /\
  Z.of_nat (String.length (base64_encode [77; 97])) = (Z.of_nat (length [77; 97]) + 2) / 3 * 4.
Proof. apply base64_roundtrip. apply Forall_cons_2; [by split|]. apply Forall_cons_2; [by split|]. apply Forall_nil_2. Defined.
