(* ===== verification/WebSocket.v ===== *)
(** * The viewer bridge: web socket frames, handshake and queues ([src/src/net/websocket.h], [websocket.cpp])

    A broadcast-only endpoint on a thread of its own.  The simulation publishes
    texts into a short queue; the loop of the thread frames them and appends the
    frames to the buffer of every viewer.  Sockets are inputs: what [accept],
    [recv] and [send] return in an iteration is an argument of the step that makes
    the calls, and the bytes a socket took are kept with its peer. *)

From S2P Require Import Prelude Bitstream Text Http Digest.
From Stdlib Require Import ZArith Lia Bool Ascii String.
From stdpp Require Import base tactics numbers list option sets strings relations.
#[local] Open Scope Z_scope.

Definition kMaxHandshakeBytes : Z := 8192.
Definition kMaxIncomingBytes : Z := 64 * 1024.
Definition kMaxOutgoingBytes : Z := 4 * 1024 * 1024.

Definition size_of (s : string) : Z := Z.of_nat (String.length s).

(** ** Frames *)
Definition length_bytes (count : list Z) (size : Z) : string :=
  string_of_list_ascii ((fun i => char_of (Z.land (Z.shiftr size (i * 8)) 0xff)) <$> count).

Definition encode_text_frame (payload : string) : string :=
  let size := size_of payload in
  let header :=
    if size <? 126 then String (char_of size) EmptyString
    else if size <=? 0xffff then String (char_of 126) (length_bytes [1; 0] size)
    else String (char_of 127) (length_bytes [7; 6; 5; 4; 3; 2; 1; 0] (u64 size)) in
  String (char_of 0x81) (header +:+ payload).

(** ** The handshake *)
Fixpoint drop_trailing_blanks (s : string) : string :=
  match s with
  | EmptyString => EmptyString
  | String c rest =>
      match drop_trailing_blanks rest with
      | EmptyString => if is_blank c then EmptyString else String c EmptyString
      | kept => String c kept
      end
  end.

Definition header_value (request name : string) : string :=
  let lowered := lowercase request in
  let needle := CRLF +:+ name +:+ ":" in
  match str_find needle lowered with
  | None => EmptyString
  | Some start =>
      let start := (start + String.length needle)%nat in
      match str_find_from CRLF request start with
      | None => EmptyString
      | Some finish => drop_trailing_blanks (skip_blanks (substr request start (finish - start)))
      end
  end.

(** The loop that reads the request: [chunks] are what [recv] returns while the
    socket is ready, a chunk of at most 2048 bytes; an empty one, or none left,
    stands for a time-out, an error or the end of the stream. *)
Fixpoint read_handshake (chunks : list string) (request : string) : option string :=
  match str_find (CRLF +:+ CRLF) request with
  | Some _ => Some request
  | None =>
      if kMaxHandshakeBytes <? size_of request then None else
      match chunks with
      | [] => None
      | chunk :: chunks => if (chunk =? "")%string then None else read_handshake chunks (request +:+ chunk)
      end
  end.

Definition switching_response (key : string) : string :=
  "HTTP/1.1 101 Switching Protocols" +:+ CRLF +:+ "Upgrade: websocket" +:+ CRLF +:+ "Connection: Upgrade" +:+ CRLF +:+
  "Sec-WebSocket-Accept: " +:+ websocket_accept_key key +:+ CRLF +:+ CRLF.

(** The answer to the request, when it gets one. *)
Definition handshake_response (request : string) : option string :=
  if negb (String.prefix "GET " request) then None else
  let key := header_value request "sec-websocket-key" in
  if (key =? "")%string then None else Some (switching_response key).

(** [written]: what [send] returns. *)
Definition handshake (chunks : list string) (written : Z) : bool :=
  match read_handshake chunks EmptyString ≫= handshake_response with
  | None => false
  | Some response => written =? size_of response
  end.

(** ** The server *)
Record WebSocketConfig := mkWebSocketConfig { vc_max_clients : Z; vc_max_queued_frames : Z }.
Definition WebSocketConfig_default : WebSocketConfig := mkWebSocketConfig 64 8.

(** [pe_taken]: everything [send] has taken from the buffer. *)
Record Peer := mkPeer {
  pe_fd : Z;
  pe_outgoing : string;
  pe_incoming : string;
  pe_closing : bool;
  pe_taken : string
}.

(** Where the loop stands; the frames collected for this iteration and the number
    of peers that were polled are locals of [serve]. *)
Inductive Stage := Polling | Accepted (polled : nat) | Collected (polled : nat) (frames : list string).

Record WebSocketServer := mkWebSocketServer {
  vs_config : WebSocketConfig;
  vs_running : bool;
  vs_queue : list string;
  vs_peers : list Peer;
  vs_clients : Z;
  vs_frames_sent : Z;
  vs_frames_dropped : Z;
  vs_stage : Stage
}.

Definition WebSocketServer_new : WebSocketServer := mkWebSocketServer WebSocketConfig_default false [] [] 0 0 0 Polling.

(** [bound]: whether the socket could be opened, bound and listened on. *)
Definition viewer_start (config : WebSocketConfig) (bound : bool) (s : WebSocketServer) : bool * WebSocketServer :=
  (bound, mkWebSocketServer config (if bound then true else vs_running s) (vs_queue s) (vs_peers s) (vs_clients s) (vs_frames_sent s)
            (vs_frames_dropped s) (if bound then Polling else vs_stage s)).

(** The thread ends its iteration before the sockets are closed. *)
Definition viewer_stop (s : WebSocketServer) : WebSocketServer :=
  if negb (vs_running s) then s
  else mkWebSocketServer (vs_config s) false [] [] 0 (vs_frames_sent s) (vs_frames_dropped s) Polling.

Fixpoint trim_queue (max : Z) (queue : list string) (dropped : Z) : list string * Z :=
  match queue with
  | [] => ([], dropped)
  | _ :: rest => if max <? Z.of_nat (length queue) then trim_queue max rest (u64 (dropped + 1)) else (queue, dropped)
  end.

Definition publish (text : string) (s : WebSocketServer) : WebSocketServer :=
  if negb (vs_running s) || (vs_clients s =? 0) then s else
  let '(queue, dropped) := trim_queue (vc_max_queued_frames (vs_config s)) (vs_queue s ++ [text]) (vs_frames_dropped s) in
  mkWebSocketServer (vs_config s) (vs_running s) queue (vs_peers s) (vs_clients s) (vs_frames_sent s) dropped (vs_stage s).

(** ** One peer *)
Inductive PeerRead := Bytes (chunk : string) | EndOfStream | WouldBlock | ReceiveFailed.
Inductive PeerWrite := Took (count : Z) | SendBlocked | SendFailed.

Definition set_closing (p : Peer) : Peer := mkPeer (pe_fd p) (pe_outgoing p) (pe_incoming p) true (pe_taken p).
Definition set_incoming (incoming : string) (p : Peer) : Peer := mkPeer (pe_fd p) (pe_outgoing p) incoming (pe_closing p) (pe_taken p).

Definition close_opcode (incoming : string) : bool :=
  match incoming with EmptyString => false | String c _ => Z.land (code_of c) 0x0f =? 0x8 end.

Fixpoint drain (reads : list PeerRead) (p : Peer) : Peer :=
  match reads with
  | [] | WouldBlock :: _ => p
  | EndOfStream :: _ | ReceiveFailed :: _ => set_closing p
  | Bytes chunk :: reads =>
      let p := set_incoming (pe_incoming p +:+ chunk) p in
      if kMaxIncomingBytes <? size_of (pe_incoming p) then set_closing p
      else if close_opcode (pe_incoming p) then set_closing p
      else drain reads (set_incoming EmptyString p)
  end.

(** [outgoing.erase(0, count)]. *)
Definition take_sent (count : Z) (p : Peer) : Peer :=
  let n := Z.to_nat count in
  mkPeer (pe_fd p) (str_drop n (pe_outgoing p)) (pe_incoming p) (pe_closing p) (pe_taken p +:+ str_take n (pe_outgoing p)).

Fixpoint pump (sends : list PeerWrite) (p : Peer) : Peer :=
  if (pe_outgoing p =? "")%string then p else
  match sends with
  | [] | SendBlocked :: _ => p
  | SendFailed :: _ => set_closing p
  | Took count :: sends => if 0 <? count then pump sends (take_sent count p) else set_closing p
  end.

(** A frame goes whole into the buffer, or not at all. *)
Definition push_frame (st : Peer * Z * Z) (frame : string) : Peer * Z * Z :=
  let '(p, sent, dropped) := st in
  if kMaxOutgoingBytes <? size_of (pe_outgoing p) + size_of frame then (p, sent, u64 (dropped + 1))
  else (mkPeer (pe_fd p) (pe_outgoing p +:+ frame) (pe_incoming p) (pe_closing p) (pe_taken p), u64 (sent + 1), dropped).

(** What a peer's socket does in an iteration. *)
Record PeerIo := mkPeerIo { io_ready : bool; io_reads : list PeerRead; io_sends : list PeerWrite }.
Definition PeerIo_idle : PeerIo := mkPeerIo false [] [].

Definition serve_peer (polled : nat) (frames : list string) (ios : list PeerIo) (i : nat) (p : Peer) (sent dropped : Z) : Peer * Z * Z :=
  let io := default PeerIo_idle (ios !! i) in
  let p := if (i <? polled)%nat && io_ready io then drain (io_reads io) p else p in
  if pe_closing p then (p, sent, dropped) else
  let '(p, sent, dropped) := foldl push_frame (p, sent, dropped) frames in
  (pump (io_sends io) p, sent, dropped).

Fixpoint serve_peers (polled : nat) (frames : list string) (ios : list PeerIo) (i : nat) (peers : list Peer) (sent dropped : Z) : list Peer * Z * Z :=
  match peers with
  | [] => ([], sent, dropped)
  | p :: peers =>
      let '(p, sent, dropped) := serve_peer polled frames ios i p sent dropped in
      let '(peers, sent, dropped) := serve_peers polled frames ios (S i) peers sent dropped in
      (p :: peers, sent, dropped)
  end.

(** ** The loop *)
(** A connection [accept] returned, and how its handshake went. *)
Record Incoming := mkIncoming { in_fd : Z; in_chunks : list string; in_written : Z }.

Definition accept_peer (connection : option Incoming) (s : WebSocketServer) : WebSocketServer :=
  match connection with
  | None => s
  | Some c =>
      if (vc_max_clients (vs_config s) <=? Z.of_nat (length (vs_peers s))) || negb (handshake (in_chunks c) (in_written c)) then s else
      let peers := vs_peers s ++ [mkPeer (in_fd c) EmptyString EmptyString false EmptyString] in
      mkWebSocketServer (vs_config s) (vs_running s) (vs_queue s) peers (u32 (Z.of_nat (length peers))) (vs_frames_sent s)
        (vs_frames_dropped s) (vs_stage s)
  end.

Definition set_stage (stage : Stage) (s : WebSocketServer) : WebSocketServer :=
  mkWebSocketServer (vs_config s) (vs_running s) (vs_queue s) (vs_peers s) (vs_clients s) (vs_frames_sent s) (vs_frames_dropped s) stage.

(** [connection]: whom [accept] returned, if the listening socket was ready. *)
Definition serve_accept (connection : option Incoming) (s : WebSocketServer) : WebSocketServer :=
  accept_peer connection (set_stage (Accepted (length (vs_peers s))) s).

(** The section that holds the queue's lock. *)
Definition serve_collect (polled : nat) (s : WebSocketServer) : WebSocketServer :=
  mkWebSocketServer (vs_config s) (vs_running s) [] (vs_peers s) (vs_clients s) (vs_frames_sent s) (vs_frames_dropped s)
    (Collected polled (encode_text_frame <$> vs_queue s)).

Definition serve_deliver (polled : nat) (frames : list string) (ios : list PeerIo) (s : WebSocketServer) : WebSocketServer :=
  let '(peers, sent, dropped) := serve_peers polled frames ios 0 (vs_peers s) (vs_frames_sent s) (vs_frames_dropped s) in
  let peers := filter (fun p => pe_closing p = false) peers in
  mkWebSocketServer (vs_config s) (vs_running s) (vs_queue s) peers (u32 (Z.of_nat (length peers))) sent dropped Polling.

(** One iteration of [serve] without a [publish] in between. *)
Definition serve_once (connection : option Incoming) (ios : list PeerIo) (s : WebSocketServer) : WebSocketServer :=
  let polled := length (vs_peers s) in
  let s := serve_collect polled (serve_accept connection s) in
  match vs_stage s with Collected polled frames => serve_deliver polled frames ios s | _ => s end.

(** The two threads: the loop's sections in order, and calls of the owner at any
    point; the texts accepted for publication are recorded. *)
Inductive ws_step : WebSocketServer * list string -> WebSocketServer * list string -> Prop :=
  | ws_publish text s h : vs_running s = true -> vs_clients s <> 0 -> ws_step (s, h) (publish text s, h ++ [text])
  | ws_ignored text s h : vs_running s = false \/ vs_clients s = 0 -> ws_step (s, h) (publish text s, h)
  | ws_accept connection s h : vs_running s = true -> vs_stage s = Polling -> ws_step (s, h) (serve_accept connection s, h)
  | ws_collect polled s h : vs_stage s = Accepted polled -> ws_step (s, h) (serve_collect polled s, h)
  | ws_deliver polled frames ios s h : vs_stage s = Collected polled frames -> ws_step (s, h) (serve_deliver polled frames ios s, h)
  | ws_stop s h : vs_stage s = Polling -> ws_step (s, h) (viewer_stop s, h).

(** ** The reader of frames, after RFC 6455, section 5.2 *)
Fixpoint be_value (acc : Z) (s : string) : Z := match s with EmptyString => acc | String c s => be_value (acc * 256 + code_of c) s end.

(** One unfragmented, unmasked text frame with the shortest form of its length,
    and the bytes behind it; [None] while the frame is incomplete or when it is
    something else. *)
Definition decode_text_frame (s : string) : option (string * string) :=
  match s with
  | String op (String len rest) =>
      if negb (code_of op =? 0x81) then None else
      let '(size, least, rest) :=
        if code_of len =? 127 then (be_value 0 (str_take 8 rest), 65536, str_drop 8 rest)
        else if code_of len =? 126 then (be_value 0 (str_take 2 rest), 126, str_drop 2 rest)
        else (code_of len, 0, rest) in
      if (2 ^ 63 <=? size) || (size <? least) || (size_of rest <? size) then None
      else Some (str_take (Z.to_nat size) rest, str_drop (Z.to_nat size) rest)
  | _ => None
  end.

(** All complete frames of a stream. *)
Fixpoint decode_frames (fuel : nat) (s : string) : list string :=
  match fuel with
  | O => []
  | S fuel => match decode_text_frame s with Some (text, rest) => text :: decode_frames fuel rest | None => [] end
  end.

Definition frame_ok (text : string) : Prop := size_of text < 2 ^ 63.

Lemma code_char n : fits 8 n -> code_of (char_of n) = n.
Proof.
  intros Hn. unfold code_of, char_of. rewrite wrap_small by done. unfold fits in Hn. rewrite nat_ascii_embedding by lia. lia.
Qed.

Lemma char_bits size i : 0 <= i -> 0 <= size -> code_of (char_of (Z.land (Z.shiftr size (i * 8)) 0xff)) = size / 256 ^ i mod 256.
Proof.
  intros Hi Hs. change 0xff with (Z.ones 8). rewrite Z.land_ones, Z.shiftr_div_pow2 by lia. rewrite code_char by (apply Z.mod_pos_bound; lia).
  change 256 with (2 ^ 8). rewrite <- Z.pow_mul_r by lia. by rewrite (Z.mul_comm 8).
Qed.

Lemma be_two size : 0 <= size < 65536 -> be_value 0 (length_bytes [1; 0] size) = size.
Proof.
  intros Hs. unfold length_bytes. cbn [fmap list_fmap string_of_list_ascii be_value]. rewrite !char_bits by lia.
  change (256 ^ 1) with 256. change (256 ^ 0) with 1. lia_mod.
Qed.

Lemma be_eight size : 0 <= size < 2 ^ 63 -> be_value 0 (length_bytes [7; 6; 5; 4; 3; 2; 1; 0] size) = size.
Proof.
  intros Hs. unfold length_bytes. cbn [fmap list_fmap string_of_list_ascii be_value]. rewrite !char_bits by lia.
  assert (Hstep : forall k j, 0 <= k -> j = Z.succ k -> size / 256 ^ j * 256 + size / 256 ^ k mod 256 = size / 256 ^ k).
  { intros k j Hk ->. rewrite Z.pow_succ_r, (Z.mul_comm 256 (256 ^ k)), <- Z.div_div by lia. lia_mod. }
  assert (Htop : 0 * 256 + size / 256 ^ 7 mod 256 = size / 256 ^ 7).
  { rewrite Z.mod_small; [lia|]. split; [apply Z.div_pos; lia|]. apply Z.div_lt_upper_bound; lia. }
  rewrite Htop, (Hstep 6), (Hstep 5), (Hstep 4), (Hstep 3), (Hstep 2), (Hstep 1), (Hstep 0) by lia || done. by rewrite Z.pow_0_r, Z.div_1_r.
Qed.

Lemma take_app_text s t n : Z.to_nat (size_of s) = n -> str_take n (s +:+ t) = s /\ str_drop n (s +:+ t) = t.
Proof. unfold size_of. rewrite Nat2Z.id. intros <-. split; [apply str_take_app|apply str_drop_app]. Qed.

Lemma frame_decodes text rest : frame_ok text -> decode_text_frame (encode_text_frame text +:+ rest) = Some (text, rest).
Proof.
  intros Hok. unfold frame_ok, encode_text_frame in *. assert (H0 : 0 <= size_of text) by (unfold size_of; lia).
  set (n := size_of text) in *.
  assert (Hbody : Some (str_take (Z.to_nat n) (text +:+ rest), str_drop (Z.to_nat n) (text +:+ rest)) = Some (text, rest)).
  { by destruct (take_app_text text rest (Z.to_nat n) eq_refl) as [-> ->]. }
  assert (Hroom : (size_of (text +:+ rest) <? n) = false) by (apply Z.ltb_ge; subst n; unfold size_of; rewrite str_length_app; lia).
  assert (H63 : (2 ^ 63 <=? n) = false) by (apply Z.leb_gt; lia).
  destruct (Z.ltb_spec n 126) as [Hs|Hs]; [|destruct (Z.leb_spec n 0xffff) as [Hm|Hm]].
  - rewrite !str_app_cons. change (EmptyString +:+ text) with text. cbn [decode_text_frame]. rewrite !code_char by (unfold fits; lia). cbn [negb Z.eqb Pos.eqb].
    destruct (Z.eqb_spec n 127); [lia|]. destruct (Z.eqb_spec n 126); [lia|]. destruct (Z.ltb_spec n 0); [lia|].
    by rewrite H63, Hroom.
  - rewrite !str_app_cons, str_app_assoc. cbn [decode_text_frame]. rewrite !code_char by (unfold fits; lia). cbn [negb Z.eqb Pos.eqb].
    change 2%nat with (String.length (length_bytes [1; 0] n)). rewrite str_take_app, str_drop_app, be_two by lia.
    destruct (Z.ltb_spec n 126); [lia|]. by rewrite H63, Hroom.
  - unfold wrap. rewrite (Z.mod_small n) by lia. rewrite !str_app_cons, str_app_assoc. cbn [decode_text_frame].
    rewrite !code_char by (unfold fits; lia). cbn [negb Z.eqb Pos.eqb].
    change 8%nat with (String.length (length_bytes [7; 6; 5; 4; 3; 2; 1; 0] n)). rewrite str_take_app, str_drop_app, be_eight by lia.
    destruct (Z.ltb_spec n 65536); [lia|]. by rewrite H63, Hroom.
Qed.

(** The bytes of a run of frames. *)
Definition frames_text (texts : list string) : string := foldr (fun text s => encode_text_frame text +:+ s) EmptyString texts.

Lemma frames_text_app l1 l2 : frames_text (l1 ++ l2) = frames_text l1 +:+ frames_text l2.
Proof. induction l1 as [|x l1 IH]; [done|]. cbn [app frames_text foldr]. rewrite str_app_assoc. f_equal. exact IH. Qed.

(** *** A frame that is cut *)
Lemma str_length_take n s : String.length (str_take n s) = Nat.min n (String.length s).
Proof. revert s. induction n as [|n IH]; intros [|c s]; cbn; [done..|]. by rewrite IH. Qed.

Lemma str_take_split n s t : str_take n (s +:+ t) = str_take n s +:+ str_take (n - String.length s) t.
Proof. revert n. induction s as [|c s IH]; intros n; [cbn [String.length]; rewrite Nat.sub_0_r; by destruct n|]. destruct n as [|n]; [done|]. rewrite !str_app_cons. cbn. by rewrite IH. Qed.

(** A frame whose length field or payload is incomplete. *)
Lemma short_extended (head text : string) (m : nat) (n least : Z) :
  be_value 0 head = n -> n = size_of text -> 0 < least -> (m < String.length head + String.length text)%nat ->
  let rest := str_take m (head +:+ text) in
  let v := be_value 0 (str_take (String.length head) rest) in
  (2 ^ 63 <=? v) || (v <? least) || (size_of (str_drop (String.length head) rest) <? v) = true.
Proof.
  intros Hv Hn Hleast Hm rest v. subst rest v. rewrite str_take_split.
  destruct (Nat.le_gt_cases m (String.length head)) as [Hle|Hgt].
  - assert (E : size_of (str_drop (String.length head) (str_take m head +:+ str_take (m - String.length head) text)) = 0).
    { unfold size_of. rewrite str_length_drop, str_length_app, !str_length_take. lia. }
    rewrite E. set (v := be_value 0 _). destruct (Z.ltb_spec v least); [by rewrite orb_true_r|].
    destruct (Z.ltb_spec 0 v); [|lia]. by rewrite !orb_true_r.
  - rewrite (str_take_all m head), str_take_app, str_drop_app, Hv by lia.
    destruct (Z.ltb_spec (size_of (str_take (m - String.length head) text)) n) as [_|Hge]; [by rewrite !orb_true_r|].
    exfalso. rewrite Hn in Hge. unfold size_of in Hge. rewrite str_length_take in Hge. lia.
Qed.

Lemma str_take_two m a b s : str_take (S (S m)) (String a (String b s)) = String a (String b (str_take m s)).
Proof. done. Qed.

Lemma decode_cut text n : frame_ok text -> (n < String.length (encode_text_frame text))%nat ->
  decode_text_frame (str_take n (encode_text_frame text)) = None.
Proof.
  intros Hok Hn. destruct n as [|[|m]]; [done..|]. unfold frame_ok in Hok. unfold encode_text_frame in *.
  assert (H0 : 0 <= size_of text) by (unfold size_of; lia).
  destruct (Z.ltb_spec (size_of text) 126) as [Hs|Hs]; [|destruct (Z.leb_spec (size_of text) 0xffff) as [Hm|Hm]].
  - rewrite !str_app_cons in Hn |- *. change (EmptyString +:+ text) with text in *. cbn [String.length] in Hn. rewrite str_take_two. cbn [decode_text_frame].
    rewrite !code_char by (unfold fits; lia). cbn [negb Z.eqb Pos.eqb].
    destruct (Z.eqb_spec (size_of text) 127); [lia|]. destruct (Z.eqb_spec (size_of text) 126); [lia|].
    destruct (Z.ltb_spec (size_of (str_take m text)) (size_of text)) as [_|Hge]; [by rewrite !orb_true_r|].
    exfalso. revert Hge. unfold size_of. rewrite str_length_take. lia.
  - rewrite !str_app_cons in Hn |- *. cbn [String.length] in Hn. rewrite str_length_app in Hn. rewrite str_take_two. cbn [decode_text_frame].
    rewrite !code_char by (unfold fits; lia). cbn [negb Z.eqb Pos.eqb].
    pose proof (short_extended (length_bytes [1; 0] (size_of text)) text m (size_of text) 126 (be_two (size_of text) ltac:(lia)) eq_refl ltac:(lia) ltac:(lia)) as E.
    cbv zeta in E. change (String.length (length_bytes [1; 0] (size_of text))) with 2%nat in E. by rewrite E.
  - unfold wrap in *. rewrite (Z.mod_small (size_of text)) in Hn |- * by lia. rewrite !str_app_cons in Hn |- *.
    cbn [String.length] in Hn. rewrite str_length_app in Hn. rewrite str_take_two. cbn [decode_text_frame].
    rewrite !code_char by (unfold fits; lia). cbn [negb Z.eqb Pos.eqb].
    pose proof (short_extended (length_bytes [7; 6; 5; 4; 3; 2; 1; 0] (size_of text)) text m (size_of text) 65536 (be_eight (size_of text) ltac:(lia)) eq_refl ltac:(lia) ltac:(lia)) as E.
    cbv zeta in E. change (String.length (length_bytes [7; 6; 5; 4; 3; 2; 1; 0] (size_of text))) with 8%nat in E. by rewrite E.
Qed.

(** Cut after any number of bytes, the stream of a run of text frames reads as
    exactly the texts whose frames are complete: no text is lost, merged, torn or
    invented. *)
Lemma frames_cut (texts : list string) (n : nat) : Forall frame_ok texts ->
  exists k, decode_frames (length texts) (str_take n (frames_text texts)) = take k texts /\
    (String.length (frames_text (take k texts)) <= n)%nat /\
    ((k < length texts)%nat -> (n < String.length (frames_text (take (S k) texts)))%nat).
Proof.
  intros Hok. revert n. induction Hok as [|text texts Htext Hok IH]; intros n; [by exists 0%nat; split; [|split; cbn; lia]|].
  cbn [length decode_frames frames_text foldr]. fold (frames_text texts).
  destruct (Nat.lt_ge_cases n (String.length (encode_text_frame text))) as [Hlt|Hge].
  - exists 0%nat. rewrite str_take_split. replace (n - String.length (encode_text_frame text))%nat with 0%nat by lia.
    change (str_take 0 (frames_text texts)) with EmptyString. rewrite str_app_nil, decode_cut by done.
    split; [done|]. split; [cbn; lia|]. intros _. cbn [take frames_text foldr]. by rewrite str_app_nil.
  - destruct (IH (n - String.length (encode_text_frame text))%nat) as (k & E & Hk & Hn). exists (S k).
    rewrite str_take_split, str_take_all, frame_decodes, E by done. split; [done|]. cbn [take frames_text foldr]. fold (frames_text (take k texts)).
    rewrite str_length_app. split; [lia|]. intros Hlt. specialize (Hn ltac:(lia)).
    change (take (S (S k)) (text :: texts)) with (text :: take (S k) texts). 
    change (frames_text (text :: take (S k) texts)) with (encode_text_frame text +:+ frames_text (take (S k) texts)). rewrite str_length_app. fold (frames_text (take (S k) texts)). lia.
Qed.

(** ** What a viewer's socket gets *)
(** Everything a peer was given: the bytes taken and the bytes that wait. *)
Definition peer_stream (p : Peer) : string := pe_taken p +:+ pe_outgoing p.

(** The texts of [base] that made it into a peer, in order. *)
Definition sees (base : list string) (p : Peer) : Prop :=
  (exists texts, sublist texts base /\ peer_stream p = frames_text texts) /\ size_of (pe_outgoing p) <= kMaxOutgoingBytes /\
  (pe_closing p = false -> pe_incoming p = EmptyString).

Lemma sees_mono base base' p : sublist base base' -> sees base p -> sees base' p.
Proof. intros Hs [(texts & Ht & E) H]. split; [|done]. exists texts. split; [by etransitivity|done]. Qed.

Lemma set_closing_sees base p : sees base p -> sees base (set_closing p).
Proof. intros (H1 & H2 & _). by split. Qed.

Lemma drain_sees base reads p : sees base p -> sees base (drain reads p).
Proof.
  revert p. induction reads as [|[chunk| | |] reads IH]; intros p Hp; cbn [drain]; try done; try by apply set_closing_sees.
  destruct Hp as (H1 & H2 & H3). case_match; [by split|]. case_match; [by split|]. apply IH. by split.
Qed.

Lemma take_sent_sees base count p : sees base p -> sees base (take_sent count p).
Proof.
  intros (H1 & H2 & H3). unfold take_sent. split_and!; [|cbn [pe_outgoing]|done].
  - destruct H1 as (texts & Ht & E). exists texts. split; [done|]. unfold peer_stream in *. cbn [pe_taken pe_outgoing].
    by rewrite str_app_assoc, str_take_drop.
  - unfold size_of in *. rewrite str_length_drop. lia.
Qed.

Lemma pump_sees base sends p : sees base p -> sees base (pump sends p).
Proof.
  revert p. induction sends as [|[count| |] sends IH]; intros p Hp; cbn [pump]; case_match; try done; try by apply set_closing_sees.
  case_match; [|by apply set_closing_sees]. by apply IH, take_sent_sees.
Qed.

Lemma push_frames_sees base texts p sent dropped : sees base p ->
  sees (base ++ texts) (fst (fst (foldl push_frame (p, sent, dropped) (encode_text_frame <$> texts)))).
Proof.
  revert base p sent dropped. induction texts as [|text texts IH]; intros base p sent dropped Hp; [by rewrite app_nil_r|].
  replace (base ++ text :: texts) with ((base ++ [text]) ++ texts) by (by rewrite <- app_assoc).
  cbn [fmap list_fmap foldl]. unfold push_frame at 2. case_match eqn:E; apply IH.
  - eapply sees_mono; [|exact Hp]. by apply sublist_inserts_r.
  - destruct Hp as ((l & Hl & Es) & H2 & H3). split_and!; cbn [pe_outgoing pe_closing pe_incoming]; [|unfold size_of in *; rewrite str_length_app; lia|done].
    exists (l ++ [text]). split; [by apply sublist_app|]. unfold peer_stream in *. cbn [pe_taken pe_outgoing].
    rewrite frames_text_app, <- Es, str_app_assoc. cbn [frames_text foldr]. by rewrite str_app_nil.
Qed.

Lemma serve_peer_sees base texts polled ios i p sent dropped : sees base p ->
  sees (base ++ texts) (fst (fst (serve_peer polled (encode_text_frame <$> texts) ios i p sent dropped))).
Proof.
  intros Hp. unfold serve_peer. set (io := default PeerIo_idle (ios !! i)).
  assert (Hd : sees base (if (i <? polled)%nat && io_ready io then drain (io_reads io) p else p)) by (case_match; [by apply drain_sees|done]).
  set (p' := if (i <? polled)%nat && io_ready io then drain (io_reads io) p else p) in *. clearbody p'. destruct (pe_closing p') eqn:Ec.
  - eapply sees_mono; [|exact Hd]. by apply sublist_inserts_r.
  - pose proof (push_frames_sees base texts p' sent dropped Hd) as H. destruct (foldl _ _ _) as [[q s'] d']. by apply pump_sees.
Qed.

Lemma serve_peers_sees base texts polled ios peers : forall i sent dropped, Forall (sees base) peers ->
  Forall (sees (base ++ texts)) (fst (fst (serve_peers polled (encode_text_frame <$> texts) ios i peers sent dropped))) /\
  length (fst (fst (serve_peers polled (encode_text_frame <$> texts) ios i peers sent dropped))) = length peers.
Proof.
  induction peers as [|p peers IH]; intros i sent dropped Hp; [done|]. apply list.Forall_cons in Hp as [Hp Hps]. cbn [serve_peers].
  pose proof (serve_peer_sees base texts polled ios i p sent dropped Hp) as H1. destruct (serve_peer _ _ _ _ _ _ _) as [[q s'] d'].
  destruct (IH (S i) s' d' Hps) as [H2 H3]. destruct (serve_peers _ _ _ _ _ _ _) as [[qs s''] d''].
  cbn [fst] in *. split; [by constructor|]. cbn [length]. by rewrite H3.
Qed.

Lemma trim_queue_spec max queue dropped : 0 <= max ->
  sublist (fst (trim_queue max queue dropped)) queue /\ Z.of_nat (length (fst (trim_queue max queue dropped))) <= max.
Proof.
  intros Hmax. revert dropped. induction queue as [|x queue IH]; intros dropped; [split; [done|cbn; lia]|]. cbn [trim_queue].
  destruct (Z.ltb_spec max (Z.of_nat (length (x :: queue)))) as [Hlt|Hge]; [|by split].
  destruct (IH (u64 (dropped + 1))) as [H1 H2]. split; [by apply sublist_cons|done].
Qed.

Record bridge_ok (config : WebSocketConfig) (s : WebSocketServer) (h : list string) : Prop := {
  bo_config : vs_config s = config;
  bo_queue : Z.of_nat (length (vs_queue s)) <= vc_max_queued_frames config;
  bo_peers : Z.of_nat (length (vs_peers s)) <= vc_max_clients config;
  bo_open : Forall (fun p => pe_closing p = false) (vs_peers s);
  bo_clients : vs_clients s = Z.of_nat (length (vs_peers s));
  bo_texts : exists base texts, (match vs_stage s with Collected _ frames => frames = encode_text_frame <$> texts | _ => texts = [] end) /\
    sublist (base ++ texts ++ vs_queue s) h /\ Forall (sees base) (vs_peers s)
}.

Lemma new_peer_sees base fd : sees base (mkPeer fd EmptyString EmptyString false EmptyString).
Proof. split; [|by split; [vm_compute|]]. exists []. split; [apply sublist_nil_l|done]. Qed.

Section Bridge.
Context (config : WebSocketConfig) (Hclients : fits 32 (vc_max_clients config)) (Hqueue : fits 32 (vc_max_queued_frames config)).

Lemma ws_step_ok s h s' h' : ws_step (s, h) (s', h') -> bridge_ok config s h -> bridge_ok config s' h'.
Proof.
  intros Hst. inversion Hst as [text s0 h0 Hrun Hcl|text s0 h0 Hno|connection s0 h0 Hrun Hstage|polled s0 h0 Hstage|polled frames ios s0 h0 Hstage|s0 h0 Hstage]; subst; clear Hst; intros [Hc Hq Hp Ho Hn (base & texts & Ht & Hs & Hsees)].
  - (* a text enters the queue *)
    unfold publish. rewrite Hrun. destruct (Z.eqb_spec (vs_clients s) 0); [done|]. cbn [negb orb].
    destruct (trim_queue_spec (vc_max_queued_frames (vs_config s)) (vs_queue s ++ [text]) (vs_frames_dropped s)) as [H2 H4]; [rewrite Hc; apply Hqueue|].
    destruct (trim_queue _ _ _) as [queue dropped]. cbn [fst] in *. split; cbn [vs_config vs_queue vs_peers vs_clients vs_stage]; try done; [by rewrite Hc in H4|].
    exists base, texts. split; [done|]. split; [|done]. transitivity (base ++ texts ++ (vs_queue s ++ [text])).
    + by do 2 (apply sublist_app; [done|]).
    + rewrite !app_assoc in *. by apply sublist_app.
  - (* ... or is dropped at once *)
    assert (E : publish text s = s) by (unfold publish; destruct Hno as [-> | ->]; [done|by rewrite orb_true_r]).
    rewrite E. split; try done. by exists base, texts.
  - (* a connection *)
    unfold serve_accept. assert (H : bridge_ok config (set_stage (Accepted (length (vs_peers s))) s) h').
    { split; try done. exists base, texts. rewrite Hstage in Ht. by split. }
    destruct connection as [c|]; [|done]. cbn [accept_peer]. destruct (_ || _) eqn:Eg; [exact H|]. apply orb_false_iff in Eg as [Eg _].
    apply Z.leb_gt in Eg. cbn [set_stage vs_config vs_peers] in Eg. rewrite Hc in Eg. unfold fits in Hclients.
    split; cbn [set_stage vs_config vs_queue vs_peers vs_clients vs_stage]; try done.
    + rewrite length_app. cbn [length]. lia.
    + apply Forall_app. split; [done|]. by apply list.Forall_singleton.
    + rewrite wrap_small; [done|]. unfold fits. rewrite length_app. cbn [length]. lia.
    + exists base, texts. rewrite Hstage in Ht. split; [done|]. split; [done|]. apply Forall_app. split; [done|]. apply list.Forall_singleton, new_peer_sees.
  - (* the queue is collected *)
    split; cbn [serve_collect vs_config vs_queue vs_peers vs_clients vs_stage]; try done; [cbn; apply Hqueue|].
    rewrite Hstage in Ht. subst texts. exists base, (vs_queue s). split; [done|]. by rewrite app_nil_r.
  - (* frames go to the peers *)
    rewrite Hstage in Ht. subst frames. unfold serve_deliver.
    destruct (serve_peers_sees base texts polled ios (vs_peers s) 0 (vs_frames_sent s) (vs_frames_dropped s) Hsees) as [H2 H3].
    destruct (serve_peers _ _ _ _ _ _ _) as [[peers sent] dropped]. cbn [fst] in *.
    pose proof (list_filter_length (fun p => pe_closing p = false) peers) as Hle || pose proof (length_filter (fun p => pe_closing p = false) peers) as Hle.
    unfold fits in Hclients. split; cbn [vs_config vs_queue vs_peers vs_clients vs_stage]; try done; [lia| |apply wrap_small; unfold fits; lia|].
    + apply Forall_forall. intros p Hin%list_elem_of_filter. by destruct Hin.
    + exists (base ++ texts), []. split; [done|]. split; [by rewrite <- !app_assoc|]. apply Forall_forall. intros p [_ Hin]%list_elem_of_filter. revert p Hin. by apply Forall_forall.
  - (* the owner stops it *)
    unfold viewer_stop. destruct (vs_running s); cbn [negb].
    + split; cbn [vs_config vs_queue vs_peers vs_clients vs_stage]; try done; [apply Hqueue|apply Hclients|].
      exists [], []. split; [done|]. split; [apply sublist_nil_l|done].
    + split; try done. by exists base, texts.
Qed.
End Bridge.

(** ** Delivery *)
Lemma frames_text_fmap texts : frames_text texts = foldr (fun frame s => frame +:+ s) EmptyString (encode_text_frame <$> texts).
Proof. induction texts as [|x texts IH]; [done|]. cbn [frames_text foldr fmap list_fmap]. f_equal. exact IH. Qed.

Lemma push_frames_room texts : forall p sent dropped, size_of (pe_outgoing p) + size_of (frames_text texts) <= kMaxOutgoingBytes ->
  fst (fst (foldl push_frame (p, sent, dropped) (encode_text_frame <$> texts))) =
  mkPeer (pe_fd p) (pe_outgoing p +:+ frames_text texts) (pe_incoming p) (pe_closing p) (pe_taken p).
Proof.
  induction texts as [|text texts IH]; intros p sent dropped Hroom.
  - cbn [frames_text foldr fmap list_fmap foldl fst]. rewrite str_app_nil. by destruct p.
  - cbn [fmap list_fmap foldl]. unfold push_frame at 2. change (frames_text (text :: texts)) with (encode_text_frame text +:+ frames_text texts) in *.
    unfold size_of in *. rewrite str_length_app in Hroom. destruct (Z.ltb_spec kMaxOutgoingBytes (Z.of_nat (String.length (pe_outgoing p)) + Z.of_nat (String.length (encode_text_frame text)))); [lia|].
    rewrite IH; cbn [pe_fd pe_outgoing pe_incoming pe_closing pe_taken]; [by rewrite str_app_assoc|]. rewrite str_length_app. lia.
Qed.

Lemma str_drop_all s : str_drop (String.length s) s = EmptyString.
Proof. pose proof (str_drop_app s EmptyString) as E. by rewrite str_app_nil in E. Qed.

Lemma pump_everything count p : count = size_of (pe_outgoing p) ->
  pump [Took count] p = mkPeer (pe_fd p) EmptyString (pe_incoming p) (pe_closing p) (pe_taken p +:+ pe_outgoing p).
Proof.
  intros ->. unfold pump. destruct (String.eqb_spec (pe_outgoing p) EmptyString) as [E|Hne].
  - rewrite E, str_app_nil. destruct p; cbn in *. by rewrite E.
  - assert (Hpos : 0 < size_of (pe_outgoing p)) by (unfold size_of; destruct (pe_outgoing p); [done|cbn [String.length]; lia]).
    destruct (Z.ltb_spec 0 (size_of (pe_outgoing p))); [|lia]. unfold take_sent, size_of. rewrite Nat2Z.id, str_drop_all, str_take_all by done.
    cbn [pe_outgoing String.eqb]. done.
Qed.

Lemma serve_peers_lookup polled frames ios peers : forall i sent dropped j p, peers !! j = Some p ->
  exists sent' dropped', fst (fst (serve_peers polled frames ios i peers sent dropped)) !! j =
    Some (fst (fst (serve_peer polled frames ios (i + j) p sent' dropped'))).
Proof.
  induction peers as [|q peers IH]; intros i sent dropped j p Hj; [done|]. cbn [serve_peers].
  destruct (serve_peer polled frames ios i q sent dropped) as [[q' s'] d'] eqn:Eq.
  destruct j as [|j].
  - injection Hj as ->. exists sent, dropped. rewrite Nat.add_0_r, Eq. by destruct (serve_peers _ _ _ _ _ _ _) as [[? ?] ?].
  - destruct (IH (S i) s' d' j p Hj) as (s2 & d2 & E). exists s2, d2. destruct (serve_peers _ _ _ _ _ _ _) as [[ps ?] ?]. cbn [fst] in *.
    change ((q' :: ps) !! S j) with (ps !! j). rewrite E. by replace (S i + j)%nat with (i + S j)%nat by lia.
Qed.

Lemma accept_peer_keeps connection (s : WebSocketServer) i p : vs_peers s !! i = Some p ->
  vs_peers (accept_peer connection s) !! i = Some p /\ vs_queue (accept_peer connection s) = vs_queue s.
Proof.
  intros Hi. unfold accept_peer. destruct connection as [c|]; [|done]. destruct (_ || _); [done|]. split; [|done]. by apply lookup_app_l_Some.
Qed.

(** C27. Whatever the two threads, the network and the viewers do, the queue and the
    set of viewers stay within their limits, and every viewer has been handed a run
    of whole frames: the texts of its run were all published, in that order, its
    unsent bytes stay bounded, and what its socket took so far decodes to the first
    of these texts. *)
Theorem viewers_see_whole_frames (config : WebSocketConfig) (s : WebSocketServer) (h : list string) :
  fits 32 (vc_max_clients config) -> fits 32 (vc_max_queued_frames config) -> Forall frame_ok h ->
  rtc ws_step (snd (viewer_start config true WebSocketServer_new), []) (s, h) ->
  Z.of_nat (length (vs_queue s)) <= vc_max_queued_frames config /\
  vs_clients s = Z.of_nat (length (vs_peers s)) /\ Z.of_nat (length (vs_peers s)) <= vc_max_clients config /\
  Forall (fun p => exists texts k, sublist texts h /\ pe_taken p +:+ pe_outgoing p = frames_text texts /\
    decode_frames (length texts) (pe_taken p) = take k texts /\ size_of (pe_outgoing p) <= kMaxOutgoingBytes) (vs_peers s).
Proof.
  intros Hc Hq Hh Hst. assert (Hok : bridge_ok config s h).
  { assert (Hgen : forall x y, rtc ws_step x y -> bridge_ok config (fst x) (snd x) -> bridge_ok config (fst y) (snd y)).
    { intros x y Hxy. induction Hxy as [x|[s0 h0] [s1 h1] y Hstep _ IH]; [done|]. intros H0. by apply IH, (ws_step_ok config Hc Hq s0 h0). }
    apply (Hgen _ _ Hst). split; try done; [apply Hq|apply Hc|]. exists [], []. split; [done|]. split; [apply sublist_nil_l|done]. }
  destruct Hok as [_ H1 H2 _ H3 (base & texts & _ & Hs & Hsees)]. split_and!; [done..|].
  apply (Forall_impl _ _ _ Hsees). intros p [(l & Hl & E) [Hout _]].
  assert (Hlh : sublist l h) by (etransitivity; [exact Hl|]; etransitivity; [|exact Hs]; apply sublist_inserts_r; done).
  assert (Hlok : Forall frame_ok l).
  { apply Forall_forall. intros t Ht. revert Hh. rewrite Forall_forall. intros Hh. apply Hh. by eapply elem_of_sublist || (eapply sublist_subseteq; [exact Hlh|exact Ht]). }
  destruct (frames_cut l (String.length (pe_taken p)) Hlok) as (k & Ek & _). exists l, k. unfold peer_stream in E.
  rewrite <- E, str_take_app in Ek. by split_and!.
Qed.

(** C40. A viewer that keeps up gets everything: when its buffer has room and its
    socket takes all of it, one iteration of the loop sends every text waiting in
    the queue, in order, behind what the viewer still had to get, whatever the other
    viewers do. *)
Theorem iteration_delivers (s : WebSocketServer) (connection : option Incoming) (ios : list PeerIo) (i : nat) (p : Peer) :
  vs_peers s !! i = Some p -> pe_closing p = false ->
  size_of (pe_outgoing p) + size_of (frames_text (vs_queue s)) <= kMaxOutgoingBytes ->
  ios !! i = Some (mkPeerIo false [] [Took (size_of (pe_outgoing p +:+ frames_text (vs_queue s)))]) ->
  vs_queue (serve_once connection ios s) = [] /\
  mkPeer (pe_fd p) EmptyString (pe_incoming p) false (pe_taken p +:+ pe_outgoing p +:+ frames_text (vs_queue s)) ∈ vs_peers (serve_once connection ios s).
Proof.
  intros Hi Hopen Hroom Hio. unfold serve_once, serve_accept.
  destruct (accept_peer_keeps connection (set_stage (Accepted (length (vs_peers s))) s) i p Hi) as [Hi' Eq]. cbn [set_stage vs_queue] in Eq.
  set (s1 := accept_peer connection _) in *. clearbody s1. cbn [serve_collect vs_stage]. unfold serve_deliver. cbn [serve_collect vs_peers vs_queue vs_frames_sent vs_frames_dropped].
  rewrite Eq. destruct (serve_peers_lookup (length (vs_peers s)) (encode_text_frame <$> vs_queue s) ios (vs_peers s1) 0 (vs_frames_sent s1) (vs_frames_dropped s1) i p Hi')
    as (sent & dropped & E). destruct (serve_peers _ _ _ _ _ _ _) as [[peers sent'] dropped']. cbn [fst vs_queue vs_peers] in *. split; [done|].
  unfold serve_peer in E. cbn [Nat.add] in E. rewrite Hio in E. cbn [default from_option id io_ready io_reads io_sends] in E. rewrite andb_false_r, Hopen in E.
  pose proof (push_frames_room (vs_queue s) p sent dropped Hroom) as Ep.
  destruct (foldl push_frame _ _) as [[q sent2] dropped2]. cbn [fst] in *. subst q. rewrite pump_everything in E by done.
  cbn [pe_fd pe_outgoing pe_incoming pe_closing pe_taken] in E. rewrite Hopen in E. apply list_elem_of_filter. split; [done|].
  by eapply list_elem_of_lookup_2.
Qed.

(** ** The handshake *)
Lemma lowercase_app s t : lowercase (s +:+ t) = lowercase s +:+ lowercase t.
Proof. induction s as [|c s IH]; [done|]. rewrite !str_app_cons. cbn [lowercase]. by rewrite IH. Qed.

Lemma length_lowercase s : String.length (lowercase s) = String.length s.
Proof. induction s as [|c s IH]; [done|]. cbn [lowercase String.length]. by rewrite IH. Qed.

Definition chunks_text (chunks : list string) : string := foldr String.append EmptyString chunks.

Lemma read_handshake_all total chunks : forall request, request +:+ chunks_text chunks = total -> Forall (fun c => c <> EmptyString) chunks ->
  str_find (CRLF +:+ CRLF) total = Some (String.length total - 4)%nat -> size_of total <= kMaxHandshakeBytes ->
  read_handshake chunks request = Some total.
Proof.
  induction chunks as [|chunk chunks IH]; intros request E Hne Hf Hs.
  - cbn [chunks_text foldr] in E. rewrite str_app_nil in E. subst request. cbn [read_handshake]. by rewrite Hf.
  - apply list.Forall_cons in Hne as [Hc Hne]. cbn [read_handshake]. destruct (str_find (CRLF +:+ CRLF) request) as [j|] eqn:Ej.
    + exfalso. pose proof (str_find_bound _ _ _ Ej) as Hb. apply (str_find_extend _ _ (chunks_text (chunk :: chunks))) in Ej. rewrite E, Hf in Ej.
      injection Ej as Ej. apply (f_equal String.length) in E. rewrite str_length_app in E. cbn [chunks_text foldr] in E. rewrite str_length_app in E.
      destruct chunk as [|x chunk]; [done|]. cbn [String.length] in *. change (String.length (CRLF +:+ CRLF)) with 4%nat in Hb. lia.
    + destruct (Z.ltb_spec kMaxHandshakeBytes (size_of request)) as [Hlt|_].
      { exfalso. apply (f_equal String.length) in E. rewrite str_length_app in E. unfold size_of in *. lia. }
      destruct (String.eqb_spec chunk EmptyString); [done|]. apply IH; try done. by rewrite str_app_assoc.
Qed.

(** An upgrade request: [before] is the rest of the first line and the header lines
    ahead of the key, [after] what follows its line. *)
Definition upgrade_request (before name key after : string) : string :=
  "GET " +:+ before +:+ CRLF +:+ name +:+ ": " +:+ key +:+ CRLF +:+ after.

Record upgrade_ok (before name key after : string) : Prop := {
  uo_name : lowercase name = "sec-websocket-key"%string;
  uo_first : str_find (CRLF +:+ "sec-websocket-key:") (lowercase ("GET " +:+ before)) = None;
  uo_key : key <> EmptyString /\ no_cr key = true /\ skip_blanks key = key /\ drop_trailing_blanks key = key;
  uo_end : str_find (CRLF +:+ CRLF) (upgrade_request before name key after) = Some (String.length (upgrade_request before name key after) - 4)%nat;
  uo_size : size_of (upgrade_request before name key after) <= kMaxHandshakeBytes
}.

Lemma header_value_key before name key after : upgrade_ok before name key after ->
  header_value (upgrade_request before name key after) "sec-websocket-key" = key.
Proof.
  intros [Hname Hfirst (Hne & Hcr & Hlead & Htrail) _ _]. unfold header_value, upgrade_request.
  set (head := "GET " +:+ before) in *. assert (Eh : ("GET " +:+ before +:+ CRLF +:+ name +:+ ": " +:+ key +:+ CRLF +:+ after) = head +:+ (CRLF +:+ name +:+ ":") +:+ (" " +:+ key +:+ CRLF +:+ after)).
  { subst head. by rewrite !str_app_assoc. }
  rewrite Eh. clearbody head. set (rest := " " +:+ key +:+ CRLF +:+ after). change (CRLF +:+ "sec-websocket-key" +:+ ":") with (CRLF +:+ "sec-websocket-key:").
  assert (El : lowercase (head +:+ (CRLF +:+ name +:+ ":") +:+ rest) = lowercase head +:+ String "013" (String "010" "sec-websocket-key:") +:+ lowercase rest).
  { rewrite !lowercase_app, Hname. by rewrite !str_app_assoc. }
  rewrite El. change (CRLF +:+ "sec-websocket-key:") with (String "013" (String "010" "sec-websocket-key:")) in *.
  rewrite (str_find_first "013"), length_lowercase by done.
  assert (Hlen : (String.length head + String.length (String "013" (String "010" "sec-websocket-key:")))%nat = String.length (head +:+ (CRLF +:+ name +:+ ":"))).
  { rewrite !str_length_app. apply (f_equal String.length) in Hname. rewrite length_lowercase in Hname. rewrite Hname. done. }
  rewrite Hlen, <- str_app_assoc. unfold str_find_from, substr. destruct (Nat.ltb_spec (String.length ((head +:+ (CRLF +:+ name +:+ ":")) +:+ rest)) (String.length (head +:+ (CRLF +:+ name +:+ ":")))) as [Hlt|_].
  { rewrite str_length_app in Hlt. lia. }
  rewrite str_drop_app. subst rest. rewrite <- (str_app_assoc " " key), find_crlf by (change (no_cr (" " +:+ key)) with (no_cr key); exact Hcr).
  cbn [fmap option_fmap option_map]. rewrite Nat.add_comm, Nat.add_sub, str_take_app. change (" " +:+ key) with (String " " key).
  change (skip_blanks (String " " key)) with (skip_blanks key). by rewrite Hlead, Htrail.
Qed.

(** A browser is let in: an upgrade request with its key under any spelling of
    the header's name, behind any other headers and however the network cuts it, is
    answered with the protocol switch that carries the accept value of that key. *)
Theorem handshake_accepts (before name key after : string) (chunks : list string) :
  upgrade_ok before name key after -> Forall (fun c => c <> EmptyString) chunks -> chunks_text chunks = upgrade_request before name key after ->
  (read_handshake chunks EmptyString ≫= handshake_response) = Some (switching_response key) /\
  handshake chunks (size_of (switching_response key)) = true.
Proof.
  intros Hok Hne E. pose proof Hok as [_ _ (Hkey & _) Hend Hsize].
  assert (Er : (read_handshake chunks EmptyString ≫= handshake_response) = Some (switching_response key)).
  { rewrite (read_handshake_all (upgrade_request before name key after)) by done. cbn [mbind option_bind]. unfold handshake_response.
    rewrite header_value_key by done. unfold upgrade_request. rewrite Text.prefix_app. cbn [negb].
    destruct (String.eqb_spec key EmptyString); done. }
  split; [exact Er|]. unfold handshake. rewrite Er. apply Z.eqb_refl.
Qed.

(** ** Witnesses *)
Definition sample_key : string := "dGhlIHNhbXBsZSBub25jZQ==".
Definition sample_before : string := "/ HTTP/1.1" +:+ CRLF +:+ "Host: 10.0.0.1:9000" +:+ CRLF +:+ "Upgrade: websocket".
Definition sample_after : string := "Sec-WebSocket-Version: 13" +:+ CRLF +:+ CRLF.
Definition sample_chunks : list string :=
  let text := upgrade_request sample_before "Sec-WebSocket-Key" sample_key sample_after in [str_take 30 text; str_drop 30 text].

Lemma handshake_accepts_witness :
  (read_handshake sample_chunks EmptyString ≫= handshake_response) = Some (switching_response sample_key) /\
  handshake sample_chunks (size_of (switching_response sample_key)) = true.
Proof.
  apply (handshake_accepts sample_before "Sec-WebSocket-Key" sample_key sample_after).
  - split; [reflexivity|vm_compute; reflexivity|split_and!; [discriminate|reflexivity..]|vm_compute; reflexivity|vm_compute; discriminate].
  - apply Forall_cons_2; [discriminate|]. apply list.Forall_singleton. discriminate.
  - vm_compute. reflexivity.
Defined.

Definition sample_viewers : WebSocketServer := snd (viewer_start WebSocketConfig_default true WebSocketServer_new).
Definition sample_incoming : option Incoming := Some (mkIncoming 7 sample_chunks (size_of (switching_response sample_key))).
(** A viewer has joined and a text waits. *)
Definition sample_waiting : WebSocketServer := publish "tick 1" (serve_once sample_incoming [] sample_viewers).

Lemma sample_viewers_run : rtc ws_step (sample_viewers, []) (sample_waiting, ["tick 1"%string]).
Proof.
  eapply rtc_l; [apply (ws_accept sample_incoming); reflexivity|]. eapply rtc_l; [apply (ws_collect 0); vm_compute; reflexivity|].
  eapply rtc_l; [apply (ws_deliver 0 [] []); vm_compute; reflexivity|].
  eapply rtc_l; [|apply rtc_refl]. 
  change (sample_waiting, ["tick 1"%string]) with (publish "tick 1" (serve_once sample_incoming [] sample_viewers), [] ++ ["tick 1"%string]).
  apply ws_publish; [vm_compute; reflexivity|vm_compute; discriminate].
Qed.

Lemma viewers_see_whole_frames_witness :
  Z.of_nat (length (vs_queue sample_waiting)) <= vc_max_queued_frames WebSocketConfig_default /\
  vs_clients sample_waiting = Z.of_nat (length (vs_peers sample_waiting)) /\ Z.of_nat (length (vs_peers sample_waiting)) <= vc_max_clients WebSocketConfig_default /\
  Forall (fun p => exists texts k, sublist texts ["tick 1"%string] /\ pe_taken p +:+ pe_outgoing p = frames_text texts /\
    decode_frames (length texts) (pe_taken p) = take k texts /\ size_of (pe_outgoing p) <= kMaxOutgoingBytes) (vs_peers sample_waiting).
Proof.
  apply viewers_see_whole_frames; [split; [discriminate|reflexivity]|split; [discriminate|reflexivity]| |exact sample_viewers_run].
  apply list.Forall_singleton. reflexivity.
Defined.

Lemma iteration_delivers_witness :
  let p := mkPeer 7 EmptyString EmptyString false EmptyString in
  let s' := serve_once None [mkPeerIo false [] [Took 8]] sample_waiting in
  decode_frames 2 (frames_text ["tick 1"%string]) = ["tick 1"%string] /\ vs_queue s' = [] /\
  mkPeer 7 EmptyString EmptyString false (frames_text ["tick 1"%string]) ∈ vs_peers s'.
Proof.
  intros p s'. split; [vm_compute; reflexivity|].
  apply (iteration_delivers sample_waiting None [mkPeerIo false [] [Took 8]] 0 p); vm_compute; (reflexivity || discriminate).
Defined.

(** A slow viewer keeps what it was given first: it is the new frame that is
    dropped when its buffer is full. *)
Example newest_frame_dropped :
  let frame := encode_text_frame "tick 2" in
  forall outgoing, size_of outgoing = kMaxOutgoingBytes ->
  push_frame (mkPeer 7 outgoing EmptyString false EmptyString, 0, 0) frame = (mkPeer 7 outgoing EmptyString false EmptyString, 0, 1).
Proof. intros frame outgoing E. unfold push_frame. cbn [pe_outgoing]. rewrite E. reflexivity. Qed.
