(* ===== verification/Metrics.v ===== *)
(** * Metrics: histograms and the text exposition ([src/src/metrics/histogram.h], [registry.h], [registry.cpp])

    Counters, gauges and latency histograms with geometric buckets, kept by name in
    one registry and printed in the Prometheus text format.  A handle is the name it
    was looked up under.  [std::log], [std::pow] and the number formats are the
    platform's. *)

From S2P Require Import Prelude F32 Region Text.
From Stdlib Require Import ZArith Lia Bool Ascii String Floats.SpecFloat.
From stdpp Require Import base tactics numbers list option gmap sorting strings.
#[local] Open Scope Z_scope.

(** The mathematical library, the cast of a double the integer type cannot hold, and
    the number formats. *)
Class MathLib := {
  std_log : f64 -> f64;
  std_pow : f64 -> f64 -> f64;
  ub_cast_i64 : f64 -> Z;
  print_fixed : Z -> f64 -> string;
  print_general : Z -> f64 -> string
}.

(** ** Histograms *)
Definition kBucketCount : nat := 240.
Definition kGrowthFactor : f64 := f64_div (f64_of_Z 115) (f64_of_Z 100).
Definition kFirstBound : f64 := f64_div (f64_of_Z 1) (f64_of_Z (10 ^ 6)).
Definition kNoMinimum : f64 := f64_of_Z (10 ^ 300).
Definition f64_0 : f64 := f64_of_Z 0.
Definition f64_eqb (a b : f64) : bool := SFeqb a b.

Record Histogram := mkHistogram {
  hg_buckets : list Z;
  hg_count : Z;
  hg_sum : f64;
  hg_max : f64;
  hg_min : f64
}.

Definition Histogram_new : Histogram := mkHistogram (replicate kBucketCount 0) 0 f64_0 f64_0 kNoMinimum.

Section Histograms.
Context `{Platform} `{MathLib}.

Definition bucket_upper_bound (index : Z) : f64 := f64_mul kFirstBound (std_pow kGrowthFactor (f64_of_Z index)).

Definition bucket_of (value : f64) : nat :=
  if f64_leb value kFirstBound then O else
  let index := f64_div (std_log (f64_div value kFirstBound)) (std_log kGrowthFactor) in
  let clamped := i32 (f32_to_i32 index + 1) in
  if clamped <? 0 then O else if Z.of_nat kBucketCount <=? clamped then (kBucketCount - 1)%nat else Z.to_nat clamped.

Definition record (value : f64) (h : Histogram) : Histogram :=
  let value := if f64_ltb value f64_0 then f64_0 else value in
  mkHistogram (alter (fun n => u64 (n + 1)) (bucket_of value) (hg_buckets h)) (u64 (hg_count h + 1)) (f64_add (hg_sum h) value)
    (if f64_ltb (hg_max h) value then value else hg_max h) (if f64_ltb value (hg_min h) then value else hg_min h).

Definition mean (h : Histogram) : f64 := if hg_count h =? 0 then f64_0 else f64_div (hg_sum h) (f64_of_Z (hg_count h)).
Definition minimum (h : Histogram) : f64 := if f64_eqb (hg_min h) kNoMinimum then f64_0 else hg_min h.

Fixpoint quantile_from (i : Z) (buckets : list Z) (cumulative : Z) (target : f64) : f64 :=
  match buckets with
  | [] => bucket_upper_bound (Z.of_nat kBucketCount - 1)
  | bucket :: buckets =>
      if bucket =? 0 then quantile_from (i + 1) buckets cumulative target else
      if f64_leb target (f64_of_Z (u64 (cumulative + bucket))) then
        let lower := if i =? 0 then f64_0 else bucket_upper_bound (i - 1) in
        let upper := bucket_upper_bound i in
        let within := f64_div (f64_sub target (f64_of_Z cumulative)) (f64_of_Z bucket) in
        f64_add lower (f64_mul (f64_sub upper lower) within)
      else quantile_from (i + 1) buckets (u64 (cumulative + bucket)) target
  end.

Definition quantile (q : f64) (h : Histogram) : f64 :=
  if hg_count h =? 0 then f64_0 else quantile_from 0 (hg_buckets h) 0 (f64_mul q (f64_of_Z (hg_count h))).

Definition p50 : Histogram -> f64 := quantile (f64_div (f64_of_Z 50) (f64_of_Z 100)).
Definition p95 : Histogram -> f64 := quantile (f64_div (f64_of_Z 95) (f64_of_Z 100)).
Definition p99 : Histogram -> f64 := quantile (f64_div (f64_of_Z 99) (f64_of_Z 100)).

(** ** The registry *)
Record MetricsRegistry := mkMetricsRegistry {
  mt_counters : gmap string Z;
  mt_gauges : gmap string Z;
  mt_histograms : gmap string Histogram;
  mt_help : gmap string string;
  mt_labels : gmap string string
}.

Definition MetricsRegistry_new : MetricsRegistry := mkMetricsRegistry ∅ ∅ ∅ ∅ ∅.

Definition with_help (name help : string) (r : MetricsRegistry) : gmap string string :=
  if (help =? "")%string then mt_help r else <[name := help]> (mt_help r).

Definition counter (name help : string) (r : MetricsRegistry) : MetricsRegistry :=
  mkMetricsRegistry (<[name := default 0 (mt_counters r !! name)]> (mt_counters r)) (mt_gauges r) (mt_histograms r) (with_help name help r) (mt_labels r).
Definition gauge (name help : string) (r : MetricsRegistry) : MetricsRegistry :=
  mkMetricsRegistry (mt_counters r) (<[name := default 0 (mt_gauges r !! name)]> (mt_gauges r)) (mt_histograms r) (with_help name help r) (mt_labels r).
Definition histogram (name help : string) (r : MetricsRegistry) : MetricsRegistry :=
  mkMetricsRegistry (mt_counters r) (mt_gauges r) (<[name := default Histogram_new (mt_histograms r !! name)]> (mt_histograms r)) (with_help name help r) (mt_labels r).
Definition set_label (key value : string) (r : MetricsRegistry) : MetricsRegistry :=
  mkMetricsRegistry (mt_counters r) (mt_gauges r) (mt_histograms r) (mt_help r) (<[key := value]> (mt_labels r)).

Definition counter_add (name : string) (amount : Z) (r : MetricsRegistry) : MetricsRegistry :=
  mkMetricsRegistry (alter (fun n => u64 (n + amount)) name (mt_counters r)) (mt_gauges r) (mt_histograms r) (mt_help r) (mt_labels r).

Definition f64_to_i64 (x : f64) : Z :=
  match ftrunc x with
  | Some z => if (- 2 ^ 63 <=? z) && (z <? 2 ^ 63) then z else ub_cast_i64 x
  | None => ub_cast_i64 x
  end.

Definition gauge_set (name : string) (value : f64) (r : MetricsRegistry) : MetricsRegistry :=
  mkMetricsRegistry (mt_counters r) (alter (fun _ => f64_to_i64 (f64_mul value (f64_of_Z 1000))) name (mt_gauges r)) (mt_histograms r) (mt_help r) (mt_labels r).
Definition gauge_get (raw : Z) : f64 := f64_div (f64_of_Z raw) (f64_of_Z 1000).

Definition histogram_record (name : string) (value : f64) (r : MetricsRegistry) : MetricsRegistry :=
  mkMetricsRegistry (mt_counters r) (mt_gauges r) (alter (record value) name (mt_histograms r)) (mt_help r) (mt_labels r).

(** ** The page *)
Definition dquote : string := String "034" EmptyString.
Definition newline : string := String "010" EmptyString.

(** A [std::map] is visited in the order of its keys. *)
Definition by_name {A} (m : gmap string A) : list (string * A) := omap (fun name => pair name <$> m !! name) (sort_ids (map_to_list m).*1).

Fixpoint separated (l : list string) : string :=
  match l with [] => EmptyString | [x] => x | x :: l => x +:+ "," +:+ separated l end.

Definition label_pairs (r : MetricsRegistry) : list string := (fun kv => fst kv +:+ "=" +:+ dquote +:+ snd kv +:+ dquote) <$> by_name (mt_labels r).
Definition label_text (r : MetricsRegistry) : string :=
  match label_pairs r with [] => EmptyString | pairs => "{" +:+ separated pairs +:+ "}" end.
Definition labels_with (r : MetricsRegistry) (extra : string) : string :=
  "{" +:+ separated (label_pairs r ++ (if (extra =? "")%string then [] else [extra])) +:+ "}".

Definition emit_help (r : MetricsRegistry) (name type : string) : string :=
  (match mt_help r !! name with Some help => "# HELP " +:+ name +:+ " " +:+ help +:+ newline | None => EmptyString end) +:+
  "# TYPE " +:+ name +:+ " " +:+ type +:+ newline.

Definition emit_counter (r : MetricsRegistry) (entry : string * Z) : string :=
  let '(name, value) := entry in emit_help r name "counter" +:+ name +:+ label_text r +:+ " " +:+ to_string value +:+ newline.
Definition emit_gauge (r : MetricsRegistry) (entry : string * Z) : string :=
  let '(name, raw) := entry in emit_help r name "gauge" +:+ name +:+ label_text r +:+ " " +:+ print_fixed 4 (gauge_get raw) +:+ newline.

(** The buckets that are printed, with the cumulative counts. *)
Fixpoint bucket_series (i : Z) (buckets : list Z) (cumulative : Z) : list (Z * Z) :=
  match buckets with
  | [] => []
  | bucket :: buckets =>
      let cumulative := u64 (cumulative + bucket) in
      if bucket =? 0 then bucket_series (i + 1) buckets cumulative else (i, cumulative) :: bucket_series (i + 1) buckets cumulative
  end.

Definition emit_bucket (r : MetricsRegistry) (name : string) (entry : Z * Z) : string :=
  name +:+ "_bucket" +:+ labels_with r ("le=" +:+ dquote +:+ print_general 9 (bucket_upper_bound (fst entry)) +:+ dquote) +:+ " " +:+
  to_string (snd entry) +:+ newline.

Definition emit_quantile (r : MetricsRegistry) (name q : string) (value : f64) : string :=
  name +:+ "_quantile" +:+ labels_with r ("quantile=" +:+ dquote +:+ q +:+ dquote) +:+ " " +:+ print_fixed 4 value +:+ newline.

Definition emit_histogram (r : MetricsRegistry) (entry : string * Histogram) : string :=
  let '(name, h) := entry in
  emit_help r name "histogram" +:+
  foldr String.append EmptyString (emit_bucket r name <$> bucket_series 0 (hg_buckets h) 0) +:+
  name +:+ "_bucket" +:+ labels_with r ("le=" +:+ dquote +:+ "+Inf" +:+ dquote) +:+ " " +:+ to_string (hg_count h) +:+ newline +:+
  name +:+ "_sum" +:+ label_text r +:+ " " +:+ print_fixed 6 (hg_sum h) +:+ newline +:+
  name +:+ "_count" +:+ label_text r +:+ " " +:+ to_string (hg_count h) +:+ newline +:+
  emit_quantile r name "0.5" (p50 h) +:+ emit_quantile r name "0.95" (p95 h) +:+ emit_quantile r name "0.99" (p99 h).

Definition expose (r : MetricsRegistry) : string :=
  foldr String.append EmptyString (emit_counter r <$> by_name (mt_counters r)) +:+
  foldr String.append EmptyString (emit_gauge r <$> by_name (mt_gauges r)) +:+
  foldr String.append EmptyString (emit_histogram r <$> by_name (mt_histograms r)).
End Histograms.

(** ** What the buckets count *)
Definition total (buckets : list Z) : Z := foldr Z.add 0 buckets.

Record histogram_ok (h : Histogram) : Prop := {
  ho_length : length (hg_buckets h) = kBucketCount;
  ho_nonneg : Forall (fun n => 0 <= n) (hg_buckets h);
  ho_count : hg_count h = total (hg_buckets h)
}.

Lemma total_nonneg l : Forall (fun n => 0 <= n) l -> 0 <= total l.
Proof. induction 1 as [|n l Hn _ IH]; cbn [total foldr]; [done|]. fold (total l). lia. Qed.

Lemma total_alter l : forall i, (i < length l)%nat -> Forall (fun n => 0 <= n) l -> total l + 1 < 2 ^ 64 ->
  total (alter (fun n => u64 (n + 1)) i l) = total l + 1 /\ Forall (fun n => 0 <= n) (alter (fun n => u64 (n + 1)) i l).
Proof.
  induction l as [|n l IH]; intros i Hi Hl Ht; [cbn in Hi; lia|]. apply list.Forall_cons in Hl as [Hn Hl]. pose proof (total_nonneg l Hl).
  change (total (n :: l)) with (n + total l) in *. destruct i as [|i].
  - change (alter (fun n => u64 (n + 1)) 0%nat (n :: l)) with (u64 (n + 1) :: l). change (total (u64 (n + 1) :: l)) with (u64 (n + 1) + total l).
    rewrite wrap_small by (split; lia). split; [lia|]. constructor; [lia|done].
  - change (alter (fun n => u64 (n + 1)) (S i) (n :: l)) with (n :: alter (fun n => u64 (n + 1)) i l).
    change (total (n :: alter (fun n => u64 (n + 1)) i l)) with (n + total (alter (fun n => u64 (n + 1)) i l)).
    cbn [length] in Hi. destruct (IH i ltac:(lia) Hl ltac:(lia)) as [E Hf]. rewrite E. split; [lia|by constructor].
Qed.

Lemma bucket_of_range `{Platform} `{MathLib} value : (bucket_of value < kBucketCount)%nat.
Proof.
  unfold bucket_of, kBucketCount. destruct (f64_leb _ _); [lia|]. cbv zeta. set (c := i32 _).
  destruct (Z.ltb_spec c 0); [lia|]. destruct (Z.leb_spec (Z.of_nat 240) c); lia.
Qed.

Lemma histogram_new_ok : histogram_ok Histogram_new.
Proof. split; [done| |done]. by apply Forall_replicate. Qed.

Lemma record_ok `{Platform} `{MathLib} value h : histogram_ok h -> hg_count h + 1 < 2 ^ 64 ->
  histogram_ok (record value h) /\ hg_count (record value h) = hg_count h + 1.
Proof.
  intros [Hl Hn Hc] Ht. unfold record. set (v := if f64_ltb value f64_0 then _ else _). cbn [hg_count].
  destruct (total_alter (hg_buckets h) (bucket_of v)) as [E Hf]; [rewrite Hl; apply bucket_of_range|done|lia|].
  pose proof (total_nonneg _ Hn). rewrite wrap_small by (split; lia). split; [|done].
  split; cbn [hg_buckets hg_count]; [by rewrite length_alter|done|]. lia.
Qed.

(** The printed series: increasing bounds, strictly increasing counts, and nothing
    beyond them. *)
Lemma bucket_series_spec buckets : forall i cumulative, 0 <= cumulative -> Forall (fun n => 0 <= n) buckets -> cumulative + total buckets < 2 ^ 64 ->
  let series := bucket_series i buckets cumulative in
  StronglySorted (fun x y => fst x < fst y /\ snd x < snd y) series /\ Forall (fun x => i <= fst x /\ cumulative < snd x) series /\
  default cumulative (snd <$> last series) = cumulative + total buckets.
Proof.
  induction buckets as [|n buckets IH]; intros i cumulative Hc Hl Ht; cbn [bucket_series]; cbv zeta.
  - split_and!; [constructor|constructor|]. cbn. lia.
  - apply list.Forall_cons in Hl as [Hn Hl]. pose proof (total_nonneg _ Hl). change (total (n :: buckets)) with (n + total buckets) in *.
    rewrite (wrap_small 64) by (split; lia). destruct (IH (i + 1) (cumulative + n) ltac:(lia) Hl ltac:(lia)) as (H1 & H2 & H3).
    destruct (Z.eqb_spec n 0) as [->|Hne].
    + rewrite Z.add_0_r in *. split_and!; [done| |rewrite H3; lia]. apply (Forall_impl _ _ _ H2). intros x []. lia.
    + split_and!.
      * constructor; [done|]. apply (Forall_impl _ _ _ H2). intros x []. cbn. lia.
      * constructor; [cbn; lia|]. apply (Forall_impl _ _ _ H2). intros x []. lia.
      * destruct (bucket_series (i + 1) buckets (cumulative + n)) as [|y ys] eqn:Es.
        -- cbn in *. lia.
        -- rewrite last_cons. destruct (last (y :: ys)) as [z|] eqn:El; [cbn in *; lia|]. by apply last_None in El.
Qed.

(** The page of a histogram is a cumulative distribution: after any run of fewer
    than 2^64 records, the buckets hold every recorded value exactly once, the
    printed bounds and counts both increase strictly, and the last of them is the
    total that the [+Inf] bucket and [_count] print. *)
Theorem histogram_series `{Platform} `{MathLib} (values : list f64) : Z.of_nat (length values) < 2 ^ 64 ->
  let h := foldl (fun h v => record v h) Histogram_new values in
  let series := bucket_series 0 (hg_buckets h) 0 in
  length (hg_buckets h) = kBucketCount /\ hg_count h = Z.of_nat (length values) /\ total (hg_buckets h) = Z.of_nat (length values) /\
  StronglySorted (fun x y => fst x < fst y /\ snd x < snd y) series /\ default 0 (snd <$> last series) = hg_count h.
Proof.
  intros Hlen h series. assert (Hok : histogram_ok h /\ hg_count h = Z.of_nat (length values)).
  { enough (Hgen : forall h0, histogram_ok h0 -> hg_count h0 + Z.of_nat (length values) < 2 ^ 64 ->
      histogram_ok (foldl (fun h v => record v h) h0 values) /\ hg_count (foldl (fun h v => record v h) h0 values) = hg_count h0 + Z.of_nat (length values))
      by (apply (Hgen Histogram_new histogram_new_ok); exact Hlen).
    clear h series Hlen. induction values as [|v values IH]; intros h0 Hh0 Ht; cbn [foldl length] in *; [split; [done|lia]|].
    destruct (record_ok v h0 Hh0 ltac:(lia)) as [Hh1 E1]. destruct (IH (record v h0) Hh1 ltac:(lia)) as [Hh2 E2]. split; [done|lia]. }
  destruct Hok as [[Hl Hn Hc] Ecount]. destruct (bucket_series_spec (hg_buckets h) 0 0 ltac:(lia) Hn ltac:(lia)) as (H1 & _ & H3).
  split_and!; [done..|lia|done|]. rewrite Hc. exact H3.
Qed.

(** A library whose logarithm is never larger than zero puts everything in the first
    two buckets. *)
Definition flat_math : MathLib :=
  {| std_log := fun _ => f64_0; std_pow := fun _ _ => f64_of_Z 1; ub_cast_i64 := fun _ => 0;
     print_fixed := fun _ _ => "0"%string; print_general := fun _ _ => "1"%string |}.

Example histogram_page :
  let r := counter_add "ticks_total" 3 (counter "ticks_total" "" (set_label "shard" "a" MetricsRegistry_new)) in
  @expose flat_math r =
    "# TYPE ticks_total counter" +:+ newline +:+ "ticks_total{shard=" +:+ dquote +:+ "a" +:+ dquote +:+ "} 3" +:+ newline.
Proof. vm_compute. reflexivity. Qed.
