(* ===== verification/Logging.v ===== *)
(** * Logging: log lines and clocks ([src/src/core/log.h], [src/src/core/time.h])

    Which lines are written and what they look like, the readings of the clocks, and the
    sleep that ends every tick of the load generator.  The clocks' raw readings are
    arguments, in nanoseconds. *)

From S2P Require Import Prelude F32 Text Metrics.
From Stdlib Require Import ZArith Lia Bool Ascii String.
From stdpp Require Import base tactics numbers list option strings.
#[local] Open Scope Z_scope.

(** ** The log *)
Inductive LogLevel := kTrace | kDebug | kInfo | kWarn | kError.

Definition level_value (l : LogLevel) : Z := match l with kTrace => 0 | kDebug => 1 | kInfo => 2 | kWarn => 3 | kError => 4 end.

Definition level_name (l : LogLevel) : string :=
  match l with kTrace => "trace" | kDebug => "debug" | kInfo => "info " | kWarn => "warn " | kError => "error" end.

Record Log := mkLog { lg_level : LogLevel; lg_tag : string }.

(** The level [MORTON_LOG_LEVEL] names; another text changes nothing. *)
Definition named_level (name : string) (level : LogLevel) : LogLevel :=
  let level := if (name =? "trace")%string then kTrace else level in
  let level := if (name =? "debug")%string then kDebug else level in
  let level := if (name =? "info")%string then kInfo else level in
  let level := if (name =? "warn")%string then kWarn else level in
  if (name =? "error")%string then kError else level.

Definition Log_new (env : option string) : Log := mkLog (match env with None => kInfo | Some name => named_level name kInfo end) "morton".

Definition set_level (level : LogLevel) (l : Log) : Log := mkLog level (lg_tag l).
Definition set_tag (tag : string) (l : Log) : Log := mkLog (lg_level l) tag.

(** [%8s] *)
Fixpoint right_aligned (width : nat) (s : string) : string :=
  match width with O => s | S width => if (String.length s <=? width)%nat then String " " (right_aligned width s) else s end.

(** [body] is the formatted message, cut to the buffer of 2048 bytes; [None]: the level is
    below the log's and nothing is written. *)
Definition log_line `{MathLib} (l : Log) (level : LogLevel) (body : string) (now_ms : f64) : option string :=
  if level_value level <? level_value (lg_level l) then None else
  Some ("[" +:+ right_aligned 8 (print_fixed 3 (f64_div now_ms (f64_of_Z 1000))) +:+ "][" +:+ level_name level +:+ "][" +:+ lg_tag l +:+ "] " +:+
        str_take 2047 body +:+ newline).

(** [MORTON_CHECK]: the lines before the abort, or nothing when the check holds. *)
Definition check_failure `{MathLib} (l : Log) (holds : bool) (condition message : string) (now_ms : f64) : option (list string) :=
  if holds then None else Some (omap (fun body => log_line l kError body now_ms) ["CHECK failed: " +:+ condition; message]).

(** ** The clocks *)
Definition now_us (steady_ns origin_ns : Z) : Z := u64 (Z.quot (steady_ns - origin_ns) 1000).
Definition now_ms (us : Z) : f64 := f64_div (f64_of_Z us) (f64_of_Z 1000).
Definition wall_clock_ms (system_ns : Z) : Z := u64 (Z.quot system_ns 1000000).

(** [ScopedTimer]: what it stores when it is destroyed. *)
Definition scoped_timer (started_us ended_us : Z) : f64 := f64_div (f64_of_Z (u64 (ended_us - started_us))) (f64_of_Z 1000).

(** [sleep_us]: how long the thread is asked to sleep, if at all. *)
Definition sleep_us (us : Z) : option Z := if us =? 0 then None else Some us.

Section Sleep.
(** The readings of the clock, one after the other. *)
Context (clock : nat -> Z).

(** How long the first part of [precise_sleep_until] sleeps. *)
Definition coarse_sleep (now target_us : Z) : option Z :=
  let remaining := u64 (target_us - now) in if 1500 <? remaining then sleep_us (u64 (remaining - 1000)) else None.

(** The second part: reading [i] and on, until one has reached the target; the reading
    that did, if there is one among the next [fuel]. *)
Fixpoint spin (fuel i : nat) (target_us : Z) : option nat :=
  match fuel with
  | O => None
  | S fuel => if clock i <? target_us then spin fuel (S i) target_us else Some i
  end.

(** What is slept first, and the last reading of the clock; the first one is [clock 0]. *)
Definition precise_sleep_until (fuel : nat) (target_us : Z) : option (option Z * nat) :=
  if target_us <=? clock 0 then Some (None, 0%nat) else
  i ← spin fuel 1 target_us; Some (coarse_sleep (clock 0) target_us, i).

Lemma spin_ends target_us fuel : forall i, (exists n, (n < fuel)%nat /\ target_us <= clock (i + n)) ->
  exists j, spin fuel i target_us = Some j /\ target_us <= clock j /\ forall k, (i <= k < j)%nat -> clock k < target_us.
Proof.
  induction fuel as [|fuel IH]; intros i (n & Hn & Ht); [lia|]. cbn [spin]. destruct (Z.ltb_spec (clock i) target_us) as [Hlt|Hge].
  - destruct n as [|n]; [rewrite Nat.add_0_r in Ht; lia|].
    destruct (IH (S i)) as (j & Ej & Hj & Hk); [exists n; split; [lia|by replace (S i + n)%nat with (i + S n)%nat by lia]|].
    exists j. split_and!; [done|done|]. intros k Hk'. destruct (decide (k = i)) as [->|]; [done|]. apply Hk. lia.
  - exists i. split_and!; [done|done|lia].
Qed.

(** Sleeping is precise: on a clock that reaches the target, the sleep ends, not before the
    target, at the first reading that has reached it; and what is slept before the clock is
    watched ends a thousandth of a second short of the target, and is only slept when the
    target is more than a thousandth and a half away. *)
Theorem sleep_precise (target_us : Z) (fuel n : nat) : fits 64 target_us -> fits 64 (clock 0) -> (0 < n <= fuel)%nat -> target_us <= clock n ->
  exists slept i, precise_sleep_until fuel target_us = Some (slept, i) /\ target_us <= clock i /\
    (forall k, (0 < k < i)%nat -> clock k < target_us) /\
    match slept with
    | Some us => 500 < us /\ clock 0 + us = target_us - 1000
    | None => target_us <= clock 0 + 1500
    end.
Proof.
  intros [Ht0 Ht] [Hc0 Hc] Hn Hr. unfold precise_sleep_until. destruct (Z.leb_spec target_us (clock 0)) as [Hle|Hgt].
  - exists None, 0%nat. split_and!; [done|done|lia|lia].
  - destruct (spin_ends target_us fuel 1) as (j & -> & Hj & Hk); [exists (n - 1)%nat; split; [lia|by replace (1 + (n - 1))%nat with n by lia]|].
    cbn [mbind option_bind]. eexists _, j. split_and!; [done|done|intros k ?; apply Hk; lia|]. unfold coarse_sleep, sleep_us.
    rewrite wrap_small by (split; lia). destruct (Z.ltb_spec 1500 (target_us - clock 0)) as [Hl|Hl]; [|lia].
    rewrite wrap_small by (split; lia). rewrite (proj2 (Z.eqb_neq _ _)) by lia. lia.
Qed.
End Sleep.

(** The names of the levels are the ones the variable is compared with, padded. *)
Lemma named_levels : (fun name => lg_level (Log_new (Some name))) <$> ["trace"; "debug"; "info"; "warn"; "error"; "loud"]%string =
  [kTrace; kDebug; kInfo; kWarn; kError; kInfo].
Proof. reflexivity. Qed.
