(* ===== verification/WorldServer.v ===== *)
(** * The world server: one authoritative shard ([src/src/app/world_server.h], [world_server.cpp])

    The composition of the other components: the transport calls the shard back to
    admit, connect and drop clients and to take their commands; a tick drains the
    socket, steps the world, replicates it, hands players over the border, expires
    connections and refreshes the cluster.

    The transport's state is the outer record ([Connection.ConnectionServer]); what
    the shard keeps besides it is its [sv_app].  Readings of the wall clock are a
    sequence [wall], and the state counts how many were taken, so that no relation
    between two readings is assumed. *)

From S2P Require Import Prelude F32 Bitstream Quantizer Movement Messages Grid EntityStore World Snapshot Reliability Connection Region.
From S2P Require Import Text Redis Store Presence Migration Shard Http WebSocket Metrics.
From Stdlib Require Import ZArith Lia Bool Ascii String.
From stdpp Require Import base tactics numbers list option gmap sets fin_maps strings.
#[local] Open Scope Z_scope.

Definition kSnapshotChannelBytes : Z := 1.
Definition kPendingAdmitTtlMs : Z := 15000.
Definition kRedeemedTicketTtlMs : Z := 30000.
Definition kPresenceRefreshMs : Z := 2000.

(** ** Data *)
Record WorldServerConfig := mkWorldServerConfig {
  sf_shard_id : string;
  sf_viewer_hz : Z;
  sf_key_prefix : string;
  sf_params : WorldParams;
  sf_interest : InterestConfig;
  sf_regions : RegionMap;
  sf_capacity : Z;
  sf_drifters : Z;
  sf_max_connections : Z;
  sf_reconnect_grace_ms : Z;
  sf_redirect_grace_ticks : Z;
  sf_connection_timeout_us : Z;
  sf_advertise : bool
}.

Definition WorldServerConfig_default : WorldServerConfig :=
  mkWorldServerConfig "world-a" 0 "morton" WorldParams_default InterestConfig_default RegionMap_default 512 0 4096 20000 45 5000000 true.

Record WorldPlayer := mkWorldPlayer {
  pl_client : Z;
  pl_player_id : string;
  pl_entity : Z;
  pl_region : Z;
  pl_session_token : Z;
  pl_last_input_sequence : Z;
  pl_acked_snapshot_tick : Z;
  pl_redirect_deadline : Z;
  pl_redirecting : bool;
  pl_migrated_in : bool;
  pl_replication : ReplicationState
}.

Record GhostState := mkGhostState {
  gs_position : Vec2;
  gs_velocity : Vec2;
  gs_last_input_sequence : Z;
  gs_region : Z;
  gs_session_token : Z;
  gs_expires_ms : Z
}.

Record WorldServerStats := mkWorldServerStats {
  wt_ticks : Z;
  wt_snapshots_sent : Z;
  wt_snapshot_bytes : Z;
  wt_inputs_received : Z;
  wt_migrations_out : Z;
  wt_migrations_in : Z;
  wt_reconnects_resumed : Z;
  wt_timeouts : Z;
  wt_denied_connects : Z
}.

Definition WorldServerStats_zero : WorldServerStats := mkWorldServerStats 0 0 0 0 0 0 0 0 0.

Record PendingAdmit := mkPendingAdmit {
  pa_client : Z;
  pa_credential : ConnectCredential;
  pa_ticket : option MigrationTicket;
  pa_region : Z;
  pa_expires_ms : Z
}.

(** Everything but the transport. *)
Record ShardState (R G : Type) := mkShardState {
  sh_config : WorldServerConfig;
  sh_world : World;
  sh_coordinator : ShardCoordinator R G;
  sh_viewer : WebSocketServer;
  sh_players : gmap Z WorldPlayer;
  sh_by_player_id : gmap string Z;
  sh_ghosts : gmap string GhostState;
  sh_pending_admits : gmap Z PendingAdmit;
  sh_pending_by_player : gmap string Z;
  sh_redeemed_tickets : gmap Z MigrationTicket;
  sh_stats : WorldServerStats;
  sh_next_client : Z;
  sh_last_presence_refresh_ms : Z;
  sh_last_viewer_publish_us : Z;
  sh_tick_histogram : Histogram;
  sh_clock : nat
}.
Arguments mkShardState {R G}.
Arguments sh_config {R G}.
Arguments sh_world {R G}.
Arguments sh_coordinator {R G}.
Arguments sh_viewer {R G}.
Arguments sh_players {R G}.
Arguments sh_by_player_id {R G}.
Arguments sh_ghosts {R G}.
Arguments sh_pending_admits {R G}.
Arguments sh_pending_by_player {R G}.
Arguments sh_redeemed_tickets {R G}.
Arguments sh_stats {R G}.
Arguments sh_next_client {R G}.
Arguments sh_last_presence_refresh_ms {R G}.
Arguments sh_last_viewer_publish_us {R G}.
Arguments sh_tick_histogram {R G}.
Arguments sh_clock {R G}.

Definition set_pl_region (region : Z) (p : WorldPlayer) : WorldPlayer :=
  mkWorldPlayer (pl_client p) (pl_player_id p) (pl_entity p) region (pl_session_token p) (pl_last_input_sequence p)
    (pl_acked_snapshot_tick p) (pl_redirect_deadline p) (pl_redirecting p) (pl_migrated_in p) (pl_replication p).
Definition set_pl_replication (rs : ReplicationState) (p : WorldPlayer) : WorldPlayer :=
  mkWorldPlayer (pl_client p) (pl_player_id p) (pl_entity p) (pl_region p) (pl_session_token p) (pl_last_input_sequence p)
    (pl_acked_snapshot_tick p) (pl_redirect_deadline p) (pl_redirecting p) (pl_migrated_in p) rs.
Definition set_pl_sequence (sequence : Z) (p : WorldPlayer) : WorldPlayer :=
  mkWorldPlayer (pl_client p) (pl_player_id p) (pl_entity p) (pl_region p) (pl_session_token p) sequence
    (pl_acked_snapshot_tick p) (pl_redirect_deadline p) (pl_redirecting p) (pl_migrated_in p) (pl_replication p).
Definition set_pl_acked (tick : Z) (p : WorldPlayer) : WorldPlayer :=
  mkWorldPlayer (pl_client p) (pl_player_id p) (pl_entity p) (pl_region p) (pl_session_token p) (pl_last_input_sequence p)
    tick (pl_redirect_deadline p) (pl_redirecting p) (pl_migrated_in p) (acknowledge tick (pl_replication p)).
Definition set_pl_redirecting (deadline : Z) (p : WorldPlayer) : WorldPlayer :=
  mkWorldPlayer (pl_client p) (pl_player_id p) (pl_entity p) (pl_region p) (pl_session_token p) (pl_last_input_sequence p)
    (pl_acked_snapshot_tick p) deadline true (pl_migrated_in p) (pl_replication p).

(** What a freshly constructed [ReplicationState] holds before it is configured. *)
Definition ReplicationState_blank : ReplicationState :=
  rs_configure InterestConfig_default WorldParams_default
    (mkReplicationState InterestConfig_default (ReplicationQuantizers_from WorldParams_default) WorldParams_default [] 0 false [] ReplicationStats_zero).

(** *** Field updates *)
Section Updates.
Context {R G : Type}.
Abbreviation App := (ShardState R G).

Definition set_world (w : World) (a : App) : App :=
  mkShardState (sh_config a) w (sh_coordinator a) (sh_viewer a) (sh_players a) (sh_by_player_id a) (sh_ghosts a) (sh_pending_admits a)
    (sh_pending_by_player a) (sh_redeemed_tickets a) (sh_stats a) (sh_next_client a) (sh_last_presence_refresh_ms a)
    (sh_last_viewer_publish_us a) (sh_tick_histogram a) (sh_clock a).
Definition set_coordinator (co : ShardCoordinator R G) (a : App) : App :=
  mkShardState (sh_config a) (sh_world a) co (sh_viewer a) (sh_players a) (sh_by_player_id a) (sh_ghosts a) (sh_pending_admits a)
    (sh_pending_by_player a) (sh_redeemed_tickets a) (sh_stats a) (sh_next_client a) (sh_last_presence_refresh_ms a)
    (sh_last_viewer_publish_us a) (sh_tick_histogram a) (sh_clock a).
Definition set_viewer (v : WebSocketServer) (published_us : Z) (a : App) : App :=
  mkShardState (sh_config a) (sh_world a) (sh_coordinator a) v (sh_players a) (sh_by_player_id a) (sh_ghosts a) (sh_pending_admits a)
    (sh_pending_by_player a) (sh_redeemed_tickets a) (sh_stats a) (sh_next_client a) (sh_last_presence_refresh_ms a)
    published_us (sh_tick_histogram a) (sh_clock a).
Definition set_sh_players (players : gmap Z WorldPlayer) (a : App) : App :=
  mkShardState (sh_config a) (sh_world a) (sh_coordinator a) (sh_viewer a) players (sh_by_player_id a) (sh_ghosts a) (sh_pending_admits a)
    (sh_pending_by_player a) (sh_redeemed_tickets a) (sh_stats a) (sh_next_client a) (sh_last_presence_refresh_ms a)
    (sh_last_viewer_publish_us a) (sh_tick_histogram a) (sh_clock a).
Definition set_by_player_id (ids : gmap string Z) (a : App) : App :=
  mkShardState (sh_config a) (sh_world a) (sh_coordinator a) (sh_viewer a) (sh_players a) ids (sh_ghosts a) (sh_pending_admits a)
    (sh_pending_by_player a) (sh_redeemed_tickets a) (sh_stats a) (sh_next_client a) (sh_last_presence_refresh_ms a)
    (sh_last_viewer_publish_us a) (sh_tick_histogram a) (sh_clock a).
Definition set_ghosts (ghosts : gmap string GhostState) (a : App) : App :=
  mkShardState (sh_config a) (sh_world a) (sh_coordinator a) (sh_viewer a) (sh_players a) (sh_by_player_id a) ghosts (sh_pending_admits a)
    (sh_pending_by_player a) (sh_redeemed_tickets a) (sh_stats a) (sh_next_client a) (sh_last_presence_refresh_ms a)
    (sh_last_viewer_publish_us a) (sh_tick_histogram a) (sh_clock a).
Definition set_pending_admits (admits : gmap Z PendingAdmit) (by_player : gmap string Z) (a : App) : App :=
  mkShardState (sh_config a) (sh_world a) (sh_coordinator a) (sh_viewer a) (sh_players a) (sh_by_player_id a) (sh_ghosts a) admits
    by_player (sh_redeemed_tickets a) (sh_stats a) (sh_next_client a) (sh_last_presence_refresh_ms a)
    (sh_last_viewer_publish_us a) (sh_tick_histogram a) (sh_clock a).
Definition set_redeemed (tickets : gmap Z MigrationTicket) (a : App) : App :=
  mkShardState (sh_config a) (sh_world a) (sh_coordinator a) (sh_viewer a) (sh_players a) (sh_by_player_id a) (sh_ghosts a) (sh_pending_admits a)
    (sh_pending_by_player a) tickets (sh_stats a) (sh_next_client a) (sh_last_presence_refresh_ms a)
    (sh_last_viewer_publish_us a) (sh_tick_histogram a) (sh_clock a).
Definition set_sh_stats (stats : WorldServerStats) (a : App) : App :=
  mkShardState (sh_config a) (sh_world a) (sh_coordinator a) (sh_viewer a) (sh_players a) (sh_by_player_id a) (sh_ghosts a) (sh_pending_admits a)
    (sh_pending_by_player a) (sh_redeemed_tickets a) stats (sh_next_client a) (sh_last_presence_refresh_ms a)
    (sh_last_viewer_publish_us a) (sh_tick_histogram a) (sh_clock a).
Definition set_next_client (n : Z) (a : App) : App :=
  mkShardState (sh_config a) (sh_world a) (sh_coordinator a) (sh_viewer a) (sh_players a) (sh_by_player_id a) (sh_ghosts a) (sh_pending_admits a)
    (sh_pending_by_player a) (sh_redeemed_tickets a) (sh_stats a) n (sh_last_presence_refresh_ms a)
    (sh_last_viewer_publish_us a) (sh_tick_histogram a) (sh_clock a).
Definition set_presence_refresh (now_ms : Z) (a : App) : App :=
  mkShardState (sh_config a) (sh_world a) (sh_coordinator a) (sh_viewer a) (sh_players a) (sh_by_player_id a) (sh_ghosts a) (sh_pending_admits a)
    (sh_pending_by_player a) (sh_redeemed_tickets a) (sh_stats a) (sh_next_client a) now_ms
    (sh_last_viewer_publish_us a) (sh_tick_histogram a) (sh_clock a).
Definition set_tick_histogram (h : Histogram) (a : App) : App :=
  mkShardState (sh_config a) (sh_world a) (sh_coordinator a) (sh_viewer a) (sh_players a) (sh_by_player_id a) (sh_ghosts a) (sh_pending_admits a)
    (sh_pending_by_player a) (sh_redeemed_tickets a) (sh_stats a) (sh_next_client a) (sh_last_presence_refresh_ms a)
    (sh_last_viewer_publish_us a) h (sh_clock a).
Definition advance_clock (a : App) : App :=
  mkShardState (sh_config a) (sh_world a) (sh_coordinator a) (sh_viewer a) (sh_players a) (sh_by_player_id a) (sh_ghosts a) (sh_pending_admits a)
    (sh_pending_by_player a) (sh_redeemed_tickets a) (sh_stats a) (sh_next_client a) (sh_last_presence_refresh_ms a)
    (sh_last_viewer_publish_us a) (sh_tick_histogram a) (S (sh_clock a)).

Definition bump_denied (a : App) : App := let t := sh_stats a in
  set_sh_stats (mkWorldServerStats (wt_ticks t) (wt_snapshots_sent t) (wt_snapshot_bytes t) (wt_inputs_received t) (wt_migrations_out t)
    (wt_migrations_in t) (wt_reconnects_resumed t) (wt_timeouts t) (u64 (wt_denied_connects t + 1))) a.
Definition bump_timeouts (a : App) : App := let t := sh_stats a in
  set_sh_stats (mkWorldServerStats (wt_ticks t) (wt_snapshots_sent t) (wt_snapshot_bytes t) (wt_inputs_received t) (wt_migrations_out t)
    (wt_migrations_in t) (wt_reconnects_resumed t) (u64 (wt_timeouts t + 1)) (wt_denied_connects t)) a.
Definition bump_resumed (a : App) : App := let t := sh_stats a in
  set_sh_stats (mkWorldServerStats (wt_ticks t) (wt_snapshots_sent t) (wt_snapshot_bytes t) (wt_inputs_received t) (wt_migrations_out t)
    (wt_migrations_in t) (u64 (wt_reconnects_resumed t + 1)) (wt_timeouts t) (wt_denied_connects t)) a.
Definition bump_migrations_in (a : App) : App := let t := sh_stats a in
  set_sh_stats (mkWorldServerStats (wt_ticks t) (wt_snapshots_sent t) (wt_snapshot_bytes t) (wt_inputs_received t) (wt_migrations_out t)
    (u64 (wt_migrations_in t + 1)) (wt_reconnects_resumed t) (wt_timeouts t) (wt_denied_connects t)) a.
Definition bump_migrations_out (a : App) : App := let t := sh_stats a in
  set_sh_stats (mkWorldServerStats (wt_ticks t) (wt_snapshots_sent t) (wt_snapshot_bytes t) (wt_inputs_received t) (u64 (wt_migrations_out t + 1))
    (wt_migrations_in t) (wt_reconnects_resumed t) (wt_timeouts t) (wt_denied_connects t)) a.
Definition add_inputs (n : Z) (a : App) : App := let t := sh_stats a in
  set_sh_stats (mkWorldServerStats (wt_ticks t) (wt_snapshots_sent t) (wt_snapshot_bytes t) (u64 (wt_inputs_received t + n)) (wt_migrations_out t)
    (wt_migrations_in t) (wt_reconnects_resumed t) (wt_timeouts t) (wt_denied_connects t)) a.
Definition add_snapshot (bytes : Z) (a : App) : App := let t := sh_stats a in
  set_sh_stats (mkWorldServerStats (wt_ticks t) (u64 (wt_snapshots_sent t + 1)) (u64 (wt_snapshot_bytes t + bytes)) (wt_inputs_received t) (wt_migrations_out t)
    (wt_migrations_in t) (wt_reconnects_resumed t) (wt_timeouts t) (wt_denied_connects t)) a.
Definition bump_ticks (a : App) : App := let t := sh_stats a in
  set_sh_stats (mkWorldServerStats (u64 (wt_ticks t + 1)) (wt_snapshots_sent t) (wt_snapshot_bytes t) (wt_inputs_received t) (wt_migrations_out t)
    (wt_migrations_in t) (wt_reconnects_resumed t) (wt_timeouts t) (wt_denied_connects t)) a.
End Updates.

(** The order in which the loops of a tick visit the players, which a
    [std::unordered_map] leaves open: what it makes of the clients in tick [t], for the
    tick's loop [k]. *)
Definition Visiting : Type := Z -> nat -> list Z -> list Z.

Section Server.
Context `{Platform} `{MathLib} `{FloatText} `{Redis R} `{Rng G}.
(** The readings of the wall clock, the salts' generator, and [std::nth_element]. *)
Context (wall : nat -> Z) (random : nat -> Z) (nth_element : nat -> list Candidate -> list Candidate) (visit : Visiting).
Abbreviation App := (ShardState R G).
Abbreviation Server := (ConnectionServer (ShardState R G)).

Definition wall_ms (a : App) : Z * App := (u64 (wall (sh_clock a)), advance_clock a).

(** ** Callbacks of the transport *)
Definition denied (reason : DenyReason) : AdmitDecision := mkAdmitDecision false reason 0.
Definition admitted (client : Z) : AdmitDecision := mkAdmitDecision true kBadToken (u32 client).

(** The admission that is still waiting for this player, if it has not expired. *)
Definition pending_entry (credential : ConnectCredential) (now_ms : Z) (a : App) : option PendingAdmit :=
  client ← sh_pending_by_player a !! cc_player_id credential;
  entry ← sh_pending_admits a !! client;
  if (now_ms <? pa_expires_ms entry) && (cc_token (pa_credential entry) =? cc_token credential) then Some entry else None.

(** The ticket of a migration: kept from an earlier attempt, or taken from the store. *)
Definition ticket_for (token : Z) (a : App) : option MigrationTicket * App :=
  match sh_redeemed_tickets a !! token with
  | Some ticket => (Some ticket, a)
  | None =>
      let '(co, out) := accept_handoff (sh_coordinator a) token in
      let a := set_coordinator co a in
      match out with
      | Some ticket => (Some ticket, set_redeemed (<[token := ticket]> (sh_redeemed_tickets a)) a)
      | None => (None, a)
      end
  end.

(** The region and the ticket of a credential that is good, or why it is not. *)
Definition check_credential (credential : ConnectCredential) (a : App) : (DenyReason + Z * option MigrationTicket) * App :=
  match cc_kind credential with
  | kMigration =>
      let '(out, a) := ticket_for (cc_token credential) a in
      match out with
      | Some ticket =>
          if negb (mt_player_id ticket =? cc_player_id credential)%string then (inl kBadToken, a)
          else (inr (mt_region ticket, Some ticket), a)
      | None => (inl kBadToken, a)
      end
  | kSession =>
      if negb (sf_advertise (sh_config a)) then (inr (0, None), a) else
      let '(co, record) := with_registry (sh_coordinator a) (fun g => get_presence g (cc_player_id credential)) in
      let a := set_coordinator co a in
      match record with
      | None => (inl kBadToken, a)
      | Some record =>
          if negb (pr_session_token record =? cc_token credential) then (inl kBadToken, a)
          else if negb (pr_shard_id record =? sf_shard_id (sh_config a))%string then (inl kWrongRegion, a)
          else (inr (pr_region record, None), a)
      end
  end.

(** A player of a region this shard does not own is put in the first it does. *)
Definition owned_region (a : App) (region : Z) : Z :=
  if negb (owns_region (sh_coordinator a) region) && sf_advertise (sh_config a)
  then match owned_regions (sh_coordinator a) with [] => region | owned :: _ => owned end
  else region.

Definition admit_player (from : Address) (token : list Z) (a : App) : AdmitDecision * App :=
  match decode_credential token with
  | None => (denied kBadToken, bump_denied a)
  | Some credential =>
      let '(now_ms, a) := wall_ms a in
      match pending_entry credential now_ms a with
      | Some entry => (admitted (pa_client entry), a)
      | None =>
          if sf_capacity (sh_config a) <=? Z.of_nat (size (sh_players a)) then (denied kServerFull, bump_denied a) else
          match check_credential credential a with
          | (inl reason, a) => (denied reason, bump_denied a)
          | (inr (region, ticket), a) =>
              let client := sh_next_client a in
              let entry := mkPendingAdmit client credential ticket (owned_region a region) (u64 (now_ms + kPendingAdmitTtlMs)) in
              let a := set_next_client (u32 (client + 1)) a in
              (admitted client,
               set_pending_admits (<[client := entry]> (sh_pending_admits a)) (<[cc_player_id credential := client]> (sh_pending_by_player a)) a)
          end
      end
  end.

(** What a dropped player leaves behind. *)
Definition ghost_of (player : WorldPlayer) (index : nat) (expires_ms : Z) (w : World) : GhostState :=
  let s := w_entities w in
  mkGhostState (es_position s !!! index) (es_velocity s !!! index) (es_last_input_sequence s !!! index) (pl_region player)
    (pl_session_token player) expires_ms.

Definition leave_ghost (player : WorldPlayer) (a : App) : App :=
  if pl_redirecting player then a else
  let a := match store_find (pl_entity player) (w_entities (sh_world a)) with
           | None => a
           | Some index =>
               let '(now_ms, a) := wall_ms a in
               let ghost := ghost_of player index (u64 (now_ms + sf_reconnect_grace_ms (sh_config a))) (sh_world a) in
               set_ghosts (<[pl_player_id player := ghost]> (sh_ghosts a)) a
           end in
  bump_timeouts a.

Definition drop_player (connection : Connection) (reason : string) (a : App) : App :=
  match sh_players a !! cn_client_id connection with
  | None => a
  | Some player =>
      let a := leave_ghost player a in
      let a := set_world (despawn (pl_entity player) (sh_world a)) a in
      let a := if bool_decide (sh_by_player_id a !! pl_player_id player = Some (cn_client_id connection))
               then set_by_player_id (delete (pl_player_id player) (sh_by_player_id a)) a else a in
      set_sh_players (delete (cn_client_id connection) (sh_players a)) a
  end.

(** One command of a packet. *)
Definition take_command (client : Z) (a : App) (input : MoveInput) : App :=
  let input := quantize_input input in
  let a := set_world (queue_input client input (sh_world a)) a in
  set_sh_players (alter (fun p => if pl_last_input_sequence p <? mi_sequence input then set_pl_sequence (mi_sequence input) p else p) client (sh_players a)) a.

Definition take_payload (connection : Connection) (data : list Z) (a : App) : App :=
  match data with
  | [] => a
  | channel :: _ =>
      if negb (channel =? channel_code kInput) then a else
      match sh_players a !! cn_client_id connection with
      | None => a
      | Some player =>
          if pl_redirecting player then a else
          match fst (decode_input_packet (BitReader_new data (Z.of_nat (length data)))) with
          | None => a
          | Some packet =>
              let client := cn_client_id connection in
              let a := foldl (take_command client) a (ip_inputs packet) in
              let a := add_inputs (Z.of_nat (length (ip_inputs packet))) a in
              let acked := ip_acked_snapshot_tick packet in
              if negb (acked =? 0) && negb (acked =? pl_acked_snapshot_tick player)
              then set_sh_players (alter (set_pl_acked acked) client (sh_players a)) a else a
          end
      end
  end.

Definition player_by_id (player_id : string) (a : App) : option WorldPlayer := sh_by_player_id a !! player_id ≫= fun c => sh_players a !! c.

(** The callbacks a disconnect needs; [on_connect] makes disconnects itself. *)
Definition drop_handlers : Handlers App := mkHandlers None (fun _ s => Some s) drop_player (fun _ _ a => a) (fun _ _ a => a).

Definition send_event (from : Address) (data : list Z) (s : Server) : Server :=
  match sv_connections s !! from with
  | Some c => set_connection from (set_reliability (queue_reliable (channel_code kEvent) data (cn_reliability c)) c) s
  | None => s
  end.

Definition event_buffer : BitWriter := BitWriter_new (packet_buffer kMaxReliableMessageSize) kMaxReliableMessageSize.

Definition spread_position (config : WorldServerConfig) (region client : Z) : option Vec2 :=
  center ← center_of (sf_regions config) region;
  let spread := hash_u32 (u32 (client * 2654435761)) in
  let offset := fmul (region_size (sf_regions config)) (f32_lit 1 4) in
  let jitter v := fmul (fsub (fdiv (f32_of_Z (v mod 2000)) (f32_of_Z 1000)) f1) offset in
  Some (mkVec2 (fadd (vec_x center) (jitter spread)) (fadd (vec_y center) (jitter (Z.shiftr spread 11)))).

(** Where a new connection's avatar starts: from its ticket, from what its last
    connection left behind, or in the middle of its region. *)
Definition placement (entry : PendingAdmit) (client : Z) (a : App) : option ((Vec2 * Vec2 * Z * Z * bool) * App) :=
  match pa_ticket entry with
  | Some ticket => Some ((mt_position ticket, mt_velocity ticket, mt_last_input_sequence ticket, pa_region entry, true), bump_migrations_in a)
  | None =>
      let fresh a :=
        position ← spread_position (sh_config a) (pa_region entry) client;
        Some ((position, Vec2_zero, 0, pa_region entry, false), a) in
      let player_id := cc_player_id (pa_credential entry) in
      match sh_ghosts a !! player_id with
      | None => fresh a
      | Some ghost =>
          let '(now_ms, a) := wall_ms a in
          if (now_ms <? gs_expires_ms ghost) && (gs_session_token ghost =? cc_token (pa_credential entry))
          then Some ((gs_position ghost, gs_velocity ghost, gs_last_input_sequence ghost, gs_region ghost, false),
                     set_ghosts (delete player_id (sh_ghosts a)) (bump_resumed a))
          else fresh a
      end
  end.

Definition presence_of (a : App) (player_id : string) (region token : Z) : PresenceRecord :=
  mkPresenceRecord player_id (sf_shard_id (sh_config a)) region token 0.

Definition touch (record : PresenceRecord) (a : App) : App :=
  let '(now_ms, a) := wall_ms a in set_coordinator (fst (touch_presence (sh_coordinator a) record now_ms)) a.

(** The avatar of an admitted client enters the world and the tables. *)
Definition enter_world (entry : PendingAdmit) (client : Z) (a : App) : option (WorldPlayer * App) :=
  '((position, velocity, last_sequence, region, migrated), a) ← placement entry client a;
  let player_id := cc_player_id (pa_credential entry) in
  let '(entity, w) := spawn_player client position (sh_world a) in
  let a := set_world (adopt_entity entity client position velocity last_sequence w) a in
  let player := mkWorldPlayer client player_id entity region (cc_token (pa_credential entry)) last_sequence 0 0 false migrated
                  (rs_configure (sf_interest (sh_config a)) (sf_params (sh_config a)) ReplicationState_blank) in
  let a := set_by_player_id (<[player_id := client]> (sh_by_player_id a)) a in
  let a := match sh_players a !! client with Some _ => a | None => set_sh_players (<[client := player]> (sh_players a)) a end in
  Some (player, a).

Definition world_config_of (a : App) (client : Z) : WorldConfigEvent :=
  let '(entity, region) := match sh_players a !! client with Some p => (pl_entity p, pl_region p) | None => (kInvalidEntity, 0) end in
  mkWorldConfigEvent entity (w_tick (sh_world a)) region (wp_size (sf_params (sh_config a))) (wp_tick_rate (sf_params (sh_config a)))
    (sf_shard_id (sh_config a)).

(** The connection an older session of the player still has. *)
Definition stale_connection (player_id : string) (client : Z) (s : Server) : option Connection :=
  match sh_by_player_id (sv_app s) !! player_id with
  | Some other => if other =? client then None else Connection.find other s
  | None => None
  end.

Definition evict (player_id : string) (client : Z) (s : Server) : Server :=
  match stale_connection player_id client s with
  | Some stale => Connection.disconnect drop_handlers stale "replaced by a newer session" s
  | None => s
  end.

(** [on_connect_]; [None] is the division by zero of a region map without regions. *)
Definition welcome (from : Address) (s : Server) : option Server :=
  match sv_connections s !! from with
  | None => Some s
  | Some connection =>
      let client := cn_client_id connection in
      match sh_pending_admits (sv_app s) !! client with
      | None => Some (Connection.disconnect drop_handlers connection "no admit record" s)
      | Some entry =>
          let player_id := cc_player_id (pa_credential entry) in
          let a := sv_app s in
          let s := set_app (set_pending_admits (delete client (sh_pending_admits a)) (delete player_id (sh_pending_by_player a)) a) s in
          let s := evict player_id client s in
          '(player, a) ← enter_world entry client (sv_app s);
          let s := assign_entity (fun _ => u32 (pl_entity player)) from (set_app a s) in
          let region := default 0 (pl_region <$> (sh_players a !! client)) in
          let a := if sf_advertise (sh_config a) then touch (presence_of a player_id region (cc_token (pa_credential entry))) a else a in
          let s := set_app a s in
          Some match finish (encode_world_config (world_config_of a client) event_buffer) with
               | Some bytes => if 0 <? Z.of_nat (length bytes) then send_event from bytes s else s
               | None => s
               end
      end
  end.

Definition shard_handlers : Handlers App := mkHandlers (Some admit_player) welcome drop_player take_payload (fun _ _ a => a).

(** ** The tick *)
Definition clients_of (loop : nat) (a : App) : list Z := visit (w_tick (sh_world a)) loop ((map_to_list (sh_players a)).*1).

Definition snapshot_capacity (config : WorldServerConfig) : Z :=
  Z.min (ic_max_snapshot_bytes (sf_interest config)) (kMaxDatagramSize - 64 - kSnapshotChannelBytes).

(** One player's snapshot.  The scratch buffer is overwritten by the encoder, so it
    is taken blank. *)
Definition replicate_player (now_us : Z) (s : Server) (client : Z) : Server :=
  let a := sv_app s in
  match sh_players a !! client, Connection.find client s with
  | Some player, Some connection =>
      if pl_redirecting player then s else
      let capacity := snapshot_capacity (sh_config a) in
      let '(bytes, rs) := rs_encode nth_element (sh_world a) (pl_entity player) (pl_last_input_sequence player) (packet_buffer capacity) capacity
                            (pl_replication player) in
      let s := set_app (set_sh_players (<[client := set_pl_replication rs player]> (sh_players a)) a) s in
      match bytes with
      | None => s
      | Some bytes =>
          let s := send_payload (cn_address connection) (channel_code kSnapshot :: bytes) now_us s in
          set_app (add_snapshot (Z.of_nat (length bytes)) (sv_app s)) s
      end
  | _, _ => s
  end.

Definition replicate_all (now_us : Z) (s : Server) : Server := foldl (replicate_player now_us) s (clients_of 1 (sv_app s)).

(** One player of the handoff scan: a player inside its region stays, one that
    crossed into another region of this shard is relabelled, one that crossed into
    a region of another shard is told to go there. *)
Definition migrate_player (s : Server) (client : Z) : option Server :=
  let a := sv_app s in
  match sh_players a !! client with
  | None => Some s
  | Some player =>
      match store_find (pl_entity player) (w_entities (sh_world a)) with
      | None => Some s
      | Some index =>
          let position := es_position (w_entities (sh_world a)) !!! index in
          let velocity := es_velocity (w_entities (sh_world a)) !!! index in
          target ← handoff_target (sf_regions (sh_config a)) (pl_region player) (vec_x position) (vec_y position);
          if target =? kInvalidRegion then Some s else
          if owns_region (sh_coordinator a) target
          then Some (set_app (set_sh_players (<[client := set_pl_region target player]> (sh_players a)) a) s)
          else
            let '(now_ms, a) := wall_ms a in
            '(co, plan) ← plan_handoff (sh_coordinator a) (pl_player_id player) (pl_region player) position velocity
                            (w_tick (sh_world a)) (pl_last_input_sequence player) now_ms;
            let a := set_coordinator co a in
            let s := set_app a s in
            Some match plan with
                 | None => s
                 | Some plan =>
                     let event := mkMigrateRedirectEvent (hp_token plan) (hp_target_region plan) (hp_target_endpoint plan) (hp_target_shard plan) in
                     match finish (encode_migrate_redirect event event_buffer), Connection.find client s with
                     | Some bytes, Some connection =>
                         if Z.of_nat (length bytes) =? 0 then s else
                         let s := send_event (cn_address connection) bytes s in
                         let a := sv_app s in
                         let deadline := u32 (w_tick (sh_world a) + sf_redirect_grace_ticks (sh_config a)) in
                         set_app (bump_migrations_out (set_sh_players (<[client := set_pl_redirecting deadline player]> (sh_players a)) a)) s
                     | _, _ => s
                     end
                 end
      end
  end.

Definition redirect_over (a : App) (player : WorldPlayer) : bool := pl_redirecting player && (pl_redirect_deadline player <=? w_tick (sh_world a)).

Definition scan_player (st : option (Server * list Z)) (client : Z) : option (Server * list Z) :=
  '(s, expired) ← st;
  match sh_players (sv_app s) !! client with
  | None => Some (s, expired)
  | Some player =>
      if pl_redirecting player then Some (s, if redirect_over (sv_app s) player then expired ++ [client] else expired)
      else s ← migrate_player s client; Some (s, expired)
  end.

(** The end of a redirected player's grace. *)
Definition retire_player (s : Server) (client : Z) : Server :=
  match Connection.find client s with
  | Some connection => Connection.disconnect drop_handlers connection "migrated to another shard" s
  | None =>
      let a := sv_app s in
      match sh_players a !! client with
      | None => s
      | Some player =>
          let a := set_world (despawn (pl_entity player) (sh_world a)) a in
          let a := set_by_player_id (delete (pl_player_id player) (sh_by_player_id a)) a in
          set_app (set_sh_players (delete client (sh_players a)) a) s
      end
  end.

Definition check_migrations (s : Server) : option Server :=
  if negb (sf_advertise (sh_config (sv_app s))) then Some s else
  '(s, expired) ← foldl scan_player (Some (s, [])) (clients_of 2 (sv_app s));
  Some (foldl retire_player s expired).

Definition expire_ghosts (now_ms : Z) (a : App) : App := set_ghosts (filter (fun g => ~ gs_expires_ms g.2 <= now_ms) (sh_ghosts a)) a.

Definition expire_tickets (now_ms : Z) (a : App) : App :=
  set_redeemed (filter (fun t => ~ u64 (mt_issued_ms t.2 + kRedeemedTicketTtlMs) < now_ms) (sh_redeemed_tickets a)) a.

Definition queue_touch (a : App) (client : Z) : App :=
  match sh_players a !! client with
  | None => a
  | Some player =>
      if pl_redirecting player then a else
      let '(now_ms, a) := wall_ms a in
      set_coordinator (queue_touch_presence (sh_coordinator a)
        (presence_of a (pl_player_id player) (pl_region player) (pl_session_token player)) now_ms) a
  end.

Definition tick_p99_ms (a : App) : f64 := f64_mul (p99 (sh_tick_histogram a)) (f64_of_Z 1000).

Definition refresh_cluster (a : App) : App :=
  if negb (sf_advertise (sh_config a)) then a else
  let '(now_ms, a) := wall_ms a in
  let '(beat, a) := wall_ms a in
  let a := set_coordinator (fst (refresh (sh_coordinator a) now_ms (u32 (Z.of_nat (size (sh_players a)))) (tick_p99_ms a) false beat)) a in
  if u64 (now_ms - sh_last_presence_refresh_ms a) <? kPresenceRefreshMs then a else
  let a := set_presence_refresh now_ms a in
  let a := foldl queue_touch a (clients_of 3 a) in
  let a := set_coordinator (fst (flush_presence (sh_coordinator a))) a in
  expire_tickets now_ms (expire_ghosts now_ms a).

Definition resident_player_count (a : App) : Z := u32 (Z.of_nat (length (filter (fun p => pl_redirecting p.2 = false) (map_to_list (sh_players a))))).

(** [snprintf] into 48 bytes. *)
Definition number (precision : Z) (value : f64) : string := str_take 47 (print_fixed precision value).

Definition entity_json (s : EntityStore) (i : nat) : string :=
  let q := String quote EmptyString in
  let position := es_position s !!! i in
  "{" +:+ q +:+ "id" +:+ q +:+ ":" +:+ to_string (es_id s !!! i) +:+ "," +:+ q +:+ "x" +:+ q +:+ ":" +:+ number 2 (f64_of_f32 (vec_x position)) +:+
  "," +:+ q +:+ "y" +:+ q +:+ ":" +:+ number 2 (f64_of_f32 (vec_y position)) +:+ "," +:+ q +:+ "kind" +:+ q +:+ ":" +:+ to_string (es_kind s !!! i) +:+ "}".

Definition state_json (a : App) : string :=
  let q := String quote EmptyString in
  let s := w_entities (sh_world a) in
  "{" +:+ q +:+ "shard" +:+ q +:+ ":" +:+ q +:+ sf_shard_id (sh_config a) +:+ q +:+ "," +:+ q +:+ "tick" +:+ q +:+ ":" +:+ to_string (w_tick (sh_world a)) +:+
  "," +:+ q +:+ "world_size" +:+ q +:+ ":" +:+ number 1 (f64_of_f32 (wp_size (sf_params (sh_config a)))) +:+ "," +:+ q +:+ "regions_per_axis" +:+ q +:+ ":" +:+
  to_string (rm_regions_per_axis (sf_regions (sh_config a))) +:+ "," +:+ q +:+ "entities" +:+ q +:+ ":[" +:+
  separated (entity_json s <$> seq 0 (es_size s)) +:+ "]," +:+ q +:+ "owned_regions" +:+ q +:+ ":[" +:+
  separated (to_string <$> owned_regions (sh_coordinator a)) +:+ "]," +:+ q +:+ "players" +:+ q +:+ ":" +:+ to_string (resident_player_count a) +:+
  "," +:+ q +:+ "viewers" +:+ q +:+ ":" +:+ to_string (vs_clients (sh_viewer a)) +:+ "," +:+ q +:+ "tick_p99_ms" +:+ q +:+ ":" +:+ number 3 (tick_p99_ms a) +:+ "}".

(** The bridge only runs when [viewer_hz] is positive ([start_world_server]). *)
Definition publish_viewer_state (now_us : Z) (a : App) : App :=
  if negb (vs_running (sh_viewer a)) then a else
  let interval := 1000000 / sf_viewer_hz (sh_config a) in
  if u64 (now_us - sh_last_viewer_publish_us a) <? interval then a else
  if vs_clients (sh_viewer a) =? 0 then set_viewer (sh_viewer a) now_us a
  else set_viewer (publish (state_json a) (sh_viewer a)) now_us a.

(** [waiting]: the datagrams the socket holds; [elapsed]: the measured duration.
    [None] stands for undefined behaviour or an aborted check. *)
Definition tick (waiting : list Datagram) (now : Z) (elapsed : f64) (s : Server) : option Server :=
  '(_, s) ← receive shard_handlers random waiting now s;
  let w := sh_world (sv_app s) in
  w ← step (visit (w_tick w) 0%nat ((map_to_list (w_players w)).*1)) w;
  let s := set_app (set_world w (sv_app s)) s in
  let s := replicate_all now s in
  s ← check_migrations s;
  let s := timeout_connections shard_handlers now s in
  let s := Connection.flush now s in
  let a := publish_viewer_state now (refresh_cluster (sv_app s)) in
  let a := bump_ticks a in
  Some (set_app (set_tick_histogram (record elapsed (sh_tick_histogram a)) a) s).

(** Reading the socket until the next tick is due: [slices] are the readings of the
    clock and what arrived by then. *)
Fixpoint drain_until (slices : list (Z * list Datagram)) (target_us : Z) (s : Server) : option Server :=
  match slices with
  | [] => Some s
  | (now, waiting) :: slices =>
      if now + 1500 <? target_us
      then '(_, s) ← receive shard_handlers random waiting now s; drain_until slices target_us s
      else Some s
  end.

(** One iteration of [run]; [current] and [after] are readings of the clock.  A tick
    rate of zero divides by zero. *)
Definition run_once (slices : list (Z * list Datagram)) (waiting : list Datagram) (current after : Z) (elapsed : f64)
    (s : Server) (next : Z) : option (Server * Z) :=
  let tick_rate := wp_tick_rate (sf_params (sh_config (sv_app s))) in
  if tick_rate =? 0 then None else
  let tick_us := 1000000 / tick_rate in
  s ← drain_until slices next s;
  s ← tick waiting current elapsed s;
  let next := u64 (next + tick_us) in
  Some (s, if u64 (next + tick_us * 4) <? after then after else next).

(** ** Start, stop and the service *)
Definition drifter_position (params : WorldParams) (i : nat) : Vec2 :=
  let seed := hash_u32 (u32 (Z.of_nat i * 2654435761 + 17)) in
  let axis v := fmul (fdiv (f32_of_Z (v mod 1000)) (f32_of_Z 1000)) (wp_size params) in
  mkVec2 (axis seed) (axis (Z.shiftr seed 10)).

Definition spawn_drifters (count : Z) (params : WorldParams) (w : World) : World :=
  foldl (fun w i => snd (spawn_drifter (drifter_position params i) w)) w (seq 0 (Z.to_nat count)).

Definition shard_config_of (config : WorldServerConfig) (udp_endpoint http_endpoint : string) : ShardConfig :=
  let d := ShardConfig_default in
  mkShardConfig (sf_shard_id config) udp_endpoint http_endpoint (sf_capacity config) (sc_heartbeat_ttl_ms d) (sc_refresh_interval_ms d)
    (sc_presence_ttl_ms d) (sc_ticket_ttl_ms d) (sf_regions config).

(** [udp_open], [ws_bound], [connected]: whether the sockets could be opened and the
    registry reached; the endpoints are the advertised ones. *)
Definition start_world_server (config : WorldServerConfig) (bind : Address) (udp_endpoint http_endpoint : string) (server : R) (rng : G)
    (udp_open ws_bound connected : bool) (now_ms beat : Z) : option Server :=
  w ← World.configure (sf_params config) 64 World_new;
  if negb udp_open then None else
  let viewer := if 0 <? sf_viewer_hz config then snd (viewer_start WebSocketConfig_default ws_bound WebSocketServer_new) else WebSocketServer_new in
  let idle := mkShardCoordinator ShardConfig_default (registry_connect server "") MigrationStore_new [] [] ∅ 0 rng 0 0 0 0 in
  let '(co, joined) := if sf_advertise config
    then start_shard (shard_config_of config udp_endpoint http_endpoint) server (sf_key_prefix config) connected rng now_ms beat else (idle, true) in
  if negb joined then None else
  let w := spawn_drifters (sf_drifters config) (sf_params config) w in
  let a := mkShardState config w co viewer ∅ ∅ ∅ ∅ ∅ ∅ WorldServerStats_zero 1 0 0 Histogram_new 0 in
  Some (Connection.start (mkServerConfig bind (sf_max_connections config) (sf_connection_timeout_us config) (sc_keepalive_us ServerConfig_default)) (server_new a)).

Definition stop_world_server (connected : bool) (s : Server) : Server :=
  let s := Connection.stop (set_app (set_viewer (viewer_stop (sh_viewer (sv_app s))) (sh_last_viewer_publish_us (sv_app s)) (sv_app s)) s) in
  let a := sv_app s in
  if sf_advertise (sh_config a) then set_app (set_coordinator (stop_shard (sh_coordinator a) connected) a) s else s.

(** [page] is the metrics page, [viewer_html] the browser client of the bridge. *)
Definition shard_routes (page : string) (viewer_html : option string) : HttpServer Server :=
  let q := String quote EmptyString in
  let h := HttpServer_new in
  let h := route "GET" "/metrics" (fun _ s => (text_response page, s)) h in
  let h := route "GET" "/health" (fun _ s =>
             (json_response ("{" +:+ q +:+ "ok" +:+ q +:+ ":true," +:+ q +:+ "shard" +:+ q +:+ ":" +:+ q +:+ sf_shard_id (sh_config (sv_app s)) +:+ q +:+ "," +:+
                q +:+ "players" +:+ q +:+ ":" +:+ to_string (Z.of_nat (size (sh_players (sv_app s)))) +:+ "}"), s)) h in
  let h := route "GET" "/state" (fun _ s => (json_response (state_json (sv_app s)), s)) h in
  match viewer_html with
  | Some html => route "GET" "/" (fun _ s => (html_response html, s)) h
  | None => h
  end.
End Server.
