(* ===== verification/Endpoint.v ===== *)
(** * Endpoint: addresses as text ([src/src/net/address.h], [address.cpp])

    Parsing and printing of [host:port].  Turning a host into an IPv4 address is the
    system's work ([inet_pton], [getaddrinfo]): the class [Resolver] stands for it
    and [ResolverLaws] for the one documented fact the round trip uses, that a dotted
    quad denotes its own address. *)

From S2P Require Import Prelude Connection Text.
From Stdlib Require Import ZArith Lia Bool Ascii String.
From stdpp Require Import base tactics numbers list option strings.
#[local] Open Scope Z_scope.

(** ** The system's resolver *)
Class Resolver := { inet_pton : string -> option Z; getaddrinfo : string -> option Z }.

(** What a C function sees of a [std::string]: the bytes before the first zero. *)
Fixpoint c_str (s : string) : string :=
  match s with
  | String c rest => if Ascii.eqb c zero then EmptyString else String c (c_str rest)
  | EmptyString => EmptyString
  end.

Fixpoint str_rfind (c : ascii) (s : string) : option nat :=
  match s with
  | EmptyString => None
  | String d rest =>
      match str_rfind c rest with
      | Some i => Some (S i)
      | None => if Ascii.eqb d c then Some O else None
      end
  end.

(** ** Parsing and printing *)
Definition valid (a : Address) : bool := negb (ad_port a =? 0).

Definition octet (ip : Z) (shift : Z) : Z := Z.land (Z.shiftr ip shift) 0xff.

Definition dotted (ip : Z) : string :=
  to_string (octet ip 24) +:+ "." +:+ to_string (octet ip 16) +:+ "." +:+ to_string (octet ip 8) +:+ "." +:+ to_string (octet ip 0).

(** The buffer of [snprintf] holds every endpoint: 21 bytes at most, of 32. *)
Definition address_text (a : Address) : string := str_take 31 (dotted (ad_ip a) +:+ ":" +:+ to_string (ad_port a)).

(** [*end == 0]: the end of the text or a zero byte in it. *)
Definition at_end (s : string) : bool := match s with EmptyString => true | String c _ => Ascii.eqb c zero end.

Definition parse_port (text : string) : option Z :=
  let '(port, rest) := strtol text in
  if (rest =? text)%string || negb (at_end rest) || (port <=? 0) || (65535 <? port) then None else Some port.

Definition resolve_host `{Resolver} (host : string) : option Z :=
  if (host =? "*")%string || (host =? "0.0.0.0")%string then Some 0 else
  match inet_pton (c_str host) with
  | Some ip => Some ip
  | None => getaddrinfo (c_str host)
  end.

Definition parse_address `{Resolver} (text : string) : option Address :=
  match str_rfind ":" text with
  | None => None
  | Some colon =>
      let host := str_take colon text in
      let port_text := str_drop (colon + 1) text in
      if (host =? "")%string || (port_text =? "")%string then None else
      match parse_port port_text with
      | None => None
      | Some port => ip ← resolve_host host; Some (mkAddress ip (u16 port))
      end
  end.

(** [AddressHash], a 64-bit [size_t]. *)
Definition address_hash (a : Address) : Z := Z.lxor (u64 (Z.shiftl (ad_ip a) 16)) (ad_port a).

(** ** Lemmas *)
Class ResolverLaws `{Resolver} : Prop := { pton_dotted ip : fits 32 ip -> inet_pton (dotted ip) = Some ip }.

Lemma octet_value ip shift : 0 <= shift -> octet ip shift = (ip / 2 ^ shift) mod 256.
Proof. intros Hs. unfold octet. change 255 with (Z.ones 8). by rewrite Z.land_ones, Z.shiftr_div_pow2. Qed.

Lemma octet_range ip shift : 0 <= shift -> 0 <= octet ip shift < 256.
Proof. intros Hs. rewrite octet_value by done. apply Z.mod_pos_bound. lia. Qed.

Lemma octets_value ip : fits 32 ip ->
  octet ip 24 * 2 ^ 24 + octet ip 16 * 2 ^ 16 + octet ip 8 * 2 ^ 8 + octet ip 0 = ip.
Proof. intros Hip. unfold fits in Hip. rewrite !octet_value by lia. Z.to_euclidean_division_equations. lia. Qed.

(** The text of a number below 10^k has at most [k] digits. *)
Lemma print_digits_length fuel : forall n acc k, 0 <= n < 10 ^ Z.of_nat k -> (0 < k)%nat -> (String.length (print_digits fuel n acc) <= k + String.length acc)%nat.
Proof.
  induction fuel as [|fuel IH]; intros n acc k Hn Hk; cbn [print_digits]; [lia|].
  destruct (Z.eqb_spec (n / 10) 0) as [|Hq]; [cbn; lia|]. destruct k as [|k]; [lia|]. rewrite Nat2Z.inj_succ, Z.pow_succ_r in Hn by lia.
  assert (Hd : 0 <= n / 10 < 10 ^ Z.of_nat k) by (split; [apply Z.div_pos; lia|apply Z.div_lt_upper_bound; lia]).
  assert (Hk' : (0 < k)%nat) by (destruct k; [cbn in Hd; lia|lia]).
  specialize (IH (n / 10) (String (digit_char (n mod 10)) acc) k Hd Hk'). cbn [String.length] in IH. lia.
Qed.

Lemma to_string_length n k : 0 <= n < 10 ^ Z.of_nat k -> (0 < k)%nat -> (String.length (to_string n) <= k)%nat.
Proof. intros Hn Hk. pose proof (print_digits_length 20 n EmptyString k Hn Hk) as Hl. change (String.length EmptyString) with 0%nat in Hl. unfold to_string. lia. Qed.

Lemma str_rfind_last c s t : free_of c t = true -> str_rfind c (s +:+ String c t) = Some (String.length s).
Proof.
  intros Ht. assert (Hnone : forall u, free_of c u = true -> str_rfind c u = None).
  { induction u as [|d u IH]; [done|]. cbn [free_of str_rfind]. intros E. apply andb_true_iff in E as [Hd Hu].
    rewrite IH by done. apply negb_true_iff in Hd. by rewrite Hd. }
  induction s as [|d s IH].
  - change (EmptyString +:+ String c t) with (String c t). cbn [str_rfind]. by rewrite Hnone, Ascii.eqb_refl by done.
  - rewrite str_app_cons. cbn [str_rfind]. by rewrite IH.
Qed.

Lemma c_str_free s : free_of zero s = true -> c_str s = s.
Proof.
  induction s as [|c s IH]; [done|]. cbn [free_of c_str]. intros E. apply andb_true_iff in E as [Hc Hs].
  apply negb_true_iff in Hc. by rewrite Hc, IH.
Qed.

Lemma dotted_free c ip : digit_value c = None -> Ascii.eqb "." c = false -> free_of c (dotted ip) = true.
Proof.
  intros Hc Hdot. unfold dotted. rewrite !free_of_app. cbn [free_of]. rewrite Hdot. cbn [negb andb].
  rewrite !to_string_free by done. done.
Qed.

Lemma dotted_length ip : (String.length (dotted ip) <= 15)%nat.
Proof.
  unfold dotted. rewrite !str_length_app. cbn [String.length].
  assert (Ho : forall shift, 0 <= shift -> (String.length (to_string (octet ip shift)) <= 3)%nat).
  { intros shift Hs. apply to_string_length; [|lia]. pose proof (octet_range ip shift Hs). cbn. lia. }
  pose proof (Ho 24 ltac:(lia)); pose proof (Ho 16 ltac:(lia)); pose proof (Ho 8 ltac:(lia)); pose proof (Ho 0 ltac:(lia)). lia.
Qed.

Lemma address_text_whole a : fits 16 (ad_port a) -> address_text a = (dotted (ad_ip a) +:+ ":" +:+ to_string (ad_port a)).
Proof.
  intros Hp. apply str_take_all. rewrite !str_length_app. pose proof (dotted_length (ad_ip a)).
  pose proof (to_string_length (ad_port a) 5) as Hl. unfold fits in Hp. cbn in *. lia.
Qed.

Lemma parse_port_print port : 0 < port < 2 ^ 16 -> parse_port (to_string port) = Some port.
Proof.
  intros Hp. unfold parse_port. pose proof (strtol_to_string port EmptyString ltac:(lia) eq_refl) as E. rewrite str_app_nil in E. rewrite E.
  pose proof (to_string_nonempty port ltac:(lia)) as Hne. rewrite (proj2 (String.eqb_neq _ _)) by congruence.
  rewrite (proj2 (Z.leb_gt _ _)), (proj2 (Z.ltb_ge _ _)) by lia. done.
Qed.

Lemma parse_port_range text port : parse_port text = Some port -> 0 < port < 2 ^ 16.
Proof.
  unfold parse_port. destruct (strtol text) as [p rest].
  destruct ((rest =? text)%string || negb (at_end rest)) eqn:E; [done|]. cbn [orb].
  destruct (Z.leb_spec p 0); [done|]. destruct (Z.ltb_spec 65535 p); [done|]. intros [= <-]. lia.
Qed.

Section Laws.
Context `{ResolverLaws}.

Lemma resolve_dotted ip : fits 32 ip -> resolve_host (dotted ip) = Some ip.
Proof.
  intros Hip. unfold resolve_host. destruct (dotted ip =? "*")%string eqn:E1.
  { apply String.eqb_eq in E1. pose proof (dotted_free "*" ip eq_refl eq_refl) as Hf. by rewrite E1 in Hf. }
  cbn [orb]. destruct (dotted ip =? "0.0.0.0")%string eqn:E2.
  - apply String.eqb_eq in E2. pose proof (pton_dotted ip Hip) as E. rewrite E2 in E.
    pose proof (pton_dotted 0 ltac:(split; lia)) as E0. change (dotted 0) with "0.0.0.0"%string in E0. congruence.
  - rewrite c_str_free by (by apply dotted_free). by rewrite pton_dotted.
Qed.

(** Every endpoint the shards print and pass around is read back as itself, and
    whatever else parses has a port a socket can dial. *)
Theorem address_roundtrip :
  (forall a, fits 32 (ad_ip a) -> fits 16 (ad_port a) -> valid a = true -> parse_address (address_text a) = Some a) /\
  (forall text a, parse_address text = Some a -> valid a = true /\ fits 16 (ad_port a)).
Proof.
  split.
  - intros a Hip Hport Hv. unfold valid in Hv. apply negb_true_iff, Z.eqb_neq in Hv. rewrite address_text_whole by done.
    unfold parse_address. change (":" +:+ to_string (ad_port a)) with (String ":" (to_string (ad_port a))).
    rewrite str_rfind_last by (by apply to_string_free).
    rewrite str_take_app, <- str_drop_drop, str_drop_app. cbn [str_drop].
    pose proof (to_string_nonempty (ad_port a) ltac:(unfold fits in Hport; lia)) as Hne.
    assert (Hd : dotted (ad_ip a) <> EmptyString).
    { intros E. apply (f_equal String.length) in E. unfold dotted in E. rewrite !str_length_app in E. cbn [String.length] in E. lia. }
    rewrite !(proj2 (String.eqb_neq _ _)) by done. cbn [orb].
    rewrite parse_port_print by (unfold fits in Hport; lia). rewrite resolve_dotted by done. cbn. rewrite wrap_small by done. by destruct a.
  - intros text a. unfold parse_address. destruct (str_rfind ":" text) as [colon|]; [|done].
    case_match; [done|]. destruct (parse_port _) as [port|] eqn:Ep; [|done]. apply parse_port_range in Ep.
    destruct (resolve_host _) as [ip|]; [|done]. cbn. intros [= <-]. cbn [valid ad_port]. unfold valid. cbn [ad_port].
    rewrite wrap_small by (unfold fits; lia). split; [apply negb_true_iff, Z.eqb_neq; lia|unfold fits; lia].
Qed.

(** The hash that keys the connection table never collides. *)
Lemma address_hash_perfect a b : fits 32 (ad_ip a) -> fits 16 (ad_port a) -> fits 32 (ad_ip b) -> fits 16 (ad_port b) ->
  address_hash a = address_hash b -> a = b.
Proof.
  assert (Hsum : forall c, fits 32 (ad_ip c) -> fits 16 (ad_port c) -> address_hash c = ad_ip c * 2 ^ 16 + ad_port c).
  { intros [ip port] Hip Hp. unfold address_hash, fits in *. cbn [ad_ip ad_port] in *. rewrite Z.shiftl_mul_pow2 by lia.
    rewrite wrap_small by (unfold fits; lia). rewrite <- Z.add_nocarry_lxor; [done|]. apply Z.bits_inj'. intros i Hi.
    rewrite Z.land_spec, Z.bits_0. destruct (Z.lt_ge_cases i 16).
    - rewrite Z.mul_pow2_bits_low by lia. done.
    - rewrite (Z.bits_above_log2 port i), andb_false_r; try done; try lia.
      destruct (Z.eq_dec port 0) as [->|]; [cbn; lia|]. apply Z.log2_lt_pow2; [lia|]. apply Z.lt_le_trans with (2 ^ 16); [lia|]. apply Z.pow_le_mono_r; lia. }
  intros Ha Hpa Hb Hpb. rewrite !Hsum by done. unfold fits in *. intros E. destruct a as [i p], b as [j q]. cbn [ad_ip ad_port] in *.
  f_equal; lia.
Qed.
End Laws.

(** ** A resolver of dotted quads *)
Definition read_octet (s : string) : option (Z * string) :=
  let '(value, rest) := strtol s in if starts_with_digit s && (value <=? 255) then Some (value, rest) else None.

Definition skip_dot (s : string) : option string := match s with String "." rest => Some rest | _ => None end.

Definition read_quad (s : string) : option Z :=
  '(a, s) ← read_octet s; s ← skip_dot s; '(b, s) ← read_octet s; s ← skip_dot s;
  '(c, s) ← read_octet s; s ← skip_dot s; '(d, s) ← read_octet s;
  if (s =? "")%string then Some (a * 2 ^ 24 + b * 2 ^ 16 + c * 2 ^ 8 + d) else None.

Lemma read_octet_print n rest : 0 <= n < 256 -> starts_with_digit rest = false -> read_octet (to_string n +:+ rest) = Some (n, rest).
Proof.
  intros Hn Hr. unfold read_octet. rewrite strtol_to_string by (try done; lia).
  assert (Hd : starts_with_digit (to_string n +:+ rest) = true).
  { unfold to_string. rewrite print_digits_app. destruct (print_digits_head 20 n (EmptyString +:+ rest) ltac:(lia) ltac:(lia)) as (d & t & Hd & ->).
    cbn [starts_with_digit]. by rewrite digit_value_char. }
  by rewrite Hd, (proj2 (Z.leb_le _ _)) by lia.
Qed.

#[local] Instance plain_resolver : Resolver := {| inet_pton := read_quad; getaddrinfo := fun _ => None |}.

Lemma read_octet_dot n rest : 0 <= n < 256 -> read_octet (to_string n +:+ "." +:+ rest) = Some (n, "." +:+ rest).
Proof. intros Hn. by apply read_octet_print. Qed.

#[local] Instance plain_resolver_laws : ResolverLaws.
Proof.
  split. intros ip Hip. cbn [inet_pton plain_resolver]. unfold read_quad, dotted.
  assert (Ho : forall shift, 0 <= shift -> 0 <= octet ip shift < 256) by (intros; by apply octet_range).
  assert (Hdot : forall s, skip_dot ("." +:+ s) = Some s) by done.
  rewrite <- (str_app_nil (to_string (octet ip 0))).
  do 3 (rewrite read_octet_dot by (apply Ho; lia); cbn [mbind option_bind]; rewrite Hdot; cbn [mbind option_bind]).
  rewrite read_octet_print by (try done; apply Ho; lia). cbn [mbind option_bind String.eqb]. by rewrite octets_value.
Qed.

Lemma address_roundtrip_witness :
  address_text (mkAddress 0x7f000001 7777) = "127.0.0.1:7777"%string /\
  parse_address (address_text (mkAddress 0x7f000001 7777)) = Some (mkAddress 0x7f000001 7777) /\
  parse_address "*:80" = Some (mkAddress 0 80) /\ parse_address "10.0.0.1:0" = None /\ parse_address "10.0.0.1:65536" = None /\
  parse_address "10.0.0.1" = None /\ parse_address "nowhere:80" = None.
Proof.
  split; [reflexivity|]. split; [|repeat split; reflexivity].
  apply address_roundtrip; [split; cbn; lia|split; cbn; lia|reflexivity].
Defined.
