(* ===== verification/UdpSocket.v ===== *)
(** * UdpSocket: batched datagrams ([src/src/net/udp_socket.h], [udp_socket.cpp])

    The socket the transport sends and receives through, as it is on Linux: sends may
    be collected in a batch that goes to the kernel in few calls, and receives are
    served from a batch the kernel filled.  The system calls' results are arguments,
    one per call; [us_wire] and [us_heard] are not in the code, they log what the
    kernel took and what it gave. *)

From S2P Require Import Prelude Connection Endpoint.
From Stdlib Require Import ZArith Lia Bool.
From stdpp Require Import base tactics numbers list option.
#[local] Open Scope Z_scope.

Definition kBatchSize : nat := 64.

(** ** Data *)
Record UdpSocket := mkUdpSocket {
  us_open : bool;
  us_local : Address;
  us_pending : list Datagram;
  us_recv : list Datagram;
  us_recv_next : nat;
  us_last_overflow : Z;
  us_overflow_seen : bool;
  us_bytes_sent : Z;
  us_bytes_received : Z;
  us_packets_sent : Z;
  us_packets_received : Z;
  us_send_failures : Z;
  us_receive_drops : Z;
  us_calls : nat;
  us_wire : list Datagram;
  us_heard : list Datagram
}.

Definition UdpSocket_new : UdpSocket := mkUdpSocket false (mkAddress 0 0) [] [] 0 0 false 0 0 0 0 0 0 0 [] [].

Definition set_fd (open : bool) (local : Address) (s : UdpSocket) : UdpSocket :=
  mkUdpSocket open local (us_pending s) (us_recv s) (us_recv_next s) (us_last_overflow s) (us_overflow_seen s) (us_bytes_sent s) (us_bytes_received s)
    (us_packets_sent s) (us_packets_received s) (us_send_failures s) (us_receive_drops s) (us_calls s) (us_wire s) (us_heard s).
Definition set_pending_sends (pending : list Datagram) (s : UdpSocket) : UdpSocket :=
  mkUdpSocket (us_open s) (us_local s) pending (us_recv s) (us_recv_next s) (us_last_overflow s) (us_overflow_seen s) (us_bytes_sent s) (us_bytes_received s)
    (us_packets_sent s) (us_packets_received s) (us_send_failures s) (us_receive_drops s) (us_calls s) (us_wire s) (us_heard s).
Definition set_recv (recv : list Datagram) (next : nat) (s : UdpSocket) : UdpSocket :=
  mkUdpSocket (us_open s) (us_local s) (us_pending s) recv next (us_last_overflow s) (us_overflow_seen s) (us_bytes_sent s) (us_bytes_received s)
    (us_packets_sent s) (us_packets_received s) (us_send_failures s) (us_receive_drops s) (us_calls s) (us_wire s) (us_heard s).
Definition set_overflow_seen (last : Z) (seen : bool) (drops : Z) (s : UdpSocket) : UdpSocket :=
  mkUdpSocket (us_open s) (us_local s) (us_pending s) (us_recv s) (us_recv_next s) last seen (us_bytes_sent s) (us_bytes_received s)
    (us_packets_sent s) (us_packets_received s) (us_send_failures s) drops (us_calls s) (us_wire s) (us_heard s).
Definition count_call (s : UdpSocket) : UdpSocket :=
  mkUdpSocket (us_open s) (us_local s) (us_pending s) (us_recv s) (us_recv_next s) (us_last_overflow s) (us_overflow_seen s) (us_bytes_sent s) (us_bytes_received s)
    (us_packets_sent s) (us_packets_received s) (us_send_failures s) (us_receive_drops s) (S (us_calls s)) (us_wire s) (us_heard s).
Definition count_failures (n : Z) (s : UdpSocket) : UdpSocket :=
  mkUdpSocket (us_open s) (us_local s) (us_pending s) (us_recv s) (us_recv_next s) (us_last_overflow s) (us_overflow_seen s) (us_bytes_sent s) (us_bytes_received s)
    (us_packets_sent s) (us_packets_received s) (u64 (us_send_failures s + n)) (us_receive_drops s) (us_calls s) (us_wire s) (us_heard s).

Definition datagram_size (d : Datagram) : Z := Z.of_nat (length d.2).

(** One datagram the kernel took, and one it gave. *)
Definition count_taken (s : UdpSocket) (d : Datagram) : UdpSocket :=
  mkUdpSocket (us_open s) (us_local s) (us_pending s) (us_recv s) (us_recv_next s) (us_last_overflow s) (us_overflow_seen s)
    (u64 (us_bytes_sent s + datagram_size d)) (us_bytes_received s) (u64 (us_packets_sent s + 1)) (us_packets_received s) (us_send_failures s)
    (us_receive_drops s) (us_calls s) (us_wire s ++ [d]) (us_heard s).
Definition count_given (s : UdpSocket) (d : Datagram) : UdpSocket :=
  mkUdpSocket (us_open s) (us_local s) (us_pending s) (us_recv s) (us_recv_next s) (us_last_overflow s) (us_overflow_seen s)
    (us_bytes_sent s) (u64 (us_bytes_received s + datagram_size d)) (us_packets_sent s) (u64 (us_packets_received s + 1)) (us_send_failures s)
    (us_receive_drops s) (us_calls s) (us_wire s) (us_heard s ++ [d]).

(** What [recvmmsg] answers: an error, soft or not, or messages, the newest with the
    drop counters its control data holds. *)
Inductive Received :=
  | RecvError (soft : bool)
  | RecvBatch (messages : list Datagram) (totals : list Z).

Section Socket.
(** The [i]-th call of [sendmmsg], for [n] messages, and of [recvmmsg]. *)
Context (sendmmsg : nat -> nat -> Z) (recvmmsg : nat -> Received).

(** ** Sending *)
(** [sent]: what [sendto] returns. *)
Definition socket_send (to : Address) (data : list Z) (sent : Z) (s : UdpSocket) : bool * UdpSocket :=
  if negb (us_open s) || (Z.of_nat (length data) =? 0) then (false, s) else
  if sent <? 0 then (false, count_failures 1 s) else
  (true, mkUdpSocket (us_open s) (us_local s) (us_pending s) (us_recv s) (us_recv_next s) (us_last_overflow s) (us_overflow_seen s)
    (u64 (us_bytes_sent s + sent)) (us_bytes_received s) (u64 (us_packets_sent s + 1)) (us_packets_received s) (us_send_failures s)
    (us_receive_drops s) (us_calls s) (us_wire s ++ [(to, data)]) (us_heard s)).

Fixpoint flush_loop (fuel : nat) (messages : list Datagram) (s : UdpSocket) : UdpSocket :=
  match fuel, messages with
  | S fuel, _ :: _ =>
      let result := sendmmsg (us_calls s) (length messages) in
      let s := count_call s in
      if result <=? 0 then count_failures (Z.of_nat (length messages)) s
      else flush_loop fuel (drop (Z.to_nat result) messages) (foldl count_taken s (take (Z.to_nat result) messages))
  | _, _ => s
  end.

Definition flush_sends (s : UdpSocket) : UdpSocket :=
  match us_pending s with
  | [] => s
  | messages =>
      let s := set_pending_sends [] s in
      if negb (us_open s) then s else flush_loop (length messages) messages s
  end.

Definition send_batched (to : Address) (data : list Z) (s : UdpSocket) : bool * UdpSocket :=
  let size := Z.of_nat (length data) in
  if negb (us_open s) || (size =? 0) || (kMaxDatagramSize <? size) then (false, s) else
  let s := if decide (length (us_pending s) = kBatchSize) then flush_sends s else s in
  (true, set_pending_sends (us_pending s ++ [(to, data)]) s).

(** ** Receiving *)
Definition note_overflow (s : UdpSocket) (total : Z) : UdpSocket :=
  set_overflow_seen total true
    (if us_overflow_seen s then u64 (us_receive_drops s + u32 (total - us_last_overflow s)) else us_receive_drops s) s.

(** The kernel fills buffers of [kMaxDatagramSize] bytes, and cuts what is longer. *)
Definition cut_datagram (d : Datagram) : Datagram := (d.1, take (Z.to_nat kMaxDatagramSize) d.2).

Definition refill (s : UdpSocket) : Z * UdpSocket :=
  let answer := recvmmsg (us_calls s) in
  let s := count_call (set_recv [] 0 s) in
  match answer with
  | RecvError soft => (if soft then 0 else -1, s)
  | RecvBatch messages totals =>
      let messages := cut_datagram <$> messages in
      let s := set_recv messages 0 s in
      let s := match messages with [] => s | _ => foldl note_overflow s totals end in
      let s := foldl count_given s messages in
      (if 0 <? Z.of_nat (length messages) then 1 else 0, s)
  end.

(** The result, and the datagram when there is one. *)
Definition socket_receive (capacity : Z) (s : UdpSocket) : Z * option Datagram * UdpSocket :=
  if negb (us_open s) then (-1, None, s) else
  let '(result, s) := if decide (us_recv_next s = length (us_recv s)) then refill s else (1, s) in
  if result <=? 0 then (result, None, s) else
  match us_recv s !! us_recv_next s with
  | None => (0, None, s)
  | Some (from, data) =>
      let data := take (Z.to_nat capacity) data in
      (Z.of_nat (length data), Some (from, data), set_recv (us_recv s) (S (us_recv_next s)) s)
  end.

(** [readable]: whether [poll] says so. *)
Definition wait_readable (readable : bool) (s : UdpSocket) : bool :=
  if negb (us_open s) then false else if decide (us_recv_next s < length (us_recv s))%nat then true else readable.

(** ** Opening, closing and moving *)
Definition socket_close (s : UdpSocket) : UdpSocket :=
  let s := if us_open s then set_fd false (us_local s) (flush_sends s) else s in
  set_overflow_seen (us_last_overflow s) false (us_receive_drops s) (set_recv [] 0 (set_pending_sends [] s)).

(** The buffer size that is asked for in the end: halved until the kernel accepts. *)
Fixpoint buffer_request (fuel : nat) (accepts : Z -> bool) (size : Z) : option Z :=
  match fuel with
  | O => None
  | S fuel => if 65536 <? size then if accepts size then Some size else buffer_request fuel accepts (Z.quot size 2) else None
  end.

(** The results of [socket], [bind], [getsockname] and the two [fcntl]. *)
Record OpenCalls := mkOpenCalls { oc_socket : bool; oc_bind : bool; oc_name : option Address; oc_fcntl : bool }.

Definition socket_open (bind_address : Address) (calls : OpenCalls) (s : UdpSocket) : bool * UdpSocket :=
  let s := socket_close s in
  if negb (oc_socket calls) then (false, s) else
  let s := set_fd true (us_local s) s in
  if negb (oc_bind calls) then (false, socket_close s) else
  let s := set_fd true (default bind_address (oc_name calls)) s in
  if negb (oc_fcntl calls) then (false, socket_close s) else (true, s).

(** [*this = std::move(other)]: what was here is closed, what was there is empty. *)
Definition socket_move (other : UdpSocket) : UdpSocket * UdpSocket :=
  (other, set_recv [] 0 (set_pending_sends [] (set_fd false (us_local other) other))).
End Socket.

(** ** Other systems *)
(** Where there are no batch calls the loops go datagram by datagram: [sendto] and
    [recvfrom] answer call by call; [inr soft] is an error. *)
Section Portable.
Context (sendto : nat -> Z) (recvfrom : nat -> Datagram + bool).

Definition count_single (bytes : Z) (d : Datagram) (s : UdpSocket) : UdpSocket :=
  mkUdpSocket (us_open s) (us_local s) (us_pending s) (us_recv s) (us_recv_next s) (us_last_overflow s) (us_overflow_seen s)
    (u64 (us_bytes_sent s + bytes)) (us_bytes_received s) (u64 (us_packets_sent s + 1)) (us_packets_received s) (us_send_failures s)
    (us_receive_drops s) (us_calls s) (us_wire s ++ [d]) (us_heard s).

Fixpoint flush_each (messages : list Datagram) (s : UdpSocket) : UdpSocket :=
  match messages with
  | [] => s
  | d :: messages =>
      let result := sendto (us_calls s) in
      let s := count_call s in
      flush_each messages (if result <? 0 then count_failures 1 s else count_single result d s)
  end.

Definition flush_sends_portable (s : UdpSocket) : UdpSocket :=
  match us_pending s with
  | [] => s
  | messages =>
      let s := set_pending_sends [] s in
      if negb (us_open s) then s else flush_each messages s
  end.

(** [false]: an error that is not soft before anything was received. *)
Fixpoint refill_each (n : nat) (s : UdpSocket) : bool * UdpSocket :=
  match n with
  | O => (true, s)
  | S n =>
      let answer := recvfrom (us_calls s) in
      let s := count_call s in
      match answer with
      | inl d => refill_each n (set_recv (us_recv s ++ [cut_datagram d]) 0 s)
      | inr soft => (negb (match us_recv s with [] => true | _ => false end && negb soft), s)
      end
  end.

Definition refill_portable (s : UdpSocket) : Z * UdpSocket :=
  let '(ok, s) := refill_each kBatchSize (set_recv [] 0 s) in
  if negb ok then (-1, s) else
  let s := foldl count_given s (us_recv s) in
  (if 0 <? Z.of_nat (length (us_recv s)) then 1 else 0, s).
End Portable.

(** ** What a socket does with datagrams *)
Section Runs.
Context (sendmmsg : nat -> nat -> Z) (recvmmsg : nat -> Received).

Inductive SocketOp := OpBatch (to : Address) (data : list Z) | OpFlush | OpReceive.

(** A socket, the datagrams [send_batched] accepted and those [receive] handed out. *)
Record SocketLog := mkSocketLog { sl_socket : UdpSocket; sl_accepted : list Datagram; sl_delivered : list Datagram }.

Definition socket_step (l : SocketLog) (op : SocketOp) : SocketLog :=
  match op with
  | OpBatch to data =>
      let '(ok, s) := send_batched sendmmsg to data (sl_socket l) in
      mkSocketLog s (if ok then sl_accepted l ++ [(to, data)] else sl_accepted l) (sl_delivered l)
  | OpFlush => mkSocketLog (flush_sends sendmmsg (sl_socket l)) (sl_accepted l) (sl_delivered l)
  | OpReceive =>
      let '(_, d, s) := socket_receive recvmmsg kMaxDatagramSize (sl_socket l) in
      mkSocketLog s (sl_accepted l) (match d with Some d => sl_delivered l ++ [d] | None => sl_delivered l end)
  end.

Definition total_size (l : list Datagram) : Z := foldr (fun d n => datagram_size d + n) 0 l.

Lemma total_size_app l k : total_size (l ++ k) = total_size l + total_size k.
Proof. induction l as [|d l IH]; [done|]. cbn [app total_size foldr]. fold (total_size (l ++ k)) (total_size l). lia. Qed.

(** The system calls, as documented: no more messages than were offered, or fit. *)
Definition kernel_ok : Prop :=
  (forall i n, sendmmsg i n <= Z.of_nat n) /\ (forall i l totals, recvmmsg i = RecvBatch l totals -> (length l <= kBatchSize)%nat).

(** *** The sending half *)
Definition same_receiving (s s' : UdpSocket) : Prop :=
  us_recv s' = us_recv s /\ us_recv_next s' = us_recv_next s /\ us_heard s' = us_heard s /\ us_packets_received s' = us_packets_received s /\
  us_bytes_received s' = us_bytes_received s /\ us_open s' = us_open s.

(** [rest]: what is accepted and still has to go to the kernel. *)
Record sending (accepted rest : list Datagram) (s : UdpSocket) : Prop := {
  so_order : us_wire s ++ rest `sublist_of` accepted;
  so_packets : us_packets_sent s = u64 (Z.of_nat (length (us_wire s)));
  so_bytes : us_bytes_sent s = u64 (total_size (us_wire s));
  so_failures : us_send_failures s = u64 (Z.of_nat (length accepted) - Z.of_nat (length (us_wire s)) - Z.of_nat (length rest));
  so_all : (forall i n, (0 < n)%nat -> 0 < sendmmsg i n) -> us_wire s ++ rest = accepted
}.

Lemma taken_sending accepted l : forall rest s, sending accepted (l ++ rest) s ->
  sending accepted rest (foldl count_taken s l) /\ same_receiving s (foldl count_taken s l) /\ us_pending (foldl count_taken s l) = us_pending s.
Proof.
  induction l as [|d l IH]; intros rest s Hs; [by repeat split; apply Hs|]. cbn [foldl]. destruct Hs as [S1 S2 S3 S4 S5].
  destruct (IH rest (count_taken s d)) as (H1 & H2 & H3); [|by split_and!].
  split; cbn [us_wire us_packets_sent us_bytes_sent us_send_failures count_taken].
  - by rewrite <- app_assoc.
  - rewrite S2, wrap_add_l, length_app, Nat2Z.inj_add. done.
  - rewrite S3, wrap_add_l, total_size_app. cbn [total_size foldr]. f_equal. lia.
  - rewrite S4, !length_app. cbn [length]. f_equal. lia.
  - intros Hk. rewrite <- app_assoc. by apply S5.
Qed.

Lemma flush_loop_sending accepted fuel : forall messages s, (length messages <= fuel)%nat -> kernel_ok -> sending accepted messages s ->
  let s' := flush_loop sendmmsg fuel messages s in sending accepted [] s' /\ same_receiving s s' /\ us_pending s' = us_pending s.
Proof.
  induction fuel as [|fuel IH]; intros [|d l] s Hl Hk Hs; cbn [flush_loop]; try (by split_and!); [cbn in Hl; lia|].
  set (messages := d :: l) in *. set (result := sendmmsg _ _). set (s1 := count_call s). destruct (Z.leb_spec result 0) as [Hr|Hr].
  - split; [|done]. destruct Hs as [S1 S2 S3 S4 S5]. split; cbn [us_wire us_packets_sent us_bytes_sent us_send_failures count_failures s1 count_call]; try done.
    + rewrite app_nil_r. etransitivity; [|exact S1]. by apply sublist_inserts_r.
    + rewrite S4, wrap_add_l. f_equal. cbn [length]. lia.
    + intros Hgood. specialize (Hgood (us_calls s) (length messages) ltac:(cbn; lia)). fold result in Hgood. lia.
  - assert (Hs1 : sending accepted (take (Z.to_nat result) messages ++ drop (Z.to_nat result) messages) s1) by (rewrite take_drop; by destruct Hs; split).
    destruct (taken_sending _ _ _ _ Hs1) as (H1 & H2 & H3). set (s2 := foldl count_taken s1 _) in *.
    destruct (IH (drop (Z.to_nat result) messages) s2) as (I1 & I2 & I3); [rewrite length_drop; cbn [messages length] in *; lia|done|done|].
    split; [done|]. split; [|by rewrite I3, H3]. destruct H2 as (? & ? & ? & ? & ? & ?), I2 as (? & ? & ? & ? & ? & ?). repeat split; etransitivity; eauto.
Qed.

Lemma flush_sends_ok accepted s : kernel_ok -> us_open s = true -> sending accepted (us_pending s) s ->
  let s' := flush_sends sendmmsg s in sending accepted [] s' /\ same_receiving s s' /\ us_pending s' = [].
Proof.
  intros Hk Ho Hs. unfold flush_sends. destruct (us_pending s) as [|d l] eqn:Ep; [by split_and!|]. cbn [us_open set_pending_sends]. rewrite Ho. cbn [negb].
  set (s1 := set_pending_sends [] s). destruct (flush_loop_sending accepted (length (d :: l)) (d :: l) s1) as (H1 & H2 & H3); [done|done|by destruct Hs; split|].
  by split_and!.
Qed.

(** *** The receiving half *)
Definition same_sending (s s' : UdpSocket) : Prop :=
  us_wire s' = us_wire s /\ us_pending s' = us_pending s /\ us_packets_sent s' = us_packets_sent s /\ us_bytes_sent s' = us_bytes_sent s /\
  us_send_failures s' = us_send_failures s /\ us_open s' = us_open s.

Record receiving (delivered : list Datagram) (s : UdpSocket) : Prop := {
  re_index : (us_recv_next s <= length (us_recv s) <= kBatchSize)%nat;
  re_order : delivered ++ drop (us_recv_next s) (us_recv s) = us_heard s;
  re_cut : Forall (fun d => datagram_size d <= kMaxDatagramSize) (us_recv s);
  re_packets : us_packets_received s = u64 (Z.of_nat (length (us_heard s)));
  re_bytes : us_bytes_received s = u64 (total_size (us_heard s))
}.

Lemma given_spec l : forall s, us_packets_received s = u64 (Z.of_nat (length (us_heard s))) -> us_bytes_received s = u64 (total_size (us_heard s)) ->
  let s' := foldl count_given s l in
  us_heard s' = us_heard s ++ l /\ us_packets_received s' = u64 (Z.of_nat (length (us_heard s'))) /\ us_bytes_received s' = u64 (total_size (us_heard s')) /\
  us_recv s' = us_recv s /\ us_recv_next s' = us_recv_next s /\ same_sending s s'.
Proof.
  induction l as [|d l IH]; intros s Hp Hb; [cbn [foldl]; rewrite app_nil_r; by split_and!|]. cbn [foldl].
  destruct (IH (count_given s d)) as (H1 & H2 & H3 & H4 & H5 & H6); cbn [us_heard us_packets_received us_bytes_received count_given] in *.
  - rewrite Hp, wrap_add_l, length_app, Nat2Z.inj_add. done.
  - rewrite Hb, wrap_add_l, total_size_app. cbn [total_size foldr]. f_equal. lia.
  - split; [by rewrite H1, <- app_assoc|]. by split_and!.
Qed.

Lemma overflow_same totals : forall s, let s' := foldl note_overflow s totals in
  us_heard s' = us_heard s /\ us_packets_received s' = us_packets_received s /\ us_bytes_received s' = us_bytes_received s /\
  us_recv s' = us_recv s /\ us_recv_next s' = us_recv_next s /\ same_sending s s'.
Proof. induction totals as [|t totals IH]; intros s; [done|]. cbn [foldl]. destruct (IH (note_overflow s t)) as (E1 & E2 & E3 & E4 & E5 & E6). by split_and!. Qed.

Lemma refill_ok delivered s : kernel_ok -> receiving delivered s -> us_recv_next s = length (us_recv s) ->
  let '(result, s') := refill recvmmsg s in receiving delivered s' /\ same_sending s s' /\ us_recv_next s' = 0%nat /\
    (0 < result -> us_recv s' <> []).
Proof.
  intros [_ Hk] [R1 R2 R3 R4 R5] En. unfold refill. rewrite En, drop_all, app_nil_r in R2.
  destruct (recvmmsg (us_calls s)) as [soft|messages totals] eqn:Ek.
  - split; [|by destruct soft]. split; cbn; [lia|by rewrite app_nil_r|by constructor|done|done].
  - specialize (Hk _ _ _ Ek). set (cut := cut_datagram <$> messages). set (s1 := set_recv cut 0 (count_call (set_recv [] 0 s))).
    match goal with |- context [foldl count_given ?x cut] => set (s2 := x) end.
    assert (E : us_heard s2 = us_heard s /\ us_packets_received s2 = us_packets_received s /\ us_bytes_received s2 = us_bytes_received s /\
      us_recv s2 = cut /\ us_recv_next s2 = 0%nat /\ same_sending s s2).
    { subst s2. destruct cut as [|d l]; [by split_and!|]. destruct (overflow_same totals s1) as (E1 & E2 & E3 & E4 & E5 & E6). by split_and!. }
    destruct E as (E1 & E2 & E3 & E4 & E5 & E6). clearbody s2.
    destruct (given_spec cut s2) as (H1 & H2 & H3 & H4 & H5 & H6); [by rewrite E1, E2|by rewrite E1, E3|].
    split; [|split; [|split; [congruence|]]].
    + split; rewrite ?H4, ?H5, ?E4, ?E5; [unfold cut; rewrite length_fmap; lia|by rewrite H1, E1, drop_0, R2| |done|done].
      apply Forall_fmap, Forall_true. intros d. unfold compose, datagram_size, cut_datagram. cbn [snd]. rewrite length_take. unfold kMaxDatagramSize. lia.
    + destruct E6 as (? & ? & ? & ? & ? & ?), H6 as (? & ? & ? & ? & ? & ?). repeat split; etransitivity; eauto.
    + rewrite H4, E4. destruct cut; [by cbn|done].
Qed.

Lemma socket_receive_ok delivered s : kernel_ok -> us_open s = true -> receiving delivered s ->
  let '(_, d, s') := socket_receive recvmmsg kMaxDatagramSize s in
  receiving (match d with Some d => delivered ++ [d] | None => delivered end) s' /\ same_sending s s'.
Proof.
  intros Hk Ho Hr. unfold socket_receive. rewrite Ho. cbn [negb].
  assert (Hf : exists result s1, (if decide (us_recv_next s = length (us_recv s)) then refill recvmmsg s else (1, s)) = (result, s1) /\
    receiving delivered s1 /\ same_sending s s1 /\ (0 < result -> is_Some (us_recv s1 !! us_recv_next s1))).
  { destruct (decide (us_recv_next s = length (us_recv s))) as [En|Hne].
    - pose proof (refill_ok delivered s Hk Hr En) as Hf. destruct (refill recvmmsg s) as [result s1]. destruct Hf as (F1 & F2 & F3 & F4).
      exists result, s1. split_and!; try done. intros Hres. specialize (F4 Hres). rewrite F3. by destruct (us_recv s1).
    - exists 1, s. split_and!; try done. intros _. apply lookup_lt_is_Some. pose proof (re_index _ _ Hr). lia. }
  destruct Hf as (result & s1 & -> & Hr1 & Hs1 & Hsome). destruct (Z.leb_spec result 0); [done|].
  destruct (Hsome ltac:(lia)) as [[from data] Hd]. rewrite Hd. destruct Hr1 as [R1 R2 R3 R4 R5].
  assert (Hcut : take (Z.to_nat kMaxDatagramSize) data = data).
  { apply take_ge. rewrite Forall_lookup in R3. specialize (R3 _ _ Hd). unfold datagram_size in R3. cbn in R3. lia. }
  rewrite Hcut. split; [|done]. split; cbn [us_recv us_recv_next us_heard us_packets_received us_bytes_received set_recv]; try done.
  - apply lookup_lt_Some in Hd. lia.
  - rewrite <- R2, <- app_assoc. f_equal. symmetry. by apply drop_S.
Qed.

(** *** Both halves *)
Record log_ok (l : SocketLog) : Prop := {
  lo_open : us_open (sl_socket l) = true;
  lo_pending : (length (us_pending (sl_socket l)) <= kBatchSize)%nat;
  lo_sending : sending (sl_accepted l) (us_pending (sl_socket l)) (sl_socket l);
  lo_receiving : receiving (sl_delivered l) (sl_socket l)
}.

Lemma receiving_same delivered s s' : same_receiving s s' -> receiving delivered s -> receiving delivered s'.
Proof. intros (E1 & E2 & E3 & E4 & E5 & _) []. by split; rewrite ?E1, ?E2, ?E3, ?E4, ?E5. Qed.

Lemma sending_same accepted s s' : same_sending s s' -> sending accepted (us_pending s) s -> sending accepted (us_pending s') s'.
Proof. intros (E1 & E2 & E3 & E4 & E5 & _) []. by split; rewrite ?E1, ?E2, ?E3, ?E4, ?E5. Qed.

(** A datagram enters the batch. *)
Lemma batch_sending accepted pending d s : sending accepted pending s ->
  sending (accepted ++ [d]) (pending ++ [d]) (set_pending_sends (pending ++ [d]) s).
Proof.
  intros [S1 S2 S3 S4 S5]. split; cbn [us_wire us_packets_sent us_bytes_sent us_send_failures set_pending_sends]; try done.
  - rewrite app_assoc. by apply sublist_app.
  - rewrite S4, !length_app. f_equal. lia.
  - intros Hk. rewrite app_assoc. by rewrite S5.
Qed.

Lemma socket_step_ok l op : kernel_ok -> log_ok l -> log_ok (socket_step l op).
Proof.
  intros Hk [L1 L2 L3 L4]. destruct l as [s accepted delivered]. cbn [sl_socket sl_accepted sl_delivered] in *. destruct op as [to data| |]; cbn [socket_step sl_socket sl_accepted sl_delivered].
  - unfold send_batched. rewrite L1. cbn [negb orb]. destruct (_ || _); [by split|].
    destruct (decide (length (us_pending s) = kBatchSize)) as [|Hne].
    + destruct (flush_sends_ok accepted s Hk L1 L3) as (H1 & H2 & H3). rewrite H3. split; cbn [sl_socket sl_accepted sl_delivered].
      * destruct H2 as (_ & _ & _ & _ & _ & E). by rewrite <- L1, <- E.
      * cbn. unfold kBatchSize. lia.
      * by apply batch_sending.
      * apply (receiving_same delivered s); [|done]. exact H2.
    + split; cbn [sl_socket sl_accepted sl_delivered]; [done| |by apply batch_sending|].
      * cbn. rewrite length_app. cbn. lia.
      * by apply (receiving_same delivered s).
  - destruct (flush_sends_ok accepted s Hk L1 L3) as (H1 & H2 & H3). split; cbn [sl_socket sl_accepted sl_delivered].
    + destruct H2 as (_ & _ & _ & _ & _ & E). by rewrite E.
    + rewrite H3. unfold kBatchSize. cbn. lia.
    + by rewrite H3.
    + by apply (receiving_same delivered s).
  - pose proof (socket_receive_ok delivered s Hk L1 L4) as Hr. destruct (socket_receive recvmmsg kMaxDatagramSize s) as [[result d] s']. destruct Hr as [Hr Hs].
    split; cbn [sl_socket sl_accepted sl_delivered].
    + destruct Hs as (_ & _ & _ & _ & _ & E). by rewrite E.
    + destruct Hs as (_ & E & _). by rewrite E.
    + by apply (sending_same accepted s).
    + by destruct d.
Qed.
End Runs.

(** *** The drop counter *)
Lemma note_drops s total : us_overflow_seen s = true -> us_receive_drops (note_overflow s total) = u64 (us_receive_drops s + u32 (total - us_last_overflow s)).
Proof. intros E. unfold note_overflow. by rewrite E. Qed.

(** The kernel's counter is cumulative and 32 bits wide; the differences add up to what
    it really counted, wrapped or not. *)
Lemma drops_exact (s : UdpSocket) (first : Z) (increments : list Z) : us_overflow_seen s = true -> us_last_overflow s = u32 first ->
  Forall (fits 32) increments -> us_receive_drops s = u64 (us_receive_drops s) ->
  let totals := snd (foldl (fun acc n => (acc.1 + n, acc.2 ++ [u32 (acc.1 + n)])) (first, []) increments) in
  us_receive_drops (foldl note_overflow s totals) = u64 (us_receive_drops s + foldr Z.add 0 increments).
Proof.
  intros Hseen Hlast Hinc Hdrops. cbv zeta.
  assert (Hgen : forall l acc now (s0 : UdpSocket), Forall (fits 32) l -> us_overflow_seen (foldl note_overflow s0 acc) = true ->
    us_last_overflow (foldl note_overflow s0 acc) = u32 now -> us_receive_drops (foldl note_overflow s0 acc) = u64 (us_receive_drops (foldl note_overflow s0 acc)) ->
    us_receive_drops (foldl note_overflow s0 (snd (foldl (fun a n => (a.1 + n, a.2 ++ [u32 (a.1 + n)])) (now, acc) l))) =
      u64 (us_receive_drops (foldl note_overflow s0 acc) + foldr Z.add 0 l)).
  { induction l as [|n l IH]; intros acc now s0 Hl Hs Hlo Hd; cbn [foldl foldr fst snd]; [by rewrite Z.add_0_r|].
    inversion Hl as [|? ? Hn Hl']; subst.
    assert (E : foldl note_overflow s0 (acc ++ [u32 (now + n)]) = note_overflow (foldl note_overflow s0 acc) (u32 (now + n))) by (by rewrite foldl_app).
    assert (Ed : us_receive_drops (note_overflow (foldl note_overflow s0 acc) (u32 (now + n))) = u64 (us_receive_drops (foldl note_overflow s0 acc) + n)).
    { rewrite note_drops by done. rewrite Hlo. do 2 f_equal.
      unfold wrap. rewrite <- Zminus_mod. replace (now + n - now) with n by lia. apply (wrap_small 32 n Hn). }
    rewrite IH; rewrite ?E; try done.
    - rewrite Ed, wrap_add_l. f_equal. lia.
    - rewrite Ed. by rewrite wrap_wrap. }
  by apply (Hgen increments [] first s).
Qed.

(** *** Other systems: the same socket, call for call *)
(** A socket but for the number of system calls. *)
Definition uncounted (s : UdpSocket) : UdpSocket :=
  mkUdpSocket (us_open s) (us_local s) (us_pending s) (us_recv s) (us_recv_next s) (us_last_overflow s) (us_overflow_seen s) (us_bytes_sent s) (us_bytes_received s)
    (us_packets_sent s) (us_packets_received s) (us_send_failures s) (us_receive_drops s) 0 (us_wire s) (us_heard s).

Lemma uncounted_foldl f l : (forall s (d : Datagram), uncounted (f s d) = f (uncounted s) d) -> forall s, uncounted (foldl f s l) = foldl f (uncounted s) l.
Proof. intros Hf. induction l as [|d l IH]; intros s; cbn [foldl]; [done|]. by rewrite IH, Hf. Qed.

Lemma flush_each_taken sendto messages : forall s, (forall i d, messages !! i = Some d -> sendto (us_calls s + i)%nat = datagram_size d) ->
  uncounted (flush_each sendto messages s) = foldl count_taken (uncounted s) messages.
Proof.
  induction messages as [|d messages IH]; intros s Hs; cbn [flush_each foldl]; [done|].
  pose proof (Hs 0%nat d eq_refl) as H0. rewrite Nat.add_0_r in H0. rewrite H0.
  rewrite (proj2 (Z.ltb_ge _ _)) by (unfold datagram_size; lia). rewrite IH; [done|].
  intros i d' Hi. cbn. rewrite <- (Hs (S i) d' Hi). f_equal. lia.
Qed.

Lemma refill_each_heard recvfrom l : forall n s, (length l <= n)%nat -> (forall i d, l !! i = Some d -> recvfrom (us_calls s + i)%nat = inl d) ->
  ((length l < n)%nat -> recvfrom (us_calls s + length l)%nat = inr true) -> us_recv_next s = 0%nat ->
  fst (refill_each recvfrom n s) = true /\ uncounted (snd (refill_each recvfrom n s)) = uncounted (set_recv (us_recv s ++ (cut_datagram <$> l)) 0 s).
Proof.
  induction l as [|d l IH]; intros n s Hl Hs Hend Hnext; destruct n as [|n]; cbn [length] in *; try lia; cbn [refill_each].
  - cbn [fst snd]. split; [done|]. rewrite app_nil_r. unfold set_recv, uncounted. cbn. by rewrite Hnext.
  - cbn [length] in *. specialize (Hend ltac:(lia)). rewrite Nat.add_0_r in Hend. rewrite Hend. cbn [fst snd]. split; [by rewrite andb_false_r|].
    unfold set_recv, uncounted. cbn. by rewrite app_nil_r, Hnext.
  - pose proof (Hs 0%nat d eq_refl) as H0. rewrite Nat.add_0_r in H0. rewrite H0.
    destruct (IH n (set_recv (us_recv (count_call s) ++ [cut_datagram d]) 0 (count_call s))) as [E1 E2]; [lia| | |done|].
    + intros i d' Hi. cbn. rewrite <- (Hs (S i) d' Hi). f_equal. lia.
    + intros Hlt. cbn. rewrite <- Hend by lia. f_equal. lia.
    + split; [done|]. rewrite E2. cbn. by rewrite <- app_assoc.
Qed.

(** The two implementations are one.  Where the kernel takes whole batches and the calls
    for single datagrams succeed likewise, sending a batch and refilling from the kernel
    leave the same socket with and without batch calls, but for the number of calls. *)
Theorem portable_socket_same (sendmmsg : nat -> nat -> Z) (recvmmsg : nat -> Received) (sendto : nat -> Z) (recvfrom : nat -> Datagram + bool)
    (messages : list Datagram) (s : UdpSocket) :
  (forall i n, sendmmsg i n = Z.of_nat n) -> (forall i d, us_pending s !! i = Some d -> sendto (us_calls s + i)%nat = datagram_size d) ->
  recvmmsg (us_calls s) = RecvBatch messages [] -> (length messages <= kBatchSize)%nat ->
  (forall i d, messages !! i = Some d -> recvfrom (us_calls s + i)%nat = inl d) ->
  ((length messages < kBatchSize)%nat -> recvfrom (us_calls s + length messages)%nat = inr true) ->
  uncounted (flush_sends_portable sendto s) = uncounted (flush_sends sendmmsg s) /\
  fst (refill_portable recvfrom s) = fst (refill recvmmsg s) /\ uncounted (snd (refill_portable recvfrom s)) = uncounted (snd (refill recvmmsg s)).
Proof.
  intros Hm Hs Hr Hl Hg Hend. split.
  - unfold flush_sends_portable, flush_sends. destruct (us_pending s) as [|d rest] eqn:Ep; [done|]. cbn [us_open set_pending_sends].
    destruct (negb (us_open s)); [done|]. rewrite flush_each_taken by done. cbn [flush_loop length]. rewrite Hm.
    rewrite (proj2 (Z.leb_gt _ _)) by lia. rewrite Nat2Z.id, drop_ge, take_ge by (cbn; lia).
    assert (Hnil : forall fuel s', flush_loop sendmmsg fuel [] s' = s') by (by intros []). rewrite Hnil. by rewrite uncounted_foldl.
  - unfold refill_portable, refill. rewrite Hr.
    destruct (refill_each_heard recvfrom messages kBatchSize (set_recv [] 0 s) Hl Hg Hend eq_refl) as [E1 E2].
    destruct (refill_each _ _ _) as [ok s1]. cbn [fst snd] in E1, E2. subst ok. cbn [negb].
    assert (Er : us_recv s1 = cut_datagram <$> messages) by exact (f_equal us_recv E2).
    rewrite Er. cbn [fst snd]. split.
    + cbn [us_recv set_recv]. assert (Hk : forall l s', us_recv (foldl count_given s' l) = us_recv s') by (induction l as [|d l IH]; intros s'; cbn [foldl]; [done|by rewrite IH]).
      rewrite !Hk, Er. done.
    + rewrite !uncounted_foldl by done. rewrite E2. by destruct (cut_datagram <$> messages).
Qed.

(** ** Properties *)
(** C23. Datagrams keep their order and none is unaccounted for.  Whatever datagrams are
    batched, flushed and received, in any interleaving, and however many of each batch
    the kernel takes: what it took, followed by what is still pending, is the sequence
    [send_batched] accepted with the refused ones left out, and is all of it when the
    kernel refuses none; the counters of packets, bytes and failures add up to it; and
    what [receive] handed out, followed by what is left of the batch, is exactly what
    the kernel delivered, in its order.  Neither buffer is ever indexed past its end. *)
Theorem udp_socket_in_order (sendmmsg : nat -> nat -> Z) (recvmmsg : nat -> Received) (bind_address : Address) (calls : OpenCalls) (s : UdpSocket) (ops : list SocketOp) :
  kernel_ok sendmmsg recvmmsg -> socket_open sendmmsg bind_address calls UdpSocket_new = (true, s) ->
  let l := foldl (socket_step sendmmsg recvmmsg) (mkSocketLog s [] []) ops in
  let s' := sl_socket l in
  (us_wire s' ++ us_pending s' `sublist_of` sl_accepted l /\
   ((forall i n, (0 < n)%nat -> 0 < sendmmsg i n) -> us_wire s' ++ us_pending s' = sl_accepted l) /\
   us_packets_sent s' = u64 (Z.of_nat (length (us_wire s'))) /\ us_bytes_sent s' = u64 (total_size (us_wire s')) /\
   us_send_failures s' = u64 (Z.of_nat (length (sl_accepted l)) - Z.of_nat (length (us_wire s' ++ us_pending s')))) /\
  (sl_delivered l ++ drop (us_recv_next s') (us_recv s') = us_heard s' /\
   us_packets_received s' = u64 (Z.of_nat (length (us_heard s'))) /\ us_bytes_received s' = u64 (total_size (us_heard s'))) /\
  (length (us_pending s') <= kBatchSize)%nat /\ (us_recv_next s' <= length (us_recv s') <= kBatchSize)%nat.
Proof.
  intros Hk Hopen. cbv zeta.
  assert (Hs : us_open s = true /\ s = set_fd true (us_local s) (set_overflow_seen 0 false 0 UdpSocket_new)).
  { unfold socket_open in Hopen. cbn [us_open UdpSocket_new socket_close] in Hopen. destruct (oc_socket calls), (oc_bind calls), (oc_fcntl calls); cbn in Hopen; try done.
    by injection Hopen as <-. }
  destruct Hs as [Ho Es].
  assert (Hok : log_ok sendmmsg (foldl (socket_step sendmmsg recvmmsg) (mkSocketLog s [] []) ops)).
  { assert (H0 : log_ok sendmmsg (mkSocketLog s [] [])).
    { rewrite Es. split; [done|cbn; lia| |]; split; cbn; try done; unfold kBatchSize; lia. }
    revert H0. generalize (mkSocketLog s [] []). induction ops as [|op ops IH]; intros l Hl; [done|]. cbn [foldl]. apply IH. by apply socket_step_ok. }
  destruct Hok as [_ L2 [S1 S2 S3 S4 S5] [R1 R2 _ R4 R5]]. split_and!; try done; try apply R1.
  rewrite S4, length_app. f_equal. lia.
Qed.

(** ** Witness: seventy datagrams, of which the kernel refuses some *)
Definition sample_sendmmsg (i n : nat) : Z := match i with 0%nat => Z.min 40 (Z.of_nat n) | 1%nat => 0 | _ => Z.of_nat n end.
Definition sample_recvmmsg (i : nat) : Received :=
  if Nat.even i then RecvBatch [(mkAddress 9 9, [1; 2]); (mkAddress 9 8, [3])] [7] else RecvError true.
Definition sample_socket_ops : list SocketOp :=
  ((fun i => OpBatch (mkAddress 1 1) [Z.of_nat i]) <$> seq 0 70) ++ [OpFlush; OpReceive; OpReceive; OpReceive].

Lemma sample_kernel_ok : kernel_ok sample_sendmmsg sample_recvmmsg.
Proof.
  split; [intros [|[|i]] n; cbn [sample_sendmmsg]; lia|]. unfold sample_recvmmsg. intros i l totals. destruct (Nat.even i); [|done].
  intros [= <- _]. cbn. unfold kBatchSize. lia.
Qed.

Definition sample_open : bool * UdpSocket := socket_open sample_sendmmsg (mkAddress 0 7000) (mkOpenCalls true true (Some (mkAddress 0 7000)) true) UdpSocket_new.

Lemma udp_socket_in_order_witness :
  let l := foldl (socket_step sample_sendmmsg sample_recvmmsg) (mkSocketLog (snd sample_open) [] []) sample_socket_ops in
  let s' := sl_socket l in
  us_wire s' ++ us_pending s' `sublist_of` sl_accepted l /\
  sl_delivered l ++ drop (us_recv_next s') (us_recv s') = us_heard s' /\
  length (sl_accepted l) = 70%nat /\ length (us_wire s') = 46%nat /\ us_send_failures s' = 24 /\
  sl_delivered l = [(mkAddress 9 9, [1; 2]); (mkAddress 9 8, [3])].
Proof.
  intros l s'.
  assert (E : length (sl_accepted l) = 70%nat /\ length (us_wire s') = 46%nat /\ us_send_failures s' = 24 /\
    sl_delivered l = [(mkAddress 9 9, [1; 2]); (mkAddress 9 8, [3])]) by (vm_compute; by split_and!).
  destruct (udp_socket_in_order sample_sendmmsg sample_recvmmsg (mkAddress 0 7000) (mkOpenCalls true true (Some (mkAddress 0 7000)) true) (snd sample_open) sample_socket_ops)
    as ((H1 & _) & (H2 & _) & _); [exact sample_kernel_ok|reflexivity|].
  split; [exact H1|]. split; [exact H2|exact E].
Defined.

(** A datagram that is not batched overtakes the ones that are: the goodbye of
    [Connection.disconnect] leaves before the payloads of the same tick. *)
Example unbatched_overtakes :
  let s := snd (send_batched sample_sendmmsg (mkAddress 1 1) [1] (snd sample_open)) in
  let s := snd (socket_send (mkAddress 1 1) [2] 1 s) in
  us_wire (flush_sends sample_sendmmsg s) = [(mkAddress 1 1, [2]); (mkAddress 1 1, [1])].
Proof. vm_compute. reflexivity. Qed.
