(* ===== verification/GameClient.v ===== *)
(** * GameClient: the player's side ([src/src/app/game_client.h], [game_client.cpp])

    Matchmaking, the handshake, prediction and the move to another shard.  As in
    [WorldServer], the connection is the outer record and everything else is its
    application state: the connection's callbacks are [handle_payload] and
    [handle_message]. *)

From S2P Require Import Prelude F32 Bitstream Quantizer Movement Messages Grid EntityStore World Snapshot Reliability Connection ClientView.
From S2P Require Import Region Text Redis Store Presence Migration Shard Http Endpoint WebSocket Metrics WorldServer.
From Stdlib Require Import ZArith Lia Bool Ascii String.
From stdpp Require Import base tactics numbers list option gmap strings.
#[local] Open Scope Z_scope.

(** ** Data *)
Record GameClientConfig := mkGameClientConfig {
  gf_player_id : string;
  gf_matchmaker : Address;
  gf_direct_shard : Address;
  gf_session_token : Z;
  gf_params : WorldParams;
  gf_view : ClientViewConfig;
  gf_timeout_us : Z
}.

Record GameClientStats := mkGameClientStats {
  gt_snapshots_received : Z;
  gt_snapshots_applied : Z;
  gt_migrations : Z;
  gt_reconnects : Z;
  gt_inputs_sent : Z;
  gt_bytes_received : Z;
  gt_bytes_sent : Z
}.

Definition GameClientStats_zero : GameClientStats := mkGameClientStats 0 0 0 0 0 0 0.

(** Everything but the connection. *)
Record GameState := mkGameState {
  gm_config : GameClientConfig;
  gm_view : ClientView;
  gm_shard_id : string;
  gm_shard_endpoint : Address;
  gm_session_token : Z;
  gm_local_entity : Z;
  gm_region : Z;
  gm_pending_redirect : option MigrateRedirectEvent;
  gm_input_window : list MoveInput;
  gm_client_tick : Z;
  gm_last_update_us : Z;
  gm_stats : GameClientStats
}.

Definition set_gm_view (v : ClientView) (g : GameState) : GameState :=
  mkGameState (gm_config g) v (gm_shard_id g) (gm_shard_endpoint g) (gm_session_token g) (gm_local_entity g) (gm_region g)
    (gm_pending_redirect g) (gm_input_window g) (gm_client_tick g) (gm_last_update_us g) (gm_stats g).
Definition set_gm_place (shard_id : string) (entity region : Z) (g : GameState) : GameState :=
  mkGameState (gm_config g) (gm_view g) shard_id (gm_shard_endpoint g) (gm_session_token g) entity region
    (gm_pending_redirect g) (gm_input_window g) (gm_client_tick g) (gm_last_update_us g) (gm_stats g).
Definition set_gm_session (endpoint : Address) (token : Z) (g : GameState) : GameState :=
  mkGameState (gm_config g) (gm_view g) (gm_shard_id g) endpoint token (gm_local_entity g) (gm_region g)
    (gm_pending_redirect g) (gm_input_window g) (gm_client_tick g) (gm_last_update_us g) (gm_stats g).
Definition set_gm_redirect (redirect : option MigrateRedirectEvent) (g : GameState) : GameState :=
  mkGameState (gm_config g) (gm_view g) (gm_shard_id g) (gm_shard_endpoint g) (gm_session_token g) (gm_local_entity g) (gm_region g)
    redirect (gm_input_window g) (gm_client_tick g) (gm_last_update_us g) (gm_stats g).
Definition set_gm_window (window : list MoveInput) (client_tick : Z) (g : GameState) : GameState :=
  mkGameState (gm_config g) (gm_view g) (gm_shard_id g) (gm_shard_endpoint g) (gm_session_token g) (gm_local_entity g) (gm_region g)
    (gm_pending_redirect g) window client_tick (gm_last_update_us g) (gm_stats g).
Definition set_gm_updated (now : Z) (g : GameState) : GameState :=
  mkGameState (gm_config g) (gm_view g) (gm_shard_id g) (gm_shard_endpoint g) (gm_session_token g) (gm_local_entity g) (gm_region g)
    (gm_pending_redirect g) (gm_input_window g) (gm_client_tick g) now (gm_stats g).
Definition set_gm_stats (stats : GameClientStats) (g : GameState) : GameState :=
  mkGameState (gm_config g) (gm_view g) (gm_shard_id g) (gm_shard_endpoint g) (gm_session_token g) (gm_local_entity g) (gm_region g)
    (gm_pending_redirect g) (gm_input_window g) (gm_client_tick g) (gm_last_update_us g) stats.

Definition count_snapshot (size : Z) (applied : bool) (t : GameClientStats) : GameClientStats :=
  mkGameClientStats (u32 (gt_snapshots_received t + 1)) (if applied then u32 (gt_snapshots_applied t + 1) else gt_snapshots_applied t)
    (gt_migrations t) (gt_reconnects t) (gt_inputs_sent t) (u64 (gt_bytes_received t + size)) (gt_bytes_sent t).
Definition count_session (reconnect : bool) (t : GameClientStats) : GameClientStats :=
  mkGameClientStats (gt_snapshots_received t) (gt_snapshots_applied t) (gt_migrations t)
    (if reconnect then u32 (gt_reconnects t + 1) else gt_reconnects t) (gt_inputs_sent t) (gt_bytes_received t) (gt_bytes_sent t).
Definition count_migration (t : GameClientStats) : GameClientStats :=
  mkGameClientStats (gt_snapshots_received t) (gt_snapshots_applied t) (u32 (gt_migrations t + 1)) (gt_reconnects t) (gt_inputs_sent t)
    (gt_bytes_received t) (gt_bytes_sent t).
Definition count_input (size : Z) (t : GameClientStats) : GameClientStats :=
  mkGameClientStats (gt_snapshots_received t) (gt_snapshots_applied t) (gt_migrations t) (gt_reconnects t) (u32 (gt_inputs_sent t + 1))
    (gt_bytes_received t) (u64 (gt_bytes_sent t + size)).

Section Game.
Context `{Platform} `{Resolver}.
Context (random : nat -> Z).
Abbreviation Game := (ClientConnection GameState).

(** ** Sessions *)
Definition build_credential (kind : CredentialKind) (token : Z) (g : GameState) : option (list Z) :=
  encode_credential (mkConnectCredential kind token (gf_player_id (gm_config g))).

(** [attempts]: what the network does to each request ([Http.http_fetch]). *)
Definition session_request (attempt : option string * list Z * list string) (g : GameState) : HttpFetch :=
  let '(opened, writes, chunks) := attempt in
  http_fetch opened (address_text (gf_matchmaker (gm_config g))) "POST" ("/session?player=" +:+ gf_player_id (gm_config g)) EmptyString writes chunks.

Fixpoint fetch_session (attempts : list (option string * list Z * list string)) (response : HttpFetch) (g : GameState) : HttpFetch :=
  match attempts with
  | [] => response
  | attempt :: attempts =>
      let response := session_request attempt g in
      if hf_ok response || negb (hf_status response =? 0) then response else fetch_session attempts response g
  end.

Definition kSessionAttempts : nat := 3.

Definition request_session (attempts : list (option string * list Z * list string)) (g : GameState) : bool * GameState :=
  if negb (valid (gf_matchmaker (gm_config g))) then (false, g) else
  let response := fetch_session (take kSessionAttempts attempts) (mkHttpFetch false 0 EmptyString EmptyString) g in
  if negb (hf_ok response) then (false, g) else
  let endpoint := json_lookup (hf_body response) "endpoint" in
  let token := json_lookup (hf_body response) "token" in
  let g := set_gm_place (json_lookup (hf_body response) "shard") (gm_local_entity g) (u32 (strtoull (json_lookup (hf_body response) "region"))) g in
  if string_empty endpoint || string_empty token then (false, g) else
  match parse_address endpoint with
  | None => (false, g)
  | Some shard =>
      let g := set_gm_session shard (strtoull token) g in
      let g := set_gm_stats (count_session (json_lookup (hf_body response) "reconnect" =? "true")%string (gm_stats g)) g in
      (negb (gm_session_token g =? 0), g)
  end.

(** ** Callbacks of the connection *)
Definition handle_payload (data : list Z) (g : GameState) : GameState :=
  match data with
  | channel :: ((_ :: _) as snapshot) =>
      if negb (channel =? channel_code kSnapshot) then g else
      let '(applied, v) := apply_snapshot snapshot (gm_view g) in
      set_gm_stats (count_snapshot (Z.of_nat (length data)) applied (gm_stats g)) (set_gm_view v g)
  | _ => g
  end.

Definition handle_message (message : ReliableMessage) (g : GameState) : GameState :=
  let payload := rm_payload message in
  match payload with
  | [] => g
  | type :: _ =>
      if negb (rm_channel message =? channel_code kEvent) then g else
      let r := BitReader_new payload (Z.of_nat (length payload)) in
      if type =? event_code kWorldConfig then
        match fst (decode_world_config r) with
        | None => g
        | Some event => set_gm_view (set_local_entity (wc_entity event) (gm_view g)) (set_gm_place (wc_shard_id event) (wc_entity event) (wc_region event) g)
        end
      else if type =? event_code kMigrateRedirect then
        match fst (decode_migrate_redirect r) with
        | None => g
        | Some event => set_gm_redirect (Some event) g
        end
      else g
  end.

(** ** The loop *)
Definition set_game (g : GameState) (c : Game) : Game :=
  mkClient (cc_config c) (cc_state c) (cc_deny_reason c) (cc_client_salt c) (cc_server_salt c) (cc_last_send_us c)
    (cc_last_receive_us c) (cc_connect_started_us c) (cc_client_id c) (cc_entity c) (cc_reliability c) (cc_random c) (cc_sent c) g.

(** The velocity of the last entity of the list that is the player's own. *)
Definition shown_velocity (entities : list RenderEntity) : Vec2 :=
  foldl (fun velocity e => if re_is_local e then re_velocity e else velocity) vzero entities.

Definition adopt_prediction (g : GameState) : ClientView :=
  adopt_migrated_state kInvalidEntity (ms_position (pr_predicted (cv_prediction (gm_view g)))) (shown_velocity (cv_render (gm_view g))) (gm_view g).

Definition apply_redirect (event : MigrateRedirectEvent) (now : Z) (c : Game) : Game :=
  let c := set_game (set_gm_redirect None (cc_app c)) c in
  match parse_address (mr_endpoint event), build_credential kMigration (mr_ticket event) (cc_app c) with
  | Some endpoint, Some token =>
      let c := redirect random endpoint token now c in
      let g := cc_app c in
      let g := set_gm_place (mr_shard_id event) kInvalidEntity (mr_region event) (set_gm_session endpoint (gm_session_token g) g) in
      let g := set_gm_stats (count_migration (gm_stats g)) g in
      set_game (set_gm_view (adopt_prediction g) g) c
  | _, _ => c
  end.

Definition f32_of_us (us : Z) : f32 := fdiv (f32_of_Z us) (f32_of_Z 1000000).

Definition game_update (waiting : list Datagram) (now : Z) (c : Game) : Game :=
  let c := client_update handle_payload handle_message waiting now c in
  let c := match gm_pending_redirect (cc_app c) with Some event => apply_redirect event now c | None => c end in
  let g := cc_app c in
  let g := if negb (gm_last_update_us g =? 0) && (gm_last_update_us g <? now)
           then set_gm_view (advance_view (f32_of_us (now - gm_last_update_us g)) (gm_view g)) g else g in
  set_game (set_gm_updated now g) c.

(** The commands that go out with a packet: the newest last, [kInputRedundancy] of them. *)
Definition slide_window (window : list MoveInput) (input : MoveInput) : list MoveInput :=
  let window := window ++ [input] in if kInputRedundancy <? Z.of_nat (length window) then drop 1 window else window.

Definition packet_of (g : GameState) : InputPacket := mkInputPacket (gm_client_tick g) (cv_latest_tick (gm_view g)) (gm_input_window g).

Definition encode_input (packet : InputPacket) : option (list Z) :=
  finish (encode_input_packet packet (BitWriter_new (packet_buffer kMaxDatagramSize) kMaxDatagramSize)).

Definition record_input (axis : Vec2) (sprint : bool) (g : GameState) : GameState :=
  let client_tick := u32 (gm_client_tick g + 1) in
  let '(input, v) := push_input axis sprint client_tick (gm_view g) in
  set_gm_window (slide_window (gm_input_window g) input) client_tick (set_gm_view v g).

Definition send_input (axis : Vec2) (sprint : bool) (now : Z) (c : Game) : Game :=
  if negb (bool_decide (cc_state c = kConnected)) || (gm_local_entity (cc_app c) =? kInvalidEntity) then c else
  let c := set_game (record_input axis sprint (cc_app c)) c in
  match encode_input (packet_of (cc_app c)) with
  | None => c
  | Some bytes =>
      let '(sent, c) := client_send_payload bytes now c in
      if sent : bool then set_game (set_gm_stats (count_input (Z.of_nat (length bytes)) (gm_stats (cc_app c))) (cc_app c)) c else c
  end.

(** ** Start and stop *)
Definition kDefaultRetryUs : Z := 100000.
Definition kDefaultKeepaliveUs : Z := 100000.

Definition game_session (config : GameClientConfig) (attempts : list (option string * list Z * list string)) (g : GameState) : bool * GameState :=
  let g := mkGameState config (view_configure (gf_params config) (gf_view config) (gm_view g)) (gm_shard_id g) (gm_shard_endpoint g) (gm_session_token g)
             (gm_local_entity g) (gm_region g) (gm_pending_redirect g) (gm_input_window g) (gm_client_tick g) (gm_last_update_us g) (gm_stats g) in
  if valid (gf_direct_shard config) then (true, set_gm_session (gf_direct_shard config) (gf_session_token config) g)
  else request_session attempts g.

(** [opened]: whether the socket could be opened. *)
Definition game_start (config : GameClientConfig) (attempts : list (option string * list Z * list string)) (opened : bool) (now : Z) (c : Game) : bool * Game :=
  let '(ok, g) := game_session config attempts (cc_app c) in
  let c := set_game g c in
  if negb ok then (false, c) else
  match build_credential kSession (gm_session_token g) g with
  | None => (false, c)
  | Some token => client_start random (mkClientConfig (gm_shard_endpoint g) token (gf_timeout_us config) kDefaultRetryUs kDefaultKeepaliveUs) opened now c
  end.

Definition game_stop (c : Game) : Game := client_stop c.
End Game.

(** ** Commands survive losses *)
Section Commands.
Context `{Platform}.

(** The commands of a run of moves, as the client predicted with them. *)
Definition command_of (move : Vec2 * bool) (g : GameState) : MoveInput :=
  fst (push_input (fst move) (snd move) (u32 (gm_client_tick g + 1)) (gm_view g)).
Definition make_move (g : GameState) (move : Vec2 * bool) : GameState := record_input (fst move) (snd move) g.
Fixpoint commands (g : GameState) (moves : list (Vec2 * bool)) : list MoveInput :=
  match moves with [] => [] | move :: moves => command_of move g :: commands (make_move g move) moves end.

(** A command without its tick, which is not sent. *)
Definition untimed (i : MoveInput) : MoveInput := mkMoveInput (mi_sequence i) 0 (mi_move_x i) (mi_move_y i) (mi_sprint i).

Definition command_ok (i : MoveInput) : Prop := fits 32 (mi_sequence i) /\ level_input i.

Record client_ok (g : GameState) : Prop := {
  ck_tick : fits 32 (gm_client_tick g);
  ck_acked : fits 32 (cv_latest_tick (gm_view g));
  ck_next : fits 32 (pr_next_input_sequence (cv_prediction (gm_view g)));
  ck_length : (length (gm_input_window g) <= Z.to_nat kInputRedundancy)%nat;
  ck_window : Forall command_ok (gm_input_window g)
}.

Definition analog_move (move : Vec2 * bool) : Prop := analog (vec_x (fst move)) /\ analog (vec_y (fst move)).

Lemma slide_trim window input : (length window <= Z.to_nat kInputRedundancy)%nat ->
  slide_window window input = trim (Z.to_nat kInputRedundancy) (window ++ [input]).
Proof.
  unfold slide_window, trim, kInputRedundancy. intros Hl. rewrite length_app in *. cbn [length] in *.
  destruct (Z.ltb_spec 6 (Z.of_nat (length window + 1))).
  - replace (length window + 1 - Z.to_nat 6)%nat with 1%nat by lia. done.
  - by replace (length window + 1 - Z.to_nat 6)%nat with 0%nat by lia.
Qed.

Lemma trim_length {T} n (l : list T) : (length (trim n l) <= n)%nat.
Proof. unfold trim. rewrite length_drop. lia. Qed.

Lemma trim_trim_app {T} n (l k : list T) : trim n (trim n l ++ k) = trim n (l ++ k).
Proof.
  unfold trim. rewrite !length_app, length_drop. destruct (Nat.le_gt_cases (length l) n).
  - by replace (length l - n)%nat with 0%nat by lia; rewrite drop_0, Nat.sub_0_r.
  - replace (length l - (length l - n) + length k - n)%nat with (length k) by lia.
    replace (length l + length k - n)%nat with (length l - n + length k)%nat by lia.
    rewrite <- drop_drop. f_equal. rewrite drop_app_le by lia. done.
Qed.

Lemma wire_level i : level_input i -> wire_input i = untimed i.
Proof.
  intros (kx & ky & Hkx & Hky & Ex & Ey). unfold wire_input, untimed. f_equal; rewrite ?Ex, ?Ey.
  - rewrite <- (snap_clamp_level kx) at 2 by done. unfold q_snap. by rewrite encode_clamp.
  - rewrite <- (snap_clamp_level ky) at 2 by done. unfold q_snap. by rewrite encode_clamp.
Qed.

Lemma make_move_ok g move : client_ok g -> analog_move move ->
  client_ok (make_move g move) /\ command_ok (command_of move g) /\
  gm_input_window (make_move g move) = trim (Z.to_nat kInputRedundancy) (gm_input_window g ++ [command_of move g]).
Proof.
  intros [Ht Ha Hn Hl Hw] Hm.
  assert (Hc : command_ok (command_of move g)).
  { split; [exact Hn|]. apply quantize_input_level. exact Hm. }
  assert (E : gm_input_window (make_move g move) = slide_window (gm_input_window g) (command_of move g)) by reflexivity.
  rewrite slide_trim in E by done. split; [|done]. split.
  - apply wrap_range. lia.
  - exact Ha.
  - apply wrap_range. lia.
  - rewrite E. apply trim_length.
  - rewrite E. apply Forall_drop, Forall_app. split; [done|]. by constructor.
Qed.

Lemma moves_ok moves : forall g, client_ok g -> Forall analog_move moves ->
  client_ok (foldl make_move g moves) /\
  gm_input_window (foldl make_move g moves) = trim (Z.to_nat kInputRedundancy) (gm_input_window g ++ commands g moves).
Proof.
  induction moves as [|move moves IH]; intros g Hg Hm.
  { split; [done|]. cbn [foldl commands]. rewrite app_nil_r. unfold trim. rewrite (proj2 (Nat.sub_0_le _ _)); [done|apply Hg]. }
  inversion Hm as [|? ? Hm1 Hm2]; subst. destruct (make_move_ok g move Hg Hm1) as (Hg1 & _ & E).
  destruct (IH (make_move g move) Hg1 Hm2) as [Hok Ew]. split; [exact Hok|]. cbn [foldl commands]. rewrite Ew, E, trim_trim_app.
  by rewrite <- app_assoc.
Qed.

Lemma packet_encodes g : client_ok g ->
  exists bytes, encode_input (packet_of g) = Some bytes /\ Z.of_nat (length bytes) <= kMaxDatagramSize /\
  decode_packet bytes = Some (mkInputPacket (gm_client_tick g) (cv_latest_tick (gm_view g)) (untimed <$> gm_input_window g)).
Proof.
  intros [Ht Ha Hn Hl Hw].
  assert (Hok : input_packet_ok (packet_of g)).
  { split; [exact Ht|]. split; [exact Ha|]. cbn [ip_inputs packet_of]. split; [unfold kInputRedundancy in Hl; lia|].
    eapply Forall_impl; [exact Hw|]. intros i [Hs Hlv]. split; [done|by apply level_analog]. }
  pose proof (codec_roundtrip (packet_of g) (packet_buffer kMaxDatagramSize) kMaxDatagramSize Hok) as R.
  destruct R as [R1 R2].
  { unfold packet_buffer, kMaxDatagramSize. split; [by apply Forall_replicate|]. rewrite length_replicate. lia. }
  unfold encode_input, encode_packet in *. cbn [codec_write InputPacket_codec codec_bits] in *.
  destruct (finish _) as [bytes|].
  - exists bytes. destruct (R2 bytes eq_refl) as (E & _ & Hlen). split; [done|]. split; [done|]. rewrite E. f_equal.
    cbn [codec_wire InputPacket_codec]. unfold wire_packet. cbn [ip_client_tick ip_acked_snapshot_tick ip_inputs packet_of].
    rewrite take_ge by (unfold kMaxInputsPerPacket, kInputRedundancy in *; lia). f_equal.
    apply list_fmap_ext. intros i j E'. apply wire_level. rewrite Forall_lookup in Hw. by apply (Hw i).
  - exfalso. apply (proj2 R1); [|done]. unfold input_packet_bits, kMaxDatagramSize. cbn [ip_inputs packet_of].
    rewrite take_ge by (unfold kMaxInputsPerPacket, kInputRedundancy in *; lia).
    assert (E : Z.of_nat (length (gm_input_window g ≫= input_bits)) = 49 * Z.of_nat (length (gm_input_window g))).
    { clear. induction (gm_input_window g) as [|i l IH]; [done|]. change ((i :: l) ≫= input_bits) with (input_bits i ++ (l ≫= input_bits)).
      rewrite length_app, Nat2Z.inj_add, IH. unfold input_bits. rewrite !length_app, !length_zbits. cbn [length]. lia. }
    rewrite !length_app, !length_zbits. unfold kInputRedundancy in Hl. lia.
Qed.

(** C26. Five lost packets in a row lose no command.  Whatever moves the player makes,
    the packet that would be sent next can be encoded, is not larger than a datagram,
    and decodes at the shard to the ticks and exactly the last six commands, of this
    run and before it, bit for bit the ones the client predicted with: the shard's
    own quantization does not change them.  So a command is in the six packets that
    follow it. *)
Theorem commands_survive_losses (g : GameState) (moves : list (Vec2 * bool)) :
  client_ok g -> Forall analog_move moves ->
  let g' := foldl make_move g moves in
  client_ok g' /\
  exists bytes packet, encode_input (packet_of g') = Some bytes /\ Z.of_nat (length bytes) <= kMaxDatagramSize /\
  decode_packet bytes = Some packet /\ ip_client_tick packet = gm_client_tick g' /\
  ip_acked_snapshot_tick packet = cv_latest_tick (gm_view g') /\
  ip_inputs packet = untimed <$> trim 6 (gm_input_window g ++ commands g moves) /\
  quantize_input <$> ip_inputs packet = ip_inputs packet.
Proof.
  intros Hg Hm. cbv zeta. destruct (moves_ok moves g Hg Hm) as [Hok Ew]. split; [exact Hok|].
  destruct (packet_encodes _ Hok) as (bytes & E1 & E2 & E3). eexists _, _. split; [exact E1|]. split; [exact E2|]. split; [exact E3|].
  cbn [ip_client_tick ip_acked_snapshot_tick ip_inputs]. split; [done|]. split; [done|].
  split; [by rewrite Ew; change (Z.to_nat kInputRedundancy) with 6%nat|].
  rewrite <- list_fmap_compose. apply list_fmap_ext. intros i j Ei. apply quantize_level_input.
  pose proof (ck_window _ Hok) as Hw. rewrite Forall_lookup in Hw. exact (proj2 (Hw i j Ei)).
Qed.
End Commands.

(** ** Concrete runs *)
Definition sample_game_config : GameClientConfig :=
  mkGameClientConfig "p1" (mkAddress 0 0) (mkAddress 0 7000) 5 WorldParams_default ClientViewConfig_default 5000000.
Definition sample_game : GameState :=
  mkGameState sample_game_config (view_configure WorldParams_default ClientViewConfig_default blank_view) EmptyString (mkAddress 0 7000) 5 1 0 None [] 0 0
    GameClientStats_zero.
Definition sample_moves : list (Vec2 * bool) :=
  [(mkVec2 f1 f0, false); (mkVec2 f0 f1, true); (mkVec2 fm1 f0, false); (mkVec2 f1 f1, true); (mkVec2 f0 f0, false);
   (mkVec2 f0 fm1, false); (mkVec2 f1 f0, true); (mkVec2 fm1 fm1, false)].

Lemma commands_survive_losses_witness :
  let g' := foldl (@make_move plain_platform) sample_game sample_moves in
  client_ok g' /\
  exists bytes packet, @encode_input plain_platform (packet_of g') = Some bytes /\ Z.of_nat (length bytes) <= kMaxDatagramSize /\
  @decode_packet _ (@InputPacket_codec plain_platform) bytes = Some packet /\ ip_client_tick packet = gm_client_tick g' /\
  ip_acked_snapshot_tick packet = cv_latest_tick (gm_view g') /\
  ip_inputs packet = untimed <$> trim 6 (gm_input_window sample_game ++ @commands plain_platform sample_game sample_moves) /\
  @quantize_input plain_platform <$> ip_inputs packet = ip_inputs packet.
Proof.
  apply (@commands_survive_losses plain_platform sample_game sample_moves).
  - split; [by split; vm_compute|by split; vm_compute|by split; vm_compute|cbn; lia|constructor].
  - repeat constructor; cbn; by vm_compute.
Defined.

(** A player named [a+b] is asked for by the name [a b]. *)
Example unescaped_player_id : snd (parse_target ("/session?player=" +:+ "a+b")) !! "player"%string = Some "a b"%string.
Proof. by vm_compute. Qed.
