(* ===== verification/LoadTest.v ===== *)
(** * LoadTest: a fleet of real clients ([src/src/app/load_test.h], [load_test.cpp])

    Bots that join on a ramp, wander, turn back at the margin and rejoin when they are
    dropped, spread over worker threads that share a few atomic counters.  A worker's
    pass over its slice is a function; what the workers do to the counters, two atomic
    steps and a loop of compare-and-exchange each, is a step relation. *)

From S2P Require Import Prelude F32 Bitstream Quantizer Movement Messages Grid EntityStore World Snapshot Reliability Connection ClientView Region.
From S2P Require Import Text Redis Store Presence Http Endpoint Metrics GameClient.
From Stdlib Require Import ZArith Lia Bool Ascii String SpecFloat.
From stdpp Require Import base tactics numbers list option gmap strings relations.
#[local] Open Scope Z_scope.

(** ** Pseudo-random numbers *)
Definition mix32 (value : Z) : Z :=
  let value := Z.lxor value (Z.shiftr value 16) in
  let value := u32 (value * 0x7feb352d) in
  let value := Z.lxor value (Z.shiftr value 15) in
  let value := u32 (value * 0x846ca68b) in
  Z.lxor value (Z.shiftr value 16).

Definition unit_random (value : Z) : f32 := fdiv (f32_of_Z (Z.land (mix32 value) 0xffffff)) (f32_of_Z 0xffffff).

(** ** Data *)
Record LoadTestConfig := mkLoadTestConfig {
  lc_matchmaker : Address;
  lc_direct_shard : Address;
  lc_player_prefix : string;
  lc_clients : Z;
  lc_threads : Z;
  lc_ramp_per_second : Z;
  lc_duration_seconds : Z;
  lc_report_interval_ms : Z;
  lc_seed : Z;
  lc_timeout_us : Z;
  lc_rejoin_backoff_seconds : Z;
  lc_params : WorldParams
}.

Record LoadTestReport := mkLoadTestReport {
  lr_clients_requested : Z;
  lr_clients_connected : Z;
  lr_clients_peak_connected : Z;
  lr_clients_failed : Z;
  lr_inputs_sent : Z;
  lr_snapshots_received : Z;
  lr_snapshots_applied : Z;
  lr_migrations : Z;
  lr_rejoins : Z;
  lr_bytes_sent : Z;
  lr_bytes_received : Z;
  lr_wall_seconds : f64;
  lr_rtt_p50_ms : f64;
  lr_rtt_p95_ms : f64;
  lr_rtt_p99_ms : f64;
  lr_rtt_max_ms : f64;
  lr_loss_mean_percent : f64;
  lr_loss_p99_percent : f64;
  lr_client_recv_kbps_mean : f64;
  lr_client_recv_kbps_p99 : f64;
  lr_client_send_kbps_mean : f64;
  lr_prediction_error_mean : f64;
  lr_prediction_error_p99 : f64;
  lr_downstream_kbps_total : f64;
  lr_upstream_kbps_total : f64;
  lr_snapshots_per_second : f64
}.

Record Bot := mkBot {
  bt_client : ClientConnection GameState;
  bt_join_at_us : Z;
  bt_started : bool;
  bt_failed : bool;
  bt_heading : f32;
  bt_turn_at : f32;
  bt_rejoin_at_us : Z;
  bt_rejoins : Z
}.

Definition set_bt_client (c : ClientConnection GameState) (b : Bot) : Bot :=
  mkBot c (bt_join_at_us b) (bt_started b) (bt_failed b) (bt_heading b) (bt_turn_at b) (bt_rejoin_at_us b) (bt_rejoins b).
Definition set_bt_started (failed : bool) (b : Bot) : Bot :=
  mkBot (bt_client b) (bt_join_at_us b) true failed (bt_heading b) (bt_turn_at b) (bt_rejoin_at_us b) (bt_rejoins b).
Definition set_bt_course (heading turn_at : f32) (b : Bot) : Bot :=
  mkBot (bt_client b) (bt_join_at_us b) (bt_started b) (bt_failed b) heading turn_at (bt_rejoin_at_us b) (bt_rejoins b).
Definition set_bt_rejoin (at_us rejoins : Z) (b : Bot) : Bot :=
  mkBot (bt_client b) (bt_join_at_us b) (bt_started b) (bt_failed b) (bt_heading b) (bt_turn_at b) at_us rejoins.

(** The five histograms the workers fill. *)
Record LoadHistograms := mkLoadHistograms {
  lh_rtt : Histogram;
  lh_loss : Histogram;
  lh_recv_kbps : Histogram;
  lh_send_kbps : Histogram;
  lh_prediction_error : Histogram
}.

(** What the world does to a bot's turn: the matchmaker's answers, whether the socket
    could be opened, and the datagrams that wait. *)
Record BotTurn := mkBotTurn {
  tn_attempts : list (option string * list Z * list string);
  tn_opened : bool;
  tn_waiting : list Datagram
}.

(** How often a turn counts as a failed launch and as a rejoin. *)
Record TurnCounts := mkTurnCounts { tc_failed : Z; tc_rejoins : Z }.
Definition no_counts : TurnCounts := mkTurnCounts 0 0.

Section Bots.
Context `{Platform} `{Resolver} `{MathLib}.
Context (random : nat -> Z) (std_atan2 : f32 -> f32 -> f32).

Definition is_connected (b : Bot) : bool := bool_decide (cc_state (bt_client b) = kConnected).

Definition sample (b : Bot) (h : LoadHistograms) : LoadHistograms :=
  if negb (bt_started b) || bt_failed b || negb (is_connected b) then h else
  let net := mt_stats (re_meters (cc_reliability (bt_client b))) in
  let view := cv_stats (gm_view (cc_app (bt_client b))) in
  mkLoadHistograms
    (if fgtb (ns_rtt_ms net) f0 then record (f64_of_f32 (ns_rtt_ms net)) (lh_rtt h) else lh_rtt h)
    (record (f64_of_f32 (ns_sent_loss_percent net)) (lh_loss h))
    (record (f64_of_f32 (ns_recv_kbps net)) (lh_recv_kbps h))
    (record (f64_of_f32 (ns_sent_kbps net)) (lh_send_kbps h))
    (if 0 <? cs_snapshots_applied view then record (f64_of_f32 (cs_last_prediction_error view)) (lh_prediction_error h) else lh_prediction_error h).

Definition bot_config (config : LoadTestConfig) (index : Z) : GameClientConfig :=
  mkGameClientConfig (lc_player_prefix config +:+ "-" +:+ to_string index) (lc_matchmaker config) (lc_direct_shard config) 0 (lc_params config)
    ClientViewConfig_default (lc_timeout_us config).

Definition launch (config : LoadTestConfig) (index : Z) (turn : BotTurn) (now : Z) (b : Bot) : bool * Bot :=
  let '(ok, c) := game_start random (bot_config config index) (tn_attempts turn) (tn_opened turn) now (bt_client b) in
  (ok, set_bt_client c b).

Definition first_course (config : LoadTestConfig) (index : Z) (b : Bot) : Bot :=
  let seed := mix32 (Z.lxor (lc_seed config) index) in
  set_bt_course (fmul (unit_random seed) (f32_lit 62831853 10000000)) (fadd f1 (fmul (unit_random (u32 (seed + 1))) (f32_of_Z 3))) b.

(** A new heading, every one to four seconds. *)
Definition turn_course (config : LoadTestConfig) (index : Z) (elapsed : f32) (b : Bot) : Bot :=
  if fgtb elapsed (bt_turn_at b) then
    let seed := mix32 (Z.lxor (Z.lxor (lc_seed config) (u32 (Z.shiftl index 8))) (f32_to_u32 elapsed)) in
    set_bt_course (fadd (bt_heading b) (fmul (fsub (unit_random seed) fhalf) (f32_lit 24 10)))
      (fadd (fadd elapsed f1) (fmul (unit_random (u32 (seed + 7))) (f32_of_Z 3))) b
  else b.

(** One axis of the bots' turning back at the margin. *)
Definition turn_back (position size axis : f32) : f32 :=
  let margin := fmul size (f32_lit 8 100) in
  let axis := if fltb position margin then fabs axis else axis in
  if fgtb position (fsub size margin) then fopp (fabs axis) else axis.

Definition steer (config : LoadTestConfig) (b : Bot) : Vec2 * Bot :=
  let position := render_position (gm_view (cc_app (bt_client b))) in
  let size := wp_size (lc_params config) in
  let axis := mkVec2 (turn_back (vec_x position) size (std_cos (bt_heading b))) (turn_back (vec_y position) size (std_sin (bt_heading b))) in
  (axis, set_bt_course (std_atan2 (vec_y axis) (vec_x axis)) (bt_turn_at b) b).

Definition dropped (b : Bot) : bool :=
  match cc_state (bt_client b) with kTimedOut | kDisconnected | kDenied => true | _ => false end.

(** A dropped bot waits, then asks for a new session. *)
Definition rejoin (config : LoadTestConfig) (index : Z) (turn : BotTurn) (now : Z) (b : Bot) : Bot * TurnCounts :=
  if negb (dropped b) || (lc_rejoin_backoff_seconds config =? 0) then (b, no_counts) else
  if bt_rejoin_at_us b =? 0 then (set_bt_rejoin (u64 (now + lc_rejoin_backoff_seconds config * 1000000)) (bt_rejoins b) b, no_counts) else
  if now <? bt_rejoin_at_us b then (b, no_counts) else
  let b := set_bt_rejoin 0 (bt_rejoins b) b in
  let b := set_bt_client (game_stop (bt_client b)) b in
  let '(ok, b) := launch config index turn now b in
  if ok : bool then (set_bt_rejoin 0 (u32 (bt_rejoins b + 1)) b, mkTurnCounts 0 1) else (b, no_counts).

Definition drive (config : LoadTestConfig) (index started_at now : Z) (b : Bot) : Bot :=
  let b := set_bt_rejoin 0 (bt_rejoins b) b in
  let b := turn_course config index (f32_of_us (u64 (now - started_at))) b in
  let '(axis, b) := steer config b in
  set_bt_client (send_input axis false now (bt_client b)) b.

Definition bot_turn (config : LoadTestConfig) (index started_at now : Z) (turn : BotTurn) (b : Bot) : Bot * TurnCounts :=
  if negb (bt_started b) then
    if now <? bt_join_at_us b then (b, no_counts) else
    let '(ok, b) := launch config index turn now (set_bt_started false b) in
    if ok : bool then (first_course config index b, no_counts) else (set_bt_started true b, mkTurnCounts 1 0)
  else if bt_failed b then (b, no_counts)
  else
    let b := set_bt_client (game_update random (tn_waiting turn) now (bt_client b)) b in
    if negb (is_connected b) then rejoin config index turn now b else (drive config index started_at now b, no_counts).

Definition live_bots (bots : list Bot) : Z := Z.of_nat (length (filter (fun b => bt_started b && is_connected b = true) bots)).

(** ** The run *)
(** [run] refuses to start without clients or an address, and mends the rest. *)
Definition normalize (config : LoadTestConfig) : option LoadTestConfig :=
  if lc_clients config =? 0 then None else
  if negb (valid (lc_matchmaker config)) && negb (valid (lc_direct_shard config)) then None else
  let threads := if lc_threads config =? 0 then 1 else lc_threads config in
  let threads := if lc_clients config <? threads then lc_clients config else threads in
  let ramp := if lc_ramp_per_second config =? 0 then lc_clients config else lc_ramp_per_second config in
  let p := lc_params config in
  let p := mkWorldParams (wp_size p) (wp_acceleration p) (wp_max_speed p) (wp_friction p) (wp_player_radius p)
             (if wp_tick_rate p =? 0 then 30 else wp_tick_rate p) in
  Some (mkLoadTestConfig (lc_matchmaker config) (lc_direct_shard config) (lc_player_prefix config) (lc_clients config) threads ramp
    (lc_duration_seconds config) (lc_report_interval_ms config) (lc_seed config) (lc_timeout_us config) (lc_rejoin_backoff_seconds config) p).

Definition join_time (config : LoadTestConfig) (started_at : Z) (i : Z) : Z := u64 (started_at + u64 (1000000 * i) / lc_ramp_per_second config).

Definition deadline (config : LoadTestConfig) (started_at : Z) : Z :=
  u64 (started_at + u64 (1000000 * lc_clients config) / lc_ramp_per_second config + lc_duration_seconds config * 1000000).

(** The slices of the workers from [w] on: the first bot and how many. *)
Fixpoint slices (workers : nat) (w cursor per_worker remainder : Z) : list (Z * Z) :=
  match workers with
  | O => []
  | S workers =>
      let count := per_worker + (if w <? remainder then 1 else 0) in
      (cursor, count) :: slices workers (w + 1) (cursor + count) per_worker remainder
  end.

Definition worker_slices (config : LoadTestConfig) : list (Z * Z) :=
  slices (Z.to_nat (lc_threads config)) 0 0 (lc_clients config / lc_threads config) (lc_clients config mod lc_threads config).

(** One pass of a worker over its slice, bots numbered from [index]. *)
Fixpoint worker_pass (config : LoadTestConfig) (index started_at now : Z) (turns : list BotTurn) (bots : list Bot) : list Bot * TurnCounts :=
  match bots with
  | [] => ([], no_counts)
  | b :: bots =>
      let '(b, c) := bot_turn config index started_at now (default (mkBotTurn [] false []) (head turns)) b in
      let '(bots, c') := worker_pass config (index + 1) started_at now (tail turns) bots in
      (b :: bots, mkTurnCounts (tc_failed c + tc_failed c') (tc_rejoins c + tc_rejoins c'))
  end.

(** A worker's state between two rounds. *)
Record WorkerRun := mkWorkerRun { wr_bots : list Bot; wr_histograms : LoadHistograms; wr_counts : TurnCounts; wr_next_sample_us : Z; wr_lives : list Z }.

Definition sample_all (bots : list Bot) (h : LoadHistograms) : LoadHistograms := foldl (fun h b => sample b h) h bots.

(** One round: [now] and [later] are the readings of the clock before and after the pass. *)
Definition worker_round (config : LoadTestConfig) (first started_at now later : Z) (turns : list BotTurn) (r : WorkerRun) : WorkerRun :=
  let '(bots, c) := worker_pass config first started_at now turns (wr_bots r) in
  let counts := mkTurnCounts (u32 (tc_failed (wr_counts r) + tc_failed c)) (u64 (tc_rejoins (wr_counts r) + tc_rejoins c)) in
  let '(h, next) := if wr_next_sample_us r <=? later
    then (sample_all bots (wr_histograms r), u64 (later + lc_report_interval_ms config * 1000)) else (wr_histograms r, wr_next_sample_us r) in
  mkWorkerRun bots h counts next (wr_lives r ++ [live_bots bots]).

(** The rounds until the deadline, or until they end because a stop was requested. *)
Fixpoint run_worker (config : LoadTestConfig) (first started_at deadline_us : Z) (rounds : list (Z * Z * list BotTurn)) (r : WorkerRun) : WorkerRun :=
  match rounds with
  | (now, later, turns) :: rounds =>
      if deadline_us <=? now then mkWorkerRun (wr_bots r) (sample_all (wr_bots r) (wr_histograms r)) (wr_counts r) (wr_next_sample_us r) (wr_lives r)
      else run_worker config first started_at deadline_us rounds (worker_round config first started_at now later turns r)
  | [] => mkWorkerRun (wr_bots r) (sample_all (wr_bots r) (wr_histograms r)) (wr_counts r) (wr_next_sample_us r) (wr_lives r)
  end.

(** ** The report *)
Definition report_empty : LoadTestReport :=
  mkLoadTestReport 0 0 0 0 0 0 0 0 0 0 0 f64_0 f64_0 f64_0 f64_0 f64_0 f64_0 f64_0 f64_0 f64_0 f64_0 f64_0 f64_0 f64_0 f64_0 f64_0.

(** What a bot adds: connections, inputs, snapshots, migrations and bytes. *)
Definition report_bot (r : LoadTestReport) (b : Bot) : LoadTestReport :=
  if bt_failed b || negb (bt_started b) then r else
  let t := gm_stats (cc_app (bt_client b)) in
  mkLoadTestReport (lr_clients_requested r) (if is_connected b then u32 (lr_clients_connected r + 1) else lr_clients_connected r)
    (lr_clients_peak_connected r) (lr_clients_failed r) (u64 (lr_inputs_sent r + gt_inputs_sent t)) (u64 (lr_snapshots_received r + gt_snapshots_received t))
    (u64 (lr_snapshots_applied r + gt_snapshots_applied t)) (u64 (lr_migrations r + gt_migrations t)) (lr_rejoins r)
    (u64 (lr_bytes_sent r + gt_bytes_sent t)) (u64 (lr_bytes_received r + gt_bytes_received t)) (lr_wall_seconds r) (lr_rtt_p50_ms r) (lr_rtt_p95_ms r)
    (lr_rtt_p99_ms r) (lr_rtt_max_ms r) (lr_loss_mean_percent r) (lr_loss_p99_percent r) (lr_client_recv_kbps_mean r) (lr_client_recv_kbps_p99 r)
    (lr_client_send_kbps_mean r) (lr_prediction_error_mean r) (lr_prediction_error_p99 r) (lr_downstream_kbps_total r) (lr_upstream_kbps_total r)
    (lr_snapshots_per_second r).

Definition f64_positive (x : f64) : bool := SFltb f64_0 x.
Definition per_second (amount : f64) (seconds : f64) : f64 := if f64_positive seconds then f64_div amount seconds else f64_0.
Definition kbits (bytes : Z) : f64 := f64_div (f64_mul (f64_of_Z bytes) (f64_of_Z 8)) (f64_of_Z 1000).

Definition report (config : LoadTestConfig) (bots : list Bot) (h : LoadHistograms) (peak failed rejoins started_at finished_at : Z) : LoadTestReport :=
  let r := foldl report_bot report_empty bots in
  let wall := f64_div (f64_of_Z (u64 (finished_at - started_at))) (f64_of_Z 1000000) in
  mkLoadTestReport (lc_clients config) (lr_clients_connected r) peak failed (lr_inputs_sent r) (lr_snapshots_received r) (lr_snapshots_applied r)
    (lr_migrations r) rejoins (lr_bytes_sent r) (lr_bytes_received r) wall (p50 (lh_rtt h)) (p95 (lh_rtt h)) (p99 (lh_rtt h)) (hg_max (lh_rtt h))
    (mean (lh_loss h)) (p99 (lh_loss h)) (mean (lh_recv_kbps h)) (p99 (lh_recv_kbps h)) (mean (lh_send_kbps h)) (mean (lh_prediction_error h))
    (p99 (lh_prediction_error h)) (per_second (kbits (lr_bytes_received r)) wall) (per_second (kbits (lr_bytes_sent r)) wall)
    (per_second (f64_of_Z (lr_snapshots_received r)) wall).

(** [snprintf] into 1600 bytes; what does not fit is read from past the end there, so
    [None] stands for undefined behaviour. *)
Definition printed (text : string) : option string := if decide (String.length text < 1600)%nat then Some text else None.

Definition json_fields (fields : list (string * string)) : string :=
  "{" +:+ separated ((fun kv => dquote +:+ fst kv +:+ dquote +:+ ":" +:+ snd kv) <$> fields) +:+ "}".

Definition report_json (r : LoadTestReport) : option string :=
  printed (json_fields [
    ("clients_requested", to_string (lr_clients_requested r)); ("clients_connected", to_string (lr_clients_connected r));
    ("clients_peak_connected", to_string (lr_clients_peak_connected r)); ("clients_failed", to_string (lr_clients_failed r));
    ("wall_seconds", print_fixed 3 (lr_wall_seconds r)); ("inputs_sent", to_string (lr_inputs_sent r));
    ("snapshots_received", to_string (lr_snapshots_received r)); ("snapshots_applied", to_string (lr_snapshots_applied r));
    ("migrations", to_string (lr_migrations r)); ("bytes_sent", to_string (lr_bytes_sent r)); ("bytes_received", to_string (lr_bytes_received r));
    ("rtt_p50_ms", print_fixed 3 (lr_rtt_p50_ms r)); ("rtt_p95_ms", print_fixed 3 (lr_rtt_p95_ms r)); ("rtt_p99_ms", print_fixed 3 (lr_rtt_p99_ms r));
    ("rtt_max_ms", print_fixed 3 (lr_rtt_max_ms r)); ("loss_mean_percent", print_fixed 3 (lr_loss_mean_percent r));
    ("loss_p99_percent", print_fixed 3 (lr_loss_p99_percent r)); ("client_recv_kbps_mean", print_fixed 2 (lr_client_recv_kbps_mean r));
    ("client_recv_kbps_p99", print_fixed 2 (lr_client_recv_kbps_p99 r)); ("client_send_kbps_mean", print_fixed 2 (lr_client_send_kbps_mean r));
    ("prediction_error_mean", print_fixed 4 (lr_prediction_error_mean r)); ("prediction_error_p99", print_fixed 4 (lr_prediction_error_p99 r));
    ("rejoins", to_string (lr_rejoins r)); ("downstream_kbps_total", print_fixed 2 (lr_downstream_kbps_total r));
    ("upstream_kbps_total", print_fixed 2 (lr_upstream_kbps_total r)); ("snapshots_per_second", print_fixed 1 (lr_snapshots_per_second r))]).

Definition report_text (r : LoadTestReport) : option string :=
  printed ("clients        " +:+ to_string (lr_clients_connected r) +:+ "/" +:+ to_string (lr_clients_requested r) +:+ " connected at exit, peak " +:+
    to_string (lr_clients_peak_connected r) +:+ ", " +:+ to_string (lr_clients_failed r) +:+ " never joined, " +:+ print_fixed 1 (lr_wall_seconds r) +:+ " s" +:+ newline +:+
    "rtt            p50 " +:+ print_fixed 2 (lr_rtt_p50_ms r) +:+ " ms  p95 " +:+ print_fixed 2 (lr_rtt_p95_ms r) +:+ " ms  p99 " +:+
    print_fixed 2 (lr_rtt_p99_ms r) +:+ " ms  max " +:+ print_fixed 2 (lr_rtt_max_ms r) +:+ " ms" +:+ newline +:+
    "packet loss    mean " +:+ print_fixed 2 (lr_loss_mean_percent r) +:+ "%  p99 " +:+ print_fixed 2 (lr_loss_p99_percent r) +:+ "%" +:+ newline +:+
    "per client     down " +:+ print_fixed 1 (lr_client_recv_kbps_mean r) +:+ " kbit/s (p99 " +:+ print_fixed 1 (lr_client_recv_kbps_p99 r) +:+ ")  up " +:+
    print_fixed 1 (lr_client_send_kbps_mean r) +:+ " kbit/s" +:+ newline +:+
    "aggregate      down " +:+ print_fixed 1 (lr_downstream_kbps_total r) +:+ " kbit/s  up " +:+ print_fixed 1 (lr_upstream_kbps_total r) +:+ " kbit/s  " +:+
    print_fixed 0 (lr_snapshots_per_second r) +:+ " snapshots/s" +:+ newline +:+
    "prediction     mean " +:+ print_fixed 3 (lr_prediction_error_mean r) +:+ " units  p99 " +:+ print_fixed 3 (lr_prediction_error_p99 r) +:+ " units" +:+ newline +:+
    "migrations     " +:+ to_string (lr_migrations r) +:+ "  rejoins " +:+ to_string (lr_rejoins r) +:+ "  inputs " +:+ to_string (lr_inputs_sent r) +:+
    "  snapshots " +:+ to_string (lr_snapshots_applied r) +:+ " applied of " +:+ to_string (lr_snapshots_received r) +:+ newline).
End Bots.

(** ** The counters the workers share *)
(** Where a worker is between two passes: it has exchanged its live count and not yet
    added the difference; it has the new total; it is raising the peak, which it read
    as [peak]. *)
Inductive WorkerState :=
  | WorkerIdle
  | WorkerExchanged (previous : Z)
  | WorkerCounted (total : Z)
  | WorkerRaising (total peak : Z).

(** A worker's entry of [worker_live_], and where it is. *)
Record Worker := mkWorker { wk_live : Z; wk_state : WorkerState }.

(** [fl_totals], which is not in the code: every value [connected_] was given. *)
Record Fleet := mkFleet { fl_workers : list Worker; fl_connected : Z; fl_peak : Z; fl_totals : list Z }.

Definition fleet_start (slices : list (Z * Z)) : Fleet := mkFleet ((fun _ => mkWorker 0 WorkerIdle) <$> slices) 0 0 [].

Definition set_worker (w : nat) (x : Worker) (f : Fleet) : Fleet := mkFleet (<[w := x]> (fl_workers f)) (fl_connected f) (fl_peak f) (fl_totals f).

Inductive fleet_step (slices : list (Z * Z)) : Fleet -> Fleet -> Prop :=
  | step_exchange w x first count live f : fl_workers f !! w = Some x -> wk_state x = WorkerIdle -> slices !! w = Some (first, count) -> 0 <= live <= count ->
      fleet_step slices f (set_worker w (mkWorker live (WorkerExchanged (wk_live x))) f)
  | step_add w x previous f : fl_workers f !! w = Some x -> wk_state x = WorkerExchanged previous ->
      let total := u32 (fl_connected f + (wk_live x - previous)) in
      fleet_step slices f (mkFleet (<[w := mkWorker (wk_live x) (WorkerCounted total)]> (fl_workers f)) total (fl_peak f) (fl_totals f ++ [total]))
  | step_read w x total f : fl_workers f !! w = Some x -> wk_state x = WorkerCounted total ->
      fleet_step slices f (set_worker w (mkWorker (wk_live x) (WorkerRaising total (fl_peak f))) f)
  | step_settled w x total peak f : fl_workers f !! w = Some x -> wk_state x = WorkerRaising total peak -> total <= peak ->
      fleet_step slices f (set_worker w (mkWorker (wk_live x) WorkerIdle) f)
  | step_raised w x total f : fl_workers f !! w = Some x -> wk_state x = WorkerRaising total (fl_peak f) -> fl_peak f < total ->
      fleet_step slices f (mkFleet (<[w := mkWorker (wk_live x) WorkerIdle]> (fl_workers f)) (fl_connected f) total (fl_totals f))
  | step_missed w x total peak f : fl_workers f !! w = Some x -> wk_state x = WorkerRaising total peak -> peak < total ->
      fleet_step slices f (set_worker w (mkWorker (wk_live x) (WorkerRaising total (fl_peak f))) f).

(** *** Slices *)
Definition slice_counts (l : list (Z * Z)) : Z := foldr (fun s n => s.2 + n) 0 l.

Lemma slices_spec workers : forall w cursor per_worker remainder, 0 <= per_worker -> 0 <= w -> w <= remainder \/ remainder <= w ->
  let l := slices workers w cursor per_worker remainder in
  slice_counts l = Z.of_nat workers * per_worker + Z.max 0 (Z.min (Z.of_nat workers) (remainder - w)) /\
  Forall (fun s => cursor <= s.1 /\ 0 <= s.2 /\ s.1 + s.2 <= cursor + slice_counts l) l /\
  length l = workers /\
  (forall k, cursor <= k < cursor + slice_counts l -> exists i s, l !! i = Some s /\ s.1 <= k < s.1 + s.2) /\
  (forall i j s t k, l !! i = Some s -> l !! j = Some t -> s.1 <= k < s.1 + s.2 -> t.1 <= k < t.1 + t.2 -> i = j).
Proof.
  induction workers as [|workers IH]; intros w cursor per_worker remainder Hp Hw Hr; cbn [slices].
  { cbv zeta. cbn. split; [lia|]. split; [constructor|]. split; [done|]. split; [lia|]. intros i j s t k Hi. by rewrite lookup_nil in Hi. }
  set (count := per_worker + _). assert (Hc : 0 <= count) by (subst count; destruct (w <? remainder); lia).
  destruct (IH (w + 1) (cursor + count) per_worker remainder Hp ltac:(lia) ltac:(lia)) as (I1 & I2 & I3 & I4 & I5). cbv zeta in *.
  set (l := slices workers (w + 1) (cursor + count) per_worker remainder) in *. clearbody l. cbn [slice_counts foldr snd]. fold (slice_counts l).
  assert (Hn : 0 <= slice_counts l).
  { rewrite I1. assert (0 <= Z.of_nat workers * per_worker) by (apply Z.mul_nonneg_nonneg; lia). lia. }
  split; [rewrite I1; subst count; destruct (Z.ltb_spec w remainder); lia|]. split; [|split; [cbn; by rewrite I3|split]].
  - constructor; [cbn; lia|]. eapply Forall_impl; [exact I2|]. cbn. intros s (S1 & S2 & S3). lia.
  - intros k Hk. destruct (Z.lt_ge_cases k (cursor + count)) as [Hlt|Hge]; [exists 0%nat, (cursor, count); cbn; split; [done|lia]|].
    destruct (I4 k ltac:(lia)) as (i & s & Hi & Hs). by exists (S i), s.
  - rewrite Forall_lookup in I2. intros [|i] [|j] s t k Hi Hj Hs Ht; cbn in Hi, Hj; [done| | |f_equal; by eapply I5].
    + injection Hi as <-. destruct (I2 j t Hj) as (S1 & _). cbn in Hs. lia.
    + injection Hj as <-. destruct (I2 i s Hi) as (S1 & _). cbn in Ht. lia.
Qed.

(** Every bot is in exactly one slice. *)
Lemma worker_slices_ok config : 0 < lc_threads config -> 0 <= lc_clients config ->
  let l := worker_slices config in
  length l = Z.to_nat (lc_threads config) /\ slice_counts l = lc_clients config /\ Forall (fun s => 0 <= s.2) l /\
  (forall k, 0 <= k < lc_clients config -> exists i s, l !! i = Some s /\ s.1 <= k < s.1 + s.2) /\
  (forall i j s t k, l !! i = Some s -> l !! j = Some t -> s.1 <= k < s.1 + s.2 -> t.1 <= k < t.1 + t.2 -> i = j).
Proof.
  intros Ht Hc. unfold worker_slices. pose proof (Z.mod_pos_bound (lc_clients config) (lc_threads config) Ht) as Hm.
  destruct (slices_spec (Z.to_nat (lc_threads config)) 0 0 (lc_clients config / lc_threads config) (lc_clients config mod lc_threads config)) as (S1 & S2 & S3 & S4 & S5);
    [apply Z.div_pos; lia|lia|lia|]. cbv zeta in *.
  assert (E : slice_counts (slices (Z.to_nat (lc_threads config)) 0 0 (lc_clients config / lc_threads config) (lc_clients config mod lc_threads config)) = lc_clients config).
  { rewrite S1, Z2Nat.id by lia. rewrite Z.max_r, Z.min_r by lia. pose proof (Z.div_mod (lc_clients config) (lc_threads config)). lia. }
  split; [done|]. split; [done|]. split; [eapply Forall_impl; [exact S2|]; cbn; tauto|]. split; [|exact S5]. intros k Hk. apply S4. lia.
Qed.

(** *** The invariant *)
(** What a worker has contributed to [connected_]. *)
Definition applied (x : Worker) : Z := match wk_state x with WorkerExchanged previous => previous | _ => wk_live x end.
Definition sum_of (g : Worker -> Z) (l : list Worker) : Z := foldr (fun x n => g x + n) 0 l.

(** The totals a worker still has to compare with the peak. *)
Definition in_flight (x : Worker) : list Z := match wk_state x with WorkerCounted total | WorkerRaising total _ => [total] | _ => [] end.

Lemma sum_insert g l w x y : l !! w = Some x -> sum_of g (<[w := y]> l) = sum_of g l - g x + g y.
Proof.
  revert w. induction l as [|z l IH]; intros [|w] Hw; cbn in Hw; try done.
  - injection Hw as <-. cbn. lia.
  - change (g z + sum_of g (<[w := y]> l) = g z + sum_of g l - g x + g y). rewrite (IH w Hw). lia.
Qed.

Lemma sum_bounds g workers slices : length workers = length slices ->
  (forall w x s, workers !! w = Some x -> slices !! w = Some s -> 0 <= g x <= s.2) -> 0 <= sum_of g workers <= slice_counts slices.
Proof.
  revert slices. induction workers as [|x workers IH]; intros [|s slices] Hl Hg; try done. cbn [sum_of slice_counts foldr].
  fold (sum_of g workers) (slice_counts slices). pose proof (Hg 0%nat x s eq_refl eq_refl).
  specialize (IH slices ltac:(cbn in Hl; lia) (fun w => Hg (S w))). lia.
Qed.

Record worker_ok (f : Fleet) (slice : Z * Z) (x : Worker) : Prop := {
  wo_live : 0 <= wk_live x <= slice.2;
  wo_applied : 0 <= applied x <= slice.2;
  wo_seen t : t ∈ in_flight x -> t ∈ fl_totals f;
  wo_peak total peak : wk_state x = WorkerRaising total peak -> peak <= fl_peak f
}.

Record fleet_ok (slices : list (Z * Z)) (f : Fleet) : Prop := {
  fo_length : length (fl_workers f) = length slices;
  fo_workers w x s : fl_workers f !! w = Some x -> slices !! w = Some s -> worker_ok f s x;
  fo_connected : fl_connected f = sum_of applied (fl_workers f);
  fo_peak : fl_peak f = 0 \/ fl_peak f ∈ fl_totals f;
  fo_raised t : t ∈ fl_totals f -> t <= fl_peak f \/ exists w x, fl_workers f !! w = Some x /\ t ∈ in_flight x;
  fo_totals : Forall (fun t => 0 <= t <= slice_counts slices) (fl_totals f)
}.

Section FleetRuns.
Context (slices : list (Z * Z)) (Hcounts : Forall (fun s => 0 <= s.2) slices) (Hsmall : slice_counts slices < 2 ^ 32).

Lemma fleet_start_ok : fleet_ok slices (fleet_start slices).
Proof.
  split; cbn; [by rewrite length_fmap| | |by left|by intros t ?%elem_of_nil|constructor].
  - intros w x s Hx Hs. apply list_lookup_fmap_Some in Hx as (y & -> & _). rewrite Forall_lookup in Hcounts. specialize (Hcounts w s Hs).
    split; cbn; [lia|lia|by intros t ?%elem_of_nil|done].
  - induction slices as [|s l IH]; [done|]. cbn. rewrite <- IH; [done|by inversion Hcounts|].
    cbn in Hsmall. inversion Hcounts; subst. fold (slice_counts l) in Hsmall. lia.
Qed.

(** One worker's entry changes; the peak and the totals only grow. *)
Lemma replace_ok w x s y f f' : fleet_ok slices f -> fl_workers f !! w = Some x -> slices !! w = Some s ->
  fl_workers f' = <[w := y]> (fl_workers f) -> fl_peak f <= fl_peak f' -> (exists k, fl_totals f' = fl_totals f ++ k) ->
  worker_ok f' s y -> fl_connected f' = sum_of applied (<[w := y]> (fl_workers f)) ->
  (fl_peak f' = 0 \/ fl_peak f' ∈ fl_totals f') ->
  (forall t, t ∈ fl_totals f' -> t <= fl_peak f' \/ t ∈ in_flight y \/ t ∈ fl_totals f /\ t ∉ in_flight x) ->
  Forall (fun t => 0 <= t <= slice_counts slices) (fl_totals f') -> fleet_ok slices f'.
Proof.
  intros [F1 F2 F3 F4 F5 F6] Hx Hs Ew Hpeak [k Et] Hy Hc Hp Hr Ht. assert (Hlt : (w < length (fl_workers f))%nat) by (by eapply lookup_lt_Some).
  split; rewrite ?Ew; [by rewrite length_insert| |done|done| |done].
  - intros w' x' s' Hx' Hs'. destruct (decide (w' = w)) as [->|Hne].
    + rewrite list_lookup_insert_eq in Hx' by done. injection Hx' as <-. rewrite Hs in Hs'. by injection Hs' as <-.
    + rewrite list_lookup_insert_ne in Hx' by done. destruct (F2 w' x' s' Hx' Hs') as [G1 G2 G3 G4]. split; [done|done| |].
      * intros t Hin. rewrite Et. apply elem_of_app. left. by apply G3.
      * intros total peak E. specialize (G4 total peak E). lia.
  - intros t Hin. destruct (Hr t Hin) as [Hle|[Hfl|[Hold Hnot]]]; [by left|right; exists w, y; by rewrite list_lookup_insert_eq|].
    destruct (F5 t Hold) as [Hle|(w' & x' & Hx' & Hfl)]; [left; lia|]. right. assert (w' <> w) by (intros ->; rewrite Hx in Hx'; by injection Hx' as <-).
    exists w', x'. by rewrite list_lookup_insert_ne.
Qed.

Lemma slice_of w x f : fleet_ok slices f -> fl_workers f !! w = Some x -> exists s, slices !! w = Some s.
Proof. intros Hf Hx. apply lookup_lt_Some in Hx. rewrite (fo_length _ _ Hf) in Hx. by apply lookup_lt_is_Some_2. Qed.
(** A change of worker [w] that leaves the counters alone. *)
Lemma quiet_ok w x s y f : fleet_ok slices f -> fl_workers f !! w = Some x -> slices !! w = Some s -> applied y = applied x ->
  0 <= wk_live y <= s.2 -> (forall t, t ∈ in_flight y -> t ∈ in_flight x) -> (forall t, t ∈ in_flight x -> t <= fl_peak f \/ t ∈ in_flight y) ->
  (forall total peak, wk_state y = WorkerRaising total peak -> peak <= fl_peak f) -> fleet_ok slices (set_worker w y f).
Proof.
  intros Hf Hx Hs Ea Hl Hin Hout Hp. pose proof Hf as [F1 F2 F3 F4 F5 F6]. destruct (F2 w x s Hx Hs) as [G1 G2 G3 G4].
  apply (replace_ok w x s y f); try done.
  - exists []. by rewrite app_nil_r.
  - split; [done|by rewrite Ea|intros t Ht; by apply G3, Hin|done].
  - rewrite (sum_insert _ _ _ _ _ Hx), Ea. cbn. lia.
  - intros t Ht. destruct (decide (t ∈ in_flight x)) as [Hi|Hi]; [destruct (Hout t Hi); auto|auto].
Qed.

Lemma fleet_step_ok f f' : fleet_ok slices f -> fleet_step slices f f' -> fleet_ok slices f'.
Proof.
  intros Hf Hstep. pose proof Hf as [F1 F2 F3 F4 F5 F6].
  destruct Hstep as [w x first count live f Hx Hi Hs Hl|w x previous f Hx Hi|w x total f Hx Hi|w x total peak f Hx Hi Hle|w x total f Hx Hi Hlt|w x total peak f Hx Hi Hlt];
    try (destruct (slice_of w x f Hf Hx) as [s Hs]); destruct (F2 w x _ Hx Hs) as [G1 G2 G3 G4].
  - apply (quiet_ok w x (first, count)); try done; unfold applied, in_flight; cbn; rewrite ?Hi; try done. intros t ?%elem_of_nil. done.
  - assert (Et : total = sum_of applied (fl_workers f) - applied x + wk_live x /\ 0 <= total <= slice_counts slices).
    { subst total. assert (Ha : applied x = previous) by (unfold applied; by rewrite Hi). pose proof (sum_insert applied _ _ _ (mkWorker (wk_live x) WorkerIdle) Hx) as Esum.
      assert (Hb : 0 <= sum_of applied (<[w := mkWorker (wk_live x) WorkerIdle]> (fl_workers f)) <= slice_counts slices).
      { apply sum_bounds; [by rewrite length_insert|]. intros w' x' s' Hx' Hs'. destruct (decide (w' = w)) as [->|Hne].
        - rewrite list_lookup_insert_eq in Hx' by (by eapply lookup_lt_Some). injection Hx' as <-. cbn. rewrite Hs in Hs'. by injection Hs' as <-.
        - rewrite list_lookup_insert_ne in Hx' by done. apply (F2 w' x' s' Hx' Hs'). }
      cbn [applied wk_state wk_live] in Esum. rewrite F3, <- Ha. rewrite wrap_small by (split; lia). lia. }
    destruct Et as [Et Hb]. clearbody total. assert (Hnone : in_flight x = []) by (unfold in_flight; by rewrite Hi).
    apply (replace_ok w x s (mkWorker (wk_live x) (WorkerCounted total)) f); cbn [fl_workers fl_peak fl_totals fl_connected]; try done; try lia.
    + by eexists.
    + split; cbn; try done; try lia. intros t ->%list_elem_of_singleton. apply elem_of_app. right. by apply list_elem_of_singleton.
    + rewrite (sum_insert _ _ _ _ _ Hx). exact Et.
    + destruct F4 as [F4|F4]; [by left|right; apply elem_of_app; by left].
    + intros t [Ht|Ht]%elem_of_app; [right; right; rewrite Hnone; split; [done|apply not_elem_of_nil]|right; by left].
    + apply Forall_app. split; [done|]. by constructor.
  - apply (quiet_ok w x s); try done; unfold applied, in_flight; cbn; rewrite ?Hi; auto. by intros total' peak [= _ <-].
  - pose proof (G4 total peak Hi). apply (quiet_ok w x s); try done; unfold applied, in_flight; cbn; rewrite ?Hi; auto.
    + by intros t ?%elem_of_nil.
    + intros t ->%list_elem_of_singleton. left. lia.
  - assert (Hflight : in_flight x = [total]) by (unfold in_flight; by rewrite Hi).
    assert (Hin : total ∈ fl_totals f) by (apply G3; rewrite Hflight; by apply list_elem_of_singleton).
    apply (replace_ok w x s (mkWorker (wk_live x) WorkerIdle) f); cbn [fl_workers fl_peak fl_totals fl_connected]; try done; try lia.
    + exists []. by rewrite app_nil_r.
    + split; cbn; [done|done|by intros t ?%elem_of_nil|done].
    + rewrite (sum_insert _ _ _ _ _ Hx). unfold applied. rewrite Hi. cbn. unfold applied in F3. lia.
    + by right.
    + intros t Ht. destruct (decide (t = total)) as [->|]; [left; lia|]. right. right. split; [done|]. rewrite Hflight. by rewrite list_elem_of_singleton.
  - apply (quiet_ok w x s); try done; unfold applied, in_flight; cbn; rewrite ?Hi; auto. by intros total' peak' [= _ <-].
Qed.
End FleetRuns.

(** ** Theorems *)
(** The workers' counters agree.  However the threads interleave their exchanges, their
    additions and their attempts on the peak, and however often a compare-and-exchange
    fails: [connected_] never exceeds the number of clients and never underflows, every
    worker's pass over its slice has been counted once between two passes, so that with
    all workers idle [connected_] is the sum of the live counts, and the peak is the
    largest value it ever had. *)
Theorem fleet_counters_agree (config : LoadTestConfig) (f : Fleet) :
  0 < lc_threads config -> 0 <= lc_clients config < 2 ^ 32 ->
  rtc (fleet_step (worker_slices config)) (fleet_start (worker_slices config)) f ->
  fl_connected f = sum_of applied (fl_workers f) /\ 0 <= fl_connected f <= lc_clients config /\
  Forall (fun t => 0 <= t <= lc_clients config) (fl_totals f) /\
  (Forall (fun x => wk_state x = WorkerIdle) (fl_workers f) ->
   fl_connected f = sum_of wk_live (fl_workers f) /\ (fl_peak f = 0 \/ fl_peak f ∈ fl_totals f) /\ Forall (fun t => t <= fl_peak f) (fl_totals f)).
Proof.
  intros Ht Hc Hsteps. destruct (worker_slices_ok config Ht ltac:(lia)) as (_ & Hcount & Hpos & _). set (l := worker_slices config) in *.
  assert (Hok : fleet_ok l f).
  { assert (Hsmall : slice_counts l < 2 ^ 32) by lia. pose proof (fleet_start_ok l Hpos Hsmall) as H0. revert H0. induction Hsteps as [|f1 f2 f3 Hs _ IH]; [done|].
    intros H1. apply IH. by eapply fleet_step_ok. }
  destruct Hok as [F1 F2 F3 F4 F5 F6]. split; [done|]. split; [|split; [by rewrite <- Hcount|]].
  - rewrite F3, <- Hcount. apply sum_bounds; [done|]. intros w x s Hx Hs. apply (F2 w x s Hx Hs).
  - intros Hidle. rewrite Forall_lookup in Hidle. split; [|split; [done|]].
    + rewrite F3. clear -Hidle. induction (fl_workers f) as [|x workers IH]; [done|]. cbn [sum_of foldr]. fold (sum_of applied workers) (sum_of wk_live workers).
      rewrite IH by (intros i; apply (Hidle (S i))). unfold applied at 1. by rewrite (Hidle 0%nat x eq_refl).
    + apply Forall_forall. intros t Hin. destruct (F5 t Hin) as [|(w & x & Hx & Hfl)]; [done|]. unfold in_flight in Hfl. rewrite (Hidle w x Hx) in Hfl. by apply elem_of_nil in Hfl.
Qed.

(** ** Witness: two workers, three bots, one attempt on the peak that comes too late *)
Definition sample_load : LoadTestConfig := mkLoadTestConfig (mkAddress 0 0) (mkAddress 1 7000) "bot" 3 2 200 20 5000 7 5000000 2 WorldParams_default.
Definition sample_fleet : Fleet := mkFleet [mkWorker 2 WorkerIdle; mkWorker 1 WorkerIdle] 3 3 [1; 3].

Lemma sample_fleet_reached : rtc (fleet_step (worker_slices sample_load)) (fleet_start (worker_slices sample_load)) sample_fleet.
Proof.
  eapply rtc_l; [by eapply (step_exchange _ 0 _ 0 2 2)|]. eapply rtc_l; [by eapply (step_exchange _ 1 _ 2 1 1)|].
  eapply rtc_l; [by eapply (step_add _ 1)|]. eapply rtc_l; [by eapply (step_add _ 0)|].
  eapply rtc_l; [by eapply (step_read _ 0)|]. eapply rtc_l; [by eapply (step_read _ 1)|].
  eapply rtc_l; [by eapply (step_raised _ 0 _ 3)|]. eapply rtc_l; [by eapply (step_missed _ 1)|].
  eapply rtc_l; [by eapply (step_settled _ 1 _ 1 3)|]. apply rtc_refl.
Qed.

Lemma fleet_counters_agree_witness : fl_connected sample_fleet = sum_of wk_live (fl_workers sample_fleet) /\ Forall (fun t => t <= fl_peak sample_fleet) (fl_totals sample_fleet).
Proof.
  destruct (fleet_counters_agree sample_load sample_fleet) as (_ & _ & _ & H); [done|done|exact sample_fleet_reached|].
  destruct H as (H1 & _ & H2); [by repeat constructor|by split].
Defined.
