(* ===== verification/ShardRun.v ===== *)
(** * ShardRun: a shard keeps running ([src/src/app/world_server.cpp])

    The invariant of the composed server: the tables of the transport, the table of
    players, the directory by player id and the world's command buffers name the same
    clients, and the world itself is well formed.  Every part of the tick keeps it,
    whatever arrives on the socket and whatever the cluster answers, so no iteration of
    the loop aborts or reads freed memory. *)

From S2P Require Import Prelude F32 Bitstream Quantizer Movement Messages Grid EntityStore World Snapshot SequenceBuffer Reliability Connection Region.
From S2P Require Import Text Redis Store Presence Migration Shard Http Matchmaker WebSocket Metrics WorldServer.
From Stdlib Require Import ZArith Lia Bool Ascii String.
From stdpp Require Import base tactics numbers list option gmap sets fin_maps strings.
#[local] Open Scope Z_scope.

(** ** The world's input sequences are never negative *)
Definition sequences_ok (w : World) : Prop := Forall (Z.le 0) (es_last_input_sequence (w_entities w)).

Lemma Forall_swap_pop {A} (P : A -> Prop) index last (l : list A) : Forall P l -> Forall P (swap_pop index last l).
Proof.
  intros Hl. unfold swap_pop. apply Forall_take. destruct (decide (index = last)); [done|].
  destruct (l !! last) as [x|] eqn:E; [|done]. apply Forall_insert; [done|]. rewrite Forall_lookup in Hl. by apply (Hl last).
Qed.

Lemma Forall_total (l : list Z) i : Forall (Z.le 0) l -> 0 <= l !!! i.
Proof.
  intros Hl. rewrite list_lookup_total_alt. destruct (l !! i) as [x|] eqn:E; [|cbn; lia].
  rewrite Forall_lookup in Hl. by apply (Hl i).
Qed.

Section Worlds.
Context `{Platform}.

Lemma apply_slot_sequences c w : world_ok w -> sequences_ok w -> sequences_ok (apply_slot c w).
Proof.
  intros Hw Hs. unfold apply_slot. destruct (w_players w !! c) as [slot|] eqn:Ec; [|done].
  destruct (store_find _ _) as [index|]; [|done]. pose proof (wo_slot w Hw c slot Ec) as (Hsl & _).
  pose proof (next_input_ok (w_tick w) slot Hsl) as Hn.
  destruct (next_input (w_tick w) slot) as [[input slot'] applied].
  unfold sequences_ok. cbn. apply Forall_insert; [done|]. apply Hn.
Qed.

Lemma apply_inputs_sequences order : forall w, world_ok w -> sequences_ok w -> sequences_ok (apply_inputs order w).
Proof.
  induction order as [|c order IH]; intros w Hw Hs; [done|]. unfold apply_inputs in *. cbn [foldl]. apply IH.
  - eapply evolves_ok; [done|apply apply_slot_evolves].
  - by apply apply_slot_sequences.
Qed.

Lemma drive_drifters_sequences w : es_last_input_sequence (w_entities (drive_drifters w)) = es_last_input_sequence (w_entities w).
Proof.
  unfold drive_drifters. generalize (seq 0 (es_size (w_entities w))). intros l. revert w.
  induction l as [|i l IH]; intros w; [done|]. cbn [foldl]. rewrite IH. unfold drive_drifter. by destruct (negb _).
Qed.

Lemma step_sequences order w w' : world_ok w -> sequences_ok w -> step order w = Some w' -> sequences_ok w'.
Proof.
  intros Hw Hs. unfold step. set (w0 := World.set_stats _ w).
  assert (Hw0 : world_ok w0) by (eapply evolves_ok; [exact Hw|apply set_stats_evolves]).
  assert (Hs1 : sequences_ok (integrate order w0)).
  { unfold integrate, sequences_ok. rewrite drive_drifters_sequences. by apply apply_inputs_sequences. }
  assert (Hw1 : world_ok (integrate order w0)) by (eapply evolves_ok; [exact Hw0|apply integrate_evolves]).
  set (w1 := integrate order w0) in *. clearbody w1.
  pose proof (evolves_ok _ _ Hw1 (build_evolves w1 (wo_grid _ Hw1))) as Hw2. set (w2 := set_grid _ w1) in *.
  destruct (resolve_collisions_spec w2 (wo_grid _ Hw2) (wo_radius _ Hw2)) as (w3 & -> & _ & _ & _ & _ & _ & Eq & _).
  cbn [mbind option_bind]. intros [= <-]. unfold sequences_ok. cbn. by rewrite Eq.
Qed.

(** A step visits the players and keeps who they are. *)
Lemma step_slots w w' : evolves w w' -> forall c, is_Some (w_players w' !! c) <-> is_Some (w_players w !! c).
Proof.
  intros Hev c. pose proof (ev_slots _ _ Hev c) as E. destruct (w_players w !! c), (w_players w' !! c); done.
Qed.

(** *** Leaving *)
Lemma despawn_slot c slot w : world_ok w -> w_players w !! c = Some slot ->
  w_players (despawn (ps_entity slot) w) = delete c (w_players w).
Proof.
  intros Hw Hs. destruct (wo_slot w Hw c slot Hs) as (_ & _ & Hc & Ho). unfold despawn. unfold entity_data in Ho.
  destruct (store_find (ps_entity slot) (w_entities w)) as [index|] eqn:Ef; [|done]. cbn [mbind option_bind] in Ho.
  assert (Hi : es_owner (w_entities w) !!! index = c).
  { unfold data_at in Ho. destruct (es_position (w_entities w) !! index); [|done].
    destruct (es_velocity (w_entities w) !! index); [|done]. destruct (es_kind (w_entities w) !! index); [|done].
    destruct (es_owner (w_entities w) !! index) as [o|] eqn:Eo; [|done].
    destruct (es_last_input_sequence (w_entities w) !! index); [|done]. destruct (es_ai_seed (w_entities w) !! index); [|done].
    cbn in Ho. injection Ho as <-. by apply list_lookup_total_correct. }
  rewrite Hi, (proj2 (Z.eqb_neq c 0)) by done. done.
Qed.

Lemma despawn_sequences e w : sequences_ok w -> sequences_ok (despawn e w).
Proof.
  intros Hs. unfold despawn. destruct (store_find e (w_entities w)) as [index|] eqn:Ef; [|done].
  assert (Hr : sequences_ok (set_entities (snd (store_remove e (w_entities w))) w)).
  { unfold sequences_ok, store_remove. unfold store_find in Ef. rewrite Ef. cbn. by apply Forall_swap_pop. }
  by destruct (negb _).
Qed.

Lemma despawn_next e w : w_next_entity (despawn e w) = w_next_entity w.
Proof. unfold despawn. destruct (store_find e (w_entities w)); [|done]. by destruct (negb _). Qed.

(** *** Entering *)
Definition avatar_data (client : Z) (position velocity : Vec2) (sequence : Z) (d : EntityData) : Prop :=
  ed_position d = position /\ ed_velocity d = velocity /\ ed_owner d = client /\ ed_last_input_sequence d = sequence.

Definition enter (client : Z) (position velocity : Vec2) (sequence : Z) (w : World) : Z * World :=
  let '(entity, w) := spawn_player client position w in (entity, adopt_entity entity client position velocity sequence w).

Lemma adopt_write_data s index client position velocity sequence : store_wf s -> (index < es_size s)%nat ->
  exists d, data_at (adopt_write index client position velocity sequence s) index = Some d /\ avatar_data client position velocity sequence d.
Proof.
  intros [] Hi. unfold data_at, adopt_write. cbn. rewrite !list_lookup_insert_eq by lia.
  destruct (lookup_lt_is_Some_2 (es_kind s) index) as [k Ek]; [lia|].
  destruct (lookup_lt_is_Some_2 (es_ai_seed s) index) as [a Ea]; [lia|]. rewrite Ek, Ea. cbn. by eexists.
Qed.

Lemma enter_spec client position velocity sequence w : world_ok w -> sequences_ok w -> client <> 0 -> w_players w !! client = None ->
  w_next_entity w + 1 < 2 ^ 32 -> 0 <= sequence ->
  let '(entity, w') := enter client position velocity sequence w in
  world_ok w' /\ sequences_ok w' /\ w_next_entity w' = w_next_entity w + 1 /\
  w_players w' = <[client := new_slot entity client sequence]> (w_players w) /\
  w_tick w' = w_tick w /\
  exists d, entity_data (w_entities w') entity = Some d /\ avatar_data client position velocity sequence d.
Proof.
  intros Hw Hs Hc Hn Hnext Hq. unfold enter. pose proof (spawn_player_ok client position w Hw Hc Hn Hnext) as Hw1.
  destruct (spawn_player client position w) as [entity w1] eqn:Es. cbn [snd] in Hw1.
  assert (Ee : entity = w_next_entity w) by (unfold spawn_player in Es; by injection Es).
  assert (E1 : w1 = snd (spawn_player client position w)) by (by rewrite Es). unfold spawn_player in E1. cbn [snd] in E1. rewrite <- Ee in E1.
  assert (Hfind : store_find entity (w_entities w1) = Some (es_size (w_entities w))).
  { rewrite E1. unfold store_find, store_add. cbn. by rewrite lookup_insert_eq. }
  assert (Hpos : 0 < entity /\ w_next_entity w1 = entity + 1).
  { rewrite E1. cbn. rewrite wrap_small by (pose proof (wo_next w Hw); split; lia). pose proof (wo_next w Hw). lia. }
  assert (Had : adoptable entity client w1).
  { split; [done|]. split; [lia|]. split; [lia|]. split.
    - intros slot. rewrite E1. cbn. rewrite lookup_insert_eq. by intros [= <-].
    - intros o. rewrite E1. cbn. rewrite add_owner; [|apply Hw|by apply fresh_id; [|lia]]. rewrite decide_True by done. intros [= <-]. by right. }
  pose proof (adopt_entity_ok entity client position velocity sequence w1 Hw1 Had Hq) as Hw2.
  assert (E2 : adopt_entity entity client position velocity sequence w1 =
    set_players (<[client := new_slot entity client sequence]> (w_players w1))
      (set_entities (adopt_write (es_size (w_entities w)) client position velocity sequence (w_entities w1)) w1)).
  { unfold adopt_entity. by rewrite Hfind. }
  rewrite E2 in *. split; [exact Hw2|]. split.
  { unfold sequences_ok. cbn. apply Forall_insert; [|done]. rewrite E1. cbn. apply Forall_app. split; [done|]. constructor; [lia|constructor]. }
  cbn [w_next_entity w_players w_entities w_tick set_players set_entities]. split; [lia|]. split; [rewrite E1; cbn; by rewrite insert_insert_eq|].
  split; [by rewrite E1|].
  destruct (adopt_write_data (w_entities w1) (es_size (w_entities w)) client position velocity sequence) as (d & Hd & Hav).
  { apply Hw1. }
  { rewrite E1. change (es_size (w_entities w) < length (es_id (w_entities w) ++ [entity]))%nat. rewrite length_app. unfold es_size. cbn [length]. lia. }
  exists d. split; [|done]. unfold entity_data. change (store_find entity (adopt_write ?i ?a ?b ?c ?d (w_entities w1))) with (store_find entity (w_entities w1)).
  rewrite Hfind. exact Hd.
Qed.

Lemma queue_input_same client input w : sequences_ok w -> sequences_ok (queue_input client input w) /\
  w_next_entity (queue_input client input w) = w_next_entity w /\
  (forall c, ps_entity <$> w_players (queue_input client input w) !! c = ps_entity <$> w_players w !! c).
Proof.
  intros Hs. unfold queue_input. destruct (w_players w !! client) as [slot|] eqn:E; [|done]. split; [done|]. split; [done|]. intros c. cbn.
  destruct (decide (c = client)) as [->|]; [|by rewrite lookup_insert_ne]. rewrite lookup_insert_eq, E. cbn. f_equal.
  unfold slot_queue. by destruct (_ && _).
Qed.
End Worlds.

(** ** The invariant of the shard's own state *)
Section Shards.
Context `{Platform} `{MathLib} `{FloatText} `{Redis R} `{Rng G}.
Context (wall : nat -> Z) (random : nat -> Z) (nth_element : nat -> list Candidate -> list Candidate) (visit : Visiting).
Abbreviation App := (ShardState R G).
Abbreviation Server := (ConnectionServer (ShardState R G)).

(** A player is found by its id, and drives the entity its record names. *)
Definition player_ok (a : App) (c : Z) (p : WorldPlayer) : Prop :=
  pl_client p = c /\ sh_by_player_id a !! pl_player_id p = Some c /\ ps_entity <$> w_players (sh_world a) !! c = Some (pl_entity p).

Record app_ok (clients : gset Z) (a : App) : Prop := {
  ak_world : world_ok (sh_world a);
  ak_sequences : sequences_ok (sh_world a);
  ak_clients : dom (sh_players a) = clients;
  ak_slots : dom (w_players (sh_world a)) = clients;
  ak_players : map_Forall (player_ok a) (sh_players a);
  ak_ids : map_Forall (fun id c => exists p, sh_players a !! c = Some p /\ pl_player_id p = id) (sh_by_player_id a);
  ak_fresh c : c ∈ clients -> 0 < c < sh_next_client a;
  ak_next : 0 < sh_next_client a < 2 ^ 32;
  ak_ghosts : map_Forall (fun _ g => 0 <= gs_last_input_sequence g) (sh_ghosts a);
  ak_tickets : map_Forall (fun _ t => 0 <= mt_last_input_sequence t) (sh_redeemed_tickets a);
  ak_capacity : Z.of_nat (size (sh_players a)) <= sf_capacity (sh_config a);
  ak_rate : wp_tick_rate (sf_params (sh_config a)) <> 0;
  ak_regions : rm_regions_per_axis (sf_regions (sh_config a)) <> 0;
  ak_coordinator : rm_regions_per_axis (sc_regions (co_config (sh_coordinator a))) <> 0
}.

(** No admission is under way; it is so between any two datagrams. *)
Definition idle (a : App) : Prop := sh_pending_admits a = ∅ /\ sh_pending_by_player a = ∅.

(** What most operations leave alone. *)
Record keeps (a a' : App) : Prop := {
  kp_config : sh_config a' = sh_config a;
  kp_client : sh_next_client a' = sh_next_client a;
  kp_entity : w_next_entity (sh_world a') = w_next_entity (sh_world a);
  kp_admits : sh_pending_admits a' = sh_pending_admits a;
  kp_by_player : sh_pending_by_player a' = sh_pending_by_player a
}.

#[local] Instance keeps_preorder : PreOrder keeps.
Proof. split; [by intros a|]. intros a b c [] []. split; congruence. Qed.

Lemma keeps_idle a a' : keeps a a' -> idle a -> idle a'.
Proof. intros [] []. split; congruence. Qed.

(** Fields the invariant does not mention. *)
Definition same_core (a a' : App) : Prop :=
  sh_world a' = sh_world a /\ sh_players a' = sh_players a /\ sh_by_player_id a' = sh_by_player_id a /\ sh_ghosts a' = sh_ghosts a /\
  sh_redeemed_tickets a' = sh_redeemed_tickets a /\ sh_next_client a' = sh_next_client a /\ sh_config a' = sh_config a /\
  sh_pending_admits a' = sh_pending_admits a /\ sh_pending_by_player a' = sh_pending_by_player a /\
  co_config (sh_coordinator a') = co_config (sh_coordinator a).

Lemma same_core_ok a a' : same_core a a' -> keeps a a' /\ forall clients, app_ok clients a -> app_ok clients a'.
Proof.
  intros (E1 & E2 & E3 & E4 & E5 & E6 & E7 & E8 & E9 & E10). split; [split; congruence|]. intros clients [].
  split; rewrite ?E1, ?E2, ?E3, ?E4, ?E5, ?E6, ?E7, ?E10; try done. intros c p Hp. unfold player_ok. rewrite E1, E3. by apply ak_players0.
Qed.

Lemma set_coordinator_same co a : co_config co = co_config (sh_coordinator a) -> same_core a (set_coordinator co a).
Proof. intros E. by repeat split. Qed.

(** The players change in what is no part of their identity. *)
Definition same_player (p p' : WorldPlayer) : Prop :=
  pl_client p' = pl_client p /\ pl_player_id p' = pl_player_id p /\ pl_entity p' = pl_entity p.

Lemma alter_player_ok clients c f a : (forall p, sh_players a !! c = Some p -> same_player p (f p)) -> app_ok clients a ->
  app_ok clients (set_sh_players (alter f c (sh_players a)) a).
Proof.
  intros Hf []. split; try done; cbn [sh_players set_sh_players].
  - by rewrite dom_alter_L.
  - intros c' p'. rewrite lookup_alter_Some. intros [(<- & p & Hp & ->)|(_ & Hp)]; [|by apply ak_players0].
    destruct (Hf p Hp) as (E1 & E2 & E3). unfold player_ok. cbn [sh_world sh_by_player_id set_sh_players]. rewrite E1, E2, E3. by apply ak_players0.
  - intros id c' Hid. destruct (ak_ids0 id c' Hid) as (p & Hp & Ep). cbn [sh_players set_sh_players].
    destruct (decide (c' = c)) as [->|].
    + exists (f p). rewrite lookup_alter_eq, Hp. split; [done|]. destruct (Hf p) as (_ & -> & _); [by subst|done].
    + exists p. by rewrite lookup_alter_ne.
  - cbn. rewrite <- size_dom, dom_alter_L, size_dom. done.
Qed.

Lemma insert_player_ok clients c p p' a : sh_players a !! c = Some p -> same_player p p' -> app_ok clients a ->
  app_ok clients (set_sh_players (<[c := p']> (sh_players a)) a).
Proof.
  intros Hp Hs Ha. replace (<[c := p']> (sh_players a)) with (alter (fun _ => p') c (sh_players a)).
  - apply alter_player_ok; [|done]. intros q Hq. rewrite Hp in Hq. by injection Hq as <-.
  - apply map_eq. intros c'. destruct (decide (c' = c)) as [->|]; [by rewrite lookup_alter_eq, lookup_insert_eq, Hp|].
    by rewrite lookup_alter_ne, lookup_insert_ne.
Qed.

Lemma set_world_ok clients w a : world_ok w -> sequences_ok w -> (forall c, ps_entity <$> w_players w !! c = ps_entity <$> w_players (sh_world a) !! c) ->
  app_ok clients a -> app_ok clients (set_world w a).
Proof.
  intros Hw Hs E []. split; try done; cbn [sh_world set_world].
  - rewrite <- ak_slots0. apply set_eq. intros c. rewrite !elem_of_dom. specialize (E c).
    destruct (w_players w !! c), (w_players (sh_world a) !! c); try done; split; intros; by eexists.
  - intros c p Hp. unfold player_ok. cbn [sh_world sh_by_player_id set_world]. rewrite E. by apply ak_players0.
Qed.

(** *** Dropping a player *)
Lemma leave_ghost_ok clients player a : app_ok clients a -> app_ok clients (leave_ghost wall player a) /\ keeps a (leave_ghost wall player a) /\
  sh_world (leave_ghost wall player a) = sh_world a /\ sh_players (leave_ghost wall player a) = sh_players a /\
  sh_by_player_id (leave_ghost wall player a) = sh_by_player_id a.
Proof.
  intros Ha. unfold leave_ghost. destruct (pl_redirecting player); [done|].
  destruct (store_find _ _) as [index|]; cbn [wall_ms]; (split; [|done]); destruct Ha; split; try done.
  apply map_Forall_insert_2; [|done]. cbn. by apply Forall_total.
Qed.

Lemma drop_player_ok clients connection reason a : app_ok clients a ->
  app_ok (clients ∖ {[cn_client_id connection]}) (drop_player wall connection reason a) /\ keeps a (drop_player wall connection reason a).
Proof.
  intros Ha. unfold drop_player. set (c := cn_client_id connection). destruct (sh_players a !! c) as [player|] eqn:Ep.
  2: { split; [|done]. assert (Hc : c ∉ clients) by (rewrite <- (ak_clients _ _ Ha); by apply not_elem_of_dom).
       by rewrite difference_disjoint_L by set_solver. }
  destruct (leave_ghost_ok clients player a Ha) as (Ha1 & Hk & Ew & Epl & Eid). set (a1 := leave_ghost wall player a) in *. clearbody a1.
  rewrite <- Epl in Ep. destruct (ak_players _ _ Ha1 c player Ep) as (E1 & E2 & E3).
  destruct (w_players (sh_world a1) !! c) as [slot|] eqn:Es; [|done]. injection E3 as E3.
  cbn [sh_by_player_id set_world]. rewrite (bool_decide_eq_true_2 _ E2). pose proof Ha1 as [].
  assert (Hd : w_players (despawn (pl_entity player) (sh_world a1)) = delete c (w_players (sh_world a1))).
  { rewrite <- E3. by apply despawn_slot. }
  split; [|by destruct Hk; split; cbn; rewrite ?despawn_next].
  split; cbn [sh_world sh_players sh_by_player_id sh_ghosts sh_redeemed_tickets sh_next_client sh_config set_sh_players set_by_player_id set_world].
  - by apply despawn_ok.
  - by apply despawn_sequences.
  - rewrite dom_delete_L. by rewrite ak_clients0.
  - rewrite Hd, dom_delete_L. by rewrite ak_slots0.
  - intros c' p [Hne Hp]%lookup_delete_Some. destruct (ak_players0 c' p Hp) as (F1 & F2 & F3). unfold player_ok.
    cbn [sh_world sh_players sh_by_player_id set_sh_players set_by_player_id set_world]. split; [done|]. split.
    + rewrite lookup_delete_ne; [done|]. intros E. congruence.
    + rewrite Hd. by rewrite lookup_delete_ne.
  - intros id c' [Hne Hid]%lookup_delete_Some. destruct (ak_ids0 id c' Hid) as (p & Hp & Eid'). exists p. split; [|done].
    rewrite lookup_delete_ne; [done|]. intros ->. congruence.
  - intros c' [Hc' _]%elem_of_difference. by apply ak_fresh0.
  - done.
  - done.
  - done.
  - rewrite map_size_delete, Ep. lia.
  - done.
  - done.
  - done.
Qed.

(** *** Commands *)
Lemma take_command_ok clients c a i : received_input i -> app_ok clients a ->
  app_ok clients (take_command c a i) /\ keeps a (take_command c a i).
Proof.
  intros (Hs & _ & Hl) Ha. unfold take_command. rewrite (quantize_level_input i Hl). cbv zeta.
  destruct (queue_input_same c i (sh_world a) (ak_sequences _ _ Ha)) as (Q1 & Q2 & Q3).
  assert (Hw : app_ok clients (set_world (queue_input c i (sh_world a)) a)).
  { apply set_world_ok; [|done|done|done]. apply queue_input_ok; [apply Ha|apply Hs|by apply level_analog]. }
  split; [|by split].
  apply (alter_player_ok clients c (fun p => if pl_last_input_sequence p <? mi_sequence i then set_pl_sequence (mi_sequence i) p else p)
    (set_world (queue_input c i (sh_world a)) a)); [|done].
  intros p _. by destruct (_ <? _).
Qed.

Lemma take_commands_ok clients c l : Forall received_input l -> forall a, app_ok clients a ->
  app_ok clients (foldl (take_command c) a l) /\ keeps a (foldl (take_command c) a l).
Proof.
  induction 1 as [|i l Hi _ IH]; intros a Ha; [done|]. cbn [foldl].
  destruct (take_command_ok clients c a i Hi Ha) as [Hok1 K1]. destruct (IH _ Hok1) as [Hok2 K2]. split; [done|]. by etransitivity.
Qed.

Lemma take_payload_ok clients connection data a : Forall (fits 8) data -> 8 * Z.of_nat (length data) < 2 ^ 31 -> app_ok clients a ->
  app_ok clients (take_payload connection data a) /\ keeps a (take_payload connection data a).
Proof.
  intros Hf Hl Ha. unfold take_payload. destruct data as [|channel data']; [done|]. set (data := channel :: data') in *.
  destruct (negb _); [done|]. destruct (sh_players a !! cn_client_id connection) as [player|] eqn:Ep; [|done].
  destruct (pl_redirecting player); [done|]. destruct (reader_wf_new data Hf Hl) as [Hr _].
  pose proof (decode_input_packet_yields _ Hr) as [Hy _]. destruct (fst (decode_input_packet _)) as [packet|]; [|done].
  destruct Hy as (_ & _ & _ & Hi). destruct (take_commands_ok clients (cn_client_id connection) _ Hi a Ha) as [Hok1 K1].
  set (a1 := foldl _ a _) in *. clearbody a1. cbv zeta.
  destruct (same_core_ok a1 (add_inputs (Z.of_nat (length (ip_inputs packet))) a1)) as [K2 Hok2]; [by repeat split|].
  specialize (Hok2 clients Hok1). destruct (_ && _).
  - split; [|by etransitivity; [exact K1|]]. apply (alter_player_ok clients _ _ (add_inputs (Z.of_nat (length (ip_inputs packet))) a1)); [|done].
    by intros p _.
  - split; [done|]. by etransitivity.
Qed.

(** *** Admissions *)
(** An admission under way: one entry, a client id that was not used before, and room. *)
Record admitting (clients : gset Z) (entry : PendingAdmit) (a : App) : Prop := {
  ad_admits : sh_pending_admits a = {[pa_client entry := entry]};
  ad_by_player : sh_pending_by_player a = {[cc_player_id (pa_credential entry) := pa_client entry]};
  ad_client : 0 < pa_client entry < sh_next_client a;
  ad_new : pa_client entry ∉ clients;
  ad_ticket : forall ticket, pa_ticket entry = Some ticket -> 0 <= mt_last_input_sequence ticket;
  ad_room : Z.of_nat (size (sh_players a)) < sf_capacity (sh_config a)
}.

Lemma yields_float : yields read_float (fun _ => True).
Proof. eapply yields_bind; [apply yields_u32|]. intros. by apply yields_ret. Qed.

Lemma read_ticket_yields : yields read_ticket (fun o => match o with Some t => 0 <= mt_last_input_sequence t | None => True end).
Proof.
  eapply yields_bind; [apply yields_varint|]. intros version _. destruct (negb _); [by apply yields_ret|].
  eapply yields_bind; [apply yields_u64|]. intros ? _. do 3 (eapply yields_bind; [apply yields_string|]; intros ? _).
  eapply yields_bind; [apply yields_varint|]. intros ? _. eapply yields_bind; [apply yields_u32|]. intros ? _.
  do 4 (eapply yields_bind; [apply yields_float|]; intros ? _).
  eapply yields_bind; [apply yields_varint|]. intros sequence Hs. eapply yields_bind; [apply yields_u64|]. intros ? _.
  apply yields_check; [done|]. destruct (string_empty _); apply yields_ret; [done|]. apply Hs.
Qed.

Lemma decoded_sequence blob t : decode_migration_ticket blob = Some t -> 0 <= mt_last_input_sequence t.
Proof.
  unfold decode_migration_ticket. set (data := string_bytes blob). unfold kMigrationTicketBytes.
  destruct (Z.ltb_spec (Z.of_nat (String.length blob)) 5); [done|]. destruct (Z.ltb_spec 512 (Z.of_nat (String.length blob))); [done|]. cbn [orb].
  rewrite wrap_small by (split; lia). destruct (negb _); [done|].
  assert (Hl : length data = String.length blob) by apply length_string_bytes.
  assert (Hr : reader_wf (BitReader_new data (Z.of_nat (String.length blob) - 4))).
  { unfold BitReader_new. rewrite wrap_small by (split; lia). split; cbn [br_capacity_bits br_buffer br_bit_pos]; [lia|lia|apply string_bytes_fits]. }
  destruct (read_ticket_yields _ Hr) as [Hy _]. intros E. by rewrite E in Hy.
Qed.

Lemma accepted_sequence (co : ShardCoordinator R G) token ticket :
  snd (accept_handoff co token) = Some ticket -> 0 <= mt_last_input_sequence ticket.
Proof.
  unfold accept_handoff, redeem. destruct (registry_command _ _) as [g reply]. destruct (negb _); [done|].
  destruct (decode_migration_ticket (rr_str reply)) as [t|] eqn:Ed; [|done]. destruct (negb _); [done|].
  destruct (negb _); [done|]. cbn [snd]. intros [= <-]. by eapply decoded_sequence.
Qed.

Lemma ticket_for_ok clients token a : app_ok clients a ->
  let '(out, a') := ticket_for token a in
  app_ok clients a' /\ keeps a a' /\ sh_players a' = sh_players a /\ forall ticket, out = Some ticket -> 0 <= mt_last_input_sequence ticket.
Proof.
  intros Ha. unfold ticket_for. destruct (sh_redeemed_tickets a !! token) as [ticket|] eqn:Et.
  { split; [done|]. split; [done|]. split; [done|]. intros t [= <-]. by apply (ak_tickets _ _ Ha token). }
  pose proof (accepted_sequence (sh_coordinator a) token) as Hs. pose proof (accept_handoff_config (sh_coordinator a) token) as Hco.
  destruct (accept_handoff _ _) as [co out]. cbn [fst snd] in Hs, Hco.
  destruct (same_core_ok a (set_coordinator co a)) as [K1 Hok1]; [by apply set_coordinator_same|]. specialize (Hok1 clients Ha). cbv zeta.
  destruct out as [ticket|]; [|done]. specialize (Hs ticket eq_refl). split; [|split; [done|split; [done|by intros t [= <-]]]].
  destruct Hok1. split; try done. by apply map_Forall_insert_2.
Qed.

Lemma check_credential_ok clients credential a : app_ok clients a ->
  let '(out, a') := check_credential credential a in
  app_ok clients a' /\ keeps a a' /\ sh_players a' = sh_players a /\
  forall region ticket, out = inr (region, Some ticket) -> 0 <= mt_last_input_sequence ticket.
Proof.
  intros Ha. unfold check_credential. destruct (cc_kind credential).
  - destruct (negb (sf_advertise (sh_config a))); [by split_and!|]. pose proof (with_registry_config (sh_coordinator a) (fun g => get_presence g (cc_player_id credential))) as Hco.
    destruct (with_registry _ _) as [co record]. destruct (same_core_ok a (set_coordinator co a)) as [K1 Hok1]; [by apply set_coordinator_same|]. specialize (Hok1 clients Ha). cbv zeta.
    destruct record as [record|]; [|by split_and!]. destruct (negb _); [by split_and!|]. destruct (negb _); by split_and!.
  - pose proof (ticket_for_ok clients (cc_token credential) a Ha) as Ht. destruct (ticket_for _ _) as [out a1]. destruct Ht as (Hok1 & K1 & E1 & Hs).
    destruct out as [ticket|]; [|by split_and!]. destruct (negb _); [by split_and!|]. split; [done|]. split; [done|]. split; [done|].
    intros region t [= _ <-]. by apply Hs.
Qed.

(** The owner's answer to a handshake: a refusal changes nothing that matters, and an
    admission leaves exactly one entry, for the client id it answers with. *)
Lemma admit_player_ok clients from token a : app_ok clients a -> idle a -> sh_next_client a + 1 < 2 ^ 32 ->
  let '(decision, a') := admit_player wall from token a in
  app_ok clients a' /\ sh_config a' = sh_config a /\ w_next_entity (sh_world a') = w_next_entity (sh_world a) /\
  if de_admit decision
  then exists entry, admitting clients entry a' /\ de_client_id decision = pa_client entry /\ sh_next_client a' = sh_next_client a + 1
  else idle a' /\ sh_next_client a' = sh_next_client a.
Proof.
  intros Ha [Hp1 Hp2] Hroom. unfold admit_player.
  assert (Hdeny : forall reason a1, app_ok clients a1 -> keeps a a1 ->
    app_ok clients (bump_denied a1) /\ sh_config (bump_denied a1) = sh_config a /\
    w_next_entity (sh_world (bump_denied a1)) = w_next_entity (sh_world a) /\
    if de_admit (denied reason)
    then exists entry, admitting clients entry (bump_denied a1) /\ de_client_id (denied reason) = pa_client entry /\ sh_next_client (bump_denied a1) = sh_next_client a + 1
    else idle (bump_denied a1) /\ sh_next_client (bump_denied a1) = sh_next_client a).
  { intros reason a1 Hok1 K1. destruct (same_core_ok a1 (bump_denied a1)) as [K2 Hok2]; [by repeat split|].
    destruct K1 as [E1 E2 E3 E4 E5]. cbn. split; [by apply Hok2|]. split; [done|]. split; [done|]. split; [|done]. split; cbn; congruence. }
  destruct (decode_credential token) as [credential|]; [|exact (Hdeny kBadToken a Ha ltac:(done))].
  unfold wall_ms. cbn [fst snd]. destruct (same_core_ok a (advance_clock a)) as [K1 Hok1]; [by repeat split|]. specialize (Hok1 clients Ha).
  assert (Hnone : forall now, pending_entry credential now (advance_clock a) = None).
  { intros now. unfold pending_entry. cbn [sh_pending_by_player advance_clock]. by rewrite Hp2, lookup_empty. }
  rewrite Hnone. destruct (Z.leb_spec (sf_capacity (sh_config (advance_clock a))) (Z.of_nat (size (sh_players (advance_clock a))))) as [|Hcap]; [exact (Hdeny kServerFull _ Hok1 K1)|].
  pose proof (check_credential_ok clients credential (advance_clock a) Hok1) as Hc.
  destruct (check_credential credential (advance_clock a)) as [out a2]. destruct Hc as (Hok2 & K2 & E2 & Hs).
  assert (K : keeps a a2) by (by etransitivity). clear K1 K2. destruct out as [reason|[region ticket]]; [exact (Hdeny reason _ Hok2 K)|].
  cbn [de_admit admitted de_client_id]. destruct K as [F1 F2 F3 F4 F5]. destruct Hok2.
  cbn [sh_config sh_players advance_clock] in *.
  split; [|cbn; split; [done|]; split; [done|]].
  - split; try done; cbn [sh_next_client set_pending_admits set_next_client].
    + intros c Hc. apply ak_fresh0 in Hc. rewrite wrap_small by (split; lia). lia.
    + rewrite wrap_small by (split; lia). lia.
  - eexists (mkPendingAdmit (sh_next_client a2) _ _ _ _). split; [|split; [cbn; by rewrite wrap_small by (split; lia)|cbn; rewrite wrap_small by (split; lia); lia]].
    split; cbn [sh_pending_admits sh_pending_by_player sh_next_client sh_players sh_config set_pending_admits set_next_client pa_client pa_credential pa_ticket].
    + by rewrite F4, Hp1.
    + by rewrite F5, Hp2.
    + rewrite wrap_small by (split; lia). lia.
    + intros Hc. apply ak_fresh0 in Hc. lia.
    + intros t ->. by eapply Hs.
    + rewrite E2. cbn. congruence.
Qed.
(** ** The transport and the shard together *)
Record linked (s : Server) : Prop := {
  lk_tables : tables_ok s;
  lk_back a c : sv_connections s !! a = Some c -> sv_by_client s !! cn_client_id c = Some a
}.

Definition clients_in (s : Server) : gset Z := dom (sv_by_client s).

Record shard_ok (s : Server) : Prop := {
  sk_linked : linked s;
  sk_app : app_ok (clients_in s) (sv_app s);
  sk_idle : idle (sv_app s)
}.

(** The two counters that must not wrap. *)
Definition counters (s : Server) : Z * Z := (sh_next_client (sv_app s), w_next_entity (sh_world (sv_app s))).

Lemma keeps_counters (s s' : Server) : keeps (sv_app s) (sv_app s') -> counters s' = counters s.
Proof. intros []. unfold counters. congruence. Qed.

(** What a step that neither takes a client id nor an entity id does. *)
Definition steady (s s' : Server) : Prop := shard_ok s -> shard_ok s' /\ counters s' = counters s.

#[local] Instance steady_preorder : PreOrder steady.
Proof.
  split; [by intros s|]. intros s1 s2 s3 E1 E2 Hs. destruct (E1 Hs) as [Hs2 F1]. destruct (E2 Hs2) as [Hs3 F2]. split; [done|congruence].
Qed.

Lemma foldl_steady {A} (f : Server -> A -> Server) l : (forall s x, steady s (f s x)) -> forall s, steady s (foldl f s l).
Proof.
  intros Hf. induction l as [|x l IH]; intros s; [reflexivity|]. cbn [foldl]. etransitivity; [apply Hf|apply IH].
Qed.

(** A change of the shard's own state. *)
Lemma set_app_steady a (s : Server) : (app_ok (clients_in s) (sv_app s) -> app_ok (clients_in s) a /\ keeps (sv_app s) a) -> steady s (set_app a s).
Proof.
  intros Hf [Hl Ha Hi]. destruct (Hf Ha) as [Hok Hk]. split; [|by apply keeps_counters]. split; [by destruct Hl|done|by apply (keeps_idle (sv_app s))].
Qed.

(** A change of connections that keeps their peers, or of what was sent. *)
Lemma linked_same (s s' : Server) : sv_connections s' = sv_connections s -> sv_by_client s' = sv_by_client s -> linked s -> linked s'.
Proof. intros E1 E2 [Ht Hb]. split; [unfold tables_ok in *; by rewrite E1, E2|]. by rewrite E1, E2. Qed.

Lemma set_connection_linked from c c' (s : Server) : linked s -> sv_connections s !! from = Some c -> same_peer c c' -> fits 32 (cn_entity c') ->
  linked (set_connection from c' s).
Proof.
  intros [Ht Hb] Hc Hs He. split; [by eapply tables_update|]. cbn [set_connection set_connections sv_connections sv_by_client].
  intros a x. destruct (decide (a = from)) as [->|]; [|rewrite lookup_insert_ne by done; apply Hb].
  rewrite lookup_insert_eq. intros [= <-]. destruct Hs as (-> & _ & _). by apply Hb.
Qed.

Lemma quiet_steady (s s' : Server) : sv_by_client s' = sv_by_client s -> sv_app s' = sv_app s -> (linked s -> linked s') -> steady s s'.
Proof.
  intros E1 E2 El [Hl Ha Hi]. split; [|unfold counters; by rewrite E2]. split; [by apply El|unfold clients_in; by rewrite E1, E2|by rewrite E2].
Qed.

Lemma send_to_steady to bytes (s : Server) : steady s (send_to to bytes s).
Proof. apply quiet_steady; [done|done|]. by apply linked_same. Qed.

Lemma peer_steady from c c' (s : Server) : sv_connections s !! from = Some c -> same_peer c c' -> cn_entity c' = cn_entity c ->
  steady s (set_connection from c' s).
Proof.
  intros Hc Hp He. apply quiet_steady; [done|done|]. intros Hl. eapply set_connection_linked; [done|done|done|].
  rewrite He. destruct (lk_tables _ Hl) as [Ht _]. apply (Ht from c Hc).
Qed.

(** *** Disconnects *)
Section Drops.
Context (handlers : Handlers App) (Hdrop : on_disconnect handlers = drop_player wall).

(** [X]: clients that are connected but have no player yet. *)
Lemma drop_connection_ok X address reason (s : Server) : linked s -> app_ok (clients_in s ∖ X) (sv_app s) ->
  let s' := remove_connection handlers address reason s in
  linked s' /\ app_ok (clients_in s' ∖ X) (sv_app s') /\ keeps (sv_app s) (sv_app s') /\
  (forall c, sv_connections s !! address = Some c -> clients_in s' = clients_in s ∖ {[cn_client_id c]}) /\
  sv_connections s' = delete address (sv_connections s).
Proof.
  intros Hl Ha s'. pose proof (remove_connection_tables handlers address reason s (lk_tables _ Hl)) as Ht. fold s' in Ht.
  subst s'. unfold remove_connection in *. destruct (sv_connections s !! address) as [c|] eqn:Ec.
  2: { split; [done|]. split; [done|]. split; [done|]. split; [done|]. by rewrite delete_id. }
  rewrite Hdrop. destruct (drop_player_ok _ c reason _ Ha) as [Hok1 K1].
  cbn [sv_app sv_by_client sv_connections set_connections set_by_client set_app] in *.
  assert (Ecl : dom (delete (cn_client_id c) (sv_by_client s)) = clients_in s ∖ {[cn_client_id c]}) by apply dom_delete_L.
  unfold clients_in at 1 3. cbn [sv_by_client set_connections set_by_client set_app]. rewrite Ecl.
  split; [|split; [|split; [done|split; [by intros x [= <-]|done]]]].
  - split; [done|]. intros a x Hx. cbn [sv_connections sv_by_client set_connections set_by_client set_app] in *.
    apply lookup_delete_Some in Hx as [Hne Hx].
    pose proof (lk_back _ Hl a x Hx) as Hbx. rewrite lookup_delete_ne; [done|]. intros E. pose proof (lk_back _ Hl address c Ec) as Hbc.
    rewrite E in Hbc. congruence.
  - replace (clients_in s ∖ {[cn_client_id c]} ∖ X) with (clients_in s ∖ X ∖ {[cn_client_id c]}); [done|].
    by rewrite !difference_difference_l_L, (union_comm_L X).
Qed.

Lemma drop_disconnect_ok X connection reason (s : Server) : linked s -> app_ok (clients_in s ∖ X) (sv_app s) ->
  let s' := Connection.disconnect handlers connection reason s in
  linked s' /\ app_ok (clients_in s' ∖ X) (sv_app s') /\ keeps (sv_app s) (sv_app s') /\
  (forall c, sv_connections s !! cn_address connection = Some c -> clients_in s' = clients_in s ∖ {[cn_client_id c]}) /\
  sv_connections s' = delete (cn_address connection) (sv_connections s).
Proof.
  intros Hl Ha. unfold Connection.disconnect. set (s1 := Nat.iter 3 _ s).
  assert (E : sv_connections s1 = sv_connections s /\ sv_by_client s1 = sv_by_client s /\ sv_app s1 = sv_app s) by done.
  destruct E as (E1 & E2 & E3). clearbody s1.
  assert (Hl1 : linked s1) by (by apply (linked_same s)). unfold clients_in in *. rewrite <- E1, <- E2, <- E3 in *.
  by apply drop_connection_ok.
Qed.

Lemma remove_steady address reason (s : Server) : steady s (remove_connection handlers address reason s).
Proof.
  intros [Hl Ha Hi]. destruct (drop_connection_ok ∅ address reason s Hl) as (Hl' & Ha' & Hk & _); [by rewrite difference_empty_L|].
  rewrite difference_empty_L in Ha'. split; [|by apply keeps_counters]. split; [done|done|by apply (keeps_idle (sv_app s))].
Qed.

Lemma disconnect_steady connection reason (s : Server) : steady s (Connection.disconnect handlers connection reason s).
Proof. unfold Connection.disconnect. cbn [Nat.iter]. etransitivity; [|apply remove_steady]. do 3 (etransitivity; [|apply send_to_steady]). reflexivity. Qed.

Lemma timeout_steady now (s : Server) : steady s (timeout_connections handlers now s).
Proof. apply foldl_steady. intros. apply remove_steady. Qed.
End Drops.

(** *** Sending *)
Lemma send_payload_steady a data now (s : Server) : steady s (send_payload a data now s).
Proof.
  unfold send_payload. destruct (sv_connections s !! a) as [c|] eqn:Ec; [|reflexivity].
  destruct (payload_packet _ _ _ _) as [[bytes|] endpoint]; [|by apply (peer_steady a c)].
  etransitivity; [|apply send_to_steady]. by apply (peer_steady a c).
Qed.

Lemma send_event_steady a data (s : Server) : steady s (send_event a data s).
Proof. unfold send_event. destruct (sv_connections s !! a) as [c|] eqn:Ec; [|reflexivity]. by apply (peer_steady a c). Qed.

Lemma flush_steady now (s : Server) : steady s (Connection.flush now s).
Proof.
  apply foldl_steady. clear s. intros s a. unfold flush_connection. destruct (sv_connections s !! a) as [c|] eqn:Ec; [|reflexivity]. cbv zeta.
  assert (Hp : steady s (set_connection a (set_reliability (endpoint_update now (cn_reliability c)) c) s)) by (by apply (peer_steady a c)).
  destruct (_ || _); [|exact Hp]. etransitivity; [exact Hp|apply send_payload_steady].
Qed.

Lemma same_core_steady a (s : Server) : same_core (sv_app s) a -> steady s (set_app a s).
Proof. intros Hc. apply set_app_steady. intros Ha. destruct (same_core_ok _ _ Hc) as [Hk Hok]. split; [by apply Hok|done]. Qed.

Lemma send_event_app a data (s : Server) : sv_app (send_event a data s) = sv_app s.
Proof. unfold send_event. by destruct (sv_connections s !! a). Qed.

(** *** A client that enters *)
Lemma add_connection_linked from id x token now (s : Server) : linked s -> sv_connections s !! from = None -> id ∉ clients_in s ->
  fits 64 x -> fits 32 id ->
  let s' := add_connection from id x token now s in
  linked s' /\ clients_in s' = {[id]} ∪ clients_in s /\ sv_app s' = sv_app s /\
  exists c, sv_connections s' !! from = Some c /\ cn_client_id c = id.
Proof.
  intros [[T1 T2] Hb] Hn Hid Hx Hfit. unfold add_connection, clients_in in *.
  cbn [sv_connections sv_by_client sv_app count_completed set_by_client set_connections set_pending]. rewrite not_elem_of_dom in Hid.
  split; [|split; [apply dom_insert_L|split; [done|eexists; split; [apply lookup_insert_eq|done]]]]. split; [split|].
  - cbn [sv_connections count_completed set_by_client set_connections]. apply map_Forall_insert_2; [|done].
    split; cbn; [done|done|done|split; unfold kInvalidEntity; lia].
  - cbn [sv_connections sv_by_client count_completed set_by_client set_connections]. apply map_Forall_insert_2.
    + eexists. by rewrite lookup_insert_eq.
    + intros i a Ha. destruct (T2 i a Ha) as (c & Hc & Ec). exists c. split; [|done]. rewrite lookup_insert_ne; [done|]. congruence.
  - intros a c. cbn [sv_connections sv_by_client count_completed set_by_client set_connections].
    destruct (decide (a = from)) as [->|Hne].
    + rewrite lookup_insert_eq. intros [= <-]. cbn. by rewrite lookup_insert_eq.
    + rewrite lookup_insert_ne by done. intros Hc. pose proof (Hb a c Hc) as Hbc. rewrite lookup_insert_ne; [done|]. congruence.
Qed.

(** Where the avatar of an admission starts does not depend on the connection. *)
Lemma placement_ok clients entry client a : app_ok clients a ->
  (forall ticket, pa_ticket entry = Some ticket -> 0 <= mt_last_input_sequence ticket) ->
  exists position velocity sequence region migrated a', placement wall entry client a = Some ((position, velocity, sequence, region, migrated), a') /\
  app_ok clients a' /\ keeps a a' /\ sh_world a' = sh_world a /\ sh_players a' = sh_players a /\ sh_by_player_id a' = sh_by_player_id a /\ 0 <= sequence.
Proof.
  intros Ha Ht. unfold placement. destruct (pa_ticket entry) as [ticket|].
  { destruct (same_core_ok a (bump_migrations_in a)) as [K1 Hok1]; [by repeat split|]. do 6 eexists. split; [done|]. split_and!; auto. }
  assert (Hspread : forall a' : App, sh_config a' = sh_config a -> is_Some (spread_position (sh_config a') (pa_region entry) client)).
  { intros a' ->. unfold spread_position. destruct (center_of_some (sf_regions (sh_config a)) (pa_region entry) (ak_regions _ _ Ha)) as [c ->]. by eexists. }
  destruct (sh_ghosts a !! cc_player_id (pa_credential entry)) as [ghost|] eqn:Eg.
  2:{ destruct (Hspread a eq_refl) as [q ->]. cbn [mbind option_bind]. do 6 eexists. split; [done|]. by split_and!. }
  unfold wall_ms. destruct (same_core_ok a (advance_clock a)) as [K1 Hok1]; [by repeat split|]. specialize (Hok1 clients Ha).
  destruct (_ && _).
  - do 6 eexists. split; [done|]. split; [|by split_and!; [| | | |apply (ak_ghosts _ _ Ha _ _ Eg)]]. destruct Hok1. split; try done. by apply map_Forall_delete.
  - destruct (Hspread (advance_clock a) eq_refl) as [q ->]. cbn [mbind option_bind]. do 6 eexists. split; [done|]. by split_and!.
Qed.

(** The new avatar: a player the tables did not have. *)
Lemma enter_world_ok clients entry client a : app_ok clients a -> client ∉ clients -> 0 < client < sh_next_client a ->
  sh_by_player_id a !! cc_player_id (pa_credential entry) = None -> w_next_entity (sh_world a) + 1 < 2 ^ 32 ->
  Z.of_nat (size (sh_players a)) < sf_capacity (sh_config a) ->
  (forall ticket, pa_ticket entry = Some ticket -> 0 <= mt_last_input_sequence ticket) ->
  exists player a', enter_world wall entry client a = Some (player, a') /\
  app_ok ({[client]} ∪ clients) a' /\ sh_config a' = sh_config a /\ sh_next_client a' = sh_next_client a /\
  w_next_entity (sh_world a') = w_next_entity (sh_world a) + 1 /\
  sh_pending_admits a' = sh_pending_admits a /\ sh_pending_by_player a' = sh_pending_by_player a /\
  sh_players a' = <[client := player]> (sh_players a) /\ fits 32 (pl_entity player) /\
  exists position velocity sequence region migrated a1, placement wall entry client a = Some ((position, velocity, sequence, region, migrated), a1) /\
  player = mkWorldPlayer client (cc_player_id (pa_credential entry)) (pl_entity player) region (cc_token (pa_credential entry)) sequence 0 0 false migrated
             (rs_configure (sf_interest (sh_config a)) (sf_params (sh_config a)) ReplicationState_blank) /\
  w_players (sh_world a') !! client = Some (new_slot (pl_entity player) client sequence) /\
  exists d, entity_data (w_entities (sh_world a')) (pl_entity player) = Some d /\ avatar_data client position velocity sequence d.
Proof.
  intros Ha Hnew Hfresh Hid Hroom Hcap Ht. unfold enter_world.
  destruct (placement_ok clients entry client a Ha Ht) as (position & velocity & sequence & region & migrated & a1 & Epm & Ha1 & [E1 E2 E3 E4 E5] & Ew & Epl & Eby & Hseq).
  rewrite Epm. cbn [mbind option_bind].
  assert (Hslot : w_players (sh_world a1) !! client = None).
  { apply not_elem_of_dom. by rewrite (ak_slots _ _ Ha1). }
  assert (Hnone : sh_players a1 !! client = None).
  { apply not_elem_of_dom. by rewrite (ak_clients _ _ Ha1). }
  pose proof (enter_spec client position velocity sequence (sh_world a1) (ak_world _ _ Ha1) (ak_sequences _ _ Ha1) ltac:(lia) Hslot ltac:(lia) Hseq) as He.
  unfold enter in He. destruct (spawn_player client position (sh_world a1)) as [entity w1] eqn:Es.
  destruct He as (Hw & Hs & Hn & Hpl & Htick & Hd). set (w2 := adopt_entity entity client position velocity sequence w1) in *. clearbody w2.
  assert (Hent : fits 32 entity).
  { unfold spawn_player in Es. injection Es as <- _. pose proof (wo_next _ (ak_world _ _ Ha1)). unfold fits. lia. }
  cbn [sh_players set_world set_by_player_id]. rewrite Hnone. cbn [fst snd].
  cbn [sh_config sh_next_client sh_world sh_pending_admits sh_pending_by_player sh_players set_sh_players set_by_player_id set_world pl_entity].
  do 2 eexists. split; [reflexivity|].
  cbn [sh_config sh_next_client sh_world sh_pending_admits sh_pending_by_player sh_players set_sh_players set_by_player_id set_world pl_entity].
  split; [|split_and!; try (congruence || (rewrite ?Hn; lia) || done);
    exists position, velocity, sequence, region, migrated, a1; split; [done|]; split; [by rewrite E1|split; [by rewrite Hpl, lookup_insert_eq|done]]].
  destruct Ha1. rewrite <- Eby in Hid.
  split; cbn [sh_config sh_next_client sh_world sh_players sh_by_player_id sh_ghosts sh_redeemed_tickets set_sh_players set_by_player_id set_world]; try done.
  - rewrite dom_insert_L. by rewrite ak_clients0.
  - rewrite Hpl, dom_insert_L. by rewrite ak_slots0.
  - apply map_Forall_insert_2.
    + unfold player_ok. cbn. rewrite lookup_insert_eq, Hpl, lookup_insert_eq. by split_and!.
    + intros c p Hc. destruct (ak_players0 c p Hc) as (F1 & F2 & F3). assert (c <> client) by (intros ->; by rewrite Hnone in Hc).
      unfold player_ok. cbn. rewrite Hpl, !lookup_insert_ne; [by split_and!|done|]. congruence.
  - apply map_Forall_insert_2.
    + eexists. by rewrite lookup_insert_eq.
    + intros id c Hc. destruct (ak_ids0 id c Hc) as (p & Hpc & Ep). exists p. split; [|done].
      rewrite lookup_insert_ne; [done|]. intros <-. by rewrite Hnone in Hpc.
  - intros c [->%elem_of_singleton|Hc]%elem_of_union; [lia|by apply ak_fresh0].
  - rewrite map_size_insert_None by done. rewrite Epl, E1. lia.
Qed.

(** *** The connect callback *)
Lemma drop_player_tables clients connection reason a p : app_ok clients a -> sh_players a !! cn_client_id connection = Some p ->
  sh_players (drop_player wall connection reason a) = delete (cn_client_id connection) (sh_players a) /\
  sh_by_player_id (drop_player wall connection reason a) = delete (pl_player_id p) (sh_by_player_id a).
Proof.
  intros Ha Hp. unfold drop_player. rewrite Hp. destruct (leave_ghost_ok clients p a Ha) as (_ & _ & _ & Epl & Eid).
  destruct (ak_players _ _ Ha _ p Hp) as (_ & Hid & _). cbn [sh_by_player_id set_world]. rewrite Eid.
  rewrite (bool_decide_eq_true_2 _ Hid). cbn [sh_players sh_by_player_id set_sh_players set_by_player_id set_world]. by rewrite Epl.
Qed.

Lemma find_spec c (s : Server) : linked s -> c ∈ clients_in s ->
  exists a x, Connection.find c s = Some x /\ sv_connections s !! a = Some x /\ cn_client_id x = c /\ cn_address x = a.
Proof.
  intros [[T1 T2] _] Hc. unfold clients_in in Hc. apply elem_of_dom in Hc as [a Ha]. destruct (T2 c a Ha) as (x & Hx & Ex). exists a, x.
  unfold Connection.find. rewrite Ha. cbn. split; [done|]. split; [done|]. split; [done|]. apply (T1 a x Hx).
Qed.

(** An older session of the player is gone from every table; the new connection stays. *)
Lemma evict_ok from c player_id (s : Server) : linked s -> sv_connections s !! from = Some c ->
  app_ok (clients_in s ∖ {[cn_client_id c]}) (sv_app s) -> sh_by_player_id (sv_app s) !! player_id <> Some (cn_client_id c) ->
  let s' := evict wall player_id (cn_client_id c) s in
  linked s' /\ sv_connections s' !! from = Some c /\ app_ok (clients_in s' ∖ {[cn_client_id c]}) (sv_app s') /\ keeps (sv_app s) (sv_app s') /\
  sh_by_player_id (sv_app s') !! player_id = None /\ Z.of_nat (size (sh_players (sv_app s'))) <= Z.of_nat (size (sh_players (sv_app s))).
Proof.
  intros Hl Hc Ha Hself. unfold evict, stale_connection. destruct (sh_by_player_id (sv_app s) !! player_id) as [other|] eqn:Eo; [|done].
  destruct (Z.eqb_spec other (cn_client_id c)) as [->|Hne]; [done|].
  destruct (ak_ids _ _ Ha player_id other Eo) as (p & Hp & Ep).
  assert (Hin : other ∈ clients_in s ∖ {[cn_client_id c]}) by (rewrite <- (ak_clients _ _ Ha); by apply elem_of_dom).
  apply elem_of_difference in Hin as [Hin _]. destruct (find_spec other s Hl Hin) as (a & stale & -> & Hs & Ec & Ea).
  assert (Hafrom : a <> from) by (intros ->; congruence). unfold Connection.disconnect.
  set (s1 := Nat.iter 3 _ s). assert (E : sv_connections s1 = sv_connections s /\ sv_by_client s1 = sv_by_client s /\ sv_app s1 = sv_app s) by done.
  destruct E as (E1 & E2 & E3). clearbody s1. assert (Hl1 : linked s1) by (by apply (linked_same s)).
  unfold clients_in in Ha. rewrite <- E2, <- E3 in Ha. fold (clients_in s1) in Ha. rewrite <- E3 in Hp.
  destruct (drop_connection_ok (drop_handlers wall) eq_refl {[cn_client_id c]} (cn_address stale) "replaced by a newer session" s1 Hl1 Ha)
    as (L1 & L2 & L3 & _ & L5). rewrite <- Ec in Hp.
  destruct (drop_player_tables _ stale "replaced by a newer session" _ p Ha Hp) as [F1 F2].
  split; [done|]. split; [rewrite L5, E1, lookup_delete_ne; [done|congruence]|]. split; [done|]. rewrite <- E3. split; [done|].
  unfold remove_connection. rewrite E1, Ea, Hs. cbn [sv_app set_connections set_by_client set_app on_disconnect drop_handlers].
  rewrite F1, F2. split; [rewrite <- Ep; apply lookup_delete_eq|]. rewrite map_size_delete, Hp. lia.
Qed.

Lemma touch_same record a : same_core a (touch wall record a).
Proof. repeat split; try done. unfold touch, wall_ms. cbn. apply with_registry_config. Qed.

Lemma assign_entity_linked e from (s : Server) : linked s -> fits 32 e -> linked (assign_entity (fun _ => e) from s).
Proof.
  intros Hl He. unfold assign_entity. destruct (sv_connections s !! from) as [c|] eqn:Ec; [|done]. by apply (set_connection_linked from c).
Qed.

Lemma assign_entity_app e from (s : Server) : sv_app (assign_entity e from s) = sv_app s.
Proof. unfold assign_entity. by destruct (sv_connections s !! from). Qed.

(** The state in which the avatar of an admission enters: no admission is left, and an
    older session of the player is gone. *)
Definition cleared (from : Address) (entry : PendingAdmit) (s : Server) : Server :=
  evict wall (cc_player_id (pa_credential entry)) (pa_client entry) (set_app (set_pending_admits ∅ ∅ (sv_app s)) s).

(** What holds when a handshake has just made the connection [c] for the admission [entry]. *)
Record connecting (from : Address) (c : Connection) (entry : PendingAdmit) (s : Server) : Prop := {
  cg_linked : linked s;
  cg_connection : sv_connections s !! from = Some c;
  cg_client : pa_client entry = cn_client_id c;
  cg_app : app_ok (clients_in s ∖ {[cn_client_id c]}) (sv_app s);
  cg_entry : admitting (clients_in s ∖ {[cn_client_id c]}) entry (sv_app s);
  cg_room : w_next_entity (sh_world (sv_app s)) + 1 < 2 ^ 32
}.

Lemma cleared_ok from c entry (s : Server) : connecting from c entry s ->
  let s1 := cleared from entry s in
  linked s1 /\ sv_connections s1 !! from = Some c /\ app_ok (clients_in s1 ∖ {[cn_client_id c]}) (sv_app s1) /\
  cn_client_id c ∈ clients_in s1 /\ idle (sv_app s1) /\
  sh_by_player_id (sv_app s1) !! cc_player_id (pa_credential entry) = None /\
  0 < cn_client_id c < sh_next_client (sv_app s1) /\ Z.of_nat (size (sh_players (sv_app s1))) < sf_capacity (sh_config (sv_app s1)) /\
  sh_next_client (sv_app s1) = sh_next_client (sv_app s) /\ w_next_entity (sh_world (sv_app s1)) = w_next_entity (sh_world (sv_app s)).
Proof.
  intros [Hl Hc Ecl Ha [D1 D2 D3 D4 D5 D6] Hroom]. unfold cleared. cbv zeta. rewrite Ecl in *.
  set (player_id := cc_player_id (pa_credential entry)) in *. set (a0 := set_pending_admits ∅ ∅ (sv_app s)).
  assert (Ha0 : app_ok (clients_in s ∖ {[cn_client_id c]}) a0) by (destruct Ha; by split).
  assert (Hl0 : linked (set_app a0 s)) by (by apply (linked_same s)).
  assert (Hself : sh_by_player_id a0 !! player_id <> Some (cn_client_id c)).
  { intros E. destruct (ak_ids _ _ Ha0 player_id _ E) as (p & Hp & _). apply D4. rewrite <- (ak_clients _ _ Ha). by apply elem_of_dom. }
  destruct (evict_ok from c player_id (set_app a0 s) Hl0 Hc Ha0 Hself) as (Hl1 & Hc1 & Ha1 & [K1 K2 K3 K4 K5] & Hid & Hsize).
  set (s1 := evict wall player_id (cn_client_id c) (set_app a0 s)) in *. clearbody s1.
  cbn [sv_app set_app] in K1, K2, K3, K4, K5, Hsize. cbn [a0 set_pending_admits sh_config sh_next_client sh_world sh_players sh_pending_admits sh_pending_by_player] in *.
  split; [done|]. split; [done|]. split; [done|]. split; [unfold clients_in; apply elem_of_dom; exists from; by apply Hl1|].
  split; [by split|]. split; [done|]. rewrite K1, K2, K3. split_and!; try done; lia.
Qed.

(** The rest of the callback only tells the cluster and the client. *)
Lemma welcome_core from c entry (s : Server) player a2 : connecting from c entry s ->
  enter_world wall entry (pa_client entry) (sv_app (cleared from entry s)) = Some (player, a2) ->
  let s2 := assign_entity (fun _ => u32 (pl_entity player)) from (set_app a2 (cleared from entry s)) in
  exists s', welcome wall from s = Some s' /\ steady s2 s' /\ same_core a2 (sv_app s') /\
    (is_Some (sv_connections s2 !! from) -> is_Some (sv_connections s' !! from)).
Proof.
  intros [_ Hc Ecl _ [D1 D2 _ _ _ _] _] Een. unfold cleared, welcome in *. rewrite Hc. cbv zeta. rewrite <- Ecl, D1, D2, lookup_singleton_eq, !delete_singleton_eq.
  set (s1 := evict wall _ _ _) in *. clearbody s1. rewrite Een. cbn [mbind option_bind].
  set (s2 := assign_entity (fun _ => u32 (pl_entity player)) from (set_app a2 s1)). assert (Ea : sv_app s2 = a2) by apply assign_entity_app.
  match goal with |- context [set_app ?a s2] => set (a3 := a) end.
  assert (Hc3 : same_core a2 a3) by (subst a3; destruct (sf_advertise _); [apply touch_same|by repeat split]).
  eexists. split; [reflexivity|]. split; [|split].
  - assert (St : steady s2 (set_app a3 s2)) by (apply same_core_steady; by rewrite Ea). destruct (finish _) as [bytes|]; [|exact St].
    destruct (_ <? _); [|exact St]. etransitivity; [exact St|apply send_event_steady].
  - destruct (finish _) as [bytes|]; [|exact Hc3]. destruct (_ <? _); [|exact Hc3]. by rewrite send_event_app.
  - intros Hin. destruct (finish _) as [bytes|]; [|exact Hin]. destruct (_ <? _); [|exact Hin].
    unfold send_event. cbn [sv_connections set_app]. destruct Hin as [x Hx]. rewrite Hx. cbn. rewrite lookup_insert_eq. by eexists.
Qed.

Lemma entered_ok from c entry (s : Server) : connecting from c entry s ->
  let a1 := sv_app (cleared from entry s) in
  exists player a2, enter_world wall entry (cn_client_id c) a1 = Some (player, a2) /\
  app_ok (clients_in (cleared from entry s)) a2 /\ idle a2 /\ fits 32 (pl_entity player) /\
  sh_next_client a2 = sh_next_client (sv_app s) /\ w_next_entity (sh_world a2) = w_next_entity (sh_world (sv_app s)) + 1 /\
  sh_players a2 = <[cn_client_id c := player]> (sh_players a1) /\
  exists position velocity sequence region migrated a3, placement wall entry (cn_client_id c) a1 = Some ((position, velocity, sequence, region, migrated), a3) /\
  player = mkWorldPlayer (cn_client_id c) (cc_player_id (pa_credential entry)) (pl_entity player) region (cc_token (pa_credential entry)) sequence 0 0 false migrated
             (rs_configure (sf_interest (sh_config a1)) (sf_params (sh_config a1)) ReplicationState_blank) /\
  w_players (sh_world a2) !! cn_client_id c = Some (new_slot (pl_entity player) (cn_client_id c) sequence) /\
  exists d, entity_data (w_entities (sh_world a2)) (pl_entity player) = Some d /\ avatar_data (cn_client_id c) position velocity sequence d.
Proof.
  intros Hcg. pose proof Hcg as [_ _ _ _ [_ _ _ _ D5 _] Hroom].
  destruct (cleared_ok from c entry s Hcg) as (Hl1 & Hc1 & Ha1 & Hin & [Hi1 Hi2] & Hid & Hfresh & Hcap & En & Ee). cbv zeta.
  set (s1 := cleared from entry s) in *. clearbody s1.
  destruct (enter_world_ok _ entry (cn_client_id c) (sv_app s1) Ha1 ltac:(apply not_elem_of_difference; right; by apply elem_of_singleton)
    Hfresh Hid ltac:(by rewrite Ee) Hcap D5) as (player & a2 & Een & Ha2 & F1 & F2 & F3 & F4 & F5 & F6 & F7 & Fp).
  exists player, a2. split; [exact Een|].
  rewrite <- union_difference_singleton_L in Ha2 by done. split; [done|]. split; [split; congruence|]. split; [done|]. split; [congruence|].
  split; [by rewrite F3, Ee|]. split; [exact F6|]. exact Fp.
Qed.

(** The connect callback after an admission: the client has its player, and is still
    connected. *)
Lemma welcome_ok from c entry (s : Server) : connecting from c entry s ->
  exists s', welcome wall from s = Some s' /\
  shard_ok s' /\ is_Some (sv_connections s' !! from) /\
  counters s' = (sh_next_client (sv_app s), w_next_entity (sh_world (sv_app s)) + 1).
Proof.
  intros Hcg. destruct (entered_ok from c entry s Hcg) as (player & a2 & Een & Ha2 & Hi2 & Hent & En & Ee & _).
  rewrite <- (cg_client _ _ _ _ Hcg) in Een. destruct (welcome_core from c entry s player a2 Hcg Een) as (s' & Ew & St & _ & Hconn).
  destruct (cleared_ok from c entry s Hcg) as (Hl1 & Hc1 & _). cbv zeta in *. exists s'. split; [exact Ew|]. clear Ew Een.
  set (s1 := cleared from entry s) in *. clearbody s1. set (s2 := assign_entity _ _ _) in *.
  assert (Eapp : sv_app s2 = a2) by apply assign_entity_app.
  assert (Ecl : clients_in s2 = clients_in s1).
  { subst s2. unfold assign_entity, clients_in. cbn [set_app sv_connections]. by destruct (sv_connections s1 !! from). }
  assert (Hs2 : shard_ok s2).
  { split; [apply assign_entity_linked; [by apply (linked_same s1)|apply wrap_range; lia]|by rewrite Ecl, Eapp|by rewrite Eapp]. }
  destruct (St Hs2) as [Hs' E']. split; [done|]. split.
  - apply Hconn. subst s2. unfold assign_entity. cbn [set_app sv_connections]. rewrite Hc1. cbn. rewrite lookup_insert_eq. by eexists.
  - rewrite E'. unfold counters. rewrite Eapp. by rewrite En, Ee.
Qed.

(** *** The shard as the transport's owner *)
Lemma send_event_tame from data (s : Server) : tame s (send_event from data s).
Proof. unfold send_event. destruct (sv_connections s !! from) as [c|] eqn:Ec; [|done]. by apply (set_connection_tame from c). Qed.

Lemma evict_tame player_id client (s : Server) : tame s (evict wall player_id client s).
Proof. unfold evict. destruct (stale_connection _ _ _); [apply disconnect_tame|done]. Qed.

(** In any state at all, the callbacks of the shard only use the transport's own operations,
    though [welcome] drops the very connection it is called for when no admission waits
    for it; [welcome_ok] shows that this does not happen. *)
#[export] Instance shard_tame : Tame (shard_handlers wall : Handlers App).
Proof.
  split.
  - intros from s s'. cbn [on_connect shard_handlers]. unfold welcome. destruct (sv_connections s !! from) as [c|]; [|by intros [= <-]].
    destruct (sh_pending_admits (sv_app s) !! cn_client_id c) as [entry|]; [|intros [= <-]; apply disconnect_tame].
    cbv zeta. match goal with |- context [evict wall ?id ?c ?s0] => assert (T1 : tame s (evict wall id c s0)) by (etransitivity; [apply set_app_tame|apply evict_tame]);
      set (s1 := evict wall id c s0) in *; clearbody s1 end.
    destruct (enter_world wall entry (cn_client_id c) (sv_app s1)) as [[player a2]|]; [|done]. cbn [mbind option_bind].
    match goal with |- Some match _ with Some _ => _ | None => set_app ?a ?s0 end = _ -> _ => assert (T2 : tame s (set_app a s0)) end.
    { etransitivity; [exact T1|]. etransitivity; [apply (set_app_tame a2)|]. etransitivity; [|apply set_app_tame].
      apply (assign_entity_calm (fun _ => u32 (pl_entity player)) from). intros _. apply wrap_range. lia. }
    destruct (finish _) as [bytes|]; [|by intros [= <-]]. destruct (_ <? _); intros [= <-]; [|exact T2].
    etransitivity; [exact T2|apply send_event_tame].
  - intros admission from token a [= <-]. unfold admit_player. destruct (decode_credential token) as [credential|]; [|by split].
    unfold wall_ms. destruct (pending_entry _ _ _); [apply wrap_range; lia|]. destruct (_ <=? _); [by split|].
    destruct (check_credential _ _) as [[reason|[region ticket]] a2]; [by split|]. apply wrap_range. lia.
Qed.

(** *** Datagrams *)
Lemma read_packet_payload data now e payload messages e' : read_packet data now e = (Some (payload, messages), e') ->
  Forall (fits 8) data -> Forall (fits 8) payload /\ (length payload <= length data)%nat.
Proof.
  unfold read_packet. intros E Hf. destruct (read_u16 _) as [sequence r]. destruct (read_u16 r) as [ack r1]. destruct (read_u32 r1) as [bits r2].
  destruct (br_overflow r2); [done|]. destruct (sq_exists _ _ _); [done|]. destruct (sq_insert _ _ _ _) as [received|]; [|done].
  destruct (advance_highest _ _) as [highest expected]. destruct (read_u8 _) as [count r3]. destruct (_ <? _); [done|].
  destruct (read_messages _ _ _ _) as [[ok reorder] r4]. destruct (negb ok); [done|]. destruct (read_u16 r4) as [size r5].
  destruct (br_overflow r5); [done|]. destruct (_ <? _); [done|]. destruct (deliver_in_order _) as [messages' e2]. injection E as <- _ _.
  split; [by apply Forall_take, Forall_drop|]. rewrite length_take, length_drop. lia.
Qed.

Lemma request_same from data now (s : Server) : let s' := handle_connection_request random from data now s in
  sv_connections s' = sv_connections s /\ sv_by_client s' = sv_by_client s /\ sv_app s' = sv_app s.
Proof.
  unfold handle_connection_request. destruct (_ <? _); [done|]. destruct (read_body _ data) as [[salt token] overflow].
  destruct (_ || _); [done|]. destruct (sv_connections s !! from); [done|]. destruct (_ <=? _); [done|]. by destruct (negb _).
Qed.

Lemma same_steady (s s' : Server) : sv_connections s' = sv_connections s /\ sv_by_client s' = sv_by_client s /\ sv_app s' = sv_app s -> steady s s'.
Proof. intros (E1 & E2 & E3). apply quiet_steady; [done|done|]. by apply linked_same. Qed.

Lemma payload_steady from data now (s : Server) : Forall (fits 8) data -> Z.of_nat (length data) <= kMaxDatagramSize ->
  steady s (Connection.handle_payload (shard_handlers wall) from data now s).
Proof.
  intros Hf Hl. unfold Connection.handle_payload. destruct (sv_connections s !! from) as [c|] eqn:Ec; [|by apply same_steady].
  destruct (read_body read_u64 data) as [salt overflow]. destruct (_ || _); [by apply same_steady|].
  destruct (read_packet (drop 8 data) now (cn_reliability c)) as [[[payload messages]|] endpoint] eqn:Er; [|by apply (peer_steady from c)].
  destruct (read_packet_payload _ _ _ _ _ _ Er) as [Hpf Hpl]; [by apply Forall_drop|]. rewrite length_drop in Hpl.
  etransitivity; [by apply (peer_steady from c (set_last_receive now (set_reliability endpoint c)) s)|].
  apply set_app_steady. intros Ha. unfold deliver. cbn [on_payload on_message shard_handlers].
  assert (Eid : forall l (a : App), foldl (fun (app : App) (_ : ReliableMessage) => app) a l = a) by (induction l; done).
  rewrite Eid. destruct (_ <? _); [|done]. apply take_payload_ok; [done| |done]. unfold kMaxDatagramSize in Hl. lia.
Qed.

Lemma disconnect_datagram_steady from data (s : Server) : steady s (handle_disconnect (shard_handlers wall) from data s).
Proof.
  unfold handle_disconnect. destruct (read_body read_u64 data) as [salt overflow]. destruct (sv_connections s !! from); [|reflexivity].
  destruct (_ =? _); [by apply remove_steady|reflexivity].
Qed.

(** Client ids and entity ids left. *)
Definition room (n : Z) (s : Server) : Prop := fst (counters s) + n < 2 ^ 32 /\ snd (counters s) + n < 2 ^ 32.

(** A response that proves its address: it carries the exclusive or of the two salts. *)
Record answering (from : Address) (data : list Z) (pending : PendingHandshake) (s : Server) : Prop := {
  an_new : sv_connections s !! from = None;
  an_pending : sv_pending s !! from = Some pending;
  an_salt : read_body read_u64 data = (Z.lxor (ph_client_salt pending) (ph_server_salt pending), false);
  an_bytes : Forall (fits 8) data;
  an_length : Z.of_nat (length data) <= kMaxDatagramSize
}.

(** An admission makes a connection for the client id the owner chose, and then runs
    the connect callback. *)
Lemma arrival from data now pending decision a1 (s : Server) : answering from data pending s -> shard_ok s -> room 1 s ->
  admit_player wall from (ph_token pending) (sv_app s) = (decision, a1) -> de_admit decision = true ->
  exists c entry s1 s2 c2, connecting from c entry s1 /\ welcome wall from s1 = Some s2 /\ sv_app s1 = a1 /\ clients_in s1 = ({[cn_client_id c]} ∪ clients_in s) /\
    (cn_client_id c ∉ clients_in s) /\ sv_connections s2 !! from = Some c2 /\
    sh_next_client a1 = sh_next_client (sv_app s) + 1 /\ w_next_entity (sh_world a1) = w_next_entity (sh_world (sv_app s)) /\
    handle_challenge_response (shard_handlers wall) from data now s = Some (send_accepted c2 s2).
Proof.
  intros [Hnew Hpending Hsalt Hf Hl] [Hlk Ha Hi] Hroom Ead Eadmit.
  pose proof (read_body_yields read_u64 _ data yields_u64 Hf ltac:(unfold kMaxDatagramSize in Hl; lia)) as Hx.
  rewrite Hsalt in Hx. cbn [fst] in Hx. unfold handle_challenge_response. rewrite Hsalt. cbn iota. rewrite Hnew, Hpending, Z.eqb_refl. cbn [negb].
  unfold decide_admission, Connection.next_client_id. cbn [on_admit shard_handlers sv_app].
  unfold room, counters in Hroom. cbn [fst snd] in Hroom.
  pose proof (admit_player_ok (clients_in s) from (ph_token pending) (sv_app s) Ha Hi ltac:(lia)) as Had.
  rewrite Ead in Had |- *. destruct Had as (Ha1 & E1 & E2 & Hd). rewrite Eadmit in Hd |- *. cbn [negb].
  match goal with |- context [set_app a1 ?s0] => set (s1 := set_app a1 s0) end.
  assert (Es1 : sv_connections s1 = sv_connections s /\ sv_by_client s1 = sv_by_client s /\ sv_app s1 = a1) by done.
  destruct Es1 as (Es1 & Es2 & Es3). assert (Hl1 : linked s1) by (by apply (linked_same s)).
  assert (Ecl : clients_in s1 = clients_in s) by (unfold clients_in; by rewrite Es2). clearbody s1.
  destruct Hd as (entry & Hent & Eid & En). pose proof Hent as [_ _ D3 D4 _ _]. rewrite Eid.
  rewrite (proj2 (Z.eqb_neq (pa_client entry) 0)) by lia. cbn [negb].
  set (x := Z.lxor _ _) in *. destruct (add_connection_linked from (pa_client entry) x (ph_token pending) now s1 Hl1) as (Hl2 & Ecl2 & Eapp & c & Hc & Ecc);
    [by rewrite Es1|by rewrite Ecl|done|split; lia|].
  set (s2 := add_connection _ _ _ _ _ _) in *. clearbody s2. rewrite Ecl in Ecl2. rewrite Es3 in Eapp.
  assert (Ediff : clients_in s2 ∖ {[cn_client_id c]} = clients_in s) by (rewrite Ecl2, Ecc; rewrite difference_union_distr_l_L, difference_diag_L, union_empty_l_L; apply difference_disjoint_L; by apply disjoint_singleton_r).
  assert (Hcg : connecting from c entry s2) by (split; [done|done|done|by rewrite Ediff, Eapp|by rewrite Ediff, Eapp|rewrite Eapp; lia]).
  destruct (welcome_ok from c entry s2 Hcg) as (s3 & Ew & Hs3 & [c3 Hc3] & E3).
  exists c, entry, s2, s3, c3. split; [done|]. split; [done|]. split; [done|]. rewrite Ecc. split; [done|]. split; [done|]. split; [done|].
  split; [done|]. split; [done|]. cbn [on_connect shard_handlers]. rewrite Ew. cbn [mbind option_bind]. by rewrite Hc3.
Qed.

Lemma response_ok n from data now (s : Server) : Forall (fits 8) data -> Z.of_nat (length data) <= kMaxDatagramSize ->
  shard_ok s -> room (n + 1) s -> 0 <= n ->
  exists s', handle_challenge_response (shard_handlers wall) from data now s = Some s' /\ shard_ok s' /\ room n s'.
Proof.
  intros Hf Hl Hs Hroom Hn.
  assert (Hsteady : forall s', steady s s' -> exists s1, Some s' = Some s1 /\ shard_ok s1 /\ room n s1).
  { intros s' Hst. destruct (Hst Hs) as [Hs' E]. exists s'. split; [done|]. split; [done|]. unfold room in *. rewrite E. lia. }
  destruct (read_body read_u64 data) as [x [|]] eqn:Ex.
  { unfold handle_challenge_response. rewrite Ex. by apply Hsteady, same_steady. }
  destruct (sv_connections s !! from) as [existing|] eqn:Ec.
  { unfold handle_challenge_response. rewrite Ex, Ec. apply Hsteady. destruct (_ =? _); [apply send_to_steady|reflexivity]. }
  destruct (sv_pending s !! from) as [pending|] eqn:Ep; [|unfold handle_challenge_response; rewrite Ex, Ec, Ep; by apply Hsteady, same_steady].
  destruct (Z.eqb_spec (Z.lxor (ph_client_salt pending) (ph_server_salt pending)) x) as [<-|Hx].
  2:{ unfold handle_challenge_response. rewrite Ex, Ec, Ep, (proj2 (Z.eqb_neq _ _) Hx). by apply Hsteady, same_steady. }
  assert (Han : answering from data pending s) by (by split). pose proof Hroom as [Hr1 Hr2]. unfold counters in Hr1, Hr2. cbn [fst snd] in Hr1, Hr2.
  destruct (admit_player wall from (ph_token pending) (sv_app s)) as [decision a1] eqn:Ead. destruct (de_admit decision) eqn:Eadmit.
  - destruct (arrival from data now pending decision a1 s Han Hs ltac:(unfold room in *; lia) Ead Eadmit) as (c & entry & s1 & s2' & c2 & Hcg & Ew & Eapp & _ & _ & _ & En & Ee & ->).
    destruct (welcome_ok from c entry s1 Hcg) as (s2 & Ew2 & Hs2 & _ & E2). rewrite Ew in Ew2. injection Ew2 as ->. eexists. split; [done|]. unfold send_accepted.
    destruct (send_to_steady (cn_address c2) (accepted_packet (cn_salt c2) (cn_client_id c2) (cn_entity c2)) _ Hs2) as [Hs3 E3].
    split; [done|]. unfold room. rewrite E3, E2. cbn [fst snd]. rewrite Eapp. lia.
  - pose proof (admit_player_ok (clients_in s) from (ph_token pending) (sv_app s) (sk_app _ Hs) (sk_idle _ Hs) ltac:(lia)) as Had.
    rewrite Ead in Had. destruct Had as (Ha1 & _ & E2 & Hd). rewrite Eadmit in Hd. destruct Hd as [Hi1 En].
    unfold handle_challenge_response. rewrite Ex, Ec, Ep, Z.eqb_refl. cbn [negb].
    unfold decide_admission, Connection.next_client_id. cbn [on_admit shard_handlers sv_app]. rewrite Ead, Eadmit. cbn [negb]. eexists. split; [done|].
    destruct Hs as [Hlk _ _]. split; [split; [by apply (linked_same s)|done|done]|]. unfold room, counters. cbn. lia.
Qed.

Lemma datagram_ok n from data now (s : Server) : Forall (fits 8) data -> Z.of_nat (length data) <= kMaxDatagramSize ->
  shard_ok s -> room (n + 1) s -> 0 <= n ->
  exists s', handle_datagram (shard_handlers wall) random from data now s = Some s' /\ shard_ok s' /\ room n s'.
Proof.
  intros Hf Hl Hs Hroom Hn.
  assert (Hsteady : forall s', steady s s' -> exists s1, Some s' = Some s1 /\ shard_ok s1 /\ room n s1).
  { intros s' Hst. destruct (Hst Hs) as [Hs' E]. exists s'. split; [done|]. split; [done|]. unfold room in *. rewrite E. lia. }
  assert (Hbf : Forall (fits 8) (body_of data)) by (by apply Forall_drop).
  assert (Hbl : Z.of_nat (length (body_of data)) <= kMaxDatagramSize) by (unfold body_of; rewrite length_drop; lia).
  unfold handle_datagram. destruct (Connection.read_header data) as [type|]; [|by apply Hsteady, same_steady].
  destruct type; try (by apply Hsteady, same_steady).
  - apply Hsteady, same_steady, request_same.
  - by apply (response_ok n).
  - by apply Hsteady, payload_steady.
  - apply Hsteady, disconnect_datagram_steady.
Qed.

Definition bytes_ok (waiting : list Datagram) : Prop := Forall (fun d => Forall (fits 8) d.2) waiting.

Lemma shard_receive_loop_ok waiting now : bytes_ok waiting -> forall n (s : Server), 0 <= n -> shard_ok s -> room (n + Z.of_nat (length waiting)) s ->
  exists count s', receive_loop (shard_handlers wall) random waiting now s = Some (count, s') /\ shard_ok s' /\ room n s'.
Proof.
  induction 1 as [|[from data] waiting Hd Hw IH]; intros n s Hn Hs Hroom; cbn [receive_loop].
  { exists 0, s. split; [done|]. split; [done|]. cbn [length] in Hroom. unfold room in *. lia. }
  cbn [length snd] in *. destruct (_ <=? _).
  { exists 0, s. split; [done|]. split; [done|]. unfold room in *. lia. }
  destruct (datagram_ok (n + Z.of_nat (length waiting)) from (take (Z.to_nat kMaxDatagramSize) data) now s) as (s1 & E1 & Hs1 & Hr1).
  { by apply Forall_take. } { rewrite length_take. unfold kMaxDatagramSize. lia. } { done. } { unfold room in *. lia. } { lia. }
  rewrite E1. cbn [mbind option_bind]. destruct (IH n s1 Hn Hs1 Hr1) as (count & s2 & -> & Hs2 & Hr2). cbn [mbind option_bind].
  eexists _, s2. by split_and!.
Qed.

Lemma receive_shard_ok waiting now n (s : Server) : bytes_ok waiting -> 0 <= n -> shard_ok s -> room (n + Z.of_nat (length waiting)) s ->
  exists count s', receive (shard_handlers wall) random waiting now s = Some (count, s') /\ shard_ok s' /\ room n s'.
Proof.
  intros Hw Hn Hs Hroom. destruct (shard_receive_loop_ok waiting now Hw n s Hn Hs Hroom) as (count & s1 & E & Hs1 & Hr1).
  unfold receive. rewrite E. cbn [mbind option_bind]. eexists count, _. split; [done|].
  assert (Hst : steady s1 (expire_pending now s1)) by (by apply same_steady). destruct (Hst Hs1) as [Hs2 E2]. split; [done|].
  unfold room. by rewrite E2.
Qed.

(** *** The tick *)
Lemma set_player_steady client p p' (s : Server) : sh_players (sv_app s) !! client = Some p -> same_player p p' ->
  steady s (set_app (set_sh_players (<[client := p']> (sh_players (sv_app s))) (sv_app s)) s).
Proof. intros Hp Hs. apply set_app_steady. intros Ha. split; [by apply (insert_player_ok _ _ p)|done]. Qed.

Lemma replicate_player_steady now (s : Server) client : steady s (replicate_player nth_element now s client).
Proof.
  unfold replicate_player. cbv zeta. destruct (sh_players (sv_app s) !! client) as [player|] eqn:Ep; [|reflexivity].
  destruct (Connection.find client s) as [connection|]; [|reflexivity]. destruct (pl_redirecting player); [reflexivity|].
  destruct (rs_encode _ _ _ _ _ _ _) as [bytes rs].
  assert (Hp : steady s (set_app (set_sh_players (<[client := set_pl_replication rs player]> (sh_players (sv_app s))) (sv_app s)) s))
    by (by apply (set_player_steady _ player)).
  destruct bytes as [bytes|]; [|exact Hp]. etransitivity; [exact Hp|]. etransitivity; [apply send_payload_steady|].
  apply same_core_steady. by repeat split.
Qed.

Lemma replicate_all_steady now (s : Server) : steady s (replicate_all nth_element visit now s).
Proof. unfold replicate_all. apply foldl_steady, replicate_player_steady. Qed.

(** The scan for handoffs divides by no zero, and changes no table. *)
Lemma migrate_player_steady (s : Server) client : shard_ok s -> exists s', migrate_player wall s client = Some s' /\ steady s s'.
Proof.
  intros Hs. unfold migrate_player. cbv zeta. destruct (sh_players (sv_app s) !! client) as [player|] eqn:Ep; [|by exists s].
  destruct (store_find _ _) as [index|]; [|by exists s].
  destruct (handoff_target_some (sf_regions (sh_config (sv_app s))) (pl_region player) (vec_x (es_position (w_entities (sh_world (sv_app s))) !!! index))
    (vec_y (es_position (w_entities (sh_world (sv_app s))) !!! index)) (ak_regions _ _ (sk_app _ Hs))) as [target ->].
  cbn [mbind option_bind]. destruct (_ =? _); [by exists s|].
  destruct (owns_region _ _); [eexists; split; [done|]; by apply (set_player_steady _ player)|]. unfold wall_ms.
  match goal with |- context [plan_handoff ?co ?a ?b ?c ?d ?e ?f ?g] =>
    destruct (plan_handoff_some co a b c d e f g (ak_coordinator _ _ (sk_app _ Hs))) as (co' & plan & -> & Eco) end.
  cbn [mbind option_bind]. set (s1 := set_app (set_coordinator co' (advance_clock (sv_app s))) s).
  assert (Hst1 : steady s s1) by (apply same_core_steady; by repeat split). clear Hs.
  eexists. split; [reflexivity|].
  destruct plan as [plan|]; [|exact Hst1]. destruct (finish _) as [bytes|]; [|exact Hst1].
  destruct (Connection.find client s1) as [connection|]; [|exact Hst1]. destruct (_ =? 0); [exact Hst1|].
  etransitivity; [exact Hst1|]. transitivity (send_event (cn_address connection) bytes s1); [apply send_event_steady|].
  set (s2 := send_event (cn_address connection) bytes s1).
  assert (Ep2 : sh_players (sv_app s2) !! client = Some player).
  { subst s2. by rewrite send_event_app. }
  match goal with |- steady s2 (set_app (bump_migrations_out ?a) s2) => transitivity (set_app a s2) end.
  - by apply (set_player_steady _ player).
  - match goal with |- steady ?s3 (set_app ?a s2) => apply (same_core_steady a s3) end. by repeat split.
Qed.

Lemma scan_steady l : forall (s : Server) expired, shard_ok s ->
  exists s' expired', foldl (scan_player wall) (Some (s, expired)) l = Some (s', expired') /\ shard_ok s' /\ counters s' = counters s.
Proof.
  induction l as [|client l IH]; intros s expired Hs; cbn [foldl]; [by exists s, expired|].
  unfold scan_player at 2. cbn [mbind option_bind]. destruct (sh_players (sv_app s) !! client) as [player|]; [|by apply IH].
  destruct (pl_redirecting player); [by apply IH|]. destruct (migrate_player_steady s client Hs) as (s1 & -> & Hst). cbn [mbind option_bind].
  destruct (Hst Hs) as [Hs1 E1]. destruct (IH s1 expired Hs1) as (s2 & ex2 & -> & Hs2 & E2). exists s2, ex2. split; [done|]. split; [done|congruence].
Qed.

(** A player always has its connection, so the code's second branch is never taken. *)
Lemma retire_player_steady (s : Server) client : steady s (retire_player wall s client).
Proof.
  intros Hs. unfold retire_player. destruct (sh_players (sv_app s) !! client) as [player|] eqn:Ep.
  - assert (Hin : client ∈ clients_in s) by (rewrite <- (ak_clients _ _ (sk_app _ Hs)); by apply elem_of_dom).
    destruct (find_spec client s (sk_linked _ Hs) Hin) as (a & c & -> & _). by apply disconnect_steady.
  - destruct (Connection.find client s); [by apply disconnect_steady|done].
Qed.

Lemma check_migrations_steady (s : Server) : shard_ok s ->
  exists s', check_migrations wall visit s = Some s' /\ shard_ok s' /\ counters s' = counters s.
Proof.
  intros Hs. unfold check_migrations. destruct (negb _); [by exists s|].
  destruct (scan_steady (clients_of visit 2 (sv_app s)) s [] Hs) as (s1 & expired & -> & Hs1 & E1). cbn [mbind option_bind].
  destruct (foldl_steady (retire_player wall) expired retire_player_steady s1 Hs1) as [Hs2 E2]. eexists. split; [done|]. split; [done|congruence].
Qed.

(** *** The cluster and the viewer *)
Lemma queue_touch_same a client : same_core a (queue_touch wall a client).
Proof.
  unfold queue_touch. destruct (sh_players a !! client) as [player|]; [|by repeat split]. destruct (pl_redirecting player); by repeat split.
Qed.

Lemma same_core_trans a1 a2 a3 : same_core a1 a2 -> same_core a2 a3 -> same_core a1 a3.
Proof.
  intros (E1 & E2 & E3 & E4 & E5 & E6 & E7 & E8 & E9 & E10) (F1 & F2 & F3 & F4 & F5 & F6 & F7 & F8 & F9 & F10).
  unfold same_core. by rewrite F1, F2, F3, F4, F5, F6, F7, F8, F9, F10.
Qed.

Lemma queue_touches_same l : forall a, same_core a (foldl (queue_touch wall) a l).
Proof.
  induction l as [|client l IH]; intros a; [by repeat split|]. cbn [foldl].
  eapply same_core_trans; [apply queue_touch_same|apply IH].
Qed.

Lemma refresh_cluster_ok clients a : app_ok clients a -> app_ok clients (refresh_cluster wall visit a) /\ keeps a (refresh_cluster wall visit a).
Proof.
  intros Ha. unfold refresh_cluster. destruct (negb _); [done|]. unfold wall_ms. cbv zeta.
  match goal with |- context [set_coordinator ?co (advance_clock (advance_clock a))] => set (a1 := set_coordinator co (advance_clock (advance_clock a))) end.
  assert (C1 : same_core a a1) by (repeat split; apply refresh_config). clearbody a1.
  destruct (_ <? kPresenceRefreshMs); [by destruct (same_core_ok _ _ C1) as [? Hok]; split; [apply Hok|]|].
  match goal with |- context [set_coordinator ?co ?b] => set (a2 := set_coordinator co b) end.
  assert (C2 : same_core a a2).
  { eapply same_core_trans; [exact C1|]. subst a2.
    eapply same_core_trans; [|eapply same_core_trans; [apply queue_touches_same|apply set_coordinator_same, with_registry_config]]. by repeat split. }
  clearbody a2. destruct (same_core_ok _ _ C2) as [K2 Hok]. specialize (Hok clients Ha). split; [|by destruct K2; split].
  destruct Hok. split; try done; cbn [sh_ghosts sh_redeemed_tickets expire_tickets expire_ghosts set_redeemed set_ghosts].
  - intros id g [Hg _]%map_lookup_filter_Some. by apply (ak_ghosts0 id).
  - intros token t [Ht _]%map_lookup_filter_Some. by apply (ak_tickets0 token).
Qed.

Lemma publish_same now a : same_core a (publish_viewer_state now a).
Proof.
  unfold publish_viewer_state. destruct (negb _); [by repeat split|]. destruct (_ <? _); [by repeat split|]. destruct (_ =? 0); by repeat split.
Qed.

Lemma tick_ok waiting now elapsed n (s : Server) : bytes_ok waiting -> 0 <= n -> shard_ok s -> room (n + Z.of_nat (length waiting)) s ->
  exists s', tick wall random nth_element visit waiting now elapsed s = Some s' /\ shard_ok s' /\ room n s'.
Proof.
  intros Hw Hn Hs Hroom. unfold tick.
  destruct (receive_shard_ok waiting now n s Hw Hn Hs Hroom) as (count & s1 & -> & Hs1 & Hr1). cbn [mbind option_bind].
  set (order := visit (w_tick (sh_world (sv_app s1))) 0%nat ((map_to_list (w_players (sh_world (sv_app s1)))).*1)). pose proof (ak_world _ _ (sk_app _ Hs1)) as Hok1.
  destruct (step_spec order _ Hok1) as (w & Ew & Hev & _). rewrite Ew. cbn [mbind option_bind]. 
  assert (Hst : steady s1 (replicate_all nth_element visit now (set_app (set_world w (sv_app s1)) s1))).
  { etransitivity; [|apply (replicate_all_steady now)].
    apply set_app_steady. intros Ha. split; [|by split; try done; apply Hev]. apply set_world_ok; [by eapply evolves_ok|by eapply step_sequences; [| |exact Ew]; apply Ha| |done].
    intros c. pose proof (ev_slots _ _ Hev c) as E. destruct (w_players (sh_world (sv_app s1)) !! c), (w_players w !! c); try done.
    destruct E as (_ & E & _). cbn. by rewrite E. }
  destruct (Hst Hs1) as [Hs2 E2]. destruct (check_migrations_steady _ Hs2) as (s3 & -> & Hs3 & E3). cbn [mbind option_bind]. clear Hst Ew.
  eexists. split; [done|].
  match goal with |- shard_ok (set_app ?a ?s5) /\ _ => assert (Hst : steady s3 (set_app a s5)) end.
  2: { destruct (Hst Hs3) as [Hs6 E6]. split; [done|]. unfold room. by rewrite E6, E3, E2. }
  etransitivity; [apply (timeout_steady (shard_handlers wall) eq_refl now)|]. etransitivity; [apply (flush_steady now)|].
  match goal with |- steady ?s5 _ => generalize s5 end. intros s5. apply set_app_steady. intros Ha.
  destruct (refresh_cluster_ok _ _ Ha) as [Hok2 K2]. set (a2 := refresh_cluster wall visit (sv_app s5)) in *.
  match goal with |- app_ok _ ?a /\ _ => assert (C3 : same_core a2 a) end.
  { eapply same_core_trans; [apply (publish_same now)|]. by repeat split. }
  destruct (same_core_ok _ _ C3) as [K3 Hok3]. split; [by apply Hok3|by etransitivity].
Qed.

(** *** The loop *)
Record Iteration := mkIteration {
  it_slices : list (Z * list Datagram);
  it_waiting : list Datagram;
  it_current : Z;
  it_after : Z;
  it_elapsed : f64
}.

Definition iteration_bytes (it : Iteration) : Prop := Forall (fun slice => bytes_ok slice.2) (it_slices it) /\ bytes_ok (it_waiting it).

Definition slices_size (slices : list (Z * list Datagram)) : Z := foldr (fun slice n => Z.of_nat (length slice.2) + n) 0 slices.
Definition iteration_size (it : Iteration) : Z := slices_size (it_slices it) + Z.of_nat (length (it_waiting it)).
Definition run_size (its : list Iteration) : Z := foldr (fun it n => iteration_size it + n) 0 its.

(** The loop of [run], for as many iterations as [its] describes. *)
Fixpoint run_shard (its : list Iteration) (s : Server) (next : Z) : option (Server * Z) :=
  match its with
  | [] => Some (s, next)
  | it :: its =>
      '(s, next) ← run_once wall random nth_element visit (it_slices it) (it_waiting it) (it_current it) (it_after it) (it_elapsed it) s next;
      run_shard its s next
  end.

Lemma slices_size_nonneg slices : 0 <= slices_size slices.
Proof. induction slices as [|x slices IH]; cbn [slices_size foldr]; [lia|]. fold (slices_size slices). lia. Qed.

Lemma run_size_nonneg its : 0 <= run_size its.
Proof.
  induction its as [|it its IH]; cbn [run_size foldr]; [lia|]. fold (run_size its). unfold iteration_size.
  pose proof (slices_size_nonneg (it_slices it)). lia.
Qed.

Lemma drain_until_ok target slices : Forall (fun slice => bytes_ok slice.2) slices -> forall n (s : Server), 0 <= n -> shard_ok s ->
  room (n + slices_size slices) s -> exists s', drain_until wall random slices target s = Some s' /\ shard_ok s' /\ room n s'.
Proof.
  induction 1 as [|[now waiting] slices Hw Hws IH]; intros n s Hn Hs Hroom; cbn [drain_until slices_size foldr snd] in *.
  { exists s. by rewrite Z.add_0_r in Hroom. }
  fold (slices_size slices) in Hroom. pose proof (slices_size_nonneg slices).
  destruct (_ <? _); [|exists s; split; [done|split; [done|unfold room in *; lia]]].
  destruct (receive_shard_ok waiting now (n + slices_size slices) s Hw ltac:(lia) Hs) as (count & s1 & -> & Hs1 & Hr1); [unfold room in *; lia|].
  cbn [mbind option_bind]. by apply IH.
Qed.

Lemma run_once_ok it next n (s : Server) : iteration_bytes it -> 0 <= n -> shard_ok s -> room (n + iteration_size it) s ->
  exists s' next', run_once wall random nth_element visit (it_slices it) (it_waiting it) (it_current it) (it_after it) (it_elapsed it) s next = Some (s', next') /\
    shard_ok s' /\ room n s'.
Proof.
  intros [Hsl Hw] Hn Hs Hroom. unfold run_once, iteration_size in *. rewrite (proj2 (Z.eqb_neq _ _)) by (apply (ak_rate _ _ (sk_app _ Hs))).
  destruct (drain_until_ok next (it_slices it) Hsl (n + Z.of_nat (length (it_waiting it))) s ltac:(lia) Hs) as (s1 & -> & Hs1 & Hr1);
    [unfold room in *; lia|]. cbn [mbind option_bind].
  destruct (tick_ok (it_waiting it) (it_current it) (it_elapsed it) n s1 Hw Hn Hs1 Hr1) as (s2 & -> & Hs2 & Hr2). cbn [mbind option_bind].
  eexists _, _. by split_and!.
Qed.

Lemma run_shard_ok its : Forall iteration_bytes its -> forall next (s : Server), shard_ok s -> room (run_size its) s ->
  exists s' next', run_shard its s next = Some (s', next') /\ shard_ok s'.
Proof.
  induction 1 as [|it its Hit Hits IH]; intros next s Hs Hroom; cbn [run_shard run_size foldr] in *; [by exists s, next|].
  fold (run_size its) in Hroom. destruct (run_once_ok it next (run_size its) s Hit (run_size_nonneg its) Hs) as (s1 & next1 & -> & Hs1 & Hr1).
  { by rewrite Z.add_comm. } cbn [mbind option_bind]. by apply IH.
Qed.

(** *** Starting *)
Lemma spawn_drifters_ok count params w : world_ok w -> sequences_ok w -> w_players w = ∅ -> 0 <= count -> w_next_entity w + count < 2 ^ 32 ->
  let w' := spawn_drifters count params w in
  world_ok w' /\ sequences_ok w' /\ w_players w' = ∅ /\ w_next_entity w' = w_next_entity w + count.
Proof.
  intros Hw Hs Hp Hc Hn. unfold spawn_drifters. rewrite <- (Z2Nat.id count Hc) in Hn |- *. clear Hc. set (n := Z.to_nat count) in *. clearbody n.
  rewrite Nat2Z.id. assert (Hgen : forall l w, world_ok w -> sequences_ok w -> w_players w = ∅ -> w_next_entity w + Z.of_nat (length l) < 2 ^ 32 ->
    let w' := foldl (fun w i => snd (spawn_drifter (drifter_position params i) w)) w l in
    world_ok w' /\ sequences_ok w' /\ w_players w' = ∅ /\ w_next_entity w' = w_next_entity w + Z.of_nat (length l)).
  { clear. induction l as [|i l IH]; intros w Hw Hs Hp Hn; cbn [foldl length] in *; [by rewrite Z.add_0_r|].
    assert (Hnext : w_next_entity (snd (spawn_drifter (drifter_position params i) w)) = w_next_entity w + 1).
    { cbn. pose proof (wo_next w Hw). rewrite wrap_small by (split; lia). done. }
    destruct (IH (snd (spawn_drifter (drifter_position params i) w))) as (I1 & I2 & I3 & I4).
    - apply spawn_drifter_ok; [done|lia].
    - unfold sequences_ok. cbn. apply Forall_app. split; [done|]. by repeat constructor.
    - done.
    - rewrite Hnext. lia.
    - split_and!; try done. rewrite I4, Hnext. lia. }
  destruct (Hgen (seq 0 n) w) as (I1 & I2 & I3 & I4); [done|done|done|by rewrite length_seq|]. rewrite length_seq in I4. by split_and!.
Qed.

Lemma start_ok config bind udp_endpoint http_endpoint server rng udp_open ws_bound connected now_ms beat (s : Server) :
  params_ok (sf_params config) -> wp_tick_rate (sf_params config) <> 0 -> rm_regions_per_axis (sf_regions config) <> 0 ->
  0 <= sf_capacity config -> 0 <= sf_drifters config -> 1 + sf_drifters config < 2 ^ 32 ->
  start_world_server config bind udp_endpoint http_endpoint server rng udp_open ws_bound connected now_ms beat = Some s ->
  shard_ok s /\ counters s = (1, 1 + sf_drifters config).
Proof.
  intros Hp Hrate Hreg Hcap Hd Hroom. unfold start_world_server. destruct (World.configure (sf_params config) 64 World_new) as [w|] eqn:Ew; [|done].
  pose proof (configure_world_ok _ _ _ Hp Ew) as Hw. cbn [mbind option_bind]. destruct (negb udp_open); [done|].
  set (idle_co := mkShardCoordinator ShardConfig_default _ _ _ _ _ _ _ _ _ _ _).
  assert (Hco : rm_regions_per_axis (sc_regions (co_config (fst (if sf_advertise config
    then start_shard (shard_config_of config udp_endpoint http_endpoint) server (sf_key_prefix config) connected rng now_ms beat else (idle_co, true))))) <> 0).
  { destruct (sf_advertise config); [by rewrite start_shard_config|discriminate]. }
  destruct (if sf_advertise config then _ else _) as [co joined]. cbn [fst] in Hco. destruct (negb joined); [done|]. intros [= <-].
  assert (E : sequences_ok w /\ w_players w = ∅ /\ w_next_entity w = 1).
  { unfold World.configure in Ew. destruct (grid_configure _ _ _) as [g|]; [|done]. cbn [mbind option_bind] in Ew. destruct (fleb _ _); [|done].
    injection Ew as <-. split; [constructor|done]. }
  destruct E as (E1 & E2 & E3).
  destruct (spawn_drifters_ok (sf_drifters config) (sf_params config) w Hw E1 E2 Hd ltac:(lia)) as (D1 & D2 & D3 & D4).
  split; [|unfold counters; cbn; by rewrite D4, E3]. split.
  - by split; [split|].
  - unfold clients_in. cbn [sv_by_client sv_app Connection.start server_new]. rewrite dom_empty_L.
    split; cbn [sh_world sh_players sh_by_player_id sh_next_client sh_ghosts sh_redeemed_tickets sh_config]; try done.
    by rewrite D3, dom_empty_L.
  - done.
Qed.
End Shards.

(** ** The property *)
(** C2. A shard keeps running, well formed.  Started with a sane configuration (a tick rate
    and at least one region per axis: it divides by both), it gets
    through any number of iterations of its loop, reading the socket between ticks and
    in them, whatever datagrams arrive, whatever the clocks say, in whatever order the
    tables are visited, whatever Redis answers or fails to: no check aborts, no freed connection is used, and after each of them
    the invariant holds.  In particular the transport's two tables and the player
    tables name the same clients, each client has one player and one avatar of its own,
    no player id plays twice, no admission is left half done, and there are never more
    players than the shard's capacity.  The one bound is that fewer than 2^32 datagrams
    arrive, so that no 32-bit id is given out twice. *)
Theorem shard_keeps_running `{Platform} `{MathLib} `{FloatText} `{Redis R} `{Rng G} (wall random : nat -> Z)
    (nth_element : nat -> list Candidate -> list Candidate) (visit : Visiting) (config : WorldServerConfig) (bind : Address) (udp_endpoint http_endpoint : string)
    (server : R) (rng : G) (udp_open ws_bound connected : bool) (now_ms beat next : Z) (its : list Iteration) (s : ConnectionServer (ShardState R G)) :
  params_ok (sf_params config) -> wp_tick_rate (sf_params config) <> 0 -> rm_regions_per_axis (sf_regions config) <> 0 -> 0 <= sf_capacity config -> 0 <= sf_drifters config ->
  1 + sf_drifters config + run_size its < 2 ^ 32 -> Forall iteration_bytes its ->
  start_world_server config bind udp_endpoint http_endpoint server rng udp_open ws_bound connected now_ms beat = Some s ->
  exists s' next', run_shard wall random nth_element visit its s next = Some (s', next') /\ shard_ok s'.
Proof.
  intros Hp Hrate Hreg Hcap Hd Hroom Hits Hstart. pose proof (run_size_nonneg its).
  destruct (start_ok config bind udp_endpoint http_endpoint server rng udp_open ws_bound connected now_ms beat s) as [Hs Ec]; [done..|lia|done|].
  apply run_shard_ok; [done|done|]. unfold room. rewrite Ec. cbn [fst snd]. lia.
Qed.

(** ** Witness: noise, then a client that completes the handshake *)
Definition sample_shard_config : WorldServerConfig :=
  mkWorldServerConfig "a" 0 "morton" WorldParams_default InterestConfig_default RegionMap_default 512 2 4096 20000 45 5000000 false.

Definition sample_start : option (ConnectionServer (ShardState MiniRedis Z)) :=
  @start_world_server plain_float_text MiniRedis _ Z sample_shard_config (mkAddress 0 7000) "10.0.0.1:7000" "10.0.0.1:8000"
    (mkMiniRedis ∅ []) 41 true false true 1000 1000.

Definition sample_salts (i : nat) : Z := 1000 + Z.of_nat i.
Definition sample_credential : list Z := default [] (encode_credential (mkConnectCredential kSession 5 "p1")).

Definition sample_iteration : Iteration :=
  mkIteration [(0, [(mkAddress 1 1, [1; 2; 3])])]
    [(mkAddress 1 2, replicate 1200 255); (mkAddress 1 3, request_packet 77 sample_credential);
     (mkAddress 1 3, response_packet (Z.lxor 77 1000))] 40000 41000 f64_zero.

Definition sample_run (s : ConnectionServer (ShardState MiniRedis Z)) : option (ConnectionServer (ShardState MiniRedis Z) * Z) :=
  @run_shard plain_platform flat_math plain_float_text MiniRedis _ Z small_rng (fun _ => 5000) sample_salts (fun _ l => l) (fun _ _ l => rev l)
    [sample_iteration; sample_iteration] s 0.

(** What the iteration's datagrams do, read between two ticks. *)
Definition sample_joined : option (ConnectionServer (ShardState MiniRedis Z)) :=
  s ← sample_start;
  @drain_until plain_platform MiniRedis _ Z (fun _ => 5000) sample_salts [(0, it_waiting sample_iteration)] 40000 s.

Example sample_player_joins : match sample_joined with
  | Some s => (player_by_id "p1" (sv_app s) ≫= fun p => Some (pl_entity p)) = Some 3 /\ sh_next_client (sv_app s) = 2
  | None => False
  end.
Proof. vm_compute. by split. Qed.

Definition bytes_check (waiting : list Datagram) : bool := forallb (fun d => forallb (fun b => (0 <=? b) && (b <? 256)) d.2) waiting.

Lemma bytes_check_ok waiting : bytes_check waiting = true -> bytes_ok waiting.
Proof.
  unfold bytes_check. intros Hb. apply Forall_forall. intros d Hd%list_elem_of_In. rewrite forallb_forall in Hb. specialize (Hb d Hd).
  apply Forall_forall. intros b Hbd%list_elem_of_In. rewrite forallb_forall in Hb. specialize (Hb b Hbd). unfold fits. lia.
Qed.

Lemma bytes_check_data from data : bytes_check [(from, data)] = true -> Forall (fits 8) data.
Proof. intros Hb%bytes_check_ok. by apply Forall_cons_1 in Hb as [Hb _]. Qed.

Lemma sample_iteration_bytes : iteration_bytes sample_iteration.
Proof. split; [apply Forall_cons_2; [|apply Forall_nil_2]|]; by apply bytes_check_ok. Qed.

Lemma shard_keeps_running_witness : match sample_start with
  | Some s => exists s' next', sample_run s = Some (s', next') /\ shard_ok s'
  | None => False
  end.
Proof.
  destruct sample_start as [s|] eqn:E; [|vm_compute in E; discriminate]. unfold sample_run.
  apply (@shard_keeps_running plain_platform flat_math plain_float_text MiniRedis _ Z small_rng (fun _ => 5000) sample_salts (fun _ l => l) (fun _ _ l => rev l)
    sample_shard_config (mkAddress 0 7000) "10.0.0.1:7000" "10.0.0.1:8000" (mkMiniRedis ∅ []) 41 true false true 1000 1000 0
    [sample_iteration; sample_iteration] s).
  - vm_compute. reflexivity.
  - discriminate.
  - discriminate.
  - vm_compute. discriminate.
  - vm_compute. discriminate.
  - vm_compute. reflexivity.
  - apply Forall_cons_2; [|apply Forall_cons_2; [|apply Forall_nil_2]]; exact sample_iteration_bytes.
  - exact E.
Defined.
