(* ===== verification/Session.v ===== *)
(** * Session: a player's avatar survives its connections
    ([src/src/app/world_server.cpp], [game_client.cpp])

    What [WorldServer], [GameClient] and the cluster do together: a player that
    connects again, or is sent to another shard, gets an avatar in the state its last
    one had. *)

From S2P Require Import Prelude F32 Bitstream Quantizer Movement Messages Grid EntityStore World Snapshot SequenceBuffer Reliability Connection ClientView Region.
From S2P Require Import Text Redis Store Presence Migration Shard Http Endpoint Matchmaker WebSocket Metrics WorldServer GameClient ShardRun.
From Stdlib Require Import ZArith Lia Bool Ascii String.
From stdpp Require Import base tactics numbers list option gmap sets fin_maps strings.
#[local] Open Scope Z_scope.

(** ** Arriving *)
Section Arrivals.
Context `{Platform} `{MathLib} `{FloatText} `{Redis R} `{Rng G}.
Context (wall : nat -> Z).
Abbreviation App := (ShardState R G).
Abbreviation Server := (ConnectionServer (ShardState R G)).

(** Checking a credential only talks to the cluster. *)
Definition same_tables (a a' : App) : Prop :=
  sh_config a' = sh_config a /\ sh_world a' = sh_world a /\ sh_players a' = sh_players a /\ sh_by_player_id a' = sh_by_player_id a /\
  sh_ghosts a' = sh_ghosts a /\ sh_clock a' = sh_clock a.

Lemma check_credential_tables credential (a : App) : same_tables a (snd (check_credential credential a)).
Proof.
  unfold check_credential. destruct (cc_kind credential).
  - destruct (negb (sf_advertise (sh_config a))); [done|]. destruct (with_registry _ _) as [co record].
    destruct record as [record|]; [|done]. destruct (negb _); [done|]. by destruct (negb _).
  - unfold ticket_for. destruct (sh_redeemed_tickets a !! cc_token credential) as [ticket|]; [by destruct (negb _)|].
    destruct (accept_handoff _ _) as [co out]. destruct out as [ticket|]; [|done]. by destruct (negb _).
Qed.

Lemma session_without_ticket credential (a a' : App) region ticket : cc_kind credential = kSession ->
  check_credential credential a = (inr (region, ticket), a') -> ticket = None.
Proof.
  unfold check_credential. intros ->. destruct (negb (sf_advertise (sh_config a))); [by intros [= _ <- _]|].
  destruct (with_registry _ _) as [co record]. destruct record as [record|]; [|done]. destruct (negb _); [done|].
  destruct (negb _); [done|]. by intros [= _ <- _].
Qed.

(** What an admission is made of. *)
Lemma admit_player_inv from token (a : App) decision (a' : App) : idle a -> admit_player wall from token a = (decision, a') -> de_admit decision = true ->
  exists credential region ticket a1, decode_credential token = Some credential /\
    check_credential credential (advance_clock a) = (inr (region, ticket), a1) /\
    let entry := mkPendingAdmit (sh_next_client a1) credential ticket (owned_region a1 region) (u64 (u64 (wall (sh_clock a)) + kPendingAdmitTtlMs)) in
    sh_pending_admits a' = {[pa_client entry := entry]} ∪ sh_pending_admits a1 /\ same_tables a1 a'.
Proof.
  intros [Hp1 Hp2] E Hd. unfold admit_player in E. destruct (decode_credential token) as [credential|]; [|injection E as <- _; done].
  unfold wall_ms in E. cbn iota beta in E.
  assert (Hnone : forall now, pending_entry credential now (advance_clock a) = None).
  { intros now. unfold pending_entry. cbn [sh_pending_by_player advance_clock]. by rewrite Hp2, lookup_empty. }
  rewrite Hnone in E. destruct (_ <=? _); [injection E as <- _; done|].
  destruct (check_credential credential (advance_clock a)) as [out a1] eqn:Ec. destruct out as [reason|[region ticket]]; [injection E as <- _; done|].
  injection E as _ <-. exists credential, region, ticket, a1. split; [done|]. split; [done|]. cbv zeta. split; [|done].
  cbn [sh_pending_admits set_pending_admits set_next_client pa_client]. by rewrite insert_union_singleton_l.
Qed.

(** What the avatar of a new connection is like, and the player's record. *)
Record avatar_of (client : Z) (player_id : string) (token : Z) (position velocity : Vec2) (sequence region : Z) (a : App) (p : WorldPlayer) : Prop := {
  av_player : sh_players a !! client = Some p;
  av_client : pl_client p = client;
  av_id : pl_player_id p = player_id;
  av_token : pl_session_token p = token;
  av_sequence : pl_last_input_sequence p = sequence;
  av_region : pl_region p = region;
  av_resident : pl_redirecting p = false;
  av_only : sh_by_player_id a !! player_id = Some client;
  av_slot : w_players (sh_world a) !! client = Some (new_slot (pl_entity p) client sequence);
  av_data : exists d, entity_data (w_entities (sh_world a)) (pl_entity p) = Some d /\ avatar_data client position velocity sequence d
}.

(** A handshake that is admitted ends with an avatar as [placement] says, in a shard
    from which the player's older session is gone. *)
Lemma arrives from data now pending decision a1 (s : Server) : answering from data pending s -> shard_ok s -> room 1 s ->
  admit_player wall from (ph_token pending) (sv_app s) = (decision, a1) -> de_admit decision = true ->
  exists c entry s1 s' p, connecting from c entry s1 /\ sv_app s1 = a1 /\ clients_in s1 = ({[cn_client_id c]} ∪ clients_in s) /\
    (cn_client_id c ∉ clients_in s) /\ handle_challenge_response (shard_handlers wall) from data now s = Some s' /\ shard_ok s' /\
    let a3 := sv_app (cleared wall from entry s1) in
    sh_players (sv_app s') = <[cn_client_id c := p]> (sh_players a3) /\
    exists position velocity sequence region migrated a4, placement wall entry (cn_client_id c) a3 = Some ((position, velocity, sequence, region, migrated), a4) /\
    avatar_of (cn_client_id c) (cc_player_id (pa_credential entry)) (cc_token (pa_credential entry)) position velocity sequence region (sv_app s') p.
Proof.
  intros Han Hs Hroom Ead Eadmit.
  destruct (arrival wall from data now pending decision a1 s Han Hs Hroom Ead Eadmit) as (c & entry & s1 & s2 & c2 & Hcg & Ewel & Eapp & Ecl & Hfresh & _ & _ & _ & E).
  destruct (entered_ok wall from c entry s1 Hcg) as (p & a4 & Een & Ha4 & _ & _ & _ & _ & Epl & position & velocity & sequence & region & migrated & a5 & Epm & Erec & Hslot & Hd).
  rewrite <- (cg_client _ _ _ _ Hcg) in Een. destruct (welcome_core wall from c entry s1 p a4 Hcg Een) as (s2' & Ew2 & _ & Hcore & _).
  rewrite Ewel in Ew2. injection Ew2 as <-. destruct (welcome_ok wall from c entry s1 Hcg) as (s2' & Ew2 & Hs2 & _).
  rewrite Ewel in Ew2. injection Ew2 as <-.
  set (a3 := sv_app (cleared wall from entry s1)) in *.
  destruct (send_to_steady (cn_address c2) (accepted_packet (cn_salt c2) (cn_client_id c2) (cn_entity c2)) _ Hs2) as [Hs3 _].
  exists c, entry, s1, (send_accepted c2 s2), p. split; [done|]. split; [done|]. split; [done|]. split; [done|].
  split; [exact E|]. split; [exact Hs3|]. cbv zeta. fold a3. change (sv_app (send_accepted c2 s2)) with (sv_app s2).
  destruct Hcore as (Ew & Ep & Ei & _). rewrite Ep. split; [exact Epl|].
  exists position, velocity, sequence, region, migrated, a5. split; [exact Epm|].
  assert (Hat : sh_players a4 !! cn_client_id c = Some p) by (rewrite Epl; apply lookup_insert_eq).
  destruct (ak_players _ _ Ha4 _ _ Hat) as (_ & Hid & _). split; [by rewrite Ep|by rewrite Erec..| |by rewrite Ew|by rewrite Ew].
  rewrite Ei. rewrite Erec in Hid. exact Hid.
Qed.

(** *** The ghost of an avatar *)
(** The columns of an entity's record. *)
Lemma data_columns (e : EntityStore) index d : data_at e index = Some d ->
  es_position e !!! index = ed_position d /\ es_velocity e !!! index = ed_velocity d /\ es_last_input_sequence e !!! index = ed_last_input_sequence d.
Proof.
  unfold data_at. intros Hd. destruct (es_position e !! index) eqn:E1; [|done]. destruct (es_velocity e !! index) eqn:E2; [|done].
  destruct (es_kind e !! index); [|done]. destruct (es_owner e !! index); [|done]. destruct (es_last_input_sequence e !! index) eqn:E3; [|done].
  destruct (es_ai_seed e !! index); [|done]. cbn in Hd. injection Hd as <-. split_and!; by apply list_lookup_total_correct.
Qed.

(** A resident player that is dropped leaves a ghost in its state. *)
Lemma drop_leaves_ghost clients connection reason (a : App) p d : app_ok clients a -> sh_players a !! cn_client_id connection = Some p ->
  pl_redirecting p = false -> entity_data (w_entities (sh_world a)) (pl_entity p) = Some d ->
  sh_ghosts (drop_player wall connection reason a) !! pl_player_id p =
    Some (mkGhostState (ed_position d) (ed_velocity d) (ed_last_input_sequence d) (pl_region p) (pl_session_token p)
      (u64 (u64 (wall (sh_clock a)) + sf_reconnect_grace_ms (sh_config a)))) /\
  sh_clock (drop_player wall connection reason a) = S (sh_clock a).
Proof.
  intros Ha Hp Hr Hd. unfold drop_player, leave_ghost. rewrite Hp, Hr. unfold entity_data in Hd.
  destruct (store_find (pl_entity p) (w_entities (sh_world a))) as [index|]; [|done]. cbn [mbind option_bind] in Hd. unfold wall_ms.
  destruct (data_columns _ _ _ Hd) as (E1 & E2 & E3). unfold ghost_of.
  cbn [sh_config sh_world advance_clock sh_by_player_id sh_players set_world]. rewrite E1, E2, E3. destruct (bool_decide _); (split; [apply lookup_insert_eq|done]).
Qed.

(** An older session of the same player is dropped. *)
Lemma evict_app client player_id other (s : Server) : linked s -> sh_by_player_id (sv_app s) !! player_id = Some other ->
  other <> client -> other ∈ clients_in s ->
  exists stale, cn_client_id stale = other /\
    sv_app (evict wall player_id client s) = drop_player wall stale "replaced by a newer session" (sv_app s).
Proof.
  intros Hl Ho Hne Hin. unfold evict, stale_connection. rewrite Ho, (proj2 (Z.eqb_neq _ _)) by done.
  destruct (find_spec other s Hl Hin) as (at_ & stale & -> & Hs & Ec & Ea). exists stale. split; [done|].
  unfold Connection.disconnect, remove_connection. set (s1 := Nat.iter 3 _ s).
  assert (E : sv_connections s1 = sv_connections s /\ sv_app s1 = sv_app s) by done. destruct E as [E1 E2]. clearbody s1.
  rewrite E1, Ea, Hs. cbn [sv_app set_connections set_by_client set_app on_disconnect drop_handlers]. by rewrite E2.
Qed.

(** Where a player comes back that left a ghost under the same session. *)
Lemma placement_ghost entry client (a : App) g : pa_ticket entry = None -> sh_ghosts a !! cc_player_id (pa_credential entry) = Some g ->
  gs_session_token g = cc_token (pa_credential entry) -> u64 (wall (sh_clock a)) < gs_expires_ms g ->
  fst <$> placement wall entry client a = Some (gs_position g, gs_velocity g, gs_last_input_sequence g, gs_region g, false).
Proof.
  intros Ht Hg Hs Hc. unfold placement. rewrite Ht, Hg. unfold wall_ms. cbn iota beta.
  by rewrite (proj2 (Z.ltb_lt _ _) Hc), (proj2 (Z.eqb_eq _ _) Hs).
Qed.

(** The admission behind an arrival. *)
Lemma connecting_entry from c entry entry' (s : Server) (a : App) : connecting from c entry s ->
  sh_pending_admits (sv_app s) = {[pa_client entry' := entry']} ∪ sh_pending_admits a -> entry = entry'.
Proof.
  intros [_ _ _ _ [E _ _ _ _ _] _] E'. rewrite E' in E.
  assert (Hl : ({[pa_client entry := entry]} : gmap Z PendingAdmit) !! pa_client entry' = Some entry')
    by (rewrite <- E, lookup_union, lookup_singleton_eq; by destruct (sh_pending_admits a !! _)).
  by apply lookup_singleton_Some in Hl as [_ <-].
Qed.

(** The session that is taken over: gone, and its ghost in the state of its avatar. *)
Lemma cleared_takeover from c entry old p d (s : Server) : connecting from c entry s -> old ∈ clients_in s -> old <> cn_client_id c ->
  sh_by_player_id (sv_app s) !! cc_player_id (pa_credential entry) = Some old -> sh_players (sv_app s) !! old = Some p ->
  pl_redirecting p = false -> entity_data (w_entities (sh_world (sv_app s))) (pl_entity p) = Some d ->
  let a3 := sv_app (cleared wall from entry s) in
  sh_ghosts a3 !! pl_player_id p =
    Some (mkGhostState (ed_position d) (ed_velocity d) (ed_last_input_sequence d) (pl_region p) (pl_session_token p)
      (u64 (u64 (wall (sh_clock (sv_app s))) + sf_reconnect_grace_ms (sh_config (sv_app s))))) /\
  sh_clock a3 = S (sh_clock (sv_app s)) /\ sh_players a3 !! old = None.
Proof.
  intros Hcg Hin Hne Hold Hp Hres Hd a3. subst a3. unfold cleared. rewrite (cg_client _ _ _ _ Hcg).
  set (s2 := set_app (set_pending_admits ∅ ∅ (sv_app s)) s).
  destruct (evict_app (cn_client_id c) (cc_player_id (pa_credential entry)) old s2) as (stale & Est & ->); [by apply (linked_same s), Hcg|done..|].
  assert (Hok : app_ok (clients_in s ∖ {[cn_client_id c]}) (sv_app s2)) by (destruct (cg_app _ _ _ _ Hcg); by split).
  assert (Hp2 : sh_players (sv_app s2) !! cn_client_id stale = Some p) by (by rewrite Est).
  destruct (drop_leaves_ghost _ stale "replaced by a newer session" (sv_app s2) p d Hok Hp2 Hres Hd) as [Hg Hk].
  destruct (drop_player_tables wall _ stale "replaced by a newer session" _ p Hok Hp2) as [Hgone _].
  split; [exact Hg|]. split; [exact Hk|]. rewrite Hgone, Est. apply lookup_delete_eq.
Qed.

End Arrivals.

(** ** Moving to another shard *)
Definition redirect_event (plan : HandoffPlan) : MigrateRedirectEvent :=
  mkMigrateRedirectEvent (hp_token plan) (hp_target_region plan) (hp_target_endpoint plan) (hp_target_shard plan).

Lemma first_byte b data v tl : Forall (fits 8) (b :: data) -> 8 * Z.of_nat (length (b :: data)) < 2 ^ 31 -> fits 8 v ->
  bits_of_bytes (b :: data) = zbits 8 v ++ tl -> b = v.
Proof.
  intros Hf Hl Hv E. destruct (reader_wf_new (b :: data) Hf Hl) as [Hr Hrest].
  assert (Hb : fits 8 b) by (by inversion Hf). pose proof Hrest as Hrest'. rewrite E in Hrest'.
  pose proof (reads_u8 b Hb _ (bits_of_bytes data) Hr Hrest) as E1. pose proof (reads_u8 v Hv _ tl Hr Hrest') as E2. congruence.
Qed.

(** The redirect as the event channel carries it. *)
Lemma redirect_bytes event bytes : migrate_redirect_ok event -> finish (encode_migrate_redirect event event_buffer) = Some bytes ->
  Z.of_nat (length bytes) <= kMaxReliableMessageSize /\ (exists rest, bytes = event_code kMigrateRedirect :: rest) /\
  fst (decode_migrate_redirect (BitReader_new bytes (Z.of_nat (length bytes)))) = Some event.
Proof.
  intros Hok E. assert (Hb : buffer_ok (packet_buffer kMaxReliableMessageSize) kMaxReliableMessageSize).
  { unfold packet_buffer, kMaxReliableMessageSize. split; [by apply Forall_replicate|]. rewrite length_replicate. lia. }
  pose proof (codec_roundtrip event _ _ Hok Hb) as [_ R]. destruct (R bytes E) as (D & Hf & Hl). split; [done|]. split; [|exact D].
  destruct Hb as (B1 & B2 & B3).
  destruct (packet_bits _ _ (encode_migrate_redirect_writes event Hok) _ _ B1 B2 B3 bytes E) as ((pad & Ebits & _) & _ & _).
  unfold migrate_redirect_bits in Ebits. rewrite <- !app_assoc in Ebits. destruct bytes as [|b rest]; [discriminate|].
  exists rest. f_equal. eapply first_byte; [exact Hf|unfold kMaxReliableMessageSize in Hl; lia|split; [done|by vm_compute]|exact Ebits].
Qed.

Section Source.
Context `{Platform} `{Redis R} `{Rng G}.
Context (wall : nat -> Z).

(** The handoff [migrate_player] asks for. *)
Definition handoff_of (player : WorldPlayer) (d : EntityData) (a : ShardState R G) : option (ShardCoordinator R G * option HandoffPlan) :=
  plan_handoff (sh_coordinator a) (pl_player_id player) (pl_region player) (ed_position d) (ed_velocity d) (w_tick (sh_world a))
    (pl_last_input_sequence player) (u64 (wall (sh_clock a))).

Lemma owned_not_planned (co co' : ShardCoordinator R G) player_id region position velocity tick sequence now plan :
  plan_handoff co player_id region position velocity tick sequence now = Some (co', Some plan) ->
  handoff_target (sc_regions (co_config co)) region (vec_x position) (vec_y position) = Some (hp_target_region plan) /\
  hp_target_region plan <> kInvalidRegion /\ owns_region co (hp_target_region plan) = false.
Proof.
  intros E. unfold plan_handoff in E. destruct (handoff_target _ _ _ _) as [target|]; [|done]. cbn [mbind option_bind] in E.
  destruct (Z.eqb_spec target kInvalidRegion) as [|Hv]; [discriminate E|]. set (owner := owner_of_region co target) in *.
  destruct (owner =? "")%string; [discriminate E|]. cbn [orb] in E.
  destruct (String.eqb_spec owner (sc_id (co_config co))) as [|Hne]; [discriminate E|].
  destruct (endpoint_of_shard co owner) as [endpoint|]; [|discriminate E]. destruct (next_token co) as [token co1].
  destruct (publish_and_transfer _ _ _ _ _ _) as [[st g] [|]]; cbn [negb] in E; [|discriminate E]. injection E as _ <-. cbn [hp_target_region].
  split; [done|]. split; [done|]. destruct (owns_region co target) eqn:Eo; [|done]. by apply owns_owner in Eo.
Qed.

(** The source marks the player and queues the redirect on its connection. *)
Lemma migrate_planned client player d connection co' plan bytes (s : ConnectionServer (ShardState R G)) :
  sh_players (sv_app s) !! client = Some player -> entity_data (w_entities (sh_world (sv_app s))) (pl_entity player) = Some d ->
  Connection.find client s = Some connection -> sv_connections s !! cn_address connection = Some connection ->
  sc_regions (co_config (sh_coordinator (sv_app s))) = sf_regions (sh_config (sv_app s)) ->
  handoff_of player d (sv_app s) = Some (co', Some plan) ->
  finish (encode_migrate_redirect (redirect_event plan) event_buffer) = Some bytes -> bytes <> [] ->
  exists s', migrate_player wall s client = Some s' /\
  sh_coordinator (sv_app s') = co' /\ pl_redirecting <$> (sh_players (sv_app s') !! client) = Some true /\
  cn_reliability <$> (sv_connections s' !! cn_address connection) = Some (queue_reliable (channel_code kEvent) bytes (cn_reliability connection)).
Proof.
  intros Hp Hd Hfind Hc Hreg Hplan Hbytes Hne. unfold migrate_player. rewrite Hp. unfold entity_data in Hd.
  destruct (store_find (pl_entity player) _) as [index|] eqn:Ef; [|done]. cbn [mbind option_bind] in Hd.
  destruct (data_columns _ _ _ Hd) as (-> & -> & _). unfold handoff_of in Hplan. destruct (owned_not_planned _ _ _ _ _ _ _ _ _ _ Hplan) as (E1 & E2 & E3).
  rewrite <- Hreg, E1. cbn [mbind option_bind]. rewrite (proj2 (Z.eqb_neq _ _) E2), E3. unfold wall_ms. cbn [sh_coordinator sh_world advance_clock]. rewrite Hplan. cbn [mbind option_bind].
  unfold redirect_event in Hbytes. eexists. split; [reflexivity|]. rewrite Hbytes. change (Connection.find client (set_app ?a s)) with (Connection.find client s). rewrite Hfind.
  rewrite (proj2 (Z.eqb_neq _ _)) by (destruct bytes; [done|cbn; lia]). cbv zeta. unfold send_event. cbn [sv_connections set_app]. rewrite Hc.
  cbn. rewrite !lookup_insert_eq. by split_and!.
Qed.
End Source.

Section Destination.
Context `{Platform} `{MathLib} `{FloatText} `{Redis R} `{Rng G}.
Context (wall : nat -> Z).
Abbreviation App := (ShardState R G).

(** A credential that is good is let in when there is room. *)
Lemma good_admitted from token (a : App) credential x a1 : idle a -> decode_credential token = Some credential ->
  Z.of_nat (size (sh_players a)) < sf_capacity (sh_config a) -> check_credential credential (advance_clock a) = (inr x, a1) ->
  de_admit (fst (admit_player wall from token a)) = true.
Proof.
  intros [Hp1 Hp2] Hd Hroom Hc. unfold admit_player. rewrite Hd. unfold wall_ms. cbn iota beta.
  assert (Hnone : forall now, pending_entry credential now (advance_clock a) = None).
  { intros now. unfold pending_entry. cbn [sh_pending_by_player advance_clock]. by rewrite Hp2, lookup_empty. }
  rewrite Hnone. cbn [sh_config sh_players advance_clock]. rewrite (proj2 (Z.leb_gt (sf_capacity (sh_config a)) (Z.of_nat (size (sh_players a)))) Hroom), Hc. by destruct x.
Qed.

(** A ticket the cluster still holds, for the player that shows it. *)
Lemma check_migration credential (a : App) co t : cc_kind credential = kMigration -> sh_redeemed_tickets a !! cc_token credential = None ->
  accept_handoff (sh_coordinator a) (cc_token credential) = (co, Some t) -> mt_player_id t = cc_player_id credential ->
  check_credential credential a =
    (inr (mt_region t, Some t), set_redeemed (<[cc_token credential := t]> (sh_redeemed_tickets a)) (set_coordinator co a)).
Proof.
  intros Hk Hr Ha Hid. unfold check_credential, ticket_for. rewrite Hk, Hr, Ha. cbn [sh_redeemed_tickets set_coordinator].
  by rewrite Hid, String.eqb_refl.
Qed.

Lemma accept_owns (co co' : ShardCoordinator R G) token out region : accept_handoff co token = (co', out) -> owns_region co' region = owns_region co region.
Proof.
  unfold accept_handoff. destruct (redeem _ _ _) as [[st g] o]. destruct o as [ticket|]; [|by intros [= <- _]]. destruct (negb _); by intros [= <- _].
Qed.

(** The avatar a ticket brings. *)
Lemma ticket_arrives from data now pending credential co t (s : ConnectionServer App) :
  answering from data pending s -> shard_ok s -> room 1 s -> Z.of_nat (size (sh_players (sv_app s))) < sf_capacity (sh_config (sv_app s)) ->
  decode_credential (ph_token pending) = Some credential -> cc_kind credential = kMigration ->
  sh_redeemed_tickets (sv_app s) !! cc_token credential = None ->
  accept_handoff (sh_coordinator (sv_app s)) (cc_token credential) = (co, Some t) -> mt_player_id t = cc_player_id credential ->
  exists s' client p region, handle_challenge_response (shard_handlers wall) from data now s = Some s' /\ shard_ok s' /\
    avatar_of client (cc_player_id credential) (cc_token credential) (mt_position t) (mt_velocity t) (mt_last_input_sequence t) region (sv_app s') p /\
    (owns_region (sh_coordinator (sv_app s)) (mt_region t) = true -> region = mt_region t).
Proof.
  intros Han Hs Hroom Hcap Hdec Hkind Hred Hacc Hid.
  pose proof (check_migration credential (advance_clock (sv_app s)) co t Hkind Hred Hacc Hid) as Hcheck.
  pose proof (good_admitted from _ _ _ _ _ (sk_idle _ Hs) Hdec Hcap Hcheck) as Eadmit.
  destruct (admit_player wall from (ph_token pending) (sv_app s)) as [decision a1] eqn:Ead. cbn [fst] in Eadmit.
  destruct (admit_player_inv wall from _ (sv_app s) decision a1 (sk_idle _ Hs) Ead Eadmit) as (credential' & region & ticket & a2 & Hdec' & Hcheck' & Eentry & _).
  rewrite Hdec in Hdec'. injection Hdec' as <-. rewrite Hcheck in Hcheck'. injection Hcheck' as <- <- Ea2.
  destruct (arrives wall from data now pending decision a1 s Han Hs Hroom Ead Eadmit) as (c & entry & s1 & s' & p & Hcg & Eapp & _ & _ & E & Hs' & _ & position & velocity & sequence & region & migrated & a4 & Epm & Hav).
  rewrite <- Eapp in Eentry. pose proof (connecting_entry _ _ _ _ _ _ Hcg Eentry) as Ee.
  assert (Ht : pa_ticket entry = Some t) by (by rewrite Ee). assert (Hc : pa_credential entry = credential) by (by rewrite Ee).
  assert (Hr : pa_region entry = owned_region a2 (mt_region t)) by (by rewrite Ee). clear Ee Eentry.
  unfold placement in Epm. rewrite Ht in Epm. injection Epm as <- <- <- <- <- _. rewrite Hc in Hav. exists s', (cn_client_id c), p, (pa_region entry).
  split; [exact E|]. split; [exact Hs'|]. split; [exact Hav|]. intros Howns. rewrite Hr. unfold owned_region.
  rewrite <- Ea2. cbn [sh_coordinator set_redeemed set_coordinator]. by rewrite (accept_owns _ _ _ _ _ Hacc), Howns.
Qed.
End Destination.

Section Client.
Context `{Platform} `{Resolver}.
Context (random : nat -> Z).

(** The event, when the connection delivers it, waits in the client's state. *)
Lemma redirect_heard message plan bytes (g : GameState) :
  migrate_redirect_ok (redirect_event plan) -> finish (encode_migrate_redirect (redirect_event plan) event_buffer) = Some bytes ->
  rm_channel message = channel_code kEvent -> rm_payload message = bytes ->
  handle_message message g = set_gm_redirect (Some (redirect_event plan)) g.
Proof.
  intros Hok E Hch Hpl. destruct (redirect_bytes _ _ Hok E) as (_ & (rest & Er) & Hdec).
  unfold handle_message. rewrite Hpl, Hch. rewrite Er at 1. change (negb (channel_code kEvent =? channel_code kEvent)) with false.
  change (event_code kMigrateRedirect =? event_code kWorldConfig) with false. rewrite Z.eqb_refl. by rewrite Hdec.
Qed.

(** Time passing moves what is drawn, not what is predicted. *)
Lemma advance_predicted dt (v : ClientView) : pr_predicted (cv_prediction (advance_view dt v)) = pr_predicted (cv_prediction v).
Proof. unfold advance_view. by destruct (negb _). Qed.

(** The update in which the event arrives dials the shard it names with the ticket, and
    keeps the avatar in place. *)
Lemma update_redirects plan waiting endpoint now (c : ClientConnection GameState) :
  let heard := client_update GameClient.handle_payload handle_message waiting now c in
  let g := cc_app heard in
  migrate_redirect_ok (redirect_event plan) -> gm_pending_redirect g = Some (redirect_event plan) ->
  1 <= string_size (gf_player_id (gm_config g)) <= kMaxPlayerIdBytes -> parse_address (hp_target_endpoint plan) = Some endpoint ->
  let c' := game_update random waiting now c in
  cc_state c' = kSendingRequest /\ ccf_server (cc_config c') = endpoint /\
  decode_credential (ccf_token (cc_config c')) = Some (mkConnectCredential kMigration (hp_token plan) (gf_player_id (gm_config g))) /\
  ms_position (pr_predicted (cv_prediction (gm_view (cc_app c')))) = ms_position (pr_predicted (cv_prediction (gm_view g))) /\
  gm_pending_redirect (cc_app c') = None.
Proof.
  intros heard g Hok Hred Hsize Hep. subst g. unfold game_update. fold heard. clearbody heard. rewrite Hred. unfold apply_redirect.
  cbn [mr_endpoint mr_ticket redirect_event cc_app set_game]. rewrite Hep.
  destruct Hok as (Htok & _). set (credential := mkConnectCredential kMigration (hp_token plan) (gf_player_id (gm_config (cc_app heard)))) in *.
  destruct (credential_roundtrip credential Htok) as (Hsome & Hback & _). unfold build_credential. cbn [gm_config set_gm_redirect]. fold credential.
  destruct (encode_credential credential) as [token|]; [|by destruct (proj2 Hsome Hsize)].
  split; [done|]. split; [done|]. split; [by apply Hback|].
  match goal with |- context [if ?b then set_gm_view _ _ else _] => destruct b end; cbn [cc_app set_game gm_view set_gm_updated set_gm_view]; [|done].
  by rewrite advance_predicted.
Qed.
End Client.

(** The commands a new avatar refuses: all those up to the one it starts from. *)
Lemma new_slot_stale `{Platform} entity client sequence input w : w_players w !! client = Some (new_slot entity client sequence) -> sequence <> 0 ->
  mi_sequence input <= sequence -> ps_pending <$> w_players (queue_input client input w) !! client = Some [].
Proof.
  intros Hs Hq Hle. unfold queue_input, slot_queue. rewrite Hs. cbn [ps_highest_received_sequence new_slot].
  rewrite (proj2 (Z.leb_le _ _) Hle), (proj2 (Z.eqb_neq _ _) Hq). cbn. by rewrite lookup_insert_eq.
Qed.

(** ** Properties *)
(** C11. A player that connects again resumes.  When a player whose session is still
    live, on a connection it may have lost, completes a handshake from another address
    under the same session, then the new connection takes the session over: the old
    client is gone from the shard, and the new client's avatar has the position, the
    velocity, the last input and the region the old one had, so that no input is
    applied twice.  The wall clock may jump, as long as it does not by the reconnect
    grace between the two readings. *)
Theorem reconnect_resumes `{Platform} `{MathLib} `{FloatText} `{Redis R} `{Rng G} (wall : nat -> Z) (from : Address) (data : list Z) (now old : Z)
    (pending : PendingHandshake) (credential : ConnectCredential) (p : WorldPlayer) (d : EntityData) (s : ConnectionServer (ShardState R G)) :
  let a := sv_app s in
  answering from data pending s -> shard_ok s -> room 1 s ->
  decode_credential (ph_token pending) = Some credential -> cc_kind credential = kSession ->
  sh_by_player_id a !! cc_player_id credential = Some old -> sh_players a !! old = Some p ->
  pl_redirecting p = false -> pl_session_token p = cc_token credential -> entity_data (w_entities (sh_world a)) (pl_entity p) = Some d ->
  u64 (wall (sh_clock a + 2)%nat) < u64 (u64 (wall (sh_clock a + 1)%nat) + sf_reconnect_grace_ms (sh_config a)) ->
  de_admit (fst (admit_player wall from (ph_token pending) a)) = true ->
  exists s' client p', handle_challenge_response (shard_handlers wall) from data now s = Some s' /\ shard_ok s' /\
    client <> old /\ sh_players (sv_app s') !! old = None /\
    avatar_of client (cc_player_id credential) (cc_token credential) (ed_position d) (ed_velocity d) (ed_last_input_sequence d) (pl_region p) (sv_app s') p'.
Proof.
  intros a Han Hs Hroom Hdec Hkind Hold Hp Hres Htok Hd Hclock Eadmit.
  destruct (admit_player wall from (ph_token pending) a) as [decision a1] eqn:Ead. cbn [fst] in Eadmit.
  destruct (admit_player_inv wall from _ a decision a1 (sk_idle _ Hs) Ead Eadmit) as (credential' & region & ticket & a2 & Hdec' & Hcheck & Eentry & T2).
  rewrite Hdec in Hdec'. injection Hdec' as <-. pose proof (session_without_ticket _ _ _ _ _ Hkind Hcheck) as ->.
  pose proof (check_credential_tables credential (advance_clock a)) as T1. rewrite Hcheck in T1. cbn [snd] in T1.
  destruct T1 as (E1 & E2 & E3 & E4 & _ & E6), T2 as (F1 & F2 & F3 & F4 & _ & F6).
  destruct (arrives wall from data now pending decision a1 s Han Hs Hroom Ead Eadmit) as (c & entry & s1 & s' & p' & Hcg & Eapp & Ecl & Hnew & E & Hs' & Epl & Hav).
  exists s', (cn_client_id c), p'. split; [exact E|]. split; [exact Hs'|].
  assert (Hin : old ∈ clients_in s) by (rewrite <- (ak_clients _ _ (sk_app _ Hs)); by apply elem_of_dom).
  assert (Hne : old <> cn_client_id c) by (intros ->; done). split; [by apply not_eq_sym|].
  rewrite <- Eapp in Eentry. pose proof (connecting_entry _ _ _ _ _ _ Hcg Eentry) as Ee.
  assert (Hid : cc_player_id (pa_credential entry) = cc_player_id credential) by (by rewrite Ee).
  assert (Hpt : pa_ticket entry = None) by (by rewrite Ee). assert (Hct : cc_token (pa_credential entry) = cc_token credential) by (by rewrite Ee).
  clear Ee Eentry. rewrite <- Eapp in F1, F2, F3, F4, F6. cbn [sh_config sh_world sh_players sh_by_player_id sh_clock advance_clock] in E1, E2, E3, E4, E6.
  destruct (ak_ids _ _ (sk_app _ Hs) _ _ Hold) as (q & Hq & Eq). assert (Epq : q = p) by (fold a in Hq; congruence). subst q.
  destruct (cleared_takeover wall from c entry old p d s1 Hcg) as (Hg & Hk & Hgone);
    [rewrite Ecl; by apply elem_of_union_r|done|by rewrite Hid, F4, E4|by rewrite F3, E3|done|by rewrite F2, E2|].
  rewrite F6, E6, F1, E1 in *. cbv zeta in Hav. set (a3 := sv_app (cleared wall from entry s1)) in *.
  destruct Hav as (position & velocity & sequence & region' & migrated & a5 & Epm & Hav).
  split; [by rewrite Epl, lookup_insert_ne|]. rewrite Eq, <- Hid in Hg.
  pose proof (placement_ghost wall entry (cn_client_id c) a3 _ Hpt Hg (eq_trans Htok (eq_sym Hct))) as Hpl. cbn [gs_expires_ms] in Hpl.
  rewrite Hk in Hpl. fold a in Hpl. replace (S (S (sh_clock a))) with (sh_clock a + 2)%nat in Hpl by lia.
  replace (S (sh_clock a)) with (sh_clock a + 1)%nat in Hpl by lia. specialize (Hpl Hclock).
  rewrite Epm in Hpl. injection Hpl as -> -> -> -> ->. by rewrite <- Hid, <- Hct.
Qed.

(** C1. A player that crosses a border goes on where it was, but for the commands that
    are still queued.  Take a player's avatar
    [d] for which its shard plans a handoff.  Then the source, in the same scan, marks
    the player and queues the redirect on its connection; the client's connection hands
    the event to the game, and the update that receives it dials the address the
    destination advertised, shows the ticket, and keeps the
    predicted avatar where it is; and the destination, once this client has proved its
    address, lets it in and gives it an avatar with the position and the velocity
    that [d] had at the source, in the region the handoff was for.  The sequence the
    avatar starts from is not [d]'s last simulated command but the highest one the source
    had received for the player: the destination refuses every command up to it, so no
    command is applied twice, and those the source had queued and not yet simulated
    are not applied at the destination at all.  The destination is assumed to
    have room, and to see the store as the source left it. *)
Theorem migration_continues `{Platform} `{MathLib} `{FloatText} `{RedisLaws R} `{Rng G} `{Resolver} (wall random : nat -> Z) (client : Z) (player : WorldPlayer)
    (d : EntityData) (connection : Connection) (co : ShardCoordinator R G) (plan : HandoffPlan) (bytes : list Z) (s : ConnectionServer (ShardState R G)) :
  let a := sv_app s in
  let prefix := prefix_ (co_registry (sh_coordinator a)) in
  let config := co_config (sh_coordinator a) in
  sh_players a !! client = Some player -> entity_data (w_entities (sh_world a)) (pl_entity player) = Some d ->
  Connection.find client s = Some connection -> sv_connections s !! cn_address connection = Some connection ->
  sc_regions config = sf_regions (sh_config a) -> 0 < sc_ticket_ttl_ms config < 2 ^ 63 -> 0 < sc_presence_ttl_ms config < 2 ^ 63 ->
  queued_ (co_registry (sh_coordinator a)) = [] -> keys_ok prefix (keyspace (redis_ (co_registry (sh_coordinator a)))) ->
  handoff_of wall player d a = Some (co, Some plan) ->
  ticket_ok (planned_ticket (sh_coordinator a) plan (pl_player_id player) (ed_position d) (ed_velocity d) (w_tick (sh_world a)) (pl_last_input_sequence player)
    (u64 (wall (sh_clock a)))) -> string_size (pl_player_id player) <= kMaxPlayerIdBytes ->
  migrate_redirect_ok (redirect_event plan) -> finish (encode_migrate_redirect (redirect_event plan) event_buffer) = Some bytes ->
  (exists s' message, migrate_player wall s client = Some s' /\
   sh_coordinator (sv_app s') = co /\ pl_redirecting <$> (sh_players (sv_app s') !! client) = Some true /\
   rm_channel message = channel_code kEvent /\ rm_payload message = bytes /\
   re_unacked <$> (cn_reliability <$> (sv_connections s' !! cn_address connection)) = Some (re_unacked (cn_reliability connection) ++ [message])) /\
  (forall (message : ReliableMessage) (g : GameState), rm_channel message = channel_code kEvent -> rm_payload message = bytes ->
    handle_message message g = set_gm_redirect (Some (redirect_event plan)) g) /\
  forall (waiting : list Datagram) (endpoint : Address) (now : Z) (c : ClientConnection GameState),
    let g := cc_app (client_update GameClient.handle_payload handle_message waiting now c) in
    gm_pending_redirect g = Some (redirect_event plan) -> gf_player_id (gm_config g) = pl_player_id player ->
    parse_address (hp_target_endpoint plan) = Some endpoint ->
    let c' := game_update random waiting now c in
    (cc_state c' = kSendingRequest /\ ccf_server (cc_config c') = endpoint /\ gm_pending_redirect (cc_app c') = None /\
     ms_position (pr_predicted (cv_prediction (gm_view (cc_app c')))) = ms_position (pr_predicted (cv_prediction (gm_view g)))) /\
    forall (s2 : ConnectionServer (ShardState R G)) (from : Address) (data : list Z) (now2 : Z) (pending : PendingHandshake),
      answering from data pending s2 -> shard_ok s2 -> room 1 s2 -> ph_token pending = ccf_token (cc_config c') ->
      follows prefix (sh_coordinator (sv_app s2)) co -> head (snd (attempts (redis_ (co_registry (sh_coordinator (sv_app s2)))))) = Some Completed ->
      sc_id (co_config (sh_coordinator (sv_app s2))) = hp_target_shard plan -> owns_region (sh_coordinator (sv_app s2)) (hp_target_region plan) = true ->
      Z.of_nat (size (sh_players (sv_app s2))) < sf_capacity (sh_config (sv_app s2)) -> sh_redeemed_tickets (sv_app s2) !! hp_token plan = None ->
      exists s3 client3 p3, handle_challenge_response (shard_handlers wall) from data now2 s2 = Some s3 /\ shard_ok s3 /\
        avatar_of client3 (pl_player_id player) (hp_token plan) (ed_position d) (ed_velocity d) (pl_last_input_sequence player) (hp_target_region plan)
          (sv_app s3) p3 /\
        forall input, pl_last_input_sequence player <> 0 -> mi_sequence input <= pl_last_input_sequence player ->
          ps_pending <$> w_players (queue_input client3 input (sh_world (sv_app s3))) !! client3 = Some [].
Proof.
  intros a prefix config Hp Hd Hfind Hconn Hreg Httl Hpttl Hq Hk Hplan Hok Hsize Hev Hbytes.
  destruct (redirect_bytes _ _ Hev Hbytes) as (Hlen & (rest & Er) & _). split; [|split].
  { destruct (migrate_planned wall client player d connection co plan bytes s Hp Hd Hfind Hconn Hreg Hplan Hbytes) as (s' & E0 & E1 & E2 & E3); [by rewrite Er|].
    exists s', (mkReliableMessage (re_next_message_id (cn_reliability connection)) (channel_code kEvent) 0 bytes).
    split; [exact E0|]. split; [exact E1|]. split; [exact E2|]. split; [done|]. split; [done|]. rewrite E3. unfold queue_reliable.
    rewrite (proj2 (Z.eqb_neq _ _)) by (rewrite Er; cbn; lia). by rewrite (proj2 (Z.ltb_ge _ _)) by lia. }
  { intros message g. by apply redirect_heard. }
  intros waiting endpoint now c g Hred Hid Hep c'.
  destruct (handoff_stored _ _ _ _ _ _ _ _ _ _ Hq Hk Httl Hpttl Hplan) as (Hblob & _ & _ & _ & Hk' & Hat).
  set (t := planned_ticket _ _ _ _ _ _ _ _) in *. pose proof Hok as (_ & Hne & _). cbn [t planned_ticket mt_player_id] in Hne.
  destruct (update_redirects random plan waiting endpoint now c Hev Hred) as (C1 & C2 & C3 & C4 & C5); [|done|].
  { fold g. rewrite Hid. split; [destruct (pl_player_id player); [done|unfold string_size; cbn [String.length]; lia]|done]. }
  fold g in C3, C4. rewrite Hid in C3. split; [by split_and!|].
  intros s2 from data now2 pending Han Hs2 Hroom Htoken (Hfp & Hfq & Hfr) Hans Hself Howns Hcap Hredeemed.
  pose proof (accept_stored prefix (sh_coordinator (sv_app s2)) t Hfp Hfq) as Hacc. rewrite Hfr in Hacc. rewrite Hfr in Hans.
  specialize (Hacc Hk' Hans Hok Hblob Hat). change (mt_token t) with (hp_token plan) in Hacc. change (mt_to_shard t) with (hp_target_shard plan) in Hacc.
  rewrite Hself, String.eqb_refl in Hacc. destruct (accept_handoff (sh_coordinator (sv_app s2)) (hp_token plan)) as [co2 out] eqn:Ea.
  destruct Hacc as (-> & _ & _). fold c' in C3. rewrite <- Htoken in C3.
  destruct (ticket_arrives wall from data now2 pending _ co2 t s2 Han Hs2 Hroom Hcap C3 eq_refl Hredeemed Ea eq_refl) as (s3 & client3 & p3 & region & E & Hs3 & Hav & Hr).
  exists s3, client3, p3. split; [exact E|]. split; [exact Hs3|]. specialize (Hr Howns). change (mt_region t) with (hp_target_region plan) in Hr. rewrite <- Hr.
  split; [exact Hav|]. intros input Hne0 Hle. by apply (new_slot_stale (pl_entity p3) client3 (pl_last_input_sequence player) input _ (av_slot _ _ _ _ _ _ _ _ _ Hav)).
Qed.

(** ** Witnesses *)
(** The player [p1] joins from one address, and a request for the same session comes
    from another. *)
Definition again_address : Address := mkAddress 1 4.
Definition again_slice : list Datagram :=
  [(mkAddress 1 3, request_packet 77 sample_credential); (mkAddress 1 3, response_packet (Z.lxor 77 1000)); (again_address, request_packet 99 sample_credential)].
Definition sample_again : option (ConnectionServer (ShardState MiniRedis Z)) :=
  s ← sample_start; @drain_until plain_platform MiniRedis _ Z (fun _ => 5000) sample_salts [(0, again_slice)] 40000 s.
Definition again_pending : PendingHandshake := mkPendingHandshake 99 1001 sample_credential 0.
Definition again_data : list Z := body_of (response_packet (Z.lxor 99 1001)).
Definition again_player (s : ConnectionServer (ShardState MiniRedis Z)) : option (WorldPlayer * EntityData) :=
  p ← sh_players (sv_app s) !! 1; d ← entity_data (w_entities (sh_world (sv_app s))) (pl_entity p); Some (p, d).

Lemma sample_start_ok : match sample_start with
  | Some s => shard_ok s /\ counters s = (1, 3)
  | None => False
  end.
Proof.
  destruct sample_start as [s|] eqn:E; [|vm_compute in E; discriminate].
  apply (@start_ok plain_float_text MiniRedis _ Z sample_shard_config (mkAddress 0 7000) "10.0.0.1:7000" "10.0.0.1:8000" (mkMiniRedis ∅ []) 41
    true false true 1000 1000 s); [vm_compute; reflexivity|discriminate|discriminate|vm_compute; discriminate|vm_compute; discriminate|vm_compute; reflexivity|exact E].
Qed.

Lemma again_bytes : bytes_ok again_slice.
Proof. apply bytes_check_ok. vm_compute. reflexivity. Qed.

Lemma sample_again_ok : match sample_again with
  | Some s => shard_ok s /\ room 1 s
  | None => False
  end.
Proof.
  unfold sample_again. pose proof sample_start_ok as Hs. destruct sample_start as [s|]; [|done]. destruct Hs as [Hs Ec]. cbn [mbind option_bind].
  destruct (@drain_until_ok plain_platform MiniRedis _ Z (fun _ => 5000) sample_salts 40000 [(0, again_slice)]) with (n := 1) (s := s) as (s1 & -> & Hs1 & Hr);
    [by apply Forall_cons_2; [exact again_bytes|apply Forall_nil_2]|lia|done|unfold room; rewrite Ec; by split; vm_compute|by split].
Qed.

Lemma again_packet : Forall (fits 8) again_data /\ Z.of_nat (length again_data) <= kMaxDatagramSize.
Proof.
  split; [apply (bytes_check_data again_address); vm_compute; reflexivity|vm_compute; discriminate].
Qed.

Lemma again_facts : match sample_again with
  | Some s => sv_connections s !! again_address = None /\ sv_pending s !! again_address = Some again_pending /\
        sh_by_player_id (sv_app s) !! "p1"%string = Some 1 /\ sf_reconnect_grace_ms (sh_config (sv_app s)) = 20000 /\
        de_admit (fst (@admit_player MiniRedis _ Z (fun _ => 5000) again_address (ph_token again_pending) (sv_app s))) = true /\
        match again_player s with
        | Some (p, _) => pl_player_id p = "p1"%string /\ pl_redirecting p = false /\ pl_session_token p = 5
      | None => False
        end
  | None => False end.
Proof. vm_compute. by split_and!. Qed.

Lemma reconnect_resumes_witness : match sample_again with
  | Some s => match again_player s with
    | Some (p, d) => pl_player_id p = "p1"%string /\ exists s' client p',
        @handle_challenge_response _ (@shard_handlers plain_platform MiniRedis _ Z (fun _ => 5000)) again_address again_data 40000 s = Some s' /\
        shard_ok s' /\ client <> 1 /\ sh_players (sv_app s') !! 1 = None /\
        avatar_of client "p1" 5 (ed_position d) (ed_velocity d) (ed_last_input_sequence d) (pl_region p) (sv_app s') p'
    | None => False
    end
  | None => False
  end.
Proof.
  pose proof sample_again_ok as Hs. destruct sample_again as [s|] eqn:Es; [|done]. destruct Hs as [Hs Hroom].
  pose proof again_facts as Hfacts.
  rewrite Es in Hfacts. destruct Hfacts as (F1 & F2 & F3 & F4 & F5 & F6). unfold again_player in *.
  destruct (sh_players (sv_app s) !! 1) as [p|] eqn:Ep; [|done]. cbn [mbind option_bind] in *.
  destruct (entity_data (w_entities (sh_world (sv_app s))) (pl_entity p)) as [d|] eqn:Ed; [|done]. cbn [mbind option_bind] in *.
  destruct F6 as (G1 & G2 & G3). split; [exact G1|].
  apply (@reconnect_resumes plain_platform flat_math plain_float_text MiniRedis _ Z small_rng (fun _ => 5000) again_address again_data 40000 1 again_pending
    (mkConnectCredential kSession 5 "p1") p d s).
  - split; [exact F1|exact F2|vm_compute; reflexivity|apply again_packet|apply again_packet].
  - exact Hs.
  - exact Hroom.
  - vm_compute. reflexivity.
  - reflexivity.
  - exact F3.
  - exact Ep.
  - exact G2.
  - exact G3.
  - exact Ed.
  - rewrite F4. vm_compute. reflexivity.
  - exact F5.
Defined.

(** Player [p1] of shard [a], a little beyond the border of shard [b]. *)
Definition border_player : WorldPlayer := mkWorldPlayer 1 "p1" 1 0 77 7 0 0 false false ReplicationState_blank.
Definition border_data : EntityData := mkEntityData sample_position sample_velocity 0 1 7 1834104592.
Definition border_world : World := snd (enter 1 sample_position sample_velocity 7 World_new).
Definition border_app : ShardState MiniRedis Z :=
  mkShardState sample_shard_config border_world sample_sender WebSocketServer_new {[1 := border_player]} {["p1"%string := 1]} ∅ ∅ ∅ ∅
    WorldServerStats_zero 2 0 0 Histogram_new 0.
Definition border_connection : Connection := mkConnection 1 (mkAddress 1 3) 5 sample_credential 1 0 0 0 false ReliableEndpoint_new.
Definition border_shard : ConnectionServer (ShardState MiniRedis Z) :=
  set_by_client {[1 := mkAddress 1 3]} (set_connections {[mkAddress 1 3 := border_connection]} (server_new border_app)).

(** What it plans, and the event it sends. *)
Definition border_handoff : option (ShardCoordinator MiniRedis Z * option HandoffPlan) :=
  @handoff_of plain_platform MiniRedis _ Z counter_rng (fun _ => 9) border_player border_data border_app.
Definition border_planned : ShardCoordinator MiniRedis Z := default sample_sender (fst <$> border_handoff).
Definition border_bytes : list Z := default [] (finish (encode_migrate_redirect (redirect_event sample_plan) event_buffer)).

(** The datagrams the source's next flush sends to the client. *)
Definition border_waiting : list Datagram :=
  match @migrate_player plain_platform MiniRedis _ Z counter_rng (fun _ => 9) border_shard 1 with
  | Some s => (fun sent => (mkAddress 0 7000, snd sent)) <$> sv_sent (Connection.flush 200000 s)
  | None => []
  end.

(** The client, which hears it, and the shard [b] it then dials. *)
Definition border_client : ClientConnection GameState :=
  mkClient (mkClientConfig (mkAddress 0 7000) [] 5000000 100000 100000) kConnected 2 2 7 0 0 0 1 1 ReliableEndpoint_new 0 [] sample_game.
Definition border_token : list Z := default [] (encode_credential (mkConnectCredential kMigration 41 "p1")).
Definition border_slice : list Datagram := [(again_address, request_packet 99 border_token)].
Definition border_start : option (ConnectionServer (ShardState MiniRedis Z)) :=
  s ← sample_start; Some (set_app (set_coordinator (sample_coordinator "b" sample_members (co_registry border_planned)) (sv_app s)) s).
Definition border_target : option (ConnectionServer (ShardState MiniRedis Z)) :=
  s ← border_start; @drain_until plain_platform MiniRedis _ Z (fun _ => 9) sample_salts [(0, border_slice)] 40000 s.
Definition border_pending : PendingHandshake := mkPendingHandshake 99 1000 border_token 0.
Definition border_data_packet : list Z := body_of (response_packet (Z.lxor 99 1000)).

Lemma border_bytes_ok : bytes_ok border_slice.
Proof. apply bytes_check_ok. vm_compute. reflexivity. Qed.

Lemma border_target_ok : match border_target with
  | Some s => shard_ok s /\ room 1 s
  | None => False
  end.
Proof.
  unfold border_target, border_start. pose proof sample_start_ok as Hs. destruct sample_start as [s|]; [|done]. destruct Hs as [Hs Ec]. cbn [mbind option_bind].
  match goal with |- context [set_app ?a s] => set (s1 := set_app a s) end.
  destruct (set_app_steady (sv_app s1) s) as [Hs1 Ec1]; [intros []; split; [split; try done; discriminate|done]|done|]. change (set_app (sv_app s1) s) with s1 in Hs1, Ec1.
  destruct (@drain_until_ok plain_platform MiniRedis _ Z (fun _ => 9) sample_salts 40000 [(0, border_slice)]) with (n := 1) (s := s1) as (s2 & -> & Hs2 & Hr);
    [by apply Forall_cons_2; [exact border_bytes_ok|apply Forall_nil_2]|lia|done|unfold room; rewrite Ec1, Ec; by split; vm_compute|by split].
Qed.

Lemma border_ticket : ticket_ok (planned_ticket sample_sender sample_plan "p1" sample_position sample_velocity 0 7 9).
Proof. repeat split; try (vm_compute; discriminate); try reflexivity; vm_compute; lia. Qed.

Lemma border_event : migrate_redirect_ok (redirect_event sample_plan).
Proof. repeat split; try (vm_compute; discriminate); try reflexivity; vm_compute; lia. Qed.

Lemma border_packet : Forall (fits 8) border_data_packet /\ Z.of_nat (length border_data_packet) <= kMaxDatagramSize.
Proof.
  split; [apply (bytes_check_data again_address); vm_compute; reflexivity|vm_compute; discriminate].
Qed.

Lemma border_facts : match border_target with
  | Some s => sv_connections s !! again_address = None /\ sv_pending s !! again_address = Some border_pending /\
        follows "morton" (sh_coordinator (sv_app s)) border_planned /\
        head (snd (attempts (redis_ (co_registry (sh_coordinator (sv_app s)))))) = Some Completed /\
        sc_id (co_config (sh_coordinator (sv_app s))) = "b"%string /\ owns_region (sh_coordinator (sv_app s)) 1 = true /\
        sf_capacity (sh_config (sv_app s)) = 512 /\ size (sh_players (sv_app s)) = 0%nat /\ sh_redeemed_tickets (sv_app s) !! 41 = None
  | None => False end.
Proof. vm_compute. by split_and!. Qed.

Lemma border_heard : let g := cc_app (@client_update GameState GameClient.handle_payload handle_message border_waiting 210000 border_client) in
  gm_pending_redirect g = Some (redirect_event sample_plan) /\ gf_player_id (gm_config g) = "p1"%string.
Proof. vm_compute. by split. Qed.

Lemma migration_continues_witness : match border_target with
  | Some s2 => exists client3 s3 p3,
      @handle_challenge_response _ (@shard_handlers plain_platform MiniRedis _ Z (fun _ => 9)) again_address border_data_packet 40000 s2 = Some s3 /\
      avatar_of client3 "p1" 41 sample_position sample_velocity 7 1 (sv_app s3) p3 /\
      ccf_server (cc_config (@game_update plain_resolver sample_salts border_waiting 210000 border_client)) =
        mkAddress (10 * 2 ^ 24 + 2) 7000
  | None => False
  end.
Proof.
  pose proof border_target_ok as Hs2. destruct border_target as [s2|] eqn:E2; [|done]. destruct Hs2 as [Hs2 Hroom].
  pose proof border_facts as Hfacts. pose proof border_heard as [Hred Hid].
  rewrite E2 in Hfacts. destruct Hfacts as (F1 & F2 & F3 & F4 & F5 & F6 & F7 & F8 & F9).
  destruct (@migration_continues plain_platform flat_math plain_float_text MiniRedis _ _ Z counter_rng plain_resolver (fun _ => 9) sample_salts 1 border_player
    border_data border_connection border_planned sample_plan border_bytes border_shard) as (_ & _ & Hrest).
  - vm_compute. reflexivity.
  - vm_compute. reflexivity.
  - vm_compute. reflexivity.
  - vm_compute. reflexivity.
  - vm_compute. reflexivity.
  - split; reflexivity.
  - split; reflexivity.
  - vm_compute. reflexivity.
  - exact sample_keys.
  - vm_compute. reflexivity.
  - exact border_ticket.
  - vm_compute. discriminate.
  - exact border_event.
  - vm_compute. reflexivity.
  - destruct (Hrest border_waiting (mkAddress (10 * 2 ^ 24 + 2) 7000) 210000 border_client Hred Hid) as [(_ & Hserver & _) Hdst];
      [vm_compute; reflexivity|].
    destruct (Hdst s2 again_address border_data_packet 40000 border_pending) as (s3 & client3 & p3 & E3 & _ & Hav & _).
    + split; [exact F1|exact F2|vm_compute; reflexivity|apply border_packet|apply border_packet].
    + exact Hs2.
    + exact Hroom.
    + vm_compute. reflexivity.
    + exact F3.
    + exact F4.
    + exact F5.
    + exact F6.
    + rewrite F7, F8. vm_compute. reflexivity.
    + exact F9.
    + exists client3, s3, p3. split; [exact E3|]. split; [exact Hav|exact Hserver].
Defined.
