(* ===== verification/Programs.v ===== *)
(** * Programs: the services' [main] functions ([src/apps])

    How the programs read their options and environment, what they build from them, in
    which order they start and stop, and the code they exit with: the world server, the
    matchmaker and the load generator.  The environment is an argument: the command line,
    the variables, the resolver, what the sockets and Redis answer, the clock's readings
    and the datagrams that arrive. *)

From S2P Require Import Prelude F32 Bitstream Quantizer Movement Messages Grid EntityStore World Snapshot SequenceBuffer Reliability Connection ClientView Region.
From S2P Require Import Text Redis Store Presence Migration Shard Http Listener Matchmaker WebSocket Metrics WorldServer Endpoint ViewerPage UdpSocket GameClient LoadTest ShardRun.
From Stdlib Require Import ZArith Lia Bool Ascii String.
From stdpp Require Import base tactics numbers list option gmap sets fin_maps strings.
#[local] Open Scope Z_scope.

(** ** Options *)
(** [argv] without the program's name, and [getenv]. *)
Record Invocation := mkInvocation { iv_args : list string; iv_env : string -> option string }.

(** The argument after the first [name] that has one. *)
Fixpoint argument_after (name : string) (args : list string) : option string :=
  match args with
  | arg :: rest =>
      match rest with
      | value :: _ => if (arg =? name)%string then Some value else argument_after name rest
      | [] => None
      end
  | [] => None
  end.

(** [getenv(name + 2)] is the option's name without its dashes. *)
Definition option_value (i : Invocation) (name fallback : string) : string :=
  match argument_after name (iv_args i) with
  | Some value => value
  | None => default fallback (iv_env i (str_drop 2 name))
  end.

Definition flag (i : Invocation) (name : string) : bool := existsb (fun arg => (arg =? name)%string) (iv_args i).

Definition number_option (i : Invocation) (name fallback : string) : Z := u32 (strtoull (option_value i name fallback)).

(** How a program ends: with a code, or in undefined behaviour. *)
Inductive Exit := Returns (code : Z) | Undefined.

(** [BuildInfo::summary]; [compiled_at] is the compiler's date and time. *)
Definition build_version : string := "0.1.0".
Definition build_summary (compiled_at : string) : string := "morton " +:+ build_version +:+ " (built " +:+ compiled_at +:+ ")".

(** ** The world server ([world/main.cpp]) *)
Section World.
Context `{Resolver}.

Record WorldOptions := mkWorldOptions {
  wo_config : WorldServerConfig;
  wo_udp : Address;
  wo_http : Address;
  wo_redis : Address;
  wo_ws : option Address;
  wo_advertise_udp : string;
  wo_advertise_http : string
}.

Definition world_params (i : Invocation) : WorldParams :=
  let d := WorldParams_default in
  mkWorldParams (wp_size d) (wp_acceleration d) (wp_max_speed d) (wp_friction d) (wp_player_radius d) (number_option i "--MORTON_TICK_RATE" "30").

Definition world_config (i : Invocation) (viewer_hz : Z) : WorldServerConfig :=
  let d := WorldServerConfig_default in
  mkWorldServerConfig (option_value i "--MORTON_SHARD_ID" "world-a") viewer_hz (option_value i "--MORTON_PREFIX" "morton") (world_params i) (sf_interest d)
    (mkRegionMap (wp_size (world_params i)) (number_option i "--MORTON_REGIONS_PER_AXIS" "2") (rm_margin (sf_regions d)))
    (number_option i "--MORTON_CAPACITY" "512") (number_option i "--MORTON_DRIFTERS" "200")
    (sf_max_connections d) (sf_reconnect_grace_ms d) (sf_redirect_grace_ticks d) (sf_connection_timeout_us d)
    (negb (option_value i "--MORTON_ADVERTISE" "1" =? "0")%string).

(** [None]: an address that does not parse. *)
Definition world_options (i : Invocation) : option WorldOptions :=
  let ws := option_value i "--MORTON_WS" "" in
  '(ws, viewer_hz) ← (if (ws =? "")%string then Some (None, 0) else
                      a ← parse_address ws; Some (Some a, number_option i "--MORTON_VIEWER_HZ" "10"));
  udp ← parse_address (option_value i "--MORTON_UDP" "0.0.0.0:40000");
  http ← parse_address (option_value i "--MORTON_HTTP" "0.0.0.0:40080");
  redis ← parse_address (option_value i "--MORTON_REDIS" "127.0.0.1:6379");
  Some (mkWorldOptions (world_config i viewer_hz) udp http redis ws (option_value i "--MORTON_ADVERTISE_UDP" "") (option_value i "--MORTON_ADVERTISE_HTTP" "")).

(** The endpoint others are told: the configured one, else the bound one. *)
Definition advertised (configured : string) (local : Address) : string := if (configured =? "")%string then address_text local else configured.

(** What the system answers while the server starts and stops: the transport's socket, the
    viewer's, the listener's, the registry, the clocks. *)
Record WorldSystem := mkWorldSystem {
  wx_udp : OpenCalls;
  wx_ws_bound : bool;
  wx_http : ListenCalls;
  wx_connected : bool;
  wx_now_ms : Z;
  wx_beat : Z;
  wx_next_us : Z;
  wx_connected_at_stop : bool
}.
End World.

Section WorldMain.
Context `{Resolver} `{Platform} `{MathLib} `{FloatText} `{Redis R} `{Rng G}.
Context (wall : nat -> Z) (random : nat -> Z) (nth_element : nat -> list Candidate -> list Candidate) (visit : Visiting) (sendmmsg : nat -> nat -> Z).
#[local] Abbreviation Server := (ConnectionServer (ShardState R G)).

(** [server.start(config)]. *)
Definition launch_world (o : WorldOptions) (x : WorldSystem) (server : R) (rng : G) : option Server :=
  let '(udp_open, socket) := socket_open sendmmsg (wo_udp o) (wx_udp x) UdpSocket_new in
  let '(_, http_local) := open_listener (wo_http o) (wx_http x) (mkAddress 0 0) in
  start_world_server (wo_config o) (wo_udp o) (advertised (wo_advertise_udp o) (us_local socket)) (advertised (wo_advertise_http o) http_local)
    server rng udp_open (wx_ws_bound x) (wx_connected x) (wx_now_ms x) (wx_beat x).

(** The routes [start] registers; the page is served when the viewer's bridge is up, which
    listens on [ws_local]. *)
Definition world_routes (metrics_page : string) (o : WorldOptions) (x : WorldSystem) (ws_local : Address) : HttpServer Server :=
  shard_routes metrics_page
    (if (0 <? sf_viewer_hz (wo_config o)) && wx_ws_bound x then Some (viewer_page (address_text ws_local)) else None).

(** The program; a run ends after the iterations [its] because a signal asks for it.  The
    world's configuration is checked first: a check that fails aborts; and [run] divides by
    the tick rate before its loop. *)
Definition world_main (i : Invocation) (x : WorldSystem) (server : R) (rng : G) (its : list Iteration) : Exit * option Server :=
  match world_options i with
  | None => (Returns 1, None)
  | Some o =>
      match World.configure (sf_params (wo_config o)) 64 World_new with
      | None => (Undefined, None)
      | Some _ =>
          match launch_world o x server rng with
          | None => (Returns 1, None)
          | Some s =>
              if wp_tick_rate (sf_params (wo_config o)) =? 0 then (Undefined, None) else
              match run_shard wall random nth_element visit its s (wx_next_us x) with
              | None => (Undefined, None)
              | Some (s, _) => (Returns 0, Some (stop_world_server (wx_connected_at_stop x) s))
              end
          end
      end
  end.
End WorldMain.

(** ** The matchmaker ([matchmaker/main.cpp]) *)
Section Matchmaker.
Context `{Resolver} `{Redis R}.

Record MatchmakerOptions := mkMatchmakerOptions { mo_config : MatchmakerConfig; mo_http : Address; mo_redis : Address }.

Definition matchmaker_config (i : Invocation) : MatchmakerConfig :=
  let d := MatchmakerConfig_default in
  mkMatchmakerConfig (option_value i "--MORTON_PREFIX" "morton") (number_option i "--MORTON_SESSION_TTL_MS" "15000")
    (mkRegionMap (rm_world_size (mc_regions d)) (number_option i "--MORTON_REGIONS_PER_AXIS" "2") (rm_margin (mc_regions d))).

Definition matchmaker_options (i : Invocation) : option MatchmakerOptions :=
  http ← parse_address (option_value i "--MORTON_HTTP" "0.0.0.0:8080");
  redis ← parse_address (option_value i "--MORTON_REDIS" "127.0.0.1:6379");
  Some (mkMatchmakerOptions (matchmaker_config i) http redis).

(** The clients the listener's thread serves until a signal ends the program, each with
    the clock's reading at that time and whether the registry is connected; [expose] is the
    metrics page.  The answers, in order. *)
Definition serve_sessions `{MathLib} `{FloatText} `{Rng G} (expose : Matchmaker R G -> string) (connected : Matchmaker R G -> bool)
    (visits : list (Z * Visitor)) (m : Matchmaker R G) : Matchmaker R G * list (option string) :=
  foldl (fun '(m, replies) visit =>
           let '(_, m, reply) := handle_client (matchmaker_routes (print_fixed 3) expose connected (fst visit)) (ct_chunks (snd visit)) (ct_writes (snd visit)) m in
           (m, replies ++ [reply])) (m, []) visits.

Definition matchmaker_main `{MathLib} `{FloatText} `{Rng G} (expose : Matchmaker R G -> string) (connected : Matchmaker R G -> bool)
    (i : Invocation) (server : R) (reached : bool) (calls : ListenCalls) (rng : G) (visits : list (Z * Visitor)) : Exit * option (Matchmaker R G * list (option string)) :=
  match matchmaker_options i with
  | None => (Returns 1, None)
  | Some o =>
      match start_matchmaker (mo_config o) server reached (fst (open_listener (mo_http o) calls (mkAddress 0 0))) rng with
      | None => (Returns 1, None)
      | Some m => (Returns 0, Some (serve_sessions expose connected visits m))
      end
  end.
End Matchmaker.

(** ** The load generator ([loadtest/main.cpp]) *)
Section Load.
Context `{Platform} `{Resolver} `{MathLib}.
Context (random : nat -> Z) (std_atan2 : f32 -> f32 -> f32).

(** [None]: an address that does not parse; an empty shard address is not parsed. *)
Definition load_config (i : Invocation) : option LoadTestConfig :=
  let direct := option_value i "--MORTON_SHARD" "" in
  let p := WorldParams_default in
  shard ← (if (direct =? "")%string then Some (mkAddress 0 0) else parse_address direct);
  matchmaker ← parse_address (option_value i "--MORTON_MATCHMAKER" "127.0.0.1:8080");
  Some (mkLoadTestConfig matchmaker shard (option_value i "--MORTON_PREFIX" "bot") (number_option i "--MORTON_CLIENTS" "500")
    (number_option i "--MORTON_THREADS" "4") (number_option i "--MORTON_RAMP" "200") (number_option i "--MORTON_DURATION" "20")
    (number_option i "--MORTON_REPORT_MS" "5000") 0x9e3779b9 5000000 (number_option i "--MORTON_REJOIN_SECONDS" "2")
    (mkWorldParams (wp_size p) (wp_acceleration p) (wp_max_speed p) (wp_friction p) (wp_player_radius p) (number_option i "--MORTON_TICK_RATE" "30"))).

(** A bot as [run] makes it. *)
Definition new_game : GameState :=
  mkGameState (mkGameClientConfig EmptyString (mkAddress 0 0) (mkAddress 0 0) 0 WorldParams_default ClientViewConfig_default 5000000) blank_view EmptyString
    (mkAddress 0 0) 0 0 0 None [] 0 0 GameClientStats_zero.
Definition new_bot (join_at_us : Z) : Bot :=
  mkBot (Connection.mkClient (mkClientConfig (mkAddress 0 0) (replicate 256 0) 5000000 kDefaultRetryUs kDefaultKeepaliveUs) kDisconnected 0 0 0 0 0 0 0 0
           ReliableEndpoint_new 0 [] new_game) join_at_us false false f0 f0 0 0.

Definition new_bots (config : LoadTestConfig) (started_at : Z) : list Bot :=
  (fun i => new_bot (join_time config started_at (Z.of_nat i))) <$> seq 0 (Z.to_nat (lc_clients config)).

(** [run]'s workers, one after the other: a worker touches its own bots only, and the
    samples and counts of the workers add up in any order.  A worker begins at a
    reading of the clock and lives through its rounds. *)
Definition run_slice (config : LoadTestConfig) (started_at : Z) (st : list Bot * LoadHistograms * TurnCounts) (work : Z * Z * (Z * list (Z * Z * list BotTurn))) :
    list Bot * LoadHistograms * TurnCounts :=
  let '(bots, h, counts) := st in
  let '(first, count, (began, rounds)) := work in
  let mine := take (Z.to_nat count) (drop (Z.to_nat first) bots) in
  let r := run_worker random std_atan2 config first started_at (deadline config started_at) rounds
             (mkWorkerRun mine h counts (u64 (began + lc_report_interval_ms config * 1000)) []) in
  (take (Z.to_nat first) bots ++ wr_bots r ++ drop (Z.to_nat (first + count)) bots, wr_histograms r, wr_counts r).

Definition no_samples : LoadHistograms := mkLoadHistograms Histogram_new Histogram_new Histogram_new Histogram_new Histogram_new.

(** [peak]: the highest total the workers counted (see [LoadTest.fleet_step]). *)
Definition run_load (config : LoadTestConfig) (started_at finished_at peak : Z) (lives : list (Z * list (Z * Z * list BotTurn))) : option LoadTestReport :=
  config ← normalize config;
  let work := zip_with (fun slice life => (slice, life)) (worker_slices config) lives in
  let '(bots, h, counts) := foldl (run_slice config started_at) (new_bots config started_at, no_samples, no_counts) work in
  Some (report config bots h peak (tc_failed counts) (tc_rejoins counts) started_at finished_at).

(** The program: its exit code and what it prints. *)
Definition load_main `{FloatText} (i : Invocation) (started_at finished_at peak : Z) (lives : list (Z * list (Z * Z * list BotTurn))) : Exit * string :=
  match load_config i with
  | None => (Returns 1, EmptyString)
  | Some config =>
      match run_load config started_at finished_at peak lives with
      | None => (Returns 1, EmptyString)
      | Some r =>
          match (if flag i "--json" then text ← report_json r; Some (text +:+ newline) else text ← report_text r; Some (newline +:+ text)) with
          | None => (Undefined, EmptyString)
          | Some text => (Returns (if lr_clients_connected r =? 0 then 1 else 0), text)
          end
      end
  end.
End Load.

(** ** Lemmas *)
Lemma number_option_range i name fallback : 0 <= number_option i name fallback < 2 ^ 32.
Proof. apply (wrap_range 32). lia. Qed.

Lemma world_params_ok i : params_ok (world_params i).
Proof. vm_compute. reflexivity. Qed.

(** The checks of the world's configuration do not depend on the options. *)
Lemma world_configures i : is_Some (World.configure (world_params i) 64 World_new).
Proof. unfold World.configure, world_params. generalize (number_option i "--MORTON_TICK_RATE" "30"). intros rate. vm_compute. by eexists. Qed.

Section Options.
Context `{Resolver}.

Lemma world_options_config i o : world_options i = Some o -> exists viewer_hz, wo_config o = world_config i viewer_hz.
Proof.
  unfold world_options. intros ([ws viewer_hz] & _ & E)%bind_Some. do 3 apply bind_Some in E as (? & _ & E). injection E as <-. by exists viewer_hz.
Qed.
End Options.

(** What [stop] sends: a farewell to every client. *)
Definition farewells {App} (s : ConnectionServer App) : list Datagram :=
  (fun e => (e.1, disconnect_packet 64 (cn_salt e.2))) <$> map_to_list (sv_connections s).

Lemma stop_sends {App} (s : ConnectionServer App) : sv_sent (Connection.stop s) = sv_sent s ++ farewells s /\
  sv_connections (Connection.stop s) = ∅ /\ sv_by_client (Connection.stop s) = ∅ /\ sv_app (Connection.stop s) = sv_app s.
Proof.
  unfold Connection.stop, farewells, addresses. cbn [sv_sent sv_connections sv_by_client sv_app set_pending set_by_client set_connections].
  assert (Hl : forall e, e ∈ map_to_list (sv_connections s) -> sv_connections s !! e.1 = Some e.2) by (intros [a c]; by rewrite elem_of_map_to_list).
  revert Hl. generalize (map_to_list (sv_connections s)). intros l. revert s.
  induction l as [|[a c] l IH]; intros s Hl; cbn [fmap list_fmap foldl]; [by rewrite app_nil_r|].
  pose proof (Hl (a, c) ltac:(left)) as Ha. cbn [fst snd] in *. rewrite Ha.
  destruct (IH (send_to a (disconnect_packet 64 (cn_salt c)) s)) as (E1 & E2 & E3 & E4); [intros e He; apply Hl; by right|].
  cbn [fst snd]. split_and!; [|done..]. etransitivity; [exact E1|]. cbn [send_to sv_sent]. by rewrite <- app_assoc.
Qed.

(** ** The property *)
Section Exits.
Context `{Resolver} `{Platform} `{MathLib} `{FloatText} `{Redis R} `{Rng G}.
Context (wall : nat -> Z) (random : nat -> Z) (nth_element : nat -> list Candidate -> list Candidate) (visit : Visiting) (sendmmsg : nat -> nat -> Z).

(** What a run leaves behind: the state at the end of the loop was well formed, every
    client has been told, no connection is left and the viewer's bridge is down. *)
Definition stopped_after (s0 : ConnectionServer (ShardState R G)) (its : list Iteration) (next : Z) (s : ConnectionServer (ShardState R G)) : Prop :=
  exists s1 next1, run_shard wall random nth_element visit its s0 next = Some (s1, next1) /\ shard_ok s1 /\
    sv_sent s = sv_sent s1 ++ farewells s1 /\ sv_connections s = ∅ /\ sv_by_client s = ∅ /\
    sh_world (sv_app s) = sh_world (sv_app s1) /\ vs_running (sh_viewer (sv_app s)) = false.

Lemma stop_leaves connected (s1 : ConnectionServer (ShardState R G)) : let s := stop_world_server connected s1 in
  sv_sent s = sv_sent s1 ++ farewells s1 /\ sv_connections s = ∅ /\ sv_by_client s = ∅ /\
  sh_world (sv_app s) = sh_world (sv_app s1) /\ vs_running (sh_viewer (sv_app s)) = false.
Proof.
  intros s. subst s. unfold stop_world_server.
  match goal with |- context [Connection.stop ?t] => destruct (stop_sends t) as (E1 & E2 & E3 & E4) end.
  assert (Hv : forall v, vs_running (viewer_stop v) = false) by (intros v; unfold viewer_stop; by destruct (vs_running v) eqn:Ev).
  destruct (sf_advertise _); cbn [sv_sent sv_connections sv_by_client sv_app set_app]; cbn [sh_world sh_viewer set_coordinator]; rewrite ?E1, ?E2, ?E3, ?E4; split_and!; first [reflexivity|apply Hv].
Qed.

End Exits.


(** ** Witness: a shard of its own, noise and a client that joins, then a signal *)
Definition sample_invocation : Invocation :=
  mkInvocation ["--MORTON_ADVERTISE"; "0"; "--MORTON_DRIFTERS"; "2"; "--verbose"]%string (fun name => if (name =? "MORTON_SHARD_ID")%string then Some "a"%string else None).
Definition sample_system : WorldSystem :=
  mkWorldSystem (mkOpenCalls true true (Some (mkAddress 0 40000)) true) false (mkListenCalls true true true None) true 1000 1000 0 true.
Definition sample_iterations : list Iteration := [sample_iteration; sample_iteration].

Definition sample_launch (o : WorldOptions) : option (ConnectionServer (ShardState MiniRedis Z)) :=
  @launch_world plain_float_text MiniRedis _ Z (fun _ n => Z.of_nat n) o sample_system (mkMiniRedis ∅ []) 41.

Definition sample_main : Exit * option (ConnectionServer (ShardState MiniRedis Z)) :=
  @world_main plain_resolver plain_platform flat_math plain_float_text MiniRedis _ Z small_rng (fun _ => 5000) sample_salts (fun _ l => l) (fun _ _ l => l)
    (fun _ n => Z.of_nat n) sample_invocation sample_system (mkMiniRedis ∅ []) 41 sample_iterations.

Example sample_options_read : option_map (fun o => (sf_shard_id (wo_config o), sf_drifters (wo_config o), wo_redis o)) (@world_options plain_resolver sample_invocation) =
  Some ("a"%string, 2, mkAddress 2130706433 6379).
Proof. by vm_compute. Qed.

Lemma sample_bounds : number_option sample_invocation "--MORTON_REGIONS_PER_AXIS" "2" = 2 /\
  1 + number_option sample_invocation "--MORTON_DRIFTERS" "200" + run_size sample_iterations < 2 ^ 32.
Proof. by vm_compute. Qed.


(** The sample does start: two drifters, entities 1 and 2. *)
Example sample_launches : option_map (fun s => w_next_entity (sh_world (sv_app s))) (@world_options plain_resolver sample_invocation ≫= sample_launch) = Some 3.
Proof. by vm_compute. Qed.
