(* ===== verification/Benches.v ===== *)
(** * Benches: the two benchmark programs ([src/apps/sockbench], [src/apps/replbench])

    What they drive and how they measure it: datagrams through a pair of sockets, chunk by
    chunk, and a world whose every player gets a snapshot each tick.  The clock's readings,
    the kernel's answers and the random generator are arguments. *)

From S2P Require Import Prelude F32 Quantizer Movement Grid EntityStore World Snapshot Connection Text Redis Store Http Metrics WorldServer Endpoint UdpSocket LoadTest Programs.
From Stdlib Require Import ZArith Lia Bool Ascii String.
From stdpp Require Import base tactics numbers list option gmap sorting strings.
#[local] Open Scope Z_scope.

(** ** [sockbench/main.cpp] *)
(** This program reads its numbers from the command line only. *)
Definition sock_number (args : list string) (name : string) (fallback : Z) : Z :=
  match argument_after name args with Some value => u32 (strtoull value) | None => fallback end.

Definition chunk : Z := 64.

(** The sizes of the chunks [count] datagrams are offered in, from [offset] on; the
    offset is 32 bits wide.  [None]: the loop is still running after [fuel] chunks. *)
Fixpoint chunk_sizes (fuel : nat) (offset count : Z) : option (list Z) :=
  if offset <? count then
    match fuel with
    | O => None
    | S fuel =>
        let size := if count - offset <? chunk then count - offset else chunk in
        sizes ← chunk_sizes fuel (u32 (offset + chunk)) count; Some (size :: sizes)
    end
  else Some [].

Section Sockbench.
Context (sendto : nat -> Z) (sendmmsg : nat -> nat -> Z) (recvmmsg : nat -> Received).

(** The two sockets, how often [sendto] was called, and the number received. *)
Record Bench := mkBench { bn_from : UdpSocket; bn_to : UdpSocket; bn_sends : nat; bn_received : Z }.

Definition bench_send (to : Address) (data : list Z) (batched : bool) (b : Bench) : Bench :=
  if batched then mkBench (snd (send_batched sendmmsg to data (bn_from b))) (bn_to b) (bn_sends b) (bn_received b)
  else mkBench (snd (socket_send to data (sendto (bn_sends b)) (bn_from b))) (bn_to b) (S (bn_sends b)) (bn_received b).

(** Receiving until nothing is left; [None]: something is after [fuel] datagrams. *)
Fixpoint bench_drain (fuel : nat) (b : Bench) : option Bench :=
  match fuel with
  | O => None
  | S fuel =>
      let '(bytes, _, to) := socket_receive recvmmsg kMaxDatagramSize (bn_to b) in
      let b := mkBench (bn_from b) to (bn_sends b) (bn_received b) in
      if bytes <=? 0 then Some b else bench_drain fuel (mkBench (bn_from b) to (bn_sends b) (u32 (bn_received b + 1)))
  end.

(** One chunk. *)
Definition bench_chunk (fuel : nat) (to : Address) (data : list Z) (batched : bool) (b : Bench) (size : Z) : option Bench :=
  let b := Nat.iter (Z.to_nat size) (bench_send to data batched) b in
  let b := if batched then mkBench (flush_sends sendmmsg (bn_from b)) (bn_to b) (bn_sends b) (bn_received b) else b in
  bench_drain fuel b.

Fixpoint bench_chunks (fuel : nat) (to : Address) (data : list Z) (batched : bool) (sizes : list Z) (b : Bench) : option Bench :=
  match sizes with
  | [] => Some b
  | size :: sizes => b ← bench_chunk fuel to data batched b size; bench_chunks fuel to data batched sizes b
  end.

Record Measured := mkMeasured { ms_send_ns : f64; ms_receive_ns : f64; ms_received : Z }.

(** [times]: the readings of the clock before a chunk, when it has been sent, and when it
    has been received. *)
Definition measure (fuel : nat) (times : list (Z * Z * Z)) (to : Address) (count payload : Z) (batched : bool) (from_socket to_socket : UdpSocket) (sends : nat) :
    option (Measured * UdpSocket * UdpSocket * nat) :=
  sizes ← chunk_sizes fuel 0 count;
  b ← bench_chunks fuel to (replicate (Z.to_nat payload) 0xa5) batched sizes (mkBench from_socket to_socket sends 0);
  let times := take (length sizes) times in
  let send_us := foldl (fun n t => u64 (n + u64 (t.1.2 - t.1.1))) 0 times in
  let receive_us := foldl (fun n t => u64 (n + u64 (t.2 - t.1.2))) 0 times in
  let per n d := f64_div (f64_mul (f64_of_Z n) (f64_of_Z 1000)) (f64_of_Z d) in
  Some (mkMeasured (per send_us count) (per receive_us (if 0 <? bn_received b then bn_received b else 1)) (bn_received b), bn_from b, bn_to b, bn_sends b).

(** The results of the rounds but the first, which warms up. *)
Fixpoint bench_rounds (fuel : nat) (rounds : list (list (Z * Z * Z))) (first : bool) (to : Address) (count payload : Z) (batched : bool)
    (from_socket to_socket : UdpSocket) (sends : nat) : option (list Measured * UdpSocket * UdpSocket * nat) :=
  match rounds with
  | [] => Some ([], from_socket, to_socket, sends)
  | times :: rounds =>
      '(m, from_socket, to_socket, sends) ← measure fuel times to count payload batched from_socket to_socket sends;
      '(ms, from_socket, to_socket, sends) ← bench_rounds fuel rounds false to count payload batched from_socket to_socket sends;
      Some (if first then ms else m :: ms, from_socket, to_socket, sends)
  end.

(** The element in the middle; [None]: there is none, and the program reads past the end
    of an empty vector. *)
Definition median (samples : list f64) : option f64 := merge_sort (fun a b => Is_true (f64_leb a b)) samples !! (length samples / 2)%nat.

Fixpoint pad_left (n : nat) (s : string) : string := match n with O => s | S n => if (String.length s <=? n)%nat then String " " (pad_left n s) else s end.

Definition bench_line `{MathLib} (batched : bool) (count : Z) (ms : list Measured) : option string :=
  send ← median (ms_send_ns <$> ms);
  receive ← median (ms_receive_ns <$> ms);
  let delivered := foldl (fun n m => u64 (n + ms_received m)) 0 ms in
  let offered := foldl (fun n _ => u64 (n + count)) 0 ms in
  Some ((if batched then "batched  " else "single   ") +:+ " send " +:+ pad_left 6 (print_fixed 0 send) +:+ " ns/datagram  receive " +:+
    pad_left 6 (print_fixed 0 receive) +:+ " ns/datagram  delivered " +:+
    print_fixed 1 (f64_div (f64_mul (f64_of_Z 100) (f64_of_Z delivered)) (f64_of_Z offered)) +:+ "%" +:+ newline).

(** One way to send: the rounds, and the line that is printed. *)
Definition bench_way `{MathLib} (fuel : nat) (times : list (list (Z * Z * Z))) (to : Address) (count payload : Z) (batched : bool)
    (sender receiver : UdpSocket) (sends : nat) : option (option string * UdpSocket * UdpSocket * nat) :=
  '(ms, sender, receiver, sends) ← bench_rounds fuel times true to count payload batched sender receiver sends;
  Some (bench_line batched count ms, sender, receiver, sends).

(** The program; each way to send has a list of rounds.  [None]: a loop is still running
    after [fuel] turns. *)
Definition sockbench_main `{MathLib} (fuel : nat) (args : list string) (opens : OpenCalls * OpenCalls) (single_times batched_times : list (list (Z * Z * Z))) :
    option (Exit * string) :=
  let count := sock_number args "--count" 4096 in
  let payload := sock_number args "--payload" 512 in
  let rounds := Z.to_nat (sock_number args "--rounds" 20) in
  let loopback := mkAddress 0x7f000001 0 in
  let '(sender_open, sender) := socket_open sendmmsg loopback (fst opens) UdpSocket_new in
  if negb sender_open then Some (Returns 1, EmptyString) else
  let '(receiver_open, receiver) := socket_open sendmmsg loopback (snd opens) UdpSocket_new in
  if negb receiver_open then Some (Returns 1, EmptyString) else
  let to := us_local receiver in
  '(single, sender, receiver, sends) ← bench_way fuel (take rounds single_times) to count payload false sender receiver O;
  match single with
  | None => Some (Undefined, EmptyString)
  | Some single =>
      '(batch, _, _, _) ← bench_way fuel (take rounds batched_times) to count payload true sender receiver sends;
      match batch with
      | None => Some (Undefined, single)
      | Some batch => Some (Returns 0, single +:+ batch)
      end
  end.
End Sockbench.

(** ** [replbench/main.cpp] *)
Section Replbench.
Context `{Platform} `{MathLib}.
(** The generator, seeded, and its two distributions, which the standard leaves open;
    [x_first]: which of the two coordinates of a position the compiler draws first. *)
Context {G : Type} (mt19937 : Z -> G) (place axis : G -> f32 * G) (x_first : bool).
Context (nth_element : nat -> list Candidate -> list Candidate).

Record BenchOptions := mkBenchOptions { bo_players : Z; bo_drifters : Z; bo_ticks : Z; bo_warmup : Z; bo_seed : Z; bo_cells : Z; bo_json : bool }.

Definition bench_options (i : Invocation) : BenchOptions :=
  mkBenchOptions (number_option i "--MORTON_PLAYERS" "350") (number_option i "--MORTON_DRIFTERS" "300") (number_option i "--MORTON_TICKS" "600")
    (number_option i "--MORTON_WARMUP" "60") (number_option i "--MORTON_SEED" "12345") (number_option i "--MORTON_CELLS" "64") (flag i "--json").

Record BenchViewer := mkBenchViewer { bv_client : Z; bv_entity : Z; bv_replication : ReplicationState; bv_pending_tick : Z; bv_has_pending : bool }.

Definition draw_position (rng : G) : Vec2 * G :=
  let '(a, rng) := place rng in
  let '(b, rng) := place rng in
  (if x_first then mkVec2 a b else mkVec2 b a, rng).

(** The viewers from the [i]-th on. *)
Fixpoint bench_viewers (n : nat) (i : Z) (w : World) (rng : G) : list BenchViewer * World * G :=
  match n with
  | O => ([], w, rng)
  | S n =>
      let '(position, rng) := draw_position rng in
      let '(entity, w) := spawn_player (u32 (i + 1)) position w in
      let replication := rs_configure InterestConfig_default WorldParams_default ReplicationState_blank in
      let '(viewers, w, rng) := bench_viewers n (i + 1) w rng in
      (mkBenchViewer (u32 (i + 1)) entity replication 0 false :: viewers, w, rng)
  end.

Fixpoint bench_drifters (n : nat) (w : World) (rng : G) : World * G :=
  match n with
  | O => (w, rng)
  | S n => let '(position, rng) := draw_position rng in bench_drifters n (snd (spawn_drifter position w)) rng
  end.

(** What is measured. *)
Record BenchTotals := mkBenchTotals {
  bt_replicate_ms : Histogram;
  bt_snapshot_bytes : Histogram;
  bt_entities_sent : Histogram;
  bt_relevant : Histogram;
  bt_total_bytes : Z;
  bt_snapshots : Z
}.
Definition BenchTotals_new : BenchTotals := mkBenchTotals Histogram_new Histogram_new Histogram_new Histogram_new 0 0.

(** One viewer's command. *)
Definition bench_input (tick : Z) (st : World * G) (v : BenchViewer) : World * G :=
  let '(w, rng) := st in
  let '(x, rng) := axis rng in
  let '(y, rng) := axis rng in
  let input := quantize_input (mkMoveInput (u32 (tick + 1)) tick x y (Z.land tick 7 =? 0)) in
  (queue_input (bv_client v) input w, rng).

(** One viewer's snapshot, into a buffer of 4096 bytes. *)
Definition bench_snapshot (tick : Z) (measured : bool) (w : World) (v : BenchViewer) (t : BenchTotals) : BenchViewer * BenchTotals :=
  let rs := if bv_has_pending v then acknowledge (bv_pending_tick v) (bv_replication v) else bv_replication v in
  match rs_encode nth_element w (bv_entity v) (u32 (tick + 1)) (packet_buffer 4096) 4096 rs with
  | (None, rs) => (mkBenchViewer (bv_client v) (bv_entity v) rs (bv_pending_tick v) (bv_has_pending v), t)
  | (Some bytes, rs) =>
      let v := mkBenchViewer (bv_client v) (bv_entity v) rs (w_tick w) true in
      if negb measured then (v, t) else
      let size := Z.of_nat (length bytes) in
      (v, mkBenchTotals (bt_replicate_ms t) (record (f64_of_Z size) (bt_snapshot_bytes t)) (record (f64_of_Z (rt_entities_sent (rs_stats rs))) (bt_entities_sent t))
            (record (f64_of_Z (rt_relevant_entities (rs_stats rs))) (bt_relevant t)) (u64 (bt_total_bytes t + size)) (u64 (bt_snapshots t + 1)))
  end.

Fixpoint bench_snapshots (tick : Z) (measured : bool) (w : World) (viewers : list BenchViewer) (t : BenchTotals) : list BenchViewer * BenchTotals :=
  match viewers with
  | [] => ([], t)
  | v :: viewers =>
      let '(v, t) := bench_snapshot tick measured w v t in
      let '(viewers, t) := bench_snapshots tick measured w viewers t in (v :: viewers, t)
  end.

Record BenchState := mkBenchState { bs_world : World; bs_rng : G; bs_viewers : list BenchViewer; bs_totals : BenchTotals }.

(** One tick; [elapsed_us] is what the clock says of the snapshots.  [None]: the world
    fails one of its checks. *)
Definition bench_tick (warmup tick elapsed_us : Z) (b : BenchState) : option BenchState :=
  let '(w, rng) := foldl (bench_input tick) (bs_world b, bs_rng b) (bs_viewers b) in
  w ← step ((map_to_list (w_players w)).*1) w;
  let measured := warmup <=? tick in
  let '(viewers, t) := bench_snapshots tick measured w (bs_viewers b) (bs_totals b) in
  let t := if measured then mkBenchTotals (record (f64_div (f64_of_Z elapsed_us) (f64_of_Z 1000)) (bt_replicate_ms t)) (bt_snapshot_bytes t) (bt_entities_sent t)
             (bt_relevant t) (bt_total_bytes t) (bt_snapshots t) else t in
  Some (mkBenchState w rng viewers t).

(** The loop, tick after tick. *)
Fixpoint bench_ticks (warmup tick : Z) (elapsed : list Z) (b : BenchState) : option BenchState :=
  match elapsed with
  | [] => Some b
  | us :: elapsed => b ← bench_tick warmup tick us b; bench_ticks warmup (u32 (tick + 1)) elapsed b
  end.

Definition bench_start (o : BenchOptions) : option BenchState :=
  w ← World.configure WorldParams_default (bo_cells o) World_new;
  let '(viewers, w, rng) := bench_viewers (Z.to_nat (bo_players o)) 0 w (mt19937 (bo_seed o)) in
  let '(w, rng) := bench_drifters (Z.to_nat (bo_drifters o)) w rng in
  Some (mkBenchState w rng viewers BenchTotals_new).

Definition per_viewer_us (t : BenchTotals) : f64 :=
  if bt_snapshots t =? 0 then f64_0 else f64_div (f64_mul (hg_sum (bt_replicate_ms t)) (f64_of_Z 1000)) (f64_of_Z (bt_snapshots t)).

Definition per_client_kbps (o : BenchOptions) (t : BenchTotals) : f64 :=
  f64_div (f64_div (f64_mul (f64_mul (f64_of_Z (bt_total_bytes t)) (f64_of_Z 8)) (f64_of_Z (wp_tick_rate WorldParams_default)))
    (f64_mul (f64_of_Z (bo_ticks o)) (f64_of_Z 1000))) (f64_of_Z (bo_players o)).

Definition bench_json (o : BenchOptions) (t : BenchTotals) : string :=
  let r := bt_replicate_ms t in
  json_fields [("players", to_string (bo_players o)); ("drifters", to_string (bo_drifters o)); ("ticks", to_string (bo_ticks o));
    ("replicate_mean_ms", print_fixed 4 (mean r)); ("replicate_p50_ms", print_fixed 4 (p50 r)); ("replicate_p99_ms", print_fixed 4 (p99 r));
    ("replicate_max_ms", print_fixed 4 (hg_max r)); ("per_viewer_us", print_fixed 3 (per_viewer_us t)); ("snapshot_mean_bytes", print_fixed 1 (mean (bt_snapshot_bytes t)));
    ("entities_sent_mean", print_fixed 1 (mean (bt_entities_sent t))); ("relevant_mean", print_fixed 1 (mean (bt_relevant t)));
    ("per_client_kbps", print_fixed 1 (per_client_kbps o t))] +:+ newline.

Definition bench_text (compiled_at : string) (o : BenchOptions) (t : BenchTotals) : string :=
  let r := bt_replicate_ms t in
  build_summary compiled_at +:+ newline +:+
  "players " +:+ to_string (bo_players o) +:+ "  drifters " +:+ to_string (bo_drifters o) +:+ "  measured ticks " +:+ to_string (bo_ticks o) +:+ newline +:+
  "replicate per tick   mean " +:+ print_fixed 3 (mean r) +:+ " ms  p50 " +:+ print_fixed 3 (p50 r) +:+ "  p99 " +:+ print_fixed 3 (p99 r) +:+
  "  max " +:+ print_fixed 3 (hg_max r) +:+ newline +:+
  "per viewer           " +:+ print_fixed 2 (per_viewer_us t) +:+ " us" +:+ newline +:+
  "snapshot             mean " +:+ print_fixed 1 (mean (bt_snapshot_bytes t)) +:+ " bytes  entities " +:+ print_fixed 1 (mean (bt_entities_sent t)) +:+
  "  per-client " +:+ print_fixed 1 (per_client_kbps o t) +:+ " kbit/s" +:+ newline.

(** The program; [elapsed] gives a measurement for every tick there is. *)
Definition replbench_main (i : Invocation) (compiled_at : string) (elapsed : nat -> Z) : Exit * string :=
  let o := bench_options i in
  let ticks := Z.to_nat (u32 (bo_warmup o + bo_ticks o)) in
  match (b ← bench_start o; bench_ticks (bo_warmup o) 0 (elapsed <$> seq 0 ticks) b) with
  | None => (Undefined, EmptyString)
  | Some b => (Returns 0, if bo_json o then bench_json o (bs_totals b) else bench_text compiled_at o (bs_totals b))
  end.
End Replbench.

(** ** Lemmas *)
(** The chunks cover the datagrams, [chunk] at a time, when the offset cannot wrap. *)
Lemma chunk_sizes_cover count : forall fuel offset, 0 <= offset -> count <= 2 ^ 32 - chunk -> offset <= count + chunk -> count - offset <= chunk * Z.of_nat fuel ->
  exists sizes, chunk_sizes fuel offset count = Some sizes /\ Forall (fun size => 0 < size <= chunk) sizes /\
    foldr Z.add 0 sizes = Z.max 0 (count - offset).
Proof.
  unfold chunk. induction fuel as [|fuel IH]; intros offset Ho Hc Hle Hf; cbn [chunk_sizes]; destruct (Z.ltb_spec offset count) as [Hlt|Hge];
    [lia| | |]; try (exists []; split_and!; [done|constructor|cbn; lia]).
  unfold chunk in *. rewrite wrap_small by (split; lia). destruct (IH (offset + 64)) as (sizes & -> & Hs & Hsum); [lia..|]. cbn [mbind option_bind].
  eexists. split; [done|]. destruct (Z.ltb_spec (count - offset) 64); (split; [constructor; [lia|done]|cbn [foldr]; lia]).
Qed.

(** Above that, the offset wraps to zero and the program never ends. *)
Lemma chunk_sizes_never count : 2 ^ 32 - chunk < count < 2 ^ 32 -> forall fuel k, 0 <= k -> chunk * k < 2 ^ 32 -> chunk_sizes fuel (chunk * k) count = None.
Proof.
  unfold chunk. intros Hc. induction fuel as [|fuel IH]; intros k Hk Hlt; cbn [chunk_sizes]; rewrite (proj2 (Z.ltb_lt _ _)) by lia; [done|].
  unfold chunk. replace (u32 (64 * k + 64)) with (64 * (if decide (64 * (k + 1) < 2 ^ 32) then k + 1 else 0)).
  - rewrite IH; [done|destruct (decide _); lia..].
  - destruct (decide _) as [Hd|Hd]; [rewrite wrap_small by (split; lia); lia|]. assert (Hk' : k = 2 ^ 26 - 1) by lia. rewrite Hk'. done.
Qed.

Section Completes.
Context `{Platform} `{MathLib} {G : Type} (mt19937 : Z -> G) (place axis : G -> f32 * G) (x_first : bool).
Context (nth_element : nat -> list Candidate -> list Candidate).
Context (axis_analog : forall rng, analog (fst (axis rng))).

Lemma bench_viewers_ok n : forall i w rng, world_ok w -> (forall c, i < c -> w_players w !! c = None) -> 0 <= i -> i + Z.of_nat n < 2 ^ 32 ->
  w_next_entity w + Z.of_nat n < 2 ^ 32 ->
  let '(_, w', _) := bench_viewers place x_first n i w rng in world_ok w' /\ w_next_entity w' = w_next_entity w + Z.of_nat n.
Proof.
  induction n as [|n IH]; intros i w rng Hw Hfree Hi Hn He; cbn [bench_viewers]; [split; [done|lia]|].
  destruct (draw_position place x_first rng) as [position rng']. rewrite (wrap_small 32) by (split; lia).
  destruct (spawn_player (i + 1) position w) as [entity w1] eqn:Es. pose proof (wo_next w Hw).
  assert (Hw1 : world_ok w1).
  { replace w1 with (snd (spawn_player (i + 1) position w)) by (by rewrite Es). apply spawn_player_ok; [done|lia|apply Hfree; lia|lia]. }
  assert (En : w_next_entity w1 = w_next_entity w + 1) by (unfold spawn_player in Es; injection Es as _ <-; cbn; apply wrap_small; split; lia).
  assert (Ep : forall c, i + 1 < c -> w_players w1 !! c = None).
  { intros c Hc. unfold spawn_player in Es. injection Es as _ <-. cbn. rewrite lookup_insert_ne by lia. apply Hfree. lia. }
  specialize (IH (i + 1) w1 rng' Hw1 Ep ltac:(lia) ltac:(lia) ltac:(lia)). destruct (bench_viewers place x_first n (i + 1) w1 rng') as [[vs w2] rng2].
  destruct IH as [IH1 IH2]. split; [done|lia].
Qed.

Lemma bench_drifters_ok n : forall w rng, world_ok w -> w_next_entity w + Z.of_nat n < 2 ^ 32 -> world_ok (fst (bench_drifters place x_first n w rng)).
Proof.
  induction n as [|n IH]; intros w rng Hw Hn; cbn [bench_drifters]; [done|]. destruct (draw_position place x_first rng) as [position rng'].
  pose proof (wo_next w Hw). apply IH; [apply spawn_drifter_ok; [done|lia]|]. cbn. rewrite wrap_small by (split; lia). lia.
Qed.

Lemma bench_inputs_ok tick viewers : forall w rng, world_ok w -> world_ok (fst (foldl (bench_input axis tick) (w, rng) viewers)).
Proof.
  induction viewers as [|v viewers IH]; intros w rng Hw; cbn [foldl]; [done|]. unfold bench_input at 2.
  pose proof (axis_analog rng) as Hx. destruct (axis rng) as [x rng1]. pose proof (axis_analog rng1) as Hy. destruct (axis rng1) as [y rng2].
  apply IH. apply queue_input_ok; [done|cbn; apply (wrap_range 32); lia|]. apply level_analog, quantize_input_level. by split.
Qed.

Lemma bench_tick_ok warmup tick elapsed b : world_ok (bs_world b) ->
  exists b', bench_tick axis nth_element warmup tick elapsed b = Some b' /\ world_ok (bs_world b').
Proof.
  intros Hw. unfold bench_tick. pose proof (bench_inputs_ok tick (bs_viewers b) (bs_world b) (bs_rng b) Hw) as Hi.
  destruct (foldl _ _ _) as [w rng]. cbn [fst] in Hi. destruct (step_spec ((map_to_list (w_players w)).*1) w Hi) as (w' & -> & Hev & _).
  cbn [mbind option_bind]. destruct (bench_snapshots _ _ _ _ _ _) as [viewers t]. eexists. split; [done|]. by apply (evolves_ok w).
Qed.

Lemma bench_ticks_ok warmup l : forall tick b, world_ok (bs_world b) -> exists b', bench_ticks axis nth_element warmup tick l b = Some b'.
Proof.
  induction l as [|us l IH]; intros tick b Hb; cbn [bench_ticks]; [by exists b|].
  destruct (bench_tick_ok warmup tick us b Hb) as (b1 & -> & Hb1). cbn [mbind option_bind]. by apply IH.
Qed.

(** The replication benchmark completes: with fewer than 2^32 entities and a grid that the
    world accepts, no tick fails a check, and the program ends with code 0. *)
Theorem replbench_completes (i : Invocation) (compiled_at : string) (elapsed : nat -> Z) :
  let o := bench_options i in
  1 + bo_players o + bo_drifters o < 2 ^ 32 -> is_Some (World.configure WorldParams_default (bo_cells o) World_new) ->
  exists text, replbench_main mt19937 place axis x_first nth_element i compiled_at elapsed = (Returns 0, text).
Proof.
  intros o Hn [w Ew]. unfold replbench_main, bench_start. fold o. rewrite Ew. cbn [mbind option_bind].
  pose proof (number_option_range i "--MORTON_PLAYERS" "350" : 0 <= bo_players o < _). pose proof (number_option_range i "--MORTON_DRIFTERS" "300" : 0 <= bo_drifters o < _).
  assert (Hp : params_ok WorldParams_default) by (by vm_compute). pose proof (configure_world_ok _ _ _ Hp Ew) as Hw.
  assert (En : w_next_entity w = 1 /\ w_players w = ∅).
  { unfold World.configure in Ew. destruct (grid_configure _ _ _) as [g|]; [|done]. cbn [mbind option_bind] in Ew. destruct (fleb _ _); [|done]. by injection Ew as <-. }
  destruct En as [En Ep]. assert (Hnext : w_next_entity w + Z.of_nat (Z.to_nat (bo_players o)) < 2 ^ 32) by lia.
  pose proof (bench_viewers_ok (Z.to_nat (bo_players o)) 0 w (mt19937 (bo_seed o)) Hw) as Hv.
  destruct (bench_viewers _ _ _ _ _ _) as [[viewers w1] rng]. destruct Hv as [Hw1 En1]; [intros; by rewrite Ep|lia..|].
  pose proof (bench_drifters_ok (Z.to_nat (bo_drifters o)) w1 rng Hw1 ltac:(lia)) as Hw2. destruct (bench_drifters _ _ _ _ _) as [w2 rng2]. cbn [fst mbind option_bind] in *.
  match goal with |- context [bench_ticks _ _ _ _ ?l ?b] => destruct (bench_ticks_ok (bo_warmup o) l 0 b) as [b' ->]; [done|] end.
  by eexists.
Qed.
End Completes.

(** With one round, or none, no measurement is kept, and the median of none is read. *)
Lemma median_of_none : median [] = None.
Proof. reflexivity. Qed.
